(* ===== verification/_CoqProject ===== *)
-Q . S2P
Prelude.v
Buffer.v
Serializer.v
Crc32.v
Codec.v
Messages.v
Typing.v
Async.v
Awaiter.v
OpQueue.v
GlobalMgr.v
Strand.v
Scheduler.v
SchedulerOk.v
SchedulerWake.v
IoBuffers.v
BufferCopy.v
BuffersIterator.v
Composed.v
DynBuffers.v
BasicStreambuf.v
ReadUntil.v
DynTransfer.v
RandomAccess.v
IoSamples.v
TimerQueue.v
TimerHeap.v
Timers.v
Peer.v
LogStore.v
StateMgr.v
Server.v
Replication.v
Election.v
Startup.v
Samples.v
Follower.v
Leader.v
Commit.v
Quorum.v
Total.v
Append.v
Applied.v
Client.v
Snapshot.v
SnapshotIo.v
Membership.v
Dispatch.v
Wire.v
WireOk.v
Session.v
SessionOk.v
WireSafe.v
RpcClient.v
RpcStream.v
ResponseOk.v
StreamSession.v
ServerSession.v
TransportSamples.v
SessionSamples.v
Service.v
Address.v
Network.v
IpSamples.v
LeaderLog.v
Frame.v
UserCmd.v
Shutdown.v
Forward.v
Votes.v
Safety.v
Rules.v
