(* ===== verification/Prelude.v ===== *)
(** * xio: the raft library and the timers and queues of its I/O core

    xio is a C++ library of asynchronous I/O (src/xio) with an implementation of
    the Raft consensus protocol on top of it (src/xio/raft).  This development
    models the raft library, bottom-up from its byte buffers to a cluster of
    servers, and of the I/O core the buffers, the operations composed of reads and
    writes, and the queues of timers and operations.

    ** Parts and files

    Data.  [Buffer] is buffer.{h,cc}: blocks with a packed header, every access
    checked.  [Serializer] is buffer_serializer.{h,cc}.  [Crc32] is crc32.cc.
    [Codec] holds the encodings of srv_state, srv_config, cluster_config,
    snapshot, snapshot_sync_req and log_entry; [Messages] the requests,
    responses, parameters (raft_params.h), timers (internal_timer.h) and
    notifications.  [Typing] is about the decoders on arbitrary bytes.

    Concurrency primitives.  [Async] is cmd_result (async.h); [Awaiter] is
    EventAwaiter (event_awaiter.h), whose threads, mutex, condition variable and
    spurious wake-ups are steps of a transition relation.  [GlobalMgr] is the pool of
    threads that servers share (global_mgr.{h,cc}), [Strand] the strands of the I/O
    core (detail/strand_executor_service.h, detail/strand_service.h), [Scheduler] the
    scheduler of an io_context with its event (detail/scheduler.h, impl/scheduler.cc,
    posix_event.h), about which are [SchedulerOk] and [SchedulerWake]; in all of them a
    step is one operation, or one critical section, of one thread.

    I/O core.  [OpQueue] is detail/op_queue.h, links in a heap of operations;
    [TimerQueue], [TimerHeap] and [Timers] are detail/timer_queue.h with
    detail/chrono_time_traits.h and the reactor's move_timer.  [IoBuffers] are the
    buffers of buffer.h and consuming_buffers, a class [Consuming] with its laws and
    three instances; [BufferCopy] is buffer_copy, [BuffersIterator] buffers_iterator.
    [DynBuffers] and [BasicStreambuf]
    are the buffers that grow, instances of a class [DynBuffer].  [Composed] has the
    completion conditions and read, write and their asynchronous forms (impl/read.h,
    impl/write.h) over streams, which are classes with laws; [ReadUntil] is
    impl/read_until.h, [DynTransfer] the reads and writes of dynamic buffers and the
    overloads, [RandomAccess] impl/read_at.h and impl/write_at.h.  [IoSamples] has
    streams and devices for examples.  [Address] has the addresses of ip/ with their
    iterators, ranges, endpoints and text (a class [AddressLaws] states what the ranges
    use of an address, a class [InetLaws] what the text is read back under), [Network]
    network_v4 and network_v6; [IpSamples] has examples.

    Storage.  [LogStore] is the interface log_store.h, a class [LogStore] of
    operations with a class [LogStoreSpec] of laws over an abstract log, and
    in_memory_log_store.cc, its instance; [StateMgr] is in_memory_state_mgr.h.

    Server.  [Peer] is peer.{h,cc}.  [Server] has the fields of raft_server and
    the operations all handlers share.  [Replication] sends entries and
    snapshots and moves the commit index (handle_append_entries.cc, commit in
    handle_commit.cc, create_sync_snapshot_req in handle_snapshot_sync.cc);
    [Election] is handle_vote.cc with become_leader and the election timeout;
    [Follower] and [Leader] are the two sides of handle_append_entries.cc;
    [Startup] is the constructor and start_server; [Commit] is the commit thread
    (handle_commit.cc) and [Client] the client requests
    (handle_client_request.cc); [Snapshot] is the transfer of snapshots
    (handle_snapshot_sync.cc), [Membership] joining and leaving
    (handle_join_leave.cc) with the heartbeat timeout, [Dispatch] the entry
    points process_req and handle_peer_resp with priorities
    (handle_priority.cc) and notifications (handle_custom_notification.cc).
    [UserCmd] has the functions a user calls (handle_user_cmd.cc and the public part
    of raft_server.cc) with the shut-down, about which is [Shutdown]; [Forward] is
    the forwarding of a user's requests to the leader and [SnapshotIo] the queue of
    the thread that reads snapshots (snapshot_sync_ctx.cc), both as steps of threads.
    [Samples] has concrete servers.

    Transport (xio_service.cc).  [Wire] is the framing of requests and responses;
    [Session] is rpc_session, the server's end of a connection, against a class
    [MsgHandler] that states what it uses of the server; [RpcClient] is
    xio_rpc_client, whose steps run from one lock or asynchronous operation to the
    next; [Service] has the listener, the parsing of endpoints and delayed tasks.
    [WireOk], [SessionOk], [WireSafe], [RpcStream] and [ResponseOk] are the proofs
    and [TransportSamples] concrete messages and runs.  [StreamSession] puts a session
    on a stream: its reads are the composed reads of [Composed].  [ServerSession] makes
    raft_server the handler of a session, as raft_server_handler.h does, and follows an
    append request from the bytes of a connection to the follower's log;
    [SessionSamples] has an example.

    Proofs about the server.  [Total] (operations that return), [Append] (the
    log of a follower), [Applied] (what the state machine is given), [LeaderLog]
    (the log of a leader), [Quorum], [Frame] and [Votes] (what handlers leave of
    terms and votes), [Safety] (a cluster) and [Rules] (votes, priorities,
    timeouts, restarts).

    ** How code is modelled

    A member function that may throw and mutates its object is a function of the
    monad [M S A = S -> res A * S]; exceptions keep the mutations made before
    them.  [Undefined] stands for undefined behaviour (a null pointer, an access
    outside a block), [Sys_exit] for the end of the process, [Blocked] for a wait
    or a loop that does not end.  Integers are [Z] with the wrap-around of their
    width written out ([u64], [s32], ...).  Handlers run one after the other, as
    the server's lock makes them; the clock stands still during one.  Whatever
    they do outside the server is an [event] of the history [trace_].  The
    callback, the state machine, the RPC clients and the random numbers are the
    fields of [Env], functions of the history; the interface of the log store is
    a class.  Uninitialised memory is the class [Uninit].  A round of the commit
    thread is one step; the events of its snapshot may come with it or later.

    A [std::map] or [std::unordered_map] is a [gmap]; where the code iterates
    over one, the model uses the order of the [gmap], and no theorem depends on
    it.  [assert]s, logging and statistics are left out.

    Loops: those of a bounded number of turns are fixpoints on that number or on
    the list they run over; the heap loops, the chain of configurations and the
    commit loop have fuel which the theorems show to be enough ([Blocked] is not
    reached): the size of the heap, the number of entries in the log, and the
    distance between the state machine's index and the commit index.  A composed
    operation takes a turn for every byte at most: its fuel is the number of bytes
    of its buffers, or of those to come, and two.

    Memory of the I/O core: a buffer is an address and a size, and an operation that
    stores or copies bytes is told by the addresses it touches, in order.

    ** What is shown

    Protocol: two leaders of a term are the same server in any run of a cluster
    with loss, delay, reordering and restarts ([Safety]); an append request
    merges its entries into the log and keeps what matches ([Append]); a leader
    only appends ([LeaderLog]); the index it commits is the largest that a quorum
    has stored ([Quorum]); votes are granted exactly under the conditions of Raft
    and priorities ([Rules]); the state machine is given the committed entries in
    order, once, and a round ends ([Applied]); client entries are appended,
    pre-committed and awaited ([Client]); the last object of a snapshot installs
    it ([Snapshot]); successive configurations have no disjoint majorities
    ([Membership], and [UserCmd] for the changes made on a user's call); a restarted
    server has the saved term and vote ([Rules]); a server that is shut down leaves
    nobody waiting and does nothing any more ([Shutdown]); forwarded requests share a
    bounded number of connections and none is lost ([Forward]).

    Transport: a request is dispatched, and a response delivered, as it was sent,
    however the network cuts its bytes ([StreamSession], [SessionOk], [ResponseOk]);
    an append request from a connection ends up in the follower's log
    ([ServerSession]); damaged headers are refused ([SessionOk]); on any
    bytes a session stays inside its blocks and its loops end ([WireSafe]); in
    streaming mode responses go to the requests in order, in every interleaving
    ([RpcStream]).

    Storage and data: the in-memory store refines the abstract log ([LogStore]);
    encodings are read back as written, decoders only return well-typed values
    ([Codec], [Messages], [Serializer], [Typing]); accesses stay inside buffers
    ([Buffer]); the fast CRC is the bitwise one and detects bursts ([Crc32]).

    Concurrency and the I/O core: a result is delivered once ([Async]); wake-ups
    are not lost and waits end ([Awaiter]); a strand runs one handler at a time, in
    order, and loses none ([Strand]); the scheduler keeps its operations in order, runs
    each once and counts its work exactly ([SchedulerOk]), and loses no wake-up
    ([SchedulerWake]); servers are queued once and served in order by
    the thread pool ([GlobalMgr]); the intrusive queues are lists
    ([OpQueue]); the snapshot thread accounts for every request ([SnapshotIo]); the
    timer queue conserves its operations, and enqueueing,
    firing and cancelling do what they promise ([Timers]); times saturate
    ([TimerQueue]); composed operations end and transfer the bytes of their buffers
    in order, all of them without an error ([Composed], [RandomAccess],
    [DynTransfer]); read_until finds the first match of its delimiter and loses no
    byte ([ReadUntil]); buffer_copy is a copy of lists ([BufferCopy]), an iterator of buffers
    an index into the list of their bytes ([BuffersIterator]); a loop over the
    hosts of a network visits its addresses, subnets are inclusions, masks are those of
    networks, and addresses and networks are read back from their text ([Network]).

    Some statements record where the code does not do what it means to:
    [Buffer.get_str_at_end_breaks_bounds], [Rules.compacted_log_grants_stale],
    [Membership.leave_during_join_splits], [Awaiter.spurious_wake_up_returns],
    [Service.endpoint_without_port], [Service.Listener.sessions_outlive_shutdown],
    [Service.Delayed.rescheduled_runs_early], [IoSamples.until_without_match],
    [GlobalMgr.missed_wake_up], [SchedulerWake.deferred_wakes_no_one],
    [UserCmd.two_updates_split], [UserCmd.follower_appends],
    [Forward.null_connection_keeps_slot], [Forward.shutdown_forgets_queued],
    [SnapshotIo.break_discards_others], [SnapshotIo.dropped_comes_back],
    [Network.last_address_not_found], [Network.multicast_not_found],
    [Network.whole_v6_is_empty], [Network.scope_read_undefined] and
    [Network.prefix_read_undefined].

    ** Not modelled

    The thread that reads snapshots is modelled up to what it does with one request,
    which is an outcome.  It and the waits for a pause of the state machine only
    move calls between threads; while a follower waits for such a pause, other
    threads may change the server, which is an argument of the reception.  The
    statistics are compiled out by default.  The worker threads of the service, the
    set-up of TLS and the rest of the I/O core (sockets, reactors,
    executors, coroutines, resolvers, other platforms) are system calls and
    templates around them. *)
From stdpp Require Export prelude list gmap.
From Stdlib Require Export ZArith Lia.

Declare Scope xio_scope.
Delimit Scope xio_scope with xio.
#[global] Open Scope Z_scope.
#[global] Open Scope xio_scope.

(** Hint databases: [xio] for side conditions, [codec] for the derivations of
    writers and readers, [width] and [zlen] for rewriting. *)
Create HintDb xio.
Create HintDb codec.
Create Rewrite HintDb width.
Create Rewrite HintDb zlen.

(** * Functional record update

    The C++ classes become records.  [Eta R] gives the eta-expanded form of a
    record; from it the setter of each projection is computed by unification,
    so that [r <| f := v |>] is the assignment [r.f = v]. *)

Class Eta (R : Type) := eta : R -> R.

Class Setter {R T : Type} (p : R -> T) := upd : (T -> T) -> R -> R.
Arguments upd {R T} p {_} _ _.

Ltac build_setter R T p :=
  let e := eval cbv [eta] in (@eta R _) in
  let t := constr:(fun (f : T -> T) (r : R) =>
    ltac:(let body := eval cbv beta in (e r) in
          let body := eval hnf in body in
          let abs := eval pattern (p r) in body in
          lazymatch abs with
          | ?g _ => let out := eval cbv beta in (g (f (p r))) in exact out
          end)) in
  exact t.

#[global] Hint Extern 1 (@Setter ?R ?T ?p) => build_setter R T p
  : typeclass_instances.

Notation "r <| p := v |>" := (upd p (fun _ => v) r)
  (at level 1, p constr at level 0, v at level 200, left associativity)
  : xio_scope.
Notation "r <| p ::= f |>" := (upd p f r)
  (at level 1, p constr at level 0, f at level 200, left associativity)
  : xio_scope.

(** * Exceptions and mutable state

    A C++ member function that may throw and that mutates its object is a
    function [S -> res A * S]: the state reached is kept when an exception
    leaves the function, as the mutations made before the [throw] are.
    [Undefined] is an access outside the memory of an object, [Sys_exit] the end
    of the process, [Blocked] a wait that nothing ends. *)

Inductive exn : Type :=
| Out_of_range
| Overflow_error
| Runtime_error
| Invalid_argument
| Length_error
| Sys_exit
| Undefined
| Blocked.

Inductive res (A : Type) : Type :=
| Ok (a : A)
| Throw (e : exn).
Arguments Ok {A} a.
Arguments Throw {A} e.

#[global] Instance exn_eq_dec : EqDecision exn.
Proof. solve_decision. Defined.

Definition M (S A : Type) : Type := S -> res A * S.

Definition ret {S A} (a : A) : M S A := fun s => (Ok a, s).

Definition throw {S A} (e : exn) : M S A := fun s => (Throw e, s).

Definition bind {S A B} (m : M S A) (k : A -> M S B) : M S B :=
  fun s =>
    match m s with
    | (Ok a, s') => k a s'
    | (Throw e, s') => (Throw e, s')
    end.

Definition gets {S A} (f : S -> A) : M S A := fun s => (Ok (f s), s).

Definition modify {S} (f : S -> S) : M S unit := fun s => (Ok tt, f s).

Notation "x <- m ;; k" := (bind m (fun x => k))
  (at level 100, m at next level, right associativity) : xio_scope.
Notation "m ;; k" := (bind m (fun _ => k))
  (at level 100, right associativity) : xio_scope.

(** A throwing computation without state, run inside a stateful one. *)
Definition lift {S A} (r : res A) : M S A := fun s => (r, s).

(** The value a function returns on a state, and the state it leaves. *)
Definition run_val {S A} (m : M S A) (s : S) : res A := fst (m s).

Definition run_state {S A} (m : M S A) (s : S) : S := snd (m s).

Definition rbind {A B} (r : res A) (k : A -> res B) : res B :=
  match r with Ok a => k a | Throw e => Throw e end.

Notation "'let*' x := r 'in' k" := (rbind r (fun x => k))
  (at level 100, x name, r at next level, k at level 200, right associativity)
  : xio_scope.

(** * Machine integers *)

Definition u8 (z : Z) : Z := z mod 2 ^ 8.

Definition u16 (z : Z) : Z := z mod 2 ^ 16.

Definition u32 (z : Z) : Z := z mod 2 ^ 32.

Definition u64 (z : Z) : Z := z mod 2 ^ 64.

Definition s8 (z : Z) : Z := (z + 2 ^ 7) mod 2 ^ 8 - 2 ^ 7.

Definition s16 (z : Z) : Z := (z + 2 ^ 15) mod 2 ^ 16 - 2 ^ 15.

Definition s32 (z : Z) : Z := (z + 2 ^ 31) mod 2 ^ 32 - 2 ^ 31.

Definition s64 (z : Z) : Z := (z + 2 ^ 63) mod 2 ^ 64 - 2 ^ 63.

(** Ranges of the types of basic_types.h. *)
Definition is_u8 (z : Z) : Prop := 0 <= z < 2 ^ 8.

Definition is_u32 (z : Z) : Prop := 0 <= z < 2 ^ 32.

Definition is_u64 (z : Z) : Prop := 0 <= z < 2 ^ 64.

Definition is_s32 (z : Z) : Prop := - 2 ^ 31 <= z < 2 ^ 31.

Definition is_s64 (z : Z) : Prop := - 2 ^ 63 <= z < 2 ^ 63.

(** [std::numeric_limits<ulong>::max()]. *)
Definition ulong_max : Z := 2 ^ 64 - 1.

Ltac unfold_width :=
  unfold is_u8, is_u32, is_u64, is_s32, is_s64, u8, u16, u32, u64,
    s8, s16, s32, s64, ulong_max in *.

Lemma u64_small z : is_u64 z -> u64 z = z.
Proof. unfold_width. intros. by apply Z.mod_small. Qed.

Lemma u32_small z : is_u32 z -> u32 z = z.
Proof. unfold_width. intros. by apply Z.mod_small. Qed.

Lemma u8_small z : is_u8 z -> u8 z = z.
Proof. unfold_width. intros. by apply Z.mod_small. Qed.

Lemma u64_range z : is_u64 (u64 z).
Proof. unfold_width. apply Z.mod_pos_bound. lia. Qed.

Lemma s32_small z : is_s32 z -> s32 z = z.
Proof. unfold_width. intros. rewrite Z.mod_small; lia. Qed.

Lemma s32_mod z z' : z mod 2 ^ 32 = z' mod 2 ^ 32 -> s32 z = s32 z'.
Proof.
  unfold s32. intros H. f_equal.
  rewrite <- (Z.add_mod_idemp_l z), <- (Z.add_mod_idemp_l z') by lia.
  by rewrite H.
Qed.

Lemma s32_u32 z : s32 (u32 z) = s32 z.
Proof. apply s32_mod. unfold u32. by rewrite Z.mod_mod by lia. Qed.

Lemma s64_mod z z' : z mod 2 ^ 64 = z' mod 2 ^ 64 -> s64 z = s64 z'.
Proof.
  unfold s64. intros H. f_equal.
  rewrite <- (Z.add_mod_idemp_l z), <- (Z.add_mod_idemp_l z') by lia.
  by rewrite H.
Qed.

Lemma s64_small z : is_s64 z -> s64 z = z.
Proof. unfold_width. intros. rewrite Z.mod_small; lia. Qed.

#[export] Hint Resolve u64_range : xio.
#[export] Hint Rewrite u64_small u32_small u8_small s32_small s64_small
  using (unfold_width; lia) : width.

(** * Lists indexed by Z *)

Definition zlen {A} (l : list A) : Z := Z.of_nat (length l).

Definition ztake {A} (n : Z) (l : list A) : list A := take (Z.to_nat n) l.

Definition zdrop {A} (n : Z) (l : list A) : list A := drop (Z.to_nat n) l.

Lemma zlen_nonneg {A} (l : list A) : 0 <= zlen l.
Proof. unfold zlen. lia. Qed.

Lemma zlen_nil {A} : zlen (@nil A) = 0.
Proof. reflexivity. Qed.

Lemma zlen_cons {A} (x : A) l : zlen (x :: l) = 1 + zlen l.
Proof. unfold zlen. cbn. lia. Qed.

Lemma zlen_app {A} (l k : list A) : zlen (l ++ k) = zlen l + zlen k.
Proof. unfold zlen. rewrite length_app. lia. Qed.

Lemma zlen_map {A B} (f : A -> B) l : zlen (map f l) = zlen l.
Proof. unfold zlen. by rewrite length_map. Qed.

Lemma ztake_app {A} (l k : list A) : ztake (zlen l) (l ++ k) = l.
Proof. unfold ztake, zlen. rewrite Nat2Z.id. apply take_app_length. Qed.

Lemma zdrop_app {A} (l k : list A) : zdrop (zlen l) (l ++ k) = k.
Proof. unfold zdrop, zlen. rewrite Nat2Z.id. apply drop_app_length. Qed.

Lemma ztake_all {A} (l : list A) : ztake (zlen l) l = l.
Proof. unfold ztake, zlen. rewrite Nat2Z.id. apply firstn_all. Qed.

Lemma zdrop_all {A} (l : list A) : zdrop (zlen l) l = [].
Proof. unfold zdrop, zlen. rewrite Nat2Z.id. apply drop_all. Qed.

Lemma ztake_zdrop {A} n (l : list A) : ztake n l ++ zdrop n l = l.
Proof. apply take_drop. Qed.

Lemma zlen_ztake {A} n (l : list A) : 0 <= n <= zlen l -> zlen (ztake n l) = n.
Proof. unfold zlen, ztake. intros. rewrite length_take. lia. Qed.

Lemma zlen_zdrop {A} n (l : list A) :
  0 <= n <= zlen l -> zlen (zdrop n l) = zlen l - n.
Proof. unfold zlen, zdrop. intros. rewrite length_drop. lia. Qed.

Lemma zlen_0_nil {A} (l : list A) : zlen l = 0 -> l = [].
Proof. destruct l; [done|]. unfold zlen. cbn. lia. Qed.

Lemma zdrop_ge {A} n (l : list A) : zlen l <= n -> zdrop n l = [].
Proof. intros H. unfold zdrop, zlen in *. apply drop_ge. lia. Qed.

Lemma ztake_ge {A} n (l : list A) : zlen l <= n -> ztake n l = l.
Proof. intros H. unfold ztake, zlen in *. apply take_ge. lia. Qed.

Lemma zdrop_app_le {A} n (l k : list A) : 0 <= n <= zlen l -> zdrop n (l ++ k) = zdrop n l ++ k.
Proof. intros H. unfold zdrop, zlen in *. apply drop_app_le. lia. Qed.

(** A list whose length is known splits at any index inside it. *)
Lemma zsplit {A} n (l : list A) :
  0 <= n <= zlen l -> exists a b, l = a ++ b /\ zlen a = n.
Proof.
  intros H. exists (ztake n l), (zdrop n l).
  by rewrite ztake_zdrop, zlen_ztake.
Qed.

#[export] Hint Rewrite @zlen_nil @zlen_cons @zlen_app @zlen_map : zlen.

(** Adds [0 <= zlen l] for the lists of the goal, once each. *)
Ltac zlen_facts :=
  repeat match goal with
  | |- context [zlen ?l] =>
      lazymatch goal with
      | _ : 0 <= zlen l |- _ => fail
      | _ => pose proof (zlen_nonneg l)
      end
  | _ : context [zlen ?l] |- _ =>
      lazymatch goal with
      | _ : 0 <= zlen l |- _ => fail
      | _ => pose proof (zlen_nonneg l)
      end
  end.

Ltac zlen_lia := autorewrite with zlen in *; zlen_facts; lia.

(** * Options and booleans *)

Definition is_none {A} (o : option A) : bool :=
  match o with None => true | Some _ => false end.

Definition is_some {A} (o : option A) : bool := negb (is_none o).

(** Case analysis on every boolean test that blocks the goal. *)
Ltac split_ifs :=
  repeat match goal with
  | |- context [if ?b then _ else _] => destruct b eqn:?
  | H : context [if ?b then _ else _] |- _ => destruct b eqn:?
  end.

(** Turns boolean (in)equalities of the hypotheses into propositions. *)
Ltac bool_to_prop :=
  repeat match goal with
  | H : _ && _ = true |- _ => apply andb_true_iff in H; destruct H
  | H : _ || _ = false |- _ => apply orb_false_iff in H; destruct H
  | H : negb _ = true |- _ => apply negb_true_iff in H
  | H : negb _ = false |- _ => apply negb_false_iff in H
  | H : (_ =? _) = true |- _ => apply Z.eqb_eq in H
  | H : (_ =? _) = false |- _ => apply Z.eqb_neq in H
  | H : (_ <? _) = true |- _ => apply Z.ltb_lt in H
  | H : (_ <? _) = false |- _ => apply Z.ltb_ge in H
  | H : (_ <=? _) = true |- _ => apply Z.leb_le in H
  | H : (_ <=? _) = false |- _ => apply Z.leb_gt in H
  end.

Lemma ltb_true a b : a < b -> (a <? b) = true.
Proof. intros. by apply Z.ltb_lt. Qed.

Lemma ltb_false a b : b <= a -> (a <? b) = false.
Proof. intros. by apply Z.ltb_ge. Qed.

Lemma leb_true a b : a <= b -> (a <=? b) = true.
Proof. intros. by apply Z.leb_le. Qed.

Lemma leb_false a b : b < a -> (a <=? b) = false.
Proof. intros. by apply Z.leb_gt. Qed.

Lemma eqb_false a b : a <> b -> (a =? b) = false.
Proof. intros. by apply Z.eqb_neq. Qed.

(** Rewrites the comparisons of the goal that [lia] decides. *)
Ltac decide_cmp :=
  repeat match goal with
  | |- context [?a <? ?b] =>
      first [ rewrite (ltb_true a b) by lia | rewrite (ltb_false a b) by lia ]
  | |- context [?a <=? ?b] =>
      first [ rewrite (leb_true a b) by lia | rewrite (leb_false a b) by lia ]
  | |- context [?a =? ?b] =>
      first [ rewrite (proj2 (Z.eqb_eq a b)) by lia
            | rewrite (eqb_false a b) by lia ]
  end.

(** Two parts of a finite set that together outnumber it share an element. *)
Lemma large_parts_meet (X q1 q2 : gset Z) :
  q1 ⊆ X -> q2 ⊆ X -> (base.size X < base.size q1 + base.size q2)%nat ->
  exists i, i ∈ q1 /\ i ∈ q2.
Proof.
  intros S1 S2 Hl. destruct (set_choose_or_empty (q1 ∩ q2)) as [(i & Hi)|He]; [exists i; set_solver|].
  exfalso. assert (q1 ## q2) by set_solver. assert (q1 ∪ q2 ⊆ X) as Su by set_solver.
  apply subseteq_size in Su. rewrite size_union in Su by done. lia.
Qed.

(** The results of a function on a list of which one element changes. *)
Lemma concat_map_insert {A B} (f : A -> list B) l t x y :
  l !! t = Some x -> concat (map f (<[t := y]> l)) ++ f x ≡ₚ concat (map f l) ++ f y.
Proof.
  revert t. induction l as [|z l IH]; intros [|t] H; [done..| |].
  - injection H as ->. change ((f y ++ concat (map f l)) ++ f x ≡ₚ (f x ++ concat (map f l)) ++ f y). solve_Permutation.
  - change ((f z ++ concat (map f (<[t := y]> l))) ++ f x ≡ₚ (f z ++ concat (map f l)) ++ f y).
    rewrite <- !app_assoc. by rewrite (IH t H).
Qed.

Lemma map_sublist {A B} (f : A -> B) (l l' : list A) : l `sublist_of` l' -> map f l `sublist_of` map f l'.
Proof. induction 1; cbn [map]; by constructor. Qed.
