(* ===== verification/Buffer.v ===== *)
(** The byte buffer of the Raft module (src/xio/raft/buffer.{h,cc}): a block of
    memory with a header that packs the size and the read/write position, in
    16-bit halves for blocks below 0x8000 bytes and in 32-bit words with a tag
    bit above.  The header words are kept as the code keeps them; [mkbuf] is
    the abstract view (contents and position) that the other components use,
    and each operation is characterised on it. *)
From S2P Require Import Prelude.

(** The bytes [new char[len]] leaves in fresh memory: unspecified, hence a
    parameter of everything that allocates. *)
Class Uninit := uninit : nat -> Z.

(** [h0] is the first 32-bit word of the block and [h1] the second one of a
    big block; the two [ushort] of a small block are the halves of [h0].
    [bytes] is the memory behind the header. *)
Record buffer := mk_buffer { h0 : Z; h1 : Z; bytes : list Z }.

#[global] Instance eta_buffer : Eta buffer :=
  fun b => mk_buffer (h0 b) (h1 b) (bytes b).

(** * The header macros *)

Definition is_big_block (b : buffer) : bool := Z.testbit (h0 b) 31.

Definition init_s_block (len : Z) (mem : list Z) : buffer :=
  mk_buffer (u16 len) 0 mem.

Definition init_b_block (len : Z) (mem : list Z) : buffer :=
  mk_buffer (Z.lor (u32 len) 0x80000000) 0 mem.

Definition pos_of_s_block (b : buffer) : Z := h0 b / 2 ^ 16.

Definition pos_of_b_block (b : buffer) : Z := h1 b.

Definition size_of_block (b : buffer) : Z :=
  if is_big_block b then Z.lxor (h0 b) 0x80000000 else h0 b mod 2 ^ 16.

Definition pos_of_block (b : buffer) : Z :=
  if is_big_block b then pos_of_b_block b else pos_of_s_block b.

Definition mv_fw_block (delta : Z) (b : buffer) : buffer :=
  if is_big_block b then b <| h1 := u32 (h1 b + delta) |>
  else b <| h0 := h0 b mod 2 ^ 16
                  + u16 (pos_of_s_block b + u16 delta) * 2 ^ 16 |>.

Definition set_block_pos (p : Z) (b : buffer) : buffer :=
  if is_big_block b then b <| h1 := u32 p |>
  else b <| h0 := h0 b mod 2 ^ 16 + u16 p * 2 ^ 16 |>.

(** * Sizes and memory accesses *)

Definition container_size (b : buffer) : Z :=
  size_of_block b + (if is_big_block b then 4 * 2 else 2 * 2).

Definition size (b : buffer) : Z := size_of_block b.

Definition pos (b : buffer) : Z := pos_of_block b.

(** [size() - pos()] on [size_t]. *)
Definition avail (b : buffer) : Z := u64 (size b - pos b).

(** [n] bytes from offset [off] behind the header ([data_begin() + off]). *)
Definition load (off n : Z) : M buffer (list Z) := fun b =>
  if (0 <=? off) && (off + n <=? zlen (bytes b))
  then (Ok (ztake n (zdrop off (bytes b))), b)
  else (Throw Undefined, b).

Definition store (off : Z) (bs : list Z) : M buffer unit := fun b =>
  if (0 <=? off) && (off + zlen bs <=? zlen (bytes b))
  then (Ok tt, b <| bytes := ztake off (bytes b) ++ bs
                             ++ zdrop (off + zlen bs) (bytes b) |>)
  else (Throw Undefined, b).

(** The position advances by [n] after an access at [data()]. *)
Definition advance (n : Z) : M buffer unit := modify (mv_fw_block n).

Definition set_pos (p : Z) : M buffer unit := fun b =>
  let position := if size b <? p then size b else p in
  (Ok tt, set_block_pos position b).

Definition guard {S} (c : bool) (e : exn) : M S unit :=
  if c then ret tt else throw e.

(** * Allocation *)

Section Alloc.
Context `{U : Uninit}.

Definition fresh (n : Z) : list Z :=
  map (fun i => u8 (uninit i)) (seq 0 (Z.to_nat n)).

Definition alloc (sz : Z) : res buffer :=
  if 0x80000000 <=? sz then Throw Out_of_range
  else if 0x8000 <=? sz then Ok (init_b_block sz (fresh sz))
  else Ok (init_s_block sz (fresh sz)).

End Alloc.

(** * Little-endian integers *)

(** [for i < n: *(d + i) = (byte)(val >> (i * 8))]. *)
Definition le_bytes (n : nat) (v : Z) : list Z :=
  map (fun i => u8 (Z.shiftr v (Z.of_nat i * 8))) (seq 0 n).

(** [for i: val += ((T) d[i]) << (i * 8)] in the integer type [wrap] stands for. *)
Fixpoint acc_le (wrap : Z -> Z) (bs : list Z) (i : nat) (val : Z) : Z :=
  match bs with
  | [] => val
  | b :: bs' =>
      acc_le wrap bs' (S i)
        (wrap (val + wrap (Z.shiftl b (Z.of_nat i * 8))))
  end.

(** * Readers

    Every reader checks the room left, reads at [data()] and moves forward. *)

Definition get_at (n : Z) : M buffer (list Z) :=
  b <- gets id ;;
  guard (negb (avail b <? n)) Overflow_error ;;
  d <- load (pos b) n ;;
  advance n ;;
  ret d.

Definition get_int : M buffer Z :=
  d <- get_at 4 ;; ret (acc_le s32 d 0 0).

Definition get_ulong : M buffer Z :=
  d <- get_at 8 ;; ret (acc_le u64 d 0 0).

Definition get_byte : M buffer Z :=
  d <- get_at 1 ;; ret (default 0 (head d)).

(** The length is an [int32] assigned to a [size_t]. *)
Definition get_bytes : M buffer (list Z) :=
  d <- get_at 4 ;; get_at (u64 (acc_le s32 d 0 0)).

Definition get_raw (len : Z) : M buffer (list Z) := get_at len.

(** The bytes before the first NUL, all of them when there is none. *)
Fixpoint cstr_prefix (l : list Z) : list Z :=
  match l with
  | [] => []
  | c :: l' => if c =? 0 then [] else c :: cstr_prefix l'
  end.

(** [None] is the null pointer. *)
Definition get_str : M buffer (option (list Z)) :=
  b <- gets id ;;
  (let p := pos b in
   let s := size b in
   let str := cstr_prefix (ztake (s - p) (zdrop p (bytes b))) in
   let i := zlen str in
   (if i =? 0 then advance (i + 1) else ret tt) ;;
   if (s <=? p + i) || (i =? 0) then ret None
   else advance (i + 1) ;; ret (Some str)).

(** [get(dst)] fills [dst] from its position on, and does not move it. *)
Definition get_buf (dst : buffer) : M buffer buffer :=
  b <- gets id ;;
  (let sz := u64 (size dst - pos dst) in
   d <- load (pos b) sz ;;
   lift (fst (store (pos dst) d dst)) ;;
   advance sz ;;
   ret (snd (store (pos dst) d dst))).

(** * Writers

    Every writer checks the room left, writes at [data()] and moves forward. *)

Definition put_at (bs : list Z) : M buffer unit :=
  b <- gets id ;;
  guard (negb (avail b <? zlen bs)) Overflow_error ;;
  store (pos b) bs ;;
  advance (zlen bs).

Definition put_byte (v : Z) : M buffer unit := put_at [v].

Definition put_raw (ba : list Z) : M buffer unit := put_at ba.

(** The length is written first, also when the bytes do not fit. *)
Definition put_bytes (ba : list Z) : M buffer unit :=
  put_at (le_bytes 4 (zlen ba)) ;; put_raw ba.

Definition put_int (v : Z) : M buffer unit := put_at (le_bytes 4 v).

Definition put_ulong (v : Z) : M buffer unit := put_at (le_bytes 8 v).

Definition put_str (str : list Z) : M buffer unit := put_at (str ++ [0]).

(** The unread part of [src]. *)
Definition remaining (src : buffer) : list Z :=
  ztake (size src - pos src) (zdrop (pos src) (bytes src)).

Definition put_buf (src : buffer) : M buffer unit :=
  b <- gets id ;;
  guard (negb (avail b <? u64 (size src - pos src))) Overflow_error ;;
  store (pos b) (remaining src) ;;
  advance (size src - pos src).

(** * Copies *)

Section Copies.
Context `{U : Uninit}.

Definition copy (b : buffer) : res buffer :=
  let* other := alloc (u64 (size b - pos b)) in
  match (put_buf b ;; set_pos 0) other with
  | (Ok _, other') => Ok other'
  | (Throw e, _) => Throw e
  end.

Definition clone (b : buffer) : res buffer :=
  let* other := alloc (size b) in
  match (store 0 (ztake (size b) (bytes b)) ;; set_pos 0) other with
  | (Ok _, other') => Ok other'
  | (Throw e, _) => Throw e
  end.

Definition expand (b : buffer) (new_size : Z) : res buffer :=
  if 0x80000000 <=? new_size then Throw Out_of_range
  else if new_size <? size b then Throw Out_of_range
  else
    let* other := alloc new_size in
    match (store 0 (ztake (size b) (bytes b)) ;; set_pos (pos b)) other with
    | (Ok _, other') => Ok other'
    | (Throw e, _) => Throw e
    end.

End Copies.

(** * The abstract view: contents and position *)

Definition mkbuf (l : list Z) (p : Z) : buffer :=
  if zlen l <? 0x8000 then mk_buffer (zlen l + p * 2 ^ 16) 0 l
  else mk_buffer (2 ^ 31 + zlen l) p l.

(** The contents fit in a block and the position is inside it. *)
Definition in_block (l : list Z) (p : Z) : Prop :=
  0 <= p <= zlen l /\ zlen l < 2 ^ 31.

Definition byte_ok (v : Z) : Prop := 0 <= v < 256.

(** A buffer as the operations leave it. *)
Definition wf (b : buffer) : Prop :=
  exists l p, in_block l p /\ b = mkbuf l p.

Lemma testbit31_small n : 0 <= n < 2 ^ 31 -> Z.testbit n 31 = false.
Proof.
  intros H. destruct (Z.eq_dec n 0) as [->|]; [apply Z.bits_0|].
  apply Z.bits_above_log2; [lia|]. apply Z.log2_lt_pow2; lia.
Qed.

Lemma land_bit31 n : 0 <= n < 2 ^ 31 -> Z.land n 0x80000000 = 0.
Proof.
  intros H. apply Z.bits_inj_0. intros i. change 0x80000000 with (2 ^ 31).
  rewrite Z.land_spec, Z.pow2_bits_eqb by lia.
  destruct (Z.eqb_spec 31 i) as [<-|]; [|by rewrite andb_false_r].
  by rewrite testbit31_small.
Qed.

Lemma lor_bit31 n : 0 <= n < 2 ^ 31 -> Z.lor n 0x80000000 = 2 ^ 31 + n.
Proof.
  intros H. pose proof (land_bit31 n H).
  rewrite <- Z.lxor_lor, <- Z.add_nocarry_lxor by done. lia.
Qed.

Lemma lxor_bit31 n : 0 <= n < 2 ^ 31 -> Z.lxor (2 ^ 31 + n) 0x80000000 = n.
Proof.
  intros H. rewrite <- (lor_bit31 n H), <- Z.lxor_lor by by apply land_bit31.
  by rewrite Z.lxor_assoc, Z.lxor_nilpotent, Z.lxor_0_r.
Qed.

Lemma testbit31_big n : 2 ^ 31 <= n < 2 ^ 32 -> Z.testbit n 31 = true.
Proof.
  intros H. apply Z.testbit_true; [lia|].
  assert (n / 2 ^ 31 = 1) as ->; [|done].
  symmetry. apply Z.div_unique with (n - 2 ^ 31); lia.
Qed.

Section Views.
Context (l : list Z) (p : Z).
Hypothesis (Hb : in_block l p).

Lemma mkbuf_bytes : bytes (mkbuf l p) = l.
Proof. unfold mkbuf. by destruct (zlen l <? 0x8000). Qed.

Lemma mkbuf_big : is_big_block (mkbuf l p) = negb (zlen l <? 0x8000).
Proof.
  destruct Hb as [? ?]. unfold mkbuf, is_big_block.
  destruct (zlen l <? 0x8000) eqn:E; bool_to_prop; cbn [h0 negb].
  - apply testbit31_small. lia.
  - apply testbit31_big. lia.
Qed.

Lemma mkbuf_size : size (mkbuf l p) = zlen l.
Proof.
  destruct Hb as [? ?]. unfold size, size_of_block. rewrite mkbuf_big.
  unfold mkbuf. destruct (zlen l <? 0x8000) eqn:E; bool_to_prop; cbn [h0 negb].
  - rewrite Z.mod_add, Z.mod_small by lia. done.
  - apply lxor_bit31. lia.
Qed.

Lemma mkbuf_pos : pos (mkbuf l p) = p.
Proof.
  destruct Hb as [? ?]. unfold pos, pos_of_block. rewrite mkbuf_big.
  unfold mkbuf, pos_of_b_block, pos_of_s_block.
  destruct (zlen l <? 0x8000) eqn:E; bool_to_prop; cbn [h0 h1 negb]; [|done].
  rewrite Z.div_add, Z.div_small by lia. done.
Qed.

Lemma mkbuf_avail : avail (mkbuf l p) = zlen l - p.
Proof.
  unfold avail. rewrite mkbuf_size, mkbuf_pos. destruct Hb.
  apply u64_small. unfold_width. lia.
Qed.

(** The position may leave the block only by the counter of a small block. *)
Lemma mkbuf_mv_fw_le d :
  0 <= d -> (zlen l < 0x8000 -> p + d < 2 ^ 16) -> p + d < 2 ^ 32 ->
  mv_fw_block d (mkbuf l p) = mkbuf l (p + d).
Proof.
  intros ? ? ?. pose proof mkbuf_pos as Hp. destruct Hb as [? ?].
  unfold mv_fw_block, pos, pos_of_block in *. rewrite mkbuf_big in *.
  unfold mkbuf, pos_of_b_block in *.
  destruct (zlen l <? 0x8000) eqn:E; bool_to_prop; cbn [negb] in *.
  - rewrite Hp. unfold upd. cbn. f_equal. unfold u16.
    rewrite Z.mod_add, (Z.mod_small (zlen l)) by lia.
    rewrite (Z.mod_small d) by lia. rewrite Z.mod_small by lia. done.
  - unfold upd. cbn. f_equal. rewrite u32_small; [done|]. unfold_width. lia.
Qed.

Lemma mkbuf_mv_fw d :
  0 <= d -> p + d <= zlen l -> mv_fw_block d (mkbuf l p) = mkbuf l (p + d).
Proof. intros. destruct Hb. apply mkbuf_mv_fw_le; lia. Qed.

Lemma mkbuf_set_pos q :
  0 <= q ->
  set_pos q (mkbuf l p) = (Ok tt, mkbuf l (Z.min q (zlen l))).
Proof.
  intros ?. unfold set_pos. rewrite mkbuf_size. f_equal.
  assert ((if zlen l <? q then zlen l else q) = Z.min q (zlen l)) as ->.
  { split_ifs; bool_to_prop; lia. }
  destruct Hb as [? ?]. unfold set_block_pos. rewrite mkbuf_big. unfold mkbuf.
  destruct (zlen l <? 0x8000) eqn:E; bool_to_prop; unfold upd; cbn; f_equal.
  - unfold u16. rewrite Z.mod_add, (Z.mod_small (zlen l)) by lia.
    by rewrite Z.mod_small by lia.
  - rewrite u32_small; [done|]. unfold_width. lia.
Qed.

Lemma mkbuf_load off n :
  0 <= off -> off + n <= zlen l ->
  load off n (mkbuf l p) = (Ok (ztake n (zdrop off l)), mkbuf l p).
Proof. intros. unfold load. rewrite mkbuf_bytes. by decide_cmp. Qed.

Lemma mkbuf_store off bs :
  0 <= off -> off + zlen bs <= zlen l ->
  store off bs (mkbuf l p)
  = (Ok tt, mkbuf (ztake off l ++ bs ++ zdrop (off + zlen bs) l) p).
Proof.
  intros. unfold store. rewrite mkbuf_bytes. decide_cmp. f_equal.
  pose proof (zlen_nonneg bs).
  assert (zlen (ztake off l ++ bs ++ zdrop (off + zlen bs) l) = zlen l) as E.
  { rewrite !zlen_app, zlen_ztake, zlen_zdrop by lia. lia. }
  unfold mkbuf. rewrite E. by destruct (zlen l <? 0x8000).
Qed.

End Views.

Lemma in_block_wf l p : in_block l p -> wf (mkbuf l p).
Proof. intros. by exists l, p. Qed.

#[export] Hint Resolve in_block_wf : xio.

(** * Little-endian encoding *)

Fixpoint le_val (bs : list Z) : Z :=
  match bs with [] => 0 | b :: bs' => b + 256 * le_val bs' end.

Lemma le_bytes_S n v : le_bytes (S n) v = u8 v :: le_bytes n (Z.shiftr v 8).
Proof.
  unfold le_bytes. cbn [seq map]. rewrite Z.shiftr_0_r. f_equal.
  rewrite <- seq_shift, map_map. apply map_ext. intros i.
  rewrite Z.shiftr_shiftr by lia. do 2 f_equal. lia.
Qed.

Lemma le_val_bytes n v : le_val (le_bytes n v) = v mod 2 ^ (8 * Z.of_nat n).
Proof.
  revert v. induction n as [|n IH]; intros v; [by rewrite Z.mod_1_r|].
  rewrite le_bytes_S. cbn [le_val]. rewrite IH, Z.shiftr_div_pow2 by lia.
  replace (8 * Z.of_nat (S n)) with (8 + 8 * Z.of_nat n) by lia.
  rewrite Z.pow_add_r, Z.rem_mul_r by lia. unfold u8. change (2 ^ 8) with 256. lia.
Qed.

Lemma zlen_le_bytes n v : zlen (le_bytes n v) = Z.of_nat n.
Proof. unfold zlen, le_bytes. by rewrite length_map, length_seq. Qed.

Lemma le_bytes_ok n v : Forall byte_ok (le_bytes n v).
Proof.
  unfold le_bytes. apply Forall_map, Forall_forall. intros i _.
  unfold byte_ok, u8. cbn. apply Z.mod_pos_bound. lia.
Qed.

Section AccLe.
Context (wrap : Z -> Z) (m : Z).
Hypothesis wrap_mod : forall x y, x mod m = y mod m -> wrap x = wrap y.
Hypothesis mod_wrap : forall x, wrap x mod m = x mod m.
Hypothesis m_pos : 0 < m.

Lemma acc_le_val bs i val :
  acc_le wrap bs i (wrap val)
  = wrap (val + le_val bs * 2 ^ (Z.of_nat i * 8)).
Proof.
  revert i val. induction bs as [|b bs IH]; intros i val; cbn [acc_le le_val].
  { f_equal. lia. }
  rewrite IH. apply wrap_mod. rewrite Z.shiftl_mul_pow2 by lia.
  rewrite <- (Z.add_mod_idemp_l (wrap val + _)) by lia.
  rewrite (Z.add_mod (wrap val)), !mod_wrap, <- Z.add_mod by lia.
  rewrite Z.add_mod_idemp_l by lia. f_equal.
  replace (Z.of_nat (S i) * 8) with (8 + Z.of_nat i * 8) by lia.
  rewrite Z.pow_add_r by lia. change (2 ^ 8) with 256. lia.
Qed.

End AccLe.

Lemma s32_mod_wrap x : s32 x mod 2 ^ 32 = x mod 2 ^ 32.
Proof.
  unfold s32. rewrite Zminus_mod_idemp_l. f_equal. lia.
Qed.

(** The loops of [get_int] and [get_ulong] compute the little-endian value. *)
Lemma acc_le_s32 bs : acc_le s32 bs 0 0 = s32 (le_val bs).
Proof.
  change 0 with (s32 0) at 1.
  rewrite (acc_le_val s32 (2 ^ 32)); [f_equal; lia|apply s32_mod|
    apply s32_mod_wrap|lia].
Qed.

Lemma acc_le_u64 bs : acc_le u64 bs 0 0 = u64 (le_val bs).
Proof.
  change 0 with (u64 0) at 1.
  rewrite (acc_le_val u64 (2 ^ 64)); [f_equal; lia|done| |lia].
  intros x. unfold u64. by rewrite Z.mod_mod by lia.
Qed.

Lemma acc_le_s32_bytes v : acc_le s32 (le_bytes 4 v) 0 0 = s32 v.
Proof.
  rewrite acc_le_s32, le_val_bytes. apply s32_mod. by rewrite Z.mod_mod by lia.
Qed.

Lemma acc_le_u64_bytes v : acc_le u64 (le_bytes 8 v) 0 0 = u64 v.
Proof. rewrite acc_le_u64, le_val_bytes. unfold u64. by rewrite Z.mod_mod by lia. Qed.

#[export] Hint Rewrite zlen_le_bytes : zlen.

(** * Allocation on the abstract view *)

Section AllocSpec.
Context `{U : Uninit}.

Lemma zlen_fresh n : 0 <= n -> zlen (fresh n) = n.
Proof. intros. unfold zlen, fresh. rewrite length_map, length_seq. lia. Qed.

Lemma alloc_ok n : 0 <= n < 2 ^ 31 -> alloc n = Ok (mkbuf (fresh n) 0).
Proof.
  intros H. unfold alloc, mkbuf. rewrite zlen_fresh by lia.
  change 0x80000000 with (2 ^ 31) in *. decide_cmp.
  destruct (0x8000 <=? n) eqn:E; bool_to_prop; decide_cmp; f_equal.
  - unfold init_b_block. rewrite u32_small by (unfold_width; lia).
    f_equal. apply lor_bit31. lia.
  - unfold init_s_block. f_equal. unfold u16. rewrite Z.mod_small; lia.
Qed.

Lemma alloc_too_big n : 2 ^ 31 <= n -> alloc n = Throw Out_of_range.
Proof. intros. unfold alloc. change 0x80000000 with (2 ^ 31). by decide_cmp. Qed.

End AllocSpec.

(** * Reading and writing on the abstract view *)

(** [m] writes [bs] at the position, over as many bytes. *)
Definition writes (m : M buffer unit) (bs : list Z) : Prop :=
  forall pre old post,
    zlen old = zlen bs -> zlen (pre ++ old ++ post) < 2 ^ 31 ->
    m (mkbuf (pre ++ old ++ post) (zlen pre))
    = (Ok tt, mkbuf (pre ++ bs ++ post) (zlen pre + zlen bs)).

(** [m] consumes [bs] at the position and returns [a]. *)
Definition reads {A} (m : M buffer A) (bs : list Z) (a : A) : Prop :=
  forall pre post,
    zlen (pre ++ bs ++ post) < 2 ^ 31 ->
    m (mkbuf (pre ++ bs ++ post) (zlen pre))
    = (Ok a, mkbuf (pre ++ bs ++ post) (zlen pre + zlen bs)).

Lemma in_block_app (pre l : list Z) :
  zlen (pre ++ l) < 2 ^ 31 -> in_block (pre ++ l) (zlen pre).
Proof.
  intros. pose proof (zlen_nonneg pre). pose proof (zlen_nonneg l).
  split; zlen_lia.
Qed.

#[export] Hint Resolve in_block_app : xio.

Lemma put_at_room bs l p :
  in_block l p -> p + zlen bs <= zlen l ->
  put_at bs (mkbuf l p)
  = (Ok tt, mkbuf (ztake p l ++ bs ++ zdrop (p + zlen bs) l) (p + zlen bs)).
Proof.
  intros Hb ?. pose proof (zlen_nonneg bs).
  unfold put_at, bind, gets, guard, id. rewrite mkbuf_avail by done.
  decide_cmp. cbn [negb ret]. rewrite mkbuf_pos by done. destruct Hb as [? ?].
  rewrite mkbuf_store by lia. unfold advance, modify. f_equal.
  assert (zlen (ztake p l ++ bs ++ zdrop (p + zlen bs) l) = zlen l) as E.
  { rewrite !zlen_app, zlen_ztake, zlen_zdrop by lia. lia. }
  apply mkbuf_mv_fw; [split|..]; rewrite ?E; lia.
Qed.

Lemma put_at_no_room bs l p :
  in_block l p -> zlen l < p + zlen bs ->
  put_at bs (mkbuf l p) = (Throw Overflow_error, mkbuf l p).
Proof.
  intros Hb ?. unfold put_at, bind, gets, guard, id.
  rewrite mkbuf_avail by done. by decide_cmp.
Qed.

Lemma get_at_room n l p :
  in_block l p -> 0 <= n -> p + n <= zlen l ->
  get_at n (mkbuf l p) = (Ok (ztake n (zdrop p l)), mkbuf l (p + n)).
Proof.
  intros Hb ? ?. unfold get_at, bind, gets, guard, id.
  rewrite mkbuf_avail by done. decide_cmp. cbn [negb ret].
  rewrite mkbuf_pos by done.
  rewrite mkbuf_load by (destruct Hb; lia).
  unfold advance, modify, ret. by rewrite mkbuf_mv_fw by done.
Qed.

Lemma get_at_no_room n l p :
  in_block l p -> zlen l < p + n ->
  get_at n (mkbuf l p) = (Throw Overflow_error, mkbuf l p).
Proof.
  intros Hb ?. unfold get_at, bind, gets, guard, id.
  rewrite mkbuf_avail by done. by decide_cmp.
Qed.

Lemma writes_put_at bs : writes (put_at bs) bs.
Proof.
  intros pre old post E ?. pose proof (zlen_nonneg post).
  rewrite put_at_room; [|by apply in_block_app|zlen_lia].
  rewrite ztake_app, <- E. do 3 f_equal.
  replace (zlen pre + zlen old) with (zlen (pre ++ old)) by zlen_lia.
  by rewrite app_assoc, zdrop_app.
Qed.

Lemma reads_get_at n bs : zlen bs = n -> reads (get_at n) bs bs.
Proof.
  intros <- pre post ?. pose proof (zlen_nonneg post). pose proof (zlen_nonneg bs).
  rewrite get_at_room; [|by apply in_block_app|done|zlen_lia].
  by rewrite zdrop_app, ztake_app.
Qed.

Lemma writes_bind m k bs cs :
  writes m bs -> writes k cs -> writes (m ;; k) (bs ++ cs).
Proof.
  intros Hm Hk pre old post E L.
  pose proof (zlen_nonneg bs). pose proof (zlen_nonneg cs).
  destruct (zsplit (zlen bs) old) as (o1 & o2 & -> & E1); [zlen_lia|].
  unfold bind. rewrite <- app_assoc in *.
  rewrite Hm; [|done|zlen_lia].
  replace (zlen pre + zlen bs) with (zlen (pre ++ bs)) by zlen_lia.
  rewrite app_assoc, Hk; [|zlen_lia|zlen_lia].
  rewrite <- !app_assoc. do 2 f_equal. zlen_lia.
Qed.

Lemma writes_nil : writes (ret tt) [].
Proof.
  intros pre old post E ?. destruct old; [|zlen_lia]. unfold ret.
  do 2 f_equal. zlen_lia.
Qed.

Lemma reads_bind {A B} (m : M buffer A) (k : A -> M buffer B) bs cs a b :
  reads m bs a -> reads (k a) cs b -> reads (bind m k) (bs ++ cs) b.
Proof.
  intros Hm Hk pre post L. unfold bind.
  rewrite <- app_assoc in *. rewrite Hm by done.
  replace (zlen pre + zlen bs) with (zlen (pre ++ bs)) by zlen_lia.
  rewrite app_assoc, Hk by zlen_lia.
  do 2 f_equal. zlen_lia.
Qed.

Lemma reads_ret {A} (a : A) : reads (ret a) [] a.
Proof. intros pre post ?. unfold ret. do 2 f_equal. zlen_lia. Qed.

Lemma reads_map {A B} (m : M buffer A) (f : A -> B) bs a b :
  reads m bs a -> f a = b -> reads (x <- m ;; ret (f x)) bs b.
Proof.
  intros Hm <-. rewrite <- (app_nil_r bs).
  eapply reads_bind; [done|]. apply reads_ret.
Qed.

Lemma writes_int v : writes (put_int v) (le_bytes 4 v).
Proof. apply writes_put_at. Qed.

Lemma writes_ulong v : writes (put_ulong v) (le_bytes 8 v).
Proof. apply writes_put_at. Qed.

Lemma writes_byte v : writes (put_byte v) [v].
Proof. apply writes_put_at. Qed.

Lemma writes_raw bs : writes (put_raw bs) bs.
Proof. apply writes_put_at. Qed.

Lemma writes_str s : writes (put_str s) (s ++ [0]).
Proof. apply writes_put_at. Qed.

Lemma writes_bytes bs : writes (put_bytes bs) (le_bytes 4 (zlen bs) ++ bs).
Proof. apply writes_bind; apply writes_put_at. Qed.

Lemma remaining_mkbuf l p : in_block l p -> remaining (mkbuf l p) = zdrop p l.
Proof.
  intros Hb. unfold remaining. rewrite mkbuf_size, mkbuf_pos, mkbuf_bytes by done.
  destruct Hb. rewrite <- (zlen_zdrop p l) by lia.
  apply ztake_all.
Qed.

Lemma put_buf_put_at l p b :
  in_block l p -> put_buf (mkbuf l p) b = put_at (zdrop p l) b.
Proof.
  intros Hb. unfold put_buf, put_at, bind, gets, id.
  rewrite remaining_mkbuf, mkbuf_size, mkbuf_pos by done.
  destruct Hb. rewrite zlen_zdrop by lia.
  by rewrite u64_small by (unfold_width; lia).
Qed.

Lemma writes_buf l p : in_block l p -> writes (put_buf (mkbuf l p)) (zdrop p l).
Proof.
  intros Hb pre old post E L. rewrite put_buf_put_at by done.
  by apply writes_put_at.
Qed.

Lemma reads_int v : is_s32 v -> reads get_int (le_bytes 4 v) v.
Proof.
  intros. eapply reads_map; [by apply reads_get_at|].
  rewrite acc_le_s32_bytes. by apply s32_small.
Qed.

Lemma reads_ulong v : is_u64 v -> reads get_ulong (le_bytes 8 v) v.
Proof.
  intros. eapply reads_map; [by apply reads_get_at|].
  rewrite acc_le_u64_bytes. by apply u64_small.
Qed.

Lemma reads_byte v : reads get_byte [v] v.
Proof. by eapply reads_map; [apply reads_get_at|]. Qed.

Lemma reads_bytes bs :
  zlen bs < 2 ^ 31 -> reads get_bytes (le_bytes 4 (zlen bs) ++ bs) bs.
Proof.
  intros. pose proof (zlen_nonneg bs).
  eapply reads_bind; [by apply reads_get_at|]. apply reads_get_at.
  rewrite acc_le_s32_bytes, s32_small, u64_small by (unfold_width; lia). done.
Qed.

#[export] Hint Resolve writes_bind writes_nil writes_int writes_ulong writes_byte
  writes_raw writes_str writes_bytes writes_buf : codec.
#[export] Hint Resolve reads_bind reads_ret reads_int reads_ulong reads_byte
  reads_bytes : codec.

(** * Copies on the abstract view *)

(** A writer that fills a fresh block, then rewinds it. *)
Lemma fill_block (m : M buffer unit) bs old :
  writes m bs -> zlen old = zlen bs -> zlen bs < 2 ^ 31 ->
  (m ;; set_pos 0) (mkbuf old 0) = (Ok tt, mkbuf bs 0).
Proof.
  intros Hm E L. unfold bind.
  pose proof (Hm [] old []) as H. rewrite app_nil_l, !app_nil_r, zlen_nil in H.
  rewrite H by lia.
  rewrite mkbuf_set_pos; [|split; zlen_lia|lia]. by rewrite Z.min_l by zlen_lia.
Qed.

Section CopySpec.
Context `{U : Uninit}.

Lemma copy_ok l p : in_block l p -> copy (mkbuf l p) = Ok (mkbuf (zdrop p l) 0).
Proof.
  intros Hb. unfold copy. rewrite mkbuf_size, mkbuf_pos by done.
  destruct Hb as [? ?]. rewrite u64_small by (unfold_width; lia).
  rewrite alloc_ok by lia. cbn [rbind].
  rewrite (fill_block _ (zdrop p l)); [done|by apply writes_buf|..];
    rewrite ?zlen_fresh, ?zlen_zdrop; lia.
Qed.

Lemma writes_store_all l :
  zlen l < 2 ^ 31 -> forall old, zlen old = zlen l ->
  store 0 l (mkbuf old 0) = (Ok tt, mkbuf l 0).
Proof.
  intros ? old E. rewrite mkbuf_store by lia.
  replace (0 + zlen l) with (zlen old) by lia.
  by rewrite zdrop_all, app_nil_r.
Qed.

(** New contents of the same length. *)
Lemma store_whole hb bs :
  zlen hb = zlen bs -> zlen hb < 2 ^ 31 -> run_state (store 0 bs) (mkbuf hb 0) = mkbuf bs 0.
Proof.
  intros E L. unfold run_state. zlen_facts. rewrite mkbuf_store by lia. cbn [snd].
  rewrite Z.add_0_l, <- E, zdrop_all, app_nil_r. done.
Qed.

Lemma clone_ok l p : in_block l p -> clone (mkbuf l p) = Ok (mkbuf l 0).
Proof.
  intros Hb. unfold clone. rewrite mkbuf_size, mkbuf_bytes by done.
  destruct Hb as [? ?]. rewrite alloc_ok by lia. cbn [rbind].
  rewrite ztake_all.
  unfold bind. rewrite writes_store_all by (rewrite ?zlen_fresh; lia).
  rewrite mkbuf_set_pos; [|split; lia|lia]. by rewrite Z.min_l by lia.
Qed.

Lemma expand_ok l p n :
  in_block l p -> zlen l <= n < 2 ^ 31 ->
  expand (mkbuf l p) n = Ok (mkbuf (l ++ zdrop (zlen l) (fresh n)) p).
Proof.
  intros Hb Hn. unfold expand. rewrite mkbuf_size, mkbuf_bytes, mkbuf_pos by done.
  destruct Hb as [? ?]. change 0x80000000 with (2 ^ 31). decide_cmp.
  rewrite alloc_ok by lia. cbn [rbind].
  rewrite ztake_all.
  pose proof (zlen_fresh n ltac:(lia)) as F.
  unfold bind. rewrite mkbuf_store by lia.
  change (ztake 0 (fresh n)) with (@nil Z). rewrite app_nil_l, Z.add_0_l.
  rewrite mkbuf_set_pos; [|split|lia]; rewrite ?zlen_app, ?zlen_zdrop by lia.
  all: rewrite ?F; try lia. by rewrite Z.min_l by lia.
Qed.

Lemma expand_shrink l p n :
  in_block l p -> 0 <= n < zlen l -> expand (mkbuf l p) n = Throw Out_of_range.
Proof.
  intros Hb Hn. unfold expand. rewrite mkbuf_size by done.
  destruct Hb. change 0x80000000 with (2 ^ 31). by decide_cmp.
Qed.

End CopySpec.

(** * C strings *)

Definition no_nul (s : list Z) : Prop := Forall (fun c => c <> 0) s.

Lemma cstr_prefix_app s post : no_nul s -> cstr_prefix (s ++ 0 :: post) = s.
Proof.
  induction 1 as [|c s Hc Hs IH]; cbn; [done|].
  apply Z.eqb_neq in Hc. by rewrite Hc, IH.
Qed.

Lemma cstr_prefix_full s : no_nul s -> cstr_prefix s = s.
Proof.
  induction 1 as [|c s Hc Hs IH]; cbn; [done|].
  apply Z.eqb_neq in Hc. by rewrite Hc, IH.
Qed.

(** What [get_str] returns for a stored string: the null pointer when it is
    empty. *)
Definition str_or_null (s : list Z) : option (list Z) :=
  match s with [] => None | _ => Some s end.

Lemma reads_str s : no_nul s -> reads get_str (s ++ [0]) (str_or_null s).
Proof.
  intros Hs pre post L. pose proof (in_block_app _ _ L) as Hb.
  unfold get_str, bind, gets, id.
  rewrite mkbuf_size, mkbuf_pos, mkbuf_bytes by done.
  rewrite zdrop_app.
  replace (zlen (pre ++ (s ++ [0]) ++ post) - zlen pre)
    with (zlen ((s ++ [0]) ++ post)) by zlen_lia.
  rewrite ztake_all, <- app_assoc. cbn [app].
  rewrite cstr_prefix_app by done.
  rewrite <- app_assoc in Hb. cbn [app] in Hb.
  destruct s as [|c s]; cbn [str_or_null].
  - change (zlen (@nil Z)) with 0. cbn [Z.eqb]. rewrite orb_true_r.
    unfold advance, modify, ret.
    rewrite mkbuf_mv_fw; [done|done|lia|zlen_lia].
  - assert ((zlen (c :: s) =? 0) = false) as -> by (apply eqb_false; zlen_lia).
    unfold ret at 1. rewrite leb_false by zlen_lia. cbn [orb].
    unfold advance, modify, ret.
    rewrite mkbuf_mv_fw; [|done|zlen_lia|zlen_lia]. do 2 f_equal. zlen_lia.
Qed.

#[export] Hint Resolve reads_str : codec.

(** * Memory safety of sequences of accesses *)

(** The accesses a client may make; [get(dst)] and [get_str()], which do not
    check the room left, are not among them. *)
Inductive access : Type :=
| GetInt | GetUlong | GetByte | GetBytes
| GetRaw (len : Z)
| PutByte (v : Z) | PutRaw (ba : list Z) | PutBytes (ba : list Z)
| PutInt (v : Z) | PutUlong (v : Z) | PutStr (s : list Z)
| PutBuf (l : list Z) (p : Z)
| SetPos (p : Z).

Definition ignore {S A} (m : M S A) : M S unit := m ;; ret tt.

Definition run_access (a : access) : M buffer unit :=
  match a with
  | GetInt => ignore get_int
  | GetUlong => ignore get_ulong
  | GetByte => ignore get_byte
  | GetBytes => ignore get_bytes
  | GetRaw len => ignore (get_raw len)
  | PutByte v => put_byte v
  | PutRaw ba => put_raw ba
  | PutBytes ba => put_bytes ba
  | PutInt v => put_int v
  | PutUlong v => put_ulong v
  | PutStr s => put_str s
  | PutBuf l p => put_buf (mkbuf l p)
  | SetPos p => set_pos p
  end.

(** The arguments have the type of the parameter they are passed for. *)
Definition access_ok (a : access) : Prop :=
  match a with
  | GetRaw len => 0 <= len
  | PutBuf l p => in_block l p
  | SetPos p => 0 <= p
  | _ => True
  end.

(** A client that goes on after an exception. *)
Fixpoint run_accesses (l : list access) (b : buffer) : list (res unit) * buffer :=
  match l with
  | [] => ([], b)
  | a :: l' =>
      let '(r, b1) := run_access a b in
      let '(rs, b2) := run_accesses l' b1 in
      (r :: rs, b2)
  end.

Definition safe {A} (m : M buffer A) (n : Z) : Prop :=
  forall l p, in_block l p -> zlen l = n ->
    (exists r l' p', m (mkbuf l p) = (r, mkbuf l' p') /\
       in_block l' p' /\ zlen l' = n /\ r <> Throw Undefined).

Lemma safe_put_at n bs : safe (put_at bs) n.
Proof.
  intros l p Hb E. destruct (Z.le_gt_cases (p + zlen bs) (zlen l)).
  - rewrite put_at_room by done. eexists _, _, _. split; [done|].
    destruct Hb. zlen_facts. unfold in_block.
    rewrite !zlen_app, zlen_ztake, zlen_zdrop by lia. repeat split; lia || done.
  - rewrite put_at_no_room by done. by eexists _, _, _.
Qed.

Lemma safe_get_at n k : 0 <= k -> safe (get_at k) n.
Proof.
  intros ? l p Hb E. destruct (Z.le_gt_cases (p + k) (zlen l)).
  - rewrite get_at_room by done. eexists _, _, _. split; [done|].
    destruct Hb. repeat split; lia || done.
  - rewrite get_at_no_room by done. by eexists _, _, _.
Qed.

Lemma safe_bind {A B} n (m : M buffer A) (k : A -> M buffer B) :
  safe m n -> (forall a, safe (k a) n) -> safe (bind m k) n.
Proof.
  intros Hm Hk l p Hb E. destruct (Hm l p Hb E) as (r & l' & p' & Em & Hb' & E' & Hr).
  unfold bind. rewrite Em. destruct r as [a|e]; [by apply Hk|].
  eexists _, _, _. split; [done|]. repeat split; try done; [apply Hb'..|].
  congruence.
Qed.

Lemma safe_ret {A} n (a : A) : safe (ret a) n.
Proof. intros l p Hb E. by eexists _, _, _. Qed.

#[export] Hint Resolve safe_put_at safe_get_at safe_bind safe_ret : xio.

Lemma safe_access a n : access_ok a -> safe (run_access a) n.
Proof.
  destruct a; cbn; intros Ha; unfold ignore, get_int, get_ulong, get_byte,
    get_bytes, get_raw, put_byte, put_raw, put_bytes, put_int, put_ulong, put_str;
    auto 6 with xio lia.
  - apply safe_bind; [|auto with xio]. apply safe_bind; [auto with xio lia|].
    intros d. apply safe_get_at. apply u64_range.
  - intros l' p' Hb E. rewrite put_buf_put_at by done. by apply safe_put_at.
  - intros l p' Hb E. rewrite mkbuf_set_pos by done.
    eexists _, _, _. split; [done|]. destruct Hb. repeat split; lia || done.
Qed.



(** A position one past the end, short of the tag bit of a small block. *)
Lemma mkbuf_past_end l :
  zlen l < 2 ^ 31 -> zlen l <> 0x7fff ->
  size (mkbuf l (zlen l + 1)) = zlen l /\ pos (mkbuf l (zlen l + 1)) = zlen l + 1.
Proof.
  intros L Hne. pose proof (zlen_nonneg l).
  unfold size, pos, size_of_block, pos_of_block, pos_of_s_block,
    pos_of_b_block, is_big_block, mkbuf.
  destruct (zlen l <? 0x8000) eqn:E; bool_to_prop; cbn [h0 h1].
  - rewrite testbit31_small by lia.
    rewrite Z.mod_add, Z.div_add, Z.div_small, Z.mod_small by lia. lia.
  - rewrite testbit31_big by lia. rewrite lxor_bit31 by lia. lia.
Qed.

Lemma get_str_at_end l :
  zlen l < 2 ^ 31 -> zlen l <> 0x7fff ->
  get_str (mkbuf l (zlen l)) = (Ok None, mkbuf l (zlen l + 1)).
Proof.
  intros L Hne. pose proof (zlen_nonneg l).
  assert (in_block l (zlen l)) as Hb by (split; lia).
  unfold get_str, bind, gets, id. rewrite mkbuf_size, mkbuf_pos, mkbuf_bytes by done.
  rewrite zdrop_all, Z.sub_diag. change (zlen (cstr_prefix (ztake 0 []))) with 0.
  cbn [Z.eqb]. rewrite orb_true_r. unfold advance, modify, ret.
  by rewrite mkbuf_mv_fw_le by (done || lia).
Qed.

(** [get_str] does not check for the end of the block: called there, it
    moves the position one past the size, so that [size() - pos()] wraps to the
    largest [size_t] and the next [get_int] passes its check and reads outside
    the block. *)
Theorem get_str_at_end_breaks_bounds (l : list Z) :
  zlen l < 2 ^ 31 -> zlen l <> 0x7fff ->
  avail (run_state get_str (mkbuf l (zlen l))) = ulong_max /\
  run_val (get_str ;; get_int) (mkbuf l (zlen l)) = Throw Undefined.
Proof.
  intros L Hne. destruct (mkbuf_past_end l L Hne) as [Es Ep].
  unfold run_state, run_val. unfold bind at 1. rewrite get_str_at_end by done.
  cbn [snd]. assert (avail (mkbuf l (zlen l + 1)) = ulong_max) as A.
  { unfold avail. rewrite Es, Ep. unfold_width.
    by replace (zlen l - (zlen l + 1)) with (-1) by lia. }
  split; [done|].
  unfold get_int, get_at, bind, gets, guard, id. rewrite A, Ep.
  change (ulong_max <? 4) with false. cbn [negb ret].
  unfold load. rewrite mkbuf_bytes.
  rewrite (leb_false (_ + 4)) by lia. by rewrite andb_false_r.
Qed.

Lemma get_str_at_end_breaks_bounds_witness :
  avail (run_state get_str (mkbuf [] (zlen (@nil Z)))) = ulong_max /\
  run_val (get_str ;; get_int) (mkbuf [] (zlen (@nil Z))) = Throw Undefined.
Proof. apply (get_str_at_end_breaks_bounds []); by vm_compute. Defined.
