(* ===== verification/Serializer.v ===== *)
(** The typed reader and writer over a buffer
    (src/xio/raft/buffer_serializer.{h,cc}): a position of its own, an
    endianness, and one pair of operations per integer width. *)
From S2P Require Import Prelude Buffer.

Inductive endianness := LITTLE | BIG.

#[global] Instance endianness_eq_dec : EqDecision endianness.
Proof. solve_decision. Defined.

Record serializer := mk_serializer {
  endian_ : endianness;
  buf_ : buffer;
  pos_ : Z
}.

#[global] Instance eta_serializer : Eta serializer :=
  fun s => mk_serializer (endian_ s) (buf_ s) (pos_ s).

Definition buffer_serializer (e : endianness) (b : buffer) : serializer :=
  mk_serializer e b 0.

(** * Byte order macros *)

(** [put16l] ... [put64b]: the bytes at ascending addresses. *)
Definition put_order (e : endianness) (n : nat) (v : Z) : list Z :=
  match e with LITTLE => le_bytes n v | BIG => rev (le_bytes n v) end.

(** [tmp = hi; tmp <<= 8; tmp |= next; ...] in an unsigned type of [n] bytes,
    from the most significant byte on. *)
Definition shift_in (n : nat) (bs : list Z) : Z :=
  fold_left (fun tmp b => Z.lor (Z.shiftl tmp 8 mod 2 ^ (8 * Z.of_nat n)) b) bs 0.

Definition get_order (e : endianness) (n : nat) (bs : list Z) : Z :=
  match e with LITTLE => shift_in n (rev bs) | BIG => shift_in n bs end.

(** * Positions *)

Definition ssize (s : serializer) : Z := size (buf_ s).

Definition set_spos (new_pos : Z) : M serializer unit := fun s =>
  if size (buf_ s) <? new_pos then (Throw Overflow_error, s)
  else (Ok tt, s <| pos_ := new_pos |>).

Definition is_valid (len : Z) (s : serializer) : bool :=
  negb (size (buf_ s) <? u64 (pos_ s + len)).

Definition chk_length (n : Z) : M serializer unit :=
  s <- gets id ;; guard (is_valid n s) Overflow_error.

(** An access to the memory of the buffer at [data_begin() + pos_]. *)
Definition on_buf {A} (m : M buffer A) : M serializer A := fun s =>
  let '(r, b) := m (buf_ s) in (r, s <| buf_ := b |>).

(** * Writers *)

Definition put_uint (n : nat) (v : Z) : M serializer unit :=
  chk_length (Z.of_nat n) ;;
  s <- gets id ;;
  on_buf (store (pos_ s) (put_order (endian_ s) n v)) ;;
  set_spos (u64 (pos_ s + Z.of_nat n)).

Definition put_u8 (v : Z) : M serializer unit := put_uint 1 v.

Definition put_u16 (v : Z) : M serializer unit := put_uint 2 v.

Definition put_u32 (v : Z) : M serializer unit := put_uint 4 v.

Definition put_u64 (v : Z) : M serializer unit := put_uint 8 v.

Definition put_i8 (v : Z) : M serializer unit := put_uint 1 v.

Definition put_i16 (v : Z) : M serializer unit := put_uint 2 v.

Definition put_i32 (v : Z) : M serializer unit := put_uint 4 v.

Definition put_i64 (v : Z) : M serializer unit := put_uint 8 v.

Definition sput_raw (raw : list Z) : M serializer unit :=
  chk_length (zlen raw) ;;
  s <- gets id ;;
  on_buf (store (pos_ s) raw) ;;
  set_spos (u64 (pos_ s + zlen raw)).

Definition put_buffer (b : buffer) : M serializer unit := sput_raw (remaining b).

Definition sput_bytes (raw : list Z) : M serializer unit :=
  chk_length (zlen raw + 4) ;;
  put_u32 (zlen raw) ;;
  sput_raw raw.

Definition sput_str (str : list Z) : M serializer unit := sput_bytes str.

(** The characters are copied one by one until the room is used up; the
    position moves only when the terminator fits. *)
Definition put_cstr (str : list Z) : M serializer unit :=
  s <- gets id ;;
  (let c := cstr_prefix str in
   let room := size (buf_ s) - pos_ s in
   if zlen c <? room
   then on_buf (store (pos_ s) (c ++ [0])) ;; set_spos (pos_ s + zlen c + 1)
   else on_buf (store (pos_ s) (ztake room c)) ;; throw Overflow_error).

(** * Readers *)

Definition get_uint (n : nat) : M serializer Z :=
  chk_length (Z.of_nat n) ;;
  s <- gets id ;;
  d <- on_buf (load (pos_ s) (Z.of_nat n)) ;;
  set_spos (u64 (pos_ s + Z.of_nat n)) ;;
  ret (get_order (endian_ s) n d).

Definition get_u8 : M serializer Z := get_uint 1.

Definition get_u16 : M serializer Z := get_uint 2.

Definition get_u32 : M serializer Z := get_uint 4.

Definition get_u64 : M serializer Z := get_uint 8.

Definition get_i8 : M serializer Z := v <- get_uint 1 ;; ret (s8 v).

Definition get_i16 : M serializer Z := v <- get_uint 2 ;; ret (s16 v).

Definition get_i32 : M serializer Z := v <- get_uint 4 ;; ret (s32 v).

Definition get_i64 : M serializer Z := v <- get_uint 8 ;; ret (s64 v).

(** The pointer is taken before the position is checked; what the caller then
    reads through it is the result here. *)
Definition sget_raw (len : Z) : M serializer (list Z) :=
  s <- gets id ;;
  set_spos (u64 (pos_ s + len)) ;;
  on_buf (load (pos_ s) len).

Definition get_buffer (dst : buffer) : M serializer buffer :=
  d <- sget_raw (u64 (size dst - pos dst)) ;;
  (lift (fst (store (pos dst) d dst)) ;;
   ret (snd (store (pos dst) d dst))).

Definition sget_bytes : M serializer (list Z) :=
  len <- get_u32 ;;
  s <- gets id ;;
  guard (is_valid len s) Overflow_error ;;
  sget_raw len.

Definition sget_str : M serializer (list Z) := sget_bytes.

(** [strlen] runs outside the block when it holds no terminator. *)
Definition get_cstr : M serializer (list Z) :=
  s <- gets id ;;
  (let rest := zdrop (pos_ s) (bytes (buf_ s)) in
   let c := cstr_prefix rest in
   if zlen c =? zlen rest then throw Undefined
   else set_spos (pos_ s + zlen c + 1) ;; ret c).

(** * Byte order *)

Lemma put_order_len e n v : zlen (put_order e n v) = Z.of_nat n.
Proof.
  destruct e; cbn; [apply zlen_le_bytes|].
  unfold zlen. rewrite length_rev. apply (zlen_le_bytes n v).
Qed.

#[export] Hint Rewrite put_order_len : zlen.

Lemma le_val_bound bs :
  Forall byte_ok bs -> 0 <= le_val bs < 2 ^ (8 * zlen bs).
Proof.
  induction 1 as [|b bs Hb Hbs IH]; cbn [le_val]; [done|].
  rewrite zlen_cons. replace (8 * (1 + zlen bs)) with (8 + 8 * zlen bs) by lia.
  zlen_facts. rewrite Z.pow_add_r by lia. unfold byte_ok in Hb.
  change (2 ^ 8) with 256. lia.
Qed.

Lemma lor_low_byte t b : 0 <= t -> byte_ok b -> Z.lor (Z.shiftl t 8) b = 256 * t + b.
Proof.
  intros Ht Hb.
  assert (Z.land (Z.shiftl t 8) b = 0) as L.
  { apply Z.bits_inj_0. intros i. rewrite Z.land_spec.
    destruct (Z.lt_ge_cases i 8).
    - by rewrite Z.shiftl_spec_low by lia.
    - replace (Z.testbit b i) with false; [apply andb_false_r|].
      symmetry. unfold byte_ok in Hb. destruct (Z.eq_dec b 0) as [->|];
        [apply Z.bits_0|].
      apply Z.bits_above_log2; [lia|].
      apply Z.log2_lt_pow2; [lia|]. apply Z.lt_le_trans with (2 ^ 8); [lia|].
      apply Z.pow_le_mono_r; lia. }
  rewrite <- Z.lxor_lor by done. rewrite <- Z.add_nocarry_lxor by done.
  rewrite Z.shiftl_mul_pow2 by lia. lia.
Qed.

Lemma shift_in_le n bs :
  Forall byte_ok bs -> zlen bs <= Z.of_nat n -> shift_in n (rev bs) = le_val bs.
Proof.
  unfold shift_in. intros H. induction H as [|b bs Hb Hbs IH]; intros L; [done|].
  rewrite zlen_cons in L. zlen_facts. cbn [rev le_val].
  rewrite fold_left_app, IH by lia. cbn [fold_left].
  pose proof (le_val_bound bs Hbs) as [? B].
  rewrite Z.mod_small.
  - rewrite lor_low_byte by done. lia.
  - rewrite Z.shiftl_mul_pow2 by lia. split; [lia|].
    apply Z.lt_le_trans with (2 ^ (8 * zlen bs) * 2 ^ 8); [lia|].
    rewrite <- Z.pow_add_r by lia. apply Z.pow_le_mono_r; lia.
Qed.

Lemma get_put_order e n v :
  get_order e n (put_order e n v) = v mod 2 ^ (8 * Z.of_nat n).
Proof.
  rewrite <- le_val_bytes. destruct e; cbn; apply shift_in_le;
    by (apply le_bytes_ok || rewrite zlen_le_bytes).
Qed.

(** * Reading and writing on the abstract view *)

Definition mkser (e : endianness) (l : list Z) (q p : Z) : serializer :=
  mk_serializer e (mkbuf l p) q.

Lemma mkser_pos e l q p : pos_ (mkser e l q p) = q.
Proof. done. Qed.

(** The serializer position of the view is inside the block, as is the
    position of the buffer, which the serializer never moves. *)
Definition swrites (e : endianness) (m : M serializer unit) (bs : list Z) : Prop :=
  forall pre old post p,
    zlen old = zlen bs -> in_block (pre ++ old ++ post) p ->
    m (mkser e (pre ++ old ++ post) (zlen pre) p)
    = (Ok tt, mkser e (pre ++ bs ++ post) (zlen pre + zlen bs) p).

Definition sreads {A} (e : endianness) (m : M serializer A) (bs : list Z) (a : A) : Prop :=
  forall pre post p,
    in_block (pre ++ bs ++ post) p ->
    m (mkser e (pre ++ bs ++ post) (zlen pre) p)
    = (Ok a, mkser e (pre ++ bs ++ post) (zlen pre + zlen bs) p).

Section Views.
Context (e : endianness) (l : list Z) (q p : Z).
Hypothesis (Hb : in_block l p).
Hypothesis (Hq : 0 <= q <= zlen l).

Lemma mkser_valid n :
  0 <= n < 2 ^ 63 -> is_valid n (mkser e l q p) = (q + n <=? zlen l).
Proof.
  intros. unfold is_valid. cbn [buf_ pos_ mkser]. rewrite mkbuf_size by done.
  destruct Hb. rewrite u64_small by (unfold_width; lia).
  destruct (zlen l <? q + n) eqn:E; bool_to_prop; cbn; symmetry;
    [by apply leb_false|by apply leb_true].
Qed.

Lemma mkser_set_spos q' :
  0 <= q' <= zlen l -> set_spos q' (mkser e l q p) = (Ok tt, mkser e l q' p).
Proof.
  intros. unfold set_spos. cbn [buf_ mkser]. rewrite mkbuf_size by done.
  by decide_cmp.
Qed.

Lemma mkser_chk_ok n :
  0 <= n -> q + n <= zlen l -> chk_length n (mkser e l q p) = (Ok tt, mkser e l q p).
Proof.
  intros. destruct Hb. unfold chk_length, bind, gets, guard, id.
  rewrite mkser_valid by lia. by decide_cmp.
Qed.

Lemma mkser_chk_fail n :
  0 <= n < 2 ^ 63 -> zlen l < q + n ->
  chk_length n (mkser e l q p) = (Throw Overflow_error, mkser e l q p).
Proof.
  intros. unfold chk_length, bind, gets, guard, id.
  rewrite mkser_valid by lia. by decide_cmp.
Qed.

Lemma mkser_store bs :
  q + zlen bs <= zlen l ->
  on_buf (store q bs) (mkser e l q p)
  = (Ok tt, mkser e (ztake q l ++ bs ++ zdrop (q + zlen bs) l) q p).
Proof. intros. unfold on_buf. cbn [buf_ mkser]. by rewrite mkbuf_store by lia. Qed.

Lemma mkser_load n :
  q + n <= zlen l ->
  on_buf (load q n) (mkser e l q p) = (Ok (ztake n (zdrop q l)), mkser e l q p).
Proof. intros. unfold on_buf. cbn [buf_ mkser]. by rewrite mkbuf_load by lia. Qed.

End Views.

(** The common shape of the writers: check, write at the position, move. *)
Lemma swrites_gen e (f : endianness -> list Z) n :
  zlen (f e) = n ->
  swrites e (chk_length n ;; s <- gets id ;;
             on_buf (store (pos_ s) (f (endian_ s))) ;;
             set_spos (u64 (pos_ s + n))) (f e).
Proof.
  intros <- pre old post p E Hb. unfold bind at 1.
  assert (zlen (pre ++ old ++ post) = zlen pre + zlen old + zlen post) as L by zlen_lia.
  zlen_facts. rewrite mkser_chk_ok by (done || lia).
  unfold bind, gets, id. cbn [pos_ endian_ mkser].
  change (mk_serializer e (mkbuf (pre ++ old ++ post) p) (zlen pre))
    with (mkser e (pre ++ old ++ post) (zlen pre) p).
  rewrite mkser_store by lia. destruct Hb.
  rewrite u64_small by (unfold_width; lia).
  rewrite ztake_app, <- E.
  replace (zlen pre + zlen old) with (zlen (pre ++ old)) by zlen_lia.
  rewrite (app_assoc pre old post), zdrop_app.
  rewrite mkser_set_spos; [done|split|]; zlen_lia.
Qed.

Lemma swrites_uint e n v : swrites e (put_uint n v) (put_order e n v).
Proof. apply (swrites_gen e (fun e => put_order e n v)). by rewrite put_order_len. Qed.

Lemma swrites_raw e bs : swrites e (sput_raw bs) bs.
Proof. by apply (swrites_gen e (fun _ => bs)). Qed.

Lemma sreads_gen {A} e (f : endianness -> list Z -> A) bs n :
  zlen bs = n ->
  sreads e (chk_length n ;; s <- gets id ;;
            d <- on_buf (load (pos_ s) n) ;;
            set_spos (u64 (pos_ s + n)) ;;
            ret (f (endian_ s) d)) bs (f e bs).
Proof.
  intros <- pre post p Hb. unfold bind at 1.
  assert (zlen (pre ++ bs ++ post) = zlen pre + zlen bs + zlen post) as L by zlen_lia.
  zlen_facts. rewrite mkser_chk_ok by (done || lia).
  unfold bind, gets, id. cbn [pos_ endian_ mkser].
  change (mk_serializer e (mkbuf (pre ++ bs ++ post) p) (zlen pre))
    with (mkser e (pre ++ bs ++ post) (zlen pre) p).
  rewrite mkser_load by lia. pose proof Hb as [? ?].
  rewrite u64_small by (unfold_width; lia).
  rewrite mkser_set_spos by (done || lia). by rewrite zdrop_app, ztake_app.
Qed.

Lemma sreads_uint e n v :
  0 <= v < 2 ^ (8 * Z.of_nat n) -> sreads e (get_uint n) (put_order e n v) v.
Proof.
  intros H. rewrite <- (Z.mod_small _ _ H) at 2. rewrite <- (get_put_order e n v).
  apply (sreads_gen e (fun e => get_order e n)). apply put_order_len.
Qed.

Lemma swrites_bind e m k bs cs :
  swrites e m bs -> swrites e k cs -> swrites e (m ;; k) (bs ++ cs).
Proof.
  intros Hm Hk pre old post p E L.
  destruct (zsplit (zlen bs) old) as (o1 & o2 & -> & E1); [zlen_lia|].
  unfold bind. rewrite <- app_assoc in *.
  rewrite Hm by done.
  replace (zlen pre + zlen bs) with (zlen (pre ++ bs)) by zlen_lia.
  rewrite app_assoc, Hk; [|zlen_lia|destruct L; split; zlen_lia].
  rewrite <- !app_assoc. do 2 f_equal. zlen_lia.
Qed.

Lemma sreads_bind {A B} e (m : M serializer A) (k : A -> M serializer B) bs cs a b :
  sreads e m bs a -> sreads e (k a) cs b -> sreads e (bind m k) (bs ++ cs) b.
Proof.
  intros Hm Hk pre post p L. unfold bind.
  rewrite <- app_assoc in *. rewrite Hm by done.
  replace (zlen pre + zlen bs) with (zlen (pre ++ bs)) by zlen_lia.
  rewrite app_assoc in *. rewrite Hk by done. do 2 f_equal. zlen_lia.
Qed.

Lemma sreads_ret {A} e (a : A) : sreads e (ret a) [] a.
Proof. intros pre post p ?. unfold ret. do 2 f_equal. zlen_lia. Qed.

Lemma sreads_map {A B} e (m : M serializer A) (f : A -> B) bs a b :
  sreads e m bs a -> f a = b -> sreads e (x <- m ;; ret (f x)) bs b.
Proof.
  intros Hm <-. rewrite <- (app_nil_r bs).
  eapply sreads_bind; [done|]. apply sreads_ret.
Qed.

Lemma swrites_nil e : swrites e (ret tt) [].
Proof.
  intros pre old post p E ?. rewrite (zlen_0_nil old) by done. unfold ret.
  do 2 f_equal. zlen_lia.
Qed.

Lemma sreads_u8 e v : is_u8 v -> sreads e get_u8 (put_order e 1 v) v.
Proof. exact (sreads_uint e 1 v). Qed.

Lemma sreads_u64 e v : is_u64 v -> sreads e get_u64 (put_order e 8 v) v.
Proof. exact (sreads_uint e 8 v). Qed.

(** The signed readers reinterpret the unsigned value. *)
Lemma put_order_mod e n v :
  put_order e n (v mod 2 ^ (8 * Z.of_nat n)) = put_order e n v.
Proof.
  assert (le_bytes n (v mod 2 ^ (8 * Z.of_nat n)) = le_bytes n v) as H.
  { revert v. induction n as [|n IH]; intros v; [done|]. rewrite !le_bytes_S.
    replace (8 * Z.of_nat (S n)) with (8 + 8 * Z.of_nat n) by lia.
    f_equal.
    - unfold u8. rewrite Z.pow_add_r, Z.rem_mul_r by lia.
      by rewrite Z.mul_comm, Z.mod_add, Z.mod_mod by lia.
    - rewrite <- (IH (Z.shiftr v 8)), <- (IH (Z.shiftr (v mod _) 8)). f_equal.
      rewrite !Z.shiftr_div_pow2, Z.pow_add_r, Z.rem_mul_r by lia.
      rewrite Z.add_comm, Z.mul_comm, Z.div_add_l by lia.
      rewrite (Z.div_small (v mod 2 ^ 8)) by (apply Z.mod_pos_bound; lia).
      by rewrite Z.add_0_r, Z.mod_mod by lia. }
  destruct e; cbn; by rewrite H.
Qed.

Lemma sreads_i32 e v : is_s32 v -> sreads e get_i32 (put_order e 4 v) v.
Proof.
  intros H. rewrite <- (put_order_mod e 4 v).
  eapply sreads_map; [apply sreads_uint; apply Z.mod_pos_bound; lia|].
  change (8 * Z.of_nat 4) with 32. fold (u32 v). rewrite s32_u32. by apply s32_small.
Qed.

Lemma sreads_i64 e v : is_s64 v -> sreads e get_i64 (put_order e 8 v) v.
Proof.
  intros H. rewrite <- (put_order_mod e 8 v).
  eapply sreads_map; [apply sreads_uint; apply Z.mod_pos_bound; lia|].
  change (8 * Z.of_nat 8) with 64.
  rewrite (s64_mod _ v) by (rewrite Z.mod_mod by lia; done). by apply s64_small.
Qed.

Lemma sreads_i8 e v : - 2 ^ 7 <= v < 2 ^ 7 -> sreads e get_i8 (put_order e 1 v) v.
Proof.
  intros H. rewrite <- (put_order_mod e 1 v).
  eapply sreads_map; [apply sreads_uint; apply Z.mod_pos_bound; lia|].
  change (8 * Z.of_nat 1) with 8. unfold s8.
  rewrite Z.add_mod_idemp_l, Z.mod_small by lia. lia.
Qed.

Lemma sreads_i16 e v : - 2 ^ 15 <= v < 2 ^ 15 -> sreads e get_i16 (put_order e 2 v) v.
Proof.
  intros H. rewrite <- (put_order_mod e 2 v).
  eapply sreads_map; [apply sreads_uint; apply Z.mod_pos_bound; lia|].
  change (8 * Z.of_nat 2) with 16. unfold s16.
  rewrite Z.add_mod_idemp_l, Z.mod_small by lia. lia.
Qed.

Lemma sreads_raw e bs : zlen bs < 2 ^ 31 -> sreads e (sget_raw (zlen bs)) bs bs.
Proof.
  intros B pre post p Hb. unfold sget_raw, bind, gets, id. cbn [pos_ mkser].
  change (mk_serializer e (mkbuf (pre ++ bs ++ post) p) (zlen pre))
    with (mkser e (pre ++ bs ++ post) (zlen pre) p).
  pose proof Hb as [? ?]. zlen_facts.
  rewrite u64_small by (unfold_width; zlen_lia).
  rewrite mkser_set_spos by (done || zlen_lia).
  unfold on_buf. cbn [buf_ mkser]. rewrite mkbuf_load by zlen_lia.
  by rewrite zdrop_app, ztake_app.
Qed.

Lemma swrites_bytes e bs :
  zlen bs < 2 ^ 31 -> swrites e (sput_bytes bs) (put_order e 4 (zlen bs) ++ bs).
Proof.
  intros B pre old post p E Hb. unfold sput_bytes. unfold bind at 1. zlen_facts.
  rewrite mkser_chk_ok; [|done|zlen_lia..].
  exact (swrites_bind e _ _ _ _ (swrites_uint e 4 (zlen bs)) (swrites_raw e bs)
           pre old post p E Hb).
Qed.

Lemma sreads_bytes e bs :
  zlen bs < 2 ^ 31 -> sreads e sget_bytes (put_order e 4 (zlen bs) ++ bs) bs.
Proof.
  intros B. zlen_facts. eapply sreads_bind.
  { apply sreads_uint. change (8 * Z.of_nat 4) with 32. lia. }
  intros pre post p Hb. unfold bind, gets, guard, id. pose proof Hb as [? ?].
  rewrite mkser_valid; [|done|zlen_lia..]. rewrite leb_true by zlen_lia.
  by apply sreads_raw.
Qed.

Lemma swrites_cstr e s : no_nul s -> swrites e (put_cstr s) (s ++ [0]).
Proof.
  intros Hs pre old post p E Hb. unfold put_cstr, bind, gets, id.
  cbn [pos_ buf_ mkser]. rewrite cstr_prefix_full, mkbuf_size by done.
  rewrite ltb_true by zlen_lia.
  change (mk_serializer e (mkbuf (pre ++ old ++ post) p) (zlen pre))
    with (mkser e (pre ++ old ++ post) (zlen pre) p).
  rewrite mkser_store by zlen_lia.
  rewrite ztake_app, <- E.
  replace (zlen pre + zlen old) with (zlen (pre ++ old)) by zlen_lia.
  rewrite (app_assoc pre old post), zdrop_app. destruct Hb.
  replace (zlen pre + zlen s + 1) with (zlen (pre ++ old)) by zlen_lia.
  rewrite mkser_set_spos; [done|split|]; zlen_lia.
Qed.

Lemma sreads_cstr e s : no_nul s -> sreads e get_cstr (s ++ [0]) s.
Proof.
  intros Hs pre post p Hb. unfold get_cstr, bind, gets, id.
  cbn [pos_ buf_ mkser]. rewrite mkbuf_bytes, zdrop_app.
  rewrite <- app_assoc. cbn [app]. rewrite cstr_prefix_app by done.
  rewrite eqb_false by zlen_lia.
  change (mk_serializer e (mkbuf (pre ++ s ++ 0 :: post) p) (zlen pre))
    with (mkser e (pre ++ s ++ 0 :: post) (zlen pre) p).
  rewrite <- app_assoc in Hb. cbn [app] in Hb.
  rewrite mkser_set_spos; [|done|zlen_lia]. unfold ret. do 2 f_equal. zlen_lia.
Qed.

#[export] Hint Resolve swrites_bind swrites_nil swrites_uint swrites_raw swrites_bytes
  swrites_cstr : codec.
#[export] Hint Resolve sreads_bind sreads_ret sreads_u8 sreads_u64 sreads_i8 sreads_i16
  sreads_i32 sreads_i64 sreads_raw sreads_bytes sreads_cstr : codec.

(** * Round trip of a message *)

(** A message is a sequence of typed fields; [get_field] reads a field of the
    same type as its argument. *)
Inductive field : Type :=
| F_u8 (v : Z) | F_u16 (v : Z) | F_u32 (v : Z) | F_u64 (v : Z)
| F_i8 (v : Z) | F_i16 (v : Z) | F_i32 (v : Z) | F_i64 (v : Z)
| F_bytes (bs : list Z) | F_str (s : list Z) | F_cstr (s : list Z)
| F_raw (bs : list Z).

Definition put_field (f : field) : M serializer unit :=
  match f with
  | F_u8 v => put_u8 v | F_u16 v => put_u16 v
  | F_u32 v => put_u32 v | F_u64 v => put_u64 v
  | F_i8 v => put_i8 v | F_i16 v => put_i16 v
  | F_i32 v => put_i32 v | F_i64 v => put_i64 v
  | F_bytes bs => sput_bytes bs | F_str s => sput_str s
  | F_cstr s => put_cstr s | F_raw bs => sput_raw bs
  end.

Definition get_field (f : field) : M serializer field :=
  match f with
  | F_u8 _ => v <- get_u8 ;; ret (F_u8 v)
  | F_u16 _ => v <- get_u16 ;; ret (F_u16 v)
  | F_u32 _ => v <- get_u32 ;; ret (F_u32 v)
  | F_u64 _ => v <- get_u64 ;; ret (F_u64 v)
  | F_i8 _ => v <- get_i8 ;; ret (F_i8 v)
  | F_i16 _ => v <- get_i16 ;; ret (F_i16 v)
  | F_i32 _ => v <- get_i32 ;; ret (F_i32 v)
  | F_i64 _ => v <- get_i64 ;; ret (F_i64 v)
  | F_bytes _ => v <- sget_bytes ;; ret (F_bytes v)
  | F_str _ => v <- sget_str ;; ret (F_str v)
  | F_cstr _ => v <- get_cstr ;; ret (F_cstr v)
  | F_raw bs => v <- sget_raw (zlen bs) ;; ret (F_raw v)
  end.

Definition field_ok (f : field) : Prop :=
  match f with
  | F_u8 v => 0 <= v < 2 ^ 8 | F_u16 v => 0 <= v < 2 ^ 16
  | F_u32 v => 0 <= v < 2 ^ 32 | F_u64 v => 0 <= v < 2 ^ 64
  | F_i8 v => - 2 ^ 7 <= v < 2 ^ 7 | F_i16 v => - 2 ^ 15 <= v < 2 ^ 15
  | F_i32 v => - 2 ^ 31 <= v < 2 ^ 31 | F_i64 v => - 2 ^ 63 <= v < 2 ^ 63
  | F_bytes bs | F_str bs | F_raw bs => zlen bs < 2 ^ 31
  | F_cstr s => no_nul s
  end.

Definition field_bytes (e : endianness) (f : field) : list Z :=
  match f with
  | F_u8 v | F_i8 v => put_order e 1 v
  | F_u16 v | F_i16 v => put_order e 2 v
  | F_u32 v | F_i32 v => put_order e 4 v
  | F_u64 v | F_i64 v => put_order e 8 v
  | F_bytes bs | F_str bs => put_order e 4 (zlen bs) ++ bs
  | F_cstr s => s ++ [0]
  | F_raw bs => bs
  end.

Fixpoint put_fields (fs : list field) : M serializer unit :=
  match fs with [] => ret tt | f :: fs' => put_field f ;; put_fields fs' end.

Fixpoint get_fields (fs : list field) : M serializer (list field) :=
  match fs with
  | [] => ret []
  | f :: fs' => v <- get_field f ;; vs <- get_fields fs' ;; ret (v :: vs)
  end.

Definition fields_bytes (e : endianness) (fs : list field) : list Z :=
  concat (map (field_bytes e) fs).

Lemma swrites_field e f : field_ok f -> swrites e (put_field f) (field_bytes e f).
Proof.
  destruct f; cbn [field_ok]; intros H;
    first [ apply swrites_uint | by apply swrites_bytes
          | by apply swrites_cstr | apply swrites_raw ].
Qed.

Lemma sreads_field e f : field_ok f -> sreads e (get_field f) (field_bytes e f) f.
Proof.
  destruct f; cbn [field_ok]; intros H; (eapply sreads_map; [|reflexivity]);
    first [ by apply (sreads_uint e 1) | by apply (sreads_uint e 2)
          | by apply (sreads_uint e 4) | by apply (sreads_uint e 8)
          | by apply sreads_i8 | by apply sreads_i16 | by apply sreads_i32
          | by apply sreads_i64 | by apply sreads_bytes | by apply sreads_cstr
          | by apply sreads_raw ].
Qed.

Lemma swrites_fields e fs :
  Forall field_ok fs -> swrites e (put_fields fs) (fields_bytes e fs).
Proof.
  induction 1; [apply swrites_nil|].
  by apply swrites_bind; [apply swrites_field|].
Qed.

Lemma sreads_fields e fs :
  Forall field_ok fs -> sreads e (get_fields fs) (fields_bytes e fs) fs.
Proof.
  induction 1 as [|f fs Hf Hfs IH]; [apply sreads_ret|].
  eapply sreads_bind; [by apply sreads_field|].
  by eapply sreads_map.
Qed.

(** A message written field by field into a block that has room for it,
    in either byte order, is read back field by field unchanged, for every
    integer width, length-prefixed bytes, C strings and raw bytes; the bytes
    behind the message are not touched. *)
Theorem serializer_roundtrip (e : endianness) (fs : list field) (mem : list Z) (p : Z) :
  Forall field_ok fs -> in_block mem p -> zlen (fields_bytes e fs) <= zlen mem ->
  exists b,
    put_fields fs (buffer_serializer e (mkbuf mem p))
    = (Ok tt, mk_serializer e b (zlen (fields_bytes e fs))) /\
    run_val (get_fields fs) (buffer_serializer e b) = Ok fs /\
    zdrop (zlen (fields_bytes e fs)) (bytes b)
    = zdrop (zlen (fields_bytes e fs)) mem.
Proof.
  intros Hfs Hb L. zlen_facts.
  destruct (zsplit (zlen (fields_bytes e fs)) mem) as (old & post & -> & E); [lia|].
  pose proof (swrites_fields e fs Hfs [] old post p E Hb) as W.
  exists (mkbuf (fields_bytes e fs ++ post) p). split; [exact W|].
  assert (in_block (fields_bytes e fs ++ post) p) as Hb'.
  { destruct Hb. split; zlen_lia. }
  pose proof (sreads_fields e fs Hfs [] post p Hb') as R.
  split; [exact (f_equal fst R)|].
  rewrite mkbuf_bytes, zdrop_app, <- E. by rewrite zdrop_app.
Qed.

Lemma serializer_roundtrip_witness :
  exists b,
    put_fields [F_u32 0xdeadbeef; F_i16 (-2); F_cstr [104; 105]; F_bytes [0; 255]]
      (buffer_serializer BIG (mkbuf (replicate 16 7) 3))
    = (Ok tt, mk_serializer BIG b 15) /\
    run_val (get_fields [F_u32 0xdeadbeef; F_i16 (-2); F_cstr [104; 105]; F_bytes [0; 255]])
      (buffer_serializer BIG b)
    = Ok [F_u32 0xdeadbeef; F_i16 (-2); F_cstr [104; 105]; F_bytes [0; 255]] /\
    zdrop 15 (bytes b) = zdrop 15 (replicate 16 7).
Proof.
  apply (serializer_roundtrip BIG
    [F_u32 0xdeadbeef; F_i16 (-2); F_cstr [104; 105]; F_bytes [0; 255]]
    (replicate 16 7) 3).
  - repeat apply Forall_cons_2; try apply Forall_nil_2; cbn; try lia; try done.
  - by vm_compute.
  - by vm_compute.
Defined.
