(* ===== verification/Codec.v ===== *)
(** The durable and wire records of the Raft module and their encodings:
    srv_state.h, srv_config.{h,cc}, cluster_config.{h,cc}, snapshot.{h,cc},
    snapshot_sync_req.{h,cc} and log_entry.{h,cc} under src/xio/raft.
    Strings are byte lists; a pointer that may be null is an [option]. *)
From S2P Require Import Prelude Buffer Serializer Crc32.

(** * Building a buffer and reading one *)

Section Build.
Context `{U : Uninit}.

(** [buf = alloc(n); m; return buf]. *)
Definition build (n : Z) (m : M buffer unit) : res buffer :=
  let* b := alloc n in
  match m b with
  | (Ok _, b') => Ok b'
  | (Throw e, _) => Throw e
  end.

(** [buf = alloc(n); buffer_serializer bs(buf); m; return buf]. *)
Definition sbuild (n : Z) (m : M serializer unit) : res buffer :=
  let* b := alloc n in
  match m (buffer_serializer LITTLE b) with
  | (Ok _, s) => Ok (buf_ s)
  | (Throw e, _) => Throw e
  end.

(** [m] writes [bs] to the end of the block, then rewinds. *)
Definition fills (m : M buffer unit) (bs : list Z) : Prop :=
  forall pre old, zlen old = zlen bs -> zlen (pre ++ old) < 2 ^ 31 ->
    m (mkbuf (pre ++ old) (zlen pre)) = (Ok tt, mkbuf (pre ++ bs) 0).

Lemma fills_rewind : fills (set_pos 0) [].
Proof.
  intros pre old E L. rewrite (zlen_0_nil old E), app_nil_r in *.
  rewrite mkbuf_set_pos by (lia || split; zlen_lia). by rewrite Z.min_l by zlen_lia.
Qed.

Lemma fills_bind m k bs cs : writes m bs -> fills k cs -> fills (m ;; k) (bs ++ cs).
Proof.
  intros Hm Hk pre old E L.
  destruct (zsplit (zlen bs) old) as (o1 & o2 & -> & E1); [zlen_lia|].
  unfold bind. rewrite Hm by done.
  replace (zlen pre + zlen bs) with (zlen (pre ++ bs)) by zlen_lia.
  rewrite app_assoc, Hk by zlen_lia. by rewrite app_assoc.
Qed.

Lemma build_ok n m bs :
  fills m bs -> zlen bs = n -> n < 2 ^ 31 -> build n m = Ok (mkbuf bs 0).
Proof.
  intros Hm <- L. unfold build. pose proof (zlen_nonneg bs).
  rewrite alloc_ok by lia. cbn [rbind].
  assert (zlen (fresh (zlen bs)) = zlen bs) as F by by apply zlen_fresh.
  pose proof (Hm [] (fresh (zlen bs)) F) as R. cbn [app] in R.
  rewrite zlen_nil in R. by rewrite R by lia.
Qed.

Lemma sbuild_ok n m bs :
  swrites LITTLE m bs -> zlen bs = n -> n < 2 ^ 31 -> sbuild n m = Ok (mkbuf bs 0).
Proof.
  intros Hm <- L. unfold sbuild. pose proof (zlen_nonneg bs). rewrite alloc_ok by lia. cbn [rbind].
  assert (zlen (fresh (zlen bs)) = zlen bs) as F by by apply zlen_fresh.
  pose proof (Hm [] (fresh (zlen bs)) [] 0 F) as R.
  rewrite !app_nil_l, !app_nil_r, (@zlen_nil Z) in R. unfold mkser in R. unfold buffer_serializer. rewrite R; [done|].
  split; lia.
Qed.

End Build.

#[export] Hint Resolve fills_rewind : codec.
#[export] Hint Extern 1 (fills (_ ;; _) _) => eapply fills_bind : codec.

(** [buffer_serializer bs(buf); return m]. *)
Definition from_buf {A} (m : M serializer A) (b : buffer) : res A :=
  run_val m (buffer_serializer LITTLE b).

Lemma from_buf_ok {A} (m : M serializer A) bs post (a : A) p :
  sreads LITTLE m bs a -> in_block (bs ++ post) p ->
  from_buf m (mkbuf (bs ++ post) p) = Ok a.
Proof.
  intros Hm Hb. unfold from_buf, run_val, buffer_serializer.
  exact (f_equal fst (Hm [] post p Hb)).
Qed.

Lemma from_buf_all {A} (m : M serializer A) bs (a : A) :
  sreads LITTLE m bs a -> zlen bs < 2 ^ 31 -> from_buf m (mkbuf bs 0) = Ok a.
Proof.
  intros Hm L. rewrite <- (app_nil_r bs). apply from_buf_ok; [done|].
  rewrite app_nil_r. split; zlen_lia.
Qed.

(** The same for a reader of the buffer itself. *)
Lemma run_all {A} (m : M buffer A) bs (a : A) :
  reads m bs a -> zlen bs < 2 ^ 31 -> run_val m (mkbuf bs 0) = Ok a.
Proof.
  intros Hm L. pose proof (Hm [] [] ) as R. cbn [app] in R.
  rewrite app_nil_r, zlen_nil in R. unfold run_val. by rewrite R.
Qed.

Definition b2z (b : bool) : Z := if b then 1 else 0.

Lemma is_u8_b2z b : is_u8 (b2z b).
Proof. by destruct b. Qed.

Lemma b2z_eq1 b : (b2z b =? 1) = b.
Proof. by destruct b. Qed.

#[export] Hint Resolve is_u8_b2z : codec.

(** * srv_state *)

Record srv_state := mk_srv_state {
  term_ : Z;
  voted_for_ : Z;
  election_timer_allowed_ : bool;
  catching_up_ : bool;
  receiving_snapshot_ : bool;
  inc_term_cb_ : option (Z -> Z)
}.

#[global] Instance eta_srv_state : Eta srv_state := fun s =>
  mk_srv_state (term_ s) (voted_for_ s) (election_timer_allowed_ s)
    (catching_up_ s) (receiving_snapshot_ s) (inc_term_cb_ s).

Definition srv_state_init : srv_state := mk_srv_state 0 (-1) true false false None.

Definition srv_state_new (term voted_for : Z) (et cu rs : bool) : srv_state :=
  mk_srv_state term voted_for et cu rs None.

Definition set_inc_term_func (f : Z -> Z) (s : srv_state) : srv_state :=
  s <| inc_term_cb_ := Some f |>.

Definition set_term (term : Z) (s : srv_state) : srv_state := s <| term_ := term |>.

(** The [assert] on the callback's result is the hypothesis [inc_term_ok]. *)
Definition inc_term (s : srv_state) : srv_state :=
  match inc_term_cb_ s with
  | Some cb => s <| term_ := u64 (cb (term_ s)) |>
  | None => s <| term_ := u64 (term_ s + 1) |>
  end.

(** The term grows: what is asserted of the callback, and that [term_++] does
    not wrap around. *)
Definition inc_term_ok (s : srv_state) : bool := term_ s <? term_ (inc_term s).

Definition set_voted_for (v : Z) (s : srv_state) : srv_state := s <| voted_for_ := v |>.

Definition allow_election_timer (to : bool) (s : srv_state) : srv_state :=
  s <| election_timer_allowed_ := to |>.

Definition set_catching_up (to : bool) (s : srv_state) : srv_state :=
  s <| catching_up_ := to |>.

Definition set_receiving_snapshot (to : bool) (s : srv_state) : srv_state :=
  s <| receiving_snapshot_ := to |>.

Definition CURRENT_VERSION : Z := 2.

Section SrvState.
Context `{U : Uninit}.

Definition srv_state_serialize_v0 (s : srv_state) : res buffer :=
  build (8 + 4) (put_ulong (term_ s) ;; put_int (voted_for_ s) ;; set_pos 0).

Definition srv_state_serialize_v1p (version : Z) (s : srv_state) : res buffer :=
  let buf_len := 1 + 8 + 4 + 1 in
  let buf_len := if 2 <=? version then buf_len + 1 + 1 else buf_len in
  sbuild buf_len (
    put_u8 version ;;
    put_u64 (term_ s) ;;
    put_i32 (voted_for_ s) ;;
    put_u8 (b2z (election_timer_allowed_ s)) ;;
    if 2 <=? version then
      put_u8 (b2z (catching_up_ s)) ;;
      put_u8 (b2z (receiving_snapshot_ s))
    else ret tt).

Definition srv_state_serialize (s : srv_state) : res buffer :=
  srv_state_serialize_v1p CURRENT_VERSION s.

End SrvState.

Definition srv_state_deserialize_v0 : M buffer srv_state :=
  term <- get_ulong ;;
  voted_for <- get_int ;;
  ret (srv_state_new term voted_for true false false).

(** [if (ver >= 2 && bs.pos() < buf.size()) flag = (bs.get_u8() == 1)]. *)
Definition get_flag_v2 (ver : Z) : M serializer bool :=
  s <- gets id ;;
  if (2 <=? ver) && (pos_ s <? size (buf_ s)) then
    v <- get_u8 ;; ret (v =? 1)
  else ret false.

Definition srv_state_deserialize_v1p : M serializer srv_state :=
  ver <- get_u8 ;;
  term <- get_u64 ;;
  voted_for <- get_i32 ;;
  et <- get_u8 ;;
  catching_up <- get_flag_v2 ver ;;
  receiving_snapshot <- get_flag_v2 ver ;;
  ret (srv_state_new term voted_for (et =? 1) catching_up receiving_snapshot).

Definition srv_state_deserialize (b : buffer) : res srv_state :=
  if 8 + 4 <? size b then from_buf srv_state_deserialize_v1p b
  else run_val srv_state_deserialize_v0 b.

Definition srv_state_ok (s : srv_state) : Prop :=
  is_u64 (term_ s) /\ is_s32 (voted_for_ s) /\ inc_term_cb_ s = None.

Definition srv_state_bytes (version : Z) (s : srv_state) : list Z :=
  le_bytes 1 version ++ le_bytes 8 (term_ s) ++ le_bytes 4 (voted_for_ s)
  ++ le_bytes 1 (b2z (election_timer_allowed_ s))
  ++ (if 2 <=? version then le_bytes 1 (b2z (catching_up_ s))
                            ++ le_bytes 1 (b2z (receiving_snapshot_ s))
      else []).

Lemma sreads_flag_v2 ver b :
  2 <= ver -> sreads LITTLE (get_flag_v2 ver) (le_bytes 1 (b2z b)) b.
Proof.
  intros H pre post p Hb. unfold get_flag_v2, bind at 1, gets, id.
  cbn [pos_ buf_ mkser]. rewrite mkbuf_size, leb_true, ltb_true by (done || zlen_lia).
  cbn [andb].
  apply (sreads_map LITTLE get_u8 (fun v => v =? 1) (le_bytes 1 (b2z b)) (b2z b) b);
    [apply (sreads_u8 LITTLE), is_u8_b2z|apply b2z_eq1|done].
Qed.

Lemma sreads_flag_v1 ver : ver < 2 -> sreads LITTLE (get_flag_v2 ver) [] false.
Proof.
  intros H pre post p Hb. unfold get_flag_v2, bind, gets, id.
  rewrite leb_false by lia. by apply sreads_ret.
Qed.

Section SrvStateRoundtrip.
Context `{U : Uninit}.

Lemma srv_state_bytes_len version s :
  zlen (srv_state_bytes version s) = if 2 <=? version then 16 else 14.
Proof. unfold srv_state_bytes. by destruct (2 <=? version). Qed.

Lemma srv_state_serialize_v1p_ok version s :
  srv_state_serialize_v1p version s = Ok (mkbuf (srv_state_bytes version s) 0).
Proof.
  unfold srv_state_serialize_v1p. apply sbuild_ok.
  - unfold srv_state_bytes.
    repeat (apply swrites_bind; [apply swrites_uint|]).
    destruct (2 <=? version); [|apply swrites_nil].
    apply swrites_bind; apply swrites_uint.
  - rewrite srv_state_bytes_len. by destruct (2 <=? version).
  - by destruct (2 <=? version).
Qed.

Lemma srv_state_v1p_roundtrip ver s :
  srv_state_ok s -> is_u8 ver -> 1 <= ver ->
  (let* b := srv_state_serialize_v1p ver s in srv_state_deserialize b)
  = Ok (if 2 <=? ver then s
        else set_receiving_snapshot false (set_catching_up false s)).
Proof.
  destruct s as [t v et cu rs cb]. intros (Ht & Hv & Hcb). cbn in Ht, Hv, Hcb. subst cb.
  intros Hver Hver1. rewrite srv_state_serialize_v1p_ok. cbn [rbind].
  unfold srv_state_deserialize.
  rewrite mkbuf_size by (unfold in_block; rewrite srv_state_bytes_len;
    by destruct (2 <=? ver)).
  rewrite srv_state_bytes_len.
  rewrite ltb_true by by destruct (2 <=? ver).
  apply from_buf_all; [|rewrite srv_state_bytes_len; by destruct (2 <=? ver)].
  unfold srv_state_bytes.
  cbn [term_ voted_for_ election_timer_allowed_ catching_up_ receiving_snapshot_].
  eapply sreads_bind; [by apply (sreads_u8 LITTLE)|].
  eapply sreads_bind; [by apply (sreads_u64 LITTLE)|].
  eapply sreads_bind; [by apply (sreads_i32 LITTLE)|].
  eapply sreads_bind; [apply (sreads_u8 LITTLE), is_u8_b2z|].
  rewrite b2z_eq1. destruct (2 <=? ver) eqn:E; bool_to_prop.
  - eapply sreads_bind; [by apply sreads_flag_v2|].
    eapply sreads_map; [by apply sreads_flag_v2|done].
  - rewrite <- (app_nil_r []).
    eapply sreads_bind; [by apply sreads_flag_v1|].
    eapply sreads_map; [by apply sreads_flag_v1|done].
Qed.

Lemma srv_state_v0_roundtrip s :
  srv_state_ok s ->
  (let* b := srv_state_serialize_v0 s in srv_state_deserialize b)
  = Ok (srv_state_new (term_ s) (voted_for_ s) true false false).
Proof.
  intros (Ht & Hv & _). unfold srv_state_serialize_v0.
  rewrite (build_ok _ _ (le_bytes 8 (term_ s) ++ le_bytes 4 (voted_for_ s) ++ []));
    [|by auto 6 with codec|done..].
  cbn [rbind]. unfold srv_state_deserialize. rewrite mkbuf_size by done.
  rewrite ltb_false by done.
  apply run_all; [|done]. rewrite app_nil_r.
  eapply reads_bind; [by apply reads_ulong|].
  eapply reads_map; [by apply reads_int|done].
Qed.

(** A server's durable state (term, vote and flags) written in the current
    format is read back unchanged; written in the older formats it is read back
    with the flags those formats do not hold at their defaults. *)
Theorem srv_state_roundtrip (s : srv_state) :
  srv_state_ok s ->
  (let* b := srv_state_serialize s in srv_state_deserialize b) = Ok s /\
  (let* b := srv_state_serialize_v1p 1 s in srv_state_deserialize b)
  = Ok (set_receiving_snapshot false (set_catching_up false s)) /\
  (let* b := srv_state_serialize_v0 s in srv_state_deserialize b)
  = Ok (srv_state_new (term_ s) (voted_for_ s) true false false).
Proof.
  intros H. repeat split; [by apply (srv_state_v1p_roundtrip 2)|
    by apply (srv_state_v1p_roundtrip 1)|by apply srv_state_v0_roundtrip].
Qed.

End SrvStateRoundtrip.

Lemma srv_state_roundtrip_witness :
  (let* b := @srv_state_serialize (fun _ => 171) (mk_srv_state 7 (-1) true false true None) in
   srv_state_deserialize b) = Ok (mk_srv_state 7 (-1) true false true None) /\
  (let* b := @srv_state_serialize_v1p (fun _ => 171) 1 (mk_srv_state 7 (-1) true false true None) in
   srv_state_deserialize b) = Ok (mk_srv_state 7 (-1) true false false None) /\
  (let* b := @srv_state_serialize_v0 (fun _ => 171) (mk_srv_state 7 (-1) true false true None) in
   srv_state_deserialize b) = Ok (srv_state_new 7 (-1) true false false).
Proof. by apply (@srv_state_roundtrip (fun _ => 171) (mk_srv_state 7 (-1) true false true None)). Defined.

(** * srv_config *)

Definition INIT_PRIORITY : Z := 1.

Record srv_config := mk_srv_config {
  sc_id : Z;
  sc_dc_id : Z;
  sc_endpoint : list Z;
  sc_aux : list Z;
  sc_learner : bool;
  sc_new_joiner : bool;
  sc_priority : Z
}.

#[global] Instance eta_srv_config : Eta srv_config := fun s =>
  mk_srv_config (sc_id s) (sc_dc_id s) (sc_endpoint s) (sc_aux s) (sc_learner s)
    (sc_new_joiner s) (sc_priority s).

#[global] Instance srv_config_eq_dec : EqDecision srv_config.
Proof. solve_decision. Defined.

Definition srv_config_simple (id : Z) (endpoint : list Z) : srv_config :=
  mk_srv_config id 0 endpoint [] false false INIT_PRIORITY.

Definition srv_config_new (id dc_id : Z) (endpoint aux : list Z) (learner : bool)
    (priority : Z) : srv_config :=
  mk_srv_config id dc_id endpoint aux learner false priority.

Definition set_new_joiner (to : bool) (s : srv_config) : srv_config :=
  s <| sc_new_joiner := to |>.

Definition set_priority (v : Z) (s : srv_config) : srv_config :=
  s <| sc_priority := v |>.

Definition set_learner (to : bool) (s : srv_config) : srv_config :=
  s <| sc_learner := to |>.

Definition LEARNER_FLAG : Z := 0x1.

Definition NEW_JOINER_FLAG : Z := 0x2.

Definition srv_type (s : srv_config) : Z :=
  Z.lor (if sc_learner s then LEARNER_FLAG else 0)
        (if sc_new_joiner s then NEW_JOINER_FLAG else 0).

Definition srv_config_deserialize : M serializer srv_config :=
  id <- get_i32 ;;
  dc_id <- get_i32 ;;
  endpoint <- get_cstr ;;
  aux <- get_cstr ;;
  srv_type <- get_u8 ;;
  priority <- get_i32 ;;
  ret (set_new_joiner (negb (Z.land srv_type NEW_JOINER_FLAG =? 0))
         (srv_config_new id dc_id endpoint aux
            (negb (Z.land srv_type LEARNER_FLAG =? 0)) priority)).

Definition srv_config_serialize `{U : Uninit} (s : srv_config) : res buffer :=
  build (4 + 4 + (zlen (sc_endpoint s) + 1) + (zlen (sc_aux s) + 1) + 1 + 4) (
    put_int (sc_id s) ;;
    put_int (sc_dc_id s) ;;
    put_str (sc_endpoint s) ;;
    put_str (sc_aux s) ;;
    put_byte (srv_type s) ;;
    put_int (sc_priority s) ;;
    set_pos 0).

Definition srv_config_bytes (s : srv_config) : list Z :=
  le_bytes 4 (sc_id s) ++ le_bytes 4 (sc_dc_id s) ++ (sc_endpoint s ++ [0])
  ++ (sc_aux s ++ [0]) ++ [srv_type s] ++ le_bytes 4 (sc_priority s) ++ [].

(** The strings hold no NUL, as the header asks of [aux_]. *)
Definition srv_config_ok (s : srv_config) : Prop :=
  is_s32 (sc_id s) /\ is_s32 (sc_dc_id s) /\ is_s32 (sc_priority s) /\
  no_nul (sc_endpoint s) /\ no_nul (sc_aux s).

Lemma srv_config_serialize_ok `{U : Uninit} s :
  zlen (srv_config_bytes s) < 2 ^ 31 ->
  srv_config_serialize s = Ok (mkbuf (srv_config_bytes s) 0).
Proof.
  intros L. apply build_ok.
  - unfold srv_config_bytes. repeat (eapply fills_bind; [eauto with codec|]).
    auto with codec.
  - unfold srv_config_bytes. zlen_lia.
  - unfold srv_config_bytes in L. zlen_lia.
Qed.

Lemma sreads_srv_config s :
  srv_config_ok s -> sreads LITTLE srv_config_deserialize (srv_config_bytes s) s.
Proof.
  intros (Hi & Hd & Hp & He & Ha). unfold srv_config_bytes, srv_config_deserialize.
  eapply sreads_bind; [by apply (sreads_i32 LITTLE)|].
  eapply sreads_bind; [by apply (sreads_i32 LITTLE)|].
  eapply sreads_bind; [by apply sreads_cstr|].
  eapply sreads_bind; [by apply sreads_cstr|].
  assert (is_u8 (srv_type s)) by by unfold srv_type; destruct (sc_learner s), (sc_new_joiner s).
  eapply sreads_bind.
  { rewrite <- (u8_small (srv_type s)) at 1 by done. by apply (sreads_u8 LITTLE). }
  rewrite app_nil_r. eapply sreads_map; [by apply (sreads_i32 LITTLE)|].
  by destruct s as [? ? ? ? [] [] ?].
Qed.

(** * cluster_config *)

Record cluster_config := mk_cluster_config {
  cc_log_idx : Z;
  cc_prev_log_idx : Z;
  cc_async_replication : bool;
  cc_user_ctx : list Z;
  cc_servers : list srv_config
}.

#[global] Instance eta_cluster_config : Eta cluster_config := fun c =>
  mk_cluster_config (cc_log_idx c) (cc_prev_log_idx c) (cc_async_replication c)
    (cc_user_ctx c) (cc_servers c).

#[global] Instance cluster_config_eq_dec : EqDecision cluster_config.
Proof. solve_decision. Defined.

Definition cluster_config_new (log_idx prev_log_idx : Z) (ec : bool) : cluster_config :=
  mk_cluster_config log_idx prev_log_idx ec [] [].

Definition set_log_idx (log_idx : Z) (c : cluster_config) : cluster_config :=
  c <| cc_prev_log_idx := cc_log_idx c |> <| cc_log_idx := log_idx |>.

Definition set_user_ctx (ctx : list Z) (c : cluster_config) : cluster_config :=
  c <| cc_user_ctx := ctx |>.

Definition set_async_replication (flag : bool) (c : cluster_config) : cluster_config :=
  c <| cc_async_replication := flag |>.

Fixpoint get_server_in (l : list srv_config) (id : Z) : option srv_config :=
  match l with
  | [] => None
  | s :: l' => if sc_id s =? id then Some s else get_server_in l' id
  end.

Definition get_server (c : cluster_config) (id : Z) : option srv_config :=
  get_server_in (cc_servers c) id.

(** The buffers of the servers, in the order of the list. *)
Fixpoint serialize_all `{U : Uninit} (l : list srv_config) : res (list buffer) :=
  match l with
  | [] => Ok []
  | s :: l' =>
      let* b := srv_config_serialize s in
      let* bs := serialize_all l' in
      Ok (b :: bs)
  end.

Fixpoint put_bufs (l : list buffer) : M buffer unit :=
  match l with [] => ret tt | b :: l' => put_buf b ;; put_bufs l' end.

Definition sizes (l : list buffer) : Z := fold_right (fun b n => size b + n) 0 l.

Definition cluster_config_serialize `{U : Uninit} (c : cluster_config) : res buffer :=
  let* srv_buffs := serialize_all (cc_servers c) in
  let sz := 2 * 8 + 4 + 1 + sizes srv_buffs + 4 + zlen (cc_user_ctx c) in
  build sz (
    put_ulong (cc_log_idx c) ;;
    put_ulong (cc_prev_log_idx c) ;;
    put_byte (b2z (cc_async_replication c)) ;;
    put_bytes (cc_user_ctx c) ;;
    put_int (s32 (zlen (cc_servers c))) ;;
    put_bufs srv_buffs ;;
    set_pos 0).

(** [while (cnt-- > 0)]. *)
Fixpoint get_servers (n : nat) : M serializer (list srv_config) :=
  match n with
  | O => ret []
  | S n' => s <- srv_config_deserialize ;; l <- get_servers n' ;; ret (s :: l)
  end.

Definition cluster_config_deserialize : M serializer cluster_config :=
  log_idx <- get_u64 ;;
  prev_log_idx <- get_u64 ;;
  ec_byte <- get_u8 ;;
  user_ctx <- sget_bytes ;;
  cnt <- get_i32 ;;
  servers <- get_servers (Z.to_nat cnt) ;;
  ret (set_user_ctx user_ctx
         ((cluster_config_new log_idx prev_log_idx (negb (ec_byte =? 0)))
            <| cc_servers := servers |>)).

Definition cluster_config_bytes (c : cluster_config) : list Z :=
  le_bytes 8 (cc_log_idx c) ++ le_bytes 8 (cc_prev_log_idx c)
  ++ [b2z (cc_async_replication c)]
  ++ (le_bytes 4 (zlen (cc_user_ctx c)) ++ cc_user_ctx c)
  ++ le_bytes 4 (zlen (cc_servers c))
  ++ concat (map srv_config_bytes (cc_servers c)) ++ [].

Definition cluster_config_ok (c : cluster_config) : Prop :=
  is_u64 (cc_log_idx c) /\ is_u64 (cc_prev_log_idx c) /\
  Forall srv_config_ok (cc_servers c) /\
  zlen (cluster_config_bytes c) < 2 ^ 31.

Lemma zlen_concat_srv l :
  zlen l <= zlen (concat (map srv_config_bytes l)).
Proof.
  induction l as [|s l IH]; cbn [map concat]; [done|].
  assert (1 <= zlen (srv_config_bytes s)) by (unfold srv_config_bytes; zlen_lia).
  zlen_lia.
Qed.

Lemma serialize_all_ok `{U : Uninit} l :
  zlen (concat (map srv_config_bytes l)) < 2 ^ 31 ->
  serialize_all l = Ok (map (fun s => mkbuf (srv_config_bytes s) 0) l) /\
  sizes (map (fun s => mkbuf (srv_config_bytes s) 0) l)
  = zlen (concat (map srv_config_bytes l)) /\
  writes (put_bufs (map (fun s => mkbuf (srv_config_bytes s) 0) l))
    (concat (map srv_config_bytes l)).
Proof.
  induction l as [|s l IH]; cbn [map concat serialize_all sizes fold_right put_bufs];
    intros L.
  { repeat split; [done..|apply writes_nil]. }
  rewrite zlen_app in L. pose proof (zlen_nonneg (srv_config_bytes s)).
  pose proof (zlen_nonneg (concat (map srv_config_bytes l))).
  destruct IH as (E & Ez & W); [lia|].
  assert (in_block (srv_config_bytes s) 0) as Hb by (split; lia).
  rewrite srv_config_serialize_ok, E by lia. cbn [rbind]. repeat split.
  - rewrite mkbuf_size, zlen_app by done. unfold sizes in Ez. lia.
  - apply writes_bind; [|done]. exact (writes_buf _ 0 Hb).
Qed.

Lemma cluster_config_serialize_ok `{U : Uninit} c :
  cluster_config_ok c ->
  cluster_config_serialize c = Ok (mkbuf (cluster_config_bytes c) 0).
Proof.
  intros (Hl & Hp & Hs & L). unfold cluster_config_serialize.
  pose proof L as L'. unfold cluster_config_bytes in L'.
  pose proof (zlen_concat_srv (cc_servers c)).
  destruct (serialize_all_ok (cc_servers c)) as (E & Ez & W); [zlen_lia|].
  rewrite E. cbn [rbind]. rewrite Ez, s32_small by (unfold_width; zlen_lia).
  apply build_ok.
  - unfold cluster_config_bytes. repeat (eapply fills_bind; [eauto with codec|]).
    auto with codec.
  - unfold cluster_config_bytes. zlen_lia.
  - unfold cluster_config_bytes in L. zlen_lia.
Qed.

Lemma sreads_servers l :
  Forall srv_config_ok l ->
  sreads LITTLE (get_servers (length l)) (concat (map srv_config_bytes l)) l.
Proof.
  induction 1 as [|s l Hs Hl IH]; cbn [length get_servers map concat];
    [apply sreads_ret|].
  eapply sreads_bind; [by apply sreads_srv_config|]. by eapply sreads_map.
Qed.

Lemma sreads_cluster_config c :
  cluster_config_ok c ->
  sreads LITTLE cluster_config_deserialize (cluster_config_bytes c) c.
Proof.
  intros (Hl & Hp & Hs & L). unfold cluster_config_bytes in *.
  pose proof (zlen_concat_srv (cc_servers c)).
  eapply sreads_bind; [by apply (sreads_u64 LITTLE)|].
  eapply sreads_bind; [by apply (sreads_u64 LITTLE)|].
  eapply sreads_bind.
  { rewrite <- (u8_small (b2z _)) at 1 by apply is_u8_b2z.
    apply (sreads_u8 LITTLE), is_u8_b2z. }
  eapply sreads_bind; [apply (sreads_bytes LITTLE); zlen_lia|].
  eapply sreads_bind; [apply (sreads_i32 LITTLE); unfold_width; zlen_lia|].
  rewrite app_nil_r. unfold zlen at 1. rewrite Nat2Z.id.
  eapply sreads_map; [by apply sreads_servers|].
  destruct c as [? ? [] ? ?]; done.
Qed.

(** a cluster configuration (its log indices, flags, user context and
    every server with its id, endpoint, role flags and priority, in order) is
    read back unchanged from what [serialize] wrote. *)
Theorem cluster_config_roundtrip `{U : Uninit} (c : cluster_config) :
  cluster_config_ok c ->
  (let* b := cluster_config_serialize c in from_buf cluster_config_deserialize b) = Ok c.
Proof.
  intros H. rewrite cluster_config_serialize_ok by done.
  apply from_buf_all; [by apply sreads_cluster_config|by destruct H as (_ & _ & _ & ?)].
Qed.

(** A two-server configuration used by the witnesses. *)
Definition sample_config : cluster_config :=
  mk_cluster_config 12 5 true [1; 0; 255]
    [mk_srv_config 1 0 [104; 58; 49] [] false false 1;
     mk_srv_config 2 3 [104; 58; 50] [97] true true (-4)].

Lemma sample_config_ok : cluster_config_ok sample_config.
Proof.
  split_and!; [done..| |by vm_compute].
  repeat constructor; done.
Qed.

Lemma cluster_config_roundtrip_witness :
  (let* b := @cluster_config_serialize (fun _ => 171) sample_config in
   from_buf cluster_config_deserialize b) = Ok sample_config.
Proof. apply (@cluster_config_roundtrip (fun _ => 171)), sample_config_ok. Defined.

(** * snapshot *)

Inductive snp_type :=
| raw_binary
| logical_object
| snp_type_other (v : Z).

#[global] Instance snp_type_eq_dec : EqDecision snp_type.
Proof. solve_decision. Defined.

Definition snp_type_byte (t : snp_type) : Z :=
  match t with raw_binary => 0x1 | logical_object => 0x2 | snp_type_other v => v end.

(** [static_cast<type>(v)]: any byte is a value of the enumeration. *)
Definition snp_type_of (v : Z) : snp_type :=
  if v =? 0x1 then raw_binary else if v =? 0x2 then logical_object else snp_type_other v.

Record snapshot := mk_snapshot {
  snp_last_log_idx : Z;
  snp_last_log_term : Z;
  snp_size : Z;
  snp_last_config : cluster_config;
  snp_kind : snp_type
}.

#[global] Instance eta_snapshot : Eta snapshot := fun s =>
  mk_snapshot (snp_last_log_idx s) (snp_last_log_term s) (snp_size s)
    (snp_last_config s) (snp_kind s).

Definition snapshot_new (idx term : Z) (conf : cluster_config) (size : Z) (t : snp_type)
  : snapshot := mk_snapshot idx term size conf t.

Definition set_snp_size (size : Z) (s : snapshot) : snapshot := s <| snp_size := size |>.

Definition set_snp_type (t : snp_type) (s : snapshot) : snapshot := s <| snp_kind := t |>.

Definition snapshot_deserialize : M serializer snapshot :=
  snp_type <- get_u8 ;;
  last_log_idx <- get_u64 ;;
  last_log_term <- get_u64 ;;
  size <- get_u64 ;;
  conf <- cluster_config_deserialize ;;
  ret (snapshot_new last_log_idx last_log_term conf size (snp_type_of snp_type)).

Definition snapshot_serialize `{U : Uninit} (s : snapshot) : res buffer :=
  let* conf_buf := cluster_config_serialize (snp_last_config s) in
  build (size conf_buf + 8 * 3 + 1) (
    put_byte (snp_type_byte (snp_kind s)) ;;
    put_ulong (snp_last_log_idx s) ;;
    put_ulong (snp_last_log_term s) ;;
    put_ulong (snp_size s) ;;
    put_buf conf_buf ;;
    set_pos 0).

Definition snapshot_bytes (s : snapshot) : list Z :=
  [snp_type_byte (snp_kind s)] ++ le_bytes 8 (snp_last_log_idx s)
  ++ le_bytes 8 (snp_last_log_term s) ++ le_bytes 8 (snp_size s)
  ++ cluster_config_bytes (snp_last_config s) ++ [].

Definition snapshot_ok (s : snapshot) : Prop :=
  is_u64 (snp_last_log_idx s) /\ is_u64 (snp_last_log_term s) /\ is_u64 (snp_size s) /\
  is_u8 (snp_type_byte (snp_kind s)) /\
  snp_type_of (snp_type_byte (snp_kind s)) = snp_kind s /\
  cluster_config_ok (snp_last_config s) /\ zlen (snapshot_bytes s) < 2 ^ 31.

Lemma writes_buf0 l : zlen l < 2 ^ 31 -> writes (put_buf (mkbuf l 0)) l.
Proof. intros. apply (writes_buf l 0). split; zlen_lia. Qed.

Lemma mkbuf_size0 l : zlen l < 2 ^ 31 -> size (mkbuf l 0) = zlen l.
Proof. intros. apply mkbuf_size. split; zlen_lia. Qed.

Lemma sreads_byte v : is_u8 v -> sreads LITTLE get_u8 [v] v.
Proof. intros. rewrite <- (u8_small v) at 1 by done. by apply (sreads_u8 LITTLE). Qed.

Lemma snapshot_serialize_ok `{U : Uninit} s :
  snapshot_ok s -> snapshot_serialize s = Ok (mkbuf (snapshot_bytes s) 0).
Proof.
  intros (_ & _ & _ & _ & _ & Hc & L). unfold snapshot_serialize.
  rewrite cluster_config_serialize_ok by done. cbn [rbind].
  destruct Hc as (_ & _ & _ & Lc). rewrite mkbuf_size0 by done.
  apply build_ok; unfold snapshot_bytes in *; [|zlen_lia..].
  repeat (eapply fills_bind; [eauto using writes_buf0 with codec|]).
  auto with codec.
Qed.

Lemma sreads_snapshot s :
  snapshot_ok s -> sreads LITTLE snapshot_deserialize (snapshot_bytes s) s.
Proof.
  intros (Hi & Ht & Hs & Hk & Ek & Hc & L). unfold snapshot_bytes.
  eapply sreads_bind; [by apply sreads_byte|].
  eapply sreads_bind; [by apply (sreads_u64 LITTLE)|].
  eapply sreads_bind; [by apply (sreads_u64 LITTLE)|].
  eapply sreads_bind; [by apply (sreads_u64 LITTLE)|].
  rewrite app_nil_r. eapply sreads_map; [by apply sreads_cluster_config|].
  rewrite Ek. by destruct s.
Qed.

(** * snapshot_sync_req *)

Record snapshot_sync_req := mk_snapshot_sync_req {
  ssr_snapshot : snapshot;
  ssr_offset : Z;
  ssr_data : buffer;
  ssr_done : bool
}.

#[global] Instance eta_snapshot_sync_req : Eta snapshot_sync_req := fun s =>
  mk_snapshot_sync_req (ssr_snapshot s) (ssr_offset s) (ssr_data s) (ssr_done s).

Definition set_offset (src : Z) (r : snapshot_sync_req) : snapshot_sync_req :=
  r <| ssr_offset := src |>.

Section SnapshotSyncReq.
Context `{U : Uninit}.

Definition snapshot_sync_req_serialize (r : snapshot_sync_req) : res buffer :=
  let* snp_buf := snapshot_serialize (ssr_snapshot r) in
  build (size snp_buf + 8 + 1 + u64 (size (ssr_data r) - pos (ssr_data r))) (
    put_buf snp_buf ;;
    put_ulong (ssr_offset r) ;;
    put_byte (if ssr_done r then 1 else 0) ;;
    put_buf (ssr_data r) ;;
    set_pos 0).

(** The bytes of the request whose data buffer still holds [data]. *)
Definition ssr_bytes (r : snapshot_sync_req) (data : list Z) : list Z :=
  snapshot_bytes (ssr_snapshot r) ++ le_bytes 8 (ssr_offset r)
  ++ [b2z (ssr_done r)] ++ data ++ [].

Lemma ssr_serialize_ok r l p :
  ssr_data r = mkbuf l p -> in_block l p -> snapshot_ok (ssr_snapshot r) ->
  zlen (ssr_bytes r (zdrop p l)) < 2 ^ 31 ->
  snapshot_sync_req_serialize r = Ok (mkbuf (ssr_bytes r (zdrop p l)) 0).
Proof.
  intros E Hb Hs L. unfold snapshot_sync_req_serialize.
  rewrite snapshot_serialize_ok by done. cbn [rbind].
  destruct Hs as (_ & _ & _ & _ & _ & _ & Ls). rewrite E.
  rewrite mkbuf_size0, mkbuf_size, mkbuf_pos by done.
  pose proof (zlen_zdrop p l) as D. destruct Hb as [? ?].
  rewrite u64_small by (unfold_width; lia).
  assert (in_block l p) by done.
  apply build_ok; unfold ssr_bytes in *; [|zlen_lia..].
  repeat (eapply fills_bind;
    [eauto using writes_buf0, writes_buf with codec|]).
  auto with codec.
Qed.

(** The tail of the reader: all that is left of the block becomes [data]. *)
Definition rest_of_block : M serializer buffer :=
  s <- gets id ;;
  if pos_ s <? ssize s then
    let sz := ssize s - pos_ s in
    b <- lift (alloc sz) ;;
    src <- on_buf (load (pos_ s) sz) ;;
    lift (match store (pos b) src b with
          | (Ok _, b') => Ok b'
          | (Throw e, _) => Throw e
          end)
  else lift (alloc 0).

Definition snapshot_sync_req_deserialize : M serializer snapshot_sync_req :=
  snp <- snapshot_deserialize ;;
  offset <- get_u64 ;;
  done <- get_u8 ;;
  b <- rest_of_block ;;
  ret (mk_snapshot_sync_req snp offset b (done =? 1)).

(** [m] gives [a] when [bs] is all that is left of the block. *)
Definition send {A} (m : M serializer A) (bs : list Z) (a : A) : Prop :=
  forall pre p, in_block (pre ++ bs) p ->
    run_val m (mkser LITTLE (pre ++ bs) (zlen pre) p) = Ok a.

Lemma send_bind {A B} (m : M serializer A) (k : A -> M serializer B) bs cs a b :
  sreads LITTLE m bs a -> send (k a) cs b -> send (bind m k) (bs ++ cs) b.
Proof.
  intros Hm Hk pre p Hb. unfold run_val, bind. rewrite (Hm pre cs p Hb).
  rewrite app_assoc in Hb |- *. rewrite <- zlen_app. by apply Hk.
Qed.

Lemma send_map {A B} (m : M serializer A) (f : A -> B) bs a :
  send m bs a -> send (x <- m ;; ret (f x)) bs (f a).
Proof.
  intros Hm pre p Hb. specialize (Hm pre p Hb). unfold run_val, bind in *.
  destruct (m _) as [r s]. cbn in Hm. by subst r.
Qed.

Lemma send_rest data : send rest_of_block data (mkbuf data 0).
Proof.
  intros pre p Hb. unfold run_val, rest_of_block, bind at 1, gets, id, ssize.
  cbn [pos_ buf_ mkser]. rewrite mkbuf_size by done. pose proof Hb as [_ L].
  destruct (Z.eq_dec (zlen data) 0) as [E|E].
  - rewrite (zlen_0_nil data E) in *. rewrite ltb_false by zlen_lia. reflexivity.
  - rewrite ltb_true by zlen_lia.
    replace (zlen (pre ++ data) - zlen pre) with (zlen data) by zlen_lia.
    unfold lift, bind, on_buf. rewrite alloc_ok by zlen_lia. cbn [mkser buf_].
    assert (zlen (fresh (zlen data)) = zlen data) as F
      by (apply zlen_fresh; zlen_lia).
    rewrite mkbuf_load by (done || zlen_lia). cbn [fst].
    rewrite zdrop_app, ztake_all, mkbuf_pos by (split; zlen_lia).
    by rewrite writes_store_all by zlen_lia.
Qed.

(** A snapshot transfer request is read back as it was sent: the snapshot
    with its configuration, the offset and the last-chunk flag unchanged, and
    the unread part of the data buffer as a fresh buffer at position 0. *)
Theorem snapshot_sync_req_roundtrip (r : snapshot_sync_req) (l : list Z) (p : Z) :
  ssr_data r = mkbuf l p -> in_block l p ->
  snapshot_ok (ssr_snapshot r) -> is_u64 (ssr_offset r) ->
  zlen (ssr_bytes r (zdrop p l)) < 2 ^ 31 ->
  (let* b := snapshot_sync_req_serialize r in
   from_buf snapshot_sync_req_deserialize b)
  = Ok (r <| ssr_data := mkbuf (zdrop p l) 0 |>).
Proof.
  intros E Hb Hs Ho L. rewrite (ssr_serialize_ok r l p) by done. cbn [rbind].
  unfold ssr_bytes in *. rewrite app_nil_r in *. unfold from_buf.
  apply (send_bind _ _ _ _ (ssr_snapshot r) _ (sreads_snapshot _ Hs)) with (pre := []).
  - eapply send_bind; [by apply (sreads_u64 LITTLE)|].
    eapply send_bind; [apply sreads_byte, is_u8_b2z|]. rewrite b2z_eq1.
    apply (send_map _ (fun b => mk_snapshot_sync_req _ _ b _)), send_rest.
  - split; [|done]. zlen_lia.
Qed.

End SnapshotSyncReq.

Definition sample_snapshot : snapshot := mk_snapshot 40 3 1000 sample_config logical_object.

Lemma snapshot_sync_req_roundtrip_witness :
  (let* b := @snapshot_sync_req_serialize (fun _ => 171)
               (mk_snapshot_sync_req sample_snapshot 64 (mkbuf [9; 8; 7; 6] 1) true) in
   from_buf (@snapshot_sync_req_deserialize (fun _ => 171)) b)
  = Ok (mk_snapshot_sync_req sample_snapshot 64 (mkbuf [8; 7; 6] 0) true).
Proof.
  apply (@snapshot_sync_req_roundtrip (fun _ => 171)
           (mk_snapshot_sync_req sample_snapshot 64 (mkbuf [9; 8; 7; 6] 1) true) [9; 8; 7; 6] 1);
    try done.
  split_and!; (apply sample_config_ok || done).
Defined.

(** * log_entry *)

Inductive log_val_type :=
| app_log
| conf
| cluster_server
| log_pack
| snp_sync_req
| custom
| log_val_other (v : Z).

Definition log_val_byte (t : log_val_type) : Z :=
  match t with
  | app_log => 1 | conf => 2 | cluster_server => 3 | log_pack => 4
  | snp_sync_req => 5 | custom => 231 | log_val_other v => v
  end.

(** [static_cast<log_val_type>(v)] *)
Definition log_val_of (v : Z) : log_val_type :=
  if v =? 1 then app_log else if v =? 2 then conf
  else if v =? 3 then cluster_server else if v =? 4 then log_pack
  else if v =? 5 then snp_sync_req else if v =? 231 then custom
  else log_val_other v.

#[global] Instance log_val_type_eq_dec : EqDecision log_val_type.
Proof. solve_decision. Defined.

Record log_entry := mk_log_entry {
  le_term : Z;
  le_value_type : log_val_type;
  le_buff : option buffer;
  le_timestamp_us : Z;
  le_has_crc32 : bool;
  le_crc32 : Z
}.

#[global] Instance eta_log_entry : Eta log_entry := fun e =>
  mk_log_entry (le_term e) (le_value_type e) (le_buff e) (le_timestamp_us e)
    (le_has_crc32 e) (le_crc32 e).

(** [crc32_8(buff_->data_begin(), buff_->size(), 0)] *)
Definition buffer_crc (b : buffer) : Z := crc32_8 (ztake (size b) (bytes b)) 0.

Definition log_entry_new (term : Z) (buff : option buffer) (value_type : log_val_type)
    (log_timestamp : Z) (has_crc32 : bool) (crc32 : Z) (compute_crc : bool) : log_entry :=
  let e := mk_log_entry term value_type buff log_timestamp has_crc32 crc32 in
  match buff with
  | Some b =>
      if negb has_crc32 && compute_crc
      then e <| le_has_crc32 := true |> <| le_crc32 := buffer_crc b |>
      else e
  | None => e
  end.

Definition change_buf (buff : option buffer) (e : log_entry) : log_entry :=
  let e := e <| le_buff := buff |> in
  match buff with
  | Some b => if le_has_crc32 e then e <| le_crc32 := buffer_crc b |> else e
  | None => e
  end.

Definition set_entry_term (term : Z) (e : log_entry) : log_entry := e <| le_term := term |>.

Definition set_timestamp (t : Z) (e : log_entry) : log_entry :=
  e <| le_timestamp_us := t |>.

Definition set_crc32 (crc : Z) (e : log_entry) : log_entry := e <| le_crc32 := crc |>.

Definition is_buf_null (e : log_entry) : bool := is_none (le_buff e).

Definition get_entry_buf (e : log_entry) : res buffer :=
  match le_buff e with Some b => Ok b | None => Throw Runtime_error end.

Section LogEntry.
Context `{U : Uninit}.

(** [serialize] rewinds the entry's own buffer first; a null one is not
    tested for. *)
Definition log_entry_serialize : M log_entry buffer :=
  e <- gets id ;;
  match le_buff e with
  | None => throw Undefined
  | Some b0 =>
      let b := run_state (set_pos 0) b0 in
      modify (fun e => e <| le_buff := Some b |>) ;;
      lift (build (8 + 1 + size b) (
        put_ulong (le_term e) ;;
        put_byte (log_val_byte (le_value_type e)) ;;
        put_buf b ;;
        set_pos 0))
  end.

Definition log_entry_deserialize : M buffer log_entry :=
  term <- get_ulong ;;
  t <- get_byte ;;
  buf <- gets id ;;
  data <- lift (copy buf) ;;
  ret (log_entry_new term (Some data) (log_val_of t) 0 false 0 true).

Definition term_in_buffer : M buffer Z :=
  term <- get_ulong ;; set_pos 0 ;; ret term.

Definition log_entry_bytes (e : log_entry) (data : list Z) : list Z :=
  le_bytes 8 (le_term e) ++ [log_val_byte (le_value_type e)] ++ data ++ [].

Lemma log_entry_serialize_ok e l p :
  le_buff e = Some (mkbuf l p) -> in_block l p -> zlen (log_entry_bytes e l) < 2 ^ 31 ->
  log_entry_serialize e
  = (Ok (mkbuf (log_entry_bytes e l) 0), e <| le_buff := Some (mkbuf l 0) |>).
Proof.
  intros E Hb L. unfold log_entry_serialize, bind at 1, gets, id. rewrite E.
  unfold run_state. rewrite mkbuf_set_pos by (done || lia).
  rewrite Z.min_l by zlen_lia. cbn [snd]. unfold bind, modify, lift. f_equal.
  destruct Hb as [? ?]. rewrite mkbuf_size0 by done.
  apply build_ok; unfold log_entry_bytes in *; [|zlen_lia..].
  repeat (eapply fills_bind; [eauto using writes_buf0 with codec|]).
  auto with codec.
Qed.

Lemma buffer_crc_mkbuf l p : in_block l p -> buffer_crc (mkbuf l p) = crc32_8 l 0.
Proof.
  intros Hb. unfold buffer_crc. by rewrite mkbuf_size, mkbuf_bytes, ztake_all.
Qed.

(** The term at the head of an entry's encoding. *)
Lemma reads_ulong_start v post :
  is_u64 v -> zlen (le_bytes 8 v ++ post) < 2 ^ 31 ->
  get_ulong (mkbuf (le_bytes 8 v ++ post) 0)
  = (Ok v, mkbuf (le_bytes 8 v ++ post) (zlen (le_bytes 8 v))).
Proof. intros Hv. exact (reads_ulong v Hv [] post). Qed.

Lemma log_entry_deserialize_ok e data :
  is_u64 (le_term e) -> zlen (log_entry_bytes e data) < 2 ^ 31 ->
  log_val_of (log_val_byte (le_value_type e)) = le_value_type e ->
  run_val log_entry_deserialize (mkbuf (log_entry_bytes e data) 0)
  = Ok (mk_log_entry (le_term e) (le_value_type e) (Some (mkbuf data 0)) 0 true
          (crc32_8 data 0)).
Proof.
  intros Ht L Hv. unfold log_entry_bytes in *. rewrite app_nil_r in *.
  unfold run_val, log_entry_deserialize.
  unfold bind at 1. rewrite (reads_ulong_start _ _ Ht) by done. unfold bind at 1.
  rewrite (reads_byte (log_val_byte (le_value_type e)) (le_bytes 8 (le_term e)) data) by done.
  unfold bind, gets, id, lift. rewrite app_assoc.
  replace (zlen (le_bytes 8 (le_term e)) + zlen [log_val_byte (le_value_type e)])
    with (zlen (le_bytes 8 (le_term e) ++ [log_val_byte (le_value_type e)])) by zlen_lia.
  rewrite copy_ok, zdrop_app by (apply in_block_app; zlen_lia). cbn [fst ret].
  rewrite Hv. unfold log_entry_new. cbn [negb andb]. rewrite buffer_crc_mkbuf; [done|].
  split; zlen_lia.
Qed.

(** A log entry written by [serialize] is read back with its term, type
    and whole payload whatever the position of its buffer was, with the CRC of
    the payload recomputed and the timestamp dropped; its buffer is left
    rewound. *)
Theorem log_entry_roundtrip (e : log_entry) (l : list Z) (p : Z) :
  le_buff e = Some (mkbuf l p) -> in_block l p -> is_u64 (le_term e) ->
  log_val_of (log_val_byte (le_value_type e)) = le_value_type e ->
  zlen (log_entry_bytes e l) < 2 ^ 31 ->
  (let* b := run_val log_entry_serialize e in run_val log_entry_deserialize b)
  = Ok (mk_log_entry (le_term e) (le_value_type e) (Some (mkbuf l 0)) 0 true (crc32_8 l 0))
  /\ le_buff (run_state log_entry_serialize e) = Some (mkbuf l 0).
Proof.
  intros E Hb Ht Hv L. unfold run_state, run_val at 1.
  rewrite (log_entry_serialize_ok e l p) by done. split; [|done].
  by apply log_entry_deserialize_ok.
Qed.

End LogEntry.

Lemma log_entry_roundtrip_witness :
  (let* b := run_val (@log_entry_serialize (fun _ => 171))
               (mk_log_entry 5 conf (Some (mkbuf [1; 2; 3] 2)) 77 false 0) in
   run_val (@log_entry_deserialize (fun _ => 171)) b)
  = Ok (mk_log_entry 5 conf (Some (mkbuf [1; 2; 3] 0)) 0 true (crc32_8 [1; 2; 3] 0)) /\
  le_buff (run_state (@log_entry_serialize (fun _ => 171))
             (mk_log_entry 5 conf (Some (mkbuf [1; 2; 3] 2)) 77 false 0))
  = Some (mkbuf [1; 2; 3] 0).
Proof.
  by apply (@log_entry_roundtrip (fun _ => 171)
              (mk_log_entry 5 conf (Some (mkbuf [1; 2; 3] 2)) 77 false 0) [1; 2; 3] 2).
Defined.
