(* ===== verification/Messages.v ===== *)
(** raft_params.h, srv_role.h, msg_type.h, msg_base.h, req_msg.h, resp_msg.h
    and the result codes of async.h: the parameters of a server and the
    messages servers exchange; timer_helper of internal_timer.h; the messages
    of handle_custom_notification.{h,cc} and resp_appendix of
    handle_append_entries.cc. *)
From S2P Require Import Prelude Buffer Serializer Codec.

(** * raft_params *)

Inductive return_method_type := blocking | async_handler.

#[global] Instance return_method_type_eq_dec : EqDecision return_method_type.
Proof. solve_decision. Defined.

Inductive locking_method_type := single_mutex | dual_mutex | dual_rw_lock.

Record raft_params := mk_raft_params {
  election_timeout_upper_bound_ : Z;
  election_timeout_lower_bound_ : Z;
  heart_beat_interval_ : Z;
  rpc_failure_backoff_ : Z;
  log_sync_batch_size_ : Z;
  log_sync_stop_gap_ : Z;
  snapshot_distance_ : Z;
  snapshot_block_size_ : Z;
  snapshot_sync_ctx_timeout_ : Z;
  enable_randomized_snapshot_creation_ : bool;
  max_append_size_ : Z;
  reserved_log_items_ : Z;
  client_req_timeout_ : Z;
  fresh_log_gap_ : Z;
  stale_log_gap_ : Z;
  custom_commit_quorum_size_ : Z;
  custom_election_quorum_size_ : Z;
  leadership_expiry_ : Z;
  leadership_transfer_min_wait_time_ : Z;
  allow_temporary_zero_priority_leader_ : bool;
  auto_forwarding_ : bool;
  auto_forwarding_max_connections_ : Z;
  use_bg_thread_for_urgent_commit_ : bool;
  exclude_snp_receiver_from_quorum_ : bool;
  auto_adjust_quorum_for_small_cluster_ : bool;
  locking_method_type_ : locking_method_type;
  return_method_ : return_method_type;
  auto_forwarding_req_timeout_ : Z;
  grace_period_of_lagging_state_machine_ : Z;
  use_new_joiner_type_ : bool;
  use_bg_thread_for_snapshot_io_ : bool;
  use_full_consensus_among_healthy_members_ : bool;
  track_peers_sm_commit_idx_ : bool;
  parallel_log_appending_ : bool;
  max_log_gap_in_stream_ : Z;
  max_bytes_in_flight_in_stream_ : Z
}.

#[global] Instance eta_raft_params : Eta raft_params := fun r =>
  mk_raft_params (election_timeout_upper_bound_ r) (election_timeout_lower_bound_ r)
    (heart_beat_interval_ r) (rpc_failure_backoff_ r)
    (log_sync_batch_size_ r) (log_sync_stop_gap_ r) (snapshot_distance_ r)
    (snapshot_block_size_ r) (snapshot_sync_ctx_timeout_ r)
    (enable_randomized_snapshot_creation_ r) (max_append_size_ r)
    (reserved_log_items_ r) (client_req_timeout_ r) (fresh_log_gap_ r)
    (stale_log_gap_ r) (custom_commit_quorum_size_ r)
    (custom_election_quorum_size_ r) (leadership_expiry_ r)
    (leadership_transfer_min_wait_time_ r)
    (allow_temporary_zero_priority_leader_ r) (auto_forwarding_ r)
    (auto_forwarding_max_connections_ r) (use_bg_thread_for_urgent_commit_ r)
    (exclude_snp_receiver_from_quorum_ r)
    (auto_adjust_quorum_for_small_cluster_ r) (locking_method_type_ r)
    (return_method_ r) (auto_forwarding_req_timeout_ r)
    (grace_period_of_lagging_state_machine_ r) (use_new_joiner_type_ r)
    (use_bg_thread_for_snapshot_io_ r)
    (use_full_consensus_among_healthy_members_ r)
    (track_peers_sm_commit_idx_ r) (parallel_log_appending_ r)
    (max_log_gap_in_stream_ r) (max_bytes_in_flight_in_stream_ r).

(** The default constructor. *)
Definition raft_params_default : raft_params :=
  mk_raft_params
    500 250 125 50 1000 99999 0 0 0 false 100 100000 3000 200 2000 0 0 0 0
    true false 10 true false false dual_mutex blocking 0 0 false false
    false false false 0 0.

Definition with_election_timeout_upper (timeout : Z) (p : raft_params) : raft_params :=
  p <| election_timeout_upper_bound_ := timeout |>.

Definition with_election_timeout_lower (timeout : Z) (p : raft_params) : raft_params :=
  p <| election_timeout_lower_bound_ := timeout |>.

Definition with_hb_interval (hb_interval : Z) (p : raft_params) : raft_params :=
  p <| heart_beat_interval_ := hb_interval |>.

Definition with_rpc_failure_backoff (backoff : Z) (p : raft_params) : raft_params :=
  p <| rpc_failure_backoff_ := backoff |>.

Definition with_max_append_size (size : Z) (p : raft_params) : raft_params :=
  p <| max_append_size_ := size |>.

Definition with_log_sync_batch_size (batch_size : Z) (p : raft_params) : raft_params :=
  p <| log_sync_batch_size_ := batch_size |>.

Definition with_log_sync_stopping_gap (gap : Z) (p : raft_params) : raft_params :=
  p <| log_sync_stop_gap_ := gap |>.

Definition with_snapshot_enabled (commit_distance : Z) (p : raft_params) : raft_params :=
  p <| snapshot_distance_ := commit_distance |>.

Definition with_randomized_snapshot_creation_enabled (enabled : bool) (p : raft_params) : raft_params :=
  p <| enable_randomized_snapshot_creation_ := enabled |>.

Definition with_snapshot_sync_block_size (size : Z) (p : raft_params) : raft_params :=
  p <| snapshot_block_size_ := size |>.

Definition with_snapshot_sync_ctx_timeout (timeout_ms : Z) (p : raft_params) : raft_params :=
  p <| snapshot_sync_ctx_timeout_ := timeout_ms |>.

Definition with_reserved_log_items (number_of_logs : Z) (p : raft_params) : raft_params :=
  p <| reserved_log_items_ := number_of_logs |>.

Definition with_client_req_timeout (timeout : Z) (p : raft_params) : raft_params :=
  p <| client_req_timeout_ := timeout |>.

Definition with_auto_forwarding (enable : bool) (p : raft_params) : raft_params :=
  p <| auto_forwarding_ := enable |>.

Definition with_fresh_log_gap (new_gap : Z) (p : raft_params) : raft_params :=
  p <| fresh_log_gap_ := new_gap |>.

Definition with_stale_log_gap (new_gap : Z) (p : raft_params) : raft_params :=
  p <| stale_log_gap_ := new_gap |>.

Definition with_custom_commit_quorum_size (new_size : Z) (p : raft_params) : raft_params :=
  p <| custom_commit_quorum_size_ := new_size |>.

Definition with_custom_election_quorum_size (new_size : Z) (p : raft_params) : raft_params :=
  p <| custom_election_quorum_size_ := new_size |>.

Definition with_leadership_expiry (expiry_ms : Z) (p : raft_params) : raft_params :=
  p <| leadership_expiry_ := expiry_ms |>.

Definition with_auto_forwarding_req_timeout (timeout_ms : Z) (p : raft_params) : raft_params :=
  p <| auto_forwarding_req_timeout_ := timeout_ms |>.

(** [std::max(hb, lower - hb / 2)] on 32-bit integers; [/] rounds to zero. *)
Definition max_hb_interval (p : raft_params) : Z :=
  Z.max (heart_beat_interval_ p)
    (s32 (election_timeout_lower_bound_ p - Z.quot (heart_beat_interval_ p) 2)).

(** * srv_role *)

Inductive srv_role := follower | candidate | leader.

#[global] Instance srv_role_eq_dec : EqDecision srv_role.
Proof. solve_decision. Defined.

(** * msg_type *)

Inductive msg_type :=
| request_vote_request
| request_vote_response
| append_entries_request
| append_entries_response
| client_request
| add_server_request
| add_server_response
| remove_server_request
| remove_server_response
| sync_log_request
| sync_log_response
| join_cluster_request
| join_cluster_response
| leave_cluster_request
| leave_cluster_response
| install_snapshot_request
| install_snapshot_response
| ping_request
| ping_response
| pre_vote_request
| pre_vote_response
| other_request
| other_response
| priority_change_request
| priority_change_response
| reconnect_request
| reconnect_response
| custom_notification_request
| custom_notification_response
| msg_type_other (v : Z).

#[global] Instance msg_type_eq_dec : EqDecision msg_type.
Proof. solve_decision. Defined.

Definition msg_type_val (t : msg_type) : Z :=
  match t with
  | request_vote_request => 1
  | request_vote_response => 2
  | append_entries_request => 3
  | append_entries_response => 4
  | client_request => 5
  | add_server_request => 6
  | add_server_response => 7
  | remove_server_request => 8
  | remove_server_response => 9
  | sync_log_request => 10
  | sync_log_response => 11
  | join_cluster_request => 12
  | join_cluster_response => 13
  | leave_cluster_request => 14
  | leave_cluster_response => 15
  | install_snapshot_request => 16
  | install_snapshot_response => 17
  | ping_request => 18
  | ping_response => 19
  | pre_vote_request => 20
  | pre_vote_response => 21
  | other_request => 22
  | other_response => 23
  | priority_change_request => 24
  | priority_change_response => 25
  | reconnect_request => 26
  | reconnect_response => 27
  | custom_notification_request => 28
  | custom_notification_response => 29
  | msg_type_other v => v
  end.

(** [(msg_type) v] *)
Definition msg_type_of (v : Z) : msg_type :=
  match v with
  | 1 => request_vote_request
  | 2 => request_vote_response
  | 3 => append_entries_request
  | 4 => append_entries_response
  | 5 => client_request
  | 6 => add_server_request
  | 7 => add_server_response
  | 8 => remove_server_request
  | 9 => remove_server_response
  | 10 => sync_log_request
  | 11 => sync_log_response
  | 12 => join_cluster_request
  | 13 => join_cluster_response
  | 14 => leave_cluster_request
  | 15 => leave_cluster_response
  | 16 => install_snapshot_request
  | 17 => install_snapshot_response
  | 18 => ping_request
  | 19 => ping_response
  | 20 => pre_vote_request
  | 21 => pre_vote_response
  | 22 => other_request
  | 23 => other_response
  | 24 => priority_change_request
  | 25 => priority_change_response
  | 26 => reconnect_request
  | 27 => reconnect_response
  | 28 => custom_notification_request
  | 29 => custom_notification_response
  | _ => msg_type_other v
  end.

(** [is_valid_msg], on the integer received from the network. *)
Definition is_valid_msg (type : Z) : bool :=
  (msg_type_val request_vote_request <=? type)
  && (type <=? msg_type_val custom_notification_response).

(** * msg_base, req_msg and resp_msg *)

Record msg_base := mk_msg_base {
  mb_term : Z;
  mb_type : msg_type;
  mb_src : Z;
  mb_dst : Z
}.

#[global] Instance eta_msg_base : Eta msg_base := fun r =>
  mk_msg_base (mb_term r) (mb_type r) (mb_src r) (mb_dst r).

Record req_msg := mk_req_msg {
  rq_base : msg_base;
  rq_last_log_term : Z;
  rq_last_log_idx : Z;
  rq_commit_idx : Z;
  rq_log_entries : list log_entry;
  rq_extra_flags : Z
}.

#[global] Instance eta_req_msg : Eta req_msg := fun r =>
  mk_req_msg (rq_base r) (rq_last_log_term r) (rq_last_log_idx r) (rq_commit_idx r)
    (rq_log_entries r) (rq_extra_flags r).

Definition EXCLUDED_FROM_THE_QUORUM : Z := 0x1.

Definition req_msg_new (term : Z) (type : msg_type) (src dst last_log_term last_log_idx
    commit_idx : Z) : req_msg :=
  mk_req_msg (mk_msg_base term type src dst) last_log_term last_log_idx commit_idx [] 0.

Definition rq_term (m : req_msg) : Z := mb_term (rq_base m).

Definition rq_type (m : req_msg) : msg_type := mb_type (rq_base m).

Definition rq_src (m : req_msg) : Z := mb_src (rq_base m).

Definition rq_dst (m : req_msg) : Z := mb_dst (rq_base m).

Definition set_req_extra_flags (flags : Z) (m : req_msg) : req_msg :=
  m <| rq_extra_flags := flags |>.

Inductive cmd_result_code :=
| OK
| CANCELLED
| TIMEOUT
| NOT_LEADER
| BAD_REQUEST
| SERVER_ALREADY_EXISTS
| CONFIG_CHANGING
| SERVER_IS_JOINING
| SERVER_NOT_FOUND
| CANNOT_REMOVE_LEADER
| SERVER_IS_LEAVING
| TERM_MISMATCH
| RESULT_NOT_EXIST_YET
| FAILED
| result_other (v : Z).

#[global] Instance cmd_result_code_eq_dec : EqDecision cmd_result_code.
Proof. solve_decision. Defined.

Definition result_code_val (c : cmd_result_code) : Z :=
  match c with
  | OK => 0
  | CANCELLED => -1
  | TIMEOUT => -2
  | NOT_LEADER => -3
  | BAD_REQUEST => -4
  | SERVER_ALREADY_EXISTS => -5
  | CONFIG_CHANGING => -6
  | SERVER_IS_JOINING => -7
  | SERVER_NOT_FOUND => -8
  | CANNOT_REMOVE_LEADER => -9
  | SERVER_IS_LEAVING => -10
  | TERM_MISMATCH => -11
  | RESULT_NOT_EXIST_YET => -10000
  | FAILED => -32768
  | result_other v => v
  end.

(** [static_cast<cmd_result_code>(v)] *)
Definition result_code_of (v : Z) : cmd_result_code :=
  match v with
  | 0 => OK
  | -1 => CANCELLED
  | -2 => TIMEOUT
  | -3 => NOT_LEADER
  | -4 => BAD_REQUEST
  | -5 => SERVER_ALREADY_EXISTS
  | -6 => CONFIG_CHANGING
  | -7 => SERVER_IS_JOINING
  | -8 => SERVER_NOT_FOUND
  | -9 => CANNOT_REMOVE_LEADER
  | -10 => SERVER_IS_LEAVING
  | -11 => TERM_MISMATCH
  | -10000 => RESULT_NOT_EXIST_YET
  | -32768 => FAILED
  | _ => result_other v
  end.

(** The response.  The peer it came through is the id of a peer of the
    receiving server ([None]: null); the callbacks of client requests are
    [cli_cb], beside the message. *)
Record resp_msg := mk_resp_msg {
  rs_base : msg_base;
  rs_next_idx : Z;
  rs_next_batch_size_hint_in_bytes : Z;
  rs_accepted : bool;
  rs_ctx : option buffer;
  rs_peer : option Z;
  rs_result_code : cmd_result_code;
  rs_extra_flags : Z
}.

#[global] Instance eta_resp_msg : Eta resp_msg := fun r =>
  mk_resp_msg (rs_base r) (rs_next_idx r) (rs_next_batch_size_hint_in_bytes r)
    (rs_accepted r) (rs_ctx r) (rs_peer r) (rs_result_code r)
    (rs_extra_flags r).

Definition SELF_MARK_DOWN : Z := 0x1.

Definition resp_msg_new (term : Z) (type : msg_type) (src dst next_idx : Z)
    (accepted : bool) : resp_msg :=
  mk_resp_msg (mk_msg_base term type src dst) next_idx 0 accepted None None OK 0x0.

Definition rs_term (m : resp_msg) : Z := mb_term (rs_base m).

Definition rs_type (m : resp_msg) : msg_type := mb_type (rs_base m).

Definition rs_src (m : resp_msg) : Z := mb_src (rs_base m).

Definition rs_dst (m : resp_msg) : Z := mb_dst (rs_base m).

Definition accept (next_idx : Z) (m : resp_msg) : resp_msg :=
  m <| rs_next_idx := next_idx |> <| rs_accepted := true |>.

Definition set_next_batch_size_hint (bytes : Z) (m : resp_msg) : resp_msg :=
  m <| rs_next_batch_size_hint_in_bytes := bytes |>.

Definition set_ctx (src : option buffer) (m : resp_msg) : resp_msg := m <| rs_ctx := src |>.

Definition set_peer (p : option Z) (m : resp_msg) : resp_msg := m <| rs_peer := p |>.

Definition set_result_code (rc : cmd_result_code) (m : resp_msg) : resp_msg :=
  m <| rs_result_code := rc |>.

Definition set_resp_extra_flags (flags : Z) (m : resp_msg) : resp_msg :=
  m <| rs_extra_flags := flags |>.

(** The callback of a response, [has_cb] or [has_async_cb]: how a client request
    waits for the commit of an index. *)
Inductive cli_cb := No_cb | Blocking_cb (idx : Z) | Async_cb (idx : Z).

(** * timer_helper

    [steady_clock::now()] is an argument, in nanoseconds.  The elapsed time is
    a [double] of seconds in the source; it is exact here. *)

Record timer_helper := mk_timer_helper {
  t_created_ : Z;
  duration_us_ : Z;
  first_event_fired_ : bool
}.

#[global] Instance eta_timer_helper : Eta timer_helper := fun r =>
  mk_timer_helper (t_created_ r) (duration_us_ r) (first_event_fired_ r).

Definition timer_helper_new (now duration_us : Z) (fire_first_event : bool) : timer_helper :=
  mk_timer_helper now duration_us (negb fire_first_event).

Definition timer_reset (now offset_ms : Z) (t : timer_helper) : timer_helper :=
  t <| t_created_ := now + offset_ms * 1000000 |>.

Definition set_duration_us (us : Z) (t : timer_helper) : timer_helper :=
  t <| duration_us_ := us |>.

Definition set_duration_ms (ms : Z) (t : timer_helper) : timer_helper :=
  set_duration_us (u64 (ms * 1000)) t.

Definition set_duration_sec (sec : Z) (t : timer_helper) : timer_helper :=
  set_duration_us (u64 (sec * 1000000)) t.

Definition get_us (now : Z) (t : timer_helper) : Z := Z.quot (now - t_created_ t) 1000.

Definition get_ms (now : Z) (t : timer_helper) : Z := Z.quot (now - t_created_ t) 1000000.

Definition get_sec (now : Z) (t : timer_helper) : Z :=
  Z.quot (now - t_created_ t) 1000000000.

Definition timed_out (now : Z) (t : timer_helper) : bool :=
  duration_us_ t * 1000 <? now - t_created_ t.

Definition timeout (now : Z) (t : timer_helper) : bool * timer_helper :=
  if negb (first_event_fired_ t) then (true, t <| first_event_fired_ := true |>)
  else (timed_out now t, t).

Definition timeout_and_reset (now : Z) (t : timer_helper) : bool * timer_helper :=
  if negb (first_event_fired_ t) then (true, t <| first_event_fired_ := true |>)
  else if timed_out now t then (true, t <| t_created_ := now |>)
  else (false, t).

(** [get_timeofday_us()]: the same clock, in microseconds. *)
Definition get_timeofday_us (now : Z) : Z := u64 (now / 1000).

(** * Notifications and the appendix of responses *)

Section Notifications.
Context `{U : Uninit}.

(** [custom_notification_msg::type]; the byte received may be any other. *)
Inductive noti_type :=
| out_of_log_range_warning
| leadership_takeover
| request_resignation
| noti_other (v : Z).

Definition noti_byte (t : noti_type) : Z :=
  match t with
  | out_of_log_range_warning => 1
  | leadership_takeover => 2
  | request_resignation => 3
  | noti_other v => v
  end.

Definition noti_of (v : Z) : noti_type :=
  if v =? 1 then out_of_log_range_warning
  else if v =? 2 then leadership_takeover
  else if v =? 3 then request_resignation
  else noti_other v.

Record custom_notification_msg := mk_noti { noti_kind : noti_type; noti_ctx : option buffer }.

Definition noti_serialize (m : custom_notification_msg) : res buffer :=
  let len := 1 + 1 + 4 + match noti_ctx m with Some c => size c | None => 0 end in
  sbuild len (
    put_u8 0 ;;
    put_u8 (noti_byte (noti_kind m)) ;;
    match noti_ctx m with
    | Some c => sput_bytes (ztake (size c) (bytes c))
    | None => put_u32 0
    end).

Definition noti_deserialize : M serializer custom_notification_msg :=
  version <- get_u8 ;;
  t <- get_u8 ;;
  raw <- sget_bytes ;;
  if 0 <? zlen raw then
    c <- lift (alloc (zlen raw)) ;;
    c <- lift (match store 0 raw c with (Ok _, c') => Ok c' | (Throw e, _) => Throw e end) ;;
    ret (mk_noti (noti_of t) (Some c))
  else ret (mk_noti (noti_of t) None).

Definition out_of_log_serialize (start_idx_of_leader : Z) : res buffer :=
  sbuild (1 + 8) (put_u8 0 ;; put_u64 start_idx_of_leader).

Definition out_of_log_deserialize : M serializer Z := version <- get_u8 ;; get_u64.

Definition force_vote_serialize : res buffer := sbuild 1 (put_u8 0).

Inductive extra_order :=
| NONE
| DO_NOT_REWIND
| RECEIVING_SNAPSHOT
| NOTIFYING_SM_COMMITTED_INDEX
| extra_other (v : Z).

Definition extra_byte (o : extra_order) : Z :=
  match o with
  | NONE => 0 | DO_NOT_REWIND => 1 | RECEIVING_SNAPSHOT => 2
  | NOTIFYING_SM_COMMITTED_INDEX => 3 | extra_other v => v
  end.

Definition extra_of (v : Z) : extra_order :=
  if v =? 0 then NONE else if v =? 1 then DO_NOT_REWIND
  else if v =? 2 then RECEIVING_SNAPSHOT
  else if v =? 3 then NOTIFYING_SM_COMMITTED_INDEX else extra_other v.

#[global] Instance extra_order_eq_dec : EqDecision extra_order.
Proof. solve_decision. Defined.

Record resp_appendix := mk_appendix { ra_order : extra_order; ra_sm_committed_idx : Z }.

Definition appendix_serialize (a : resp_appendix) : res buffer :=
  let notifying := bool_decide (ra_order a = NOTIFYING_SM_COMMITTED_INDEX) in
  sbuild (1 + 1 + (if notifying then 8 else 0)) (
    put_u8 0 ;;
    put_u8 (extra_byte (ra_order a)) ;;
    if notifying then put_u64 (ra_sm_committed_idx a) else ret tt).

Definition appendix_deserialize : M serializer resp_appendix :=
  cur_ver <- get_u8 ;;
  if negb (cur_ver =? 0) then ret (mk_appendix NONE 0)
  else
    o <- get_u8 ;;
    s <- gets id ;;
    if bool_decide (extra_of o = NOTIFYING_SM_COMMITTED_INDEX) && (pos_ s + 8 <=? ssize s)
    then i <- get_u64 ;; ret (mk_appendix (extra_of o) i)
    else ret (mk_appendix (extra_of o) 0).

(** ** Round trips *)

Definition appendix_bytes (a : resp_appendix) : list Z :=
  put_order LITTLE 1 0 ++ put_order LITTLE 1 (extra_byte (ra_order a)) ++
  (if bool_decide (ra_order a = NOTIFYING_SM_COMMITTED_INDEX)
   then put_order LITTLE 8 (ra_sm_committed_idx a) else []).

Lemma appendix_serialize_ok a : appendix_serialize a = Ok (mkbuf (appendix_bytes a) 0).
Proof.
  unfold appendix_serialize. apply sbuild_ok.
  - unfold appendix_bytes. repeat (apply swrites_bind; [apply swrites_uint|]).
    destruct (bool_decide _); [apply swrites_uint|apply swrites_nil].
  - unfold appendix_bytes. destruct (bool_decide _); by rewrite !zlen_app, ?put_order_len.
  - by destruct (bool_decide _).
Qed.

End Notifications.

(** The appendix of an append response is read back as it was sent: the
    extra order for the leader and, with [NOTIFYING_SM_COMMITTED_INDEX], the
    index the follower's state machine has executed (0 otherwise). *)
Theorem appendix_roundtrip `{U : Uninit} (a : resp_appendix) :
  is_u64 (ra_sm_committed_idx a) ->
  (forall v, ra_order a <> extra_other v) ->
  (let* b := appendix_serialize a in from_buf appendix_deserialize b)
  = Ok (if decide (ra_order a = NOTIFYING_SM_COMMITTED_INDEX) then a
        else mk_appendix (ra_order a) 0).
Proof.
  intros Hi Ho. rewrite appendix_serialize_ok. cbn [rbind]. destruct a as [o i]. cbn in Hi, Ho.
  destruct o as [| | | |v]; [done|done|done| |by destruct (Ho v)].
  rewrite decide_True by done. unfold appendix_bytes. rewrite bool_decide_true by done. cbn [extra_byte ra_order].
  change (put_order LITTLE 1 0) with [0]. change (put_order LITTLE 1 3) with [3].
  change (ra_sm_committed_idx _) with i.
  assert (zlen (put_order LITTLE 8 i) = 8) as Hz by apply put_order_len.
  set (bs := put_order LITTLE 8 i) in *.
  assert (in_block ([0] ++ [3] ++ bs) 0) as Hb by (split; zlen_lia).
  pose proof (sreads_u8 LITTLE 0 ltac:(done) [] ([3] ++ bs) 0 Hb) as R1.
  pose proof (sreads_u8 LITTLE 3 ltac:(done) [0] bs 0 Hb) as R2.
  pose proof (sreads_u64 LITTLE i Hi [0; 3] [] 0) as R3. fold bs in R3. rewrite app_nil_r in R3.
  specialize (R3 Hb).
  unfold from_buf, run_val, appendix_deserialize, buffer_serializer.
  unfold bind at 1. change (mk_serializer LITTLE (mkbuf ([0] ++ [3] ++ bs) 0) 0)
    with (mkser LITTLE ([] ++ put_order LITTLE 1 0 ++ [3] ++ bs) (zlen (@nil Z)) 0).
  rewrite R1. cbn [negb Z.eqb]. unfold bind at 1.
  change (mkser LITTLE ([] ++ put_order LITTLE 1 0 ++ [3] ++ bs) _ 0)
    with (mkser LITTLE ([0] ++ put_order LITTLE 1 3 ++ bs) (zlen [0]) 0).
  rewrite R2. unfold bind at 1, gets, id.
  assert (ssize (mkser LITTLE ([0] ++ put_order LITTLE 1 3 ++ bs) (zlen [0] + zlen (put_order LITTLE 1 3)) 0) = 10) as Es.
  { unfold ssize, mkser. cbn [buf_]. rewrite mkbuf_size by exact Hb. rewrite !zlen_app, Hz. done. }
  rewrite Es. change (extra_of 3) with NOTIFYING_SM_COMMITTED_INDEX. rewrite bool_decide_true by done.
  cbn [andb pos_ mkser]. change (zlen [0] + zlen (put_order LITTLE 1 3) + 8 <=? 10) with true.
  unfold bind. change (mkser LITTLE ([0] ++ put_order LITTLE 1 3 ++ bs) _ 0)
    with (mkser LITTLE ([0; 3] ++ bs) (zlen [0; 3]) 0). by rewrite R3.
Qed.

Lemma appendix_roundtrip_witness :
  (let* b := @appendix_serialize (fun _ => 171) (mk_appendix NOTIFYING_SM_COMMITTED_INDEX 77) in
   from_buf appendix_deserialize b) = Ok (mk_appendix NOTIFYING_SM_COMMITTED_INDEX 77).
Proof.
  by apply (@appendix_roundtrip (fun _ => 171) (mk_appendix NOTIFYING_SM_COMMITTED_INDEX 77)).
Defined.

(** The bytes of a notification with the payload [l]. *)
Definition noti_bytes (k : noti_type) (l : list Z) : list Z :=
  put_order LITTLE 1 0 ++ put_order LITTLE 1 (noti_byte k) ++ put_order LITTLE 4 (zlen l) ++ l.

Lemma zlen_noti k l : zlen (noti_bytes k l) = 6 + zlen l.
Proof. unfold noti_bytes. rewrite !zlen_app, !put_order_len. lia. Qed.

Lemma noti_serialize_ok `{U : Uninit} k l p :
  in_block l p -> zlen l + 6 < 2 ^ 31 ->
  noti_serialize (mk_noti k (Some (mkbuf l p))) = Ok (mkbuf (noti_bytes k l) 0).
Proof.
  intros Hb Hl. unfold noti_serialize. cbn [noti_ctx noti_kind].
  rewrite mkbuf_size, mkbuf_bytes, ztake_all by done. apply sbuild_ok; [|rewrite zlen_noti; lia|lia].
  repeat (apply swrites_bind; [apply swrites_uint|]). apply swrites_bytes. lia.
Qed.

(** A notification between servers is read back with its type and its
    payload, rewound; an empty payload becomes none. *)
Theorem notification_roundtrip `{U : Uninit} (k : noti_type) (l : list Z) (p : Z) :
  is_u8 (noti_byte k) -> noti_of (noti_byte k) = k ->
  in_block l p -> zlen l + 6 < 2 ^ 31 ->
  (let* b := noti_serialize (mk_noti k (Some (mkbuf l p))) in from_buf noti_deserialize b)
  = Ok (mk_noti k (if 0 <? zlen l then Some (mkbuf l 0) else None)).
Proof.
  intros Hk Hk' Hb Hl. rewrite noti_serialize_ok by done. cbn [rbind].
  apply from_buf_all; [|rewrite zlen_noti; lia]. unfold noti_bytes, noti_deserialize.
  eapply sreads_bind; [by apply sreads_u8|]. eapply sreads_bind; [by apply sreads_u8|].
  rewrite <- (app_nil_r (put_order LITTLE 4 (zlen l) ++ l)).
  eapply sreads_bind; [apply sreads_bytes; lia|]. rewrite Hk'.
  destruct (0 <? zlen l); [|apply sreads_ret].
  intros pre post q Hq. pose proof (zlen_nonneg l).
  assert (alloc (zlen l) = Ok (mkbuf (fresh (zlen l)) 0)) as Ea by (apply alloc_ok; lia).
  unfold bind, lift. rewrite Ea. rewrite writes_store_all by (rewrite ?zlen_fresh; lia). cbn. do 2 f_equal. zlen_lia.
Qed.

Lemma notification_roundtrip_witness :
  (let* b := @noti_serialize (fun _ => 171) (mk_noti leadership_takeover (Some (mkbuf [7; 8] 1))) in
   from_buf (@noti_deserialize (fun _ => 171)) b) = Ok (mk_noti leadership_takeover (Some (mkbuf [7; 8] 0))).
Proof. by apply (@notification_roundtrip (fun _ => 171) leadership_takeover [7; 8] 1). Defined.
