(* ===== verification/Typing.v ===== *)
(** The decoders on arbitrary bytes: whatever a peer or a disk delivers, a value
    that is decoded has the widths of the types of its fields, and its strings
    hold no NUL. *)
From S2P Require Import Prelude Buffer Serializer Codec Messages.

Create HintDb typed.

(** The memory of a buffer holds bytes. *)
Definition in_bytes (s : serializer) : Prop := Forall byte_ok (bytes (buf_ s)).

(** [m] leaves bytes, and what it returns has [P]. *)
Definition typed {A} (P : A -> Prop) (m : M serializer A) : Prop := forall s,
  in_bytes s -> in_bytes (snd (m s)) /\ (forall a, fst (m s) = Ok a -> P a).

Lemma typed_ret {A} (P : A -> Prop) a : P a -> typed P (ret a).
Proof. intros H s Hs. split; [done|]. by intros ? [= <-]. Qed.

Lemma typed_bind {A B} (P : A -> Prop) (Q : B -> Prop) (m : M serializer A) k :
  typed P m -> (forall a, P a -> typed Q (k a)) -> typed Q (bind m k).
Proof.
  intros Hm Hk s Hs. destruct (Hm s Hs) as (H1 & H2). unfold bind. destruct (m s) as [[a|e] s1]; cbn in *;
    [by apply (Hk a); [apply H2|]|done].
Qed.

Lemma typed_mono {A} (P Q : A -> Prop) (m : M serializer A) :
  typed P m -> (forall a, P a -> Q a) -> typed Q m.
Proof. intros Hm H s Hs. destruct (Hm s Hs). split; auto. Qed.

Lemma typed_gets {A} (f : serializer -> A) : typed (fun _ => True) (gets f).
Proof. intros s Hs. by split. Qed.

Lemma typed_read {A} (P : A -> Prop) (k : serializer -> M serializer A) :
  (forall s, in_bytes s -> typed P (k s)) -> typed P (bind (gets id) k).
Proof. intros H s Hs. exact (H s Hs s Hs). Qed.

Lemma typed_throw {A} (P : A -> Prop) e : typed P (throw e).
Proof. intros s Hs. by split. Qed.

Lemma typed_spos p : typed (fun _ => True) (set_spos p).
Proof. intros s Hs. unfold set_spos. by destruct (_ <? _). Qed.

Lemma typed_guard (c : bool) e : typed (fun _ => True) (guard c e).
Proof. unfold guard. destruct c; [by apply typed_ret|apply typed_throw]. Qed.

Lemma typed_load off n : typed (fun d => Forall byte_ok d /\ zlen d <= Z.max 0 n) (on_buf (load off n)).
Proof.
  intros s Hs. unfold on_buf, load. destruct (_ && _); cbn; [|by split].
  split; [done|]. intros ? [= <-]. split.
  - unfold ztake, zdrop. by apply Forall_take, Forall_drop.
  - unfold ztake, zlen. rewrite length_take. lia.
Qed.

#[export] Hint Resolve typed_gets typed_throw typed_spos typed_guard : typed.

Lemma get_order_range e n d :
  Forall byte_ok d -> zlen d <= Z.of_nat n -> 0 <= get_order e n d < 2 ^ (8 * Z.of_nat n).
Proof.
  assert (forall d, Forall byte_ok d -> zlen d <= Z.of_nat n ->
    0 <= shift_in n (rev d) < 2 ^ (8 * Z.of_nat n)) as H.
  { clear d. intros d Hd Hn. rewrite shift_in_le by done. pose proof (le_val_bound d Hd) as (H1 & H2).
    split; [done|]. eapply Z.lt_le_trans; [exact H2|]. apply Z.pow_le_mono_r; lia. }
  intros Hd Hn. destruct e; cbn; [by apply H|]. rewrite <- (rev_involutive d). apply H.
  - by apply Forall_rev.
  - unfold zlen in *. by rewrite length_rev.
Qed.

(** ** The readers *)

Lemma typed_uint n : typed (fun v => 0 <= v < 2 ^ (8 * Z.of_nat n)) (get_uint n).
Proof.
  unfold get_uint, chk_length. eapply typed_bind; [eapply typed_bind; [apply typed_gets|]; auto with typed|].
  intros _ _. eapply typed_bind; [apply typed_gets|]. intros s _.
  eapply typed_bind; [apply typed_load|]. intros d (Hd & Hl).
  eapply typed_bind; [apply typed_spos|]. intros _ _. apply typed_ret, get_order_range; [done|lia].
Qed.

Lemma typed_u8 : typed is_u8 get_u8.
Proof. apply (typed_uint 1). Qed.

Lemma typed_u32 : typed is_u32 get_u32.
Proof. apply (typed_uint 4). Qed.

Lemma typed_u64 : typed is_u64 get_u64.
Proof. apply (typed_uint 8). Qed.

Lemma typed_i32 : typed is_s32 get_i32.
Proof.
  unfold get_i32. eapply typed_bind; [apply (typed_uint 4)|]. intros v _. apply typed_ret.
  unfold is_s32, s32. pose proof (Z.mod_pos_bound (v + 2 ^ 31) (2 ^ 32) eq_refl). lia.
Qed.

Lemma typed_raw n : typed (Forall byte_ok) (sget_raw n).
Proof.
  unfold sget_raw. eapply typed_bind; [apply typed_gets|]. intros s _.
  eapply typed_bind; [apply typed_spos|]. intros _ _. eapply typed_mono; [apply typed_load|]. by intros d (H & _).
Qed.

Lemma typed_bytes : typed (Forall byte_ok) sget_bytes.
Proof.
  unfold sget_bytes. eapply typed_bind; [apply typed_u32|]. intros n _.
  eapply typed_bind; [apply typed_gets|]. intros s _.
  eapply typed_bind; [apply typed_guard|]. intros _ _. apply typed_raw.
Qed.

(** A C string: characters other than NUL. *)
Definition cstr_ok (l : list Z) : Prop := Forall byte_ok l /\ no_nul l.

Lemma cstr_prefix_ok l : Forall byte_ok l -> cstr_ok (cstr_prefix l).
Proof.
  induction 1 as [|c l Hc Hl (IH1 & IH2)]; cbn; [by split; constructor|].
  destruct (Z.eqb_spec c 0); [by split; constructor|]. by split; constructor.
Qed.

Lemma typed_cstr : typed cstr_ok get_cstr.
Proof.
  unfold get_cstr. apply typed_read. intros s Hs. cbn zeta. destruct (_ =? _); [apply typed_throw|].
  eapply typed_bind; [apply typed_spos|]. intros _ _. apply typed_ret, cstr_prefix_ok. by apply Forall_drop.
Qed.

#[export] Hint Resolve typed_u8 typed_u32 typed_u64 typed_i32 typed_bytes typed_cstr : typed.

Ltac typed_step :=
  lazymatch goal with
  | |- typed _ (bind _ _) => eapply typed_bind; [solve [eauto 2 with typed nocore]|intros ? ?]
  | |- typed _ (ret _) => apply typed_ret
  | |- typed _ (if ?b then _ else _) => destruct b
  end.

(** A conjunction whose parts are at hand. *)
Ltac each_field := repeat first [done | split; [done|] | split; [|done]].

(** ** The decoders *)

Definition srv_config_typed (c : srv_config) : Prop :=
  is_s32 (sc_id c) /\ is_s32 (sc_dc_id c) /\ is_s32 (sc_priority c)
  /\ cstr_ok (sc_endpoint c) /\ cstr_ok (sc_aux c).

Definition cluster_config_typed (c : cluster_config) : Prop :=
  is_u64 (cc_log_idx c) /\ is_u64 (cc_prev_log_idx c) /\ Forall byte_ok (cc_user_ctx c)
  /\ Forall srv_config_typed (cc_servers c).

Definition srv_state_typed (s : srv_state) : Prop := is_u64 (term_ s) /\ is_s32 (voted_for_ s).

Definition snapshot_typed (s : snapshot) : Prop :=
  is_u64 (snp_last_log_idx s) /\ is_u64 (snp_last_log_term s) /\ is_u64 (snp_size s)
  /\ is_u8 (snp_type_byte (snp_kind s)) /\ cluster_config_typed (snp_last_config s).

Lemma typed_srv_config : typed srv_config_typed srv_config_deserialize.
Proof. unfold srv_config_deserialize. repeat typed_step. each_field. Qed.

Lemma typed_servers n : typed (Forall srv_config_typed) (get_servers n).
Proof.
  induction n as [|n IH]; cbn; [apply typed_ret; constructor|].
  eapply typed_bind; [apply typed_srv_config|]. intros c Hc.
  eapply typed_bind; [apply IH|]. intros l Hl. apply typed_ret. by constructor.
Qed.

#[export] Hint Resolve typed_srv_config typed_servers : typed.

Lemma typed_cluster_config : typed cluster_config_typed cluster_config_deserialize.
Proof. unfold cluster_config_deserialize. repeat typed_step. each_field. Qed.

#[export] Hint Resolve typed_cluster_config : typed.

Lemma snp_type_byte_of v : snp_type_byte (snp_type_of v) = v.
Proof.
  unfold snp_type_of. destruct (Z.eqb_spec v 1) as [->|]; [done|]. by destruct (Z.eqb_spec v 2) as [->|].
Qed.

Lemma typed_snapshot : typed snapshot_typed snapshot_deserialize.
Proof.
  unfold snapshot_deserialize. repeat typed_step. each_field. cbn. by rewrite snp_type_byte_of.
Qed.

Lemma typed_flag v : typed (fun _ => True) (get_flag_v2 v).
Proof. unfold get_flag_v2. repeat typed_step; done. Qed.

#[export] Hint Resolve typed_flag : typed.

Lemma typed_srv_state : typed srv_state_typed srv_state_deserialize_v1p.
Proof. unfold srv_state_deserialize_v1p. repeat typed_step. each_field. Qed.

Lemma typed_appendix : typed (fun a => is_u64 (ra_sm_committed_idx a)) appendix_deserialize.
Proof. unfold appendix_deserialize. repeat typed_step; done. Qed.

Lemma typed_out_of_log : typed is_u64 out_of_log_deserialize.
Proof. unfold out_of_log_deserialize. repeat typed_step. apply typed_u64. Qed.

Lemma from_buf_typed {A} (P : A -> Prop) m b a :
  typed P m -> Forall byte_ok (bytes b) -> from_buf m b = Ok a -> P a.
Proof. intros Hm Hb. by apply (Hm (buffer_serializer LITTLE b)). Qed.

Lemma acc_le_range (P : Z -> Prop) wrap bs i v :
  (forall z, P (wrap z)) -> P v -> P (acc_le wrap bs i v).
Proof. intros Hw. revert i v. induction bs as [|b bs IH]; intros i v Hv; cbn; auto. Qed.

Lemma s32_range z : is_s32 (s32 z).
Proof. unfold is_s32, s32. pose proof (Z.mod_pos_bound (z + 2 ^ 31) (2 ^ 32) eq_refl). lia. Qed.

(** The oldest format is read from the buffer itself. *)
Lemma srv_state_v0_typed b s : run_val srv_state_deserialize_v0 b = Ok s -> srv_state_typed s.
Proof.
  unfold run_val, srv_state_deserialize_v0, get_ulong, get_int, bind, ret.
  destruct (get_at 8 b) as [[d|] b1]; [|done]. destruct (get_at 4 b1) as [[d'|] b2]; [|done].
  intros [= <-]. split; cbn; apply acc_le_range; (apply u64_range || apply s32_range || done).
Qed.

Lemma log_entry_typed `{U : Uninit} b e : run_val log_entry_deserialize b = Ok e -> is_u64 (le_term e).
Proof.
  unfold run_val, log_entry_deserialize, get_ulong, get_byte, bind, gets, lift, id, ret.
  destruct (get_at 8 b) as [[d|] b1]; [|done]. destruct (get_at 1 b1) as [[d'|] b2]; [|done].
  destruct (copy b2) as [c|]; [|done]. intros [= <-]. cbn. apply acc_le_range; (apply u64_range || done).
Qed.


