(* ===== verification/Async.v ===== *)
(** async.h: [cmd_result], the result of a client request that arrives later.

    Handlers are names; a call of one is an event with what it is called with.
    [set_result] and [when_ready] may run in different threads: each is a list
    of atomic steps, what happens under [lock_] being one step, and the threads
    are merged in every way. *)
From stdpp Require Import strings pretty.
From Stdlib Require Import String.
From S2P Require Import Prelude Messages.

#[local] Open Scope string_scope.

Definition cmd_result_code_to_string (code : cmd_result_code) : string :=
  match code with
  | OK => "OK"
  | CANCELLED => "CANCELLED"
  | TIMEOUT => "TIMEOUT"
  | NOT_LEADER => "NOT_LEADER"
  | BAD_REQUEST => "BAD_REQUEST"
  | SERVER_ALREADY_EXISTS => "SERVER_ALREADY_EXISTS"
  | CONFIG_CHANGING => "CONFIG_CHANGING"
  | SERVER_IS_JOINING => "SERVER_IS_JOINING"
  | SERVER_NOT_FOUND => "SERVER_NOT_FOUND"
  | CANNOT_REMOVE_LEADER => "CANNOT_REMOVE_LEADER"
  | SERVER_IS_LEAVING => "SERVER_IS_LEAVING"
  | TERM_MISMATCH => "TERM_MISMATCH"
  | RESULT_NOT_EXIST_YET => "RESULT_NOT_EXIST_YET"
  | FAILED => "FAILED"
  | result_other v => "unknown (" +:+ pretty v +:+ ")"
  end.

Section CmdResult.
Context {T E : Type} (T0 : T).

(** [None] is the null pointer, of an exception or a handler. *)
Record cmd_result := mk_cmd_result {
  result_ : T;
  err_ : option E;
  code_ : cmd_result_code;
  has_result_ : bool;
  cr_accepted_ : bool;
  handler_ : option Z;
  handler2_ : option Z
}.

#[global] Instance eta_cmd_result : Eta cmd_result := fun r =>
  mk_cmd_result (result_ r) (err_ r) (code_ r) (has_result_ r) (cr_accepted_ r) (handler_ r)
    (handler2_ r).

(** A handler called with a value and an error, or with the whole object. *)
Inductive call :=
| Call (h : Z) (result : T) (err : option E)
| Call2 (h : Z) (r : cmd_result) (err : option E).

(** The four constructors. *)
Definition cmd_result_new : cmd_result := mk_cmd_result T0 None OK false false None None.

Definition cmd_result_of (result : T) (code : cmd_result_code) : cmd_result :=
  mk_cmd_result result None code true false None None.

Definition cmd_result_accepted (result : T) (accepted : bool) (code : cmd_result_code) : cmd_result :=
  mk_cmd_result result None code true accepted None None.

(** [has_result_] is set although there is no result. *)
Definition cmd_result_handler (handler : Z) : cmd_result :=
  mk_cmd_result T0 None OK true false (Some handler) None.

Definition reset (r : cmd_result) : cmd_result :=
  mk_cmd_result T0 None OK false false None None.

Definition cr_accept (r : cmd_result) : cmd_result := r <| cr_accepted_ := true |>.

Definition cr_set_result_code (ec : cmd_result_code) (r : cmd_result) : cmd_result :=
  r <| code_ := ec |>.

Definition get_result_code (r : cmd_result) : cmd_result_code :=
  if has_result_ r then code_ r else RESULT_NOT_EXIST_YET.

Definition get_result_str (r : cmd_result) : string :=
  match get_result_code r with
  | OK => "Ok."
  | CANCELLED => "Request cancelled."
  | TIMEOUT => "Request timeout."
  | NOT_LEADER => "This node is not a leader."
  | BAD_REQUEST => "Invalid request."
  | SERVER_ALREADY_EXISTS => "Server already exists in the cluster."
  | CONFIG_CHANGING => "Previous configuration change has not been committed yet."
  | SERVER_IS_JOINING => "Other server is being added."
  | SERVER_NOT_FOUND => "Cannot find server."
  | CANNOT_REMOVE_LEADER => "Cannot remove leader."
  | SERVER_IS_LEAVING => "Server is leaving."
  | TERM_MISMATCH => "The current term does not match the expected term."
  | RESULT_NOT_EXIST_YET => "Operation is in progress and the result does not exist yet."
  | FAILED => "Failed."
  | result_other _ => "Unknown (" +:+ pretty (result_code_val (get_result_code r)) +:+ ")."
  end.

(** [None]: the caller waits.  The empty result stands for an error. *)
Definition get (r : cmd_result) : option T :=
  if has_result_ r then Some (if is_none (err_ r) then result_ r else T0)
  else if is_none (err_ r) then None
  else Some T0.

(** ** Threads *)

(** The state of the object, the local [call_handler] of each of two threads,
    and the calls made so far, the last one first. *)
Record shared := mk_shared {
  object : cmd_result;
  flag_w : bool;
  flag_s : bool;
  calls : list call
}.

#[global] Instance eta_shared : Eta shared := fun r =>
  mk_shared (object r) (flag_w r) (flag_s r) (calls r).

Definition astep := shared -> shared.

Definition call_if (b : bool) (c : call) (s : shared) : shared :=
  if b then s <| calls ::= cons c |> else s.

(** [when_ready] for the two types of handlers. *)
Definition when_ready (h : Z) : list astep :=
  [ (fun s => if has_result_ (object s) then s <| flag_w := true |>
              else s <| object ::= fun r => r <| handler_ := Some h |> |>);
    (fun s => call_if (flag_w s) (Call h (result_ (object s)) (err_ (object s))) s) ].

Definition when_ready2 (h : Z) : list astep :=
  [ (fun s => if has_result_ (object s) then s <| flag_w := true |>
              else s <| object ::= fun r => r <| handler2_ := Some h |> |>);
    (fun s => call_if (flag_w s) (Call2 h (object s) (err_ (object s))) s) ].

Definition set_result (result : T) (err : option E) (code : cmd_result_code) : list astep :=
  [ (fun s => s <| object ::= fun r => r <| code_ := code |> |>);
    (fun s =>
       let r := object s in
       s <| object := r <| result_ := result |> <| err_ := err |> <| has_result_ := true |> |>
         <| flag_s := is_some (handler_ r) || is_some (handler2_ r) |>);
    (fun s =>
       if flag_s s then
         match handler2_ (object s), handler_ (object s) with
         | Some h, _ => s <| calls ::= cons (Call2 h (object s) err) |>
         | None, Some h => s <| calls ::= cons (Call h result err) |>
         | None, None => s
         end
       else s) ].

(** The order of the steps of two threads, in every way that keeps the order of
    each. *)
Fixpoint merges {A} (l : list A) : list A -> list (list A) :=
  fix go (r : list A) : list (list A) :=
    match l, r with
    | [], _ => [r]
    | _, [] => [l]
    | x :: l', y :: r' => (map (cons x) (merges l' r) ++ map (cons y) (go r'))%list
    end.

Definition run_steps (tr : list astep) (s : shared) : shared := fold_left (fun s f => f s) tr s.

(** A fresh object that no thread has touched. *)
Definition untouched : shared := mk_shared cmd_result_new false false [].

(** C27: a client that waits for its result by a handler of either type is told
    it exactly once, whenever the result comes: in every interleaving of
    [when_ready] and [set_result] the handler is called once, and with the result
    and the error that were set. *)
Theorem result_delivered_once (h : Z) (result : T) (err : option E) (code : cmd_result_code)
    (tr : list astep) :
  (tr ∈ merges (when_ready h) (set_result result err code) ->
   calls (run_steps tr untouched) = [Call h result err]) /\
  (tr ∈ merges (when_ready2 h) (set_result result err code) ->
   exists r, calls (run_steps tr untouched) = [Call2 h r err] /\
     get r = Some (if is_none err then result else T0) /\ get_result_code r = code).
Proof.
  split; cbn; intros H; repeat (apply elem_of_cons in H as [->|H]); try (by apply not_elem_of_nil in H);
    cbn; try done; eexists; (split; [done|]); by destruct err.
Qed.

End CmdResult.

Lemma result_delivered_once_witness :
  (when_ready (T:=Z) (E:=Z) 7 ++ set_result 5 None OK)%list ∈ merges (when_ready 7) (set_result 5 None OK) /\
  calls (run_steps (when_ready (T:=Z) (E:=Z) 7 ++ set_result 5 None OK)%list (untouched 0)) = [Call 7 5 None].
Proof.
  assert (H : (when_ready (T:=Z) (E:=Z) 7 ++ set_result 5 None OK)%list
              ∈ merges (when_ready 7) (set_result 5 None OK)) by apply list_elem_of_here.
  split; [exact H|].
  exact (proj1 (result_delivered_once (E:=Z) 0 7 5 None OK _) H).
Defined.
