(* ===== verification/Awaiter.v ===== *)
(** event_awaiter.h: [EventAwaiter], by which a thread waits until another one
    calls it.

    Any number of threads run [wait] or [invoke] on one object.  A state holds
    the atomic [status], the owner of [cvLock] and, for each thread, the point
    it has reached in its function; a step is one atomic operation of one
    thread.  A condition variable may also wake up by itself, and by timeout in
    [wait_us]: the step [wake_up]. *)
From S2P Require Import Prelude.

Inductive AS := idle | ready | waiting | done_.

#[global] Instance AS_eq_dec : EqDecision AS.
Proof. solve_decision. Defined.

(** Points of [wait_us] and of [invoke], each before the operation named. *)
Inductive pc :=
| W_begin        (* compare_exchange idle -> ready *)
| W_lock         (* lock cvLock *)
| W_check        (* compare_exchange ready -> waiting *)
| W_wait         (* cv.wait: unlock and sleep *)
| W_sleep        (* asleep *)
| W_relock       (* woken up, lock cvLock *)
| W_store        (* status.store(done) *)
| W_unlock       (* unlock cvLock *)
| W_return
| I_begin        (* compare_exchange idle -> done *)
| I_lock         (* lock cvLock *)
| I_check        (* compare_exchange ready -> done *)
| I_notify       (* cv.notify_all *)
| I_unlock       (* unlock cvLock *)
| I_return.

#[global] Instance pc_eq_dec : EqDecision pc.
Proof. solve_decision. Defined.

Record awaiter := mk_awaiter {
  status : AS;
  cvLock : option nat;
  threads : list pc
}.

(** [EventAwaiter()]; [reset] gives [status] the same value. *)
Definition EventAwaiter (ts : list pc) : awaiter := mk_awaiter idle None ts.

Definition reset_status (s : awaiter) : awaiter := mk_awaiter idle (cvLock s) (threads s).

(** [compare_exchange_strong]. *)
Definition cas (i : nat) (expected desired : AS) (yes no : pc) (s : awaiter) : awaiter :=
  if decide (status s = expected) then mk_awaiter desired (cvLock s) (<[i := yes]> (threads s))
  else mk_awaiter (status s) (cvLock s) (<[i := no]> (threads s)).

Definition acquire (i : nat) (next : pc) (s : awaiter) : option awaiter :=
  if cvLock s is None then Some (mk_awaiter (status s) (Some i) (<[i := next]> (threads s)))
  else None.

Definition release (i : nat) (next : pc) (s : awaiter) : awaiter :=
  mk_awaiter (status s) None (<[i := next]> (threads s)).

Definition woken (p : pc) : pc := if p is W_sleep then W_relock else p.

(** [wait_us]. *)
Definition wait_us_step (i : nat) (p : pc) (s : awaiter) : option awaiter :=
  match p with
  | W_begin => Some (cas i idle ready W_lock W_return s)
  | W_lock => acquire i W_check s
  | W_check => Some (cas i ready waiting W_wait W_unlock s)
  | W_wait => Some (release i W_sleep s)
  | W_relock => acquire i W_store s
  | W_store => Some (mk_awaiter done_ (cvLock s) (<[i := W_unlock]> (threads s)))
  | W_unlock => Some (release i W_return s)
  | _ => None
  end.

(** [invoke]. *)
Definition invoke_step (i : nat) (p : pc) (s : awaiter) : option awaiter :=
  match p with
  | I_begin => Some (cas i idle done_ I_return I_lock s)
  | I_lock => acquire i I_check s
  | I_check => Some (cas i ready done_ I_unlock I_notify s)
  | I_notify => Some (mk_awaiter (status s) (cvLock s) (<[i := I_unlock]> (woken <$> threads s)))
  | I_unlock => Some (release i I_return s)
  | _ => None
  end.

Definition is_waiter (p : pc) : bool :=
  match p with
  | I_begin | I_lock | I_check | I_notify | I_unlock | I_return => false
  | _ => true
  end.

(** The next operation of thread [i]; [None] when it is blocked or has returned. *)
Definition thread_step (i : nat) (s : awaiter) : option awaiter :=
  p ← threads s !! i; if is_waiter p then wait_us_step i p s else invoke_step i p s.

(** [cv.wait] and [cv.wait_for] return without being notified. *)
Definition wake_up (i : nat) (s : awaiter) : option awaiter :=
  p ← threads s !! i;
  if decide (p = W_sleep) then Some (mk_awaiter (status s) (cvLock s) (<[i := W_relock]> (threads s)))
  else None.

Inductive astep : awaiter -> awaiter -> Prop :=
| astep_thread i s s' : thread_step i s = Some s' -> astep s s'
| astep_wake_up i s s' : wake_up i s = Some s' -> astep s s'.

(** The threads when they start. *)
Definition starts (p : pc) : Prop := p = W_begin \/ p = I_begin.

Definition returned (p : pc) : Prop := p = W_return \/ p = I_return.

(** ** The invariant *)

(** What each point knows: whether the thread holds the lock, and of the status.
    [fired] is whether some [invoke] has done its work. *)
Definition holds (p : pc) : bool :=
  match p with
  | W_check | W_wait | W_store | W_unlock | I_check | I_notify | I_unlock => true
  | _ => false
  end.

(** In [cv.wait] or about to enter it. *)
Definition in_wait (p : pc) : bool :=
  match p with W_wait | W_sleep | W_relock | W_store => true | _ => false end.

(** An [invoke] that has set the status or notified. *)
Definition fired (p : pc) : bool := match p with I_unlock | I_return => true | _ => false end.

Definition begun (p : pc) : bool := match p with W_begin | I_begin => false | _ => true end.

Definition has_fired (s : awaiter) : Prop := exists i p, threads s !! i = Some p /\ fired p.

Record ainv (s : awaiter) : Prop := mk_ainv {
  inv_lock : forall i p, threads s !! i = Some p -> (holds p <-> cvLock s = Some i);
  inv_owner : forall i, cvLock s = Some i -> is_Some (threads s !! i);
  inv_idle : forall i p, status s = idle -> threads s !! i = Some p -> ~ begun p;
  inv_ready : forall i p, status s = ready -> threads s !! i = Some p ->
    ~ fired p /\ ~ in_wait p /\ p <> I_notify;
  inv_fired : forall i p, has_fired s -> threads s !! i = Some p -> p <> W_wait /\ p <> W_sleep
}.

Lemma init_ainv (ts : list pc) : Forall starts ts -> ainv (EventAwaiter ts).
Proof.
  intros H. rewrite Forall_lookup in H.
  split; cbn; intros; try done;
    try match goal with E : ts !! _ = Some _ |- _ => pose proof (H _ _ E) as [-> | ->] end;
    cbn; naive_solver.
Qed.

Definition lock_moves (s : awaiter) (i : nat) (p q : pc) (lk : option nat) : Prop :=
  (lk = cvLock s /\ holds q = holds p) \/
  (cvLock s = None /\ lk = Some i /\ holds q) \/
  (holds p /\ lk = None /\ ~ holds q).

(** One thread moves from [p] to [q]. *)
Lemma ainv_move (s : awaiter) (i : nat) (p q : pc) (st : AS) (lk : option nat) :
  ainv s -> threads s !! i = Some p -> lock_moves s i p q lk -> st <> idle ->
  (st = ready -> (status s = ready \/ status s = idle) /\ ~ fired q /\ ~ in_wait q /\ q <> I_notify) ->
  (q = W_wait \/ q = W_sleep -> ~ has_fired s) ->
  (fired p -> fired q) ->
  (fired q -> forall j p', threads s !! j = Some p' -> (p' = W_wait \/ p' = W_sleep) -> j = i \/ fired p) ->
  ainv (mk_awaiter st lk (<[i := q]> (threads s))).
Proof.
  intros [Hl Ho Hi Hr Hf] Hp Hlk Hst Hrd Hw Hpq Hq.
  assert (Hold : has_fired (mk_awaiter st lk (<[i := q]> (threads s))) -> fired q \/ has_fired s).
  { intros (j & p' & Hj & F); cbn in Hj. apply list_lookup_insert_Some in Hj as [(-> & -> & _)|[_ Hj]];
      [by left | right; by exists j, p']. }
  split; cbn.
  - intros j p' [(<- & <- & Hb)|[Hn Hj]]%list_lookup_insert_Some.
    + destruct Hlk as [(-> & E)|[(_ & -> & ?)|(_ & -> & ?)]]; [rewrite E; by apply Hl|naive_solver..].
    + rewrite (Hl j p' Hj). destruct Hlk as [(-> & _)|[(-> & -> & _)|(h & -> & _)]]; [done|naive_solver|].
      apply (Hl i p Hp) in h. rewrite h. naive_solver.
  - intros j E. destruct (decide (i = j)) as [<-|Hn].
    + rewrite list_lookup_insert_eq; [done | by eapply lookup_lt_Some].
    + rewrite list_lookup_insert_ne by done. apply Ho.
      destruct Hlk as [(-> & _)|[(_ & -> & _)|(_ & -> & _)]]; naive_solver.
  - naive_solver.
  - intros j p' -> [(<- & <- & Hb)|[Hn Hj]]%list_lookup_insert_Some; [naive_solver|].
    destruct (Hrd eq_refl) as [[E|E] _]; [by eapply Hr|].
    apply (Hi j p' E) in Hj. by destruct p'.
  - intros j p' F [(<- & <- & Hb)|[Hn Hj]]%list_lookup_insert_Some.
    + apply Hold in F as [F|F]; [by destruct q|]. naive_solver.
    + apply Hold in F as [F|F]; [|by eapply Hf].
      destruct (decide (p' = W_wait \/ p' = W_sleep)) as [D|D]; [|naive_solver].
      destruct (Hq F j p' Hj D) as [->|G]; [done|].
      by apply (Hf j p' (ex_intro _ i (ex_intro _ p (conj Hp G)))) in Hj.
Qed.

(** [notify_all], before the notifier moves on. *)
Lemma ainv_notify (s : awaiter) :
  ainv s -> ainv (mk_awaiter (status s) (cvLock s) (woken <$> threads s)).
Proof.
  intros [Hl Ho Hi Hr Hf].
  assert (Hw : forall j q, (woken <$> threads s) !! j = Some q ->
    exists p, threads s !! j = Some p /\ q = woken p)
    by (intros j q; rewrite list_lookup_fmap, fmap_Some; naive_solver).
  split; cbn.
  - intros j q (p & Hp & ->)%Hw. rewrite <-(Hl j p Hp). by destruct p.
  - intros j E. rewrite list_lookup_fmap. destruct (Ho j E) as [p ->]. by eexists.
  - intros j q E (p & Hp & ->)%Hw. specialize (Hi j p E Hp). by destruct p.
  - intros j q E (p & Hp & ->)%Hw. specialize (Hr j p E Hp). destruct p; naive_solver.
  - intros j q (k & q' & (p' & Hp' & ->)%Hw & F) (p & Hp & ->)%Hw.
    assert (has_fired s) as F' by (exists k, p'; by destruct p').
    specialize (Hf j p F' Hp). destruct p; naive_solver.
Qed.

(** The thread with the lock is the only one at a point that holds it. *)
Lemma holder_unique (s : awaiter) (i j : nat) (p q : pc) :
  ainv s -> threads s !! i = Some p -> threads s !! j = Some q -> holds p -> holds q -> i = j.
Proof. intros H Hi Hj hp hq. apply (inv_lock s H i p Hi) in hp. apply (inv_lock s H j q Hj) in hq. congruence. Qed.

Lemma begun_not_idle (s : awaiter) (i : nat) (p : pc) :
  ainv s -> threads s !! i = Some p -> begun p -> status s <> idle.
Proof. intros H Hp B E. by apply (inv_idle s H i p E Hp). Qed.

Lemma ainv_cas (s : awaiter) (i : nat) (p yes no : pc) (e d : AS) :
  ainv s -> threads s !! i = Some p ->
  lock_moves s i p yes (cvLock s) -> lock_moves s i p no (cvLock s) ->
  (begun p \/ e = idle) -> d <> idle -> (d = ready -> e = idle /\ yes = W_lock) ->
  ~ fired p -> ~ fired no -> ~ in_wait no -> (no = I_notify -> e = ready) ->
  (e = idle \/ e = ready) -> yes <> W_sleep ->
  ainv (cas i e d yes no s).
Proof.
  intros H Hp L1 L2 Hb Hd Hrd Fp Fn Wn En He Hy. unfold cas.
  pose proof (begun_not_idle s i p H Hp) as Hnb.
  assert (Hno : e = status s -> forall j q, threads s !! j = Some q -> ~ fired q /\ q <> W_wait /\ q <> W_sleep).
  { intros E j q Hj. destruct He as [-> | ->].
    - pose proof (inv_idle s H j q (eq_sym E) Hj). by destruct q.
    - pose proof (inv_ready s H j q (eq_sym E) Hj). destruct q; naive_solver. }
  case_decide as E.
  - apply (ainv_move s i p yes d (cvLock s)); try done.
    + naive_solver.
    + intros _ (k & q & Hk & F). naive_solver.
    + intros F j q Hj Hq. naive_solver.
  - apply (ainv_move s i p no (status s) (cvLock s)); try done.
    + destruct Hb as [Hb| ->]; [by apply Hnb|done].
    + intros Er. split_and!; naive_solver.
    + intros [-> | ->]; by destruct Wn.
Qed.

Lemma thread_step_ainv (i : nat) (s s' : awaiter) : ainv s -> thread_step i s = Some s' -> ainv s'.
Proof.
  intros H. unfold thread_step. destruct (threads s !! i) as [p|] eqn:Hp; [cbn|done].
  pose proof (begun_not_idle s i p H Hp) as Hb.
  assert (Hr : status s = ready -> _) by (intros E; exact (inv_ready s H i p E Hp)).
  assert (Hh : holds p -> forall j q, threads s !! j = Some q -> q = W_wait \/ q = W_sleep ->
    q = W_sleep \/ j = i).
  { intros hp j q Hj [-> | ->]; [right|by left]. by eapply (holder_unique s j i). }
  destruct p; cbn; unfold acquire; intros E; try (destruct (cvLock s) eqn:Hk in E; [done|]); simplify_eq;
    try (apply (ainv_cas s i _ _ _ _ _ H Hp); (by left) || naive_solver);
    try (eapply ainv_move; [done | done | unfold lock_moves; rewrite ?Hk; cbn; naive_solver
      | done || by apply Hb | cbn; naive_solver | naive_solver | done | cbn; naive_solver]).
  - apply (ainv_move s i W_wait W_sleep (status s) None); try done.
    + right; right. split; [done|split; [done|intros []]].
    + by apply Hb.
    + naive_solver.
    + intros _ F. by destruct (inv_fired s H i W_wait F Hp).
  - set (s1 := mk_awaiter (status s) (cvLock s) (woken <$> threads s)).
    change (ainv (mk_awaiter (status s) (cvLock s) (<[i := I_unlock]> (threads s1)))).
    apply (ainv_move s1 i I_notify); cbn.
    + by apply ainv_notify.
    + by rewrite list_lookup_fmap, Hp.
    + left. done.
    + by apply Hb.
    + naive_solver.
    + naive_solver.
    + done.
    + intros _ j q. rewrite list_lookup_fmap, fmap_Some. intros (p & Hj & ->) D.
      left. destruct p; naive_solver.
Qed.

Lemma wake_up_ainv (i : nat) (s s' : awaiter) : ainv s -> wake_up i s = Some s' -> ainv s'.
Proof.
  intros H. unfold wake_up. destruct (threads s !! i) as [p|] eqn:Hp; [cbn|done].
  case_decide as E; [subst p|done]. intros [= <-].
  eapply ainv_move; [done | done | by left | by apply (begun_not_idle s i W_sleep) | | naive_solver | done..].
  intros E. pose proof (inv_ready s H i _ E Hp). naive_solver.
Qed.

Lemma reachable_ainv (ts : list pc) (s : awaiter) :
  Forall starts ts -> rtc astep (EventAwaiter ts) s -> ainv s.
Proof.
  intros H. apply (rtc_ind_r (fun s => ainv s)); [by apply init_ainv|].
  intros x y _ [i a b E|i a b E] IH; [by eapply thread_step_ainv | by eapply wake_up_ainv].
Qed.

(** ** Progress *)

(** The steps a thread has left: at most. *)
Definition left_ (p : pc) : nat :=
  match p with
  | W_begin => 8 | W_lock => 7 | W_check => 6 | W_wait => 5 | W_sleep => 4 | W_relock => 3
  | W_store => 2 | W_unlock => 1 | W_return => 0
  | I_begin => 5 | I_lock => 4 | I_check => 3 | I_notify => 2 | I_unlock => 1 | I_return => 0
  end.

Definition steps_left (s : awaiter) : nat := sum_list_with left_ (threads s).

Lemma sum_insert (l : list pc) (i : nat) (p q : pc) :
  l !! i = Some p -> (left_ q < left_ p)%nat -> (sum_list_with left_ (<[i := q]> l) < sum_list_with left_ l)%nat.
Proof.
  revert i; induction l as [|x l IH]; intros [|i] E L; cbn in *; simplify_eq; [lia|].
  apply Nat.add_lt_mono_l. exact (IH i E L).
Qed.

Lemma sum_woken (l : list pc) : (sum_list_with left_ (woken <$> l) <= sum_list_with left_ l)%nat.
Proof. induction l as [|[] l IH]; cbn in *; lia. Qed.

Lemma astep_decreases (s s' : awaiter) : astep s s' -> (steps_left s' < steps_left s)%nat.
Proof.
  unfold steps_left. intros [i a b E|i a b E].
  - unfold thread_step in E. destruct (threads a !! i) as [p|] eqn:Hp; [cbn in E|done].
    destruct p; cbn in E; unfold cas, acquire, release in E; repeat case_match; simplify_eq; cbn;
      try (eapply sum_insert; [done | cbn; lia]).
    eapply Nat.lt_le_trans; [|apply sum_woken].
    eapply sum_insert; [by rewrite list_lookup_fmap, Hp | cbn; lia].
  - unfold wake_up in E. destruct (threads a !! i) as [p|] eqn:Hp; [cbn in E|done].
    case_decide; simplify_eq; cbn. eapply sum_insert; [done | cbn; lia].
Qed.

(** A thread that waits for nothing can go on. *)
Lemma enabled (s : awaiter) (i : nat) (p : pc) :
  ainv s -> threads s !! i = Some p -> ~ returned p -> p <> W_sleep ->
  exists k s', thread_step k s = Some s'.
Proof.
  intros H Hp Hr Hs. destruct (cvLock s) as [k|] eqn:Hk.
  - destruct (inv_owner s H k Hk) as [q Hq]. pose proof (proj2 (inv_lock s H k q Hq) Hk) as Hh.
    exists k. unfold thread_step. rewrite Hq. cbn. destruct q; try done; cbn; eexists; reflexivity.
  - exists i. unfold thread_step. rewrite Hp. unfold returned in Hr.
    destruct p; cbn; unfold acquire; rewrite ?Hk; try (eexists; reflexivity); exfalso; naive_solver.
Qed.

Definition invoker (p : pc) : bool := negb (is_waiter p).

(** A thread keeps its function, and an [invoke] what it has done. *)
Lemma astep_keeps (f : pc -> bool) (s s' : awaiter) (i : nat) :
  (f = invoker \/ f = fired) ->
  astep s s' -> (exists p, threads s !! i = Some p /\ f p) -> exists p, threads s' !! i = Some p /\ f p.
Proof.
  intros Hf [k a b E|k a b E] (p & Hi & Hv).
  - unfold thread_step in E. destruct (threads a !! k) as [q|] eqn:Hq; [cbn in E|done].
    pose proof (lookup_lt_Some _ _ _ Hq) as Hlt.
    destruct q; cbn in E; unfold cas, acquire, release in E; repeat case_match; simplify_eq; cbn;
      (destruct (decide (k = i)) as [->|Hn];
       [rewrite list_lookup_insert_eq by (by rewrite ?length_fmap); eexists; split; [done|]; simplify_eq;
        by destruct Hf as [-> | ->]
       |rewrite list_lookup_insert_ne by done]); try (by eexists).
    rewrite list_lookup_fmap, Hi. eexists; split; [done|]. by destruct Hf as [-> | ->]; destruct p.
  - unfold wake_up in E. destruct (threads a !! k) as [q|] eqn:Hq; [cbn in E|done].
    case_decide; simplify_eq; cbn. destruct (decide (k = i)) as [->|Hn].
    { simplify_eq. by destruct Hf as [-> | ->]. }
    rewrite list_lookup_insert_ne by done. by eexists.
Qed.

Lemma rtc_keeps (f : pc -> bool) (s s' : awaiter) (i : nat) :
  (f = invoker \/ f = fired) -> rtc astep s s' -> (exists p, threads s !! i = Some p /\ f p) ->
  exists p, threads s' !! i = Some p /\ f p.
Proof. induction 2; [done|]. eauto using astep_keeps. Qed.

Lemma nsteps_bound (n : nat) (s s' : awaiter) :
  nsteps astep n s s' -> (n + steps_left s' <= steps_left s)%nat.
Proof. induction 1 as [|n x y z H _ IH]; [lia|]. apply astep_decreases in H. lia. Qed.

Lemma steps_left_start (ts : list pc) : (steps_left (EventAwaiter ts) <= 8 * length ts)%nat.
Proof. unfold steps_left. cbn. induction ts as [|[] ts IH]; cbn in *; lia. Qed.

(** C20: no wake-up is lost: whatever threads run [wait] and [invoke] on an
    awaiter and however they interleave, once an [invoke] has set the status or
    notified, no thread is asleep or will fall asleep in [cv.wait]; and [cvLock]
    has one owner at a time. *)
Theorem no_lost_wake_up (ts : list pc) (s : awaiter) :
  Forall starts ts -> rtc astep (EventAwaiter ts) s ->
  (has_fired s -> forall s' i, rtc astep s s' -> threads s' !! i <> Some W_sleep) /\
  (forall i j p q, threads s !! i = Some p -> threads s !! j = Some q -> holds p -> holds q -> i = j).
Proof.
  intros Hts Hr. split; [|intros i j p q; apply holder_unique; by eapply reachable_ainv].
  intros (k & p & Hk & F) s' i Hr' Hs.
  destruct (rtc_keeps fired s s' k (or_intror eq_refl) Hr') as (p' & Hp' & F'); [by eexists|].
  assert (H : ainv s') by (eapply reachable_ainv; [done|by etrans]).
  by destruct (inv_fired s' H i W_sleep (ex_intro _ k (ex_intro _ p' (conj Hp' F'))) Hs).
Qed.

(** C19: every wait ends: when one of the threads runs [invoke], every run of the
    threads has at most eight steps for each of them, and where none of them can
    move every thread has returned, without a wake-up that nobody sent. *)
Theorem waits_end (ts : list pc) (n : nat) (s : awaiter) :
  Forall starts ts -> I_begin ∈ ts -> nsteps astep n (EventAwaiter ts) s ->
  (n <= 8 * length ts)%nat /\
  ((forall k, thread_step k s = None) -> Forall returned (threads s)).
Proof.
  intros Hts Hi Hn. split.
  { pose proof (nsteps_bound _ _ _ Hn). pose proof (steps_left_start ts). lia. }
  apply list_elem_of_lookup in Hi as [k Hk].
  assert (Hr : rtc astep (EventAwaiter ts) s) by (by eapply rtc_nsteps_2).
  assert (H : ainv s) by (by eapply reachable_ainv).
  destruct (rtc_keeps invoker _ s k (or_introl eq_refl) Hr) as (q & Hq & Hv); [by exists I_begin|].
  intros Hstuck.
  assert (Hall : forall i p, threads s !! i = Some p -> returned p \/ p = W_sleep).
  { intros i p Hp. destruct (decide (p = W_sleep)); [by right|].
    destruct (decide (p = W_return \/ p = I_return)) as [?|D]; [by left|].
    destruct (enabled s i p H Hp D) as (j & s' & E); [done|]. by rewrite Hstuck in E. }
  apply Forall_lookup. intros i p Hp. destruct (Hall i p Hp) as [?| ->]; [done|].
  assert (F : has_fired s) by (exists k, q; split; [done|]; destruct (Hall k q Hq) as [[-> | ->]| ->]; done).
  by destruct (inv_fired s H i W_sleep F Hp).
Qed.

(** ** One waiter, and no wake-up that nobody sent *)

Definition tstep (s s' : awaiter) : Prop := exists i, thread_step i s = Some s'.

Lemma tstep_astep (s s' : awaiter) : tstep s s' -> astep s s'.
Proof. intros [i H]. by eapply astep_thread. Qed.

Definition woke (p : pc) : bool :=
  match p with W_relock | W_store | W_unlock | W_return => true | _ => false end.

(** Thread [w] is the only one that waits; where it is at and what the status says. *)
Record binv (w : nat) (s : awaiter) : Prop := mk_binv {
  binv_self : forall p, threads s !! w = Some p -> is_waiter p;
  binv_others : forall i p, i <> w -> threads s !! i = Some p -> invoker p;
  binv_done : status s = done_ -> has_fired s;
  binv_woke : forall p, threads s !! w = Some p -> woke p -> has_fired s;
  binv_begin : threads s !! w = Some W_begin -> status s <> ready /\ status s <> waiting;
  binv_arrives : forall p, threads s !! w = Some p -> p = W_lock \/ p = W_check -> status s <> waiting
}.

Lemma has_fired_astep (s s' : awaiter) : astep s s' -> has_fired s -> has_fired s'.
Proof.
  intros H (i & p & Hi & F). destruct (astep_keeps fired s s' i) as (q & ? & ?);
    [by right | done | by eexists | by exists i, q].
Qed.

(** A move that leaves what the invariant speaks of. *)
Lemma fired_here (i : nat) (p q : pc) (st : AS) (lk : option nat) (ts : list pc) :
  ts !! i = Some p -> fired q -> has_fired (mk_awaiter st lk (<[i := q]> ts)).
Proof.
  intros Hp F. exists i, q. split; [|done]. cbn. apply list_lookup_insert_eq. by eapply lookup_lt_Some.
Qed.

Lemma has_fired_move (s : awaiter) (i : nat) (p q : pc) (st : AS) (lk : option nat) :
  threads s !! i = Some p -> (fired p -> fired q) -> has_fired s ->
  has_fired (mk_awaiter st lk (<[i := q]> (threads s))).
Proof.
  intros Hp Hpq (j & r & Hj & F). destruct (decide (i = j)) as [->|Hn].
  - simplify_eq. eapply fired_here; [done|]. by apply Hpq.
  - exists j, r. cbn. by rewrite list_lookup_insert_ne.
Qed.

Lemma binv_invoker_move (w i : nat) (p q : pc) (s : awaiter) (st : AS) (lk : option nat) :
  binv w s -> i <> w -> threads s !! i = Some p -> invoker q -> (fired p -> fired q) ->
  st = status s \/ (st = done_ /\ fired q) ->
  binv w (mk_awaiter st lk (<[i := q]> (threads s))).
Proof.
  intros [Hs Ho Hd Hw Hb Ha] Hn Hp Hq Hpq Hst.
  pose proof (has_fired_move s i p q st lk Hp Hpq) as Hm.
  split; cbn.
  - rewrite list_lookup_insert_ne by done. exact Hs.
  - intros j r Hj [(<- & <- & _)|[_ Hr]]%list_lookup_insert_Some; [done | by eapply Ho].
  - intros ->. destruct Hst as [E|[_ F]]; [by apply Hm, Hd|]. by eapply fired_here.
  - intros r. rewrite list_lookup_insert_ne by done. intros Hr W. by eapply Hm, Hw.
  - rewrite list_lookup_insert_ne by done. intros Hr. destruct Hst as [->|[-> _]]; [by apply Hb | done].
  - intros r. rewrite list_lookup_insert_ne by done. intros Hr D.
    destruct Hst as [->|[-> _]]; [by eapply Ha | done].
Qed.

Lemma binv_notify (w i : nat) (s : awaiter) :
  binv w s -> i <> w -> threads s !! i = Some I_notify ->
  binv w (mk_awaiter (status s) (cvLock s) (<[i := I_unlock]> (woken <$> threads s))).
Proof.
  intros [Hs Ho Hd Hw Hb Ha] Hn Hp.
  assert (F : has_fired (mk_awaiter (status s) (cvLock s) (<[i := I_unlock]> (woken <$> threads s))))
    by (eapply fired_here; [by rewrite list_lookup_fmap, Hp | done]).
  assert (Hl : forall r, (<[i := I_unlock]> (woken <$> threads s)) !! w = Some r ->
    exists p, threads s !! w = Some p /\ r = woken p).
  { intros r. rewrite list_lookup_insert_ne, list_lookup_fmap, fmap_Some by done. naive_solver. }
  split; cbn; try done.
  - intros r (p & Hr & ->)%Hl. pose proof (Hs p Hr). by destruct p.
  - intros j r Hj [(<- & <- & _)|[_ Hr]]%list_lookup_insert_Some; [done|].
    rewrite list_lookup_fmap, fmap_Some in Hr. destruct Hr as (p & Hr & ->).
    pose proof (Ho j p Hj Hr). by destruct p.
  - intros (p & Hr & E)%Hl. destruct p; try done. by apply Hb.
  - intros r (p & Hr & ->)%Hl D. apply (Ha p Hr). destruct p; naive_solver.
Qed.

Lemma binv_waiter_move (w : nat) (p q : pc) (s : awaiter) (st : AS) (lk : option nat) :
  binv w s -> threads s !! w = Some p -> ~ fired p -> is_waiter q -> q <> W_begin ->
  (st = done_ -> has_fired s) -> (woke q -> has_fired s) ->
  (q = W_lock \/ q = W_check -> st <> waiting) ->
  binv w (mk_awaiter st lk (<[w := q]> (threads s))).
Proof.
  intros [Hs Ho Hd Hw Hb Ha] Hp Fp Hwq Hq Hst Hwk Har.
  pose proof (has_fired_move s w p q st lk Hp (fun F => False_ind _ (Fp F))) as Hm.
  assert (Hl : (w < length (threads s))%nat) by (by eapply lookup_lt_Some).
  split; cbn.
  - intros r. rewrite list_lookup_insert_eq by done. by intros [= <-].
  - intros j r Hj. rewrite list_lookup_insert_ne by done. by apply Ho.
  - intros E. by apply Hm, Hst.
  - intros r. rewrite list_lookup_insert_eq by done. intros [= <-] W. by apply Hm, Hwk.
  - rewrite list_lookup_insert_eq by done. naive_solver.
  - intros r. rewrite list_lookup_insert_eq by done. naive_solver.
Qed.

Lemma tstep_binv (w : nat) (s s' : awaiter) : ainv s -> binv w s -> tstep s s' -> binv w s'.
Proof.
  intros HA H [i E]. unfold thread_step in E. destruct (threads s !! i) as [p|] eqn:Hp; [cbn in E|done].
  pose proof (begun_not_idle s i p HA Hp) as Hid.
  destruct (decide (i = w)) as [->|Hn].
  - pose proof (binv_woke w s H p Hp) as Hw. pose proof (binv_done w s H) as Hd.
    destruct p; try (by destruct (binv_self w s H _ Hp)); cbn in E; unfold cas, acquire, release in E;
      repeat case_match; simplify_eq; (eapply binv_waiter_move; [done|done|by intros []|done|done| | |]); cbn; try done; try naive_solver.
    + intros _. apply Hd. pose proof (binv_begin w s H Hp). destruct (status s); naive_solver.
    + intros _. by eapply binv_arrives; [|done|left].
    + intros _. apply Hd. pose proof (binv_arrives w s H _ Hp). destruct (status s); naive_solver.
  - pose proof (binv_others w s H i p Hn Hp) as Hv.
    destruct p; try done; cbn in E; unfold cas, acquire, release in E; repeat case_match; simplify_eq;
      try (eapply binv_invoker_move; [done|done|done|done|done|naive_solver]).
    by apply binv_notify.
Qed.

Lemma init_binv (ts : list pc) (w : nat) :
  ts !! w = Some W_begin -> (forall i p, i <> w -> ts !! i = Some p -> p = I_begin) ->
  binv w (EventAwaiter ts) /\ Forall starts ts.
Proof.
  intros Hw Ho. split.
  - split; cbn; try done; [naive_solver|intros i p Hn Hp; by rewrite (Ho i p Hn Hp)|naive_solver].
  - apply Forall_lookup. intros i p Hp. destruct (decide (i = w)) as [->|Hn]; [left; congruence|right; eauto].
Qed.

(** A wait returns only after the event: with one thread that waits, any
    number that invoke and no wake-up that nobody sent, [wait] has returned only
    when some [invoke] has set the status or notified. *)
Theorem wait_returns_after_invoke (ts : list pc) (w : nat) (s : awaiter) :
  ts !! w = Some W_begin -> (forall i p, i <> w -> ts !! i = Some p -> p = I_begin) ->
  rtc tstep (EventAwaiter ts) s -> threads s !! w = Some W_return -> has_fired s.
Proof.
  intros Hw Ho Hr Hret. destruct (init_binv ts w Hw Ho) as [HB Hts].
  assert (H : ainv s /\ binv w s).
  { revert Hr. apply (rtc_ind_r (fun s => ainv s /\ binv w s)); [by split; [apply init_ainv|]|].
    intros x y _ Hs [HA HB']. split; [|by eapply tstep_binv].
    destruct Hs as [i E]. by eapply thread_step_ainv. }
  by eapply (binv_woke w s (proj2 H)).
Qed.

(** [wait] does not wait again when [cv.wait] returns by itself: alone, without
    any [invoke], it can return. *)
Lemma spurious_wake_up_returns :
  exists s, rtc astep (EventAwaiter [W_begin]) s /\ threads s = [W_return].
Proof.
  eexists. split.
  - do 4 (eapply rtc_l; [by apply (astep_thread 0)|]).
    eapply rtc_l; [by apply (astep_wake_up 0)|].
    do 3 (eapply rtc_l; [by apply (astep_thread 0)|]). apply rtc_refl.
  - reflexivity.
Qed.

(** One thread waits; another one invokes before it is asleep. *)
Definition sample_run (l : list nat) (s : awaiter) : option awaiter :=
  foldl (fun o i => s ← o; thread_step i s) (Some s) l.

Lemma sample_run_rtc (l : list nat) (s s' : awaiter) :
  sample_run l s = Some s' -> rtc tstep s s' /\ nsteps astep (length l) s s'.
Proof.
  revert s. induction l as [|i l IH]; intros s; [intros [= ->]; split; constructor|].
  cbn [sample_run foldl length]. destruct (thread_step i s) as [s1|] eqn:E.
  - cbn [mbind option_bind]. rewrite E. intros [H1 H2]%IH.
    split; [eapply rtc_l; [by exists i|done]|]. eapply nsteps_l; [by apply (astep_thread i)|done].
  - cbn [mbind option_bind]. rewrite E. intros H. exfalso. revert H. clear. induction l; cbn; naive_solver.
Qed.

Lemma sample_starts : Forall starts [W_begin; I_begin].
Proof. constructor; [by left|constructor; [by right|constructor]]. Qed.

Lemma no_lost_wake_up_witness :
  exists s, has_fired s /\ (forall s' i, rtc astep s s' -> threads s' !! i <> Some W_sleep).
Proof.
  destruct (sample_run [0; 0; 0; 0; 1; 1; 1; 1]%nat (EventAwaiter [W_begin; I_begin])) as [s|] eqn:E; [|done].
  exists s. assert (F : has_fired s) by (exists 1%nat, I_unlock; by injection E as <-).
  split; [exact F|].
  refine (proj1 (no_lost_wake_up [W_begin; I_begin] s _ _) F).
  - exact sample_starts.
  - eapply rtc_nsteps_2, sample_run_rtc, E.
Defined.

Lemma waits_end_witness :
  (8 <= 8 * 2)%nat /\
  exists s, sample_run [0; 0; 0; 0; 1; 1; 1; 1]%nat (EventAwaiter [W_begin; I_begin]) = Some s.
Proof.
  destruct (sample_run [0; 0; 0; 0; 1; 1; 1; 1]%nat (EventAwaiter [W_begin; I_begin])) as [s|] eqn:E; [|done].
  split; [|by exists s].
  refine (proj1 (waits_end [W_begin; I_begin] 8 s _ _ _)).
  - exact sample_starts.
  - right. left.
  - apply (sample_run_rtc _ _ _ E).
Defined.

Lemma wait_returns_after_invoke_witness :
  exists s, threads s = [W_return; I_return] /\ has_fired s.
Proof.
  destruct (sample_run [0; 0; 0; 0; 1; 1; 1; 1; 1; 0; 0; 0]%nat (EventAwaiter [W_begin; I_begin]))
    as [s|] eqn:E; [|done].
  assert (T : threads s = [W_return; I_return]) by (by injection E as <-).
  exists s. split; [exact T|].
  apply (wait_returns_after_invoke [W_begin; I_begin] 0 s).
  - reflexivity.
  - intros [|[|i]] p Hn Hp; cbn in Hp; naive_solver.
  - apply (sample_run_rtc _ _ _ E).
  - by rewrite T.
Defined.
