(* ===== verification/OpQueue.v ===== *)
(** detail/op_queue.h: the intrusive queues of operations.

    An operation is named by its address; [next_], a member of each operation,
    is the map [links] from operations to the next one, [None] for the null
    pointer.  A queue is its two pointers.  The queues share the operations. *)
From S2P Require Import Prelude.

Abbreviation links := (gmap nat (option nat)).

Record op_queue := mk_op_queue { front_ : option nat; back_ : option nat }.

Definition op_queue_new : op_queue := mk_op_queue None None.

(** [op_queue_access::next], both. *)
Definition next (o : nat) (nx : links) : option nat := default None (nx !! o).

Definition set_next (o : nat) (v : option nat) (nx : links) : links := <[o := v]> nx.

Definition front (q : op_queue) : option nat := front_ q.

Definition pop (nx : links) (q : op_queue) : links * op_queue :=
  match front_ q with
  | None => (nx, q)
  | Some tmp =>
    let f := next tmp nx in
    (set_next tmp None nx, mk_op_queue f (if f is None then None else back_ q))
  end.

Definition push (h : nat) (nx : links) (q : op_queue) : links * op_queue :=
  let nx := set_next h None nx in
  match back_ q with
  | Some b => (set_next b (Some h) nx, mk_op_queue (front_ q) (Some h))
  | None => (nx, mk_op_queue (Some h) (Some h))
  end.

(** [push] of a queue: what the two queues become. *)
Definition push_all (other : op_queue) (nx : links) (q : op_queue) : links * op_queue * op_queue :=
  match front_ other with
  | None => (nx, q, other)
  | Some other_front =>
    match back_ q with
    | Some b => (set_next b (Some other_front) nx, mk_op_queue (front_ q) (back_ other), op_queue_new)
    | None => (nx, mk_op_queue (Some other_front) (back_ other), op_queue_new)
    end
  end.

Definition empty_queue (q : op_queue) : bool := is_none (front_ q).

Definition is_enqueued (o : nat) (nx : links) (q : op_queue) : bool :=
  is_some (next o nx) || bool_decide (back_ q = Some o).

(** The destructor: the operations it destroys, in order.  [fuel] bounds the
    loop. *)
Fixpoint destroy_all (fuel : nat) (nx : links) (q : op_queue) : option (links * list nat) :=
  match front_ q with
  | None => Some (nx, [])
  | Some op =>
    match fuel with
    | O => None
    | S fuel =>
      let '(nx, q) := pop nx q in
      '(nx, l) ← destroy_all fuel (base.delete op nx) q;
      Some (nx, op :: l)
    end
  end.

(** ** A queue as the list of its operations *)

Record is_queue (nx : links) (q : op_queue) (l : list nat) : Prop := mk_is_queue {
  iq_nodup : NoDup l;
  iq_front : front_ q = head l;
  iq_back : back_ q = last l;
  iq_next : forall i o, l !! i = Some o -> nx !! o = Some (l !! S i)
}.

Lemma is_queue_empty (nx : links) : is_queue nx op_queue_new [].
Proof. split; [constructor | done..]. Qed.

Lemma is_queue_frame (nx nx' : links) (q : op_queue) (l : list nat) :
  is_queue nx q l -> (forall o, o ∈ l -> nx' !! o = nx !! o) -> is_queue nx' q l.
Proof.
  intros [Hd Hf Hb Hn] He. split; try done. intros i o H.
  rewrite He; [by apply Hn | by eapply list_elem_of_lookup_2].
Qed.

Lemma last_lookup_pred (l : list nat) (b : nat) :
  last l = Some b -> l !! pred (length l) = Some b.
Proof. by rewrite last_lookup. Qed.

Lemma push_queue_of (nx : links) (q : op_queue) (l : list nat) (o : nat) :
  is_queue nx q l -> o ∉ l ->
  is_queue (fst (push o nx q)) (snd (push o nx q)) (l ++ [o]) /\
  (forall x, x ∉ l -> x <> o -> fst (push o nx q) !! x = nx !! x).
Proof.
  intros [Hd Hf Hb Hn] Ho. unfold push, set_next.
  assert (Hnd : NoDup (l ++ [o])).
  { apply NoDup_app. split_and!; [done | set_solver | apply NoDup_singleton]. }
  destruct (back_ q) as [b|] eqn:Eb; cbn.
  - symmetry in Hb. pose proof (last_lookup_pred l b Hb) as Hl.
    assert (b ∈ l) by (by eapply list_elem_of_lookup_2).
    split; [|intros x Hx Hxo; rewrite !lookup_insert_ne; set_solver].
    split; cbn; try done.
    + destruct l; [done|]. by rewrite Hf.
    + by rewrite last_snoc.
    + intros i x Hi. apply lookup_app_Some in Hi as [Hi|[Hi Hx]].
      * assert (x <> o) by (intros ->; by apply Ho, (list_elem_of_lookup_2 l i)).
        destruct (decide (x = b)) as [->|Hxb].
        -- pose proof (NoDup_lookup l _ _ b Hd Hi Hl) as ->.
           rewrite lookup_insert_eq, lookup_app_r by (destruct l; cbn in *; [done|lia]).
           by replace (S (pred (length l)) - length l)%nat with 0%nat by (destruct l; cbn in *; [done|lia]).
        -- rewrite !lookup_insert_ne by done. rewrite (Hn i x Hi). f_equal.
           pose proof (lookup_lt_Some _ _ _ Hi).
           destruct (decide (S i = length l)) as [E|E].
           { exfalso. apply Hxb. replace (pred (length l)) with i in Hl by lia. congruence. }
           by rewrite lookup_app_l by lia.
      * destruct (i - length l)%nat as [|k] eqn:Ei; [|by destruct k]. cbn in Hx. injection Hx as <-.
        rewrite lookup_insert_ne, lookup_insert_eq by set_solver. f_equal. symmetry.
        apply lookup_ge_None. rewrite length_app. cbn. lia.
  - destruct l as [|a l]; [|symmetry in Hb; apply last_None in Hb; done].
    split; [|intros x _ Hx; by rewrite lookup_insert_ne].
    split; try done. intros [|i] x Hi; cbn in Hi; [|done]. injection Hi as <-. by rewrite lookup_insert_eq.
Qed.

Lemma pop_queue_of (nx : links) (q : op_queue) (l : list nat) :
  is_queue nx q l ->
  is_queue (fst (pop nx q)) (snd (pop nx q)) (tail l) /\
  (forall x, head l <> Some x -> fst (pop nx q) !! x = nx !! x).
Proof.
  intros [Hd Hf Hb Hn]. unfold pop, set_next. rewrite Hf. destruct l as [|a l]; cbn; [done|].
  apply NoDup_cons in Hd as [Ha Hd].
  assert (Hx : next a nx = head l) by (unfold next; rewrite (Hn 0%nat a eq_refl); by destruct l).
  split; [|intros x Hx'; rewrite lookup_insert_ne; congruence].
  rewrite Hx. split; cbn; try done.
  - rewrite Hb. by destruct l.
  - intros i o Hi. rewrite lookup_insert_ne by (intros ->; by apply Ha, (list_elem_of_lookup_2 l i)).
    by rewrite (Hn (S i) o Hi).
Qed.

Lemma push_all_queue_of (nx : links) (q other : op_queue) (l l' : list nat) :
  is_queue nx q l -> is_queue nx other l' -> l ## l' ->
  is_queue (fst (fst (push_all other nx q))) (snd (fst (push_all other nx q))) (l ++ l') /\
  is_queue (fst (fst (push_all other nx q))) (snd (push_all other nx q)) [] /\
  (forall x, x ∉ l -> fst (fst (push_all other nx q)) !! x = nx !! x).
Proof.
  intros [Hd Hf Hb Hn] [Hd' Hf' Hb' Hn'] Hdis. unfold push_all, set_next. rewrite Hf'.
  destruct l' as [|a l']; cbn [head].
  { rewrite app_nil_r. by split_and!. }
  assert (Hnd : NoDup (l ++ a :: l')) by (apply NoDup_app; set_solver).
  destruct (back_ q) as [b|] eqn:Eb; cbn [fst snd].
  - symmetry in Hb. pose proof (last_lookup_pred l b Hb) as Hl.
    assert (b ∈ l) by (by eapply list_elem_of_lookup_2).
    split_and!; [|apply is_queue_empty|intros x Hx; rewrite lookup_insert_ne; set_solver].
    split; cbn [front_ back_]; try done.
    + destruct l; [done|]. by rewrite Hf.
    + rewrite Hb', last_app. by destruct (last (a :: l')) eqn:E; [|apply last_None in E].
    + intros i x Hi. apply lookup_app_Some in Hi as [Hi|[Hi Hx]].
      * destruct (decide (x = b)) as [->|Hxb].
        -- pose proof (NoDup_lookup l _ _ b Hd Hi Hl) as ->.
           rewrite lookup_insert_eq, lookup_app_r by (destruct l; cbn in *; [done|lia]).
           by replace (S (pred (length l)) - length l)%nat with 0%nat by (destruct l; cbn in *; [done|lia]).
        -- rewrite lookup_insert_ne by done. rewrite (Hn i x Hi). f_equal.
           pose proof (lookup_lt_Some _ _ _ Hi).
           destruct (decide (S i = length l)) as [E|E].
           { exfalso. apply Hxb. replace (pred (length l)) with i in Hl by lia. congruence. }
           by rewrite lookup_app_l by lia.
      * assert (x ∈ a :: l') by (by eapply list_elem_of_lookup_2).
        rewrite lookup_insert_ne by set_solver. rewrite (Hn' _ x Hx). f_equal.
        rewrite lookup_app_r by lia. f_equal. lia.
  - destruct l as [|y l]; [|symmetry in Hb; apply last_None in Hb; done].
    split_and!; [|apply is_queue_empty|done]. by split.
Qed.

(** ** Several queues *)

Record queues := mk_queues { ops_links : links; qs : list op_queue }.

(** What a program does with its queues: [Append k j] is [push] of queue [j] on
    queue [k]. *)
Inductive queue_op := Push (k : nat) (o : nat) | Pop (k : nat) | Append (k j : nat).

Definition run_queue_op (a : queue_op) (s : queues) : option queues :=
  match a with
  | Push k o =>
    q ← qs s !! k;
    let '(nx, q) := push o (ops_links s) q in Some (mk_queues nx (<[k := q]> (qs s)))
  | Pop k =>
    q ← qs s !! k;
    let '(nx, q) := pop (ops_links s) q in Some (mk_queues nx (<[k := q]> (qs s)))
  | Append k j =>
    q ← qs s !! k; other ← qs s !! j;
    let '(nx, q, other) := push_all other (ops_links s) q in
    Some (mk_queues nx (<[j := other]> (<[k := q]> (qs s))))
  end.

(** The same on lists: an operation is in one queue at most, and a queue is not
    pushed on itself. *)
Definition list_op (a : queue_op) (ls : list (list nat)) : option (list (list nat)) :=
  match a with
  | Push k o =>
    l ← ls !! k; if decide (o ∈ mjoin ls) then None else Some (<[k := l ++ [o]]> ls)
  | Pop k => l ← ls !! k; Some (<[k := tail l]> ls)
  | Append k j =>
    l ← ls !! k; l' ← ls !! j;
    if decide (k = j) then None else Some (<[j := []]> (<[k := l ++ l']> ls))
  end.

Record queues_are (s : queues) (ls : list (list nat)) : Prop := mk_queues_are {
  qa_length : length (qs s) = length ls;
  qa_queue : forall k q l, qs s !! k = Some q -> ls !! k = Some l -> is_queue (ops_links s) q l;
  qa_apart : forall k j l l', k <> j -> ls !! k = Some l -> ls !! j = Some l' -> l ## l'
}.

(** The queues after one of them, whose list is [l] and becomes [l1], has changed. *)
Lemma queues_are_update (s : queues) (ls : list (list nat)) (k : nat) (nx : links) (q1 : op_queue) (l l1 : list nat) :
  queues_are s ls -> ls !! k = Some l -> is_queue nx q1 l1 ->
  (forall j l', j <> k -> ls !! j = Some l' -> l1 ## l') ->
  (forall x, x ∉ l -> x ∉ l1 -> nx !! x = ops_links s !! x) ->
  queues_are (mk_queues nx (<[k := q1]> (qs s))) (<[k := l1]> ls).
Proof.
  intros [HL HQ HA] Hk Hq Hd Hf. pose proof (lookup_lt_Some _ _ _ Hk) as Hlt.
  split; cbn.
  - by rewrite !length_insert.
  - intros j q l'. destruct (decide (k = j)) as [->|Hn].
    + rewrite !list_lookup_insert_eq by lia. by intros [= <-] [= <-].
    + rewrite !list_lookup_insert_ne by done. intros Hj Hl'.
      apply (is_queue_frame (ops_links s)); [by eapply HQ|].
      intros x Hx. pose proof (Hd j l' (not_eq_sym Hn) Hl'). pose proof (HA k j l l' Hn Hk Hl').
      apply Hf; set_solver.
  - intros i j a b Hn [(<- & <- & _)|[Hi Ha]]%list_lookup_insert_Some
      [(<- & <- & _)|[Hj Hb]]%list_lookup_insert_Some; try done.
    + by apply (Hd j).
    + pose proof (Hd i a (not_eq_sym Hi) Ha). set_solver.
    + by apply (HA i j).
Qed.

Lemma in_mjoin (ls : list (list nat)) (k : nat) (l : list nat) (o : nat) :
  ls !! k = Some l -> o ∈ l -> o ∈ mjoin ls.
Proof. intros Hk Ho. apply list_elem_of_join. exists l. split; [done | by eapply list_elem_of_lookup_2]. Qed.

Lemma queue_op_refines (a : queue_op) (s : queues) (ls ls' : list (list nat)) :
  queues_are s ls -> list_op a ls = Some ls' ->
  exists s', run_queue_op a s = Some s' /\ queues_are s' ls'.
Proof.
  intros H. pose proof H as [HL HQ HA].
  assert (Hq : forall k l, ls !! k = Some l -> exists q, qs s !! k = Some q /\ is_queue (ops_links s) q l).
  { intros k l Hk. destruct (lookup_lt_is_Some_2 (qs s) k) as [q Eq].
    - rewrite HL. by eapply lookup_lt_Some.
    - exists q. split; [done | by eapply HQ]. }
  destruct a as [k o|k|k j]; cbn; destruct (ls !! k) as [l|] eqn:Hk; cbn; try done;
    destruct (Hq k l Hk) as (q & -> & Q); cbn.
  - case_decide as Ho; [done|]. intros [= <-].
    destruct (push_queue_of _ _ _ o Q) as [P F]; [by intros ?; eapply Ho, in_mjoin|].
    destruct (push o _ _) as [nx q1]. eexists. split; [done|]. cbn in *.
    eapply queues_are_update; [done..| |].
    + intros i l' Hi Hl'. pose proof (HA k i l l' (not_eq_sym Hi) Hk Hl').
      assert (o ∉ l') by (intros ?; by eapply Ho, in_mjoin). set_solver.
    + intros x Hx Hx1. apply F; set_solver.
  - intros [= <-]. destruct (pop_queue_of _ _ _ Q) as [P F].
    destruct (pop _ _) as [nx q1]. eexists. split; [done|]. cbn in *.
    eapply queues_are_update; [done..| |].
    + intros i l' Hi Hl'. pose proof (HA k i l l' (not_eq_sym Hi) Hk Hl'). destruct l; set_solver.
    + intros x Hx Hx1. apply F. destruct l; set_solver.
  - destruct (ls !! j) as [l'|] eqn:Hj; cbn; [|done]. case_decide as Hn; [done|]. intros [= <-].
    destruct (Hq j l' Hj) as (other & -> & Q'). cbn.
    destruct (push_all_queue_of _ _ _ _ _ Q Q' (HA k j l l' Hn Hk Hj)) as (P & P' & F).
    destruct (push_all _ _ _) as [[nx q1] other1]. eexists. split; [done|]. cbn in *.
    rewrite (list_insert_insert_ne _ j k) by congruence.
    rewrite (list_insert_insert_ne ls j k) by congruence.
    assert (H1 : queues_are (mk_queues (ops_links s) (<[j := other1]> (qs s))) (<[j := []]> ls)).
    { eapply queues_are_update; [done|done| |set_solver|done]. eapply is_queue_frame; [done|set_solver]. }
    eapply (queues_are_update _ _ k nx q1 l _ H1); [by rewrite list_lookup_insert_ne|done| |].
    + intros i m Hi [(<- & <- & _)|[Hi' Hm]]%list_lookup_insert_Some; [set_solver|].
      pose proof (HA k i l m (not_eq_sym Hi) Hk Hm). pose proof (HA j i l' m Hi' Hj Hm). set_solver.
    + intros x Hx _. by apply F.
Qed.

(** C28: the operation queues are first-in first-out queues: whatever is pushed,
    popped and moved from one to another, each queue holds, linked from its
    front to its back, the operations of the list it stands for, and [front],
    [empty] and [is_enqueued] answer for that list. *)
Theorem op_queues_are_fifo (n : nat) (nx : links) (l : list queue_op) (ls : list (list nat)) :
  foldl (fun o a => ls ← o; list_op a ls) (Some (replicate n [])) l = Some ls ->
  exists s, foldl (fun o a => s ← o; run_queue_op a s) (Some (mk_queues nx (replicate n op_queue_new))) l = Some s /\
  queues_are s ls /\
  forall k q m, qs s !! k = Some q -> ls !! k = Some m ->
    front q = head m /\ empty_queue q = bool_decide (m = []) /\
    forall o, o ∈ m -> is_enqueued o (ops_links s) q.
Proof.
  assert (H : forall l s0 ls0, queues_are s0 ls0 ->
    foldl (fun o a => ls ← o; list_op a ls) (Some ls0) l = Some ls ->
    exists s, foldl (fun o a => s ← o; run_queue_op a s) (Some s0) l = Some s /\ queues_are s ls).
  { clear. intros l. induction l as [|a l IH]; intros s0 ls0 H0; cbn [foldl].
    - intros [= ->]. by exists s0.
    - cbn [mbind option_bind]. destruct (list_op a ls0) as [ls1|] eqn:E.
      + destruct (queue_op_refines a s0 ls0 ls1 H0 E) as (s1 & -> & H1). by apply IH.
      + intros F. exfalso. revert F. clear. induction l; cbn; naive_solver. }
  intros Hl. destruct (H l (mk_queues nx (replicate n op_queue_new)) (replicate n [])) as (s & E & Hs); [|done|].
  { split; cbn; [by rewrite !length_replicate| |].
    - intros k q m [-> _]%lookup_replicate [-> _]%lookup_replicate. apply is_queue_empty.
    - intros k j a b _ [-> _]%lookup_replicate _. set_solver. }
  exists s. split_and!; [done..|]. intros k q m Hk Hm.
  pose proof (qa_queue s ls Hs k q m Hk Hm) as [_ Hf Hb Hn]. split_and!; [done| |].
  - unfold empty_queue. rewrite Hf. by destruct m.
  - intros o [i Hi]%list_elem_of_lookup. unfold is_enqueued, next. rewrite (Hn i o Hi). cbn.
    destruct (m !! S i) eqn:Es; [done|]. cbn. apply bool_decide_pack. rewrite Hb, last_lookup.
    apply lookup_ge_None in Es. pose proof (lookup_lt_Some _ _ _ Hi).
    by replace (pred (length m)) with i by lia.
Qed.

(** Two queues: three operations, one of them run, the rest moved. *)
Lemma op_queues_are_fifo_witness :
  exists s, queues_are s [[]; [7; 5; 6]]%nat.
Proof.
  destruct (op_queues_are_fifo 2 ∅ [Push 0 4; Push 0 5; Push 1 7; Pop 0; Push 0 6; Append 1 0]%nat
              [[]; [7; 5; 6]]%nat) as (s & _ & H & _).
  - vm_compute. reflexivity.
  - exists s. exact H.
Defined.

(** The destructor destroys what is queued, once and in order. *)
Lemma destroy_all_queue (nx : links) (q : op_queue) (l : list nat) (fuel : nat) :
  is_queue nx q l -> (length l <= fuel)%nat -> exists nx', destroy_all fuel nx q = Some (nx', l).
Proof.
  revert nx q fuel. induction l as [|o l IH]; intros nx q fuel Q Hf.
  - destruct fuel; cbn; rewrite (iq_front _ _ _ Q); by eexists.
  - destruct fuel as [|fuel]; cbn in *; [lia|]. rewrite (iq_front _ _ _ Q). cbn [head].
    destruct (pop_queue_of _ _ _ Q) as [P _]. destruct (pop nx q) as [nx1 q1]. cbn in P.
    destruct (IH (base.delete o nx1) q1 fuel) as (nx' & E); [|lia|].
    + apply (is_queue_frame nx1); [done|]. intros x Hx. rewrite lookup_delete_ne; [done|].
      pose proof (iq_nodup _ _ _ Q) as [? _]%NoDup_cons. set_solver.
    + cbn in E |- *. rewrite E. by eexists.
Qed.
