(* ===== verification/GlobalMgr.v ===== *)
(** global_mgr.{h,cc}: the global thread pool, by which servers share the threads that
    run their commits and their replication.

    There are two pools of the same make: a queue of servers under a lock, with the set
    of the servers in it, and workers that sleep on an [EventAwaiter] each.  A state
    holds, for every worker and every thread that requests something, the point it has
    reached; a step is one operation of one thread, where a critical section is one
    operation.  Of an awaiter this model keeps whether it was invoked, which is what
    Awaiter.v shows of it; a wait may also end by its timeout. *)
From S2P Require Import Prelude.

Inductive pool_kind := Commit_pool | Append_pool.

Inductive worker_status := SLEEPING | WORKING.

#[global] Instance worker_status_eq_dec : EqDecision worker_status.
Proof. solve_decision. Defined.

(** Points of [commit_worker_loop] and [append_worker_loop]. *)
Inductive worker_pc :=
| K_top                  (* while (!stopping_), if (!skip_sleeping) status_ = SLEEPING *)
| K_wait                 (* ea_.wait_ms(1000) *)
| K_reset                (* ea_.reset() *)
| K_working              (* status_ = WORKING *)
| K_check                (* if (stopping_) break *)
| K_take                 (* the critical section: take the first server *)
| K_exec (target : Z)    (* scan_sm_commit_and_notify, commit_in_bg_exec; append_entries_in_bg_exec *)
| K_push (target : Z)    (* request_commit(target): the critical section *)
| K_scan (j : nat)       (* request_commit: look at worker j *)
| K_end.

#[global] Instance worker_pc_eq_dec : EqDecision worker_pc.
Proof. solve_decision. Defined.

Record worker_handle := mk_worker {
  w_pc : worker_pc;
  skip_sleeping : bool;
  status_ : worker_status;
  stopping_ : bool;
  ea_ : bool
}.

#[global] Instance eta_worker : Eta worker_handle := fun w =>
  mk_worker (w_pc w) (skip_sleeping w) (status_ w) (stopping_ w) (ea_ w).

Definition worker_new : worker_handle := mk_worker K_top false SLEEPING false false.

(** A thread in [request_append] or [request_commit]. *)
Inductive request_pc := R_push (server : Z) | R_scan (j : nat) | R_done.

(** A pool with the history of its queue: the servers that were put in, taken by
    workers, and cancelled. *)
Record pool := mk_pool {
  queue_ : list Z;
  server_set_ : gset Z;
  workers_ : list worker_handle;
  requests_ : list request_pc;
  pushed_ : list Z;
  taken_ : list Z;
  cancelled_ : list Z
}.

#[global] Instance eta_pool : Eta pool := fun s =>
  mk_pool (queue_ s) (server_set_ s) (workers_ s) (requests_ s) (pushed_ s) (taken_ s) (cancelled_ s).

Definition pool_new (num_threads : nat) (requests : list request_pc) : pool :=
  mk_pool [] ∅ (repeat worker_new num_threads) requests [] [] [].

Definition set_worker (i : nat) (w : worker_handle) (s : pool) : pool := s <| workers_ ::= <[i := w]> |>.

(** The critical section of a request: a server that is in the queue is ignored. *)
Definition push (server : Z) (s : pool) : bool * pool :=
  if decide (server ∈ server_set_ s) then (false, s)
  else (true, s <| queue_ ::= fun q => q ++ [server] |> <| server_set_ ::= fun x => {[server]} ∪ x |>
                <| pushed_ ::= fun l => l ++ [server] |>).

(** The loop that looks for a sleeping worker: where it goes on, if it does. *)
Definition scan (j : nat) (s : pool) : option nat * pool :=
  match workers_ s !! j with
  | None => (None, s)
  | Some w => if decide (status_ w = SLEEPING) then (None, set_worker j (w <| ea_ := true |>) s) else (Some (S j), s)
  end.

(** The critical section of a worker. *)
Definition take (i : nat) (w : worker_handle) (s : pool) : pool :=
  match queue_ s with
  | [] => set_worker i (w <| skip_sleeping := false |> <| w_pc := K_top |>) s
  | target :: rest =>
      set_worker i (w <| skip_sleeping := true |> <| w_pc := K_exec target |>)
        (s <| queue_ := rest |> <| server_set_ ::= fun x => x ∖ {[target]} |> <| taken_ ::= fun l => l ++ [target] |>)
  end.

Section Steps.
Context (kind : pool_kind).

(** A step of worker [i]; [finished] is whether a commit ends within its time.  A wait
    ends when the awaiter was invoked. *)
Definition worker_step (i : nat) (finished : bool) (s : pool) : option pool :=
  w ← workers_ s !! i;
  match w_pc w with
  | K_top =>
      Some (set_worker i (if stopping_ w then w <| w_pc := K_end |>
                          else if skip_sleeping w then w <| w_pc := K_check |>
                          else w <| status_ := SLEEPING |> <| w_pc := K_wait |>) s)
  | K_wait => if ea_ w then Some (set_worker i (w <| w_pc := K_reset |>) s) else None
  | K_reset => Some (set_worker i (w <| ea_ := false |> <| w_pc := K_working |>) s)
  | K_working => Some (set_worker i (w <| status_ := WORKING |> <| w_pc := K_check |>) s)
  | K_check => Some (set_worker i (w <| w_pc := if stopping_ w then K_end else K_take |>) s)
  | K_take => Some (take i w s)
  | K_exec target =>
      Some (set_worker i (w <| w_pc := match kind with
                                       | Commit_pool => if finished then K_top else K_push target
                                       | Append_pool => K_top
                                       end |>) s)
  | K_push target =>
      let '(added, s) := push target s in
      Some (set_worker i (w <| w_pc := if added then K_scan 0 else K_top |>) s)
  | K_scan j =>
      let '(next, s) := scan j s in
      w ← workers_ s !! i;
      Some (set_worker i (w <| w_pc := match next with Some j => K_scan j | None => K_top end |>) s)
  | K_end => None
  end.

(** [wait_ms] ends by its timeout, or without being invoked. *)
Definition timeout (i : nat) (s : pool) : option pool :=
  w ← workers_ s !! i;
  match w_pc w with K_wait => Some (set_worker i (w <| w_pc := K_reset |>) s) | _ => None end.

(** A step of a thread in [request_append] or [request_commit]. *)
Definition request_step (r : nat) (s : pool) : option pool :=
  p ← requests_ s !! r;
  match p with
  | R_push server =>
      let '(added, s) := push server s in
      Some (s <| requests_ ::= <[r := if added then R_scan 0 else R_done]> |>)
  | R_scan j =>
      let '(next, s) := scan j s in
      Some (s <| requests_ ::= <[r := match next with Some j => R_scan j | None => R_done end]> |>)
  | R_done => None
  end.

Fixpoint remove_first (x : Z) (l : list Z) : list Z :=
  match l with
  | [] => []
  | y :: l => if decide (x = y) then l else y :: remove_first x l
  end.

(** [close_raft_server]: the request of the server is cancelled. *)
Definition close_raft_server (server : Z) (s : pool) : pool :=
  if decide (server ∈ queue_ s)
  then s <| server_set_ ::= fun x => x ∖ {[server]} |> <| queue_ ::= remove_first server |>
         <| cancelled_ ::= fun l => l ++ [server] |>
  else s.

(** [worker_handle::shutdown]: [stopping_] is set, then the awaiter invoked. *)
Definition shutdown_stop (i : nat) (s : pool) : option pool :=
  w ← workers_ s !! i; Some (set_worker i (w <| stopping_ := true |>) s).

Definition shutdown_wake (i : nat) (s : pool) : option pool :=
  w ← workers_ s !! i; if stopping_ w then Some (set_worker i (w <| ea_ := true |>) s) else None.

Inductive pool_step : pool -> pool -> Prop :=
| step_worker i finished s s' : worker_step i finished s = Some s' -> pool_step s s'
| step_timeout i s s' : timeout i s = Some s' -> pool_step s s'
| step_request r s s' : request_step r s = Some s' -> pool_step s s'
| step_enter server s : pool_step s (s <| requests_ ::= fun l => l ++ [R_push server] |>)
| step_close server s : pool_step s (close_raft_server server s)
| step_stop i s s' : shutdown_stop i s = Some s' -> pool_step s s'
| step_wake i s s' : shutdown_wake i s = Some s' -> pool_step s s'.
End Steps.

(** * What the queue holds *)

(** Every server is in the queue once; what was put in was taken or cancelled or is
    still there, and what is taken is taken in the order it was put in. *)
Record pool_inv (s : pool) : Prop := {
  pi_nodup : NoDup (queue_ s);
  pi_set : server_set_ s = list_to_set (queue_ s);
  pi_all : taken_ s ++ cancelled_ s ++ queue_ s ≡ₚ pushed_ s;
  pi_order : taken_ s ++ queue_ s `sublist_of` pushed_ s
}.

Lemma remove_first_perm x l : x ∈ l -> x :: remove_first x l ≡ₚ l.
Proof.
  induction l as [|y l IH]; [by intros ?%elem_of_nil|]. cbn [remove_first]. intros H.
  destruct (decide (x = y)) as [->|N]; [done|]. apply elem_of_cons in H as [?|H]; [done|].
  rewrite <- (IH H) at 2. constructor.
Qed.

Lemma remove_first_sublist x l : remove_first x l `sublist_of` l.
Proof.
  induction l as [|y l IH]; [done|]. cbn [remove_first]. destruct (decide (x = y)); [by apply sublist_cons|by apply sublist_skip].
Qed.

(** The fields of the queue. *)
Definition same_queue (s s' : pool) : Prop :=
  queue_ s' = queue_ s /\ server_set_ s' = server_set_ s /\ pushed_ s' = pushed_ s /\
  taken_ s' = taken_ s /\ cancelled_ s' = cancelled_ s.

#[local] Instance same_queue_preorder : PreOrder same_queue.
Proof.
  split; [intros s; by repeat split|]. intros s1 s2 s3 (? & ? & ? & ? & ?) (? & ? & ? & ? & ?). unfold same_queue. split_and!; congruence.
Qed.

Lemma same_queue_inv s s' : same_queue s s' -> pool_inv s -> pool_inv s'.
Proof. intros (E1 & E2 & E3 & E4 & E5) []. split; by rewrite ?E1, ?E2, ?E3, ?E4, ?E5. Qed.

Lemma scan_same j s : same_queue s (snd (scan j s)).
Proof. unfold scan. destruct (_ !! _); [destruct (decide _)|]; by repeat split. Qed.

Lemma push_inv server s : pool_inv s -> pool_inv (snd (push server s)).
Proof.
  intros [N S A O]. unfold push. destruct (decide _) as [H|H]; [by split|].
  assert (server ∉ queue_ s) as Hq by (rewrite S in H; set_solver). split; cbn.
  - apply NoDup_app. split_and!; [done| |apply NoDup_singleton]. intros x Hx ->%list_elem_of_singleton. done.
  - rewrite S, list_to_set_app_L. set_solver.
  - rewrite !app_assoc. rewrite app_assoc in A. by rewrite A.
  - rewrite app_assoc. by apply sublist_app.
Qed.

Lemma take_inv i w s : pool_inv s -> pool_inv (take i w s).
Proof.
  intros [N S A O]. unfold take. destruct (queue_ s) as [|t q] eqn:E; split; cbn; rewrite ?E; try done.
  - by apply NoDup_cons in N as [_ ?].
  - rewrite S. apply NoDup_cons in N as [N _]. cbn. set_solver.
  - rewrite <- A, <- !app_assoc. apply Permutation_app_head. cbn. apply Permutation_cons_app, Permutation_refl.
  - by rewrite <- app_assoc.
Qed.

Lemma close_inv server s : pool_inv s -> pool_inv (close_raft_server server s).
Proof.
  intros [N S A O]. unfold close_raft_server. destruct (decide _) as [H|H]; [|by split].
  pose proof (remove_first_perm server (queue_ s) H) as P. split; cbn.
  - rewrite <- P in N. by apply NoDup_cons in N as [_ ?].
  - rewrite S. rewrite <- P in N. apply NoDup_cons in N as [N _].
    transitivity (list_to_set (server :: remove_first server (queue_ s)) ∖ {[server]} : gset Z).
    + f_equal. by rewrite P.
    + cbn. set_solver.
  - rewrite <- A, <- app_assoc. apply Permutation_app_head, Permutation_app_head. cbn. exact P.
  - etrans; [|exact O]. apply sublist_app; [done|]. apply remove_first_sublist.
Qed.

Lemma pool_step_inv kind s s' : pool_inv s -> pool_step kind s s' -> pool_inv s'.
Proof.
  intros I H. destruct H as [i fin s s' E|i s s' E|r s s' E|sv s|sv s|i s s' E|i s s' E].
  - unfold worker_step in E. destruct (workers_ s !! i) as [w|]; [cbn in E|done].
    destruct (w_pc w) as [ | | | | | |t|t|j| ]; try (injection E as <-; by apply (same_queue_inv s)); try done.
    + destruct (ea_ w); [injection E as <-; by apply (same_queue_inv s)|done].
    + injection E as <-. by apply take_inv.
    + pose proof (push_inv t s I) as P. destruct (push t s) as [b s1]. injection E as <-. by apply (same_queue_inv s1).
    + pose proof (scan_same j s) as P. destruct (scan j s) as [n s1]. destruct (workers_ s1 !! i); [|done].
      injection E as <-. apply (same_queue_inv s); [by etrans; [exact P|]|done].
  - unfold timeout in E. destruct (workers_ s !! i) as [w|]; [cbn in E|done].
    destruct (w_pc w); try done. injection E as <-. by apply (same_queue_inv s).
  - unfold request_step in E. destruct (requests_ s !! r) as [p|]; [cbn in E|done]. destruct p as [sv|j|]; [| |done].
    + pose proof (push_inv sv s I) as P. destruct (push sv s) as [b s1]. injection E as <-. by apply (same_queue_inv s1).
    + pose proof (scan_same j s) as P. destruct (scan j s) as [n s1].
      injection E as <-. apply (same_queue_inv s); [by etrans; [exact P|]|done].
  - by apply (same_queue_inv s).
  - by apply close_inv.
  - unfold shutdown_stop in E. destruct (workers_ s !! i); [|done]. injection E as <-. by apply (same_queue_inv s).
  - unfold shutdown_wake in E. destruct (workers_ s !! i) as [w|]; [cbn in E|done].
    destruct (stopping_ w); [|done]. injection E as <-. by apply (same_queue_inv s).
Qed.

(** * A worker by itself *)

(** The next step of worker [i], whose commits end in time, and whose waits end by
    their timeout if nothing else ends them. *)
Definition work (kind : pool_kind) (i : nat) (s : pool) : pool :=
  match worker_step kind i true s with
  | Some s' => s'
  | None => default s (timeout i s)
  end.

(** Steps until the worker looks at the queue, at most. *)
Definition steps_to_take (n : nat) (p : worker_pc) : nat :=
  match p with
  | K_take | K_end => 0
  | K_check => 1
  | K_working => 2
  | K_reset => 3
  | K_wait => 4
  | K_top => 5
  | K_exec _ => 6
  | K_scan j => 7 + (n - j)
  | K_push _ => 8 + n
  end%nat.

Definition pushes (p : worker_pc) : nat := match p with K_push _ => 1 | _ => 0 end%nat.

Definition active (i : nat) (w : worker_handle) (s : pool) : Prop :=
  workers_ s !! i = Some w /\ stopping_ w = false /\ w_pc w <> K_end.

Lemma active_set i w w' s :
  workers_ s !! i = Some w -> stopping_ w' = false -> w_pc w' <> K_end -> active i w' (set_worker i w' s).
Proof.
  intros H1 H2 H3. split_and!; [|done|done]. cbn. apply list_lookup_insert_eq.
  by apply lookup_lt_Some in H1.
Qed.

Lemma push_effect server s : exists extra, workers_ (snd (push server s)) = workers_ s /\
  taken_ (snd (push server s)) = taken_ s /\ queue_ (snd (push server s)) = queue_ s ++ extra /\ (length extra <= 1)%nat.
Proof.
  unfold push. destruct (decide _).
  - exists []. rewrite app_nil_r. split_and!; done || cbn; lia.
  - exists [server]. split_and!; done.
Qed.

Lemma scan_effect i j s w :
  workers_ s !! i = Some w ->
  let '(next, s') := scan j s in
  same_queue s s' /\ length (workers_ s') = length (workers_ s) /\
  (exists w', workers_ s' !! i = Some w' /\ stopping_ w' = stopping_ w) /\
  match next with Some j' => j' = S j /\ (j < length (workers_ s))%nat | None => True end.
Proof.
  intros Hw. pose proof (scan_same j s) as Sq. unfold scan in *. destruct (workers_ s !! j) as [wj|] eqn:Ej.
  2:{ split_and!; try done. by exists w. }
  destruct (decide _); cbn [snd] in Sq.
  - split_and!; [done|by cbn; rewrite length_insert| |done]. cbn.
    destruct (decide (j = i)) as [->|N].
    + rewrite Hw in Ej. injection Ej as <-. eexists. rewrite list_lookup_insert_eq; [by split|].
      by apply lookup_lt_Some in Hw.
    + rewrite list_lookup_insert_ne by done. by exists w.
  - split_and!; try done; [by exists w|]. by apply lookup_lt_Some in Ej.
Qed.

(** Every step of the worker brings it nearer to the queue. *)
Lemma work_approaches kind i s w :
  active i w s -> w_pc w <> K_take ->
  exists w' extra, active i w' (work kind i s) /\
    (steps_to_take (length (workers_ s)) (w_pc w') < steps_to_take (length (workers_ s)) (w_pc w))%nat /\
    pushes (w_pc w') = 0%nat /\ (length extra <= pushes (w_pc w))%nat /\
    length (workers_ (work kind i s)) = length (workers_ s) /\
    taken_ (work kind i s) = taken_ s /\ queue_ (work kind i s) = queue_ s ++ extra.
Proof.
  intros (Hw & Hs & He) Ht. unfold work, worker_step. rewrite Hw. cbn [mbind option_bind].
  assert (forall w', stopping_ w' = false -> w_pc w' <> K_end -> pushes (w_pc w') = 0%nat ->
    (steps_to_take (length (workers_ s)) (w_pc w') < steps_to_take (length (workers_ s)) (w_pc w))%nat ->
    exists w'' extra, active i w'' (set_worker i w' s) /\
    (steps_to_take (length (workers_ s)) (w_pc w'') < steps_to_take (length (workers_ s)) (w_pc w))%nat /\
    pushes (w_pc w'') = 0%nat /\ (length extra <= pushes (w_pc w))%nat /\
    length (workers_ (set_worker i w' s)) = length (workers_ s) /\
    taken_ (set_worker i w' s) = taken_ s /\ queue_ (set_worker i w' s) = queue_ s ++ extra) as K.
  { intros w' H1 H2 H3 H4. exists w', []. rewrite app_nil_r. split_and!; try done; cbn; [by eapply active_set|lia|].
    apply length_insert. }
  destruct (w_pc w) as [ | | | | | |t|t|j| ] eqn:Ep; try done; rewrite ?Hs.
  - destruct (skip_sleeping w); apply K; cbn; try done; lia.
  - destruct (ea_ w); [|unfold timeout; rewrite Hw; cbn [mbind option_bind]; rewrite Ep]; apply K; cbn; try done; lia.
  - apply K; cbn; try done; lia.
  - apply K; cbn; try done; lia.
  - apply K; cbn; try done; lia.
  - destruct kind; apply K; cbn; try done; lia.
  - destruct (push_effect t s) as (extra & E1 & E2 & E3 & E4). destruct (push t s) as [b s1]. cbn [snd] in *.
    rewrite <- E1 in Hw. eexists _, extra. split_and!.
    + eapply active_set; [exact Hw|done|by destruct b].
    + cbn. destruct b; cbn; lia.
    + by destruct b.
    + exact E4.
    + cbn. by rewrite length_insert, E1.
    + exact E2.
    + exact E3.
  - pose proof (scan_effect i j s w Hw) as P. destruct (scan j s) as [next s1].
    destruct P as ((Q1 & _ & _ & Q2 & _) & El & (w' & Ew & Es) & Hn). rewrite Ew. cbn [mbind option_bind].
    eexists _, []. rewrite app_nil_r. split_and!.
    + eapply active_set; [exact Ew|cbn; congruence|by destruct next].
    + cbn. destruct next; cbn; [destruct Hn as [-> Hn]; lia|lia].
    + by destruct next.
    + cbn. lia.
    + cbn. by rewrite length_insert.
    + exact Q2.
    + exact Q1.
Qed.

Lemma iter_S kind i n s : Nat.iter (S n) (work kind i) s = Nat.iter n (work kind i) (work kind i s).
Proof. apply Nat.iter_succ_r. Qed.

Lemma reaches_queue kind i d s w :
  active i w s -> (steps_to_take (length (workers_ s)) (w_pc w) <= d)%nat ->
  exists n w' extra, let s' := Nat.iter n (work kind i) s in
    (n <= d)%nat /\ active i w' s' /\ w_pc w' = K_take /\ (length extra <= pushes (w_pc w))%nat /\
    taken_ s' = taken_ s /\ queue_ s' = queue_ s ++ extra.
Proof.
  revert s w. induction d as [|d IH]; intros s w A Hd.
  all: destruct (decide (w_pc w = K_take)) as [Et|Et].
  1,3: exists O, w, []; rewrite app_nil_r; cbv zeta; cbn [Nat.iter]; split_and!; done || cbn; lia.
  - destruct (work_approaches kind i s w A Et) as (w' & extra & _ & L & _). lia.
  - destruct (work_approaches kind i s w A Et) as (w' & extra & A' & L & P & Lx & Lw & T & Q).
    destruct (IH (work kind i s) w' A') as (n & w2 & ex2 & Hn & A2 & E2 & L2 & T2 & Q2); [rewrite Lw; lia|].
    rewrite P in L2. assert (ex2 = []) as -> by (destruct ex2; [done|cbn in L2; lia]).
    rewrite app_nil_r in Q2. exists (S n), w2, extra. cbv zeta. rewrite iter_S. split_and!; try done; [lia| |]; congruence.
Qed.

(** The worker at the queue takes all of it. *)
Lemma takes_all kind i s w q :
  active i w s -> w_pc w = K_take -> queue_ s = q ->
  exists n, (n <= 7 * length q)%nat /\
    let s' := Nat.iter n (work kind i) s in taken_ s' = taken_ s ++ q /\ queue_ s' = [].
Proof.
  revert s w. induction q as [|t q IH]; intros s w A Et Q; cbv zeta.
  { exists O. rewrite app_nil_r. split_and!; [cbn; lia|done|done]. }
  destruct A as (Hw & Hs & He).
  assert (work kind i s = take i w s) as Ew by (unfold work, worker_step; rewrite Hw; cbn [mbind option_bind]; by rewrite Et).
  unfold take in Ew. rewrite Q in Ew. set (s1 := set_worker _ _ _) in Ew.
  assert (active i (w <| skip_sleeping := true |> <| w_pc := K_exec t |>) s1) as A1 by by eapply active_set.
  destruct (reaches_queue kind i 6 s1 _ A1) as (n1 & w2 & extra & Hn & A2 & E2 & Lx & T2 & Q2); [cbn; lia|].
  assert (extra = []) as -> by (destruct extra; [done|cbn in Lx; lia]). rewrite app_nil_r in Q2.
  destruct (IH _ w2 A2 E2 Q2) as (n2 & Hn2 & T3 & Q3). exists (S (n2 + n1)).
  rewrite iter_S, Nat.iter_add, Ew. split_and!; [cbn; lia| |done]. rewrite T3, T2. cbn. by rewrite <- app_assoc.
Qed.

(** C24: the requests of the servers are kept and served.  Whatever the threads that
    request something, the workers, the shut-downs of servers and of workers do, and
    in whatever order: a server is in the queue at most once; a request that was put
    in is taken by a worker, was cancelled, or is in the queue; and requests are
    taken in the order they were put in.  From any such state a worker that is not
    being stopped, left alone, takes all that is in the queue, and what it puts back
    itself, within a bounded number of its steps. *)
Theorem pool_serves (kind : pool_kind) (num_threads : nat) (s : pool) :
  rtc (pool_step kind) (pool_new num_threads []) s ->
  NoDup (queue_ s) /\ taken_ s ++ cancelled_ s ++ queue_ s ≡ₚ pushed_ s /\
  taken_ s ++ queue_ s `sublist_of` pushed_ s /\
  forall i w, active i w s -> exists n extra,
    (n <= 15 + length (workers_ s) + 7 * length (queue_ s))%nat /\ (length extra <= pushes (w_pc w))%nat /\
    let s' := Nat.iter n (work kind i) s in queue_ s' = [] /\ taken_ s' = taken_ s ++ queue_ s ++ extra.
Proof.
  intros H. assert (pool_inv s) as [N S A O].
  { remember (pool_new num_threads []) as s0. assert (pool_inv s0) as I by (subst; split; cbn; first [done|constructor]).
    clear Heqs0. induction H as [|s0 s1 s H1 _ IH]; [done|]. apply IH. by eapply pool_step_inv. }
  split_and!; try done. intros i w Hw.
  destruct (reaches_queue kind i (8 + length (workers_ s)) s w Hw) as (n1 & w1 & extra & Hn & A1 & E1 & Lx & T1 & Q1).
  { destruct (w_pc w); cbn; lia. }
  destruct (takes_all kind i _ w1 _ A1 E1 Q1) as (n2 & Hn2 & T2 & Q2).
  exists (n2 + n1)%nat, extra. rewrite length_app in Hn2. cbv zeta. rewrite Nat.iter_add.
  split_and!; [destruct (w_pc w); cbn in Lx; lia|done|exact Q2|by rewrite T2, T1].
Qed.

(** Only the timeout helps here: a server that is put into the queue after a worker saw
    it empty, but before the worker says that it sleeps, wakes no one. *)
Definition missed_run : list (pool -> option pool) :=
  let w := worker_step Commit_pool 0 true in
  (* the worker wakes up and looks at the queue *)
  [w; timeout 0; w; w; w; w;
  (* the server is put in, and the only worker works *)
   request_step 0; request_step 0; request_step 0;
  (* the worker goes to sleep *)
   w].

Example missed_wake_up :
  match foldl (fun s f => s ≫= f) (Some (pool_new 1 [R_push 7])) missed_run with
  | Some s => queue_ s = [7] /\ requests_ s = [R_done] /\ map w_pc (workers_ s) = [K_wait] /\
              worker_step Commit_pool 0 true s = None
  | None => False
  end.
Proof. vm_compute. by repeat split. Qed.

(** * An example *)

(** A worker serves 3 while 5 comes twice; the commit of 3 does not end in time. *)
Definition sample_pool_run : list (pool -> option pool) :=
  let w := worker_step Commit_pool 0 true in
  [fun s => Some (s <| requests_ ::= fun l => l ++ [R_push 3] |>); request_step 0; w; request_step 0; w; w; w; w; w;
   fun s => Some (s <| requests_ ::= fun l => l ++ [R_push 5] |>); request_step 1;
   fun s => Some (s <| requests_ ::= fun l => l ++ [R_push 5] |>); request_step 2;
   worker_step Commit_pool 0 false].

Definition sample_pool : pool :=
  default (pool_new 1 []) (foldl (fun s f => s ≫= f) (Some (pool_new 1 [])) sample_pool_run).

Lemma sample_pool_reachable : rtc (pool_step Commit_pool) (pool_new 1 []) sample_pool.
Proof.
  assert (forall l s s', Forall (fun f => forall x y, f x = Some y -> pool_step Commit_pool x y) l ->
    foldl (fun s f => s ≫= f) (Some s) l = Some s' -> rtc (pool_step Commit_pool) s s') as K.
  { intros l. induction l as [|f l IH]; intros s s' Hl E; cbn in E; [by injection E as ->|].
    apply Forall_cons in Hl as [Hf Hl]. destruct (f s) as [s1|] eqn:E1.
    - eapply rtc_l; [by apply Hf|]. by apply IH.
    - exfalso. clear -E. induction l; [done|]. by apply IHl. }
  apply (K sample_pool_run); [|by vm_compute].
  repeat apply Forall_cons_2; try apply Forall_nil_2; intros x y E;
    first [by eapply step_worker|by eapply step_request|injection E as <-; apply step_enter].
Qed.

Lemma pool_serves_witness :
  taken_ sample_pool = [3] /\ queue_ sample_pool = [5] /\
  exists n extra, (length extra <= 1)%nat /\ taken_ (Nat.iter n (work Commit_pool 0) sample_pool) = [3; 5] ++ extra.
Proof.
  destruct (pool_serves Commit_pool 1 sample_pool sample_pool_reachable) as (_ & _ & _ & H).
  split; [by vm_compute|]. split; [by vm_compute|].
  destruct (H O (mk_worker (K_push 3) true WORKING false false)) as (n & extra & _ & L & _ & T).
  - split_and!; [by vm_compute|done|done].
  - exists n, extra. split; [exact L|]. rewrite T. by vm_compute.
Defined.
