(* ===== verification/Strand.v ===== *)
(** detail/strand_executor_service.h, detail/strand_service.h and their impl/ parts:
    strands, by which handlers that any number of threads run never run at the same time.

    A state has the fields of a [strand_impl], the invokers that the underlying executor
    has been given, and the threads that are in a function of the strand, each with the
    point it has reached; a step is one operation of one thread, where a critical section
    of the strand's mutex is one operation.  The underlying executor runs an invoker on
    any thread, at any time.  Handlers are numbers; the lists of those that were
    enqueued, begun and destroyed are a history.  Both services have this state; that of
    [io_context::strand] has no [shutdown_], which stays false, its invoker is the
    [strand_impl] itself, and it runs a handler at once when the strand is free and the
    calling thread runs the context. *)
From S2P Require Import Prelude.

(** Points of a thread. *)
Inductive strand_pc :=
| S_enqueue (h : Z)       (* post, dispatch, defer, do_execute: enqueue(impl, h) *)
| S_dispatch (h : Z)      (* strand_service::do_dispatch *)
| S_post (h : Z)          (* strand_service::do_post *)
| S_ready (h : Z)         (* enqueue: ready_queue_.push(h), with the strand's lock *)
| S_schedule              (* the invoker is given to the executor *)
| V_begin                 (* run_ready_handlers *)
| V_handler (h : Z)       (* h->complete *)
| D_handler (h : Z)       (* do_dispatch: op->complete, at once *)
| V_exit                  (* ~on_dispatch_exit, ~on_do_complete_exit, ~on_invoker_exit: push_waiting_to_ready *)
| V_repost                (* the invoker is given to the executor again *)
| S_done.

#[global] Instance strand_pc_eq_dec : EqDecision strand_pc.
Proof. solve_decision. Defined.

Record strand_impl := mk_strand {
  locked_ : bool;
  shutdown_ : bool;
  waiting_queue_ : list Z;
  ready_queue_ : list Z;
  invokers_ : nat;
  threads_ : list strand_pc;
  enqueued_ : list Z;
  begun_ : list Z;
  destroyed_ : list Z
}.

#[global] Instance eta_strand : Eta strand_impl := fun s =>
  mk_strand (locked_ s) (shutdown_ s) (waiting_queue_ s) (ready_queue_ s) (invokers_ s) (threads_ s)
    (enqueued_ s) (begun_ s) (destroyed_ s).

(** [create_implementation] *)
Definition strand_new : strand_impl := mk_strand false false [] [] 0 [] [] [] [].

Definition goes (t : nat) (p : strand_pc) (s : strand_impl) : strand_impl := s <| threads_ ::= <[t := p]> |>.

(** The critical section of [enqueue], and where the thread goes. *)
Definition enqueue (h : Z) (s : strand_impl) : strand_pc * strand_impl :=
  let s := s <| enqueued_ ::= fun l => l ++ [h] |> in
  if shutdown_ s then (S_done, s <| destroyed_ ::= fun l => l ++ [h] |>)
  else if locked_ s then (S_done, s <| waiting_queue_ ::= fun q => q ++ [h] |>)
  else (S_ready h, s <| locked_ := true |>).

Definition do_post (h : Z) (s : strand_impl) : strand_pc * strand_impl :=
  let s := s <| enqueued_ ::= fun l => l ++ [h] |> in
  if locked_ s then (S_done, s <| waiting_queue_ ::= fun q => q ++ [h] |>)
  else (S_ready h, s <| locked_ := true |>).

Definition do_dispatch (can_dispatch : bool) (h : Z) (s : strand_impl) : strand_pc * strand_impl :=
  if can_dispatch && negb (locked_ s) then
    (D_handler h, s <| enqueued_ ::= fun l => l ++ [h] |> <| locked_ := true |> <| begun_ ::= fun l => l ++ [h] |>)
  else do_post h s.

Definition push_waiting_to_ready (s : strand_impl) : bool * strand_impl :=
  let ready := ready_queue_ s ++ waiting_queue_ s in
  let more_handlers := negb (bool_decide (ready = [])) in
  (more_handlers, s <| ready_queue_ := ready |> <| waiting_queue_ := [] |> <| locked_ := more_handlers |>).

(** A turn of the loop of [run_ready_handlers]. *)
Definition next_handler (s : strand_impl) : strand_pc * strand_impl :=
  match ready_queue_ s with
  | [] => (V_exit, s)
  | o :: rest => (V_handler o, s <| ready_queue_ := rest |> <| begun_ ::= fun l => l ++ [o] |>)
  end.

(** The next operation of thread [t]; [now]: the thread runs the context ([S_dispatch]);
    the executor runs the invoker at once, in this thread, as [dispatch] and [execute]
    may ([S_schedule]); the handler throws ([V_handler]). *)
Definition strand_thread (t : nat) (now : bool) (s : strand_impl) : option strand_impl :=
  p ← threads_ s !! t;
  match p with
  | S_enqueue h => let '(p, s) := enqueue h s in Some (goes t p s)
  | S_dispatch h => let '(p, s) := do_dispatch now h s in Some (goes t p s)
  | S_post h => let '(p, s) := do_post h s in Some (goes t p s)
  | S_ready h => Some (goes t S_schedule (s <| ready_queue_ ::= fun q => q ++ [h] |>))
  | S_schedule => Some (if now then goes t V_begin s else goes t S_done (s <| invokers_ ::= S |>))
  | V_begin => let '(p, s) := next_handler s in Some (goes t p s)
  | V_handler _ => Some (goes t (if now then V_exit else V_begin) s)
  | D_handler _ => Some (goes t V_exit s)
  | V_exit => let '(more, s) := push_waiting_to_ready s in Some (goes t (if more then V_repost else S_done) s)
  | V_repost => Some (goes t S_done (s <| invokers_ ::= S |>))
  | S_done => None
  end.

(** The executor runs an invoker. *)
Definition run_invoker (s : strand_impl) : option strand_impl :=
  match invokers_ s with
  | O => None
  | S n => Some (s <| invokers_ := n |> <| threads_ ::= fun l => l ++ [V_begin] |>)
  end.

(** [strand_executor_service::shutdown], and [strand_service::shutdown], which has no
    flag to set. *)
Definition strand_shutdown (flag : bool) (s : strand_impl) : strand_impl :=
  s <| shutdown_ := flag || shutdown_ s |> <| destroyed_ ::= fun l => l ++ waiting_queue_ s ++ ready_queue_ s |>
    <| waiting_queue_ := [] |> <| ready_queue_ := [] |>.

Definition in_handler (p : strand_pc) : bool := match p with V_handler _ | D_handler _ => true | _ => false end.

(** [running_in_this_thread] *)
Definition running_in_this_thread (t : nat) (s : strand_impl) : Prop :=
  exists p, threads_ s !! t = Some p /\ (p = V_begin \/ in_handler p).

(** What threads do that are in the strand already. *)
Inductive strand_step : strand_impl -> strand_impl -> Prop :=
| strand_step_thread t now s s' : strand_thread t now s = Some s' -> strand_step s s'
| strand_step_run s s' : run_invoker s = Some s' -> strand_step s s'.

(** And what comes from outside: a call of [post], [dispatch], [defer] or [execute] from
    outside the strand, and the shut-down of the service. *)
Inductive strand_input : strand_impl -> strand_impl -> Prop :=
| strand_submit p h s : p = S_enqueue h \/ p = S_dispatch h \/ p = S_post h ->
    strand_input s (s <| threads_ ::= fun l => l ++ [p] |>)
| strand_close flag s : strand_input s (strand_shutdown flag s).

Definition strand_run : strand_impl -> strand_impl -> Prop := rtc (fun s s' => strand_step s s' \/ strand_input s s').

(** * The invariant *)

(** A thread that has the strand's lock. *)
Definition has_lock (p : strand_pc) : bool :=
  match p with S_enqueue _ | S_dispatch _ | S_post _ | S_done => false | _ => true end.

Definition lock_of (p : strand_pc) : nat := if has_lock p then 1 else 0.

Definition locks (l : list strand_pc) : nat := sum_list_with lock_of l.

(** The handler on its way to the ready queue. *)
Definition on_the_way (p : strand_pc) : list Z := match p with S_ready h => [h] | _ => [] end.

Definition way (l : list strand_pc) : list Z := concat (map on_the_way l).

#[global] Arguments locks : simpl never.
#[global] Arguments way : simpl never.

Record strand_inv (s : strand_impl) : Prop := {
  (* the lock is with one thread or one invoker *)
  si_token : (locks (threads_ s) + invokers_ s = if locked_ s then 1 else 0)%nat;
  si_free : locked_ s = false -> waiting_queue_ s = [] /\ ready_queue_ s = [];
  si_way : way (threads_ s) <> [] -> ready_queue_ s = [];
  si_order : begun_ s ++ way (threads_ s) ++ ready_queue_ s ++ waiting_queue_ s
    `sublist_of` enqueued_ s;
  si_all : destroyed_ s = [] ->
    begun_ s ++ way (threads_ s) ++ ready_queue_ s ++ waiting_queue_ s = enqueued_ s;
  si_conserve :
    begun_ s ++ way (threads_ s) ++ ready_queue_ s ++ waiting_queue_ s ++ destroyed_ s ≡ₚ enqueued_ s
}.

Lemma locks_insert t p q l : l !! t = Some p -> (locks (<[t := q]> l) + lock_of p = locks l + lock_of q)%nat.
Proof.
  revert t. induction l as [|x l IH]; intros [|t] E; [done..| |].
  - injection E as ->. unfold locks. cbn. lia.
  - specialize (IH t E). change (lock_of x + locks (<[t := q]> l) + lock_of p = lock_of x + locks l + lock_of q)%nat. lia.
Qed.

Lemma locks_app l k : locks (l ++ k) = (locks l + locks k)%nat.
Proof. unfold locks. induction l as [|x l IH]; cbn; lia. Qed.

Lemma way_app l k : way (l ++ k) = way l ++ way k.
Proof. unfold way. by rewrite map_app, concat_app. Qed.

Lemma no_lock_no_way p : lock_of p = O -> on_the_way p = [].
Proof. by destruct p. Qed.

Lemma way_free l : locks l = O -> way l = [].
Proof.
  unfold locks, way. induction l as [|x l IH]; [done|]. cbn. intros E.
  rewrite IH, (no_lock_no_way x) by lia. done.
Qed.

Lemma way_cons p l : way (p :: l) = on_the_way p ++ way l.
Proof. done. Qed.

Lemma locks_cons p l : locks (p :: l) = (lock_of p + locks l)%nat.
Proof. done. Qed.

Lemma way_same t p q l : l !! t = Some p -> on_the_way q = on_the_way p -> way (<[t := q]> l) = way l.
Proof.
  intros E H. revert t E. induction l as [|x l IH]; intros [|t] E; [done..| |].
  - injection E as ->. change (on_the_way q ++ way l = on_the_way p ++ way l). by rewrite H.
  - change (on_the_way x ++ way (<[t := q]> l) = on_the_way x ++ way l). by rewrite (IH t).
Qed.

(** The way of the thread that has, or gets, the only lock. *)
Lemma way_only t p q l : l !! t = Some p -> locks l = lock_of p -> way (<[t := q]> l) = on_the_way q.
Proof.
  intros E. revert t E. induction l as [|x l IH]; intros [|t] E H; [done..| |]; rewrite locks_cons in H.
  - injection E as ->. change (on_the_way q ++ way l = on_the_way q). rewrite (way_free l) by lia. apply app_nil_r.
  - change (on_the_way x ++ way (<[t := q]> l) = on_the_way q).
    pose proof (locks_insert t p S_done l E) as L. cbn in L. rewrite no_lock_no_way by lia. apply (IH t E). lia.
Qed.

Lemma one_lock s t p : strand_inv s -> threads_ s !! t = Some p -> lock_of p = 1%nat ->
  locked_ s = true /\ locks (threads_ s) = 1%nat /\ invokers_ s = O.
Proof.
  intros I E H. pose proof (locks_insert t p S_done _ E) as L. pose proof (si_token _ I) as T. cbn in L.
  destruct (locked_ s); split_and!; try done; lia.
Qed.

(** A thread that keeps the lock moves on. *)
Lemma move_inv s t p q :
  strand_inv s -> threads_ s !! t = Some p -> lock_of q = lock_of p -> on_the_way q = on_the_way p ->
  strand_inv (goes t q s).
Proof.
  intros I E L W. pose proof (locks_insert t p q _ E) as Lt. pose proof (way_same t p q _ E W) as Wt.
  destruct I as [I1 I2 I3 I4 I5 I6]. split; cbn; rewrite ?Wt; try done. lia.
Qed.

(** A handler that waits, and one that takes the lock. *)
Lemma wait_inv s t p h :
  strand_inv s -> threads_ s !! t = Some p -> has_lock p = false -> locked_ s = true ->
  strand_inv (goes t S_done (s <| enqueued_ ::= fun l => l ++ [h] |> <| waiting_queue_ ::= fun q => q ++ [h] |>)).
Proof.
  intros I E Hp El. assert (lock_of p = 0%nat) as Hl by (unfold lock_of; by rewrite Hp).
  pose proof (move_inv s t p S_done I E (eq_sym Hl) (eq_sym (no_lock_no_way p Hl))) as [J1 J2 J3 J4 J5 J6].
  cbn in *. split; cbn; try done.
  - intros F. by rewrite El in F.
  - rewrite !app_assoc. apply sublist_app; [|done]. by rewrite <- !app_assoc.
  - intros F. by rewrite <- J5, <- !app_assoc.
  - rewrite <- J6. solve_Permutation.
Qed.

Lemma take_lock_inv s t p q h :
  strand_inv s -> threads_ s !! t = Some p -> has_lock p = false -> locked_ s = false -> lock_of q = 1%nat ->
  let s1 := s <| enqueued_ ::= fun l => l ++ [h] |> <| locked_ := true |> in
  (on_the_way q = [h] -> strand_inv (goes t q s1)) /\
  (on_the_way q = [] -> strand_inv (goes t q (s1 <| begun_ ::= fun l => l ++ [h] |>))).
Proof.
  intros I E Hp El Hq. assert (lock_of p = 0%nat) as Hl by (unfold lock_of; by rewrite Hp).
  pose proof (si_token _ I) as T. rewrite El in T. destruct (si_free _ I El) as [Ew Er].
  assert (locks (threads_ s) = O) as L0 by lia. pose proof (way_only t _ q _ E ltac:(by rewrite Hl)) as W.
  pose proof (locks_insert t _ q _ E) as L. rewrite Hl, Hq in L.
  destruct I as [I1 I2 I3 I4 I5 I6]. rewrite (way_free _ L0), Er, Ew in *. cbn in *. rewrite app_nil_r in I4, I5.
  split; intros Hw; split; cbn; rewrite ?W, ?Hw, ?Er, ?Ew; cbn; rewrite ?app_nil_r; try done; try lia;
    try by apply sublist_app.
  - intros F. by rewrite I5.
  - rewrite <- I6. solve_Permutation.
  - intros F. by rewrite I5.
  - rewrite <- I6. solve_Permutation.
Qed.

Lemma do_post_inv s t p h :
  strand_inv s -> threads_ s !! t = Some p -> has_lock p = false ->
  let '(q, s') := do_post h s in strand_inv (goes t q s').
Proof.
  intros I E Hp. unfold do_post. cbn. destruct (locked_ s) eqn:El; [by apply (wait_inv s t p)|].
  by apply (take_lock_inv s t p (S_ready h) h).
Qed.

Lemma do_dispatch_inv s t p now h :
  strand_inv s -> threads_ s !! t = Some p -> has_lock p = false ->
  let '(q, s') := do_dispatch now h s in strand_inv (goes t q s').
Proof.
  intros I E Hp. unfold do_dispatch. destruct (now && negb (locked_ s)) eqn:B; [|by apply (do_post_inv s t p)].
  apply andb_true_iff in B as [_ B]. apply negb_true_iff in B. by apply (take_lock_inv s t p (D_handler h) h).
Qed.

Lemma enqueue_inv s t h :
  strand_inv s -> threads_ s !! t = Some (S_enqueue h) -> let '(p, s') := enqueue h s in strand_inv (goes t p s').
Proof.
  intros I E. unfold enqueue. cbn. destruct (shutdown_ s) eqn:Esh; [|by apply (do_post_inv s t (S_enqueue h))].
  pose proof (move_inv s t _ S_done I E eq_refl eq_refl) as [J1 J2 J3 J4 J5 J6]. split; cbn in *; try done.
  - by apply sublist_inserts_r.
  - intros F. by destruct (destroyed_ s).
  - rewrite <- J6. solve_Permutation.
Qed.

Lemma ready_inv s t h :
  strand_inv s -> threads_ s !! t = Some (S_ready h) ->
  strand_inv (goes t S_schedule (s <| ready_queue_ ::= fun q => q ++ [h] |>)).
Proof.
  intros I E. destruct (one_lock s t _ I E eq_refl) as (El & L & Ev).
  pose proof (way_only t _ S_schedule _ E L) as W. pose proof (way_only t _ (S_ready h) _ E L) as W0.
  rewrite list_insert_id in W0 by done. pose proof (locks_insert t _ S_schedule _ E) as Lt. cbn in Lt, W, W0.
  destruct I as [I1 I2 I3 I4 I5 I6]. rewrite W0 in *. pose proof (I3 ltac:(done)) as Er. rewrite Er, El in *.
  split; cbn; rewrite ?W, ?El, ?Er; try done. lia.
Qed.

Lemma schedule_inv s t p :
  strand_inv s -> threads_ s !! t = Some p -> lock_of p = 1%nat -> on_the_way p = [] ->
  strand_inv (goes t S_done (s <| invokers_ ::= S |>)).
Proof.
  intros I E Hl Hw. pose proof (locks_insert t p S_done _ E) as Lt. pose proof (way_same t p S_done _ E (eq_sym Hw)) as W.
  destruct I as [I1 I2 I3 I4 I5 I6]. split; cbn in *; rewrite ?W; try done. lia.
Qed.

Lemma next_handler_inv s t :
  strand_inv s -> threads_ s !! t = Some V_begin -> let '(p, s') := next_handler s in strand_inv (goes t p s').
Proof.
  intros I E. unfold next_handler. destruct (ready_queue_ s) as [|o rest] eqn:Er.
  { by apply (move_inv s t _ V_exit I E). }
  pose proof (move_inv s t _ (V_handler o) I E eq_refl eq_refl) as [J1 J2 J3 J4 J5 J6].
  destruct (one_lock s t _ I E eq_refl) as (El & L & _). pose proof (way_only t _ (V_handler o) _ E L) as W.
  cbn in *. rewrite W, Er in *. split; cbn; rewrite ?W; try done.
  - intros F. by rewrite El in F.
  - rewrite <- app_assoc. exact J4.
  - intros F. rewrite <- app_assoc. exact (J5 F).
  - rewrite <- J6. solve_Permutation.
Qed.

Lemma exit_inv s t :
  strand_inv s -> threads_ s !! t = Some V_exit ->
  let '(more, s') := push_waiting_to_ready s in strand_inv (goes t (if more then V_repost else S_done) s').
Proof.
  intros I E. destruct (one_lock s t _ I E eq_refl) as (El & L & Ev). unfold push_waiting_to_ready.
  pose proof (fun p => way_only t _ p _ E L) as W. pose proof (fun p => locks_insert t _ p _ E) as Lt.
  pose proof (W V_exit) as W0. rewrite list_insert_id in W0 by done.
  destruct I as [I1 I2 I3 I4 I5 I6]. rewrite W0 in *. cbn in *.
  case_bool_decide as Eq; cbn; split; cbn; rewrite ?W; cbn; rewrite ?app_nil_r; try done.
  - specialize (Lt S_done). cbn in Lt. lia.
  - rewrite <- I6, !app_assoc. solve_Permutation.
  - specialize (Lt V_repost). cbn in Lt. rewrite El in I1. lia.
  - rewrite <- I6. solve_Permutation.
Qed.

Lemma run_inv s s' : strand_inv s -> run_invoker s = Some s' -> strand_inv s'.
Proof.
  unfold run_invoker. destruct (invokers_ s) as [|n] eqn:Ev; [done|]. intros I [= <-].
  destruct I as [I1 I2 I3 I4 I5 I6]. rewrite Ev in I1.
  split; cbn; rewrite ?way_app, ?locks_app; change (way [V_begin]) with (@nil Z); rewrite ?app_nil_r; try done.
  unfold locks at 2. cbn. lia.
Qed.

#[local] Arguments push_waiting_to_ready : simpl never.

Lemma strand_thread_inv t now s s' : strand_inv s -> strand_thread t now s = Some s' -> strand_inv s'.
Proof.
  unfold strand_thread. intros I. destruct (threads_ s !! t) as [p|] eqn:E; [|done]. cbn.
  destruct p as [h|h|h|h| | |h|h| | |]; intros H.
  - pose proof (enqueue_inv s t h I E) as G. destruct (enqueue h s). by injection H as <-.
  - pose proof (do_dispatch_inv s t _ now h I E eq_refl) as G. destruct (do_dispatch now h s). by injection H as <-.
  - pose proof (do_post_inv s t _ h I E eq_refl) as G. destruct (do_post h s). by injection H as <-.
  - injection H as <-. by apply ready_inv.
  - destruct now; injection H as <-; [by apply (move_inv s t S_schedule)|by apply (schedule_inv s t S_schedule)].
  - pose proof (next_handler_inv s t I E) as G. destruct (next_handler s). by injection H as <-.
  - destruct now; injection H as <-; by apply (move_inv s t (V_handler h)).
  - injection H as <-. by apply (move_inv s t (D_handler h)).
  - pose proof (exit_inv s t I E) as G. destruct (push_waiting_to_ready s). by injection H as <-.
  - injection H as <-. by apply (schedule_inv s t V_repost).
  - done.
Qed.

Lemma strand_input_inv s s' : strand_inv s -> strand_input s s' -> strand_inv s'.
Proof.
  intros I H. destruct I as [I1 I2 I3 I4 I5 I6]. destruct H as [p h s Hp|flag s].
  - assert (locks [p] = O /\ way [p] = []) as [Hl Hw] by (destruct Hp as [->|[->| ->]]; split; reflexivity).
    split; cbn; rewrite ?way_app, ?locks_app, ?Hw, ?app_nil_r; try done. lia.
  - split; cbn; try done.
    + etrans; [|exact I4]. apply sublist_app; [done|]. rewrite app_nil_r. by apply sublist_inserts_r.
    + intros F. apply app_eq_nil in F as [F1 [F2 F3]%app_eq_nil].
      specialize (I5 F1). by rewrite F2, F3 in I5.
    + rewrite <- I6. solve_Permutation.
Qed.

Lemma strand_step_inv s s' : strand_inv s -> strand_step s s' -> strand_inv s'.
Proof. intros I H. destruct H as [t now s s' H|s s' H]; [by eapply strand_thread_inv|by eapply run_inv]. Qed.

Lemma strand_new_inv : strand_inv strand_new.
Proof. by split. Qed.

Lemma strand_run_inv s s' : strand_inv s -> strand_run s s' -> strand_inv s'.
Proof.
  intros I R. induction R as [|s s1 s2 [H|H] _ IH]; [done| |].
  - by apply IH, (strand_step_inv s).
  - by apply IH, (strand_input_inv s).
Qed.

(** * Progress *)

(** What is left to do at a point; [e]: the ready queue is empty. *)
Definition pc_weight (e : bool) (p : strand_pc) : nat :=
  match p with
  | S_dispatch _ => 17
  | S_enqueue _ | S_post _ => 16
  | S_ready _ => 15
  | S_schedule => if e then 8 else 4
  | V_begin => if e then 5 else 1
  | V_handler _ => 6
  | D_handler _ => 5
  | V_exit => 4
  | V_repost => if e then 7 else 3
  | S_done => 0
  end.

Definition weight (e : bool) (l : list strand_pc) : nat := sum_list_with (pc_weight e) l.

#[global] Arguments weight : simpl never.

Definition no_ready (s : strand_impl) : bool := match ready_queue_ s with [] => true | _ => false end.

Definition strand_weight (s : strand_impl) : nat :=
  weight (no_ready s) (threads_ s) + (if no_ready s then 6 else 2) * invokers_ s
    + 10 * length (ready_queue_ s) + 10 * length (waiting_queue_ s).

Lemma weight_same e e' l : locks l = O -> weight e l = weight e' l.
Proof.
  induction l as [|x l IH]; [done|]. rewrite locks_cons. intros H.
  change (pc_weight e x + weight e l = pc_weight e' x + weight e' l)%nat.
  rewrite IH by lia. assert (lock_of x = O) as Hx by lia. by destruct x.
Qed.

Lemma weight_insert e e' t p q l :
  l !! t = Some p -> e = e' \/ locks l = lock_of p ->
  (weight e (<[t := q]> l) + pc_weight e' p = weight e' l + pc_weight e q)%nat.
Proof.
  revert t. induction l as [|x l IH]; intros [|t] E H; [done..| |].
  - injection E as ->.
    change (pc_weight e q + weight e l + pc_weight e' p = pc_weight e' p + weight e' l + pc_weight e q)%nat.
    destruct H as [->|H]; [lia|]. rewrite locks_cons in H. rewrite (weight_same e e') by lia. lia.
  - change (pc_weight e x + weight e (<[t := q]> l) + pc_weight e' p = pc_weight e' x + weight e' l + pc_weight e q)%nat.
    destruct H as [->|H]; [specialize (IH t E (or_introl eq_refl)); lia|].
    rewrite locks_cons in H. pose proof (locks_insert t p S_done l E) as L. cbn in L.
    assert (pc_weight e x = pc_weight e' x) as -> by (assert (lock_of x = O) as Hx by lia; by destruct x).
    specialize (IH t E). lia.
Qed.

Lemma weight_app e l p : weight e (l ++ [p]) = (weight e l + pc_weight e p)%nat.
Proof. unfold weight. induction l as [|x l IH]; cbn; lia. Qed.

(** The weight of one thread's move, whatever the move does to the ready queue. *)
Ltac weigh W L1 :=
  match goal with
  | |- context [weight ?e (<[_ := ?q]> _)] =>
    let W' := fresh in
    assert (W' := W e q); cbn -[weight Nat.mul] in W';
    first [ specialize (W' (or_introl eq_refl)); lia
          | let Hl := fresh in
            destruct (L1 eq_refl) as (_ & Hl & ?); specialize (W' (or_intror Hl)); lia ]
  end.

Lemma strand_thread_weight t now s s' :
  strand_inv s -> strand_thread t now s = Some s' -> (strand_weight s' < strand_weight s)%nat.
Proof.
  unfold strand_thread. intros I. destruct (threads_ s !! t) as [p|] eqn:E; [|done]. cbn.
  pose proof (fun e q => weight_insert e (no_ready s) t p q _ E) as W.
  pose proof (one_lock s t p I E) as L1. clear I.
  destruct p as [h|h|h|h| | |h|h| | |]; cbn [lock_of has_lock] in *; intros H;
  cbn in H; unfold enqueue, do_dispatch, do_post, next_handler, push_waiting_to_ready in H;
  repeat case_match;
  repeat match goal with P : (_, _) = (_, _) |- _ => injection P as <- <- end; try discriminate H;
  injection H as <-; unfold strand_weight, no_ready in *; cbn -[weight Nat.mul];
  destruct (ready_queue_ s) as [|o rest] eqn:Er; simplify_eq; cbn -[weight Nat.mul];
  rewrite ?length_app; cbn -[weight Nat.mul]; try (weigh W L1).
  all: destruct (waiting_queue_ s) as [|w ws]; cbn -[weight Nat.mul] in *; simplify_eq; try (weigh W L1).
  all: rewrite ?length_app; cbn -[weight Nat.mul]; try (weigh W L1).
Qed.

Lemma strand_step_weight s s' : strand_inv s -> strand_step s s' -> (strand_weight s' < strand_weight s)%nat.
Proof.
  intros I H. destruct H as [t now s s' H|s s' H]; [by eapply strand_thread_weight|].
  unfold run_invoker in H. destruct (invokers_ s) as [|n] eqn:Ev; [done|]. injection H as <-.
  unfold strand_weight, no_ready. cbn -[weight Nat.mul]. rewrite weight_app, Ev.
  destruct (ready_queue_ s); cbn -[weight Nat.mul]; lia.
Qed.

Lemma strand_steps_weight n s s' :
  strand_inv s -> nsteps strand_step n s s' -> (n + strand_weight s' <= strand_weight s)%nat /\ strand_inv s'.
Proof.
  intros I H. induction H as [s|n s s1 s2 H _ IH]; [by split; [lia|]|].
  pose proof (strand_step_weight s s1 I H). destruct (IH (strand_step_inv s s1 I H)). split; [lia|done].
Qed.

(** A strand in which nothing can be done. *)
Lemma strand_quiet s :
  strand_inv s -> nf strand_step s ->
  locked_ s = false /\ (begun_ s ++ destroyed_ s ≡ₚ enqueued_ s) /\ (destroyed_ s = [] -> begun_ s = enqueued_ s).
Proof.
  intros I N. assert (invokers_ s = O) as Ev.
  { destruct (invokers_ s) eqn:Ev; [done|]. destruct N. eexists. apply strand_step_run. unfold run_invoker. by rewrite Ev. }
  assert (forall t p, threads_ s !! t = Some p -> p = S_done) as D.
  { intros t p E. destruct (strand_thread t false s) as [s'|] eqn:H.
    - destruct N. exists s'. by apply (strand_step_thread t false).
    - unfold strand_thread in H. rewrite E in H. cbn in H. unfold do_dispatch in H.
      repeat case_match; done. }
  assert (locks (threads_ s) = O) as L.
  { clear -D. induction (threads_ s) as [|x l IH]; [done|]. rewrite locks_cons, (D O x eq_refl).
    apply IH. intros t. apply (D (S t)). }
  destruct I as [I1 I2 I3 I4 I5 I6]. rewrite (way_free _ L) in *. destruct (locked_ s); [lia|].
  destruct (I2 eq_refl) as [Ew Er]. rewrite Ew, Er in *. cbn in *. rewrite ?app_nil_r in *. by split_and!.
Qed.

Lemma running_lock t s : strand_inv s -> running_in_this_thread t s ->
  exists p, threads_ s !! t = Some p /\ lock_of p = 1%nat.
Proof. intros _ (p & E & [->|H]); exists p || eexists; split; try done. by destruct p. Qed.

Lemma locks_two t u p q l : l !! t = Some p -> l !! u = Some q -> lock_of p = 1%nat -> lock_of q = 1%nat ->
  t <> u -> (locks l >= 2)%nat.
Proof.
  intros E F Hp Hq N. pose proof (locks_insert t p S_done l E) as L.
  pose proof (locks_insert u q S_done (<[t := S_done]> l)) as K. rewrite list_lookup_insert_ne in K by done.
  specialize (K F). cbn in L, K. lia.
Qed.

Lemma runs_alone t u s : strand_inv s -> running_in_this_thread t s -> running_in_this_thread u s -> t = u.
Proof.
  intros I (p & E & Hp)%running_lock (q & F & Hq)%running_lock; [|done..].
  destruct (decide (t = u)) as [|N]; [done|]. pose proof (locks_two t u p q _ E F Hp Hq N).
  destruct (one_lock s t p I E Hp) as (_ & L & _). lia.
Qed.

(** C23: A strand never runs two handlers at once, whichever threads and invokers the
    executor uses and however their operations interleave; while nothing is discarded by
    a shut-down it begins the handlers in the order in which they were enqueued, and
    otherwise a part of them in that order; and it loses none: the threads in the strand
    come to an end after a bounded number of operations, and when nothing is left to do
    the strand is unlocked and each enqueued handler was run once or, after a shut-down,
    destroyed. *)
Theorem strand_serializes s :
  strand_run strand_new s ->
  (forall t u, running_in_this_thread t s -> running_in_this_thread u s -> t = u) /\
  begun_ s `sublist_of` enqueued_ s /\
  (destroyed_ s = [] -> begun_ s `prefix_of` enqueued_ s) /\
  (forall n s', nsteps strand_step n s s' ->
    (n <= strand_weight s)%nat /\
    (nf strand_step s' ->
      locked_ s' = false /\ begun_ s' ++ destroyed_ s' ≡ₚ enqueued_ s' /\
      (destroyed_ s' = [] -> begun_ s' = enqueued_ s'))).
Proof.
  intros R. pose proof (strand_run_inv _ _ strand_new_inv R) as I. split_and!.
  - intros t u. by apply runs_alone.
  - etrans; [|apply (si_order _ I)]. by apply sublist_inserts_r.
  - intros D. rewrite <- (si_all _ I D). by apply prefix_app_r.
  - intros n s' H. destruct (strand_steps_weight n s s' I H) as [Hn I']. split; [lia|]. by apply strand_quiet.
Qed.

(** Three handlers: the second is enqueued while the first is on its way to the ready
    queue, the third while the first runs; then the second runs in a further invoker. *)
Definition strand_sample : strand_impl :=
  mk_strand true false [] [3] 0 [S_done; S_done; S_done; S_done; V_handler 2] [1; 2; 3] [1; 2] [].

Inductive strand_act := A_thread (t : nat) | A_run | A_enqueue (h : Z).

Definition strand_do (a : strand_act) (s : strand_impl) : option strand_impl :=
  match a with
  | A_thread t => strand_thread t false s
  | A_run => run_invoker s
  | A_enqueue h => Some (s <| threads_ ::= fun l => l ++ [S_enqueue h] |>)
  end.

Fixpoint strand_play (l : list strand_act) (s : strand_impl) : option strand_impl :=
  match l with
  | [] => Some s
  | a :: l => s ← strand_do a s; strand_play l s
  end.

Lemma strand_play_run l s s' : strand_play l s = Some s' -> strand_run s s'.
Proof.
  revert s. induction l as [|a l IH]; intros s; cbn; [intros [= ->]; apply rtc_refl|].
  destruct (strand_do a s) as [s1|] eqn:E; [|done]. cbn. intros H. eapply rtc_l; [|by apply IH].
  destruct a as [t| |h]; cbn in E.
  - left. by apply (strand_step_thread t false).
  - left. by apply strand_step_run.
  - injection E as <-. right. apply (strand_submit _ h). by left.
Qed.

Lemma strand_sample_runs : strand_run strand_new strand_sample.
Proof.
  apply (strand_play_run [A_enqueue 1; A_enqueue 2; A_thread 0; A_thread 1; A_thread 0; A_thread 0; A_run; A_thread 2;
    A_enqueue 3; A_thread 3; A_thread 2; A_thread 2; A_thread 2; A_thread 2; A_run; A_thread 4]).
  by vm_compute.
Qed.

Lemma strand_serializes_witness :
  strand_run strand_new strand_sample /\ running_in_this_thread 4 strand_sample /\
  begun_ strand_sample `prefix_of` enqueued_ strand_sample.
Proof.
  split; [exact strand_sample_runs|]. split; [by eexists; split; [reflexivity|right]|].
  by apply (strand_serializes strand_sample strand_sample_runs).
Defined.
