(* ===== verification/Scheduler.v ===== *)
(** detail/scheduler.h, detail/impl/scheduler.cc and detail/posix_event.h: the scheduler
    of an io_context, whose queue of operations any number of threads run.

    A state has the fields of [scheduler] and the threads that are in one of its
    functions, each with the point it has reached and its [scheduler_thread_info]; a
    step is one operation of one thread, where a critical section of the scheduler's
    mutex is one operation.  Waiting on the condition variable, being woken, and running
    again are three steps, and a thread may wake without being signalled.  A thread that
    posts, stops or counts work is a thread of its own, also when a handler does it;
    what goes to the private queue of a thread is done by that thread.  Locking is
    enabled, which is the default.

    An operation is a number, with a flag that says whether the scheduler counts its
    work; the marker of the task is an operation of its own.  The list of operations
    that were posted, of those that reached the queue and of those that left it, and the
    work that the callers hold, are a history. *)
From S2P Require Import Prelude.

Inductive sop := Task_operation | Operation (counted : bool) (id : Z).

#[global] Instance sop_eq_dec : EqDecision sop.
Proof. solve_decision. Defined.

(** * posix_event

    Bit 0 of [state_] is the signal, the rest counts the waiters. *)
Definition ev_signal (state : Z) : Z := Z.lor state 1.
Definition ev_waiters (state : Z) : bool := 1 <? state.
Definition ev_clear (state : Z) : Z := Z.land state (Z.lnot 1).
Definition ev_signalled (state : Z) : bool := negb (Z.land state 1 =? 0).

(** * State *)

(** Which function a thread is in. *)
Inductive run_mode := Run | Run_one | Wait_one (usec : Z) | Poll | Poll_one.

#[global] Instance run_mode_eq_dec : EqDecision run_mode.
Proof. solve_decision. Defined.

Inductive sched_pc :=
(* run, run_one, wait_one, poll, poll_one *)
| T_enter (outer : option nat)           (* if (outstanding_work_ == 0) *)
| T_stop                                 (* stop(), return 0 *)
| T_poll (outer : option nat)            (* poll, poll_one: the lock, and the private queue of the outer call *)
| T_lock                                 (* the lock, and the critical section that follows *)
| T_signal (next : sched_pc)             (* pthread_cond_signal, then [next] *)
| T_sleep (timed : bool)                 (* pthread_cond_wait, pthread_cond_timedwait *)
| T_awake (timed : bool)                 (* it has returned, the lock is needed *)
| T_task (usec : Z)                      (* task_->run(usec, private_op_queue) *)
| T_task_work (thrown : bool)            (* ~task_cleanup: the private work is added *)
| T_task_lock (thrown : bool)            (* ~task_cleanup: the critical section, and what follows *)
| T_handler (counted : bool) (id : Z)    (* o->complete *)
| T_work (counted thrown : bool)         (* ~work_cleanup: the outstanding work *)
| T_work_stop (thrown : bool)            (* work_finished: stop() *)
| T_work_lock (thrown : bool)            (* ~work_cleanup: the private queue, and what follows *)
(* functions that threads call from anywhere *)
| C_started (ids : list Z)               (* post_immediate_completion(s), do_dispatch: work_started *)
| C_push (l : list sop)                  (* their critical section, and that of post_deferred_completion(s) *)
| C_finished                             (* work_finished *)
| C_stop                                 (* stop *)
| C_restart                              (* restart *)
| C_init                                 (* init_task *)
| C_shutdown (own : option nat)          (* shutdown: the critical section; [own] is thread_ *)
| C_join (own : nat)                     (* shutdown: thread_.join() *)
| C_destroy                              (* shutdown: while (!op_queue_.empty()) *)
| T_end.

#[global] Instance sched_pc_eq_dec : EqDecision sched_pc.
Proof. solve_decision. Defined.

Record sched_thread := mk_thread {
  t_mode : run_mode;
  t_pc : sched_pc;
  private_op_queue : list sop;
  private_outstanding_work : Z
}.

#[global] Instance eta_sched_thread : Eta sched_thread := fun t =>
  mk_thread (t_mode t) (t_pc t) (private_op_queue t) (private_outstanding_work t).

Record scheduler := mk_scheduler {
  state_ : Z;                          (* of wakeup_event_ *)
  task_ : bool;
  task_interrupted_ : bool;
  stopped_ : bool;
  shutdown_ : bool;
  outstanding_work_ : Z;
  op_queue_ : list sop;
  sched_threads_ : list sched_thread;
  (* history *)
  posted_ : list Z;
  queued_ : list Z;
  popped_ : list (Z * bool);           (* with whether it was run *)
  credits_ : Z                         (* work that callers have started and not finished, or that was destroyed *)
}.

#[global] Instance eta_scheduler : Eta scheduler := fun s =>
  mk_scheduler (state_ s) (task_ s) (task_interrupted_ s) (stopped_ s) (shutdown_ s) (outstanding_work_ s)
    (op_queue_ s) (sched_threads_ s) (posted_ s) (queued_ s) (popped_ s) (credits_ s).

(** The constructor; with a thread of its own, the scheduler holds a unit of work. *)
Definition scheduler_new (own_thread : bool) : scheduler :=
  let work := if own_thread then 1 else 0 in
  mk_scheduler 0 false true false false work [] (if own_thread then [mk_thread Run (T_enter None) [] 0] else [])
    [] [] [] work.

Definition op_ids (l : list sop) : list Z :=
  omap (fun o => match o with Operation _ id => Some id | Task_operation => None end) l.

Definition set_thread (t : nat) (th : sched_thread) (s : scheduler) : scheduler := s <| sched_threads_ ::= <[t := th]> |>.

Definition new_thread (mode : run_mode) (p : sched_pc) (s : scheduler) : scheduler :=
  s <| sched_threads_ ::= fun l => l ++ [mk_thread mode p [] 0] |>.

(** [op_queue_.push(ops)] *)
Definition push_ops (l : list sop) (s : scheduler) : scheduler :=
  s <| op_queue_ ::= fun q => q ++ l |> <| queued_ ::= fun q => q ++ op_ids l |>.

Definition more_handlers (l : list sop) : bool := negb (bool_decide (l = [])).

Definition min_usec (limit usec : Z) : Z := if (0 <=? limit) && (limit <? usec) then limit else usec.

(** * Waking threads *)

Definition awaken (th : sched_thread) : sched_thread :=
  match t_pc th with T_sleep timed => th <| t_pc := T_awake timed |> | _ => th end.

(** [if (!task_interrupted_ && task_) task_->interrupt()] *)
Definition interrupt_task (s : scheduler) : scheduler :=
  if negb (task_interrupted_ s) && task_ s then s <| task_interrupted_ := true |> else s.

Definition stop_all_threads (s : scheduler) : scheduler :=
  interrupt_task (s <| stopped_ := true |> <| state_ ::= ev_signal |> <| sched_threads_ ::= map awaken |>).

(** The functions below give the point where the thread goes on, and the state. *)
Definition unlock_and_signal_one (next : sched_pc) (s : scheduler) : sched_pc * scheduler :=
  let s := s <| state_ ::= ev_signal |> in
  (if ev_waiters (state_ s) then T_signal next else next, s).

Section Config.
Context (one_thread_ assume_continuation_ : bool) (task_usec_ wait_usec_ : Z).

Definition wake_one_thread_and_unlock (next : sched_pc) (s : scheduler) : sched_pc * scheduler :=
  if wait_usec_ =? 0 then (next, interrupt_task s)
  else
    let s := s <| state_ ::= ev_signal |> in
    if ev_waiters (state_ s) then (T_signal next, s) else (next, interrupt_task s).

(** * Taking from the queue *)

(** The part of [do_run_one], [do_wait_one] and [do_poll_one] that takes a handler. *)
Definition take_handler (counted : bool) (id : Z) (rest : list sop) (s : scheduler) : sched_pc * scheduler :=
  let s := s <| op_queue_ := rest |> <| popped_ ::= fun l => l ++ [(id, true)] |> in
  if more_handlers rest && negb one_thread_ then wake_one_thread_and_unlock (T_handler counted id) s
  else (T_handler counted id, s).

(** The part of [do_run_one] and [do_wait_one] that takes the task. *)
Definition take_task (usec : Z) (rest : list sop) (s : scheduler) : sched_pc * scheduler :=
  let more := more_handlers rest in
  let s := s <| op_queue_ := rest |> <| task_interrupted_ := more || (usec =? 0) |> in
  let next := T_task (if more then 0 else usec) in
  if more && negb one_thread_ && negb (wait_usec_ =? 0) then unlock_and_signal_one next s else (next, s).

(** From the head of the loop of [do_run_one]. *)
Definition do_run_one (s : scheduler) : sched_pc * scheduler :=
  if stopped_ s then (T_end, s)
  else
    match op_queue_ s with
    | Task_operation :: rest => take_task task_usec_ rest s
    | Operation counted id :: rest => take_handler counted id rest s
    | [] =>
        if wait_usec_ =? 0 then (T_lock, s)
        else (T_sleep (0 <? wait_usec_), s <| state_ ::= fun st => ev_clear st + 2 |>)
    end.

(** [do_wait_one] from its first look at the queue that finds it not empty, or its second. *)
Definition do_wait_one_front (usec : Z) (s : scheduler) : sched_pc * scheduler :=
  match op_queue_ s with
  | Task_operation :: rest => take_task (min_usec task_usec_ usec) rest s
  | Operation counted id :: rest => take_handler counted id rest s
  | [] => (T_end, s)
  end.

Definition do_wait_one (usec : Z) (s : scheduler) : sched_pc * scheduler :=
  if stopped_ s then (T_end, s)
  else
    match op_queue_ s with
    | [] => (T_sleep true, s <| state_ ::= fun st => ev_clear st + 2 |>)
    | _ => do_wait_one_front usec s
    end.

Definition do_poll_one (s : scheduler) : sched_pc * scheduler :=
  if stopped_ s then (T_end, s)
  else
    match op_queue_ s with
    | Task_operation :: rest => (T_task 0, s <| op_queue_ := rest |>)
    | Operation counted id :: rest => take_handler counted id rest s
    | [] => (T_end, s)
    end.

(** [do_wait_one] and [do_poll_one] behind the task. *)
Definition after_task (s : scheduler) : sched_pc * scheduler :=
  match op_queue_ s with
  | Task_operation :: _ => if one_thread_ then (T_end, s) else unlock_and_signal_one T_end s
  | Operation counted id :: rest => take_handler counted id rest s
  | [] => (T_end, s)
  end.

(** The critical section at the start of a turn. *)
Definition do_one (mode : run_mode) (s : scheduler) : sched_pc * scheduler :=
  match mode with
  | Run | Run_one => do_run_one s
  | Wait_one usec => do_wait_one usec s
  | Poll | Poll_one => do_poll_one s
  end.

(** [posix_event::wait] and [wait_for_usec] behind the wait. *)
Definition wait_returns (mode : run_mode) (timed : bool) (s : scheduler) : sched_pc * scheduler :=
  let s := s <| state_ ::= fun st => st - 2 |> in
  if timed then match mode with Wait_one _ => do_wait_one_front 0 s | _ => do_run_one s end
  else if ev_signalled (state_ s) then do_run_one s
  else (T_sleep false, s <| state_ ::= fun st => st + 2 |>).

(** The critical section of [~task_cleanup], and what follows it. *)
Definition task_returns (mode : run_mode) (thrown : bool) (ops : list sop) (s : scheduler) : sched_pc * scheduler :=
  let s := push_ops [Task_operation] (push_ops ops (s <| task_interrupted_ := true |>)) in
  if thrown then (T_end, s)
  else match mode with Run | Run_one => do_run_one s | _ => after_task s end.

(** Whether a thread goes on behind a handler. *)
Definition goes_on (mode : run_mode) : bool := match mode with Run | Poll => true | _ => false end.

(** The critical section of [~work_cleanup], and what follows it. *)
Definition handler_returns (mode : run_mode) (thrown : bool) (ops : list sop) (s : scheduler) : sched_pc * scheduler :=
  let s := push_ops ops s in
  if goes_on mode && negb thrown then do_one mode s else (T_end, s).

(** * Steps *)

(** Which thread does what. *)
Inductive sched_event :=
| E_step (t : nat)                                     (* the next operation of [t] *)
| E_signal (t : nat) (woken : option nat)              (* [t] signals: [woken] is the thread that wakes *)
| E_wake (t : nat)                                     (* [t] wakes by its timeout, or for no reason *)
| E_task_returns (t : nat) (ids : list Z) (thrown : bool)    (* the task has put [ids] in the private queue *)
| E_handler_returns (t : nat) (thrown : bool)
| E_post (t : nat) (is_continuation : bool) (ids : list Z)   (* post_immediate_completion(s) by the task or handler of [t] *)
| E_deferred (t : nat) (ids : list Z)                  (* post_deferred_completion(s), likewise *)
| E_compensating (t : nat)                             (* compensating_work_started, likewise *)
| E_run (mode : run_mode) (outer : option nat)         (* a call of run, run_one, ... *)
| E_call (p : sched_pc)                                (* a call of another function *)
| E_work_started.

Definition in_scheduler (p : sched_pc) : bool :=
  match p with T_handler _ _ | T_task _ => true | _ => false end.

(** What a caller may call. *)
Definition callable (p : sched_pc) : bool :=
  match p with
  | C_started _ | C_finished | C_stop | C_restart | C_init | C_shutdown _ => true
  | C_push l => forallb (fun o => match o with Operation false _ => true | _ => false end) l
  | _ => false
  end.

(** The next operation of a thread that needs no choice. *)
Definition thread_op (th : sched_thread) (s : scheduler) : option (sched_pc * scheduler) :=
  let mode := t_mode th in
  match t_pc th with
  | T_enter outer => Some (if outstanding_work_ s =? 0 then T_stop
                           else match mode with Poll | Poll_one => T_poll outer | _ => T_lock end, s)
  | T_stop | C_stop => Some (T_end, stop_all_threads s)
  | T_lock => Some (do_one mode s)
  | T_awake timed => Some (wait_returns mode timed s)
  | T_task_work thrown =>
      let n := private_outstanding_work th in
      Some (T_task_lock thrown, s <| outstanding_work_ ::= fun w => if 0 <? n then w + n else w |>)
  | T_task_lock thrown => Some (task_returns mode thrown (private_op_queue th) s)
  | T_work counted thrown =>
      let n := private_outstanding_work th in
      let s := s <| credits_ ::= fun c => if counted then c else c - 1 |> in
      if 1 <? n then Some (T_work_lock thrown, s <| outstanding_work_ ::= fun w => w + (n - 1) |>)
      else if n <? 1 then
        let s := s <| outstanding_work_ ::= fun w => w - 1 |> in
        Some (if outstanding_work_ s =? 0 then T_work_stop thrown else T_work_lock thrown, s)
      else Some (T_work_lock thrown, s)
  | T_work_stop thrown => Some (T_work_lock thrown, stop_all_threads s)
  | T_work_lock thrown => Some (handler_returns mode thrown (private_op_queue th) s)
  | C_started ids => Some (C_push (map (Operation true) ids), s <| outstanding_work_ ::= fun w => w + zlen ids |>)
  | C_push l => Some (wake_one_thread_and_unlock T_end (push_ops l s))
  | C_finished =>
      let s := s <| outstanding_work_ ::= fun w => w - 1 |> <| credits_ ::= fun c => c - 1 |> in
      Some (if outstanding_work_ s =? 0 then C_stop else T_end, s)
  | C_restart => Some (T_end, s <| stopped_ := false |>)
  | C_init =>
      Some (if negb (shutdown_ s) && negb (task_ s)
            then wake_one_thread_and_unlock T_end (push_ops [Task_operation] (s <| task_ := true |>))
            else (T_end, s))
  | C_shutdown own =>
      let s := s <| shutdown_ := true |> in
      Some (match own with Some u => (C_join u, stop_all_threads s) | None => (C_destroy, s) end)
  | C_destroy =>
      Some (match op_queue_ s with
            | [] => (T_end, s <| task_ := false |>)
            | Task_operation :: rest => (C_destroy, s <| op_queue_ := rest |>)
            | Operation counted id :: rest =>
                (C_destroy, s <| op_queue_ := rest |> <| popped_ ::= fun l => l ++ [(id, false)] |>
                              <| credits_ ::= fun c => if counted then c + 1 else c |>)
            end)
  | T_poll _ | C_join _ | T_signal _ | T_sleep _ | T_task _ | T_handler _ _ | T_end => None
  end.

(** The private work and queue are emptied where the cleanups do it. *)
Definition cleaned (th : sched_thread) : sched_thread :=
  match t_pc th with
  | T_task_work _ | T_work _ _ => th <| private_outstanding_work := 0 |>
  | T_task_lock _ | T_work_lock _ => th <| private_op_queue := [] |>
  | _ => th
  end.

(** The next operation of thread [t] with all it does. *)
Definition step_thread (t : nat) (s : scheduler) : option scheduler :=
  th ← sched_threads_ s !! t;
  match t_pc th with
  | T_poll outer =>
      (* nested in a handler of the same context: its private queue first *)
      let s :=
        match outer with
        | Some u =>
            if one_thread_ then
              match sched_threads_ s !! u with
              | Some o => set_thread u (o <| private_op_queue := [] |>) (push_ops (private_op_queue o) s)
              | None => s
              end
            else s
        | None => s
        end in
      th ← sched_threads_ s !! t;
      let '(p, s) := do_poll_one s in Some (set_thread t (th <| t_pc := p |>) s)
  | C_join u =>
      own ← sched_threads_ s !! u;
      if decide (t_pc own = T_end) then Some (set_thread t (th <| t_pc := C_destroy |>) s) else None
  | _ =>
      ps ← thread_op th s;
      Some (set_thread t ((cleaned th) <| t_pc := ps.1 |>) ps.2)
  end.

(** [pthread_cond_signal] wakes a thread if one waits. *)
Definition step_signal (t : nat) (woken : option nat) (s : scheduler) : option scheduler :=
  th ← sched_threads_ s !! t;
  match t_pc th with
  | T_signal next =>
      let s := set_thread t (th <| t_pc := next |>) s in
      match woken with
      | Some u =>
          w ← sched_threads_ s !! u;
          match t_pc w with T_sleep _ => Some (set_thread u (awaken w) s) | _ => None end
      | None => if existsb (fun w => match t_pc w with T_sleep _ => true | _ => false end) (sched_threads_ s) then None else Some s
      end
  | _ => None
  end.

Definition step_wake (t : nat) (s : scheduler) : option scheduler :=
  th ← sched_threads_ s !! t;
  match t_pc th with T_sleep _ => Some (set_thread t (awaken th) s) | _ => None end.

(** The task or a handler returns, or throws. *)
Definition step_returns (t : nat) (ids : list Z) (thrown : bool) (s : scheduler) : option scheduler :=
  th ← sched_threads_ s !! t;
  match t_pc th with
  | T_task _ =>
      Some (set_thread t (th <| t_pc := T_task_work thrown |>
                             <| private_op_queue ::= fun q => q ++ map (Operation false) ids |>)
             (s <| posted_ ::= fun l => l ++ ids |>))
  | T_handler counted _ =>
      if decide (ids = []) then Some (set_thread t (th <| t_pc := T_work counted thrown |>) s) else None
  | _ => None
  end.

(** A continuation goes to the private queue of the thread; [counted]: with its work. *)
Definition step_post (t : nat) (counted : bool) (ids : list Z) (s : scheduler) : option scheduler :=
  th ← sched_threads_ s !! t;
  if in_scheduler (t_pc th) then
    Some (set_thread t (th <| private_op_queue ::= fun q => q ++ map (Operation counted) ids |>
                           <| private_outstanding_work ::= fun n => if counted then n + zlen ids else n |>)
           (s <| posted_ ::= fun l => l ++ ids |>))
  else None.

Definition step_compensating (t : nat) (s : scheduler) : option scheduler :=
  th ← sched_threads_ s !! t;
  if in_scheduler (t_pc th)
  then Some (set_thread t (th <| private_outstanding_work ::= fun n => n + 1 |>) (s <| credits_ ::= fun c => c + 1 |>))
  else None.

(** What a call brings. *)
Definition posts (p : sched_pc) : list Z :=
  match p with C_started ids => ids | C_push l => op_ids l | _ => [] end.

Definition sched_do (e : sched_event) (s : scheduler) : option scheduler :=
  match e with
  | E_step t => step_thread t s
  | E_signal t woken => step_signal t woken s
  | E_wake t => step_wake t s
  | E_task_returns t ids thrown => step_returns t ids thrown s
  | E_handler_returns t thrown => step_returns t [] thrown s
  | E_post t is_continuation ids => if assume_continuation_ || is_continuation then step_post t true ids s else None
  | E_deferred t ids => if assume_continuation_ then step_post t false ids s else None
  | E_compensating t => step_compensating t s
  | E_run mode outer => Some (new_thread mode (T_enter outer) s)
  | E_call p => if callable p then Some (new_thread Run p (s <| posted_ ::= fun l => l ++ posts p |>)) else None
  | E_work_started => Some (s <| outstanding_work_ ::= fun w => w + 1 |> <| credits_ ::= fun c => c + 1 |>)
  end.

Definition sched_step (s s' : scheduler) : Prop := exists e, sched_do e s = Some s'.

Fixpoint sched_play (l : list sched_event) (s : scheduler) : option scheduler :=
  match l with
  | [] => Some s
  | e :: l => s ← sched_do e s; sched_play l s
  end.

Lemma sched_play_steps l s s' : sched_play l s = Some s' -> rtc sched_step s s'.
Proof.
  revert s. induction l as [|e l IH]; intros s; cbn [sched_play]; [intros [= ->]; apply rtc_refl|].
  destruct (sched_do e s) as [s1|] eqn:E; [|done]. intros H. eapply rtc_l; [by exists e|by apply IH].
Qed.
End Config.
