(* ===== verification/SchedulerOk.v ===== *)
(** What the scheduler keeps ([Scheduler]): its queue is first-in first-out, no
    operation is lost or run twice, one thread at most runs the task, the count of
    outstanding work is exact, and [state_] of the event counts its waiters. *)
From S2P Require Import Prelude Scheduler.

(** * Sums over lists *)

Fixpoint zsum {A} (f : A -> Z) (l : list A) : Z :=
  match l with [] => 0 | x :: l => f x + zsum f l end.

Lemma zsum_app {A} (f : A -> Z) l k : zsum f (l ++ k) = zsum f l + zsum f k.
Proof. induction l as [|x l IH]; cbn; lia. Qed.

Lemma zsum_map {A} (f : A -> Z) (g : A -> A) l : (forall x, f (g x) = f x) -> zsum f (map g l) = zsum f l.
Proof. intros H. induction l as [|x l IH]; cbn; [done|]. by rewrite H, IH. Qed.

Lemma zsum_insert {A} (f : A -> Z) l t x y : l !! t = Some x -> zsum f (<[t := y]> l) = zsum f l - f x + f y.
Proof.
  revert t. induction l as [|z l IH]; intros [|t] H; [done..| |].
  - injection H as ->. change (f y + zsum f l = f x + zsum f l - f x + f y). lia.
  - change (f z + zsum f (<[t := y]> l) = f z + zsum f l - f x + f y). rewrite (IH t H). lia.
Qed.

Lemma zsum_nonneg {A} (f : A -> Z) l : (forall x, 0 <= f x) -> 0 <= zsum f l.
Proof. intros H. induction l as [|x l IH]; cbn; [lia|]. specialize (H x). lia. Qed.

(** * Shares: what a thread has of each balance *)

Definition op_work (o : sop) : Z := match o with Operation true _ => 1 | _ => 0 end.
Definition op_task (o : sop) : Z := match o with Task_operation => 1 | _ => 0 end.

Fixpoint pc_work (p : sched_pc) : Z :=
  match p with
  | T_handler counted _ | T_work counted _ => if counted then 1 else 0
  | C_push l => zsum op_work l
  | T_signal p => pc_work p
  | _ => 0
  end.

Fixpoint pc_task (p : sched_pc) : Z :=
  match p with
  | T_task _ | T_task_work _ | T_task_lock _ => 1
  | C_push l => zsum op_task l
  | T_signal p => pc_task p
  | _ => 0
  end.

Fixpoint pc_wait (p : sched_pc) : Z :=
  match p with T_sleep _ | T_awake _ => 1 | T_signal p => pc_wait p | _ => 0 end.

Fixpoint pc_carries (p : sched_pc) : list Z :=
  match p with
  | C_started ids => ids
  | C_push l => op_ids l
  | T_signal p => pc_carries p
  | _ => []
  end.

Definition work_of (th : sched_thread) : Z :=
  zsum op_work (private_op_queue th) + pc_work (t_pc th) - private_outstanding_work th.
Definition task_of (th : sched_thread) : Z := zsum op_task (private_op_queue th) + pc_task (t_pc th).
Definition wait_of (th : sched_thread) : Z := pc_wait (t_pc th).
Definition carries (th : sched_thread) : list Z := op_ids (private_op_queue th) ++ pc_carries (t_pc th).

Definition waiters (s : scheduler) : Z := Z.shiftr (state_ s) 1.

(** A task that was not asked for has no operation; one that was has one at most. *)
Definition one_task (s : scheduler) (n : Z) : Prop := n <= 1 /\ (task_ s = false -> shutdown_ s = false -> n = 0).

Fixpoint pc_closing (p : sched_pc) : bool :=
  match p with C_join _ | C_destroy => true | T_signal p => pc_closing p | _ => false end.

Definition closing (th : sched_thread) : bool := pc_closing (t_pc th).

Definition fifo (s : scheduler) : Prop := map fst (popped_ s) ++ op_ids (op_queue_ s) = queued_ s.

Record sched_inv (s : scheduler) : Prop := {
  sv_fifo : fifo s;
  sv_all : queued_ s ++ concat (map carries (sched_threads_ s)) ≡ₚ posted_ s;
  sv_task : one_task s (zsum op_task (op_queue_ s) + zsum task_of (sched_threads_ s));
  sv_work : outstanding_work_ s = zsum op_work (op_queue_ s) + zsum work_of (sched_threads_ s) + credits_ s;
  sv_wait : waiters s = zsum wait_of (sched_threads_ s);
  sv_private : Forall (fun th => 0 <= private_outstanding_work th) (sched_threads_ s);
  sv_closing : shutdown_ s = false -> Forall (fun th => closing th = false) (sched_threads_ s)
}.

(** A thread goes from [th] to [th'] and the rest of the state from [s] to [s']. *)
Record moves (th th' : sched_thread) (s s' : scheduler) : Prop := {
  mv_fifo : fifo s -> fifo s';
  mv_all : queued_ s' ++ carries th' ++ posted_ s ≡ₚ queued_ s ++ carries th ++ posted_ s';
  mv_task n : 0 <= n ->
    one_task s (zsum op_task (op_queue_ s) + task_of th + n) -> one_task s' (zsum op_task (op_queue_ s') + task_of th' + n);
  mv_work : outstanding_work_ s' - zsum op_work (op_queue_ s') - work_of th' - credits_ s'
            = outstanding_work_ s - zsum op_work (op_queue_ s) - work_of th - credits_ s;
  mv_wait : waiters s' - wait_of th' = waiters s - wait_of th;
  mv_threads : sched_threads_ s' = sched_threads_ s \/ sched_threads_ s' = map awaken (sched_threads_ s);
  mv_private : 0 <= private_outstanding_work th -> 0 <= private_outstanding_work th';
  mv_shutdown : shutdown_ s' = false -> shutdown_ s = false;
  mv_closing : shutdown_ s' = false -> closing th = false -> closing th' = false
}.

Lemma awaken_awaken l : map awaken (map awaken l) = map awaken l.
Proof.
  rewrite map_map. apply map_ext. intros th. unfold awaken at 2 3. destruct (t_pc th) eqn:E; try done;
  unfold awaken; by rewrite E.
Qed.

#[global] Instance moves_refl th : Reflexive (moves th th).
Proof. split; auto. Qed.

Lemma moves_trans th1 th2 th3 s1 s2 s3 : moves th1 th2 s1 s2 -> moves th2 th3 s2 s3 -> moves th1 th3 s1 s3.
Proof.
  intros [A1 A2 A3 A4 A5 A6 A7 A8 A9] [B1 B2 B3 B4 B5 B6 B7 B8 B9]. split; auto; try lia.
  - apply (Permutation_app_inv_l (queued_ s2 ++ carries th2 ++ posted_ s2)).
    transitivity ((queued_ s2 ++ carries th2 ++ posted_ s1) ++ (queued_ s3 ++ carries th3 ++ posted_ s2)); [solve_Permutation|].
    rewrite A2, B2. solve_Permutation.
  - destruct A6 as [E|E], B6 as [F|F]; rewrite F, E; auto. right. apply awaken_awaken.
Qed.

(** The invariant of the state follows from the move of one thread. *)
Lemma task_of_nonneg th : 0 <= task_of th.
Proof.
  assert (forall l, 0 <= zsum op_task l) as H by (intros l; apply zsum_nonneg; by intros []).
  unfold task_of. specialize (H (private_op_queue th)) as H1.
  assert (0 <= pc_task (t_pc th)); [|lia]. induction (t_pc th); cbn; try lia; done.
Qed.

Lemma awaken_same th :
  work_of (awaken th) = work_of th /\ task_of (awaken th) = task_of th /\ wait_of (awaken th) = wait_of th /\
  carries (awaken th) = carries th /\ closing (awaken th) = closing th.
Proof.
  unfold awaken. destruct (t_pc th) eqn:E; try done.
  unfold work_of, task_of, wait_of, carries, closing. cbn. by rewrite E.
Qed.

(** Threads that only woke have the same shares. *)
Lemma woken_same l l' :
  l' = l \/ l' = map awaken l ->
  zsum task_of l' = zsum task_of l /\ zsum work_of l' = zsum work_of l /\ zsum wait_of l' = zsum wait_of l /\
  concat (map carries l') = concat (map carries l) /\
  (Forall (fun th => closing th = false) l -> Forall (fun th => closing th = false) l') /\
  (Forall (fun th => 0 <= private_outstanding_work th) l -> Forall (fun th => 0 <= private_outstanding_work th) l').
Proof.
  intros [->| ->]; [by split_and!|].
  split_and!; try (apply zsum_map; intros th; apply awaken_same).
  - rewrite map_map. f_equal. apply map_ext. intros th. apply awaken_same.
  - intros F. apply Forall_map, (Forall_impl _ _ _ F). intros th H. cbn.
    by destruct (awaken_same th) as (_ & _ & _ & _ & ->).
  - intros F. apply Forall_map, (Forall_impl _ _ _ F). intros th H. unfold awaken. cbn. by destruct (t_pc th).
Qed.

Lemma moves_inv t th th' s s' :
  sched_inv s -> sched_threads_ s !! t = Some th -> sched_threads_ s' = sched_threads_ s \/ awaken th = th ->
  moves th th' s s' -> sched_inv (set_thread t th' s').
Proof.
  intros [I1 I2 I3 I4 I5 Ip I6] E Ha [M1 M2 M3 M4 M5 M6 Mp M7 M8].
  destruct (woken_same _ _ M6) as (S1 & S2 & S3 & S4 & S5 & Sp).
  assert (sched_threads_ s' !! t = Some th) as E'.
  { destruct Ha as [->|Ha]; [done|]. destruct M6 as [->|M6]; [done|].
    rewrite M6, list_lookup_fmap, E. cbn. by rewrite Ha. }
  pose proof (fun f => zsum_insert f _ t th th' E') as Z. pose proof (concat_map_insert carries _ t th th' E') as C.
  pose proof (zsum_insert task_of _ t th (th <| t_pc := T_end |> <| private_op_queue := [] |>) E) as Zn.
  assert (0 <= zsum task_of (<[t := th <| t_pc := T_end |> <| private_op_queue := [] |>]> (sched_threads_ s))) as N
    by apply zsum_nonneg, task_of_nonneg.
  split; cbn.
  - by apply M1.
  - apply (Permutation_app_inv_r (carries th)). rewrite <- app_assoc, C, S4.
    apply (Permutation_app_inv_r (posted_ s)).
    transitivity ((queued_ s' ++ carries th' ++ posted_ s) ++ concat (map carries (sched_threads_ s))); [solve_Permutation|].
    rewrite M2, <- I2. transitivity ((queued_ s ++ concat (map carries (sched_threads_ s))) ++ carries th ++ posted_ s');
      [solve_Permutation|]. rewrite I2. solve_Permutation.
  - rewrite Z, S1. replace (_ + _) with (zsum op_task (op_queue_ s') + task_of th' + (zsum task_of (sched_threads_ s) - task_of th)) by lia.
    apply M3; [change (task_of (th <| t_pc := T_end |> <| private_op_queue := [] |>)) with 0 in Zn; lia|].
    replace (_ + _) with (zsum op_task (op_queue_ s) + zsum task_of (sched_threads_ s)) by lia. done.
  - rewrite Z, S2. lia.
  - change (waiters s' = zsum wait_of (<[t := th']> (sched_threads_ s'))). rewrite Z, S3. lia.
  - apply Forall_insert; [by apply Sp|]. apply Mp. rewrite Forall_lookup in Ip. by apply (Ip t).
  - intros Hs. apply Forall_insert; [by apply S5, I6, M7|]. apply M8; [done|].
    specialize (I6 (M7 Hs)). rewrite Forall_lookup in I6. by apply (I6 t).
Qed.

(** A thread that is new. *)
Lemma new_thread_inv mode p s ids :
  sched_inv s -> pc_work p = 0 -> pc_task p = 0 -> pc_wait p = 0 -> pc_carries p = ids -> closing (mk_thread mode p [] 0) = false ->
  sched_inv (new_thread mode p (s <| posted_ ::= fun l => l ++ ids |>)).
Proof.
  intros [I1 I2 I3 I4 I5 Ip I6] H1 H2 H3 H4 H5. set (th := mk_thread mode p [] 0) in *.
  assert (carries th = ids) as Hc by exact H4. assert (task_of th = 0) as Ht by (unfold task_of; cbn; lia).
  assert (work_of th = 0) as Hw by (unfold work_of; cbn; lia).
  split; unfold new_thread; cbn [sched_threads_ queued_ posted_ op_queue_ outstanding_work_ credits_ shutdown_ upd];
    rewrite ?zsum_app, ?map_app, ?concat_app; fold th; cbn [zsum map concat]; rewrite ?Hc, ?Ht, ?Hw.
  - exact I1.
  - rewrite app_nil_r, app_assoc, I2. done.
  - rewrite !Z.add_0_r. exact I3.
  - lia.
  - change (waiters s = zsum wait_of (sched_threads_ s) + (pc_wait p + 0)). lia.
  - apply Forall_app. split; [done|]. by constructor.
  - intros Hs. apply Forall_app. split; [by apply I6|]. by constructor.
Qed.

(** * The event *)

Lemma waiters_signal st : Z.shiftr (ev_signal st) 1 = Z.shiftr st 1.
Proof. unfold ev_signal. rewrite Z.shiftr_lor. apply Z.lor_0_r. Qed.

Lemma waiters_clear st : Z.shiftr (ev_clear st) 1 = Z.shiftr st 1.
Proof. unfold ev_clear. rewrite Z.shiftr_land. apply Z.land_m1_r. Qed.

Lemma waiters_add st n : Z.shiftr (st + n * 2) 1 = Z.shiftr st 1 + n.
Proof. rewrite !Z.shiftr_div_pow2 by lia. apply Z.div_add. lia. Qed.

Lemma waiters_leave st : Z.shiftr (st - 2) 1 = Z.shiftr st 1 - 1.
Proof. exact (waiters_add st (-1)). Qed.

Lemma ev_waiters_spec st : ev_waiters st = (0 <? Z.shiftr st 1).
Proof.
  unfold ev_waiters. rewrite Z.shiftr_div_pow2 by lia. change (2 ^ 1) with 2.
  pose proof (Z.div_mod st 2). pose proof (Z.mod_pos_bound st 2). destruct (Z.ltb_spec 1 st), (Z.ltb_spec 0 (st / 2)); lia.
Qed.

(** * The moves of the functions of the scheduler *)

Abbreviation at_pc th p := ((th) <| t_pc := p |>).

(** A move by which the thread gives nothing and takes nothing. *)
Ltac still := split; cbn; unfold work_of, task_of, wait_of, carries, waiters, closing, one_task, fifo; cbn; auto; try lia.

Lemma moves_state th s f : (forall st, Z.shiftr (f st) 1 = Z.shiftr st 1) -> moves th th s (s <| state_ ::= f |>).
Proof. intros H. still. by rewrite H. Qed.

Lemma interrupt_moves th s : moves th th s (interrupt_task s).
Proof. unfold interrupt_task. destruct (_ && _); [|done]. still. Qed.

Lemma stop_moves th s : moves th th s (stop_all_threads s).
Proof.
  unfold stop_all_threads. eapply moves_trans; [|apply interrupt_moves]. still. by rewrite waiters_signal.
Qed.

(** Where a thread takes nothing with it: what it does next does not matter. *)
Definition quiet (p : sched_pc) : Prop :=
  pc_work p = 0 /\ pc_task p = 0 /\ pc_wait p = 0 /\ pc_carries p = [].

Lemma quiet_moves th p q s : quiet p -> quiet q -> (closing (at_pc th p) = false -> closing (at_pc th q) = false) ->
  moves (at_pc th p) (at_pc th q) s s.
Proof.
  intros (A1 & A2 & A3 & A4) (B1 & B2 & B3 & B4) C.
  split; auto; unfold work_of, task_of, wait_of, carries; cbn; rewrite ?A1, ?A2, ?A3, ?A4, ?B1, ?B2, ?B3, ?B4; auto.
Qed.

Lemma signal_moves th p s : pc_wait p = 0 -> moves (at_pc th p) (at_pc th (T_signal p)) s s.
Proof. intros H. still. Qed.

Lemma unlock_moves th p s : pc_wait p = 0 ->
  let '(q, s') := unlock_and_signal_one p s in moves (at_pc th p) (at_pc th q) s s'.
Proof.
  intros H. unfold unlock_and_signal_one. cbn.
  assert (moves (at_pc th p) (at_pc th p) s (s <| state_ ::= ev_signal |>)) as M by apply moves_state, waiters_signal.
  destruct (ev_waiters _); [|done]. eapply moves_trans; [exact M|]. by apply signal_moves.
Qed.

Section Moves.
Context (one_thread_ assume_continuation_ : bool) (task_usec_ wait_usec_ : Z).

#[local] Abbreviation wake := (wake_one_thread_and_unlock wait_usec_).

Lemma wake_moves th p s : pc_wait p = 0 -> let '(q, s') := wake p s in moves (at_pc th p) (at_pc th q) s s'.
Proof.
  intros H. unfold wake_one_thread_and_unlock. cbn. destruct (_ =? 0); [apply interrupt_moves|].
  assert (moves (at_pc th p) (at_pc th p) s (s <| state_ ::= ev_signal |>)) as M by apply moves_state, waiters_signal.
  destruct (ev_waiters _); eapply moves_trans; [exact M|by apply signal_moves|exact M|apply interrupt_moves].
Qed.

Lemma take_handler_moves th counted id rest s :
  op_queue_ s = Operation counted id :: rest ->
  let '(q, s') := take_handler one_thread_ wait_usec_ counted id rest s in moves (at_pc th T_lock) (at_pc th q) s s'.
Proof.
  intros E. unfold take_handler. set (s1 := s <| op_queue_ := rest |> <| popped_ ::= fun l => l ++ [(id, true)] |>).
  assert (moves (at_pc th T_lock) (at_pc th (T_handler counted id)) s s1) as M.
  { still; rewrite E; cbn; [|auto|destruct counted; lia].
    intros <-. by rewrite map_app, <- app_assoc. }
  destruct (_ && _); [|done]. pose proof (wake_moves th (T_handler counted id) s1 eq_refl) as W.
  destruct (wake _ s1). by eapply moves_trans.
Qed.

Lemma take_task_moves th usec rest s :
  op_queue_ s = Task_operation :: rest ->
  let '(q, s') := take_task one_thread_ wait_usec_ usec rest s in moves (at_pc th T_lock) (at_pc th q) s s'.
Proof.
  intros E. unfold take_task. set (p := T_task _). set (s1 := s <| op_queue_ := rest |> <| task_interrupted_ := _ |>).
  assert (moves (at_pc th T_lock) (at_pc th p) s s1) as M.
  { still; rewrite E; cbn; auto. intros n _ [H1 H2]. split; [lia|]. intros Ht Hs. specialize (H2 Ht Hs). lia. }
  destruct (_ && _ && _); [|done]. pose proof (unlock_moves th p s1 eq_refl) as W.
  destruct (unlock_and_signal_one _ s1). by eapply moves_trans.
Qed.

Lemma sleep_moves th timed s : op_queue_ s = [] ->
  moves (at_pc th T_lock) (at_pc th (T_sleep timed)) s (s <| state_ ::= fun st => ev_clear st + 2 |>).
Proof. intros E. still. rewrite (waiters_add _ 1), waiters_clear. lia. Qed.

Lemma do_run_one_moves th s :
  let '(q, s') := do_run_one one_thread_ task_usec_ wait_usec_ s in moves (at_pc th T_lock) (at_pc th q) s s'.
Proof.
  unfold do_run_one. destruct (stopped_ s); [by apply quiet_moves|].
  destruct (op_queue_ s) as [|[|counted id] rest] eqn:E.
  - destruct (_ =? 0); [done|]. by apply sleep_moves.
  - by apply take_task_moves.
  - by apply take_handler_moves.
Qed.

Lemma do_wait_one_front_moves th usec s :
  let '(q, s') := do_wait_one_front one_thread_ task_usec_ wait_usec_ usec s in moves (at_pc th T_lock) (at_pc th q) s s'.
Proof.
  unfold do_wait_one_front. destruct (op_queue_ s) as [|[|counted id] rest] eqn:E.
  - by apply quiet_moves.
  - by apply take_task_moves.
  - by apply take_handler_moves.
Qed.

Lemma do_poll_one_moves th s :
  let '(q, s') := do_poll_one one_thread_ wait_usec_ s in moves (at_pc th T_lock) (at_pc th q) s s'.
Proof.
  unfold do_poll_one. destruct (stopped_ s); [by apply quiet_moves|].
  destruct (op_queue_ s) as [|[|counted id] rest] eqn:E.
  - by apply quiet_moves.
  - still; rewrite E; cbn; auto. intros n _ [H1 H2]. split; [lia|]. intros Ht Hs. specialize (H2 Ht Hs). lia.
  - by apply take_handler_moves.
Qed.

Lemma after_task_moves th s :
  let '(q, s') := after_task one_thread_ wait_usec_ s in moves (at_pc th T_lock) (at_pc th q) s s'.
Proof.
  unfold after_task. destruct (op_queue_ s) as [|[|counted id] rest] eqn:E.
  - by apply quiet_moves.
  - destruct one_thread_; [by apply quiet_moves|]. pose proof (unlock_moves th T_end s eq_refl) as M.
    destruct (unlock_and_signal_one _ s). eapply moves_trans; [by apply (quiet_moves th T_lock T_end)|done].
  - by apply take_handler_moves.
Qed.

Lemma do_one_moves th mode s :
  let '(q, s') := do_one one_thread_ task_usec_ wait_usec_ mode s in moves (at_pc th T_lock) (at_pc th q) s s'.
Proof.
  unfold do_one. destruct mode as [| |usec| |]; try apply do_run_one_moves; try apply do_poll_one_moves.
  unfold do_wait_one. destruct (stopped_ s); [by apply quiet_moves|].
  destruct (op_queue_ s) eqn:E; [by apply sleep_moves|apply do_wait_one_front_moves].
Qed.

Lemma op_ids_app l k : op_ids (l ++ k) = op_ids l ++ op_ids k.
Proof. apply omap_app. Qed.

(** What a thread has in its private queue, or brings, goes to the queue. *)
Lemma push_private_moves th p s :
  quiet p -> (closing th = false -> closing (at_pc th p) = false) -> pc_work (t_pc th) = 0 -> pc_wait (t_pc th) = 0 ->
  pc_carries (t_pc th) = [] -> pc_task (t_pc th) = 0 ->
  moves th (at_pc (th <| private_op_queue := [] |>) p) s (push_ops (private_op_queue th) s).
Proof.
  intros (A1 & A2 & A3 & A4) C B1 B2 B3 B4. unfold push_ops.
  still; rewrite ?A1, ?A2, ?A3, ?A4, ?B1, ?B2, ?B3, ?B4, ?op_ids_app, ?zsum_app; auto; try lia.
  - intros <-. apply app_assoc.
  - rewrite app_nil_r. solve_Permutation.
  - intros n _ [H1 H2]. split; [lia|]. intros Ht Hs. specialize (H2 Ht Hs). lia.
Qed.

Lemma push_moves th l s : t_pc th = C_push l -> moves th (at_pc th T_end) s (push_ops l s).
Proof.
  intros E. unfold push_ops. still; rewrite ?E, ?op_ids_app, ?zsum_app; cbn; auto; try lia.
  - intros <-. apply app_assoc.
  - solve_Permutation.
  - intros n _ [H1 H2]. split; [lia|]. intros Ht Hs. specialize (H2 Ht Hs). lia.
Qed.

Lemma wait_returns_moves th timed s : t_pc th = T_awake timed ->
  let '(q, s') := wait_returns one_thread_ task_usec_ wait_usec_ (t_mode th) timed s in moves th (at_pc th q) s s'.
Proof.
  intros E. unfold wait_returns. set (s1 := s <| state_ ::= fun st => st - 2 |>).
  assert (moves th (at_pc th T_lock) s s1) as M.
  { still; rewrite ?E; auto. cbn. rewrite waiters_leave. lia. }
  destruct timed.
  - pose proof (do_run_one_moves th s1) as R. pose proof (do_wait_one_front_moves th 0 s1) as W.
    destruct (do_run_one _ _ _ s1), (do_wait_one_front _ _ _ 0 s1), (t_mode th); by eapply moves_trans.
  - destruct (ev_signalled (state_ s1)).
    + pose proof (do_run_one_moves th s1) as R. destruct (do_run_one _ _ _ s1). by eapply moves_trans.
    + still; rewrite ?E; auto. cbn. replace (state_ s - 2 + 2) with (state_ s) by lia. lia.
Qed.

Lemma task_returns_moves th thrown s : t_pc th = T_task_lock thrown ->
  let '(q, s') := task_returns one_thread_ task_usec_ wait_usec_ (t_mode th) thrown (private_op_queue th) s in
  moves th (at_pc (th <| private_op_queue := [] |>) q) s s'.
Proof.
  intros E. unfold task_returns. set (s1 := push_ops [Task_operation] _). set (th1 := th <| private_op_queue := [] |>).
  assert (moves th (at_pc th1 T_lock) s s1) as M.
  { unfold s1, push_ops. still; rewrite ?E, ?op_ids_app, ?zsum_app; cbn; rewrite ?app_nil_r; auto; try lia.
    - intros <-. apply app_assoc.
    - solve_Permutation.
    - intros n _ [H1 H2]. split; [lia|]. intros Ht Hs. specialize (H2 Ht Hs). lia. }
  destruct thrown; [eapply moves_trans; [exact M|by apply (quiet_moves th1 T_lock T_end)]|].
  pose proof (do_run_one_moves th1 s1) as R. pose proof (after_task_moves th1 s1) as A.
  destruct (do_run_one _ _ _ s1), (after_task _ _ s1), (t_mode th); by eapply moves_trans.
Qed.

Lemma handler_returns_moves th thrown s : t_pc th = T_work_lock thrown ->
  let '(q, s') := handler_returns one_thread_ task_usec_ wait_usec_ (t_mode th) thrown (private_op_queue th) s in
  moves th (at_pc (th <| private_op_queue := [] |>) q) s s'.
Proof.
  intros E. unfold handler_returns. set (s1 := push_ops _ s). set (th1 := th <| private_op_queue := [] |>).
  assert (moves th (at_pc th1 T_lock) s s1) as M by (apply push_private_moves; by rewrite ?E).
  destruct (_ && _); [|eapply moves_trans; [exact M|by apply (quiet_moves th1 T_lock T_end)]].
  pose proof (do_one_moves th1 (t_mode th) s1) as D. destruct (do_one _ _ _ _ s1). by eapply moves_trans.
Qed.

#[local] Abbreviation op := (thread_op one_thread_ task_usec_ wait_usec_).

Lemma zsum_counted ids : zsum op_work (map (Operation true) ids) = zlen ids.
Proof. induction ids as [|x l IH]; [done|]. cbn. rewrite IH. unfold zlen. cbn. lia. Qed.

Lemma zsum_uncounted ids : zsum op_work (map (Operation false) ids) = 0.
Proof. by induction ids. Qed.

Lemma zsum_no_task c ids : zsum op_task (map (Operation c) ids) = 0.
Proof. by induction ids. Qed.

Lemma op_ids_operations c ids : op_ids (map (Operation c) ids) = ids.
Proof. unfold op_ids. induction ids as [|x l IH]; [done|]. cbn. by rewrite IH. Qed.

Lemma init_moves th s : t_pc th = C_init -> shutdown_ s = false -> task_ s = false ->
  moves th (at_pc th T_end) s (push_ops [Task_operation] (s <| task_ := true |>)).
Proof.
  intros E Hs Ht. unfold push_ops. still; rewrite ?E, ?op_ids_app, ?zsum_app; cbn; rewrite ?app_nil_r; auto; try lia.
  intros n Hn [H1 H2]. specialize (H2 Ht Hs). split; [lia|done].
Qed.

Lemma destroy_moves th s : t_pc th = C_destroy -> (shutdown_ s = false -> closing th = false) ->
  forall q s', op th s = Some (q, s') -> moves th (at_pc th q) s s'.
Proof.
  intros E C q s'. unfold thread_op. rewrite E. assert (shutdown_ s = true) as Hs.
  { destruct (shutdown_ s); [done|]. specialize (C eq_refl). unfold closing in C. by rewrite E in C. }
  destruct (op_queue_ s) as [|[|c id] rest] eqn:Eq; intros [= <- <-]; still; rewrite ?E, ?Eq; cbn; auto; try lia.
  - intros n _ [H1 H2]. split; [done|]. intros _ F. congruence.
  - intros n _ [H1 H2]. split; [lia|]. intros _ F. congruence.
  - intros <-. by rewrite map_app, <- app_assoc.
  - destruct c; lia.
Qed.

Lemma stop_then th p s : moves th (at_pc th p) s s -> moves th (at_pc th p) s (stop_all_threads s).
Proof. intros M. eapply moves_trans; [exact M|apply stop_moves]. Qed.

Lemma wake_then th s s1 q s' :
  moves th (at_pc th T_end) s s1 -> wake T_end s1 = (q, s') -> moves th (at_pc th q) s s'.
Proof.
  intros M H. pose proof (wake_moves th T_end s1 eq_refl) as W. rewrite H in W. by eapply moves_trans.
Qed.

Lemma thread_op_moves th s q s' :
  0 <= private_outstanding_work th -> (shutdown_ s = false -> closing th = false) ->
  op th s = Some (q, s') -> moves th (at_pc (cleaned th) q) s s'.
Proof.
  intros Hn C H. destruct th as [mode p pq n]. cbn in Hn.
  destruct p as [outer| |outer| |next|timed|timed|usec|thrown|thrown|c id|c thrown|thrown|thrown|ids|l| | | | |own|own| |];
    try discriminate H.
  - cbn in H. injection H as <- <-. still; destruct (_ =? 0), mode; auto.
  - injection H as <- <-. apply stop_then. still.
  - pose proof (do_one_moves (mk_thread mode T_lock pq n) mode s) as D. cbn in H.
    destruct (do_one _ _ _ mode s). by injection H as <- <-.
  - pose proof (wait_returns_moves (mk_thread mode (T_awake timed) pq n) timed s eq_refl) as D. cbn -[wait_returns] in H, D.
    destruct (wait_returns _ _ _ mode timed s). by injection H as <- <-.
  - cbn in H. injection H as <- <-. still. destruct (Z.ltb_spec 0 n); lia.
  - pose proof (task_returns_moves (mk_thread mode (T_task_lock thrown) pq n) thrown s eq_refl) as D. cbn -[task_returns] in H, D.
    destruct (task_returns _ _ _ mode thrown pq s). by injection H as <- <-.
  - cbn in H. destruct (Z.ltb_spec 1 n); [|destruct (Z.ltb_spec n 1)]; injection H as <- <-;
      [|destruct (_ =? 0)|]; still; destruct c; lia.
  - injection H as <- <-. apply stop_then. still.
  - pose proof (handler_returns_moves (mk_thread mode (T_work_lock thrown) pq n) thrown s eq_refl) as D.
    cbn -[handler_returns] in H, D. destruct (handler_returns _ _ _ mode thrown pq s). by injection H as <- <-.
  - cbn in H. injection H as <- <-. still; rewrite ?zsum_counted, ?zsum_no_task, ?op_ids_operations; auto; lia.
  - cbn -[wake_one_thread_and_unlock] in H. injection H as H. eapply wake_then; [|exact H]. by apply push_moves.
  - cbn in H. injection H as <- <-. destruct (_ =? 0); still.
  - injection H as <- <-. apply stop_then. still.
  - injection H as <- <-. still.
  - cbn -[wake_one_thread_and_unlock] in H. destruct (shutdown_ s) eqn:Es; [injection H as <- <-; still|].
    destruct (task_ s) eqn:Et; [injection H as <- <-; still|]. injection H as H.
    eapply wake_then; [|exact H]. by apply init_moves.
  - cbn in H. destruct own; injection H as <- <-; [apply (moves_trans _ (mk_thread mode (C_join n0) pq n) _ _ (s <| shutdown_ := true |>));
      [|apply stop_moves]|]; still; intros k _ [H1 H2]; split; auto; intros; congruence.
  - by apply (destroy_moves (mk_thread mode C_destroy pq n)).
Qed.

(** * The steps *)

Lemma drain_moves th s : moves th (th <| private_op_queue := [] |>) s (push_ops (private_op_queue th) s).
Proof.
  unfold push_ops. still; rewrite ?op_ids_app, ?zsum_app; auto; try lia.
  - intros <-. apply app_assoc.
  - solve_Permutation.
  - intros n _ [H1 H2]. split; [lia|]. intros Ht Hs. specialize (H2 Ht Hs). lia.
Qed.

Lemma thread_facts t th s : sched_inv s -> sched_threads_ s !! t = Some th ->
  0 <= private_outstanding_work th /\ (shutdown_ s = false -> closing th = false).
Proof.
  intros I E. pose proof (sv_private _ I) as P. pose proof (sv_closing _ I) as C. rewrite Forall_lookup in P.
  split; [by apply (P t)|]. intros Hs. specialize (C Hs). rewrite Forall_lookup in C. by apply (C t).
Qed.

Lemma step_op_inv t th s q s' : sched_inv s -> sched_threads_ s !! t = Some th -> op th s = Some (q, s') ->
  sched_inv (set_thread t (at_pc (cleaned th) q) s').
Proof.
  intros I E H. destruct (thread_facts t th s I E) as [Hn Hc].
  apply (moves_inv t th _ s s' I E); [|by apply thread_op_moves].
  destruct (t_pc th) eqn:Ep; try (right; unfold awaken; by rewrite Ep).
  unfold thread_op in H. by rewrite Ep in H.
Qed.

(** [poll] in a handler: the private queue of the call around it goes first. *)
Lemma poll_inv t th outer s : sched_inv s -> sched_threads_ s !! t = Some th -> t_pc th = T_poll outer ->
  let s1 := match outer with
            | Some u =>
                if one_thread_ then
                  match sched_threads_ s !! u with
                  | Some o => set_thread u (o <| private_op_queue := [] |>) (push_ops (private_op_queue o) s)
                  | None => s
                  end
                else s
            | None => s
            end in
  sched_inv s1 /\ exists th1, sched_threads_ s1 !! t = Some th1 /\ t_pc th1 = T_poll outer.
Proof.
  intros I E Ep. destruct outer as [u|]; [|by eauto]. destruct one_thread_; [|by eauto].
  destruct (sched_threads_ s !! u) as [o|] eqn:Eu; [|by eauto]. split.
  - apply (moves_inv u o _ s _ I Eu); [by left|apply drain_moves].
  - cbn. destruct (decide (u = t)) as [->|N].
    + eexists. rewrite list_lookup_insert_eq by (by eapply lookup_lt_Some). split; [done|]. cbn. congruence.
    + exists th. by rewrite list_lookup_insert_ne.
Qed.

Lemma step_poll_inv t th outer s : sched_inv s -> sched_threads_ s !! t = Some th -> t_pc th = T_poll outer ->
  let '(q, s') := do_poll_one one_thread_ wait_usec_ s in sched_inv (set_thread t (at_pc th q) s').
Proof.
  intros I E Ep. pose proof (do_poll_one_moves th s) as M. destruct (do_poll_one _ _ s) as [q s'].
  apply (moves_inv t th _ s s' I E); [right; unfold awaken; by rewrite Ep|].
  eapply moves_trans; [|exact M]. still; rewrite ?Ep; auto.
Qed.

Lemma step_thread_inv t s s' : sched_inv s -> step_thread one_thread_ task_usec_ wait_usec_ t s = Some s' -> sched_inv s'.
Proof.
  unfold step_thread. intros I. destruct (sched_threads_ s !! t) as [th|] eqn:E; [|done]. cbn [mbind option_bind].
  destruct (t_pc th) eqn:Ep.
  all: try (intros H; destruct (op th s) as [[q s1]|] eqn:Eo; [|done]; injection H as <-;
            by apply (step_op_inv t th s)).
  - destruct (poll_inv t th outer s I E Ep) as [I1 (th1 & E1 & Ep1)].
    match goal with |- context [do_poll_one _ _ ?x] => set (s1 := x) in * end.
    rewrite E1. cbn [mbind option_bind]. pose proof (step_poll_inv t th1 outer s1 I1 E1 Ep1) as P.
    destruct (do_poll_one _ _ s1). by intros [= <-].
  - destruct (sched_threads_ s !! own) as [o|]; [|done]. cbn [mbind option_bind].
    destruct (decide _); [|done]. intros [= <-].
    apply (moves_inv t th _ s s I E); [by left|]. pose proof (thread_facts t th s I E) as [_ Hc].
    still; rewrite ?Ep; auto.
Qed.

Lemma awaken_moves th s : moves th (awaken th) s s.
Proof.
  destruct (awaken_same th) as (A1 & A2 & A3 & A4 & A5). split; rewrite ?A1, ?A2, ?A3, ?A4, ?A5; auto.
  intros H. unfold awaken. by destruct (t_pc th).
Qed.

Lemma step_signal_inv t woken s s' : sched_inv s -> step_signal t woken s = Some s' -> sched_inv s'.
Proof.
  unfold step_signal. intros I. destruct (sched_threads_ s !! t) as [th|] eqn:E; [|done]. cbn [mbind option_bind].
  destruct (t_pc th) as [| | | |next| | | | | | | | | | | | | | | | | | |] eqn:Ep; try done.
  assert (sched_inv (set_thread t (at_pc th next) s)) as I1.
  { apply (moves_inv t th _ s s I E); [by left|]. still; rewrite ?Ep; auto. }
  cbv zeta. set (s1 := set_thread t (at_pc th next) s) in *.
  destruct woken as [u|]; [|destruct (existsb _ _); [done|by intros [= <-]]].
  destruct (sched_threads_ s1 !! u) as [w|] eqn:Eu; [|done]. cbn [mbind option_bind].
  destruct (t_pc w) eqn:Ew; try done. intros [= <-].
  apply (moves_inv u w _ s1 s1 I1 Eu); [by left|apply awaken_moves].
Qed.

Lemma step_returns_inv t ids thrown s s' : sched_inv s -> step_returns t ids thrown s = Some s' -> sched_inv s'.
Proof.
  unfold step_returns. intros I. destruct (sched_threads_ s !! t) as [th|] eqn:E; [|done]. cbn [mbind option_bind].
  destruct (t_pc th) eqn:Ep; try done.
  - intros [= <-]. eapply (moves_inv t th); [done|done|by left|].
    still; rewrite ?Ep, ?op_ids_app, ?zsum_app, ?op_ids_operations, ?zsum_uncounted, ?zsum_no_task; auto; try (cbn; lia).
    + cbn. rewrite !app_nil_r. solve_Permutation.
    + cbn. by rewrite Z.add_0_r.
  - destruct (decide _); [|done]. intros [= <-]. eapply (moves_inv t th); [done|done|by left|].
    still; rewrite ?Ep; auto.
Qed.

Lemma step_post_inv t counted ids s s' : sched_inv s -> step_post t counted ids s = Some s' -> sched_inv s'.
Proof.
  unfold step_post. intros I. destruct (sched_threads_ s !! t) as [th|] eqn:E; [|done]. cbn [mbind option_bind].
  destruct (in_scheduler (t_pc th)) eqn:Ep; [|done].
  intros [= <-]. eapply (moves_inv t th); [done|done|by left|].
  still; rewrite ?op_ids_app, ?zsum_app, ?op_ids_operations, ?zsum_no_task; auto; try (cbn; lia).
  - solve_Permutation.
  - by rewrite Z.add_0_r.
  - destruct counted; rewrite ?zsum_counted, ?zsum_uncounted; lia.
  - destruct counted; unfold zlen; lia.
Qed.

Lemma sched_do_inv e s s' :
  sched_inv s -> sched_do one_thread_ assume_continuation_ task_usec_ wait_usec_ e s = Some s' -> sched_inv s'.
Proof.
  intros I. destruct e as [t|t woken|t|t ids thrown|t thrown|t cont ids|t ids|t|mode outer|p|]; cbn [sched_do].
  - by apply step_thread_inv.
  - by apply step_signal_inv.
  - unfold step_wake. destruct (sched_threads_ s !! t) as [th|] eqn:E; [|done]. cbn [mbind option_bind].
    destruct (t_pc th); try done. intros [= <-]. apply (moves_inv t th _ s s I E); [by left|apply awaken_moves].
  - by apply step_returns_inv.
  - by apply step_returns_inv.
  - destruct (_ || _); [by apply step_post_inv|done].
  - destruct assume_continuation_; [by apply step_post_inv|done].
  - unfold step_compensating. destruct (sched_threads_ s !! t) as [th|] eqn:E; [|done]. cbn [mbind option_bind].
    destruct (in_scheduler (t_pc th)); [|done]. intros [= <-]. eapply (moves_inv t th); [done|done|by left|]. still.
  - intros [= <-]. pose proof (new_thread_inv mode (T_enter outer) s [] I eq_refl eq_refl eq_refl eq_refl eq_refl) as N.
    assert (s <| posted_ ::= fun l => l ++ [] |> = s) as Es. { destruct s. unfold upd. cbn. by rewrite app_nil_r. }
    by rewrite Es in N.
  - destruct (callable p) eqn:Ec; [|done]. intros [= <-].
    assert (pc_work p = 0 /\ pc_task p = 0 /\ pc_wait p = 0 /\ pc_carries p = posts p /\ pc_closing p = false)
      as (H1 & H2 & H3 & H4 & H5).
    { destruct p as [| | | | | | | | | | | | | | |l| | | | | | | |]; try discriminate Ec; try (by split_and!).
      cbn in *. split_and!; try done; induction l as [|[|[] x] l IH]; cbn in *; auto; try done. }
    by apply new_thread_inv.
  - intros [= <-]. destruct I as [I1 I2 I3 I4 I5 Ip I6]. split; cbn; auto. lia.
Qed.

Lemma sched_steps_inv s s' :
  sched_inv s -> rtc (sched_step one_thread_ assume_continuation_ task_usec_ wait_usec_) s s' -> sched_inv s'.
Proof. intros I R. induction R as [|s s1 s2 [e H] _ IH]; [done|]. by apply IH, (sched_do_inv e s). Qed.

Lemma scheduler_new_inv own : sched_inv (scheduler_new own).
Proof.
  split; destruct own; cbn; try done; try (by repeat constructor); lia.
Qed.

Lemma zsum_lookup {A} (f : A -> Z) l t x : (forall x, 0 <= f x) -> l !! t = Some x -> f x <= zsum f l.
Proof.
  intros H. revert t. induction l as [|z l IH]; intros [|t] E; [done..| |]; cbn in *; pose proof (zsum_nonneg f l H).
  - injection E as ->. lia.
  - specialize (IH t E). specialize (H z). lia.
Qed.

Lemma zsum_two {A} (f : A -> Z) l t u x y :
  (forall x, 0 <= f x) -> l !! t = Some x -> l !! u = Some y -> 1 <= f x -> 1 <= f y -> zsum f l <= 1 -> t = u.
Proof.
  intros H E F Hx Hy S. revert t u E F S. induction l as [|z l IH]; intros [|t] [|u] E F S; [done..| | |]; cbn in *.
  - injection E as ->. pose proof (zsum_lookup f l u y H F). lia.
  - injection F as ->. pose proof (zsum_lookup f l t x H E). lia.
  - f_equal. apply (IH t u E F). specialize (H z). lia.
Qed.

(** A thread that runs the task, or is cleaning up behind it. *)
Definition in_task (t : nat) (s : scheduler) : Prop :=
  exists th, sched_threads_ s !! t = Some th /\ pc_task (t_pc th) = 1.

(** The units of work of operations that are in queues or run, less those that threads
    have still to add to the count. *)
Definition work_in_progress (s : scheduler) : Z := zsum op_work (op_queue_ s) + zsum work_of (sched_threads_ s).

(** C22: the scheduler keeps what it is given.  Whatever threads post, run, poll, wait,
    stop, restart and shut down, however the task and the handlers end, and in whatever
    order: operations leave the queue in the order in which they reached it; every
    operation that was posted is at exactly one place, the queue, the private queue
    of a thread, a thread that is posting it, or it has left the queue once; at most
    one thread runs the task; and the outstanding work is exactly that of the operations
    whose work is counted here and of what callers have started and not finished. *)
Theorem scheduler_keeps (own_thread : bool) (s : scheduler) :
  rtc (sched_step one_thread_ assume_continuation_ task_usec_ wait_usec_) (scheduler_new own_thread) s ->
  map fst (popped_ s) ++ op_ids (op_queue_ s) = queued_ s /\
  queued_ s ++ concat (map carries (sched_threads_ s)) ≡ₚ posted_ s /\
  (forall t u, in_task t s -> in_task u s -> t = u) /\
  outstanding_work_ s = work_in_progress s + credits_ s /\
  waiters s = zsum wait_of (sched_threads_ s).
Proof.
  intros R. destruct (sched_steps_inv _ _ (scheduler_new_inv own_thread) R) as [I1 I2 [I3 _] I4 I5 _ _].
  split_and!; try done. intros t u (th & E & Ht) (uh & F & Hu).
  assert (forall l, 0 <= zsum op_task l) as N by (intros l; apply zsum_nonneg; by intros []).
  apply (zsum_two task_of (sched_threads_ s) t u th uh task_of_nonneg E F).
  - unfold task_of. rewrite Ht. specialize (N (private_op_queue th)). lia.
  - unfold task_of. rewrite Hu. specialize (N (private_op_queue uh)). lia.
  - specialize (N (op_queue_ s)). lia.
Qed.
End Moves.
