(* ===== verification/SchedulerWake.v ===== *)
(** No wake-up of the scheduler is lost ([Scheduler]): as long as there is something in
    its queue, threads that sleep or wait in the task are on their way to it, or
    another thread is; and what this rests on, by an example. *)
From S2P Require Import Prelude Scheduler SchedulerOk.

(** A thread that gets to the queue without waiting for anything but the lock: [sig] is
    the signal of the event, [intr] whether the task was interrupted. *)
Fixpoint prompt_pc (mode : run_mode) (sig intr : bool) (p : sched_pc) : bool :=
  match p with
  | T_lock | T_poll _ => true
  | T_awake timed => timed || sig
  | T_task usec => (usec =? 0) || intr
  | T_task_work thrown | T_task_lock thrown => negb thrown
  | T_work _ thrown | T_work_stop thrown | T_work_lock thrown => goes_on mode && negb thrown
  | T_signal next => prompt_pc mode sig intr next
  | _ => false
  end.

(** A thread that waits: for the event, or in a task that nothing interrupts. *)
Definition stuck_pc (sig intr : bool) (p : sched_pc) : bool :=
  match p with
  | T_sleep _ => true
  | T_awake timed => negb (timed || sig)
  | T_task usec => negb ((usec =? 0) || intr)
  | _ => false
  end.

Definition asleep (p : sched_pc) : bool := match p with T_sleep _ => true | _ => false end.
Definition signals (p : sched_pc) : bool := match p with T_signal _ => true | _ => false end.

(** What follows a signal does not wait; the task does not throw, and there is no
    shut-down. *)
Definition pc_ok (p : sched_pc) : bool :=
  match p with
  | T_signal next => match next with T_handler _ _ | T_end => true | T_task usec => usec =? 0 | _ => false end
  | T_task_work thrown | T_task_lock thrown => negb thrown
  | C_shutdown _ | C_join _ | C_destroy => false
  | _ => true
  end.

Definition some (f : sched_thread -> bool) (s : scheduler) : Prop :=
  exists t th, sched_threads_ s !! t = Some th /\ f th = true.

Definition signalled (s : scheduler) : bool := ev_signalled (state_ s).
Definition prompt (s : scheduler) (th : sched_thread) : bool :=
  prompt_pc (t_mode th) (signalled s) (task_interrupted_ s) (t_pc th).
Definition stuck (s : scheduler) (th : sched_thread) : bool := stuck_pc (signalled s) (task_interrupted_ s) (t_pc th).

(** A thread is about to get to the queue, or about to wake one that sleeps. *)
Definition help (s : scheduler) : Prop :=
  some (prompt s) s \/
  signalled s = true /\ some (fun th => signals (t_pc th)) s /\ some (fun th => asleep (t_pc th)) s.

Record wake_inv (s : scheduler) : Prop := {
  wi_sched : sched_inv s;
  wi_pcs t th : sched_threads_ s !! t = Some th -> pc_ok (t_pc th) = true;
  wi_open : shutdown_ s = false;
  wi_stopped : stopped_ s = true -> signalled s = true /\ ~ some (stuck s) s;
  wi_help : stopped_ s = false -> op_queue_ s <> [] -> some (stuck s) s -> help s
}.

Lemma some_insert f t th th' l s :
  l !! t = Some th -> sched_threads_ s = <[t := th']> l ->
  some f s <-> f th' = true \/ exists u x, u <> t /\ l !! u = Some x /\ f x = true.
Proof.
  intros E Es. unfold some. rewrite Es. split.
  - intros (u & x & Hu & Hf). destruct (decide (u = t)) as [->|N].
    + rewrite list_lookup_insert_eq in Hu by (by eapply lookup_lt_Some). injection Hu as <-. by left.
    + rewrite list_lookup_insert_ne in Hu by done. right. by exists u, x.
  - intros [H|(u & x & N & Hu & Hf)].
    + exists t, th'. rewrite list_lookup_insert_eq by (by eapply lookup_lt_Some). done.
    + exists u, x. by rewrite list_lookup_insert_ne.
Qed.

Lemma some_at f s t th : sched_threads_ s !! t = Some th ->
  some f s <-> f th = true \/ exists u x, u <> t /\ sched_threads_ s !! u = Some x /\ f x = true.
Proof. intros E. apply (some_insert f t th th (sched_threads_ s) s E). by rewrite list_insert_id. Qed.

(** * Steps that do not touch the queue *)

(** One thread moves; what matters of the rest stays. *)
Lemma keep_help s s' t th th' :
  wake_inv s -> sched_threads_ s !! t = Some th -> sched_threads_ s' = <[t := th']> (sched_threads_ s) ->
  state_ s' = state_ s -> task_interrupted_ s' = task_interrupted_ s -> stopped_ s' = stopped_ s ->
  op_queue_ s' = op_queue_ s -> shutdown_ s' = false -> sched_inv s' ->
  signals (t_pc th) = false -> pc_ok (t_pc th') = true ->
  (stuck s th' = true -> stuck s th = true) -> (prompt s th = true -> prompt s th' = true) ->
  (asleep (t_pc th) = true -> signalled s = true -> prompt s th' = true) ->
  wake_inv s'.
Proof.
  intros [I1 I2 I3 I4 I5] E Et Es Ei Eo Eq Esh Iv Hsig Hok Hst Hpr Has.
  assert (signalled s' = signalled s) as Esg by (unfold signalled; by rewrite Es).
  assert (forall x, stuck s' x = stuck s x) as Sx by (intros x; unfold stuck; by rewrite Esg, Ei).
  assert (forall x, prompt s' x = prompt s x) as Px by (intros x; unfold prompt; by rewrite Esg, Ei).
  assert (some (stuck s') s' -> some (stuck s) s) as Hs.
  { rewrite (some_insert _ t th th' _ s' E Et), (some_at _ s t th E). setoid_rewrite Sx. intros [H|H]; auto. }
  split; [done| |done| |].
  - intros u x. rewrite Et. destruct (decide (u = t)) as [->|N].
    + rewrite list_lookup_insert_eq by (by eapply lookup_lt_Some). by intros [= <-].
    + rewrite list_lookup_insert_ne by done. apply I2.
  - rewrite Eo, Esg. intros H. destruct (I4 H). auto.
  - rewrite Eo, Eq. intros H1 H2 H3. specialize (I5 H1 H2 (Hs H3)). unfold help. rewrite Esg.
    rewrite !(some_insert _ t th th' _ s' E Et). destruct I5 as [P|(G & S1 & S2)].
    + left. apply (some_at _ s t th E) in P as [P|P]; [left; rewrite Px; auto|right].
      destruct P as (u & x & N & Hu & Hp). exists u, x. by rewrite Px.
    + apply (some_at _ s t th E) in S1, S2. destruct S1 as [S1|S1]; [by rewrite Hsig in S1|].
      destruct S2 as [S2|S2]; [left; left; rewrite Px; auto|]. right. auto.
Qed.

(** A thread that is new. *)
Lemma new_help s s' th' :
  wake_inv s -> sched_threads_ s' = sched_threads_ s ++ [th'] ->
  state_ s' = state_ s -> task_interrupted_ s' = task_interrupted_ s -> stopped_ s' = stopped_ s ->
  op_queue_ s' = op_queue_ s -> shutdown_ s' = false -> sched_inv s' ->
  pc_ok (t_pc th') = true -> stuck s th' = false -> wake_inv s'.
Proof.
  intros [I1 I2 I3 I4 I5] Et Es Ei Eo Eq Esh Iv Hok Hst.
  assert (signalled s' = signalled s) as Esg by (unfold signalled; by rewrite Es).
  assert (forall x, stuck s' x = stuck s x) as Sx by (intros x; unfold stuck; by rewrite Esg, Ei).
  assert (forall x, prompt s' x = prompt s x) as Px by (intros x; unfold prompt; by rewrite Esg, Ei).
  assert (forall f, some f s -> some f s') as Up.
  { intros f (t & x & Hx & Hf). exists t, x. split; [|done]. rewrite Et. by apply lookup_app_l_Some. }
  assert (some (stuck s') s' -> some (stuck s) s) as Hs.
  { intros (t & x & Hx & Hf). rewrite Sx in Hf. rewrite Et in Hx. apply lookup_app_Some in Hx as [Hx|[_ Hx]]; [by exists t, x|].
    apply list_lookup_singleton_Some in Hx as [_ <-]. congruence. }
  split; [done| |done| |].
  - intros u x. rewrite Et. intros [H|[_ H]]%lookup_app_Some; [by eapply I2|].
    by apply list_lookup_singleton_Some in H as [_ <-].
  - rewrite Eo, Esg. intros H. destruct (I4 H). auto.
  - rewrite Eo, Eq. intros H1 H2 H3. specialize (I5 H1 H2 (Hs H3)). unfold help. rewrite Esg.
    destruct I5 as [(t & x & Hx & Hp)|(G & S1 & S2)]; [left; apply Up; exists t, x; by rewrite Px|right; auto].
Qed.

(** * Critical sections *)

(** What a section has done if it leaves something in the queue: it signals a thread that
    waits; or goes on with a task that does not wait; or nobody waits, and nobody is in
    a task that is not interrupted. *)
Definition good (q : sched_pc) (s : scheduler) : Prop :=
  signals q = true /\ signalled s = true /\ ev_waiters (state_ s) = true \/
  q = T_task 0 \/
  stuck_pc true true q = false /\ ev_waiters (state_ s) = false /\
    (task_interrupted_ s = true \/ task_ s = false \/ 1 <= zsum op_task (op_queue_ s)).

Record prepares (s0 s : scheduler) : Prop := {
  pr_stopped : stopped_ s = stopped_ s0;
  pr_shutdown : shutdown_ s = shutdown_ s0;
  pr_threads : sched_threads_ s = sched_threads_ s0;
  pr_signalled : signalled s0 = true -> signalled s = true;
  pr_interrupted : task_interrupted_ s0 = true -> task_interrupted_ s = true
}.

Record outcome (s0 : scheduler) (q : sched_pc) (s : scheduler) : Prop := {
  oc_prepares : stopped_ s0 = true -> prepares s0 s;
  oc_stopped : stopped_ s = stopped_ s0;
  oc_shutdown : shutdown_ s = shutdown_ s0;
  oc_threads : sched_threads_ s = sched_threads_ s0;
  oc_pc_ok : pc_ok q = true;
  oc_waits : stopped_ s0 = true -> stuck_pc true (task_interrupted_ s) q = false;
  oc_good : stopped_ s = false -> op_queue_ s <> [] -> good q s
}.

#[global] Instance prepares_refl : Reflexive prepares.
Proof. by split. Qed.

Lemma prepares_trans s0 s1 s2 : prepares s0 s1 -> prepares s1 s2 -> prepares s0 s2.
Proof. intros [A1 A2 A3 A4 A5] [B1 B2 B3 B4 B5]. split; try congruence; auto. Qed.

Lemma outcome_prepared s0 s1 q s : prepares s0 s1 -> outcome s1 q s -> outcome s0 q s.
Proof.
  intros P [B1 B2 B3 B4 B5 B6 B7]. pose proof P as [A1 A2 A3 A4 A5].
  split; try congruence; auto; rewrite <- A1; [|done]. intros H. apply (prepares_trans _ _ _ P (B1 H)).
Qed.

Lemma wait_of_nonneg th : 0 <= wait_of th.
Proof. unfold wait_of. induction (t_pc th); cbn; try lia; done. Qed.

Lemma a_waiter s :
  sched_inv s -> (forall t th, sched_threads_ s !! t = Some th -> pc_ok (t_pc th) = true) ->
  0 < waiters s -> signalled s = true -> some (prompt s) s \/ some (fun th => asleep (t_pc th)) s.
Proof.
  intros I Ok W G. rewrite (sv_wait _ I) in W.
  assert (exists t th, sched_threads_ s !! t = Some th /\ 0 < wait_of th) as (t & th & E & P).
  { revert W. generalize (sched_threads_ s). clear. induction l as [|x l IH]; cbn; [lia|]. intros W.
    destruct (decide (0 < wait_of x)); [by exists 0%nat, x|].
    destruct IH as (t & th & E & P); [lia|]. by exists (S t), th. }
  specialize (Ok t th E). unfold wait_of in P. destruct (t_pc th) as [| | | |n|timed|timed| | | | | | | | | | | | | | | | |] eqn:Ep;
    cbn in P; try lia.
  - destruct n; cbn in *; try done; lia.
  - right. exists t, th. by rewrite Ep.
  - left. exists t, th. split; [done|]. unfold prompt. rewrite Ep, G. cbn. by destruct timed.
Qed.

Lemma no_waiter s : sched_inv s -> ev_waiters (state_ s) = false ->
  forall t th, sched_threads_ s !! t = Some th -> wait_of th = 0.
Proof.
  intros I W t th E. rewrite ev_waiters_spec in W. apply Z.ltb_ge in W.
  pose proof (zsum_lookup wait_of _ t th wait_of_nonneg E). pose proof (wait_of_nonneg th).
  pose proof (sv_wait _ I). unfold waiters in *. lia.
Qed.

(** The task is in the queue, or there is none: nobody runs it. *)
Lemma no_runner s t th usec : sched_inv s -> shutdown_ s = false -> task_ s = false \/ 1 <= zsum op_task (op_queue_ s) ->
  sched_threads_ s !! t = Some th -> t_pc th <> T_task usec.
Proof.
  intros I Hs H E Ep. destruct (sv_task _ I) as [H1 H2].
  pose proof (zsum_lookup task_of _ t th task_of_nonneg E) as L. unfold task_of at 1 in L. rewrite Ep in L.
  assert (forall l, 0 <= zsum op_task l) as N by (intros l; apply zsum_nonneg; by intros []).
  pose proof (N (private_op_queue th)). pose proof (N (op_queue_ s)). cbn in L.
  destruct H as [H|H]; [specialize (H2 H Hs)|]; lia.
Qed.

Lemma good_help s t th :
  sched_inv s -> shutdown_ s = false -> (forall u x, sched_threads_ s !! u = Some x -> pc_ok (t_pc x) = true) ->
  sched_threads_ s !! t = Some th -> good (t_pc th) s -> some (stuck s) s -> help s.
Proof.
  intros I Hs Ok E [(A1 & A2 & A3)|[A|(A1 & A2 & A3)]] H.
  - rewrite ev_waiters_spec in A3. apply Z.ltb_lt in A3.
    destruct (a_waiter s I Ok A3 A2) as [P|P]; [by left|]. right. split_and!; [done| |done]. by exists t, th.
  - left. exists t, th. split; [done|]. unfold prompt. by rewrite A.
  - exfalso. destruct H as (u & x & Eu & Hx). pose proof (no_waiter s I A2 u x Eu) as W.
    unfold stuck in Hx. unfold wait_of in W. destruct (t_pc x) eqn:Ex; cbn in *; try done.
    destruct A3 as [A3|A3]; [rewrite A3 in Hx; by destruct (_ =? 0)|]. by apply (no_runner s u x usec I Hs A3 Eu).
Qed.

Lemma outcome_inv s0 t th th' s :
  wake_inv s0 -> sched_threads_ s0 !! t = Some th -> sched_inv (set_thread t th' s) -> outcome s0 (t_pc th') s ->
  wake_inv (set_thread t th' s).
Proof.
  intros [I1 I2 I3 I4 I5] E Iv [O1 O2 O3 O4 O5 O6 O7].
  assert (sched_threads_ (set_thread t th' s) = <[t := th']> (sched_threads_ s0)) as Et by (cbn; by rewrite O4).
  assert (forall u x, sched_threads_ (set_thread t th' s) !! u = Some x -> pc_ok (t_pc x) = true) as Ok.
  { intros u x. rewrite Et. destruct (decide (u = t)) as [->|N].
    + rewrite list_lookup_insert_eq by (by eapply lookup_lt_Some). by intros [= <-].
    + rewrite list_lookup_insert_ne by done. apply I2. }
  assert (sched_threads_ (set_thread t th' s) !! t = Some th') as E'.
  { rewrite Et. by rewrite list_lookup_insert_eq by (by eapply lookup_lt_Some). }
  split; [done|done|by cbn; rewrite O3| |].
  - cbn. rewrite O2. intros H. destruct (I4 H) as [G N]. destruct (O1 H) as [_ _ _ P4 P5]. split; [by apply P4|].
    intros S. apply (some_insert _ t th th' _ _ E Et) in S as [S|(u & x & Nu & Hu & Hx)].
    + unfold stuck in S. change (signalled (set_thread t th' s)) with (signalled s) in S.
      rewrite (P4 G) in S. cbn in S. by rewrite (O6 H) in S.
    + apply N. exists u, x. split; [done|]. unfold stuck in *.
      change (signalled (set_thread t th' s)) with (signalled s) in Hx. rewrite (P4 G) in Hx. rewrite G. cbn in Hx.
      destruct (t_pc x); cbn in *; try done. destruct (task_interrupted_ s0); [|by destruct (task_interrupted_ s), (_ =? 0)].
      by rewrite (P5 eq_refl) in Hx.
  - intros H1 H2 H3. apply (good_help _ t th' Iv); [cbn; congruence|done|done| |done]. by apply O7.
Qed.

Lemma signalled_signal st : ev_signalled (ev_signal st) = true.
Proof.
  unfold ev_signalled, ev_signal. rewrite Z.land_lor_distr_l. change (Z.land 1 1) with 1.
  destruct (Z.eqb_spec (Z.lor (Z.land st 1) 1) 0) as [H|]; [|done]. by apply Z.lor_eq_0_iff in H as [_ H].
Qed.

Lemma signalled_even st n : ev_signalled (st + n * 2) = ev_signalled st.
Proof.
  unfold ev_signalled. do 2 f_equal. change 1 with (Z.ones 1). rewrite !Z.land_ones by lia.
  apply Z_mod_plus_full.
Qed.

Lemma prepares_push l s : prepares s (push_ops l s).
Proof. by split. Qed.

Lemma prepares_signal s : prepares s (s <| state_ ::= ev_signal |>).
Proof. split; try done. intros _. apply signalled_signal. Qed.

Lemma prepares_interrupt s : prepares s (interrupt_task s).
Proof. unfold interrupt_task. destruct (_ && _); by split. Qed.

Lemma interrupted s : task_interrupted_ (interrupt_task s) = true \/ task_ (interrupt_task s) = false.
Proof.
  unfold interrupt_task. destruct (task_interrupted_ s) eqn:Ei; [by left|]. destruct (task_ s) eqn:Et; [by left|by right].
Qed.

Lemma interrupt_state s : state_ (interrupt_task s) = state_ s.
Proof. unfold interrupt_task. by destruct (_ && _). Qed.

Section Outcomes.
Context (task_usec_ wait_usec_ : Z) (Hw : wait_usec_ <> 0).

#[local] Abbreviation wake := (wake_one_thread_and_unlock wait_usec_).

Lemma wake_outcome next s : pc_ok (T_signal next) = true -> (forall usec, next <> T_task usec) ->
  let '(q, s') := wake next s in outcome s q s'.
Proof.
  intros Ok Nt. assert (pc_ok next = true /\ forall intr, stuck_pc true intr next = false) as [Hok Hst].
  { destruct next; try done. by destruct (Nt usec). }
  unfold wake_one_thread_and_unlock. destruct (Z.eqb_spec wait_usec_ 0); [done|]. cbn.
  set (s1 := s <| state_ ::= ev_signal |>). destruct (ev_waiters (ev_signal (state_ s))) eqn:Ew.
  - split; try done; [intros _; apply prepares_signal|]. intros _ _. left. split_and!; [done|apply signalled_signal|done].
  - pose proof (prepares_trans _ _ _ (prepares_signal s) (prepares_interrupt s1)) as P. pose proof P as [P1 P2 P3 P4 P5].
    split; try done.
    intros _ _. right. right. split_and!; [done|by rewrite interrupt_state|]. destruct (interrupted s1); auto.
Qed.

Lemma take_handler_outcome counted id rest s :
  let '(q, s') := take_handler false wait_usec_ counted id rest s in outcome s q s'.
Proof.
  unfold take_handler. set (s1 := s <| op_queue_ := rest |> <| popped_ ::= fun l => l ++ [(id, true)] |>).
  assert (prepares s s1) as P by (by split).
  unfold more_handlers. rewrite andb_true_r. case_bool_decide as Er; cbn [negb].
  - split; try done.
  - pose proof (wake_outcome (T_handler counted id) s1 eq_refl) as O. destruct (wake _ s1).
    apply (outcome_prepared _ _ _ _ P), O. done.
Qed.

Lemma take_task_outcome usec rest s : (stopped_ s = true -> usec = 0) ->
  let '(q, s') := take_task false wait_usec_ usec rest s in outcome s q s'.
Proof.
  intros Hu. unfold take_task, more_handlers. rewrite andb_true_r. case_bool_decide as Er; cbn [negb orb andb].
  - split; try done.
    + intros H. rewrite (Hu H). by split.
    + intros H. by rewrite (Hu H).
  - destruct (Z.eqb_spec wait_usec_ 0); [done|]. cbn [negb andb]. unfold unlock_and_signal_one. cbn [fst snd].
    set (s1 := s <| op_queue_ := rest |> <| task_interrupted_ := true |>).
    assert (prepares s (s1 <| state_ ::= ev_signal |>)) as P.
    { eapply prepares_trans; [|apply prepares_signal]. by split. }
    cbn. destruct (ev_waiters (ev_signal (state_ s))) eqn:Ew; split; try done.
    + intros _ _. left. split_and!; [done|apply signalled_signal|done].
    + intros _ _. by right; left.
Qed.

Lemma do_run_one_outcome s : let '(q, s') := do_run_one false task_usec_ wait_usec_ s in outcome s q s'.
Proof.
  unfold do_run_one. destruct (stopped_ s) eqn:Es.
  { split; try done. intros H. congruence. }
  destruct (op_queue_ s) as [|[|counted id] rest] eqn:E.
  - destruct (Z.eqb_spec wait_usec_ 0); [done|]. split; try done; cbn; congruence.
  - apply take_task_outcome. congruence.
  - apply take_handler_outcome.
Qed.

Lemma min_usec_0 limit : min_usec limit 0 = 0.
Proof. unfold min_usec. destruct (Z.leb_spec 0 limit), (Z.ltb_spec limit 0); cbn; lia. Qed.

Lemma do_wait_one_front_outcome usec s : (stopped_ s = true -> usec = 0) ->
  let '(q, s') := do_wait_one_front false task_usec_ wait_usec_ usec s in outcome s q s'.
Proof.
  intros Hu. unfold do_wait_one_front. destruct (op_queue_ s) as [|[|counted id] rest] eqn:E.
  - split; try done.
  - apply take_task_outcome. intros H. rewrite (Hu H). apply min_usec_0.
  - apply take_handler_outcome.
Qed.

Lemma do_poll_one_outcome s : let '(q, s') := do_poll_one false wait_usec_ s in outcome s q s'.
Proof.
  unfold do_poll_one. destruct (stopped_ s) eqn:Es.
  { split; try done. intros H. congruence. }
  destruct (op_queue_ s) as [|[|counted id] rest] eqn:E.
  - split; try done.
  - split; try done. intros _ _. by right; left.
  - apply take_handler_outcome.
Qed.

Lemma after_task_outcome s : let '(q, s') := after_task false wait_usec_ s in outcome s q s'.
Proof.
  unfold after_task. destruct (op_queue_ s) as [|[|counted id] rest] eqn:E.
  - split; try done.
  - unfold unlock_and_signal_one. cbn. destruct (ev_waiters (ev_signal (state_ s))) eqn:Ew;
      split; try done; try (intros _; apply prepares_signal); intros _ _.
    + left. split_and!; [done|apply signalled_signal|done].
    + right. right. split_and!; [done|done|]. right. right. cbn. rewrite E. cbn.
      assert (0 <= zsum op_task rest) by (apply zsum_nonneg; by intros []). lia.
  - apply take_handler_outcome.
Qed.

Lemma do_one_outcome mode s : let '(q, s') := do_one false task_usec_ wait_usec_ mode s in outcome s q s'.
Proof.
  unfold do_one. destruct mode as [| |usec| |]; try apply do_run_one_outcome; try apply do_poll_one_outcome.
  unfold do_wait_one. destruct (stopped_ s) eqn:Es.
  { split; try done. intros H. congruence. }
  destruct (op_queue_ s) eqn:E.
  - split; try done; cbn; congruence.
  - apply do_wait_one_front_outcome. congruence.
Qed.

(** * Steps *)

#[local] Abbreviation step := (sched_do false).

(** What the theorem leaves out: a task that throws, a shut-down, and a thread that
    leaves the scheduler while it has operations in its private queue. *)
Definition allowed (e : sched_event) (s : scheduler) : Prop :=
  match e with
  | E_task_returns t _ thrown | E_handler_returns t thrown =>
      forall th usec, sched_threads_ s !! t = Some th -> t_pc th = T_task usec -> thrown = false
  | E_step t =>
      forall th thrown, sched_threads_ s !! t = Some th -> t_pc th = T_work_lock thrown ->
        goes_on (t_mode th) && negb thrown = false -> private_op_queue th = []
  | E_call (C_shutdown _) => False
  | _ => True
  end.

(** A step that leaves everything but the threads and the counts. *)
Lemma move_help s s1 t th th' :
  wake_inv s -> sched_threads_ s !! t = Some th -> sched_inv (set_thread t th' s1) ->
  sched_threads_ s1 = sched_threads_ s -> state_ s1 = state_ s -> task_interrupted_ s1 = task_interrupted_ s ->
  stopped_ s1 = stopped_ s -> op_queue_ s1 = op_queue_ s -> shutdown_ s1 = shutdown_ s ->
  signals (t_pc th) = false -> pc_ok (t_pc th') = true ->
  (stuck s th' = true -> stuck s th = true) -> (prompt s th = true -> prompt s th' = true) ->
  (asleep (t_pc th) = true -> signalled s = true -> prompt s th' = true) ->
  wake_inv (set_thread t th' s1).
Proof.
  intros W E Iv H1 H2 H3 H4 H5 H6 H7 H8 H9 H10 H11.
  apply (keep_help s _ t th th' W E); cbn; try done; [by rewrite H1|]. rewrite H6. apply (wi_open _ W).
Qed.

Lemma stop_inv s t th th' :
  wake_inv s -> sched_threads_ s !! t = Some th -> awaken th = th -> sched_inv (set_thread t th' (stop_all_threads s)) ->
  pc_ok (t_pc th') = true -> (forall intr, stuck_pc true intr (t_pc th') = false) ->
  wake_inv (set_thread t th' (stop_all_threads s)).
Proof.
  intros [I1 I2 I3 I4 I5] E Ea Iv Ok Hst.
  set (s1 := s <| stopped_ := true |> <| state_ ::= ev_signal |> <| sched_threads_ ::= map awaken |>).
  assert (stop_all_threads s = interrupt_task s1) as Es by done.
  assert (forall p, pc_ok p = true -> pc_ok (t_pc (awaken (mk_thread Run p [] 0))) = true) as Aok by (by intros []).
  assert (sched_threads_ (set_thread t th' (interrupt_task s1)) = <[t := th']> (map awaken (sched_threads_ s))) as Et.
  { cbn. unfold interrupt_task. by destruct (_ && _). }
  assert (map awaken (sched_threads_ s) !! t = Some th) as Em by (by rewrite list_lookup_fmap, E; cbn; rewrite Ea).
  assert (shutdown_ (set_thread t th' (interrupt_task s1)) = false) as Hs.
  { cbn. unfold interrupt_task. by destruct (_ && _). }
  assert (signalled (set_thread t th' (interrupt_task s1)) = true) as G.
  { unfold signalled. cbn. rewrite interrupt_state. apply signalled_signal. }
  rewrite Es in *. split; [done| |done| |].
  - intros u x. rewrite Et. destruct (decide (u = t)) as [->|N].
    + rewrite list_lookup_insert_eq by (by eapply lookup_lt_Some). by intros [= <-].
    + rewrite list_lookup_insert_ne by done. rewrite list_lookup_fmap. intros (y & Hy & ->)%fmap_Some.
      specialize (I2 u y Hy). unfold awaken. by destruct (t_pc y) eqn:Ey; cbn; rewrite ?Ey in *.
  - intros _. split; [done|]. intros (u & x & Hu & Hx). unfold stuck in Hx. rewrite G in Hx.
    destruct (decide (u = t)) as [->|N].
    { rewrite Et, list_lookup_insert_eq in Hu by (by eapply lookup_lt_Some). injection Hu as <-. by rewrite Hst in Hx. }
    rewrite Et, list_lookup_insert_ne, list_lookup_fmap in Hu by done. apply fmap_Some in Hu as (y & Hy & ->).
    assert (exists usec, t_pc (awaken y) = T_task usec) as [usec Ep].
    { unfold awaken in *. destruct (t_pc y) eqn:Ey; cbn in *; rewrite ?Ey in *; try done; [by destruct timed|by destruct timed|by eexists]. }
    rewrite Ep in Hx. cbn in Hx. destruct (interrupted s1) as [F|F].
    + change (task_interrupted_ (interrupt_task s1) = true) in F. rewrite F in Hx. by destruct (_ =? 0).
    + apply (no_runner _ u (awaken y) usec Iv Hs); [by left| |done].
      rewrite Et, list_lookup_insert_ne, list_lookup_fmap by done. by rewrite Hy.
  - cbn. unfold interrupt_task. by destruct (_ && _).
Qed.

#[local] Abbreviation op := (thread_op false task_usec_ wait_usec_).

Lemma prepares_leave s : prepares s (s <| state_ ::= fun st => st - 2 |>).
Proof. split; try done. intros H. rewrite <- H. exact (signalled_even (state_ s) (-1)). Qed.

(** A thread that has waited. *)
Lemma awake_help s t th timed q s1 :
  wake_inv s -> sched_threads_ s !! t = Some th -> t_pc th = T_awake timed ->
  wait_returns false task_usec_ wait_usec_ (t_mode th) timed s = (q, s1) ->
  sched_inv (set_thread t (at_pc th q) s1) -> wake_inv (set_thread t (at_pc th q) s1).
Proof.
  intros W E Ep H Iv. unfold wait_returns in H. pose proof (prepares_leave s) as P.
  set (s2 := s <| state_ ::= fun st => st - 2 |>) in *. pose proof (do_run_one_outcome s2) as O.
  pose proof (do_wait_one_front_outcome 0 s2 ltac:(done)) as O2.
  assert (forall q s1, outcome s2 q s1 -> sched_inv (set_thread t (at_pc th q) s1) -> wake_inv (set_thread t (at_pc th q) s1)) as K.
  { intros q' s' O' I'. apply (outcome_inv s t th); [done|done|done|]. by apply (outcome_prepared _ _ _ _ P). }
  destruct timed.
  - destruct (do_run_one _ _ _ s2) eqn:E1, (do_wait_one_front _ _ _ 0 s2) eqn:E2, (t_mode th); injection H as <- <-; by apply K.
  - destruct (ev_signalled (state_ s2)) eqn:G.
    + rewrite H in O. by apply K.
    + injection H as <- <-. assert (signalled s = false) as Gs.
      { rewrite <- G. symmetry. exact (signalled_even (state_ s) (-1)). }
      apply (move_help s _ t th _ W E Iv); cbn; try done; try lia; unfold stuck, prompt; rewrite ?Ep, ?Gs; cbn; try done.
Qed.

Lemma task_help s t th thrown q s1 :
  wake_inv s -> sched_threads_ s !! t = Some th -> t_pc th = T_task_lock thrown ->
  task_returns false task_usec_ wait_usec_ (t_mode th) thrown (private_op_queue th) s = (q, s1) ->
  sched_inv (set_thread t (at_pc (th <| private_op_queue := [] |>) q) s1) ->
  wake_inv (set_thread t (at_pc (th <| private_op_queue := [] |>) q) s1).
Proof.
  intros W E Ep H Iv. pose proof (wi_pcs _ W t th E) as Ok. rewrite Ep in Ok. destruct thrown; [done|].
  unfold task_returns in H. set (s2 := push_ops [Task_operation] _) in H.
  assert (prepares s s2) as P by (by split).
  apply (outcome_inv s t th); [done|done|done|]. apply (outcome_prepared _ _ _ _ P).
  pose proof (do_run_one_outcome s2) as O. pose proof (after_task_outcome s2) as O2. cbn.
  destruct (t_mode th); rewrite H in *; done.
Qed.

Lemma handler_help s t th thrown q s1 :
  wake_inv s -> sched_threads_ s !! t = Some th -> t_pc th = T_work_lock thrown ->
  (goes_on (t_mode th) && negb thrown = false -> private_op_queue th = []) ->
  handler_returns false task_usec_ wait_usec_ (t_mode th) thrown (private_op_queue th) s = (q, s1) ->
  sched_inv (set_thread t (at_pc (th <| private_op_queue := [] |>) q) s1) ->
  wake_inv (set_thread t (at_pc (th <| private_op_queue := [] |>) q) s1).
Proof.
  intros W E Ep Hp H Iv. unfold handler_returns in H. destruct (goes_on (t_mode th) && negb thrown) eqn:G.
  - apply (outcome_inv s t th); [done|done|done|]. apply (outcome_prepared _ _ _ _ (prepares_push (private_op_queue th) s)).
    pose proof (do_one_outcome (t_mode th) (push_ops (private_op_queue th) s)) as O. by rewrite H in O.
  - rewrite (Hp eq_refl) in *. injection H as <- <-.
    apply (move_help s _ t th _ W E Iv); cbn; rewrite ?Ep; try done; [apply app_nil_r|].
    unfold prompt. rewrite Ep. cbn. by rewrite G.
Qed.

(** The move of one thread that leaves everything but the counts. *)
Ltac shift W E Iv Ep :=
  match goal with
  | |- wake_inv (set_thread ?t _ ?s1) =>
      apply (move_help _ s1 t _ _ W E Iv); cbn; rewrite ?Ep; try done; unfold stuck, prompt; cbn; rewrite ?Ep; cbn;
      try done
  end.

Lemma restart_help s t th :
  wake_inv s -> sched_threads_ s !! t = Some th -> t_pc th = C_restart ->
  sched_inv (set_thread t (at_pc th T_end) (s <| stopped_ := false |>)) ->
  wake_inv (set_thread t (at_pc th T_end) (s <| stopped_ := false |>)).
Proof.
  intros W E Ep Iv. destruct (stopped_ s) eqn:Es; [|shift W E Iv Ep].
  pose proof W as [I1 I2 I3 I4 I5]. destruct (I4 Es) as [G N].
  split; [done| |done|done|].
  - intros u x. cbn. destruct (decide (u = t)) as [->|Nu].
    + rewrite list_lookup_insert_eq by (by eapply lookup_lt_Some). by intros [= <-].
    + rewrite list_lookup_insert_ne by done. apply I2.
  - intros _ _ S. destruct N. apply (some_at _ s t th E).
    set (s1 := set_thread t (at_pc th T_end) (s <| stopped_ := false |>)) in *.
    assert (some (stuck s) s1) as S1 by exact S.
    by apply (some_insert _ t th (at_pc th T_end) (sched_threads_ s) s1 E eq_refl) in S1 as [S1|S1]; [|right].
Qed.

Lemma thread_op_help s t th q s1 :
  wake_inv s -> sched_threads_ s !! t = Some th -> op th s = Some (q, s1) ->
  (forall thrown, t_pc th = T_work_lock thrown -> goes_on (t_mode th) && negb thrown = false -> private_op_queue th = []) ->
  wake_inv (set_thread t (at_pc (cleaned th) q) s1).
Proof.
  intros W E H Hp. pose proof (step_op_inv false task_usec_ wait_usec_ t th s q s1 (wi_sched _ W) E H) as Iv.
  pose proof (wi_pcs _ W t th E) as Ok. unfold thread_op in H.
  destruct (t_pc th) as [outer| |outer| |next|timed|timed|usec|thrown|thrown|c id|c thrown|thrown|thrown|ids|l| | | | |own|own| |] eqn:Ep;
    try discriminate H; try discriminate Ok; unfold cleaned in *; rewrite Ep in *.
  - injection H as <- <-. shift W E Iv Ep; destruct (_ =? 0), (t_mode th); done.
  - injection H as <- <-. apply (stop_inv s t th); try done. unfold awaken. by rewrite Ep.
  - apply (outcome_inv s t th); [done|done|done|]. pose proof (do_one_outcome (t_mode th) s) as O.
    injection H as H. by rewrite H in O.
  - injection H as H. by apply (awake_help s t th timed).
  - injection H as <- <-. shift W E Iv Ep.
  - injection H as H. by apply (task_help s t th thrown).
  - destruct (1 <? _); [|destruct (_ <? 1)]; injection H as <- <-; [|destruct (_ =? 0)|]; shift W E Iv Ep.
  - injection H as <- <-. apply (stop_inv s t th); try done. unfold awaken. by rewrite Ep.
  - injection H as H. apply (handler_help s t th thrown); try done. by apply Hp.
  - injection H as <- <-. shift W E Iv Ep.
  - injection H as H. apply (outcome_inv s t th); [done|done|done|].
    apply (outcome_prepared _ _ _ _ (prepares_push l s)). pose proof (wake_outcome T_end (push_ops l s) eq_refl) as O.
    rewrite H in O. by apply O.
  - injection H as <- <-. destruct (_ =? 0); shift W E Iv Ep.
  - injection H as <- <-. apply (stop_inv s t th); try done. unfold awaken. by rewrite Ep.
  - injection H as <- <-. by apply restart_help.
  - destruct (negb (shutdown_ s) && negb (task_ s)); [injection H as H|injection H as <- <-; shift W E Iv Ep].
    set (s2 := push_ops _ _) in H. assert (prepares s s2) as P by (by split).
    apply (outcome_inv s t th); [done|done|done|]. apply (outcome_prepared _ _ _ _ P).
    pose proof (wake_outcome T_end s2 eq_refl) as O. rewrite H in O. by apply O.
Qed.

Lemma step_thread_help s t s' :
  wake_inv s -> allowed (E_step t) s -> step_thread false task_usec_ wait_usec_ t s = Some s' -> wake_inv s'.
Proof.
  unfold step_thread. intros W A. destruct (sched_threads_ s !! t) as [th|] eqn:E; [|done]. cbn [mbind option_bind].
  pose proof (wi_pcs _ W t th E) as Ok. destruct (t_pc th) eqn:Ep.
  all: try (intros H; destruct (op th s) as [[q s1]|] eqn:Eo; [|done]; injection H as <-;
            apply (thread_op_help s t th q s1 W E Eo); intros b; exact (A th b E)).
  - pose proof (step_poll_inv false wait_usec_ t th outer s (wi_sched _ W) E Ep) as Iv.
    pose proof (do_poll_one_outcome s) as O. replace (match outer with Some _ => _ | None => s end) with s by (by destruct outer).
    rewrite E. cbn [mbind option_bind]. destruct (do_poll_one _ _ s) as [q s1]. intros [= <-].
    by apply (outcome_inv s t th).
  - discriminate Ok.
Qed.

Lemma some_step f s t th th' : sched_threads_ s !! t = Some th ->
  some f (set_thread t th' s) <-> f th' = true \/ exists u x, u <> t /\ sched_threads_ s !! u = Some x /\ f x = true.
Proof. intros E. by apply (some_insert f t th th' (sched_threads_ s)). Qed.

(** A signal without a thread to wake: none sleeps. *)
Lemma signal_none_help s t th next :
  wake_inv s -> sched_threads_ s !! t = Some th -> t_pc th = T_signal next -> sched_inv (set_thread t (at_pc th next) s) ->
  ~ some (fun w => asleep (t_pc w)) s -> wake_inv (set_thread t (at_pc th next) s).
Proof.
  intros [I1 I2 I3 I4 I5] E Ep Iv N. pose proof (I2 t th E) as Ok. rewrite Ep in Ok.
  assert (forall f s1, stuck_pc f s1 next = false /\ pc_ok next = true) as Hn.
  { intros f s1. destruct next; try done. cbn in *. by rewrite Ok. }
  assert (some (stuck (set_thread t (at_pc th next) s)) (set_thread t (at_pc th next) s) -> some (stuck s) s) as Hs.
  { intros S. apply (some_step _ s t th _ E) in S. apply (some_at _ s t th E). destruct S as [S|S]; [|by right].
    unfold stuck in S. cbn in S. by rewrite (proj1 (Hn _ _)) in S. }
  split; [done| |done| |].
  - intros u x. cbn. destruct (decide (u = t)) as [->|Nu].
    + rewrite list_lookup_insert_eq by (by eapply lookup_lt_Some). intros [= <-]. apply (Hn true true).
    + rewrite list_lookup_insert_ne by done. apply I2.
  - intros H. destruct (I4 H) as [G Ns]. split; [done|]. auto.
  - intros H1 H2 H3. destruct (I5 H1 H2 (Hs H3)) as [P|(_ & _ & A)]; [|done]. left.
    apply (some_at _ s t th E) in P. apply (some_step _ s t th _ E). destruct P as [P|P]; [left|by right].
    unfold prompt in *. rewrite Ep in P. exact P.
Qed.

(** The thread that is signalled wakes. *)
Lemma signal_one_help s t u th w next :
  wake_inv s -> sched_threads_ s !! t = Some th -> t_pc th = T_signal next ->
  sched_threads_ s !! u = Some w -> asleep (t_pc w) = true ->
  sched_inv (set_thread u (awaken w) (set_thread t (at_pc th next) s)) ->
  wake_inv (set_thread u (awaken w) (set_thread t (at_pc th next) s)).
Proof.
  intros [I1 I2 I3 I4 I5] E Ep Eu Ew Iv. pose proof (I2 t th E) as Ok. rewrite Ep in Ok.
  assert (t <> u) as N by (intros ->; rewrite E in Eu; injection Eu as <-; by rewrite Ep in Ew).
  set (s1 := set_thread t (at_pc th next) s) in *. set (s2 := set_thread u (awaken w) s1) in *.
  assert (sched_threads_ s1 !! u = Some w) as Eu1 by (cbn; by rewrite list_lookup_insert_ne).
  assert (forall f g, stuck_pc f g next = false /\ pc_ok next = true) as Hn.
  { intros f g. destruct next; try done. cbn in *. by rewrite Ok. }
  assert (some (stuck s2) s2 -> some (stuck s) s) as Hs.
  { intros S. apply (some_step _ s1 u w _ Eu1) in S as [S|(v & x & Nv & Hv & Hx)].
    - apply (some_at _ s u w Eu). left. unfold stuck. destruct (t_pc w); try done.
    - cbn in Hv. destruct (decide (v = t)) as [->|Nt].
      + rewrite list_lookup_insert_eq in Hv by (by eapply lookup_lt_Some). injection Hv as <-.
        unfold stuck in Hx. cbn in Hx. by rewrite (proj1 (Hn _ _)) in Hx.
      + rewrite list_lookup_insert_ne in Hv by done. by exists v, x. }
  split; [done| |done| |].
  - intros v x Hv. cbn in Hv. destruct (decide (v = u)) as [->|Nu].
    + rewrite list_lookup_insert_eq in Hv by (rewrite length_insert; by eapply lookup_lt_Some). injection Hv as <-.
      unfold awaken. by destruct (t_pc w).
    + rewrite list_lookup_insert_ne in Hv by done. destruct (decide (v = t)) as [->|Nt].
      * rewrite list_lookup_insert_eq in Hv by (by eapply lookup_lt_Some). injection Hv as <-. apply (Hn true true).
      * rewrite list_lookup_insert_ne in Hv by done. by apply (I2 v).
  - intros H. destruct (I4 H) as [G Ns]. split; [done|]. auto.
  - intros H1 H2 H3. left. destruct (I5 H1 H2 (Hs H3)) as [P|(G & _ & _)].
    + apply (some_step _ s1 u w _ Eu1). right. apply (some_at _ s t th E) in P as [P|(v & x & Nv & Hv & Hx)].
      * exists t, (at_pc th next). split; [done|]. split; [cbn; by rewrite list_lookup_insert_eq by (by eapply lookup_lt_Some)|].
        unfold prompt in *. rewrite Ep in P. exact P.
      * exists v, x. split; [|by cbn; rewrite list_lookup_insert_ne].
        intros ->. rewrite Eu in Hv. injection Hv as <-. unfold prompt in Hx. by destruct (t_pc w).
    + apply (some_step _ s1 u w _ Eu1). left. unfold prompt. change (signalled s2) with (signalled s). rewrite G.
      unfold awaken. destruct (t_pc w); try done. cbn. by destruct timed.
Qed.

Lemma step_signal_help s t woken s' : wake_inv s -> step_signal t woken s = Some s' -> wake_inv s'.
Proof.
  intros W H. pose proof (step_signal_inv t woken s s' (wi_sched _ W) H) as Iv. revert H. unfold step_signal.
  destruct (sched_threads_ s !! t) as [th|] eqn:E; [|done]. cbn [mbind option_bind].
  pose proof (wi_pcs _ W t th E) as Ok.
  destruct (t_pc th) as [| | | |next| | | | | | | | | | | | | | | | | | |] eqn:Ep; try done. cbv zeta.
  set (s1 := set_thread t (at_pc th next) s). destruct woken as [u|].
  - destruct (sched_threads_ s1 !! u) as [w|] eqn:Eu; [|done]. cbn [mbind option_bind].
    destruct (t_pc w) eqn:Ew; try done. intros [= <-].
    assert (u <> t) as N.
    { intros ->. cbn in Eu. rewrite list_lookup_insert_eq in Eu by (by eapply lookup_lt_Some). injection Eu as <-.
      cbn in Ew. subst next. done. }
    cbn in Eu. rewrite list_lookup_insert_ne in Eu by done.
    apply (signal_one_help s t u th w next); try done. by rewrite Ew.
  - destruct (existsb _ _) eqn:Ex; [done|]. intros [= <-]. apply signal_none_help; try done.
    intros (u & w & Hu & Aw). apply not_true_iff_false in Ex. apply Ex, existsb_exists.
    assert (u <> t) as N by (intros ->; rewrite E in Hu; injection Hu as <-; by rewrite Ep in Aw).
    exists w. split; [|by destruct (t_pc w)]. apply list_elem_of_In, list_elem_of_lookup. exists u. cbn.
    by rewrite list_lookup_insert_ne.
Qed.

Lemma step_wake_help s t s' : wake_inv s -> sched_inv s' -> step_wake t s = Some s' -> wake_inv s'.
Proof.
  unfold step_wake. intros W Iv. destruct (sched_threads_ s !! t) as [th|] eqn:E; [|done]. cbn [mbind option_bind].
  destruct (t_pc th) eqn:Ep; try done. intros [= <-].
  assert (t_pc (awaken th) = T_awake timed) as Ea by (unfold awaken; by rewrite Ep).
  apply (move_help s s t th (awaken th) W E Iv); rewrite ?Ep, ?Ea; try done.
  - by unfold stuck; rewrite Ep.
  - unfold prompt. by rewrite Ep.
  - intros _ G. unfold prompt. rewrite Ea, G. cbn. by destruct timed.
Qed.

Lemma step_returns_help s t ids thrown s' :
  wake_inv s -> sched_inv s' -> allowed (E_task_returns t ids thrown) s -> step_returns t ids thrown s = Some s' -> wake_inv s'.
Proof.
  unfold step_returns. intros W Iv A. destruct (sched_threads_ s !! t) as [th|] eqn:E; [|done]. cbn [mbind option_bind].
  destruct (t_pc th) eqn:Ep; try done.
  - rewrite (A th usec E Ep) in *. intros [= <-]. shift W E Iv Ep.
  - destruct (decide _); [|done]. intros [= <-]. shift W E Iv Ep.
Qed.

(** A thread in the task or a handler that only changes what is its own. *)
Lemma own_help s s1 t th th' :
  wake_inv s -> sched_threads_ s !! t = Some th -> in_scheduler (t_pc th) = true -> sched_inv (set_thread t th' s1) ->
  t_pc th' = t_pc th -> t_mode th' = t_mode th ->
  sched_threads_ s1 = sched_threads_ s -> state_ s1 = state_ s -> task_interrupted_ s1 = task_interrupted_ s ->
  stopped_ s1 = stopped_ s -> op_queue_ s1 = op_queue_ s -> shutdown_ s1 = shutdown_ s ->
  wake_inv (set_thread t th' s1).
Proof.
  intros W E Ep Iv Hp Hm H1 H2 H3 H4 H5 H6. apply (move_help s s1 t th th' W E Iv); try done.
  - by destruct (t_pc th).
  - rewrite Hp. apply (wi_pcs _ W t th E).
  - unfold stuck. by rewrite Hp.
  - unfold prompt. by rewrite Hp, Hm.
  - by destruct (t_pc th).
Qed.

Lemma sched_do_help assume_continuation_ e s s' :
  wake_inv s -> allowed e s -> sched_do false assume_continuation_ task_usec_ wait_usec_ e s = Some s' -> wake_inv s'.
Proof.
  intros W A H. pose proof (sched_do_inv _ _ _ _ e s s' (wi_sched _ W) H) as Iv.
  destruct e as [t|t woken|t|t ids thrown|t thrown|t cont ids|t ids|t|mode outer|p|]; cbn [sched_do] in H.
  - by apply (step_thread_help s t).
  - by apply (step_signal_help s t woken).
  - by apply (step_wake_help s t).
  - by apply (step_returns_help s t ids thrown).
  - by apply (step_returns_help s t [] thrown).
  - destruct (_ || _); [|done]. unfold step_post in H. destruct (sched_threads_ s !! t) as [th|] eqn:E; [|done].
    cbn [mbind option_bind] in H. destruct (in_scheduler (t_pc th)) eqn:Ep; [|done]. injection H as <-. by apply (own_help s _ t th).
  - destruct assume_continuation_; [|done]. unfold step_post in H. destruct (sched_threads_ s !! t) as [th|] eqn:E; [|done].
    cbn [mbind option_bind] in H. destruct (in_scheduler (t_pc th)) eqn:Ep; [|done]. injection H as <-. by apply (own_help s _ t th).
  - unfold step_compensating in H. destruct (sched_threads_ s !! t) as [th|] eqn:E; [|done].
    cbn [mbind option_bind] in H. destruct (in_scheduler (t_pc th)) eqn:Ep; [|done]. injection H as <-. by apply (own_help s _ t th).
  - injection H as <-. eapply (new_help s); try done. apply (wi_open _ W).
  - destruct (callable p) eqn:Ec; [|done]. injection H as <-. eapply (new_help s); try done; cbn.
    + apply (wi_open _ W).
    + by destruct p.
    + unfold stuck. cbn. by destruct p.
  - injection H as <-. destruct W as [I1 I2 I3 I4 I5]. by split.
Qed.
End Outcomes.

(** A step that the theorem is about. *)
Definition kept_step (assume_continuation_ : bool) (task_usec_ wait_usec_ : Z) (s s' : scheduler) : Prop :=
  exists e, allowed e s /\ sched_do false assume_continuation_ task_usec_ wait_usec_ e s = Some s'.


(** * Examples *)

(** Whether a step may be one of [kept_step]. *)
Definition allowed_now (e : sched_event) (s : scheduler) : bool :=
  match e with
  | E_task_returns _ _ thrown | E_handler_returns _ thrown => negb thrown
  | E_step t =>
      match sched_threads_ s !! t with
      | Some th => match t_pc th with T_work_lock _ => bool_decide (private_op_queue th = []) | _ => true end
      | None => true
      end
  | E_call (C_shutdown _) => false
  | _ => true
  end.

Lemma allowed_now_ok e s : allowed_now e s = true -> allowed e s.
Proof.
  destruct e as [t| | |t ids thrown|t thrown| | | | |p|]; cbn; try done.
  - intros H th thrown E Ep _. rewrite E, Ep in H. by apply bool_decide_eq_true in H.
  - intros H th usec _ _. by destruct thrown.
  - intros H th usec _ _. by destruct thrown.
  - by destruct p.
Qed.

Fixpoint kept_play (assume_continuation_ : bool) (task_usec_ wait_usec_ : Z) (l : list sched_event) (s : scheduler) : option scheduler :=
  match l with
  | [] => Some s
  | e :: l =>
      if allowed_now e s then
        s ← sched_do false assume_continuation_ task_usec_ wait_usec_ e s; kept_play assume_continuation_ task_usec_ wait_usec_ l s
      else None
  end.

Lemma kept_play_steps a tu wu l s s' : kept_play a tu wu l s = Some s' -> rtc (kept_step a tu wu) s s'.
Proof.
  revert s. induction l as [|e l IH]; intros s; cbn [kept_play]; [intros [= ->]; apply rtc_refl|].
  destruct (allowed_now e s) eqn:A; [|done]. destruct (sched_do _ _ _ _ e s) as [s1|] eqn:E; [|done].
  intros H. eapply rtc_l; [|by apply IH]. exists e. split; [by apply allowed_now_ok|done].
Qed.

(** A thread posts operation 1; a thread in [run_one] takes it, and one in [run] sleeps. *)
Definition busy_and_asleep : list sched_event :=
  [E_work_started; E_call (C_started [1]); E_step 0; E_step 0; E_run Run_one None; E_step 1; E_step 1;
   E_run Run None; E_step 2; E_step 2].

(** A further operation is pushed: the thread that pushes it is about to signal. *)
Definition pushed_run : list sched_event := busy_and_asleep ++ [E_call (C_started [2]); E_step 3; E_step 3].

Definition pushed_state : scheduler :=
  mk_scheduler 3 false true false false 3 [Operation true 2]
    [mk_thread Run T_end [] 0; mk_thread Run_one (T_handler true 1) [] 0; mk_thread Run (T_sleep false) [] 0;
     mk_thread Run (T_signal T_end) [] 0] [1; 2] [1; 2] [(1, true)] 1.

Lemma pushed_reached : rtc (kept_step false (-1) (-1)) (scheduler_new false) pushed_state.
Proof. by apply (kept_play_steps _ _ _ pushed_run). Qed.


Lemma scheduler_keeps_witness :
  popped_ pushed_state = [(1, true)] /\ map fst (popped_ pushed_state) ++ op_ids (op_queue_ pushed_state) = queued_ pushed_state.
Proof.
  split; [done|]. apply (scheduler_keeps false false (-1) (-1) false pushed_state).
  apply (sched_play_steps _ _ _ _ pushed_run). by vm_compute.
Defined.

(** What the theorem leaves out: the handler of the thread in [run_one] defers operation
    2, which goes to the private queue; the thread puts it in the queue as it leaves and
    wakes no one, and the thread in [run] sleeps on. *)
Example deferred_wakes_no_one :
  exists s, sched_play false false (-1) (-1)
    (busy_and_asleep ++ [E_post 1 true [2]; E_handler_returns 1 false; E_step 1; E_step 1]) (scheduler_new false) = Some s /\
  stopped_ s = false /\ op_queue_ s = [Operation true 2] /\
  map t_pc (sched_threads_ s) = [T_end; T_end; T_sleep false] /\ ~ help s.
Proof.
  eexists. split; [by vm_compute|]. split_and!; try done.
  intros [(t & th & E & H)|(_ & (t & th & E & H) & _)]; do 3 (destruct t as [|t]; [injection E as <-; done|]); done.
Qed.
