(* ===== verification/IoBuffers.v ===== *)
(** buffer.h and detail/consuming_buffers.h: buffers of the I/O core, and the
    sequences of them that composed operations consume.

    A buffer is an address and a size; the memory behind it is the list of its
    addresses.  What an operation transfers is told by these addresses, so that a
    statement about them covers reads, writes and copies. *)
From S2P Require Import Prelude.

(** * Buffers: [mutable_buffer] and [const_buffer] *)

Record io_buffer := mk_io_buffer { mb_data : Z; mb_size : Z }.

(** [operator+] *)
Definition buffer_add (b : io_buffer) (n : Z) : io_buffer :=
  let offset := if n <? mb_size b then n else mb_size b in
  mk_io_buffer (mb_data b + offset) (mb_size b - offset).

(** [buffer(b, max_size_in_bytes)] *)
Definition buffer_max (b : io_buffer) (max_size_in_bytes : Z) : io_buffer :=
  mk_io_buffer (mb_data b) (if mb_size b <? max_size_in_bytes then mb_size b else max_size_in_bytes).

Fixpoint buffer_size_from (total : Z) (l : list io_buffer) : Z :=
  match l with
  | [] => total
  | b :: l => buffer_size_from (u64 (total + mb_size b)) l
  end.

Definition io_buffer_size (l : list io_buffer) : Z := buffer_size_from 0 l.

Definition addrs (b : io_buffer) : list Z := seqZ (mb_data b) (mb_size b).

Definition all_addrs (l : list io_buffer) : list Z := concat (map addrs l).

#[global] Arguments all_addrs : simpl never.

Definition sizes_ok (l : list io_buffer) : Prop :=
  Forall (fun b => 0 <= mb_size b) l /\ zlen (all_addrs l) < 2 ^ 64.

Lemma zlen_addrs b : 0 <= mb_size b -> zlen (addrs b) = mb_size b.
Proof. intros H. unfold addrs, zlen. rewrite length_seqZ. lia. Qed.

Lemma all_addrs_cons b l : all_addrs (b :: l) = addrs b ++ all_addrs l.
Proof. done. Qed.

Lemma seqZ_split m n k : 0 <= k <= n -> seqZ m n = seqZ m k ++ seqZ (m + k) (n - k).
Proof. intros H. rewrite <- seqZ_app by lia. f_equal. lia. Qed.

Lemma zlen_seqZ m n : 0 <= n -> zlen (seqZ m n) = n.
Proof. intros H. unfold zlen. rewrite length_seqZ. lia. Qed.

Lemma addrs_add b n : 0 <= n -> 0 <= mb_size b -> addrs (buffer_add b n) = zdrop n (addrs b).
Proof.
  intros Hn Hb. unfold addrs, buffer_add. cbn [mb_data mb_size].
  destruct (Z.ltb_spec n (mb_size b)) as [L|L].
  - rewrite (seqZ_split (mb_data b) _ n) by lia.
    rewrite <- (zlen_seqZ (mb_data b) n) at 3 by lia. by rewrite zdrop_app.
  - rewrite Z.sub_diag. symmetry. apply zdrop_ge. by rewrite zlen_seqZ.
Qed.

Lemma addrs_max b n : 0 <= n -> 0 <= mb_size b -> addrs (buffer_max b n) = ztake n (addrs b).
Proof.
  intros Hn Hb. unfold addrs, buffer_max. cbn [mb_data mb_size].
  destruct (Z.ltb_spec (mb_size b) n) as [L|L].
  - symmetry. apply ztake_ge. rewrite zlen_seqZ; lia.
  - rewrite (seqZ_split (mb_data b) (mb_size b) n) by lia.
    rewrite <- (zlen_seqZ (mb_data b) n) at 2 by lia. by rewrite ztake_app.
Qed.

Lemma size_add b n : 0 <= n -> 0 <= mb_size b -> 0 <= mb_size (buffer_add b n) <= mb_size b.
Proof. intros. unfold buffer_add. cbn. destruct (Z.ltb_spec n (mb_size b)); lia. Qed.

Lemma size_max b n : mb_size (buffer_max b n) = Z.min (mb_size b) n.
Proof. unfold buffer_max. cbn. destruct (Z.ltb_spec (mb_size b) n); lia. Qed.

Lemma buffer_size_from_ok l total :
  Forall (fun b => 0 <= mb_size b) l -> 0 <= total -> total + zlen (all_addrs l) < 2 ^ 64 ->
  buffer_size_from total l = total + zlen (all_addrs l).
Proof.
  intros Hl. revert total. induction Hl as [|b l Hb Hl IH]; intros total Ht Hlt; cbn [buffer_size_from].
  - change (zlen (all_addrs [])) with 0. lia.
  - rewrite all_addrs_cons, zlen_app, zlen_addrs in * by done. pose proof (zlen_nonneg (all_addrs l)).
    rewrite u64_small by (unfold_width; lia). rewrite IH; lia.
Qed.

(** [buffer_size] is the number of bytes, while that fits a [size_t]. *)
Lemma io_buffer_size_ok l : sizes_ok l -> io_buffer_size l = zlen (all_addrs l).
Proof. intros [H1 H2]. unfold io_buffer_size. by rewrite buffer_size_from_ok. Qed.

(** * Sequences that are consumed *)

(** What composed operations use of [consuming_buffers]. *)
Class Consuming (C : Type) := {
  cb_empty : C -> bool;
  cb_prepare : Z -> C -> list io_buffer;
  cb_consume : Z -> C -> C;
  cb_total : C -> Z
}.

(** What it promises: the buffers prepared are the next ones, at least a byte of
    them, and consuming moves on. *)
Class ConsumingLaws (C : Type) `{Consuming C} := {
  cb_all : C -> list Z;
  cb_inv : C -> Prop;
  cb_total_bounds : forall c, cb_inv c -> 0 <= cb_total c <= zlen (cb_all c);
  cb_empty_iff : forall c, cb_inv c -> cb_empty c = (zlen (cb_all c) <=? cb_total c);
  cb_prepare_next : forall c n, cb_inv c -> 0 <= n ->
    let p := all_addrs (cb_prepare n c) in
    p `prefix_of` zdrop (cb_total c) (cb_all c) /\ zlen p <= n /\
    (0 < n -> cb_total c < zlen (cb_all c) -> 0 < zlen p);
  cb_consume_next : forall c n, cb_inv c -> 0 <= n <= zlen (cb_all c) - cb_total c ->
    cb_inv (cb_consume n c) /\ cb_total (cb_consume n c) = cb_total c + n /\
    cb_all (cb_consume n c) = cb_all c
}.

(** ** A list of buffers *)

Module Many.

(** The most buffers handed to one operation: 16, or the length of a shorter
    [std::array]. *)
Class MaxBuffers := max_buffers : nat.

Class MaxBuffersOk `{MaxBuffers} := max_buffers_pos : (0 < max_buffers)%nat.

Record consuming_buffers := mk_consuming {
  buffers_ : list io_buffer;
  total_size_ : Z;
  total_consumed_ : Z;
  next_elem_ : nat;
  next_elem_offset_ : Z
}.

Definition consuming_new (l : list io_buffer) : consuming_buffers :=
  mk_consuming l (io_buffer_size l) 0 O 0.

Definition empty (c : consuming_buffers) : bool := total_size_ c <=? total_consumed_ c.

Section Prepare.
Context `{MB : MaxBuffers}.

(** The loop of [prepare] from the buffer [next] on; [count] buffers are there. *)
Fixpoint prepare_loop (next : list io_buffer) (elem_offset max_size : Z) (count : nat) :
    list io_buffer :=
  match next with
  | [] => []
  | b :: next =>
      if (0 <? max_size) && (count <? max_buffers)%nat then
        let e := buffer_max (buffer_add b elem_offset) max_size in
        if 0 <? mb_size e
        then e :: prepare_loop next 0 (max_size - mb_size e) (S count)
        else prepare_loop next 0 (max_size - mb_size e) count
      else []
  end.

Definition prepare (max_size : Z) (c : consuming_buffers) : list io_buffer :=
  prepare_loop (drop (next_elem_ c) (buffers_ c)) (next_elem_offset_ c) max_size O.
End Prepare.

(** The loop of [consume]: the next element and the offset in it. *)
Fixpoint consume_loop (next : list io_buffer) (size : Z) (elem : nat) (offset : Z) : nat * Z :=
  match next with
  | [] => (elem, offset)
  | b :: next =>
      if 0 <? size then
        let next_buf := buffer_add b offset in
        if size <? mb_size next_buf then (elem, offset + size)
        else consume_loop next (size - mb_size next_buf) (S elem) 0
      else (elem, offset)
  end.

Definition consume (size : Z) (c : consuming_buffers) : consuming_buffers :=
  let '(elem, offset) :=
    consume_loop (drop (next_elem_ c) (buffers_ c)) size (next_elem_ c) (next_elem_offset_ c) in
  mk_consuming (buffers_ c) (total_size_ c) (u64 (total_consumed_ c + size)) elem offset.

(** The next element and the offset in it lie inside the list. *)
Definition offset_ok (next : list io_buffer) (offset : Z) : Prop :=
  0 <= offset /\ match next with b :: _ => offset <= mb_size b | [] => offset = 0 end.

Record many_inv (c : consuming_buffers) : Prop := {
  mi_sizes : sizes_ok (buffers_ c);
  mi_total : total_size_ c = zlen (all_addrs (buffers_ c));
  mi_consumed : 0 <= total_consumed_ c <= zlen (all_addrs (buffers_ c));
  mi_offset : offset_ok (drop (next_elem_ c) (buffers_ c)) (next_elem_offset_ c);
  mi_rest : zdrop (next_elem_offset_ c) (all_addrs (drop (next_elem_ c) (buffers_ c)))
            = zdrop (total_consumed_ c) (all_addrs (buffers_ c))
}.

Lemma rest_cons b next offset :
  0 <= mb_size b -> offset_ok (b :: next) offset ->
  zdrop offset (all_addrs (b :: next)) = addrs (buffer_add b offset) ++ all_addrs next.
Proof.
  intros Hb [H1 H2]. rewrite all_addrs_cons, addrs_add by done. apply zdrop_app_le.
  rewrite zlen_addrs; lia.
Qed.

Lemma offset_ok_0 next : Forall (fun b => 0 <= mb_size b) next -> offset_ok next 0.
Proof. intros H. split; [lia|]. by destruct H. Qed.

Lemma prepare_loop_next `{MB : MaxBuffers} next offset max_size count :
  Forall (fun b => 0 <= mb_size b) next -> offset_ok next offset -> 0 <= max_size ->
  let p := all_addrs (prepare_loop next offset max_size count) in
  p `prefix_of` zdrop offset (all_addrs next) /\ zlen p <= max_size /\
  (0 < max_size -> (count < max_buffers)%nat -> zdrop offset (all_addrs next) <> [] -> 0 < zlen p).
Proof.
  intros Hn. revert offset max_size count. induction Hn as [|b next Hb Hn IH]; intros offset max_size count Ho Hm.
  { cbn. split_and!; [apply prefix_nil|done|]. by destruct Ho as [_ ->]. }
  cbv zeta. rewrite rest_cons by done. cbn [prepare_loop].
  destruct (Z.ltb_spec 0 max_size) as [Lm|Lm]; cbn [andb].
  2:{ cbn. split_and!; [apply prefix_nil|done|lia]. }
  destruct (Nat.ltb_spec count max_buffers) as [Lc|Lc].
  2:{ cbn. split_and!; [apply prefix_nil|zlen_lia|lia]. }
  pose proof (size_add b offset (proj1 Ho) Hb) as Hs.
  set (nb := buffer_add b offset) in *. set (e := buffer_max nb max_size).
  assert (mb_size e = Z.min (mb_size nb) max_size) as Se by apply size_max.
  assert (addrs e = ztake max_size (addrs nb)) as Ae by (apply addrs_max; lia).
  assert (0 <= max_size - mb_size e) as Hm' by lia.
  destruct (Z.ltb_spec 0 (mb_size e)) as [Le|Le].
  - destruct (IH 0 (max_size - mb_size e) (S count) (offset_ok_0 _ Hn) Hm') as (P1 & P2 & _).
    change (zdrop 0 (all_addrs next)) with (all_addrs next) in P1.
    rewrite all_addrs_cons, zlen_app, zlen_addrs by lia. zlen_facts. split_and!; [|lia|lia].
    destruct (Z.le_gt_cases (mb_size nb) max_size) as [L|L].
    + rewrite Ae, ztake_ge by (rewrite zlen_addrs; lia). by apply prefix_app.
    + assert (all_addrs (prepare_loop next 0 (max_size - mb_size e) (S count)) = []) as ->.
      { apply zlen_0_nil. lia. }
      rewrite app_nil_r, Ae. exists (zdrop max_size (addrs nb) ++ all_addrs next).
      by rewrite app_assoc, ztake_zdrop.
  - destruct (IH 0 (max_size - mb_size e) count (offset_ok_0 _ Hn) Hm') as (P1 & P2 & P3).
    change (zdrop 0 (all_addrs next)) with (all_addrs next) in P1, P3.
    assert (addrs nb = []) as -> by (apply zlen_0_nil; rewrite zlen_addrs; lia). cbn [app].
    split_and!; [done|lia|]. intros _ _ R. apply P3; [lia|done|done].
Qed.

Lemma consume_loop_next next size elem offset :
  Forall (fun b => 0 <= mb_size b) next -> offset_ok next offset ->
  0 <= size <= zlen (zdrop offset (all_addrs next)) ->
  exists k offset', consume_loop next size elem offset = ((elem + k)%nat, offset') /\
    offset_ok (drop k next) offset' /\
    zdrop offset' (all_addrs (drop k next)) = zdrop size (zdrop offset (all_addrs next)).
Proof.
  intros Hn. revert size elem offset. induction Hn as [|b next Hb Hn IH]; intros size elem offset Ho Hs.
  { exists O, offset. cbn. rewrite Nat.add_0_r. destruct Ho as [? ->]. cbn in *.
    replace size with 0 by zlen_lia. done. }
  rewrite rest_cons in * by done. cbn [consume_loop].
  pose proof (size_add b offset (proj1 Ho) Hb) as Hsz. set (nb := buffer_add b offset) in *.
  rewrite zlen_app, zlen_addrs in Hs by lia.
  destruct (Z.ltb_spec 0 size) as [L|L].
  2:{ exists O, offset. rewrite Nat.add_0_r. split_and!; [done|done|]. cbn [drop].
      rewrite rest_cons by done. replace size with 0 by lia. done. }
  destruct (Z.ltb_spec size (mb_size nb)) as [L'|L'].
  - exists O, (offset + size). rewrite Nat.add_0_r. cbn [drop].
    assert (offset + size <= mb_size b).
    { unfold nb, buffer_add in L'. cbn in L'. destruct Ho as [? ?]. destruct (Z.ltb_spec offset (mb_size b)); lia. }
    assert (offset_ok (b :: next) (offset + size)) as Ho' by (destruct Ho; split; lia).
    split_and!; [done|done|]. rewrite rest_cons by done. rewrite zdrop_app_le by (rewrite zlen_addrs; lia).
    f_equal. unfold nb. rewrite !addrs_add by (destruct Ho; lia). unfold zdrop. rewrite drop_drop.
    f_equal. destruct Ho. lia.
  - destruct (IH (size - mb_size nb) (S elem) 0 (offset_ok_0 _ Hn)) as (k & o' & E & O' & R').
    { change (zdrop 0 (all_addrs next)) with (all_addrs next). lia. }
    exists (S k), o'. rewrite E. split_and!; [f_equal; lia|done|]. cbn [drop]. rewrite R'.
    change (zdrop 0 (all_addrs next)) with (all_addrs next).
    unfold zdrop at 2. rewrite drop_app_ge by (unfold addrs; rewrite length_seqZ; lia).
    unfold zdrop. f_equal. unfold addrs. rewrite length_seqZ. lia.
Qed.

Lemma many_new l : sizes_ok l -> many_inv (consuming_new l).
Proof.
  intros Hl. split; cbn; [done|by apply io_buffer_size_ok|zlen_lia| |done].
  apply offset_ok_0. by destruct Hl.
Qed.

#[global] Instance consuming_many `{MB : MaxBuffers} : Consuming consuming_buffers := {
  cb_empty := empty;
  cb_prepare := prepare;
  cb_consume := consume;
  cb_total := total_consumed_
}.

Lemma sizes_drop k l : sizes_ok l -> Forall (fun b => 0 <= mb_size b) (drop k l).
Proof. intros [H _]. by apply Forall_drop. Qed.

#[global] Instance consuming_many_laws `{MBO : MaxBuffersOk} : ConsumingLaws consuming_buffers.
Proof.
  refine {| cb_all := fun c => all_addrs (buffers_ c); cb_inv := many_inv |}; cbn.
  - by intros c [].
  - intros c Hi. unfold empty. by rewrite (mi_total _ Hi).
  - intros c n Hi Hn. unfold prepare. rewrite <- (mi_rest _ Hi).
    destruct (prepare_loop_next (drop (next_elem_ c) (buffers_ c)) (next_elem_offset_ c) n 0)
      as (P1 & P2 & P3); [by apply sizes_drop, (mi_sizes _ Hi)|apply (mi_offset _ Hi)|done|].
    split_and!; [done|done|]. intros L Lt. apply P3; [done|apply max_buffers_pos|].
    rewrite (mi_rest _ Hi). intros E%(f_equal zlen).
    rewrite zlen_zdrop, zlen_nil in E by (destruct (mi_consumed _ Hi); lia). lia.
  - intros c n [Hs Ht Hc Ho Hr] Hn. unfold consume.
    destruct (consume_loop_next (drop (next_elem_ c) (buffers_ c)) n (next_elem_ c) (next_elem_offset_ c))
      as (k & o & -> & Ho' & Hr'); [by apply sizes_drop|done| |].
    { rewrite Hr, zlen_zdrop; lia. }
    rewrite drop_drop in Ho', Hr'. cbn [buffers_ total_consumed_].
    rewrite u64_small by (destruct Hs; unfold_width; lia). split_and!; [|done|done].
    split; cbn; try done; [lia|]. rewrite Hr', Hr. unfold zdrop. rewrite drop_drop. f_equal. lia.
Defined.

End Many.

(** ** One buffer: [consuming_single_buffer] *)

Module Single.

Record consuming_single_buffer := mk_single { buffer_ : io_buffer; consumed_ : Z }.

Definition single_new (b : io_buffer) : consuming_single_buffer := mk_single b 0.

#[global] Instance consuming_single : Consuming consuming_single_buffer := {
  cb_empty := fun c => mb_size (buffer_ c) <=? consumed_ c;
  cb_prepare := fun max_size c => [buffer_max (buffer_add (buffer_ c) (consumed_ c)) max_size];
  cb_consume := fun size c => mk_single (buffer_ c) (u64 (consumed_ c + size));
  cb_total := consumed_
}.

Record single_inv (c : consuming_single_buffer) : Prop := {
  sn_size : is_u64 (mb_size (buffer_ c));
  sn_consumed : 0 <= consumed_ c <= mb_size (buffer_ c)
}.

#[global] Instance consuming_single_laws : ConsumingLaws consuming_single_buffer.
Proof.
  refine {| cb_all := fun c => addrs (buffer_ c); cb_inv := single_inv |}; cbn; intros c.
  - intros [Hs Hc]. rewrite zlen_addrs; unfold_width; lia.
  - intros [Hs Hc]. by rewrite zlen_addrs by (unfold_width; lia).
  - intros n [Hs Hc] Hn. assert (0 <= mb_size (buffer_ c)) by (unfold_width; lia).
    pose proof (size_add (buffer_ c) (consumed_ c) ltac:(lia) ltac:(lia)).
    unfold all_addrs. cbn. rewrite app_nil_r. rewrite addrs_max by lia.
    rewrite addrs_add by lia. set (r := zdrop _ _). zlen_facts.
    assert (zlen r = mb_size (buffer_ c) - consumed_ c) as Lr by (unfold r; rewrite zlen_zdrop; rewrite zlen_addrs; lia).
    split_and!.
    + exists (zdrop n r). by rewrite ztake_zdrop.
    + destruct (Z.le_gt_cases (zlen r) n); [rewrite ztake_ge; lia|rewrite zlen_ztake; lia].
    + rewrite zlen_addrs by lia. intros. destruct (Z.le_gt_cases (zlen r) n); [rewrite ztake_ge; lia|rewrite zlen_ztake; lia].
  - intros n [Hs Hc] Hn. assert (0 <= mb_size (buffer_ c)) by (unfold_width; lia).
    rewrite zlen_addrs in Hn by lia. rewrite u64_small by (unfold_width; lia). split_and!; [|done|done].
    split; cbn; [done|lia].
Defined.

End Single.

(** ** Two buffers: [consuming_buffers] of [std::array<Elem, 2>] *)

Module Pair.

Record consuming_pair := mk_pair { buffer0_ : io_buffer; buffer1_ : io_buffer; pair_consumed_ : Z }.

Definition pair_new (b0 b1 : io_buffer) : consuming_pair := mk_pair b0 b1 0.

Definition pair_prepare (max_size : Z) (c : consuming_pair) : list io_buffer :=
  let buffer0_size := mb_size (buffer0_ c) in
  let total := pair_consumed_ c in
  let r0 := buffer_max (buffer_add (buffer0_ c) total) max_size in
  let r1 := buffer_max (buffer_add (buffer1_ c) (if total <? buffer0_size then 0 else total - buffer0_size))
              (max_size - mb_size r0) in
  [r0; r1].

#[global] Instance consuming_two : Consuming consuming_pair := {
  cb_empty := fun c => u64 (mb_size (buffer0_ c) + mb_size (buffer1_ c)) <=? pair_consumed_ c;
  cb_prepare := pair_prepare;
  cb_consume := fun size c => mk_pair (buffer0_ c) (buffer1_ c) (u64 (pair_consumed_ c + size));
  cb_total := pair_consumed_
}.

Record pair_inv (c : consuming_pair) : Prop := {
  pr_sizes : sizes_ok [buffer0_ c; buffer1_ c];
  pr_consumed : 0 <= pair_consumed_ c <= mb_size (buffer0_ c) + mb_size (buffer1_ c)
}.

Lemma pair_addrs c :
  pair_inv c -> all_addrs [buffer0_ c; buffer1_ c] = addrs (buffer0_ c) ++ addrs (buffer1_ c) /\
    0 <= mb_size (buffer0_ c) /\ 0 <= mb_size (buffer1_ c) /\
    mb_size (buffer0_ c) + mb_size (buffer1_ c) < 2 ^ 64.
Proof.
  intros [[Hs Hl] Hc]. apply Forall_cons in Hs as [H0 Hs]. apply Forall_cons in Hs as [H1 _].
  assert (all_addrs [buffer0_ c; buffer1_ c] = addrs (buffer0_ c) ++ addrs (buffer1_ c)) as E
    by (unfold all_addrs; cbn; by rewrite app_nil_r).
  rewrite E, zlen_app, !zlen_addrs in Hl by done. done.
Qed.

(** The first buffers of two lists that follow each other. *)
Lemma prefix_two {A} (l k : list A) n :
  0 <= n -> ztake n l ++ ztake (n - Z.min (zlen l) n) k `prefix_of` l ++ k.
Proof.
  intros Hn. destruct (Z.le_gt_cases (zlen l) n) as [L|L].
  - rewrite (ztake_ge n l) by done. apply prefix_app. exists (zdrop (n - Z.min (zlen l) n) k).
    by rewrite ztake_zdrop.
  - replace (n - Z.min (zlen l) n) with 0 by lia. unfold ztake at 2. cbn. rewrite app_nil_r.
    exists (zdrop n l ++ k). by rewrite app_assoc, ztake_zdrop.
Qed.

Lemma zlen_ztake_min {A} n (l : list A) : 0 <= n -> zlen (ztake n l) = Z.min n (zlen l).
Proof. intros H. unfold zlen, ztake. rewrite length_take. lia. Qed.

Lemma pair_prepare_addrs max_size c :
  pair_inv c -> 0 <= max_size ->
  exists l k, zdrop (pair_consumed_ c) (addrs (buffer0_ c) ++ addrs (buffer1_ c)) = l ++ k /\
    all_addrs (pair_prepare max_size c) = ztake max_size l ++ ztake (max_size - Z.min (zlen l) max_size) k.
Proof.
  intros Hi Hm. destruct (pair_addrs c Hi) as (_ & H0 & H1 & _). destruct Hi as [_ Hc].
  unfold pair_prepare, all_addrs. cbn [map concat]. rewrite app_nil_r. set (n := pair_consumed_ c) in *.
  pose proof (size_add (buffer0_ c) n ltac:(lia) H0).
  exists (zdrop n (addrs (buffer0_ c))), (zdrop (if n <? mb_size (buffer0_ c) then 0 else n - mb_size (buffer0_ c)) (addrs (buffer1_ c))).
  assert (zlen (zdrop n (addrs (buffer0_ c))) = mb_size (buffer_add (buffer0_ c) n)) as E0.
  { rewrite <- addrs_add by lia. apply zlen_addrs. lia. }
  assert (0 <= if n <? mb_size (buffer0_ c) then 0 else n - mb_size (buffer0_ c)) as Hk
    by (destruct (Z.ltb_spec n (mb_size (buffer0_ c))); lia).
  pose proof (size_add (buffer1_ c) _ Hk H1). split.
  - destruct (Z.ltb_spec n (mb_size (buffer0_ c))) as [L|L].
    + rewrite zdrop_app_le by (rewrite zlen_addrs; lia). done.
    + rewrite (zdrop_ge n (addrs _)) by (rewrite zlen_addrs; lia). unfold zdrop at 1.
      rewrite drop_app_ge by (unfold addrs; rewrite length_seqZ; lia). unfold zdrop. cbn [app].
      f_equal. unfold addrs. rewrite length_seqZ. lia.
  - rewrite size_max, <- E0. rewrite !addrs_max, !addrs_add by (rewrite ?E0; lia). done.
Qed.

#[global] Instance consuming_two_laws : ConsumingLaws consuming_pair.
Proof.
  refine {| cb_all := fun c => all_addrs [buffer0_ c; buffer1_ c]; cb_inv := pair_inv |}; cbn; intros c.
  - intros Hi. destruct (pair_addrs c Hi) as (-> & ? & ? & _). destruct Hi as [_ Hc].
    rewrite zlen_app, !zlen_addrs; lia.
  - intros Hi. destruct (pair_addrs c Hi) as (-> & ? & ? & ?).
    rewrite zlen_app, !zlen_addrs, u64_small by (unfold_width; lia). done.
  - intros n Hi Hn. destruct (pair_addrs c Hi) as (-> & ? & ? & ?).
    destruct (pair_prepare_addrs n c Hi Hn) as (l & k & E & ->). rewrite E.
    assert (zlen l + zlen k = zlen (addrs (buffer0_ c) ++ addrs (buffer1_ c)) - pair_consumed_ c) as L.
    { rewrite <- zlen_app, <- E. apply zlen_zdrop. destruct Hi. rewrite zlen_app, !zlen_addrs; lia. }
    zlen_facts. pose proof (zlen_nonneg l). pose proof (zlen_nonneg k).
    split_and!; [by apply prefix_two| |]; rewrite ?zlen_app in *; rewrite !zlen_ztake_min by lia; lia.
  - intros n Hi Hn. destruct (pair_addrs c Hi) as (E & ? & ? & ?). rewrite E in Hn.
    rewrite zlen_app, !zlen_addrs in Hn by done. destruct Hi as [Hs Hc].
    rewrite u64_small by (unfold_width; lia). split_and!; [split; cbn; [done|lia]|done|done].
Defined.

End Pair.
