(* ===== verification/BufferCopy.v ===== *)
(** buffer.h: [buffer_copy], in its forms for single buffers and for sequences.

    A copy is the list of the pairs of addresses (target, source) that [memcpy]
    moves a byte between. *)
From S2P Require Import Prelude IoBuffers.

Definition copied := list (Z * Z).

Definition buffer_copy_1 (target source : io_buffer) : Z * copied :=
  let n := if mb_size target <? mb_size source then mb_size target else mb_size source in
  (n, if 0 <? n then zip (ztake n (addrs target)) (ztake n (addrs source)) else []).

(** [buffer_copy(one_buffer, one_buffer, ..., max_bytes_to_copy)] *)
Definition copy_one_one (target source : io_buffer) (max_bytes : Z) : Z * copied :=
  buffer_copy_1 target (buffer_max source max_bytes).

Fixpoint copy_to_one (target : io_buffer) (source : list io_buffer) (total : Z) (c : copied) : Z * copied :=
  if mb_size target =? 0 then (total, c)
  else
    match source with
    | [] => (total, c)
    | s :: source =>
        let '(n, c1) := buffer_copy_1 target s in
        copy_to_one (buffer_add target n) source (u64 (total + n)) (c ++ c1)
    end.

(** [buffer_copy(one_buffer, multiple_buffers, ..., max_bytes_to_copy)] *)
Definition copy_one_many (target : io_buffer) (source : list io_buffer) (max_bytes : Z) : Z * copied :=
  copy_to_one (buffer_max target max_bytes) source 0 [].

Fixpoint copy_from_one (target : list io_buffer) (source : io_buffer) (total : Z) (c : copied) : Z * copied :=
  if mb_size source =? 0 then (total, c)
  else
    match target with
    | [] => (total, c)
    | t :: target =>
        let '(n, c1) := buffer_copy_1 t source in
        copy_from_one target (buffer_add source n) (u64 (total + n)) (c ++ c1)
    end.

(** [buffer_copy(multiple_buffers, one_buffer, ..., max_bytes_to_copy)] *)
Definition copy_many_one (target : list io_buffer) (source : io_buffer) (max_bytes : Z) : Z * copied :=
  copy_from_one target (buffer_max source max_bytes) 0 [].

(** The next buffer and the offset in it, after [n] bytes of what was left of the
    first one. *)
Definition next_buffer (l : list io_buffer) (offset n : Z) (left : io_buffer) : list io_buffer * Z :=
  if n =? mb_size left then (tail l, 0) else (l, offset + n).

(** [buffer_copy(multiple_buffers, multiple_buffers, ...)], with
    [max_bytes_to_copy] or without.  Every turn finishes a buffer, or is the last. *)
Fixpoint copy_many (fuel : nat) (max_bytes : option Z) (target : list io_buffer) (target_offset : Z)
    (source : list io_buffer) (source_offset : Z) (total : Z) (c : copied) : res (Z * copied) :=
  if match max_bytes with Some m => total =? m | None => false end then Ok (total, c)
  else
    match target, source with
    | t :: _, s :: _ =>
        match fuel with
        | O => Throw Blocked
        | S fuel =>
            let tb := buffer_add t target_offset in
            let sb := buffer_add s source_offset in
            let '(n, c1) :=
              buffer_copy_1 tb (match max_bytes with Some m => buffer_max sb (m - total) | None => sb end) in
            let '(target, target_offset) := next_buffer target target_offset n tb in
            let '(source, source_offset) := next_buffer source source_offset n sb in
            copy_many fuel max_bytes target target_offset source source_offset (u64 (total + n)) (c ++ c1)
        end
    | _, _ => Ok (total, c)
    end.

Definition copy_many_many (target source : list io_buffer) (max_bytes : option Z) : res (Z * copied) :=
  copy_many (length target + length source) max_bytes target 0 source 0 0 [].

(** * What is copied *)

(** The first [m] pairs of two lists. *)
Definition limited (max_bytes : option Z) {A} (l : list A) : list A :=
  match max_bytes with Some m => ztake m l | None => l end.

Lemma zlen_zip {A B} (l : list A) (k : list B) : zlen (zip l k) = Z.min (zlen l) (zlen k).
Proof. unfold zlen. rewrite length_zip_with. lia. Qed.

Lemma zip_nil {A B} (l : list A) : zip l (@nil B) = [].
Proof. by destruct l. Qed.

Lemma ztake_zip {A B} n (l : list A) (k : list B) : zip (ztake n l) (ztake n k) = ztake n (zip l k).
Proof. symmetry. apply zip_with_take. Qed.

Lemma zdrop_zip {A B} n (l : list A) (k : list B) : zip (zdrop n l) (zdrop n k) = zdrop n (zip l k).
Proof. symmetry. apply zip_with_drop. Qed.

Lemma ztake_prefix {A} n (l k : list A) : n <= zlen l -> ztake n (l ++ k) = ztake n l.
Proof. intros H. unfold ztake, zlen in *. apply take_app_le. lia. Qed.

(** A copy between two buffers takes the first pairs of their bytes, whatever bytes
    follow them. *)
Lemma copy_1_ok t s ts ss :
  0 <= mb_size t -> 0 <= mb_size s ->
  let n := Z.min (mb_size t) (mb_size s) in
  buffer_copy_1 t s = (n, ztake n (zip (addrs t ++ ts) (addrs s ++ ss))).
Proof.
  intros Ht Hs. cbv zeta. unfold buffer_copy_1.
  assert ((if mb_size t <? mb_size s then mb_size t else mb_size s) = Z.min (mb_size t) (mb_size s)) as ->
    by (destruct (Z.ltb_spec (mb_size t) (mb_size s)); lia).
  set (n := Z.min (mb_size t) (mb_size s)). f_equal. rewrite <- ztake_zip, !ztake_prefix by (rewrite zlen_addrs; lia).
  destruct (Z.ltb_spec 0 n); [done|]. replace n with 0 by lia. done.
Qed.

Lemma ztake_split {A} n m (l : list A) : 0 <= n -> 0 <= m -> ztake n l ++ ztake m (zdrop n l) = ztake (n + m) l.
Proof. intros Hn Hm. unfold ztake, zdrop. rewrite Z2Nat.inj_add by done. apply take_take_drop. Qed.

(** ** One buffer and many *)

Lemma copy_to_one_ok target source total c :
  0 <= mb_size target -> Forall (fun b => 0 <= mb_size b) source -> 0 <= total ->
  total + zlen (zip (addrs target) (all_addrs source)) < 2 ^ 64 ->
  copy_to_one target source total c
  = (total + zlen (zip (addrs target) (all_addrs source)), c ++ zip (addrs target) (all_addrs source)).
Proof.
  intros Ht Hs. revert target total c Ht.
  induction Hs as [|s source Hs Hss IH]; intros target total c Ht H0 Hl; cbn [copy_to_one].
  { change (all_addrs []) with (@nil Z). rewrite zip_nil. cbn. rewrite Z.add_0_r, app_nil_r.
    by destruct (_ =? _). }
  rewrite all_addrs_cons in *. destruct (Z.eqb_spec (mb_size target) 0) as [E|E].
  { rewrite (zlen_0_nil (addrs target)) by (rewrite zlen_addrs; lia). cbn. by rewrite Z.add_0_r, app_nil_r. }
  pose proof (copy_1_ok target s [] (all_addrs source) Ht Hs) as C. cbv zeta in C. rewrite C, app_nil_r.
  set (n := Z.min (mb_size target) (mb_size s)) in *. set (P := zip (addrs target) (addrs s ++ all_addrs source)) in *.
  assert (zip (addrs (buffer_add target n)) (all_addrs source) = zdrop n P) as ER.
  { rewrite addrs_add by lia. destruct (Z.le_gt_cases (mb_size s) (mb_size target)) as [L|L].
    - unfold P. rewrite <- zdrop_zip. f_equal. replace n with (zlen (addrs s)) by (rewrite zlen_addrs; lia).
      by rewrite zdrop_app.
    - rewrite (zdrop_ge n (addrs target)) by (rewrite zlen_addrs; lia). symmetry. apply zdrop_ge.
      unfold P. rewrite zlen_zip, zlen_addrs; lia. }
  assert (n <= zlen P) as Ln.
  { unfold P. rewrite zlen_zip, zlen_app, !zlen_addrs by done. pose proof (zlen_nonneg (all_addrs source)). lia. }
  pose proof (size_add target n ltac:(lia) Ht). rewrite u64_small by (unfold_width; lia).
  rewrite IH; rewrite ?ER; [|lia|lia|rewrite zlen_zdrop; lia].
  rewrite zlen_zdrop by lia. rewrite <- app_assoc, ztake_zdrop. f_equal. lia.
Qed.

Lemma copy_from_one_ok target source total c :
  Forall (fun b => 0 <= mb_size b) target -> 0 <= mb_size source -> 0 <= total ->
  total + zlen (zip (all_addrs target) (addrs source)) < 2 ^ 64 ->
  copy_from_one target source total c
  = (total + zlen (zip (all_addrs target) (addrs source)), c ++ zip (all_addrs target) (addrs source)).
Proof.
  intros Ht. revert source total c.
  induction Ht as [|t target Ht Hts IH]; intros source total c Hs H0 Hl; cbn [copy_from_one].
  { change (all_addrs []) with (@nil Z). cbn. rewrite Z.add_0_r, app_nil_r. by destruct (_ =? _). }
  rewrite all_addrs_cons in *. destruct (Z.eqb_spec (mb_size source) 0) as [E|E].
  { rewrite (zlen_0_nil (addrs source)) by (rewrite zlen_addrs; lia).
    rewrite zip_nil. cbn. by rewrite Z.add_0_r, app_nil_r. }
  pose proof (copy_1_ok t source (all_addrs target) [] Ht Hs) as C. cbv zeta in C. rewrite C, app_nil_r.
  set (n := Z.min (mb_size t) (mb_size source)) in *. set (P := zip (addrs t ++ all_addrs target) (addrs source)) in *.
  assert (zip (all_addrs target) (addrs (buffer_add source n)) = zdrop n P) as ER.
  { rewrite addrs_add by lia. destruct (Z.le_gt_cases (mb_size t) (mb_size source)) as [L|L].
    - unfold P. rewrite <- zdrop_zip. f_equal. replace n with (zlen (addrs t)) by (rewrite zlen_addrs; lia).
      by rewrite zdrop_app.
    - rewrite (zdrop_ge n (addrs source)), zip_nil by (rewrite zlen_addrs; lia). symmetry.
      apply zdrop_ge. unfold P. rewrite zlen_zip, zlen_addrs; lia. }
  assert (n <= zlen P) as Ln.
  { unfold P. rewrite zlen_zip, zlen_app, !zlen_addrs by done. pose proof (zlen_nonneg (all_addrs target)). lia. }
  pose proof (size_add source n ltac:(lia) Hs). rewrite u64_small by (unfold_width; lia).
  rewrite IH; rewrite ?ER; [|lia|lia|rewrite zlen_zdrop; lia].
  rewrite zlen_zdrop by lia. rewrite <- app_assoc, ztake_zdrop. f_equal. lia.
Qed.

(** ** Many buffers *)

Definition nonneg_sizes (l : list io_buffer) : Prop := Forall (fun b => 0 <= mb_size b) l.

Lemma next_buffer_ok b l offset n :
  Forall (fun b => 0 <= mb_size b) (b :: l) -> Many.offset_ok (b :: l) offset ->
  let left := buffer_add b offset in
  0 <= n <= mb_size left ->
  exists l' offset', next_buffer (b :: l) offset n left = (l', offset') /\
    Forall (fun b => 0 <= mb_size b) l' /\ Many.offset_ok l' offset' /\
    zdrop offset' (all_addrs l') = zdrop n (zdrop offset (all_addrs (b :: l))) /\
    length l' = if n =? mb_size left then length l else S (length l).
Proof.
  intros Hl Ho left Hn. unfold next_buffer. pose proof Hl as [Hb Hl']%Forall_cons.
  rewrite Many.rest_cons by done. fold left. destruct (Z.eqb_spec n (mb_size left)) as [E|E].
  - exists l, 0. split_and!; [done|done|by apply Many.offset_ok_0| |done].
    change (zdrop 0 ?x) with x. replace n with (zlen (addrs left)) by (rewrite zlen_addrs; lia). by rewrite zdrop_app.
  - exists (b :: l), (offset + n). pose proof Ho as [H0 H1].
    assert (offset + n <= mb_size b).
    { unfold left, buffer_add in Hn. cbn in Hn. destruct (Z.ltb_spec offset (mb_size b)); lia. }
    assert (Many.offset_ok (b :: l) (offset + n)) as Ho' by (split; lia). split_and!; try done.
    rewrite Many.rest_cons by done. rewrite zdrop_app_le by (rewrite zlen_addrs; lia). f_equal.
    unfold left. rewrite !addrs_add by lia. unfold zdrop. rewrite drop_drop. f_equal. lia.
Qed.

(** How much is left of the limit. *)
Definition limit_left (max_bytes : option Z) (total : Z) : option Z :=
  option_map (fun m => m - total) max_bytes.

Lemma limited_split {A} max_bytes total n (P : list A) :
  0 <= n -> match max_bytes with Some m => total + n <= m | None => True end ->
  ztake n P ++ limited (limit_left max_bytes (total + n)) (zdrop n P) = limited (limit_left max_bytes total) P.
Proof.
  intros Hn H. destruct max_bytes as [m|]; cbn; [|apply ztake_zdrop].
  rewrite ztake_split by lia. f_equal. lia.
Qed.

(** One turn of the loop: [n] pairs are copied; it ends a buffer or meets the
    limit. *)
Lemma copy_turn max_bytes t target toff s source soff total :
  nonneg_sizes (t :: target) -> nonneg_sizes (s :: source) ->
  Many.offset_ok (t :: target) toff -> Many.offset_ok (s :: source) soff ->
  match max_bytes with Some m => total <= m | None => True end ->
  let P := zip (zdrop toff (all_addrs (t :: target))) (zdrop soff (all_addrs (s :: source))) in
  let tb := buffer_add t toff in
  let sb := buffer_add s soff in
  exists n,
    buffer_copy_1 tb (match max_bytes with Some m => buffer_max sb (m - total) | None => sb end) = (n, ztake n P) /\
    0 <= n <= mb_size tb /\ 0 <= n <= mb_size sb /\ n <= zlen P /\
    match max_bytes with Some m => total + n <= m | None => True end /\
    (n = mb_size tb \/ n = mb_size sb \/ max_bytes = Some (total + n)).
Proof.
  intros Ht Hs Hto Hso Hm. pose proof Ht as [Ht0 _]%Forall_cons. pose proof Hs as [Hs0 _]%Forall_cons.
  pose proof (size_add t toff (proj1 Hto) Ht0). pose proof (size_add s soff (proj1 Hso) Hs0). intros P tb sb.
  fold tb sb in H, H0. set (sb' := match max_bytes with Some m => buffer_max sb (m - total) | None => sb end).
  assert (exists rest, addrs sb = addrs sb' ++ rest) as [rest Erest].
  { unfold sb'. destruct max_bytes as [m|]; [|exists []; by rewrite app_nil_r].
    exists (zdrop (m - total) (addrs sb)). rewrite addrs_max by lia. by rewrite ztake_zdrop. }
  assert (P = zip (addrs tb ++ all_addrs target) (addrs sb' ++ rest ++ all_addrs source)) as EP
    by (unfold P; rewrite !Many.rest_cons by done; fold tb sb; by rewrite Erest, <- app_assoc).
  assert (mb_size sb' = match max_bytes with Some m => Z.min (mb_size sb) (m - total) | None => mb_size sb end) as Es
    by (unfold sb'; destruct max_bytes; [apply size_max|done]).
  exists (Z.min (mb_size tb) (mb_size sb')). assert (0 <= mb_size sb') by (destruct max_bytes; lia). split_and!.
  - rewrite EP. apply copy_1_ok; lia.
  - lia.
  - lia.
  - lia.
  - destruct max_bytes; lia.
  - rewrite EP, zlen_zip, !zlen_app, !zlen_addrs by lia.
    pose proof (zlen_nonneg (all_addrs target)). pose proof (zlen_nonneg (all_addrs source)). pose proof (zlen_nonneg rest). lia.
  - destruct max_bytes; lia.
  - destruct max_bytes as [m|]; [|lia]. destruct (Z.eq_dec (Z.min (mb_size tb) (mb_size sb')) (m - total)); [|lia].
    right. right. f_equal. lia.
Qed.

Lemma copy_many_ok fuel max_bytes target toff source soff total c :
  Forall (fun b => 0 <= mb_size b) target -> Forall (fun b => 0 <= mb_size b) source ->
  Many.offset_ok target toff -> Many.offset_ok source soff -> 0 <= total ->
  match max_bytes with Some m => total <= m | None => True end ->
  let P := zip (zdrop toff (all_addrs target)) (zdrop soff (all_addrs source)) in
  total + zlen P < 2 ^ 64 ->
  (length target + length source <= fuel)%nat \/ max_bytes = Some total ->
  let L := limited (limit_left max_bytes total) P in
  copy_many fuel max_bytes target toff source soff total c = Ok (total + zlen L, c ++ L).
Proof.
  revert target toff source soff total c.
  induction fuel as [|fuel IH]; intros target toff source soff total c Ht Hs Hto Hso H0 Hm P Hl Hf L; cbn [copy_many].
  all: destruct (match max_bytes with Some m => total =? m | None => false end) eqn:Elim.
  1, 3: destruct max_bytes as [m|]; [|done]; apply Z.eqb_eq in Elim as <-; unfold L; cbn;
    rewrite Z.sub_diag; cbn; by rewrite Z.add_0_r, app_nil_r.
  all: assert (max_bytes <> Some total) as Hne by (intros ->; by rewrite Z.eqb_refl in Elim).
  all: destruct Hf as [Hf|]; [|done].
  all: destruct target as [|t target], source as [|s source]; cbn [length] in Hf; try lia.
  all: try (assert (P = []) as EP by (unfold P; destruct Hto, Hso; subst; change (all_addrs []) with (@nil Z);
              unfold zdrop; rewrite ?drop_nil; [done || apply zip_nil]);
            unfold L; rewrite EP; destruct max_bytes; cbn; unfold ztake; rewrite ?take_nil; cbn; by rewrite Z.add_0_r, app_nil_r).
  destruct (copy_turn max_bytes t target toff s source soff total Ht Hs Hto Hso Hm)
    as (n & C1 & Bt & Bs & Ln & Hm' & Hfin). fold P in C1, Ln. cbv zeta in C1. rewrite C1.
  destruct (next_buffer_ok t target toff n Ht Hto Bt) as (target' & toff' & Et & Ft & Ot & Dt & Lt).
  destruct (next_buffer_ok s source soff n Hs Hso Bs) as (source' & soff' & Es & Fs & Os & Ds & Ls).
  rewrite Et, Es.
  rewrite u64_small by (unfold_width; lia).
  assert (zip (zdrop toff' (all_addrs target')) (zdrop soff' (all_addrs source')) = zdrop n P) as ER
    by (rewrite Dt, Ds; apply zdrop_zip).
  rewrite IH; rewrite ?ER; try done; [|lia|rewrite zlen_zdrop; lia|].
  - unfold L. rewrite <- (limited_split max_bytes total n P) by (done || lia).
    rewrite app_assoc, zlen_app, zlen_ztake by lia. f_equal. f_equal. lia.
  - rewrite Lt, Ls. destruct (Z.eqb_spec n (mb_size (buffer_add t toff))); [left; destruct (_ =? _); lia|].
    destruct (Z.eqb_spec n (mb_size (buffer_add s soff))); [left; lia|]. right. by destruct Hfin as [?|[?|?]].
Qed.

(** A limit on one side is one on the pairs. *)
Lemma zip_limit_l {A B} m (l : list A) (k : list B) : zip (ztake m l) k = ztake m (zip l k).
Proof. rewrite <- ztake_zip. unfold ztake. symmetry. apply zip_with_take_r'. rewrite length_take. lia. Qed.

Lemma zip_limit_r {A B} m (l : list A) (k : list B) : zip l (ztake m k) = ztake m (zip l k).
Proof. rewrite <- ztake_zip. unfold ztake. symmetry. apply zip_with_take_l'. rewrite length_take. lia. Qed.

Lemma zlen_ztake_le {A} m (l : list A) : zlen (ztake m l) <= zlen l.
Proof. unfold zlen, ztake. rewrite length_take. lia. Qed.

(** [buffer_copy] copies, byte by byte and in order, as many bytes as the shorter
    of the two sequences and the limit allow, and returns their number; in each of
    its forms for one buffer and for many, and its loop over two sequences ends. *)
Theorem buffer_copy_ok (target source : list io_buffer) (max_bytes : option Z) :
  sizes_ok target -> sizes_ok source -> match max_bytes with Some m => 0 <= m | None => True end ->
  let L := limited max_bytes (zip (all_addrs target) (all_addrs source)) in
  copy_many_many target source max_bytes = Ok (zlen L, L) /\
  (forall t m, target = [t] -> max_bytes = Some m -> copy_one_many t source m = (zlen L, L)) /\
  (forall s m, source = [s] -> max_bytes = Some m -> copy_many_one target s m = (zlen L, L)) /\
  (forall t s m, target = [t] -> source = [s] -> max_bytes = Some m -> copy_one_one t s m = (zlen L, L)).
Proof.
  intros [Ht Lt] [Hs Ls] Hm L.
  assert (zlen (zip (all_addrs target) (all_addrs source)) < 2 ^ 64) as Lz by (rewrite zlen_zip; lia).
  assert (forall b, all_addrs [b] = addrs b) as H1 by (intros b; unfold all_addrs; cbn; apply app_nil_r).
  split_and!.
  - unfold copy_many_many. rewrite copy_many_ok; try done.
    + change (zdrop 0 ?x) with x. by destruct max_bytes; cbn; rewrite ?Z.sub_0_r.
    + by apply Many.offset_ok_0.
    + by apply Many.offset_ok_0.
    + by left.
  - intros t m -> ->. apply Forall_cons in Ht as [Ht _]. unfold L. cbn [limited]. rewrite H1 in *.
    unfold copy_one_many. pose proof (size_max t m). pose proof (zlen_ztake_le m (zip (addrs t) (all_addrs source))).
    rewrite copy_to_one_ok; rewrite ?addrs_max, ?zip_limit_l by done; (done || lia).
  - intros s m -> ->. apply Forall_cons in Hs as [Hs _]. unfold L. cbn [limited]. rewrite H1 in *.
    unfold copy_many_one. pose proof (size_max s m). pose proof (zlen_ztake_le m (zip (all_addrs target) (addrs s))).
    rewrite copy_from_one_ok; rewrite ?addrs_max, ?zip_limit_r by done; (done || lia).
  - intros t s m -> -> ->. apply Forall_cons in Ht as [Ht _]. apply Forall_cons in Hs as [Hs _].
    unfold L. cbn [limited]. rewrite !H1 in *. unfold copy_one_one. pose proof (size_max s m).
    pose proof (copy_1_ok t (buffer_max s m) [] [] Ht ltac:(lia)) as C. cbv zeta in C. rewrite C, !app_nil_r.
    assert (zlen (zip (addrs t) (addrs (buffer_max s m))) = Z.min (mb_size t) (mb_size (buffer_max s m))) as E
      by (rewrite zlen_zip, !zlen_addrs; lia).
    rewrite ztake_ge by lia. rewrite <- E, addrs_max, zip_limit_r by done. done.
Qed.
