(* ===== verification/BuffersIterator.v ===== *)
(** buffers_iterator.h: an iterator over the bytes of a sequence of buffers, with random
    access, as the searches of read_until use it.

    The sequence is an argument; [begin_] and [end_] are its ends.  An iterator over a
    buffer yields the address of a byte. *)
From S2P Require Import Prelude IoBuffers.

Record buffers_iterator := {
  current_buffer_ : io_buffer;
  current_buffer_position_ : Z;
  current_ : nat;
  position_ : Z }.

#[global] Instance eta_buffers_iterator : Eta buffers_iterator := fun it =>
  {| current_buffer_ := current_buffer_ it; current_buffer_position_ := current_buffer_position_ it;
     current_ := current_ it; position_ := position_ it |}.

(** A default buffer. *)
Definition no_buffer : io_buffer := mk_io_buffer 0 0.

Definition iterator_default : buffers_iterator :=
  {| current_buffer_ := no_buffer; current_buffer_position_ := 0; current_ := 0; position_ := 0 |}.

(** The loop to the next buffer that is not empty; [rest] are the buffers from [current_]. *)
Fixpoint settle (rest : list io_buffer) (it : buffers_iterator) : buffers_iterator :=
  match rest with
  | [] => it
  | b :: rest =>
      let it := it <| current_buffer_ := b |> in
      if 0 <? mb_size b then it else settle rest (it <| current_ ::= S |>)
  end.

Definition buffers_begin (l : list io_buffer) : buffers_iterator := settle l iterator_default.

Fixpoint to_end (rest : list io_buffer) (it : buffers_iterator) : buffers_iterator :=
  match rest with
  | [] => it
  | b :: rest => to_end rest (it <| position_ ::= fun p => u64 (p + mb_size b) |> <| current_ ::= S |>)
  end.

Definition buffers_end (l : list io_buffer) : buffers_iterator := to_end l iterator_default.

Definition dereference (it : buffers_iterator) : Z := mb_data (current_buffer_ it) + current_buffer_position_ it.

Definition equal (it other : buffers_iterator) : bool := position_ it =? position_ other.

Definition distance_to (it other : buffers_iterator) : Z := s64 (u64 (position_ other - position_ it)).

Definition increment (l : list io_buffer) (it : buffers_iterator) : buffers_iterator :=
  let it := it <| position_ ::= fun p => u64 (p + 1) |> <| current_buffer_position_ ::= fun p => u64 (p + 1) |> in
  if negb (current_buffer_position_ it =? mb_size (current_buffer_ it)) then it
  else settle (drop (S (current_ it)) l) (it <| current_ ::= S |> <| current_buffer_position_ := 0 |>).

(** The last buffer in front of [i] that is not empty. *)
Fixpoint find_back (l : list io_buffer) (i : nat) : option (nat * io_buffer) :=
  match i with
  | O => None
  | S i =>
      match l !! i with
      | Some b => if 0 <? mb_size b then Some (i, b) else find_back l i
      | None => None
      end
  end.

Definition decrement (l : list io_buffer) (it : buffers_iterator) : buffers_iterator :=
  let it := it <| position_ ::= fun p => u64 (p - 1) |> in
  if negb (current_buffer_position_ it =? 0) then it <| current_buffer_position_ ::= fun p => p - 1 |>
  else match find_back l (current_ it) with
  | Some (i, b) => it <| current_ := i |> <| current_buffer_ := b |> <| current_buffer_position_ := mb_size b - 1 |>
  | None => it
  end.

(** [advance] forwards; [rest] are the buffers behind the current one. *)
Fixpoint advance_forward (rest : list io_buffer) (n : Z) (it : buffers_iterator) : buffers_iterator :=
  let current_buffer_balance := s64 (u64 (mb_size (current_buffer_ it) - current_buffer_position_ it)) in
  if n <? current_buffer_balance then
    it <| position_ ::= fun p => u64 (p + n) |> <| current_buffer_position_ ::= fun p => u64 (p + n) |>
  else
    let n := n - current_buffer_balance in
    let it := it <| position_ ::= fun p => u64 (p + current_buffer_balance) |> <| current_ ::= S |> in
    match rest with
    | [] => it <| current_buffer_ := no_buffer |> <| current_buffer_position_ := 0 |>
    | b :: rest => advance_forward rest n (it <| current_buffer_ := b |> <| current_buffer_position_ := 0 |>)
    end.

(** [advance] backwards, with fuel: a turn goes to an earlier buffer. *)
Fixpoint advance_back (l : list io_buffer) (fuel : nat) (abs_n : Z) (it : buffers_iterator) : res buffers_iterator :=
  if abs_n <=? current_buffer_position_ it then
    Ok (it <| position_ ::= fun p => u64 (p - abs_n) |> <| current_buffer_position_ ::= fun p => p - abs_n |>)
  else
    let abs_n := abs_n - current_buffer_position_ it in
    let it := it <| position_ ::= fun p => u64 (p - current_buffer_position_ it) |> in
    match current_ it with
    | O => Ok (it <| current_buffer_position_ := 0 |>)
    | S _ =>
        match fuel with
        | O => Throw Blocked
        | S fuel =>
            advance_back l fuel abs_n
              match find_back l (current_ it) with
              | Some (i, b) => it <| current_ := i |> <| current_buffer_ := b |> <| current_buffer_position_ := mb_size b |>
              | None => it
              end
        end
    end.

Definition advance (l : list io_buffer) (n : Z) (it : buffers_iterator) : res buffers_iterator :=
  if 0 <? n then Ok (advance_forward (drop (S (current_ it)) l) n it)
  else if n <? 0 then advance_back l (length l) (- n) it
  else Ok it.

(** What a program does with an iterator. *)
Inductive iterator_op := Increment | Decrement | Advance (n : Z).

Definition iterator_step (l : list io_buffer) (op : iterator_op) (it : buffers_iterator) : res buffers_iterator :=
  match op with
  | Increment => Ok (increment l it)
  | Decrement => Ok (decrement l it)
  | Advance n => advance l n it
  end.

Fixpoint iterator_run (l : list io_buffer) (ops : list iterator_op) (it : buffers_iterator) : res buffers_iterator :=
  match ops with
  | [] => Ok it
  | op :: ops => let* it := iterator_step l op it in iterator_run l ops it
  end.

(** * Positions *)

(** The iterator is at the byte [p] of the sequence, or at its end. *)
Definition at_position (l : list io_buffer) (it : buffers_iterator) (p : Z) : Prop :=
  position_ it = p /\
  ((exists pre post, l = pre ++ current_buffer_ it :: post /\ current_ it = length pre /\
      0 <= current_buffer_position_ it < mb_size (current_buffer_ it) /\
      p = zlen (all_addrs pre) + current_buffer_position_ it) \/
   (p = zlen (all_addrs l) /\ current_ it = length l /\ current_buffer_position_ it = 0)).

Lemma all_addrs_app l k : all_addrs (l ++ k) = all_addrs l ++ all_addrs k.
Proof. unfold all_addrs. by rewrite map_app, concat_app. Qed.

Section Positions.
Context (l : list io_buffer) (Hl : Forall (fun b => 0 <= mb_size b) l) (Ht : zlen (all_addrs l) < 2 ^ 63).

Lemma split_sizes pre b post :
  l = pre ++ b :: post ->
  zlen (all_addrs l) = zlen (all_addrs pre) + mb_size b + zlen (all_addrs post) /\ 0 <= mb_size b /\
  0 <= zlen (all_addrs pre) /\ 0 <= zlen (all_addrs post).
Proof using Hl.
  intros E. pose proof Hl as H. rewrite E in H |- *. apply Forall_app in H as [_ [Hb _]%Forall_cons].
  rewrite all_addrs_app, all_addrs_cons, !zlen_app, zlen_addrs by done.
  pose proof (zlen_nonneg (all_addrs pre)). pose proof (zlen_nonneg (all_addrs post)). split_and!; (done || lia).
Qed.

Lemma at_bounds it p : at_position l it p -> 0 <= p <= zlen (all_addrs l).
Proof using Hl.
  intros [_ [(pre & post & E & _ & Hp & ->)|(-> & _)]]; [|pose proof (zlen_nonneg (all_addrs l)); lia].
  destruct (split_sizes _ _ _ E). lia.
Qed.

Lemma settle_ok pre rest it :
  l = pre ++ rest -> current_ it = length pre -> current_buffer_position_ it = 0 ->
  position_ it = zlen (all_addrs pre) -> at_position l (settle rest it) (zlen (all_addrs pre)).
Proof using Hl.
  revert pre it. induction rest as [|b rest IH]; intros pre it E Ec Eb Ep; cbn [settle].
  - split; [done|]. right. rewrite E, app_nil_r. done.
  - destruct (split_sizes _ _ _ E) as (_ & Hb & _). destruct (Z.ltb_spec 0 (mb_size b)).
    + split; [done|]. left. exists pre, rest. cbn. split_and!; (done || lia).
    + assert (zlen (all_addrs (pre ++ [b])) = zlen (all_addrs pre)) as <-.
      { rewrite all_addrs_app, all_addrs_cons, !zlen_app, zlen_addrs by done. change (zlen (all_addrs [])) with 0. lia. }
      apply IH; [by rewrite <- app_assoc|cbn; rewrite length_app; cbn; lia|done|].
      cbn. rewrite Ep, all_addrs_app, all_addrs_cons, !zlen_app, zlen_addrs by done. change (zlen (all_addrs [])) with 0. lia.
Qed.

Lemma begin_ok : at_position l (buffers_begin l) 0.
Proof using Hl. by apply (settle_ok [] l iterator_default). Qed.

Lemma to_end_ok pre rest it :
  l = pre ++ rest -> current_ it = length pre -> current_buffer_position_ it = 0 ->
  position_ it = zlen (all_addrs pre) -> at_position l (to_end rest it) (zlen (all_addrs l)).
Proof using Hl Ht.
  revert pre it. induction rest as [|b rest IH]; intros pre it E Ec Eb Ep; cbn [to_end].
  - rewrite app_nil_r in E. subst pre. split; [done|]. by right.
  - destruct (split_sizes _ _ _ E) as (Es & Hb & ?). apply (IH (pre ++ [b])); cbn.
    + by rewrite <- app_assoc.
    + rewrite length_app. cbn. lia.
    + done.
    + rewrite Ep, all_addrs_app, all_addrs_cons, !zlen_app, zlen_addrs by done. change (zlen (all_addrs [])) with 0.
      rewrite u64_small by (unfold_width; lia). lia.
Qed.

Lemma end_ok : at_position l (buffers_end l) (zlen (all_addrs l)).
Proof using Hl Ht. by apply (to_end_ok [] l iterator_default). Qed.

(** The address of the byte. *)
Lemma dereference_ok it p :
  at_position l it p -> p < zlen (all_addrs l) -> all_addrs l !! Z.to_nat p = Some (dereference it).
Proof using Hl.
  intros [_ [(pre & post & E & _ & Hp & ->)|(-> & _)]] Hlt; [|lia].
  rewrite E at 1. rewrite all_addrs_app, all_addrs_cons. pose proof (zlen_nonneg (all_addrs pre)).
  rewrite lookup_app_r by (unfold zlen in *; lia). rewrite lookup_app_l.
  - unfold addrs. apply lookup_seqZ. unfold dereference, zlen. lia.
  - unfold addrs. rewrite length_seqZ. unfold zlen in *. lia.
Qed.

Lemma increment_ok it p : at_position l it p -> p < zlen (all_addrs l) -> at_position l (increment l it) (p + 1).
Proof using Hl Ht.
  intros [Ep [(pre & post & E & Ec & Hp & Epos)|(-> & _)]] Hlt; [|lia].
  destruct (split_sizes _ _ _ E) as (Es & ?). unfold increment. cbn [current_buffer_position_ current_buffer_ upd current_].
  rewrite (u64_small (current_buffer_position_ it + 1)) by (unfold_width; lia).
  destruct (Z.eqb_spec (current_buffer_position_ it + 1) (mb_size (current_buffer_ it))) as [Eq|Ne]; cbn [negb].
  - assert (p + 1 = zlen (all_addrs (pre ++ [current_buffer_ it]))) as ->.
    { rewrite all_addrs_app, all_addrs_cons, !zlen_app, zlen_addrs by lia. change (zlen (all_addrs [])) with 0. lia. }
    assert (l = (pre ++ [current_buffer_ it]) ++ post) as E' by by rewrite <- app_assoc.
    replace (drop (S (current_ it)) l) with post.
    + apply settle_ok; cbn; [done|rewrite length_app; cbn; lia|done|].
      rewrite Ep, all_addrs_app, all_addrs_cons, !zlen_app, zlen_addrs by lia. change (zlen (all_addrs [])) with 0.
      rewrite u64_small by (unfold_width; lia). lia.
    + rewrite E', Ec. symmetry. apply drop_app_length'. rewrite length_app. cbn. lia.
  - split; [cbn; rewrite u64_small by (unfold_width; lia); lia|]. left. exists pre, post. cbn.
    rewrite u64_small by (unfold_width; lia). split_and!; (done || lia).
Qed.

Lemma find_back_ok pre rest :
  l = pre ++ rest -> 0 < zlen (all_addrs pre) ->
  exists pre' b post, pre = pre' ++ b :: post /\ all_addrs post = [] /\ 0 < mb_size b /\
    find_back l (length pre) = Some (length pre', b).
Proof using Hl.
  revert rest. induction pre as [|b pre IH] using rev_ind; intros rest E Hp; [done|].
  rewrite <- app_assoc in E. cbn in E. destruct (split_sizes _ _ _ E) as (_ & Hb & _).
  rewrite length_app, Nat.add_1_r. cbn [find_back].
  replace (l !! length pre) with (Some b) by (rewrite E, lookup_app_r, Nat.sub_diag by lia; done).
  destruct (Z.ltb_spec 0 (mb_size b)) as [Hs|Hs].
  - by exists pre, b, [].
  - assert (addrs b = []) as Eb by (apply zlen_0_nil; rewrite zlen_addrs; lia).
    rewrite all_addrs_app, all_addrs_cons, Eb in Hp. change (all_addrs []) with (@nil Z) in Hp. rewrite !app_nil_r in Hp.
    destruct (IH _ E Hp) as (pre' & c & post & -> & Epost & Hc & Ef).
    exists pre', c, (post ++ [b]). split_and!; [by rewrite <- app_assoc| |done|done].
    rewrite all_addrs_app, Epost, all_addrs_cons, Eb. done.
Qed.

(** The part of a position that the buffers before the current one are. *)
Lemma at_before it p :
  at_position l it p ->
  exists pre rest, l = pre ++ rest /\ current_ it = length pre /\ p = zlen (all_addrs pre) + current_buffer_position_ it /\
    0 <= current_buffer_position_ it.
Proof using.
  intros [_ [(pre & post & E & Ec & Hp & ->)|(-> & Ec & Eb)]].
  - exists pre, (current_buffer_ it :: post). split_and!; (done || lia).
  - exists l, []. rewrite app_nil_r, Eb. split_and!; (done || lia).
Qed.

Lemma decrement_ok it p : at_position l it p -> 0 < p -> at_position l (decrement l it) (p - 1).
Proof using Hl Ht.
  intros H Hp. pose proof (at_bounds it p H). destruct (at_before it p H) as (pre & rest & E & Ec & Epos & Hc).
  destruct H as [Ep H]. unfold decrement. cbn [current_buffer_position_ upd current_].
  destruct (Z.eqb_spec (current_buffer_position_ it) 0) as [E0|E0]; cbn [negb].
  - rewrite Ec. destruct (find_back_ok pre rest E) as (pre' & b & post & -> & Epost & Hb & ->); [lia|].
    rewrite all_addrs_app, all_addrs_cons, Epost, app_nil_r, zlen_app, zlen_addrs in Epos by lia.
    split; [cbn; rewrite Ep, u64_small by (unfold_width; lia); done|]. left. exists pre', (post ++ rest). cbn.
    split_and!; [by rewrite E, <- app_assoc|done|lia|lia|lia].
  - destruct H as [(pre1 & post & E1 & Ec1 & Hp1 & Epos1)|(_ & _ & ?)]; [|done].
    split; [cbn; rewrite Ep, u64_small by (unfold_width; lia); done|]. left. exists pre1, post. cbn.
    split_and!; (done || lia).
Qed.

Lemma advance_forward_ok rest pre it n :
  l = pre ++ current_buffer_ it :: rest -> current_ it = length pre ->
  0 <= current_buffer_position_ it <= mb_size (current_buffer_ it) ->
  position_ it = zlen (all_addrs pre) + current_buffer_position_ it ->
  0 <= n -> position_ it + n <= zlen (all_addrs l) ->
  at_position l (advance_forward rest n it) (position_ it + n).
Proof using Hl Ht.
  revert pre it n. induction rest as [|b rest IH]; intros pre it n E Ec Hc Ep Hn Hle; cbn [advance_forward];
    destruct (split_sizes _ _ _ E) as (Es & Hs & ? & ?);
    rewrite (u64_small (mb_size _ - _)), s64_small by (unfold_width; lia);
    (destruct (Z.ltb_spec n (mb_size (current_buffer_ it) - current_buffer_position_ it));
      [split; [cbn; rewrite u64_small by (unfold_width; lia); done|]; left; eexists pre, _; cbn;
       rewrite u64_small by (unfold_width; lia); split_and!; (done || lia)|]).
  - change (zlen (all_addrs [])) with 0 in Es. split; [cbn; rewrite u64_small by (unfold_width; lia); lia|]. right. cbn.
    split_and!; [lia| |done]. rewrite E, length_app, Ec. cbn. lia.
  - match goal with |- at_position _ (advance_forward _ ?k ?i) _ => specialize (IH (pre ++ [current_buffer_ it]) i k) end.
    cbn in IH. rewrite u64_small in IH by (unfold_width; lia).
    match goal with |- at_position _ _ ?q => replace q with (position_ it +
      (mb_size (current_buffer_ it) - current_buffer_position_ it) +
      (n - (mb_size (current_buffer_ it) - current_buffer_position_ it))) by lia end.
    rewrite all_addrs_app, all_addrs_cons, !zlen_app, zlen_addrs in IH by done. change (zlen (all_addrs [])) with 0 in IH.
    rewrite length_app in IH. cbn in IH.
    rewrite all_addrs_cons, zlen_app in Es. pose proof Hl as Hb. rewrite E in Hb.
    apply Forall_app in Hb as [_ [_ [Hb _]%Forall_cons]%Forall_cons].
    apply IH; (lia || by rewrite <- app_assoc).
Qed.

(** Between two turns of the way back, the position in the current buffer may be its end. *)
Definition between (it : buffers_iterator) : Prop :=
  exists pre rest, l = pre ++ rest /\ current_ it = length pre /\
    position_ it = zlen (all_addrs pre) + current_buffer_position_ it /\ 0 <= current_buffer_position_ it /\
    (current_buffer_position_ it = 0 \/
     exists post, rest = current_buffer_ it :: post /\ current_buffer_position_ it <= mb_size (current_buffer_ it)).

Lemma advance_back_ok fuel it n :
  between it -> (current_ it <= fuel)%nat -> 0 < n <= position_ it ->
  exists it', advance_back l fuel n it = Ok it' /\ at_position l it' (position_ it - n).
Proof using Hl Ht.
  revert it n. induction fuel as [|fuel IH]; intros it n (pre & rest & E & Ec & Ep & Hc & Hb) Hf Hn; cbn [advance_back];
    (assert (zlen (all_addrs pre) + zlen (all_addrs rest) = zlen (all_addrs l)) as Et by (by rewrite E, all_addrs_app, zlen_app));
    pose proof (zlen_nonneg (all_addrs pre)); pose proof (zlen_nonneg (all_addrs rest));
    (assert (current_buffer_position_ it <= zlen (all_addrs rest)) as Hr by
      (destruct Hb as [->|(post & -> & ?)]; [done|]; destruct (split_sizes _ _ _ E) as (Es & ?); lia));
    (destruct (Z.leb_spec n (current_buffer_position_ it)) as [Hle|Hgt];
      [eexists; split; [reflexivity|]; split; [cbn; rewrite u64_small by (unfold_width; lia); done|]; left;
       destruct Hb as [?|(post & -> & ?)]; [lia|]; exists pre, post; cbn; split_and!; (done || lia)|]).
  - assert (pre = []) as -> by (destruct pre; [done|]; cbn in Ec; lia). change (zlen (all_addrs [])) with 0 in Ep. lia.
  - cbn [current_ upd]. destruct (current_ it) as [|i] eqn:Ei.
    { assert (pre = []) as -> by (by destruct pre). change (zlen (all_addrs [])) with 0 in Ep. lia. }
    assert (position_ it <= zlen (all_addrs l)) as Hpos by lia. rewrite Ec.
    destruct (find_back_ok pre rest E) as (pre' & b & post & -> & Epost & Hbs & ->); [lia|].
    rewrite all_addrs_app, all_addrs_cons, Epost, app_nil_r, zlen_app, zlen_addrs in Ep by lia.
    pose proof (zlen_nonneg (all_addrs pre')).
    match goal with |- exists _, advance_back _ _ ?k ?x = _ /\ _ => destruct (IH x k) as (it' & Ea & Hat) end.
    + exists pre', (b :: post ++ rest). cbn. split_and!; [by rewrite E, <- app_assoc|done| |lia|].
      * rewrite u64_small by (unfold_width; lia). lia.
      * right. exists (post ++ rest). split; [done|lia].
    + cbn. rewrite length_app in Ec. cbn in Ec. lia.
    + cbn. rewrite u64_small by (unfold_width; lia). lia.
    + exists it'. split; [exact Ea|]. cbn in Hat. rewrite u64_small in Hat by (unfold_width; lia).
      replace (position_ it - n) with (position_ it - current_buffer_position_ it - (n - current_buffer_position_ it)) by lia.
      exact Hat.
Qed.

Lemma advance_ok it p n :
  at_position l it p -> 0 <= p + n <= zlen (all_addrs l) ->
  exists it', advance l n it = Ok it' /\ at_position l it' (p + n).
Proof using Hl Ht.
  intros H Hb. pose proof (at_bounds it p H) as Hp. pose proof H as [Ep H']. unfold advance.
  destruct (Z.ltb_spec 0 n) as [Hn|Hn].
  - eexists; split; [reflexivity|]. destruct H' as [(pre & post & E & Ec & Hc & Epos)|(-> & _)]; [|lia].
    replace (drop (S (current_ it)) l) with post.
    + rewrite <- Ep. apply (advance_forward_ok post pre); (done || lia).
    + rewrite E, Ec. symmetry. rewrite cons_middle, app_assoc. apply drop_app_length'. rewrite length_app. cbn. lia.
  - destruct (Z.ltb_spec n 0) as [Hn'|Hn'].
    + replace (p + n) with (position_ it - - n) by lia. apply advance_back_ok; [| |lia].
      * destruct H' as [(pre & post & E & Ec & Hc & Epos)|(Epos & Ec & Eb)].
        -- exists pre, (current_buffer_ it :: post). split_and!; [done|done|lia|lia|]. right. exists post. split; [done|lia].
        -- exists l, []. rewrite app_nil_r, Eb. split_and!; [done|done|lia|lia|by left].
      * destruct H' as [(pre & post & E & Ec & _)|(_ & Ec & _)]; rewrite Ec; [|done].
        rewrite E, length_app. lia.
    + exists it. split; [done|]. by replace (p + n) with p by lia.
Qed.

(** ** Programs *)

Definition moved_by (op : iterator_op) : Z := match op with Increment => 1 | Decrement => -1 | Advance n => n end.

(** The position after the operations, if it stays in the sequence. *)
Fixpoint position_after (p : Z) (ops : list iterator_op) : option Z :=
  match ops with
  | [] => Some p
  | op :: ops =>
      let q := p + moved_by op in
      if (0 <=? q) && (q <=? zlen (all_addrs l)) then position_after q ops else None
  end.

Lemma iterator_step_ok op it p :
  at_position l it p -> 0 <= p + moved_by op <= zlen (all_addrs l) ->
  exists it', iterator_step l op it = Ok it' /\ at_position l it' (p + moved_by op).
Proof using Hl Ht.
  intros H Hb. destruct op as [| |n]; cbn [iterator_step moved_by] in *.
  - eexists; split; [reflexivity|]. apply increment_ok; (done || lia).
  - eexists; split; [reflexivity|]. apply decrement_ok; (done || lia).
  - by apply advance_ok.
Qed.

Lemma iterator_run_ok ops it p q :
  at_position l it p -> position_after p ops = Some q ->
  exists it', iterator_run l ops it = Ok it' /\ at_position l it' q.
Proof using Hl Ht.
  revert it p. induction ops as [|op ops IH]; intros it p H E; cbn [position_after iterator_run] in *.
  - injection E as <-. by exists it.
  - destruct (_ && _) eqn:Eb; [|done]. bool_to_prop.
    destruct (iterator_step_ok op it p H) as (it1 & -> & Hat); [done|]. cbn [rbind]. by eapply IH.
Qed.

Lemma distance_ok it p it' q : at_position l it p -> at_position l it' q -> distance_to it it' = q - p.
Proof using Hl Ht.
  intros H H'. pose proof (at_bounds _ _ H). pose proof (at_bounds _ _ H'). destruct H as [Ep _], H' as [Eq _].
  unfold distance_to. rewrite Ep, Eq. rewrite (s64_mod _ (q - p)); [apply s64_small; unfold_width; lia|].
  unfold u64. by rewrite Z.mod_mod.
Qed.

Lemma equal_ok it p it' q : at_position l it p -> at_position l it' q -> equal it it' = bool_decide (p = q).
Proof using. intros [Ep _] [Eq _]. unfold equal. rewrite Ep, Eq. apply eq_true_iff_eq. by rewrite Z.eqb_eq, bool_decide_eq_true. Qed.
End Positions.

(** An iterator over a sequence of buffers, of which some may be empty, is moved by a
    program of increments, decrements and jumps that stays in the sequence as an index into
    the list of its bytes: every operation ends, the iterator yields the byte at its index,
    its distance to the end is the number of bytes left, and it equals the end if there are
    none. *)
Theorem iterator_is_index l ops p :
  Forall (fun b => 0 <= mb_size b) l -> zlen (all_addrs l) < 2 ^ 63 -> position_after l 0 ops = Some p ->
  exists it, iterator_run l ops (buffers_begin l) = Ok it /\
    (p < zlen (all_addrs l) -> all_addrs l !! Z.to_nat p = Some (dereference it)) /\
    distance_to (buffers_begin l) it = p /\ distance_to it (buffers_end l) = zlen (all_addrs l) - p /\
    equal it (buffers_end l) = bool_decide (p = zlen (all_addrs l)).
Proof.
  intros Hl Ht E. pose proof (begin_ok l Hl) as Hb. pose proof (end_ok l Hl Ht) as He.
  destruct (iterator_run_ok l Hl Ht ops _ 0 p Hb E) as (it & -> & H). exists it. split; [done|]. split_and!.
  - by apply dereference_ok.
  - rewrite (distance_ok l Hl Ht _ 0 _ p Hb H). lia.
  - by apply (distance_ok l Hl Ht).
  - by apply (equal_ok l).
Qed.

(** Bytes 100 to 102 and 300 to 301, with empty buffers around them. *)
Definition sample_sequence : list io_buffer :=
  [mk_io_buffer 0 0; mk_io_buffer 100 3; mk_io_buffer 200 0; mk_io_buffer 300 2; mk_io_buffer 400 0].

Lemma iterator_is_index_witness :
  exists it, iterator_run sample_sequence [Advance 5; Decrement; Advance (-3); Increment; Increment]
      (buffers_begin sample_sequence) = Ok it /\ dereference it = 300.
Proof.
  destruct (iterator_is_index sample_sequence [Advance 5; Decrement; Advance (-3); Increment; Increment] 3)
    as (it & E & Hd & _); [by repeat constructor|by vm_compute|by vm_compute|].
  exists it. split; [exact E|]. assert (3 < zlen (all_addrs sample_sequence)) as H3 by by vm_compute.
  specialize (Hd H3). cbn in Hd. by injection Hd.
Defined.
