(* ===== verification/Composed.v ===== *)
(** completion_condition.h, impl/read.h and impl/write.h: the operations composed of
    [read_some] and [write_some], which transfer all of a sequence of buffers, or as
    much of it as a completion condition asks for.

    [read] and [write] are the same loop around the operation of the stream, and so
    are the asynchronous [read_op] and [write_op], so that both are modelled once,
    over a class [Transfer] of the stream's operation. *)
From S2P Require Import Prelude IoBuffers.

Inductive io_error := eof | not_found | operation_aborted | other_error (code : Z).

Definition error_code := option io_error.

Definition failed (ec : error_code) : bool := match ec with Some _ => true | None => false end.

(** * Completion conditions *)

Definition default_max_transfer_size : Z := 65536.

(** The result of a condition that tells whether the operation is complete. *)
Definition adapt_completion_condition_result (complete : bool) : Z :=
  if complete then 0 else default_max_transfer_size.

Definition completion_condition := error_code -> Z -> Z.

Definition transfer_all : completion_condition := fun err _ =>
  if failed err then 0 else default_max_transfer_size.

Definition transfer_at_least (minimum : Z) : completion_condition := fun err bytes_transferred =>
  if failed err || (minimum <=? bytes_transferred) then 0 else default_max_transfer_size.

Definition transfer_exactly (size : Z) : completion_condition := fun err bytes_transferred =>
  if failed err || (size <=? bytes_transferred) then 0
  else if size - bytes_transferred <? default_max_transfer_size then size - bytes_transferred
  else default_max_transfer_size.

(** A condition that is met after an error. *)
Definition stops (cc : completion_condition) : Prop := forall e t, cc (Some e) t = 0.

(** * Streams *)

(** [read_some] or [write_some] with its stream: the error, and how many bytes of the
    buffers were transferred. *)
Class Transfer (T : Type) := {
  transfer_some : list io_buffer -> T -> error_code * Z * T;
  cancelled : T -> bool
}.

(** At least a byte is transferred, or an error reported; [moved] relates a stream,
    the addresses transferred and the stream after it. *)
Class TransferLaws (T : Type) `{Transfer T} := {
  moved : T -> list Z -> T -> Prop;
  moved_nil : forall s, moved s [] s;
  moved_app : forall s a s' b s'', moved s a s' -> moved s' b s'' -> moved s (a ++ b) s'';
  some_bounds : forall p s ec n s', transfer_some p s = (ec, n, s') -> 0 <= n <= zlen (all_addrs p);
  some_progress : forall p s n s',
    transfer_some p s = (None, n, s') -> 0 < zlen (all_addrs p) -> 0 < n;
  some_moved : forall p s ec n s', transfer_some p s = (ec, n, s') -> moved s (ztake n (all_addrs p)) s'
}.

(** * The loops *)

Section Loops.
Context {C T : Type} `{CB : Consuming C} `{TR : Transfer T} (cc : completion_condition).

(** [read_buffer_seq] and [write]: the bytes transferred, the error and the stream. *)
Fixpoint transfer_seq (fuel : nat) (tmp : C) (ec : error_code) (s : T) : res (Z * error_code * T) :=
  if cb_empty tmp then Ok (cb_total tmp, ec, s)
  else
    let max_size := cc ec (cb_total tmp) in
    if max_size =? 0 then Ok (cb_total tmp, ec, s)
    else
      match fuel with
      | O => Throw Blocked
      | S fuel =>
          let '(ec, n, s) := transfer_some (cb_prepare max_size tmp) s in
          transfer_seq fuel (cb_consume n tmp) ec s
      end.

(** [read_op] and [write_op] when they are started: the buffers of the first
    operation of the stream. *)
Definition op_start (buffers : C) : list io_buffer :=
  cb_prepare (cc None (cb_total buffers)) buffers.

(** When an operation of the stream completes: the next one, or the call of the
    handler. *)
Definition op_resume (buffers : C) (ec : error_code) (bytes_transferred : Z) (cancel : bool) :
    C * (list io_buffer + error_code * Z) :=
  let buffers := cb_consume bytes_transferred buffers in
  if (negb (failed ec) && (bytes_transferred =? 0)) || cb_empty buffers
  then (buffers, inr (ec, cb_total buffers))
  else
    let max_size := cc ec (cb_total buffers) in
    if max_size =? 0 then (buffers, inr (ec, cb_total buffers))
    else if cancel then (buffers, inr (Some operation_aborted, cb_total buffers))
    else (buffers, inl (cb_prepare max_size buffers)).

(** The operation with its stream, until the handler is called. *)
Fixpoint op_run (fuel : nat) (buffers : C) (p : list io_buffer) (s : T) : res (Z * error_code * T) :=
  match fuel with
  | O => Throw Blocked
  | S fuel =>
      let '(ec, n, s) := transfer_some p s in
      match op_resume buffers ec n (cancelled s) with
      | (_, inr (ec, n)) => Ok (n, ec, s)
      | (buffers, inl p) => op_run fuel buffers p s
      end
  end.

Definition async_transfer (fuel : nat) (buffers : C) (s : T) : res (Z * error_code * T) :=
  op_run fuel buffers (op_start buffers) s.

(** ** What is transferred *)

Context `{CL : ConsumingLaws C (H := CB)} `{TL : TransferLaws T (H := TR)}.

(** One operation of the stream. *)
Lemma transfer_step c max_size s ec n s' :
  cb_inv c -> 0 < max_size -> cb_total c < zlen (cb_all c) ->
  transfer_some (cb_prepare max_size c) s = (ec, n, s') ->
  0 <= n <= max_size /\ n <= zlen (cb_all c) - cb_total c /\ (ec = None -> 0 < n) /\
  moved s (ztake n (zdrop (cb_total c) (cb_all c))) s'.
Proof.
  intros Hi Hm Ht E. destruct (cb_prepare_next c max_size Hi) as ([k Ek] & P2 & P3); [lia|].
  pose proof (cb_total_bounds c Hi). pose proof (some_bounds _ _ _ _ _ E) as B.
  assert (zlen (zdrop (cb_total c) (cb_all c)) = zlen (cb_all c) - cb_total c) as L by (apply zlen_zdrop; lia).
  pose proof (f_equal zlen Ek) as Lk. rewrite zlen_app in Lk. pose proof (zlen_nonneg k).
  split_and!; [lia|lia|lia| |].
  - intros ->. apply (some_progress _ _ _ _ E). by apply P3.
  - pose proof (some_moved _ _ _ _ _ E) as M. rewrite Ek. unfold ztake, zlen in *.
    rewrite take_app_le by lia. done.
Qed.

(** Two transfers, one after the other. *)
Lemma moved_join s l t n s' m s'' :
  0 <= t -> 0 <= n -> 0 <= m -> moved s (ztake n (zdrop t l)) s' -> moved s' (ztake m (zdrop (t + n) l)) s'' ->
  moved s (ztake (n + m) (zdrop t l)) s''.
Proof.
  intros Ht Hn Hm M1 M2. replace (ztake (n + m) (zdrop t l)) with (ztake n (zdrop t l) ++ ztake m (zdrop (t + n) l)).
  { by eapply moved_app. }
  unfold ztake, zdrop. rewrite Z2Nat.inj_add, <- drop_drop, Z2Nat.inj_add by lia. apply take_take_drop.
Qed.

(** The loop ends, because of its condition or at the end of the buffers, having
    transferred the buffers in order. *)
Lemma transfer_seq_ends fuel c ec s :
  stops cc -> (forall t, 0 <= cc None t) -> cb_inv c ->
  zlen (cb_all c) - cb_total c + (if failed ec then 0 else 1) < Z.of_nat fuel ->
  exists n ec' s', transfer_seq fuel c ec s = Ok (cb_total c + n, ec', s') /\
    0 <= n <= zlen (cb_all c) - cb_total c /\
    (cb_total c + n = zlen (cb_all c) \/ cc ec' (cb_total c + n) = 0) /\
    moved s (ztake n (zdrop (cb_total c) (cb_all c))) s'.
Proof.
  intros Hst Hpos. revert c ec s. induction fuel as [|fuel IH]; intros c ec s Hi Hf.
  { pose proof (cb_total_bounds c Hi). destruct (failed ec); lia. }
  pose proof (cb_total_bounds c Hi) as Hb. cbn [transfer_seq]. rewrite cb_empty_iff by done.
  destruct (Z.leb_spec (zlen (cb_all c)) (cb_total c)) as [L|L].
  { exists 0, ec, s. rewrite Z.add_0_r. split_and!; [done|lia|lia|left; lia|apply moved_nil]. }
  cbv zeta. destruct (Z.eqb_spec (cc ec (cb_total c)) 0) as [E0|E0].
  { exists 0, ec, s. rewrite Z.add_0_r. split_and!; [done|lia|lia|by right|apply moved_nil]. }
  destruct ec as [e|]; [by rewrite Hst in E0|]. cbn [failed] in Hf.
  destruct (transfer_some _ s) as [[ec1 n1] s1] eqn:E.
  assert (0 < cc None (cb_total c)) as Hcc by (pose proof (Hpos (cb_total c)); lia).
  destruct (transfer_step c _ s ec1 n1 s1 Hi Hcc L E)
    as (B1 & B2 & B3 & M1).
  destruct (cb_consume_next c n1 Hi ltac:(lia)) as (Hi1 & T1 & A1).
  destruct (IH (cb_consume n1 c) ec1 s1 Hi1) as (n & ec' & s' & -> & N1 & N2 & M2).
  { rewrite T1, A1. destruct ec1; cbn; [lia|]. specialize (B3 eq_refl). lia. }
  rewrite T1, A1 in *. exists (n1 + n), ec', s'. rewrite Z.add_assoc.
  split_and!; [done|lia|lia|done|]. eapply moved_join; [lia..|done|done].
Qed.

(** Without a cancellation the asynchronous operation does what the loop does. *)
Lemma op_run_transfer_seq fuel c ec s :
  (forall ec t, 0 <= cc ec t) -> (forall s, cancelled s = false) -> cb_inv c ->
  cb_total c < zlen (cb_all c) -> 0 < cc ec (cb_total c) ->
  op_run fuel c (cb_prepare (cc ec (cb_total c)) c) s = transfer_seq fuel c ec s.
Proof.
  intros Hpos Hcan. revert c ec s. induction fuel as [|fuel IH]; intros c ec s Hi Ht Hcc.
  { cbn. rewrite cb_empty_iff, leb_false, eqb_false by (done || lia). done. }
  cbn [op_run transfer_seq]. rewrite cb_empty_iff, leb_false by (done || lia). cbv zeta.
  rewrite eqb_false by lia. destruct (transfer_some _ s) as [[ec1 n1] s1] eqn:E.
  destruct (transfer_step c _ s ec1 n1 s1 Hi Hcc Ht E) as (B1 & B2 & B3 & _).
  destruct (cb_consume_next c n1 Hi ltac:(lia)) as (Hi1 & T1 & A1).
  unfold op_resume. rewrite Hcan.
  assert (negb (failed ec1) && (n1 =? 0) = false) as ->.
  { destruct ec1; [done|]. specialize (B3 eq_refl). by rewrite eqb_false by lia. }
  cbn [orb]. pose proof (cb_total_bounds _ Hi1) as Hb1. rewrite T1 in Hb1.
  destruct fuel as [|fuel].
  - cbn [transfer_seq op_run]. destruct (cb_empty _); [by rewrite T1|]. cbv zeta.
    by destruct (_ =? _).
  - cbn [transfer_seq]. destruct (cb_empty (cb_consume n1 c)) eqn:Em; [done|]. cbv zeta.
    destruct (Z.eqb_spec (cc ec1 (cb_total (cb_consume n1 c))) 0) as [E0|E0]; [done|].
    rewrite cb_empty_iff in Em by done. apply Z.leb_gt in Em.
    rewrite IH by (done || (specialize (Hpos ec1 (cb_total (cb_consume n1 c))); lia)).
    cbn [transfer_seq]. rewrite cb_empty_iff, leb_false by (done || lia). cbv zeta. by rewrite eqb_false.
Qed.

(** With cancellations the operation ends as well, and its handler is told of no
    error only when its condition is met or the buffers are at their end. *)
Lemma op_run_ends fuel c ec s :
  stops cc -> (forall t, 0 <= cc None t) -> cb_inv c -> cb_total c < zlen (cb_all c) ->
  0 < cc ec (cb_total c) -> zlen (cb_all c) - cb_total c < Z.of_nat fuel ->
  exists n ec' s', op_run fuel c (cb_prepare (cc ec (cb_total c)) c) s = Ok (cb_total c + n, ec', s') /\
    0 <= n <= zlen (cb_all c) - cb_total c /\
    (ec' = None -> cb_total c + n = zlen (cb_all c) \/ cc None (cb_total c + n) = 0) /\
    moved s (ztake n (zdrop (cb_total c) (cb_all c))) s'.
Proof.
  intros Hst Hpos. revert c ec s. induction fuel as [|fuel IH]; intros c ec s Hi Ht Hcc Hf; [lia|].
  pose proof (cb_total_bounds c Hi) as Hb. cbn [op_run]. destruct (transfer_some _ s) as [[ec1 n1] s1] eqn:E.
  destruct (transfer_step c _ s ec1 n1 s1 Hi Hcc Ht E) as (B1 & B2 & B3 & M1).
  destruct (cb_consume_next c n1 Hi ltac:(lia)) as (Hi1 & T1 & A1). unfold op_resume.
  assert (negb (failed ec1) && (n1 =? 0) = false) as ->.
  { destruct ec1; [done|]. specialize (B3 eq_refl). by rewrite eqb_false by lia. }
  cbn [orb]. rewrite cb_empty_iff, T1, A1 by done.
  destruct (Z.leb_spec (zlen (cb_all c)) (cb_total c + n1)) as [L|L].
  { exists n1, ec1, s1. split_and!; [done|lia|lia| |done]. left. lia. }
  cbv zeta. destruct (Z.eqb_spec (cc ec1 (cb_total c + n1)) 0) as [E0|E0].
  { exists n1, ec1, s1. split_and!; [done|lia|lia| |done]. intros ->. by right. }
  destruct ec1 as [e|]; [by rewrite Hst in E0|]. destruct (cancelled s1).
  { exists n1, (Some operation_aborted), s1. by split_and!; [|lia|lia| |]. }
  specialize (B3 eq_refl).
  assert (0 < cc None (cb_total c + n1)) by (pose proof (Hpos (cb_total c + n1)); lia).
  destruct (IH (cb_consume n1 c) None s1 Hi1) as (n & ec' & s' & E' & N1 & N2 & M2);
    [rewrite T1, A1; lia|by rewrite T1|rewrite T1, A1; lia|].
  rewrite T1, A1 in *. rewrite E'. exists (n1 + n), ec', s'. rewrite Z.add_assoc.
  split_and!; [done|lia|lia|done|]. eapply moved_join; [lia..|done|done].
Qed.

End Loops.

(** * Streams of bytes *)

(** What a stream to read from promises: [content] are the bytes still to come. *)
Class ReadStream (R : Type) := {
  read_some : Z -> R -> error_code * list Z * R;
  read_cancelled : R -> bool
}.

Class ReadStreamLaws (R : Type) `{ReadStream R} := {
  content : R -> list Z;
  read_bounds : forall n s ec bs s', read_some n s = (ec, bs, s') -> 0 <= n -> zlen bs <= n;
  read_progress : forall n s bs s', read_some n s = (None, bs, s') -> 0 < n -> bs <> [];
  read_content : forall n s ec bs s', read_some n s = (ec, bs, s') -> content s = bs ++ content s'
}.

(** Reading stores bytes at the addresses of the buffers. *)
Section Reading.
Context {R : Type} `{RS : ReadStream R}.

#[global] Instance read_transfer : Transfer (R * list (Z * Z)) := {
  transfer_some := fun p '(s, stores) =>
    let a := all_addrs p in
    let '(ec, bs, s) := read_some (zlen a) s in
    (ec, zlen bs, (s, stores ++ zip a bs));
  cancelled := fun '(s, _) => read_cancelled s
}.

Context `{RL : ReadStreamLaws R (H := RS)}.

Definition stored : R * list (Z * Z) -> list Z -> R * list (Z * Z) -> Prop :=
  fun '(s, stores) a '(s', stores') => exists bs,
    zlen bs = zlen a /\ content s = bs ++ content s' /\ stores' = stores ++ zip a bs.

Lemma zip_take {A B} (l : list A) (k : list B) : zlen k <= zlen l -> zip l k = zip (ztake (zlen k) l) k.
Proof.
  unfold ztake, zlen. rewrite Nat2Z.id. intros H. revert k H.
  induction l as [|x l IH]; intros [|y k] H; cbn in *; [done..|lia|done|].
  f_equal. apply IH. lia.
Qed.

#[global] Instance read_transfer_laws : TransferLaws (R * list (Z * Z)).
Proof.
  refine {| moved := stored |}.
  - intros [s st]. exists []. by rewrite app_nil_r.
  - intros [s st] a [s1 st1] b [s2 st2] (bs & L & C & ->) (bs' & L' & C' & ->).
    exists (bs ++ bs'). rewrite !zlen_app, C, C', <- !app_assoc. split_and!; [lia|done|].
    by rewrite zip_with_app by (unfold zlen in *; lia).
  - intros p [s st] ec n s'. cbn. destruct (read_some _ s) as [[e bs] s1] eqn:E. intros [= <- <- <-].
    pose proof (read_bounds _ _ _ _ _ E (zlen_nonneg _)). zlen_lia.
  - intros p [s st] n s'. cbn. destruct (read_some _ s) as [[e bs] s1] eqn:E. intros [= -> <- <-] L.
    pose proof (read_progress _ _ _ _ E L) as P. destruct bs; [done|zlen_lia].
  - intros p [s st] ec n s'. cbn. destruct (read_some _ s) as [[e bs] s1] eqn:E. intros [= <- <- <-].
    pose proof (read_bounds _ _ _ _ _ E (zlen_nonneg _)) as B. exists bs. split_and!.
    + rewrite zlen_ztake by zlen_lia. done.
    + by eapply read_content.
    + by rewrite zip_take.
Defined.
End Reading.

(** What a stream to write to promises: [output] are the bytes written so far. *)
Class WriteStream (W : Type) := {
  write_some : list Z -> W -> error_code * Z * W;
  write_cancelled : W -> bool
}.

Class WriteStreamLaws (W : Type) `{WriteStream W} := {
  output : W -> list Z;
  write_bounds : forall bs s ec n s', write_some bs s = (ec, n, s') -> 0 <= n <= zlen bs;
  write_progress : forall bs s n s', write_some bs s = (None, n, s') -> bs <> [] -> 0 < n;
  write_output : forall bs s ec n s', write_some bs s = (ec, n, s') -> output s' = output s ++ ztake n bs
}.

(** Writing takes the bytes from the memory [mem], which stays as it is. *)
Section Writing.
Context {W : Type} `{WS : WriteStream W} (mem : Z -> Z).

Definition write_transfer : Transfer W := {|
  transfer_some := fun p s => write_some (map mem (all_addrs p)) s;
  cancelled := write_cancelled
|}.

Context `{WL : WriteStreamLaws W (H := WS)}.

Definition write_transfer_laws : TransferLaws W (H := write_transfer).
Proof.
  refine {| moved := fun s a s' => output s' = output s ++ map mem a |}; cbn.
  - intros s. by rewrite app_nil_r.
  - intros s a s1 b s2 -> ->. by rewrite map_app, app_assoc.
  - intros p s ec n s' E. rewrite <- (zlen_map mem). by eapply write_bounds.
  - intros p s n s' E L. eapply write_progress; [done|]. intros N%(f_equal zlen). rewrite zlen_map in N. cbn in N. zlen_lia.
  - intros p s ec n s' E. rewrite (write_output _ _ _ _ _ E). f_equal. unfold ztake. by rewrite firstn_map.
Defined.
End Writing.

(** * The composed operations *)

Lemma transfer_all_stops : stops transfer_all.
Proof. by intros e t. Qed.

Lemma transfer_all_none t : transfer_all None t = default_max_transfer_size.
Proof. done. Qed.

Section Read.
Context {C R : Type} `{CL : ConsumingLaws C} `{RL : ReadStreamLaws R}.

(** [read(s, buffers, completion_condition, ec)]; the stores it makes. *)
Definition read (cc : completion_condition) (fuel : nat) (c : C) (s : R) :=
  transfer_seq cc fuel c None (s, []).

(** [async_read], until its handler is called. *)
Definition async_read (cc : completion_condition) (fuel : nat) (c : C) (s : R) :=
  async_transfer cc fuel c (s, []).

(** Turns of the loop that are enough: one for every byte, and one for an error. *)
Definition enough (c : C) : nat := S (S (length (cb_all c))).

(** What was stored are the next bytes of the stream. *)
Lemma stored_bytes (s s' : R) l n stores :
  stored (s, []) (ztake n l) (s', stores) -> 0 <= n <= zlen l ->
  content s = ztake n (content s) ++ content s' /\ stores = zip (ztake n l) (ztake n (content s)) /\
  n <= zlen (content s).
Proof.
  intros (bs & L & E & ->) Hn. rewrite zlen_ztake in L by done.
  assert (n <= zlen (content s)) by (rewrite E, zlen_app; zlen_lia).
  assert (bs = ztake n (content s)) as <- by (rewrite E, <- L; symmetry; apply ztake_app).
  split_and!; done.
Qed.

Lemma async_read_ok (c : C) (s : R) :
  cb_inv c -> cb_total c = 0 -> 0 < zlen (cb_all c) ->
  exists n ec s', async_read transfer_all (enough c) c s
      = Ok (n, ec, (s', zip (ztake n (cb_all c)) (ztake n (content s)))) /\
    content s = ztake n (content s) ++ content s' /\ 0 <= n <= zlen (cb_all c) /\ n <= zlen (content s) /\
    (ec = None -> n = zlen (cb_all c)).
Proof.
  intros Hi Ht Hl. unfold async_read, enough, async_transfer, op_start.
  destruct (op_run_ends transfer_all (S (S (length (cb_all c)))) c None (s, []))
    as (n & ec & [s' st] & E & Hn & Hc & M); [done|done|done|lia|done|unfold zlen; lia|].
  rewrite Ht, Z.add_0_l in *. change (zdrop 0 ?l) with l in M.
  destruct (stored_bytes _ _ _ _ _ M) as (M1 & -> & M2); [lia|].
  exists n, ec, s'. split_and!; [done|done|lia|lia|done|]. intros N. by destruct (Hc N).
Qed.

End Read.

Section Write.
Context {C W : Type} `{CL : ConsumingLaws C} `{WL : WriteStreamLaws W} (mem : Z -> Z).

Definition write (cc : completion_condition) (fuel : nat) (c : C) (s : W) : res (Z * error_code * W) :=
  transfer_seq (TR := write_transfer mem) cc fuel c None s.

Definition async_write (cc : completion_condition) (fuel : nat) (c : C) (s : W) :
    res (Z * error_code * W) :=
  async_transfer (TR := write_transfer mem) cc fuel c s.

End Write.

(** C31: [read] ends, and so does [async_read], whenever it is cancelled: what is
    stored in the buffers, in order, are the next bytes of the stream, and without
    an error all of the buffers are filled; if nothing is cancelled the two do the
    same. *)
Theorem read_fills {C R : Type} `{CL : ConsumingLaws C} `{RL : ReadStreamLaws R} (c : C) (s : R) :
  cb_inv c -> cb_total c = 0 -> 0 < zlen (cb_all c) ->
  (exists n ec s', read transfer_all (enough c) c s
      = Ok (n, ec, (s', zip (ztake n (cb_all c)) (ztake n (content s)))) /\
    content s = ztake n (content s) ++ content s' /\ 0 <= n <= zlen (cb_all c) /\ n <= zlen (content s) /\
    (ec = None -> n = zlen (cb_all c))) /\
  (exists n ec s', async_read transfer_all (enough c) c s
      = Ok (n, ec, (s', zip (ztake n (cb_all c)) (ztake n (content s)))) /\
    content s = ztake n (content s) ++ content s' /\ 0 <= n <= zlen (cb_all c) /\ n <= zlen (content s) /\
    (ec = None -> n = zlen (cb_all c))) /\
  ((forall s' : R, read_cancelled s' = false) ->
    async_read transfer_all (enough c) c s = read transfer_all (enough c) c s).
Proof.
  intros Hi Ht Hl.
  assert (zdrop (cb_total c) (cb_all c) = cb_all c) as Hd by by rewrite Ht.
  split_and!.
  - unfold read, enough. destruct (transfer_seq_ends transfer_all (S (S (length (cb_all c)))) c None (s, []))
      as (n & ec & [s' st] & E & Hn & Hc & M); [done|done|done|unfold zlen; cbn; lia|].
    rewrite Ht, Z.add_0_l in *. rewrite Hd in M. destruct (stored_bytes _ _ _ _ _ M) as (M1 & -> & M2); [lia|].
    exists n, ec, s'. split_and!; [done|done|lia|lia|done|]. intros ->. by destruct Hc.
  - by apply async_read_ok.
  - intros Hcan. apply (op_run_transfer_seq transfer_all);
      [by intros [] ?|intros []; apply Hcan|done|lia|done].
Qed.

(** The same for [write] and [async_write]: the bytes of the buffers are written in
    order, all of them if there is no error. *)
Lemma write_sends {C W : Type} `{CL : ConsumingLaws C} `{WL : WriteStreamLaws W} (mem : Z -> Z)
    (c : C) (s : W) :
  cb_inv c -> cb_total c = 0 -> 0 < zlen (cb_all c) ->
  (exists n ec s', write mem transfer_all (enough c) c s = Ok (n, ec, s') /\
    output s' = output s ++ map mem (ztake n (cb_all c)) /\ 0 <= n <= zlen (cb_all c) /\
    (ec = None -> n = zlen (cb_all c))) /\
  (exists n ec s', async_write mem transfer_all (enough c) c s = Ok (n, ec, s') /\
    output s' = output s ++ map mem (ztake n (cb_all c)) /\ 0 <= n <= zlen (cb_all c) /\
    (ec = None -> n = zlen (cb_all c))).
Proof.
  intros Hi Ht Hl. unfold write, async_write, enough, async_transfer, op_start.
  assert (zdrop (cb_total c) (cb_all c) = cb_all c) as Hd by by rewrite Ht.
  set (TR := write_transfer mem). set (TL := write_transfer_laws mem : TransferLaws W (H := TR)). split.
  - destruct (transfer_seq_ends (TL := TL) transfer_all (S (S (length (cb_all c)))) c None s)
      as (n & ec & s' & E & Hn & Hc & M); [done|done|done|unfold zlen; cbn; lia|].
    rewrite Ht, Z.add_0_l in *. rewrite Hd in M.
    exists n, ec, s'. split_and!; [done|done|lia|lia|]. intros ->. by destruct Hc.
  - destruct (op_run_ends (TL := TL) transfer_all (S (S (length (cb_all c)))) c None s)
      as (n & ec & s' & E & Hn & Hc & M); [done|done|done|lia|done|unfold zlen; lia|].
    rewrite Ht, Z.add_0_l in *. rewrite Hd in M.
    exists n, ec, s'. split_and!; [done|done|lia|lia|]. intros N. by destruct (Hc N).
Qed.

(** [transfer_exactly] bounds what is transferred: without an error it is the
    smaller of [size] and the size of the buffers. *)
Lemma transfer_exactly_bound size t : 0 <= t <= size -> 0 <= transfer_exactly size None t <= size - t.
Proof.
  intros H. unfold transfer_exactly, default_max_transfer_size. cbn [failed orb].
  destruct (Z.leb_spec size t); [lia|]. destruct (Z.ltb_spec (size - t) 65536); lia.
Qed.

Lemma transfer_seq_exactly {C T : Type} `{CL : ConsumingLaws C} `{TL : TransferLaws T} (size : Z) fuel (c : C) ec (s : T) n ec' s' :
  cb_inv c -> cb_total c <= size -> transfer_seq (transfer_exactly size) fuel c ec s = Ok (n, ec', s') ->
  n <= size.
Proof.
  revert c ec s. induction fuel as [|fuel IH]; intros c ec s Hi Hs; cbn [transfer_seq].
  - destruct (cb_empty c); [by intros [= <- _ _]|]. cbv zeta. destruct (_ =? _); [by intros [= <- _ _]|done].
  - pose proof (cb_empty_iff c Hi) as He. destruct (cb_empty c); [by intros [= <- _ _]|]. cbv zeta.
    destruct (Z.eqb_spec (transfer_exactly size ec (cb_total c)) 0) as [|N]; [by intros [= <- _ _]|].
    destruct ec as [e|]; [done|]. pose proof (cb_total_bounds c Hi).
    assert (0 <= cb_total c <= size) as Hts by lia. pose proof (transfer_exactly_bound _ _ Hts).
    destruct (transfer_some _ s) as [[ec1 n1] s1] eqn:E. symmetry in He. apply Z.leb_gt in He.
    assert (0 < transfer_exactly size None (cb_total c)) as Hcc by lia.
    destruct (transfer_step c _ s ec1 n1 s1 Hi Hcc He E)
      as (B1 & B2 & _ & _).
    destruct (cb_consume_next c n1 Hi ltac:(lia)) as (Hi1 & T1 & _). apply IH; [done|lia].
Qed.
