(* ===== verification/DynBuffers.v ===== *)
(** buffer.h: buffers that grow, [dynamic_string_buffer] and [dynamic_vector_buffer].

    The memory of such a buffer is part of its state, and the bytes an operation
    stores in it arrive as a list.  The capacity of a string or vector is what its
    implementation makes of it: a parameter. *)
From S2P Require Import Prelude.

(** Resizing a string or a vector: new elements are zero. *)
Definition resize (n : Z) (l : list Z) : list Z :=
  ztake n l ++ repeat 0 (Z.to_nat (n - zlen l)).

(** The bytes [bs] are stored at [pos]. *)
Definition store_at (pos : Z) (bs l : list Z) : list Z :=
  ztake pos l ++ bs ++ zdrop (pos + zlen bs) l.

Lemma zlen_resize n l : 0 <= n -> zlen (resize n l) = n.
Proof.
  intros H. unfold resize. rewrite zlen_app. unfold zlen, ztake. rewrite length_take, repeat_length. lia.
Qed.

Lemma resize_less n l : 0 <= n <= zlen l -> resize n l = ztake n l.
Proof. intros H. unfold resize. replace (Z.to_nat (n - zlen l)) with O by lia. apply app_nil_r. Qed.

Lemma resize_more n l : zlen l <= n -> exists k, resize n l = l ++ k /\ zlen k = n - zlen l.
Proof.
  intros H. exists (repeat 0 (Z.to_nat (n - zlen l))). unfold resize. rewrite ztake_ge by done.
  split; [done|]. unfold zlen in *. rewrite repeat_length. lia.
Qed.

Lemma store_at_end l bs k :
  zlen bs <= zlen k -> store_at (zlen l) bs (l ++ k) = (l ++ bs) ++ zdrop (zlen bs) k.
Proof.
  intros H. unfold store_at. rewrite ztake_app, <- app_assoc. do 2 f_equal.
  unfold zdrop, zlen. rewrite drop_app_ge by lia. f_equal. lia.
Qed.

(** * What operations that read into such a buffer use of it *)

(** [dr_open n] makes room for [n] bytes ([prepare], or [grow]); [dr_put n bs] keeps
    the bytes [bs] that were stored there ([commit], or [shrink]). *)
Class DynBuffer (B : Type) := {
  dr_size : B -> Z;
  dr_max_size : B -> Z;
  dr_capacity : B -> Z;
  dr_data : B -> list Z;
  dr_open : Z -> B -> res B;
  dr_put : Z -> list Z -> B -> B;
  dr_consume : Z -> B -> B
}.

Class DynBufferLaws (B : Type) `{DynBuffer B} := {
  dr_inv : B -> Prop;
  dr_size_data : forall b, dr_inv b -> dr_size b = zlen (dr_data b);
  dr_bounds : forall b, dr_inv b -> dr_size b <= dr_max_size b < 2 ^ 64;
  dr_open_put : forall b n bs, dr_inv b -> zlen bs <= n <= dr_max_size b - dr_size b ->
    exists b', dr_open n b = Ok b' /\ dr_inv (dr_put n bs b') /\
      dr_data (dr_put n bs b') = dr_data b ++ bs /\ dr_max_size (dr_put n bs b') = dr_max_size b;
  dr_consumed : forall b n, dr_inv b -> 0 <= n ->
    dr_inv (dr_consume n b) /\ dr_data (dr_consume n b) = zdrop n (dr_data b)
}.

(** * [dynamic_string_buffer] and [dynamic_vector_buffer] *)

Module Dynamic.

Definition npos : Z := 2 ^ 64 - 1.

(** The capacity after a string of some capacity was resized. *)
Class Growth := grown : Z -> Z -> Z.

Record dynamic_buffer := mk_dynamic {
  string_ : list Z;
  string_capacity_ : Z;
  size_ : Z;
  max_size_ : Z
}.

#[global] Instance eta_dynamic : Eta dynamic_buffer := fun b =>
  mk_dynamic (string_ b) (string_capacity_ b) (size_ b) (max_size_ b).

Definition dynamic_new (s : list Z) (capacity maximum_size : Z) : dynamic_buffer :=
  mk_dynamic s capacity npos maximum_size.

Definition size (b : dynamic_buffer) : Z :=
  if size_ b =? npos then Z.min (zlen (string_ b)) (max_size_ b) else size_ b.

Definition capacity (b : dynamic_buffer) : Z := Z.min (string_capacity_ b) (max_size_ b).

(** [data()] and [data(pos, n)] *)
Definition data_v1 (b : dynamic_buffer) : list Z := ztake (size_ b) (string_ b).

Definition data_v2 (pos n : Z) (b : dynamic_buffer) : list Z :=
  ztake n (zdrop pos (ztake (max_size_ b) (string_ b))).

Section Grow.
Context `{G : Growth}.

Definition set_string_size (n : Z) (b : dynamic_buffer) : dynamic_buffer :=
  b <| string_ ::= resize n |> <| string_capacity_ ::= grown n |>.

Definition check_length (n : Z) (b : dynamic_buffer) : res unit :=
  if (max_size_ b <? size b) || (max_size_ b - size b <? n) then Throw Length_error else Ok tt.

Definition prepare (n : Z) (b : dynamic_buffer) : res dynamic_buffer :=
  match check_length n b with
  | Throw e => Throw e
  | Ok _ =>
      let b := if size_ b =? npos then b <| size_ := zlen (string_ b) |> else b in
      Ok (set_string_size (u64 (size_ b + n)) b)
  end.

Definition commit (n : Z) (b : dynamic_buffer) : dynamic_buffer :=
  let b := b <| size_ := u64 (size_ b + Z.min n (u64 (zlen (string_ b) - size_ b))) |> in
  set_string_size (size_ b) b.

Definition grow (n : Z) (b : dynamic_buffer) : res dynamic_buffer :=
  match check_length n b with
  | Throw e => Throw e
  | Ok _ => Ok (set_string_size (u64 (size b + n)) b)
  end.

Definition shrink (n : Z) (b : dynamic_buffer) : dynamic_buffer :=
  set_string_size (if size b <? n then 0 else size b - n) b.

Definition consume_v1 (n : Z) (b : dynamic_buffer) : dynamic_buffer :=
  let consume_length := Z.min n (size_ b) in
  b <| string_ ::= zdrop consume_length |> <| size_ := size_ b - consume_length |>.

(** A string erases up to its end, a vector up to the end of the buffer. *)
Definition consume (n : Z) (b : dynamic_buffer) : dynamic_buffer :=
  if size_ b =? npos then b <| string_ ::= zdrop n |> else consume_v1 n b.

Definition consume_vector (n : Z) (b : dynamic_buffer) : dynamic_buffer :=
  if size_ b =? npos then b <| string_ ::= zdrop (Z.min (size b) n) |> else consume_v1 n b.

(** Version 2: the memory is grown, the bytes stored behind the old size, and what
    was not used is given back. *)
#[global] Instance dyn_v2 : DynBuffer dynamic_buffer := {
  dr_size := size;
  dr_max_size := max_size_;
  dr_capacity := capacity;
  dr_data := fun b => data_v2 0 (size b) b;
  dr_open := grow;
  dr_put := fun n bs b => shrink (n - zlen bs) (b <| string_ ::= store_at (size b - n) bs |>);
  dr_consume := consume
}.

(** No version 1 operation was used, and the string fits. *)
Record dyn_inv (b : dynamic_buffer) : Prop := {
  dy_v2 : size_ b = npos;
  dy_fits : zlen (string_ b) <= max_size_ b;
  dy_max : is_u64 (max_size_ b)
}.

Lemma dyn_size b : dyn_inv b -> size b = zlen (string_ b).
Proof. intros [H1 H2 H3]. unfold size. rewrite H1, Z.eqb_refl. lia. Qed.

Lemma dyn_data b : dyn_inv b -> data_v2 0 (size b) b = string_ b.
Proof.
  intros Hi. rewrite dyn_size by done. destruct Hi. unfold data_v2.
  change (zdrop 0 ?l) with l. rewrite (ztake_ge (max_size_ b)) by done. apply ztake_all.
Qed.

#[global] Instance dyn_v2_laws : DynBufferLaws dynamic_buffer.
Proof.
  refine {| dr_inv := dyn_inv |}; cbn.
  - intros b Hi. by rewrite dyn_data, dyn_size.
  - intros b Hi. rewrite dyn_size by done. destruct Hi. unfold_width. lia.
  - intros b n bs Hi Hn. rewrite dyn_data by done. rewrite dyn_size in Hn by done.
    pose proof Hi as [H1 H2 H3]. pose proof (zlen_nonneg bs). pose proof (zlen_nonneg (string_ b)).
    unfold grow, check_length. rewrite dyn_size by done. rewrite !ltb_false by lia. cbn [orb].
    eexists. split; [done|]. rewrite u64_small by (unfold_width; lia).
    destruct (resize_more (zlen (string_ b) + n) (string_ b)) as (k & Er & Lk); [lia|].
    set (b1 := set_string_size _ b).
    assert (string_ b1 = string_ b ++ k /\ size_ b1 = npos /\ max_size_ b1 = max_size_ b) as (S1 & Z1 & M1)
      by (unfold b1, set_string_size; cbn; rewrite Er, H1; done).
    assert (size b1 = zlen (string_ b) + n) as Sz
      by (rewrite dyn_size; [rewrite S1, zlen_app; lia|]; split; [done|rewrite S1, zlen_app; lia|by rewrite M1]).
    set (b2 := b1 <| string_ ::= _ |>).
    assert (string_ b2 = (string_ b ++ bs) ++ zdrop (zlen bs) k) as S2.
    { change (string_ b2) with (store_at (size b1 - n) bs (string_ b1)). rewrite S1, Sz. replace (_ + n - n) with (zlen (string_ b)) by lia.
      apply store_at_end. lia. }
    assert (zlen (string_ b2) = zlen (string_ b) + n) as L2
      by (rewrite S2, !zlen_app, zlen_zdrop; lia).
    assert (dyn_inv b2) as I2.
    { split; [done|..]; change (max_size_ b2) with (max_size_ b1); rewrite M1; [lia|done]. }
    unfold shrink. rewrite dyn_size by done. rewrite L2, ltb_false by lia.
    set (b3 := set_string_size _ b2).
    assert (string_ b3 = string_ b ++ bs) as S3.
    { change (string_ b3) with (resize (zlen (string_ b) + n - (n - zlen bs)) (string_ b2)).
      rewrite resize_less by lia.
      replace (zlen (string_ b) + n - (n - zlen bs)) with (zlen (string_ b ++ bs)) by (rewrite zlen_app; lia).
      rewrite S2. apply ztake_app. }
    assert (dyn_inv b3) as I3.
    { split; [done| |by destruct I2]. rewrite S3, zlen_app. change (max_size_ b3) with (max_size_ b1). lia. }
    split_and!; [done| |done]. by rewrite dyn_data.
  - intros b n Hi Hn. pose proof Hi as [H1 H2 H3]. unfold consume. rewrite H1, Z.eqb_refl.
    assert (dyn_inv (b <| string_ ::= zdrop n |>)) as I.
    { split; cbn; [done| |done]. unfold zlen, zdrop in *. rewrite length_drop. lia. }
    split; [done|]. by rewrite !dyn_data.
Defined.
End Grow.

End Dynamic.
