(* ===== verification/BasicStreambuf.v ===== *)
(** basic_streambuf.h: a stream buffer as a dynamic buffer.

    The memory of the buffer is a vector; the pointers of [std::streambuf] are offsets
    into it. *)
From S2P Require Import Prelude DynBuffers.

Module Streambuf.

(** The pointers of [std::streambuf] as offsets from the start of the vector, where
    the get area begins. *)
Record basic_streambuf := mk_streambuf {
  max_size_ : Z;
  buffer_ : list Z;
  gptr : Z;
  egptr : Z;
  pptr : Z;
  epptr : Z
}.

#[global] Instance eta_streambuf : Eta basic_streambuf := fun b =>
  mk_streambuf (max_size_ b) (buffer_ b) (gptr b) (egptr b) (pptr b) (epptr b).

Definition buffer_delta : Z := 128.

Definition streambuf_new (maximum_size : Z) : basic_streambuf :=
  let pend := Z.min maximum_size buffer_delta in
  mk_streambuf maximum_size (resize (Z.max pend 1) []) 0 0 0 pend.

Definition size (b : basic_streambuf) : Z := pptr b - gptr b.

Definition data (b : basic_streambuf) : list Z := ztake (size b) (zdrop (gptr b) (buffer_ b)).

(** Makes room for [n] bytes in the put area. *)
Definition reserve (n : Z) (b : basic_streambuf) : res basic_streambuf :=
  let gnext := gptr b in
  let pnext := pptr b in
  let pend := epptr b in
  if n <=? pend - pnext then Ok b
  else
    (* what is in the get area moves to the start *)
    let '(pnext, buffer) :=
      if 0 <? gnext
      then (pnext - gnext, store_at 0 (ztake (pnext - gnext) (zdrop gnext (buffer_ b))) (buffer_ b))
      else (pnext, buffer_ b) in
    if pend - pnext <? n then
      if (n <=? max_size_ b) && (pnext <=? max_size_ b - n) then
        let pend := pnext + n in
        Ok (mk_streambuf (max_size_ b) (resize (Z.max pend 1) buffer) 0 pnext pnext pend)
      else Throw Length_error
    else Ok (mk_streambuf (max_size_ b) buffer 0 pnext pnext pend).

Definition commit (n : Z) (b : basic_streambuf) : basic_streambuf :=
  let n := Z.min n (epptr b - pptr b) in
  b <| pptr := pptr b + n |> <| egptr := pptr b + n |>.

Definition consume (n : Z) (b : basic_streambuf) : basic_streambuf :=
  let b := if egptr b <? pptr b then b <| egptr := pptr b |> else b in
  let n := if pptr b <? gptr b + n then pptr b - gptr b else n in
  b <| gptr := gptr b + n |>.

(** The next character, [None] at the end. *)
Definition underflow (b : basic_streambuf) : option Z * basic_streambuf :=
  if gptr b <? pptr b then (buffer_ b !! Z.to_nat (gptr b), b <| egptr := pptr b |>) else (None, b).

(** A character is put into the buffer. *)
Definition overflow (c : Z) (b : basic_streambuf) : res basic_streambuf :=
  let room :=
    if pptr b =? epptr b then
      let buffer_size := pptr b - gptr b in
      if (buffer_size <? max_size_ b) && (max_size_ b - buffer_size <? buffer_delta)
      then reserve (max_size_ b - buffer_size) b
      else reserve buffer_delta b
    else Ok b in
  match room with
  | Throw e => Throw e
  | Ok b => Ok (b <| buffer_ ::= store_at (pptr b) [c] |> <| pptr ::= Z.add 1 |>)
  end.

Section Capacity.
(** The capacity of a vector of some size. *)
Context (vector_capacity : Z -> Z).

#[global] Instance streambuf_dyn : DynBuffer basic_streambuf := {
  dr_size := size;
  dr_max_size := max_size_;
  dr_capacity := fun b => vector_capacity (zlen (buffer_ b));
  dr_data := data;
  dr_open := reserve;
  dr_put := fun _ bs b => commit (zlen bs) (b <| buffer_ ::= store_at (pptr b) bs |>);
  dr_consume := consume
}.

Record streambuf_inv (b : basic_streambuf) : Prop := {
  sb_get : 0 <= gptr b <= egptr b;
  sb_put : egptr b <= pptr b <= epptr b;
  sb_end : zlen (buffer_ b) = Z.max (epptr b) 1;
  sb_size : epptr b <= max_size_ b < 2 ^ 64
}.

(** The bytes of the get area, what is before it and what is behind it. *)
Lemma streambuf_split b :
  streambuf_inv b -> exists pre post, buffer_ b = pre ++ data b ++ post /\ zlen pre = gptr b /\
    zlen (data b) = size b.
Proof.
  intros [Hg Hp He Hs]. exists (ztake (gptr b) (buffer_ b)), (zdrop (size b) (zdrop (gptr b) (buffer_ b))).
  unfold data. rewrite !ztake_zdrop. split; [done|]. unfold size.
  rewrite !zlen_ztake; [done|rewrite zlen_zdrop|]; lia.
Qed.

(** Making room keeps the bytes. *)
Lemma reserve_ok n b :
  streambuf_inv b -> 0 <= n <= max_size_ b - size b ->
  exists b', reserve n b = Ok b' /\ streambuf_inv b' /\ data b' = data b /\ n <= epptr b' - pptr b' /\
    max_size_ b' = max_size_ b.
Proof.
  intros Hi Hn. pose proof Hi as [Hg Hp He Hs]. unfold reserve.
  destruct (Z.leb_spec n (epptr b - pptr b)) as [L|L]; [by exists b|].
  destruct (streambuf_split b Hi) as (pre & post & Eb & Lp & Ld). unfold size in *.
  assert (exists buf, (if 0 <? gptr b
      then (pptr b - gptr b, store_at 0 (ztake (pptr b - gptr b) (zdrop (gptr b) (buffer_ b))) (buffer_ b))
      else (pptr b, buffer_ b)) = (pptr b - gptr b, data b ++ buf) /\
    zlen (data b ++ buf) = zlen (buffer_ b)) as (buf & -> & Lb).
  { change (ztake (pptr b - gptr b) (zdrop (gptr b) (buffer_ b))) with (data b).
    destruct (Z.ltb_spec 0 (gptr b)).
    - exists (zdrop (zlen (data b)) (buffer_ b)). split; [done|].
      rewrite zlen_app, zlen_zdrop; lia.
    - assert (pre = []) as -> by (apply zlen_0_nil; lia). exists post. rewrite Eb. split; [|done].
      f_equal. lia. }
  assert (forall b', gptr b' = 0 -> pptr b' = zlen (data b) -> (exists k, buffer_ b' = data b ++ k) ->
    data b' = data b) as Hdata.
  { intros b' G P [k E]. unfold data at 1, size. rewrite G, P, E, Z.sub_0_r.
    change (zdrop 0 ?l) with l. apply ztake_app. }
  destruct (Z.ltb_spec (epptr b - (pptr b - gptr b)) n) as [L2|L2].
  - rewrite !leb_true by lia. cbn [andb]. eexists. split; [done|].
    destruct (resize_more (Z.max (pptr b - gptr b + n) 1) (data b ++ buf)) as (k & Er & Lk); [lia|].
    split_and!.
    + split; cbn; try lia. rewrite Er, zlen_app, Lk. lia.
    + apply Hdata; cbn; [done|lia|]. rewrite Er, <- app_assoc. by eexists.
    + cbn. lia.
    + done.
  - eexists. split; [done|]. split_and!; [split; cbn; lia|apply Hdata; cbn; [done|lia|by eexists]|cbn; lia|done].
Qed.
(** Bytes stored behind the get area. *)
Lemma put_split b bs :
  streambuf_inv b -> zlen bs <= epptr b - pptr b ->
  exists pre post, store_at (pptr b) bs (buffer_ b) = pre ++ (data b ++ bs) ++ post /\ zlen pre = gptr b /\
    zlen (store_at (pptr b) bs (buffer_ b)) = zlen (buffer_ b).
Proof.
  intros Hi Hb. destruct (streambuf_split b Hi) as (pre & post & E & Lp & Ld). destruct Hi as [Hg Hp He Hs].
  unfold size in Ld. assert (pptr b = zlen (pre ++ data b)) as P by (rewrite zlen_app; lia).
  assert (zlen (buffer_ b) = pptr b + zlen post) as L by (rewrite E, app_assoc, zlen_app; lia).
  exists pre, (zdrop (zlen bs) post). rewrite L, E, P, app_assoc, store_at_end by lia.
  pose proof (zlen_nonneg bs). rewrite !zlen_app, zlen_zdrop by lia. rewrite <- !app_assoc. split_and!; [done|done|lia].
Qed.

Lemma data_of b pre d post :
  buffer_ b = pre ++ d ++ post -> zlen pre = gptr b -> size b = zlen d -> data b = d.
Proof. intros E P L. unfold data. by rewrite E, L, <- P, zdrop_app, ztake_app. Qed.

Lemma commit_ok b bs :
  streambuf_inv b -> zlen bs <= epptr b - pptr b ->
  let b' := commit (zlen bs) (b <| buffer_ ::= store_at (pptr b) bs |>) in
  streambuf_inv b' /\ data b' = data b ++ bs /\ max_size_ b' = max_size_ b.
Proof.
  intros Hi Hb. destruct (put_split b bs Hi Hb) as (pre & post & E & Lp & L).
  destruct (streambuf_split b Hi) as (_ & _ & _ & _ & Ld). unfold size in Ld.
  destruct Hi as [Hg Hp He Hs]. pose proof (zlen_nonneg bs). cbv zeta. split_and!.
  - split; cbn; rewrite ?L; lia.
  - apply (data_of _ pre _ post); [exact E|exact Lp|]. unfold size. cbn. rewrite zlen_app. lia.
  - done.
Qed.

(** A character put behind the get area. *)
Lemma bump_ok b c :
  streambuf_inv b -> pptr b < epptr b ->
  let b' := b <| buffer_ ::= store_at (pptr b) [c] |> <| pptr ::= Z.add 1 |> in
  streambuf_inv b' /\ data b' = data b ++ [c].
Proof.
  intros Hi Hb. destruct (put_split b [c] Hi) as (pre & post & E & Lp & L); [zlen_lia|].
  destruct (streambuf_split b Hi) as (_ & _ & _ & _ & Ld). unfold size in Ld.
  destruct Hi as [Hg Hp He Hs]. cbv zeta. split.
  - split; cbn; rewrite ?L; lia.
  - apply (data_of _ pre _ post); [exact E|exact Lp|]. unfold size. cbn. rewrite zlen_app. zlen_lia.
Qed.

(** Room for a character. *)
Lemma overflow_ok c b :
  streambuf_inv b -> size b < max_size_ b ->
  exists b', overflow c b = Ok b' /\ streambuf_inv b' /\ data b' = data b ++ [c].
Proof.
  intros Hi L. unfold overflow. cbv zeta. pose proof Hi as [Hg Hp He Hs]. unfold size in L.
  assert (exists b', (if pptr b =? epptr b then
      if (pptr b - gptr b <? max_size_ b) && (max_size_ b - (pptr b - gptr b) <? buffer_delta)
      then reserve (max_size_ b - (pptr b - gptr b)) b else reserve buffer_delta b
    else Ok b) = Ok b' /\ streambuf_inv b' /\ data b' = data b /\ pptr b' < epptr b') as (b' & -> & I & D & R).
  { destruct (Z.eqb_spec (pptr b) (epptr b)); [|exists b; split_and!; [done|done|done|lia]].
    rewrite ltb_true by lia. cbn [andb]. unfold buffer_delta.
    destruct (Z.ltb_spec (max_size_ b - (pptr b - gptr b)) 128);
      [destruct (reserve_ok (max_size_ b - (pptr b - gptr b)) b Hi) as (b' & ? & ? & ? & ? & ?)
      |destruct (reserve_ok 128 b Hi) as (b' & ? & ? & ? & ? & ?)]; unfold size; try lia;
      exists b'; split_and!; done || lia. }
  eexists. split; [done|]. rewrite <- D. by apply bump_ok.
Qed.

Lemma overflow_full c b :
  streambuf_inv b -> size b = max_size_ b -> overflow c b = Throw Length_error.
Proof.
  intros [Hg Hp He Hs] L. unfold size in L. unfold overflow, reserve, buffer_delta. cbv zeta.
  replace (pptr b =? epptr b) with true by (symmetry; apply Z.eqb_eq; lia).
  rewrite (ltb_false (pptr b - gptr b)), (leb_false 128), (ltb_false 0 (gptr b)) by lia. cbn [andb].
  rewrite ltb_true by lia. by rewrite (leb_false (pptr b)), andb_false_r by lia.
Qed.

Lemma underflow_head b : streambuf_inv b -> fst (underflow b) = head (data b).
Proof.
  intros Hi. destruct (streambuf_split b Hi) as (pre & post & E & Lp & Ld). unfold size in Ld.
  destruct Hi as [Hg Hp He Hs]. unfold underflow.
  destruct (Z.ltb_spec (gptr b) (pptr b)) as [L|L]; cbn.
  - rewrite E. unfold zlen in Lp. rewrite lookup_app_r by lia.
    replace (Z.to_nat (gptr b) - length pre)%nat with O by lia.
    destruct (data b); [rewrite zlen_nil in Ld; lia|done].
  - by rewrite (zlen_0_nil (data b)) by lia.
Qed.

Lemma underflow_keeps b :
  streambuf_inv b -> streambuf_inv (snd (underflow b)) /\ data (snd (underflow b)) = data b.
Proof.
  intros [Hg Hp He Hs]. unfold underflow. destruct (Z.ltb_spec (gptr b) (pptr b)); [|done].
  split; [split; cbn; lia|done].
Qed.

Lemma consume_ok n b :
  streambuf_inv b -> 0 <= n -> streambuf_inv (consume n b) /\ data (consume n b) = zdrop n (data b).
Proof.
  intros Hi Hn. destruct (streambuf_split b Hi) as (pre & post & E & Lp & Ld). unfold size in Ld.
  destruct Hi as [Hg Hp He Hs]. split.
  { unfold consume. destruct (Z.ltb_spec (egptr b) (pptr b)); cbn;
      destruct (Z.ltb_spec (pptr b) (gptr b + n)); split; cbn; lia. }
  assert (gptr (consume n b) = gptr b + Z.min n (zlen (data b)) /\ pptr (consume n b) = pptr b /\
    buffer_ (consume n b) = buffer_ b) as (G & P & B).
  { unfold consume. destruct (egptr b <? pptr b); cbn; destruct (Z.ltb_spec (pptr b) (gptr b + n));
      split_and!; done || lia. }
  set (m := Z.min n (zlen (data b))) in *.
  replace (zdrop n (data b)) with (zdrop m (data b)).
  2:{ unfold m. destruct (Z.le_gt_cases n (zlen (data b))); [f_equal; lia|]. rewrite !zdrop_ge by lia. done. }
  apply (data_of _ (pre ++ ztake m (data b)) _ post).
  - rewrite B, E. rewrite <- app_assoc. f_equal. by rewrite app_assoc, ztake_zdrop.
  - rewrite zlen_app, zlen_ztake by lia. lia.
  - unfold size. rewrite G, P, zlen_zdrop by lia. lia.
Qed.
#[global] Instance streambuf_laws : DynBufferLaws basic_streambuf.
Proof.
  refine {| dr_inv := streambuf_inv |}; cbn.
  - intros b Hi. by destruct (streambuf_split b Hi) as (_ & _ & _ & _ & ->).
  - intros b [Hg Hp He Hs]. unfold size. lia.
  - intros b n bs Hi Hn. pose proof (zlen_nonneg bs).
    destruct (reserve_ok n b Hi ltac:(lia)) as (b' & E & Hi' & Ed & Er & Em).
    exists b'. split; [done|]. destruct (commit_ok b' bs Hi' ltac:(lia)) as (I & D & M).
    by rewrite <- Ed, <- Em.
  - intros b n. by apply consume_ok.
Defined.
End Capacity.

End Streambuf.

(** The get and put areas of a stream buffer are a queue of bytes: characters go to
    its end while it is below its maximum, and are looked at and consumed at its
    front. *)
Theorem streambuf_queue (b : Streambuf.basic_streambuf) (c n : Z) :
  Streambuf.streambuf_inv b -> 0 <= n ->
  (Streambuf.size b < Streambuf.max_size_ b -> exists b', Streambuf.overflow c b = Ok b' /\
    Streambuf.streambuf_inv b' /\ Streambuf.data b' = Streambuf.data b ++ [c]) /\
  (Streambuf.size b = Streambuf.max_size_ b -> Streambuf.overflow c b = Throw Length_error) /\
  fst (Streambuf.underflow b) = head (Streambuf.data b) /\
  Streambuf.data (snd (Streambuf.underflow b)) = Streambuf.data b /\
  Streambuf.data (Streambuf.consume n b) = zdrop n (Streambuf.data b).
Proof.
  intros Hi Hn. split_and!.
  - by apply Streambuf.overflow_ok.
  - by apply Streambuf.overflow_full.
  - by apply Streambuf.underflow_head.
  - by apply Streambuf.underflow_keeps.
  - by apply Streambuf.consume_ok.
Qed.
