(* ===== verification/ReadUntil.v ===== *)
(** impl/read_until.h and the reads into buffers that grow (impl/read.h): reading until
    a delimiter is in the buffer.

    The overloads for a character, a string and a match condition are one loop with a
    function [look] that searches the data from a position on; those for the two
    versions of dynamic buffers are one loop over the class [DynBuffer]. *)
From S2P Require Import Prelude DynBuffers IoBuffers Composed.

(** * Searching *)

Inductive attempt := Full | Partial | Mismatch.

(** The inner loop of [partial_search]; [first]: nothing is compared yet. *)
Fixpoint test_match (l delim : list Z) (first : bool) {struct delim} : attempt :=
  match delim with
  | [] => Full
  | y :: delim =>
      match l with
      | [] => if first then Mismatch else Partial
      | x :: l => if x =? y then test_match l delim false else Mismatch
      end
  end.

(** The offset of a full match ([true]) or of a partial one at the end; the length
    of [l] if there is none. *)
Fixpoint partial_search (l delim : list Z) : Z * bool :=
  match l with
  | [] => (0, false)
  | _ :: l' =>
      match test_match l delim true with
      | Full => (0, true)
      | Partial => (0, false)
      | Mismatch => let '(i, full) := partial_search l' delim in (1 + i, full)
      end
  end.

(** What a search tells: a match that ends at [n], or where to go on. *)
Inductive found := Match (n : Z) | Search (search_position : Z).

Definition look_string (delim data : list Z) (search_position : Z) : found :=
  let '(i, full) := partial_search (zdrop search_position data) delim in
  if (search_position + i =? zlen data) then Search (zlen data)
  else if full then Match (search_position + i + zlen delim) else Search (search_position + i).

(** [std::find] *)
Fixpoint find_char (l : list Z) (delim : Z) : Z :=
  match l with
  | [] => 0
  | x :: l => if x =? delim then 0 else 1 + find_char l delim
  end.

Definition look_char (delim : Z) (data : list Z) (search_position : Z) : found :=
  let i := search_position + find_char (zdrop search_position data) delim in
  if i =? zlen data then Search (zlen data) else Match (i + 1).

(** A match condition of the user, which tells where a match ends or may begin. *)
Definition look_match (match_condition : list Z -> Z * bool) (data : list Z) (search_position : Z) : found :=
  let '(i, full) := match_condition (zdrop search_position data) in
  if full then Match (search_position + i) else Search (search_position + i).

(** * The loops *)

Section Loops.
Context {B R : Type} `{DB : DynBuffer B} `{RS : ReadStream R}.

(** How many bytes are asked for. *)
Definition bytes_to_read (limit : Z) (b : B) : Z :=
  Z.min (Z.max 512 (u64 (dr_capacity b - dr_size b))) (Z.min limit (u64 (dr_max_size b - dr_size b))).

Section Until.
Context (look : list Z -> Z -> found).

(** [read_until]: the result, the error, the buffer and the stream. *)
Fixpoint read_until (fuel : nat) (b : B) (search_position : Z) (s : R) :
    res (Z * error_code * B * R) :=
  match look (dr_data b) search_position with
  | Match n => Ok (n, None, b, s)
  | Search search_position =>
      if dr_size b =? dr_max_size b then Ok (0, Some not_found, b, s)
      else
        match fuel with
        | O => Throw Blocked
        | S fuel =>
            let n := bytes_to_read 65536 b in
            match dr_open n b with
            | Throw e => Throw e
            | Ok b =>
                let '(ec, bs, s) := read_some n s in
                let b := dr_put n bs b in
                if failed ec then Ok (0, ec, b, s) else read_until fuel b search_position s
            end
        end
  end.

Definition npos : Z := 2 ^ 64 - 1.

(** [read_until_delim_op], [read_until_delim_string_op], [read_until_match_op]: the
    search before an operation of the stream. *)
Definition until_search (b : B) (search_position : Z) : Z * Z :=
  match look (dr_data b) search_position with
  | Match n => (n, 0)
  | Search search_position =>
      if dr_size b =? dr_max_size b then (npos, 0)
      else (search_position, bytes_to_read 65536 b)
  end.

(** The call of the handler. *)
Definition until_result (ec : error_code) (search_position : Z) : error_code * Z :=
  (if search_position =? npos then Some not_found else ec,
   if failed ec || (search_position =? npos) then 0 else search_position).

(** The operation from a search on; [start]: it is the first one, after which the
    stream is read in any case. *)
Fixpoint until_run (fuel : nat) (start : bool) (b : B) (search_position : Z) (s : R) :
    res (Z * error_code * B * R) :=
  let '(search_position, n) := until_search b search_position in
  if negb start && (n =? 0) then
    let '(ec, n) := until_result None search_position in Ok (n, ec, b, s)
  else
    match fuel with
    | O => Throw Blocked
    | S fuel =>
        match dr_open n b with
        | Throw e => Throw e
        | Ok b =>
            let '(ec, bs, s) := read_some n s in
            let b := dr_put n bs b in
            if failed ec || (zlen bs =? 0) then
              let '(ec, n) := until_result ec search_position in Ok (n, ec, b, s)
            else if read_cancelled s then
              let '(ec, n) := until_result (Some operation_aborted) search_position in Ok (n, ec, b, s)
            else until_run fuel false b search_position s
        end
    end.

Definition async_read_until (fuel : nat) (b : B) (s : R) : res (Z * error_code * B * R) :=
  until_run fuel true b 0 s.
End Until.

(** [read] into a dynamic buffer: the bytes read, the error, the buffer and the
    stream. *)
Fixpoint read_dynbuf (cc : completion_condition) (fuel : nat) (b : B) (total_transferred : Z)
    (ec : error_code) (s : R) : res (Z * error_code * B * R) :=
  let n := bytes_to_read (cc ec total_transferred) b in
  if n =? 0 then Ok (total_transferred, ec, b, s)
  else
    match fuel with
    | O => Throw Blocked
    | S fuel =>
        match dr_open n b with
        | Throw e => Throw e
        | Ok b =>
            let '(ec, bs, s) := read_some n s in
            read_dynbuf cc fuel (dr_put n bs b) (u64 (total_transferred + zlen bs)) ec s
        end
    end.
End Loops.

(** * Where a delimiter is *)

(** [delim] is at offset [i]. *)
Definition at_offset (delim l : list Z) (i : Z) : Prop := 0 <= i /\ delim `prefix_of` zdrop i l.

(** The first match ends at [n]. *)
Definition first_match (delim l : list Z) (n : Z) : Prop :=
  at_offset delim l (n - zlen delim) /\ n <= zlen l /\ forall j, j < n - zlen delim -> ~ at_offset delim l j.

(** At offset [i] a byte of [l] differs from the delimiter, so that whatever follows
    [l] there is no match. *)
Definition differs (delim l : list Z) : Prop :=
  exists a x y b c, l = a ++ x :: b /\ delim = a ++ y :: c /\ x <> y.

Lemma differs_no_match delim l more : differs delim l -> ~ delim `prefix_of` l ++ more.
Proof.
  intros (a & x & y & b & c & -> & -> & N) [k E]. rewrite <- !app_assoc in E. apply app_inv_head in E. by inversion E.
Qed.

Lemma test_match_spec l delim first :
  match test_match l delim first with
  | Full => delim `prefix_of` l
  | Partial => exists k, delim = l ++ k /\ k <> []
  | Mismatch => differs delim l \/ (first = true /\ l = [])
  end.
Proof.
  revert l first. induction delim as [|y delim IH]; intros l first; [apply prefix_nil|].
  destruct l as [|x l]; cbn [test_match].
  { destruct first; [by right|]. by exists (y :: delim). }
  destruct (Z.eqb_spec x y) as [->|N].
  - specialize (IH l false). destruct (test_match l delim false).
    + by apply prefix_cons.
    + destruct IH as (k & -> & Hk). by exists k.
    + destruct IH as [(a & x' & y' & b & c & -> & -> & N)|[? _]]; [|done].
      left. by exists (y :: a), x', y', b, c.
  - left. by exists [], x, y, l, delim.
Qed.

(** No match starts before [pos], whatever follows. *)
Definition searched (delim data : list Z) (pos : Z) : Prop :=
  0 <= pos <= zlen data /\ forall j, 0 <= j < pos -> differs delim (zdrop j data).

Lemma searched_no_match delim data pos more j :
  searched delim data pos -> j < pos -> ~ at_offset delim (data ++ more) j.
Proof.
  intros [Hp Hs] Hj [H0 H]. eapply differs_no_match; [apply (Hs j); lia|].
  rewrite zdrop_app_le in H by lia. done.
Qed.

Lemma searched_more delim data more pos : searched delim data pos -> searched delim (data ++ more) pos.
Proof.
  intros [Hp Hs]. split; [rewrite zlen_app; zlen_lia|]. intros j Hj. rewrite zdrop_app_le by lia.
  destruct (Hs j Hj) as (a & x & y & b & c & -> & -> & N). exists a, x, y, (b ++ more), c. by rewrite <- app_assoc.
Qed.

(** ** The search for a string *)

Lemma partial_search_spec l delim :
  delim <> [] ->
  let '(i, full) := partial_search l delim in
  searched delim l i /\
  (full = true -> i < zlen l /\ delim `prefix_of` zdrop i l) /\
  (full = false -> forall j, ~ at_offset delim l j).
Proof.
  intros Hd. induction l as [|x l IH]; cbn [partial_search].
  { split_and!; [split; [zlen_lia|lia]|done|]. intros _ j [Hj H]. unfold zdrop in H. rewrite drop_nil in H.
    by apply prefix_nil_inv in H. }
  pose proof (test_match_spec (x :: l) delim true) as T.
  destruct (test_match (x :: l) delim true).
  - split_and!; [split; [zlen_lia|lia]| |done]. intros _. split; [zlen_lia|done].
  - split_and!; [split; [zlen_lia|lia]|done|]. intros _ j [Hj [k H]]. destruct T as (k' & E & Hk).
    apply (f_equal zlen) in H. rewrite E, !zlen_app in H. unfold zdrop, zlen in H. rewrite length_drop in H.
    destruct k'; [done|]. cbn in H. lia.
  - destruct T as [T|[_ ?]]; [|done]. destruct (partial_search l delim) as [i full].
    destruct IH as ([Hi Hs] & Hf & Hn).
    assert (forall j, 0 < j -> zdrop j (x :: l) = zdrop (j - 1) l) as Hz.
    { intros j Hj. unfold zdrop. replace (Z.to_nat j) with (S (Z.to_nat (j - 1))) by lia. done. }
    split_and!.
    + split; [zlen_lia|]. intros j Hj. destruct (Z.eq_dec j 0) as [->|]; [done|].
      rewrite Hz by lia. apply Hs. lia.
    + intros F. destruct (Hf F) as [? ?]. rewrite Hz by lia. replace (1 + i - 1) with i by lia. split; [zlen_lia|done].
    + intros F j [Hj H]. destruct (Z.eq_dec j 0) as [->|].
      * apply (differs_no_match delim (x :: l) []); [done|]. by rewrite app_nil_r.
      * rewrite Hz in H by lia. apply (Hn F (j - 1)). split; [lia|done].
Qed.

(** A function that searches for [delim]: a match is the first one, and otherwise
    there is none and none before the position where to go on. *)
Definition looks_for (delim : list Z) (look : list Z -> Z -> found) : Prop := forall data pos,
  searched delim data pos ->
  match look data pos with
  | Match n => first_match delim data n
  | Search pos' => searched delim data pos' /\ forall j, ~ at_offset delim data j
  end.

Lemma searched_from delim data pos i :
  searched delim data pos -> searched delim (zdrop pos data) i -> searched delim data (pos + i).
Proof.
  intros [Hp Hs] [Hi Hs']. rewrite zlen_zdrop in Hi by lia. split; [lia|]. intros j Hj.
  destruct (Z.lt_ge_cases j pos); [apply Hs; lia|]. specialize (Hs' (j - pos) ltac:(lia)).
  unfold zdrop in Hs'. rewrite drop_drop in Hs'. unfold zdrop.
  by replace (Z.to_nat j) with (Z.to_nat pos + Z.to_nat (j - pos))%nat by lia.
Qed.

Lemma at_offset_from delim data pos j :
  0 <= pos -> at_offset delim data j -> pos <= j -> at_offset delim (zdrop pos data) (j - pos).
Proof.
  intros Hp [Hj H] L. split; [lia|]. unfold zdrop in *. rewrite drop_drop.
  by replace (Z.to_nat pos + Z.to_nat (j - pos))%nat with (Z.to_nat j) by lia.
Qed.

Lemma look_string_looks delim : delim <> [] -> looks_for delim (look_string delim).
Proof.
  intros Hd data pos Hs. unfold look_string. pose proof (partial_search_spec (zdrop pos data) delim Hd) as P.
  destruct (partial_search (zdrop pos data) delim) as [i full]. destruct P as (Si & Hf & Hn).
  pose proof Hs as [Hp _]. pose proof (searched_from _ _ _ _ Hs Si) as Spi.
  assert (full = false -> forall j, ~ at_offset delim data j) as Hno.
  { intros F j A. destruct (Z.lt_ge_cases j pos) as [L|L].
    - apply (searched_no_match delim data pos [] j Hs L). by rewrite app_nil_r.
    - apply (Hn F (j - pos)). by apply at_offset_from; [lia|..]. }
  assert (full = true -> pos + i < zlen data) as Hlt.
  { intros F. destruct (Hf F) as [L _]. rewrite zlen_zdrop in L by lia. lia. }
  destruct (Z.eqb_spec (pos + i) (zlen data)) as [E|E].
  - destruct full; [lia|]. rewrite <- E. split; [done|by apply Hno].
  - destruct full; [|split; [done|by apply Hno]]. destruct (Hf eq_refl) as [_ [k H]].
    unfold zdrop in H. rewrite drop_drop in H. destruct Si as [Hi _]. unfold first_match.
    replace (pos + i + zlen delim - zlen delim) with (pos + i) by lia.
    replace (Z.to_nat pos + Z.to_nat i)%nat with (Z.to_nat (pos + i)) in H by lia. split_and!.
    + split; [lia|]. exists k. done.
    + apply (f_equal zlen) in H. rewrite zlen_app in H. unfold zlen in *. rewrite length_drop in H. lia.
    + intros j Hj A. apply (searched_no_match delim data (pos + i) [] j); [done|lia|]. by rewrite app_nil_r.
Qed.

(** ** The search for a character *)

Lemma partial_search_char l c : partial_search l [c] = (find_char l c, find_char l c <? zlen l).
Proof.
  induction l as [|x l IH]; [done|]. cbn [partial_search find_char test_match].
  destruct (Z.eqb_spec x c) as [->|N]; [by rewrite ltb_true by zlen_lia|].
  rewrite IH. f_equal. rewrite zlen_cons. destruct (Z.ltb_spec (find_char l c) (zlen l));
    [by rewrite ltb_true by lia|by rewrite ltb_false by lia].
Qed.

Lemma find_char_bounds l c : 0 <= find_char l c <= zlen l.
Proof. induction l as [|x l IH]; [done|]. cbn [find_char]. rewrite zlen_cons. destruct (x =? c); zlen_lia. Qed.

(** A character is found as the string of it is. *)
Lemma look_char_string c data pos :
  0 <= pos <= zlen data -> look_char c data pos = look_string [c] data pos.
Proof.
  intros Hp. unfold look_char, look_string. rewrite partial_search_char. cbv zeta.
  pose proof (find_char_bounds (zdrop pos data) c) as H. rewrite zlen_zdrop in H by lia.
  destruct (Z.eqb_spec (pos + find_char (zdrop pos data) c) (zlen data)); [done|].
  rewrite zlen_zdrop, ltb_true by lia. done.
Qed.

Lemma look_char_looks c : looks_for [c] (look_char c).
Proof.
  intros data pos Hs. rewrite look_char_string by by destruct Hs. by apply look_string_looks.
Qed.

(** * The operations *)

(** The first match in some data stays the first one when more data follows. *)
Lemma first_match_more delim l more n : first_match delim l n -> first_match delim (l ++ more) n.
Proof.
  intros ((H0 & Hp) & Hn & Hj). zlen_facts. split_and!.
  - split; [done|]. rewrite zdrop_app_le by zlen_lia. by apply prefix_app_r.
  - rewrite zlen_app. zlen_lia.
  - intros j Lj [J0 [k E]]. apply (Hj j Lj). split; [done|].
    rewrite zdrop_app_le in E by zlen_lia. pose proof (zlen_nonneg delim).
    exists (zdrop (zlen delim) (zdrop j l)).
    assert (zlen delim <= zlen (zdrop j l)) as L by (rewrite zlen_zdrop; lia).
    rewrite <- (ztake_zdrop (zlen delim) (zdrop j l)) in E at 1. rewrite <- app_assoc in E.
    apply app_inj_1 in E as [E _]; [by rewrite <- E at 1; rewrite ztake_zdrop|].
    unfold zlen, ztake in *. rewrite length_take. lia.
Qed.

Section Spec.
Context {B R : Type} `{DL : DynBufferLaws B} `{RL : ReadStreamLaws R}.
Context (delim : list Z) (look : list Z -> Z -> found) (HL : looks_for delim look).

(** Nothing is lost, and the result is that of a search in all that was read: the
    first match; or the buffer is full without one; or the stream reported an
    error, or the operation was cancelled. *)
Definition until_spec (b : B) (s : R) (r : res (Z * error_code * B * R)) : Prop :=
  exists n ec b' s', r = Ok (n, ec, b', s') /\ dr_inv b' /\
    dr_data b' ++ content s' = dr_data b ++ content s /\
    match ec with
    | None => n <= zlen (dr_data b') /\ first_match delim (dr_data b ++ content s) n
    | Some e =>
        n = 0 /\
        ((e = not_found /\ dr_size b' = dr_max_size b /\ forall j, ~ at_offset delim (dr_data b') j) \/
         (exists m bs s0, read_some m s0 = (Some e, bs, s')) \/
         (e = operation_aborted /\ read_cancelled s' = true))
    end.

(** One read of the stream. *)
Lemma read_step b n s ec bs s' :
  dr_inv b -> 0 <= n <= dr_max_size b - dr_size b -> read_some n s = (ec, bs, s') ->
  exists b', dr_open n b = Ok b' /\ dr_inv (dr_put n bs b') /\
    dr_data (dr_put n bs b') = dr_data b ++ bs /\ dr_max_size (dr_put n bs b') = dr_max_size b /\
    dr_data (dr_put n bs b') ++ content s' = dr_data b ++ content s.
Proof.
  intros Hi Hn E. pose proof (read_bounds _ _ _ _ _ E) as Hb.
  destruct (dr_open_put b n bs Hi) as (b' & Eo & I & D & M); [lia|]. exists b'. split_and!; try done.
  by rewrite D, <- app_assoc, (read_content _ _ _ _ _ E).
Qed.

Lemma bytes_to_read_bounds limit b :
  dr_inv b -> 0 <= limit -> 0 <= bytes_to_read limit b <= dr_max_size b - dr_size b /\
    (0 < limit -> dr_size b <> dr_max_size b -> 0 < bytes_to_read limit b).
Proof.
  intros Hi Hl. pose proof (dr_bounds b Hi). pose proof (dr_size_data b Hi). unfold bytes_to_read.
  pose proof (zlen_nonneg (dr_data b)). pose proof (u64_range (dr_capacity b - dr_size b)).
  rewrite (u64_small (dr_max_size b - dr_size b)) by (unfold_width; lia). unfold_width. lia.
Qed.

Lemma until_spec_more b n s bs s' b' r :
  dr_data (dr_put n bs b') ++ content s' = dr_data b ++ content s -> dr_max_size (dr_put n bs b') = dr_max_size b ->
  until_spec (dr_put n bs b') s' r -> until_spec b s r.
Proof.
  intros E M (n' & ec' & b1 & s1 & -> & I & D & Hr). exists n', ec', b1, s1. rewrite <- E, <- M. done.
Qed.

Lemma read_until_ok fuel b pos s :
  dr_inv b -> searched delim (dr_data b) pos -> zlen (content s) < Z.of_nat fuel ->
  until_spec b s (read_until look fuel b pos s).
Proof.
  revert b pos s. induction fuel as [|fuel IH]; intros b pos s Hi Hs Hf; [zlen_lia|].
  cbn [read_until]. pose proof (HL _ _ Hs) as L. destruct (look (dr_data b) pos) as [n|pos'].
  { exists n, None, b, s. split_and!; try done; [by destruct L as (_ & ? & _)|by apply first_match_more]. }
  destruct L as [Hs' Hno]. destruct (Z.eqb_spec (dr_size b) (dr_max_size b)) as [E|E].
  { exists 0, (Some not_found), b, s. split_and!; try done. by left. }
  destruct (bytes_to_read_bounds 65536 b Hi) as [Bn Bp]; [lia|]. set (n := bytes_to_read 65536 b) in *.
  destruct (read_some n s) as [[ec bs] s'] eqn:Er.
  destruct (read_step b n s ec bs s' Hi Bn Er) as (b' & -> & I & D & M & C).
  destruct ec as [e|]; cbn [failed].
  { exists 0, (Some e), (dr_put n bs b'), s'. split_and!; try done. right. left. by exists n, bs, s. }
  eapply until_spec_more; [done|done|]. apply IH; [done|rewrite D; by apply searched_more|].
  pose proof (read_content _ _ _ _ _ Er) as Ec. apply (f_equal zlen) in Ec. rewrite zlen_app in Ec.
  pose proof (read_progress _ _ _ _ Er ltac:(lia)) as P. destruct bs; [done|]. rewrite zlen_cons in Ec. zlen_lia.
Qed.

(** The positions that stand for themselves in the result. *)
Lemma until_result_pos ec pos :
  pos < npos -> until_result ec pos = (ec, if failed ec then 0 else pos).
Proof. intros Hp. unfold until_result. rewrite eqb_false by lia. by rewrite orb_false_r. Qed.

(** The search of the operation. *)
Lemma until_search_ok b s pos :
  dr_inv b -> searched delim (dr_data b) pos -> zlen (dr_data b) < npos ->
  let '(pos', n) := until_search look b pos in
  (n = 0 /\ pos' < npos /\ pos' <= zlen (dr_data b) /\ first_match delim (dr_data b ++ content s) pos') \/
  (n = 0 /\ pos' = npos /\ dr_size b = dr_max_size b /\ forall j, ~ at_offset delim (dr_data b) j) \/
  (0 < n <= dr_max_size b - dr_size b /\ pos' < npos /\ searched delim (dr_data b) pos').
Proof.
  intros Hi Hs Hl. unfold until_search. pose proof (HL _ _ Hs) as L.
  destruct (look (dr_data b) pos) as [n|pos'].
  { left. assert (n <= zlen (dr_data b)) by by destruct L as (_ & ? & _).
    split_and!; [done|lia|done|by apply first_match_more]. }
  destruct L as [Hs' Hno]. destruct (Z.eqb_spec (dr_size b) (dr_max_size b)) as [E|E].
  { right. left. done. }
  destruct (bytes_to_read_bounds 65536 b Hi) as [Bn Bp]; [lia|]. right. right.
  split_and!; [by apply Bp|lia|destruct Hs'; lia|done].
Qed.

Lemma until_run_ok fuel start b pos s :
  dr_inv b -> searched delim (dr_data b) pos -> zlen (dr_data b ++ content s) < npos ->
  zlen (content s) + 1 < Z.of_nat fuel -> until_spec b s (until_run look fuel start b pos s).
Proof.
  revert start b pos s. induction fuel as [|fuel IH]; intros start b pos s Hi Hs Hl Hf; [zlen_lia|].
  cbn [until_run]. rewrite zlen_app in Hl. pose proof (zlen_nonneg (content s)).
  pose proof (until_search_ok b s pos Hi Hs ltac:(lia)) as S. destruct (until_search look b pos) as [pos' n].
  destruct (negb start && (n =? 0)) eqn:Est.
  { apply andb_true_iff in Est as [_ ->%Z.eqb_eq].
    destruct S as [(_ & Hp & Hd & F)|[(_ & -> & Hm & Hno)|(? & _)]]; [| |lia].
    - rewrite until_result_pos by done. exists pos', None, b, s. done.
    - exists 0, (Some not_found), b, s. split_and!; try done. by left. }
  assert (0 <= n <= dr_max_size b - dr_size b) as Bn.
  { pose proof (dr_bounds b Hi). destruct S as [(-> & _)|[(-> & _)|(? & _)]]; lia. }
  destruct (read_some n s) as [[ec bs] s'] eqn:Er.
  destruct (read_step b n s ec bs s' Hi Bn Er) as (b' & -> & I & D & M & C).
  pose proof (read_bounds _ _ _ _ _ Er ltac:(lia)) as Hb.
  destruct (failed ec || (zlen bs =? 0)) eqn:Efin.
  - destruct ec as [e|]; cbn [failed orb] in Efin.
    + assert (exists e', until_result (Some e) pos' = (Some e', 0) /\
        (e' = e \/ (e' = not_found /\ bs = [] /\ dr_size b = dr_max_size b /\ forall j, ~ at_offset delim (dr_data b) j)))
        as (e' & -> & He).
      { unfold until_result. cbn [failed orb]. destruct (Z.eqb_spec pos' npos) as [->|]; [|exists e; by split; [|left]].
        destruct S as [(_ & ? & _)|[(-> & _ & Hm & Hno)|(_ & ? & _)]]; [lia| |lia].
        exists not_found. split; [done|]. right. split_and!; [done|apply zlen_0_nil; zlen_lia|done|done]. }
      exists 0, (Some e'), (dr_put n bs b'), s'. split_and!; try done.
      destruct He as [->|(-> & -> & Hm & Hno)]; [right; left; by exists n, bs, s|].
      left. rewrite app_nil_r in D. rewrite dr_size_data, D by done. rewrite <- dr_size_data by done. done.
    + apply Z.eqb_eq, zlen_0_nil in Efin as ->. rewrite app_nil_r in D.
      destruct S as [(-> & Hp & Hd & F)|[(-> & -> & Hm & Hno)|(Hn & _)]].
      * rewrite until_result_pos by done. exists pos', None, (dr_put 0 [] b'), s'. split_and!; [done|done|done|by rewrite D|done].
      * exists 0, (Some not_found), (dr_put 0 [] b'), s'. split_and!; try done. left.
        rewrite dr_size_data, D by done. rewrite <- dr_size_data by done. done.
      * by destruct (read_progress _ _ _ _ Er ltac:(lia)).
  - apply orb_false_iff in Efin as [Ee Ez]. destruct ec as [e|]; [done|]. apply Z.eqb_neq in Ez.
    assert (0 < n) as Hn by zlen_lia. destruct S as [(-> & _)|[(-> & _)|(_ & Hp & Hs')]]; [lia|lia|].
    destruct (read_cancelled s') eqn:Ec.
    + rewrite until_result_pos by done. exists 0, (Some operation_aborted), (dr_put n bs b'), s'.
      split_and!; try done. right. by right.
    + eapply until_spec_more; [done|done|]. pose proof (f_equal zlen C) as LC. rewrite !zlen_app, D, zlen_app in LC.
      zlen_facts. apply IH; [done|rewrite D; by apply searched_more|rewrite D, !zlen_app; lia|lia].
Qed.
End Spec.

(** C30: [read_until] and [async_read_until] end; nothing of the stream is lost; and
    without an error the number they return is the end of the first match of the
    delimiter in what was in the buffer and came from the stream, however the
    stream cuts the delimiter into pieces.  Otherwise the buffer is full without a
    match, the stream reported an error, or the operation was cancelled. *)
Theorem read_until_first_match {B R : Type} `{DL : DynBufferLaws B} `{RL : ReadStreamLaws R}
    (delim : list Z) (b : B) (s : R) :
  delim <> [] -> dr_inv b -> zlen (dr_data b ++ content s) < npos ->
  let fuel := S (S (length (content s))) in
  until_spec delim b s (read_until (look_string delim) fuel b 0 s) /\
  until_spec delim b s (async_read_until (look_string delim) fuel b s) /\
  forall c, delim = [c] ->
    until_spec delim b s (read_until (look_char c) fuel b 0 s) /\
    until_spec delim b s (async_read_until (look_char c) fuel b s).
Proof.
  intros Hd Hi Hl. cbv zeta. assert (searched delim (dr_data b) 0) as Hs0 by (split; [zlen_lia|lia]).
  pose proof (look_string_looks delim Hd) as HL. split_and!.
  - apply read_until_ok; try done. unfold zlen. lia.
  - apply until_run_ok; try done. unfold zlen. lia.
  - intros c ->. split; [apply read_until_ok|apply until_run_ok]; try done;
      (apply look_char_looks || unfold zlen; lia).
Qed.

(** [read] into a dynamic buffer with [transfer_all]: all that comes is appended, up
    to the maximum of the buffer or an error. *)
Lemma read_dynbuf_all {B R : Type} `{DL : DynBufferLaws B} `{RL : ReadStreamLaws R} fuel (b : B) total ec (s : R) :
  dr_inv b -> 0 <= total -> total + zlen (content s) < 2 ^ 64 ->
  zlen (content s) + (if failed ec then 0 else 1) < Z.of_nat fuel ->
  exists bs ec' b' s', read_dynbuf transfer_all fuel b total ec s = Ok (total + zlen bs, ec', b', s') /\
    dr_data b' = dr_data b ++ bs /\ content s = bs ++ content s' /\ dr_inv b' /\
    (ec' = None -> dr_size b' = dr_max_size b).
Proof.
  revert b total ec s. induction fuel as [|fuel IH]; intros b total ec s Hi Ht Hl Hf.
  { pose proof (zlen_nonneg (content s)). revert Hf. destruct ec; cbn [failed]; lia. }
  cbn [read_dynbuf]. assert (0 <= transfer_all ec total) as Hc by by destruct ec.
  destruct (bytes_to_read_bounds (transfer_all ec total) b Hi Hc) as [Bn Bp].
  set (n := bytes_to_read _ b) in *. destruct (Z.eqb_spec n 0) as [E|E].
  { exists [], ec, b, s. rewrite app_nil_r, zlen_nil, Z.add_0_r. split_and!; try done. intros ->.
    destruct (Z.eq_dec (dr_size b) (dr_max_size b)) as [|N]; [done|]. specialize (Bp ltac:(done) N). lia. }
  destruct ec as [e|]; [unfold n, bytes_to_read, transfer_all in *; cbn in *; lia|].
  destruct (read_some n s) as [[ec1 bs1] s1] eqn:Er.
  destruct (read_step b n s ec1 bs1 s1 Hi Bn Er) as (b1 & -> & I & D & M & C).
  pose proof (read_content _ _ _ _ _ Er) as Ec. pose proof (f_equal zlen Ec) as Lc. rewrite zlen_app in Lc.
  pose proof (zlen_nonneg bs1). pose proof (zlen_nonneg (content s1)).
  rewrite u64_small by (unfold_width; lia).
  destruct (IH (dr_put n bs1 b1) (total + zlen bs1) ec1 s1) as (bs & ec' & b' & s' & -> & D' & C' & I' & F');
    [done|lia|lia| |].
  { destruct ec1; cbn [failed] in *; [lia|]. pose proof (read_progress _ _ _ _ Er ltac:(lia)).
    destruct bs1; [done|]. rewrite zlen_cons in *. zlen_lia. }
  exists (bs1 ++ bs), ec', b', s'. rewrite D', D, Ec, C', zlen_app, Z.add_assoc, <- !app_assoc.
  split_and!; try done. by rewrite <- M.
Qed.
