(* ===== verification/DynTransfer.v ===== *)
(** impl/read.h, impl/write.h and impl/read_until.h on dynamic buffers: the operations
    as their callers name them.

    [read_dynbuf_v1_op] and [read_dynbuf_v2_op] are one operation over the class
    [DynBuffer], and so are the writes, which write what a dynamic buffer holds and
    consume what was written.  The overloads of [read_until] put together the kind of
    delimiter, the kind of dynamic buffer, and the loop or the operation. *)
From S2P Require Import Prelude IoBuffers Composed DynBuffers BasicStreambuf ReadUntil.

(** * Reading into a dynamic buffer *)

Section ReadDyn.
Context {B R : Type} `{DB : DynBuffer B} `{RS : ReadStream R} (cc : completion_condition).

(** The operation from a read of [bytes_available] bytes on. *)
Fixpoint read_dynbuf_op (fuel : nat) (b : B) (bytes_available total_transferred : Z) (s : R) :
    res (Z * error_code * B * R) :=
  match fuel with
  | O => Throw Blocked
  | S fuel =>
      match dr_open bytes_available b with
      | Throw e => Throw e
      | Ok b =>
          let '(ec, bs, s) := read_some bytes_available s in
          let total_transferred := u64 (total_transferred + zlen bs) in
          let b := dr_put bytes_available bs b in
          let bytes_available := bytes_to_read (cc ec total_transferred) b in
          if (negb (failed ec) && (zlen bs =? 0)) || (bytes_available =? 0)
          then Ok (total_transferred, ec, b, s)
          else if read_cancelled s then Ok (total_transferred, Some operation_aborted, b, s)
          else read_dynbuf_op fuel b bytes_available total_transferred s
      end
  end.

Definition async_read_dynbuf (fuel : nat) (b : B) (s : R) : res (Z * error_code * B * R) :=
  read_dynbuf_op fuel b (bytes_to_read (cc None 0) b) 0 s.

End ReadDyn.

(** * Writing a dynamic buffer *)

Section WriteDyn.
Context {B W : Type} `{DB : DynBuffer B} `{WS : WriteStream W} (cc : completion_condition).

(** The buffer that [data()] returns: its memory holds the bytes from address 0 on. *)
Definition data_buffer (b : B) : io_buffer := mk_io_buffer 0 (dr_size b).

Definition data_memory (b : B) (a : Z) : Z := nth (Z.to_nat a) (dr_data b) 0.

(** What was written is consumed. *)
Definition consume_written (b : B) (r : res (Z * error_code * W)) : res (Z * error_code * B * W) :=
  match r with
  | Throw e => Throw e
  | Ok (bytes_transferred, ec, s) => Ok (bytes_transferred, ec, dr_consume bytes_transferred b, s)
  end.

Definition write_dynbuf (fuel : nat) (b : B) (s : W) : res (Z * error_code * B * W) :=
  consume_written b (write (data_memory b) cc fuel (Single.single_new (data_buffer b)) s).

(** [write_dynbuf_v1_op], [write_dynbuf_v2_op] *)
Definition async_write_dynbuf (fuel : nat) (b : B) (s : W) : res (Z * error_code * B * W) :=
  consume_written b (async_write (data_memory b) cc fuel (Single.single_new (data_buffer b)) s).

End WriteDyn.

(** * What they do *)

(** All that comes is appended, until the buffer is full, an error is reported or the
    operation is cancelled. *)
Lemma async_read_dynbuf_all {B R : Type} `{DL : DynBufferLaws B} `{RL : ReadStreamLaws R} fuel (b : B) n total (s : R) :
  dr_inv b -> 0 <= n <= dr_max_size b - dr_size b -> (n = 0 -> dr_size b = dr_max_size b) ->
  0 <= total -> total + zlen (content s) < 2 ^ 64 -> zlen (content s) < Z.of_nat fuel ->
  exists bs ec b' s', read_dynbuf_op transfer_all fuel b n total s = Ok (total + zlen bs, ec, b', s') /\
    dr_data b' = dr_data b ++ bs /\ content s = bs ++ content s' /\ dr_inv b' /\
    (ec = None -> dr_size b' = dr_max_size b).
Proof.
  revert b n total s. induction fuel as [|fuel IH]; intros b n total s Hi Hn Hz Ht Hl Hf.
  { pose proof (zlen_nonneg (content s)). lia. }
  cbn [read_dynbuf_op]. destruct (read_some n s) as [[ec1 bs1] s1] eqn:Er.
  destruct (read_step b n s ec1 bs1 s1 Hi Hn Er) as (b1 & -> & I & D & M & C). cbv zeta.
  pose proof (read_content _ _ _ _ _ Er) as Ec. pose proof (f_equal zlen Ec) as Lc. rewrite zlen_app in Lc.
  zlen_facts. pose proof (zlen_nonneg bs1). pose proof (zlen_nonneg (content s1)).
  rewrite u64_small by (unfold_width; lia). set (b2 := dr_put n bs1 b1) in *.
  assert (0 <= transfer_all ec1 (total + zlen bs1)) as Hc by by destruct ec1.
  destruct (bytes_to_read_bounds (transfer_all ec1 (total + zlen bs1)) b2 I Hc) as [Bn Bp].
  set (n' := bytes_to_read _ b2) in *.
  assert (ec1 = None -> n' = 0 -> dr_size b2 = dr_max_size b2) as Hfull.
  { intros -> E. destruct (Z.eq_dec (dr_size b2) (dr_max_size b2)) as [|N]; [done|].
    specialize (Bp ltac:(done) N). lia. }
  assert (ec1 = None -> bs1 = [] -> dr_size b2 = dr_max_size b) as Hend.
  { intros -> ->. destruct (Z.eq_dec n 0) as [->|N].
    - rewrite app_nil_r in D. rewrite dr_size_data, D by done. rewrite <- dr_size_data by done. by apply Hz.
    - by destruct (read_progress _ _ _ _ Er ltac:(lia)). }
  destruct (negb (failed ec1) && (zlen bs1 =? 0) || (n' =? 0)) eqn:Eb.
  { exists bs1, ec1, b2, s1. split_and!; try done. intros ->. cbn [failed negb andb] in Eb.
    apply orb_true_iff in Eb as [E%Z.eqb_eq|E%Z.eqb_eq]; [by apply Hend, zlen_0_nil|]. rewrite <- M. by apply Hfull. }
  destruct (read_cancelled s1); [by exists bs1, (Some operation_aborted), b2, s1|].
  apply orb_false_iff in Eb as [Eb E0%Z.eqb_neq]. destruct ec1 as [e|].
  { unfold n', bytes_to_read, transfer_all in *. cbn in *. lia. }
  cbn [failed negb andb] in Eb. apply Z.eqb_neq in Eb.
  destruct (IH b2 n' (total + zlen bs1) s1) as (bs & ec' & b' & s' & -> & D' & C' & I' & F');
    [done|done|done|lia|lia|lia|].
  exists (bs1 ++ bs), ec', b', s'. rewrite D', D, Ec, C', zlen_app, Z.add_assoc, <- !app_assoc.
  split_and!; try done. by rewrite <- M.
Qed.

Lemma data_memory_take {B : Type} `{DL : DynBufferLaws B} (b : B) n :
  0 <= n <= zlen (dr_data b) -> map (data_memory b) (ztake n (seqZ 0 (zlen (dr_data b)))) = ztake n (dr_data b).
Proof.
  intros Hn. unfold data_memory, ztake, seqZ, zlen. rewrite <- firstn_map. f_equal.
  rewrite Nat2Z.id, map_map. apply list_eq. intros i. rewrite list_lookup_fmap.
  destruct (decide (i < length (dr_data b))%nat) as [L|L].
  - destruct (lookup_lt_is_Some_2 (dr_data b) i L) as [x E]. rewrite lookup_seq_lt, E by done. cbn.
    f_equal. apply nth_lookup_Some. by replace (Z.to_nat (Z.of_nat i + 0)) with i by lia.
  - rewrite lookup_seq_ge by lia. symmetry. apply lookup_ge_None. lia.
Qed.

(** What is written is what the buffer loses. *)
Lemma consume_written_ok {B W : Type} `{DL : DynBufferLaws B} `{WL : WriteStreamLaws W} (b : B) (s : W) r :
  dr_inv b ->
  (exists n ec s', r = Ok (n, ec, s') /\
    output s' = output s ++ map (data_memory b) (ztake n (seqZ 0 (zlen (dr_data b)))) /\
    0 <= n <= zlen (dr_data b) /\ (ec = None -> n = zlen (dr_data b))) ->
  exists n ec b' s', consume_written b r = Ok (n, ec, b', s') /\ dr_inv b' /\
    output s' ++ dr_data b' = output s ++ dr_data b /\ (ec = None -> dr_data b' = []).
Proof.
  intros Hi (n & ec & s' & -> & O & Hn & Hf). destruct (dr_consumed b n Hi ltac:(lia)) as [I D].
  exists n, ec, (dr_consume n b), s'. rewrite data_memory_take in O by done.
  split_and!; [done|done| |].
  - by rewrite D, O, <- app_assoc, ztake_zdrop.
  - intros E. rewrite D, (Hf E). by apply zdrop_ge.
Qed.

(** [write] and [async_write] of a dynamic buffer: the bytes of the buffer are sent in
    order, those that were sent leave it, and without an error it is empty. *)
Lemma write_dynbuf_moves {B W : Type} `{DL : DynBufferLaws B} `{WL : WriteStreamLaws W} (b : B) (s : W) :
  dr_inv b -> dr_data b <> [] ->
  let fuel := S (S (length (dr_data b))) in
  let sent r := exists n ec b' s', r = Ok (n, ec, b', s') /\ dr_inv b' /\
    output s' ++ dr_data b' = output s ++ dr_data b /\ (ec = None -> dr_data b' = []) in
  sent (write_dynbuf transfer_all fuel b s) /\ sent (async_write_dynbuf transfer_all fuel b s).
Proof.
  intros Hi Hne. pose proof (dr_bounds b Hi). pose proof (dr_size_data b Hi) as Es.
  assert (0 < zlen (dr_data b)) as Hl by (destruct (dr_data b); [done|zlen_lia]).
  set (c := Single.single_new (data_buffer b)).
  assert (cb_all c = seqZ 0 (zlen (dr_data b))) as Ea by (rewrite <- Es; done).
  assert (enough c = S (S (length (dr_data b)))) as Ef.
  { unfold enough. rewrite Ea, length_seqZ. unfold zlen. by rewrite Nat2Z.id. }
  assert (cb_inv c) as Ic by (split; cbn; unfold_width; lia).
  assert (0 < zlen (cb_all c)) as Hc by (rewrite Ea, zlen_seqZ; lia).
  pose proof (write_sends (data_memory b) c s Ic eq_refl Hc) as [W1 W2].
  rewrite Ef, Ea in W1, W2. rewrite zlen_seqZ in W1, W2 by lia.
  cbv zeta. split; (apply consume_written_ok; [done|]); fold c; assumption.
Qed.

(** * The overloads of [read_until] *)

(** The version 1 buffer is a [basic_streambuf], the version 2 buffer a
    [dynamic_string_buffer] or a [dynamic_vector_buffer]. *)
Section Overloads.
Context {R : Type} `{RS : ReadStream R} (fuel : nat).
Context (vector_capacity : Z -> Z) `{G : Dynamic.Growth}.

#[local] Abbreviation streambuf := Streambuf.basic_streambuf.

#[local] Abbreviation dynamic := Dynamic.dynamic_buffer.

#[local] Instance v1 : DynBuffer Streambuf.basic_streambuf :=
  Streambuf.streambuf_dyn vector_capacity.

Definition read_until_char_v1 (b : streambuf) (delim : Z) (s : R) :=
  read_until (look_char delim) fuel b 0 s.
Definition read_until_string_v1 (b : streambuf) (delim : list Z) (s : R) :=
  read_until (look_string delim) fuel b 0 s.
Definition read_until_match_v1 (b : streambuf) match_condition (s : R) :=
  read_until (look_match match_condition) fuel b 0 s.
Definition read_until_char_v2 (b : dynamic) (delim : Z) (s : R) :=
  read_until (look_char delim) fuel b 0 s.
Definition read_until_string_v2 (b : dynamic) (delim : list Z) (s : R) :=
  read_until (look_string delim) fuel b 0 s.
Definition read_until_match_v2 (b : dynamic) match_condition (s : R) :=
  read_until (look_match match_condition) fuel b 0 s.
Definition read_until_delim_op_v1 (b : streambuf) (delim : Z) (s : R) :=
  async_read_until (look_char delim) fuel b s.
Definition read_until_delim_string_op_v1 (b : streambuf) (delim : list Z) (s : R) :=
  async_read_until (look_string delim) fuel b s.
Definition read_until_match_op_v1 (b : streambuf) match_condition (s : R) :=
  async_read_until (look_match match_condition) fuel b s.
Definition read_until_delim_op_v2 (b : dynamic) (delim : Z) (s : R) :=
  async_read_until (look_char delim) fuel b s.
Definition read_until_delim_string_op_v2 (b : dynamic) (delim : list Z) (s : R) :=
  async_read_until (look_string delim) fuel b s.
Definition read_until_match_op_v2 (b : dynamic) match_condition (s : R) :=
  async_read_until (look_match match_condition) fuel b s.

Definition read_dynbuf_v1 (cc : completion_condition) (b : streambuf) (s : R) :=
  read_dynbuf cc fuel b 0 None s.
Definition read_dynbuf_v2 (cc : completion_condition) (b : dynamic) (s : R) :=
  read_dynbuf cc fuel b 0 None s.
Definition read_dynbuf_v1_op (cc : completion_condition) (b : streambuf) (s : R) :=
  async_read_dynbuf cc fuel b s.
Definition read_dynbuf_v2_op (cc : completion_condition) (b : dynamic) (s : R) :=
  async_read_dynbuf cc fuel b s.

Context {W : Type} `{WS : WriteStream W}.

Definition write_dynbuf_v1 (cc : completion_condition) (b : streambuf) (w : W) :=
  write_dynbuf cc fuel b w.
Definition write_dynbuf_v2 (cc : completion_condition) (b : dynamic) (w : W) :=
  write_dynbuf cc fuel b w.
Definition write_dynbuf_v1_op (cc : completion_condition) (b : streambuf) (w : W) :=
  async_write_dynbuf cc fuel b w.
Definition write_dynbuf_v2_op (cc : completion_condition) (b : dynamic) (w : W) :=
  async_write_dynbuf cc fuel b w.

End Overloads.
