(* ===== verification/RandomAccess.v ===== *)
(** impl/read_at.h and impl/write_at.h: the composed operations on devices that are
    read and written at an offset.

    They are the loops of Composed.v, except that every operation of the device is
    told its offset, the one of the call plus what was transferred.  The theorems
    come from those about streams: a device with a position is a stream. *)
From S2P Require Import Prelude IoBuffers Composed DynBuffers ReadUntil DynTransfer.

(** [read_some_at] or [write_some_at] with its device. *)
Class TransferAt (T : Type) := {
  transfer_some_at : Z -> list io_buffer -> T -> error_code * Z * T;
  cancelled_at : T -> bool
}.

(** [moved_at] relates a device, the offset, the addresses transferred and the device
    after it. *)
Class TransferAtLaws (T : Type) `{TransferAt T} := {
  moved_at : T -> Z -> list Z -> T -> Prop;
  moved_at_nil : forall d p, moved_at d p [] d;
  moved_at_app : forall d p a d' b d'', 0 <= p ->
    moved_at d p a d' -> moved_at d' (p + zlen a) b d'' -> moved_at d p (a ++ b) d'';
  some_at_bounds : forall o p d ec n d', transfer_some_at o p d = (ec, n, d') -> 0 <= n <= zlen (all_addrs p);
  some_at_progress : forall o p d n d',
    transfer_some_at o p d = (None, n, d') -> 0 < zlen (all_addrs p) -> 0 < n;
  some_at_moved : forall o p d ec n d',
    0 <= o -> transfer_some_at o p d = (ec, n, d') -> moved_at d o (ztake n (all_addrs p)) d'
}.

(** * The loops *)

Section Loops.
Context {C T : Type} `{CB : Consuming C} `{TA : TransferAt T} (cc : completion_condition) (offset : Z).

(** [read_at_buffer_sequence], [write_at_buffer_sequence] *)
Fixpoint transfer_at_seq (fuel : nat) (tmp : C) (ec : error_code) (d : T) : res (Z * error_code * T) :=
  if cb_empty tmp then Ok (cb_total tmp, ec, d)
  else
    let max_size := cc ec (cb_total tmp) in
    if max_size =? 0 then Ok (cb_total tmp, ec, d)
    else
      match fuel with
      | O => Throw Blocked
      | S fuel =>
          let '(ec, n, d) := transfer_some_at (u64 (offset + cb_total tmp)) (cb_prepare max_size tmp) d in
          transfer_at_seq fuel (cb_consume n tmp) ec d
      end.

(** [read_at_op], [write_at_op]; the decisions are those of [op_resume]. *)
Fixpoint op_run_at (fuel : nat) (buffers : C) (p : list io_buffer) (d : T) : res (Z * error_code * T) :=
  match fuel with
  | O => Throw Blocked
  | S fuel =>
      let '(ec, n, d) := transfer_some_at (u64 (offset + cb_total buffers)) p d in
      match op_resume cc buffers ec n (cancelled_at d) with
      | (_, inr (ec, n)) => Ok (n, ec, d)
      | (buffers, inl p) => op_run_at fuel buffers p d
      end
  end.

Definition async_transfer_at (fuel : nat) (buffers : C) (d : T) : res (Z * error_code * T) :=
  op_run_at fuel buffers (op_start cc buffers) d.

End Loops.

(** * A device with a position is a stream *)

Section Positioned.
Context {T : Type} `{TL : TransferAtLaws T}.

#[local] Instance positioned : Transfer (nat * T) := {
  transfer_some := fun p '(pos, d) =>
    let '(ec, n, d) := transfer_some_at (Z.of_nat pos) p d in (ec, n, ((pos + Z.to_nat n)%nat, d));
  cancelled := fun '(_, d) => cancelled_at d
}.

#[local] Instance positioned_laws : TransferLaws (nat * T).
Proof.
  refine {| moved := fun '(pos, d) a '(pos', d') =>
    pos' = (pos + length a)%nat /\ moved_at d (Z.of_nat pos) a d' |}.
  - intros [pos d]. split; [cbn; lia|apply moved_at_nil].
  - intros [pos d] a [pos1 d1] b [pos2 d2] [-> M1] [-> M2]. rewrite length_app. split; [lia|].
    eapply moved_at_app; [lia|done|]. unfold zlen. by replace (Z.of_nat pos + Z.of_nat (length a)) with (Z.of_nat (pos + length a)) by lia.
  - intros p [pos d] ec n [pos' d']. cbn. destruct (transfer_some_at _ p d) as [[e m] d1] eqn:E.
    intros [= <- <- <- <-]. by eapply some_at_bounds.
  - intros p [pos d] n [pos' d']. cbn. destruct (transfer_some_at _ p d) as [[e m] d1] eqn:E.
    intros [= -> <- <- <-]. by eapply some_at_progress.
  - intros p [pos d] ec n [pos' d']. cbn. destruct (transfer_some_at _ p d) as [[e m] d1] eqn:E.
    intros [= <- <- <- <-]. pose proof (some_at_bounds _ _ _ _ _ _ E). split; [|by eapply some_at_moved; [lia|]].
    unfold ztake. rewrite length_take. unfold zlen in *. lia.
Defined.

Context {C : Type} `{CL : ConsumingLaws C}.

Definition no_position {A} (r : res (Z * error_code * (nat * A))) : res (Z * error_code * A) :=
  match r with Throw e => Throw e | Ok (n, ec, (_, d)) => Ok (n, ec, d) end.

(** The condition that offsets do not wrap. *)
Definition in_range (offset : Z) (c : C) : Prop := 0 <= offset /\ offset + zlen (cb_all c) < 2 ^ 64.

Lemma some_at_step offset c p ec n d d' :
  cb_inv c -> 0 < p -> transfer_some_at (u64 (offset + cb_total c)) (cb_prepare p c) d = (ec, n, d') ->
  0 <= n <= zlen (cb_all c) - cb_total c.
Proof.
  intros Hi Hp E. destruct (cb_prepare_next c p Hi ltac:(lia)) as ([k Ek] & _ & _).
  pose proof (some_at_bounds _ _ _ _ _ _ E). pose proof (cb_total_bounds c Hi).
  apply (f_equal zlen) in Ek. rewrite zlen_app, zlen_zdrop in Ek by lia. pose proof (zlen_nonneg k). lia.
Qed.

Lemma transfer_at_seq_stream (cc : completion_condition) fuel offset c ec d :
  (forall ec t, 0 <= cc ec t) -> in_range offset c -> cb_inv c ->
  transfer_at_seq cc offset fuel c ec d
  = no_position (transfer_seq cc fuel c ec (Z.to_nat (offset + cb_total c), d)).
Proof.
  intros Hcc. revert c ec d. induction fuel as [|fuel IH]; intros c ec d [Ho Hr] Hi; cbn [transfer_at_seq transfer_seq].
  { destruct (cb_empty c); [done|]. cbv zeta. by destruct (_ =? 0). }
  destruct (cb_empty c); [done|]. cbv zeta. destruct (Z.eqb_spec (cc ec (cb_total c)) 0) as [|N]; [done|].
  pose proof (cb_total_bounds c Hi) as Hb. cbn [transfer_some positioned]. rewrite Z2Nat.id by lia.
  destruct (transfer_some_at (u64 (offset + cb_total c)) (cb_prepare _ c) d) as [[ec1 n1] d1] eqn:E.
  assert (0 < cc ec (cb_total c)) as Hp by (pose proof (Hcc ec (cb_total c)); lia).
  pose proof (some_at_step _ _ _ _ _ _ _ Hi Hp E) as Hn.
  rewrite u64_small in E by (unfold_width; lia). rewrite E.
  destruct (cb_consume_next c n1 Hi Hn) as (Hi1 & T1 & A1).
  rewrite IH by (done || by unfold in_range; rewrite A1). rewrite T1. do 3 f_equal. f_equal. lia.
Qed.

Lemma op_run_at_stream (cc : completion_condition) fuel offset c ec d :
  (forall ec t, 0 <= cc ec t) -> in_range offset c -> cb_inv c -> 0 < cc ec (cb_total c) ->
  op_run_at cc offset fuel c (cb_prepare (cc ec (cb_total c)) c) d
  = no_position (op_run cc fuel c (cb_prepare (cc ec (cb_total c)) c) (Z.to_nat (offset + cb_total c), d)).
Proof.
  intros Hcc. revert c ec d. induction fuel as [|fuel IH]; intros c ec d [Ho Hr] Hi Hp; [done|].
  cbn [op_run_at op_run]. pose proof (cb_total_bounds c Hi) as Hb. cbn [transfer_some positioned]. rewrite Z2Nat.id by lia.
  destruct (transfer_some_at (u64 (offset + cb_total c)) (cb_prepare _ c) d) as [[ec1 n1] d1] eqn:E.
  pose proof (some_at_step _ _ _ _ _ _ _ Hi Hp E) as Hn.
  rewrite u64_small in E by (unfold_width; lia). rewrite E. unfold op_resume. cbn [cancelled positioned].
  destruct (cb_consume_next c n1 Hi Hn) as (Hi1 & T1 & A1).
  destruct (_ || cb_empty _); [done|]. cbv zeta. destruct (Z.eqb_spec (cc ec1 (cb_total (cb_consume n1 c))) 0) as [|N]; [done|].
  destruct (cancelled_at d1); [done|].
  rewrite IH; [|by unfold in_range; rewrite A1|done|specialize (Hcc ec1 (cb_total (cb_consume n1 c))); lia].
  rewrite T1. do 3 f_equal. lia.
Qed.

(** Both ends: what is moved is at the offset, in order, and without an error it is
    all of the buffers. *)
Lemma transfer_at_all offset c d :
  in_range offset c -> cb_inv c -> cb_total c = 0 -> 0 < zlen (cb_all c) ->
  let moves r := exists n ec d', r = Ok (n, ec, d') /\ 0 <= n <= zlen (cb_all c) /\
    (ec = None -> n = zlen (cb_all c)) /\ moved_at d offset (ztake n (cb_all c)) d' in
  moves (transfer_at_seq transfer_all offset (enough c) c None d) /\
  moves (async_transfer_at transfer_all offset (enough c) c d).
Proof.
  intros Hr Hi Ht Hl. cbv zeta. pose proof Hr as [Ho _].
  assert (forall ec t, 0 <= transfer_all ec t) as Hcc by by intros [] ?.
  assert (cb_total c < zlen (cb_all c)) as Hlt by lia.
  unfold async_transfer_at, op_start. rewrite transfer_at_seq_stream, op_run_at_stream by done.
  rewrite Ht, Z.add_0_r. assert (zdrop 0 (cb_all c) = cb_all c) as Hd by done. split.
  - destruct (transfer_seq_ends transfer_all (enough c) c None (Z.to_nat offset, d))
      as (n & ec & [pos d'] & E & Hn & Hc & [_ M]); [done|done|done|unfold enough, zlen; cbn; lia|].
    rewrite Ht, Z.add_0_l in *. rewrite E. rewrite Hd, Z2Nat.id in M by done. exists n, ec, d'.
    split_and!; [done|lia|lia| |done]. intros ->. by destruct Hc.
  - destruct (op_run_ends transfer_all (enough c) c None (Z.to_nat offset, d))
      as (n & ec & [pos d'] & E & Hn & Hc & [_ M]); [done|done|done|done|by rewrite Ht|unfold enough, zlen; lia|].
    rewrite Ht, Z.add_0_l in *. rewrite E. rewrite Hd, Z2Nat.id in M by done. exists n, ec, d'.
    split_and!; [done|lia|lia| |done]. intros N. by destruct (Hc N).
Qed.

End Positioned.

(** * Devices of bytes *)

(** What a device to read from promises: [dev_content] are its bytes. *)
Class ReadDevice (D : Type) := {
  read_some_at : Z -> Z -> D -> error_code * list Z * D;
  read_at_cancelled : D -> bool
}.

Class ReadDeviceLaws (D : Type) `{ReadDevice D} := {
  dev_content : D -> list Z;
  read_at_bounds : forall o n d ec bs d', read_some_at o n d = (ec, bs, d') -> 0 <= n -> zlen bs <= n;
  read_at_progress : forall o n d bs d', read_some_at o n d = (None, bs, d') -> 0 < n -> bs <> [];
  read_at_content : forall o n d ec bs d', read_some_at o n d = (ec, bs, d') ->
    0 <= o -> bs `prefix_of` zdrop o (dev_content d) /\ dev_content d' = dev_content d
}.

Section ReadAt.
Context {D : Type} `{RD : ReadDevice D}.

#[global] Instance read_device : TransferAt (D * list (Z * Z)) := {
  transfer_some_at := fun o p '(d, stores) =>
    let a := all_addrs p in
    let '(ec, bs, d) := read_some_at o (zlen a) d in
    (ec, zlen bs, (d, stores ++ zip a bs));
  cancelled_at := fun '(d, _) => read_at_cancelled d
}.

Context `{RL : ReadDeviceLaws D (H := RD)}.

Definition stored_at : D * list (Z * Z) -> Z -> list Z -> D * list (Z * Z) -> Prop :=
  fun '(d, stores) o a '(d', stores') => exists bs,
    zlen bs = zlen a /\ bs `prefix_of` zdrop o (dev_content d) /\ dev_content d' = dev_content d /\
    stores' = stores ++ zip a bs.

#[global] Instance read_device_laws : TransferAtLaws (D * list (Z * Z)).
Proof.
  refine {| moved_at := stored_at |}.
  - intros [d st] o. exists []. rewrite app_nil_r. split_and!; [done|apply prefix_nil|done|done].
  - intros [d st] o a [d1 st1] b [d2 st2] Ho (bs & L & P & C & ->) (bs' & L' & P' & C' & ->).
    exists (bs ++ bs'). rewrite !zlen_app, <- app_assoc. split_and!; [lia| |congruence|].
    + rewrite C, <- L in P'. destruct P as [k P]. rewrite P. apply prefix_app.
      assert (zdrop (o + zlen bs) (dev_content d) = k) as E; [|by rewrite E in P'].
      transitivity (zdrop (zlen bs) (zdrop o (dev_content d))).
      * unfold zdrop. rewrite drop_drop. f_equal. zlen_facts. unfold zlen. lia.
      * rewrite P. apply zdrop_app.
    + by rewrite zip_with_app by (unfold zlen in *; lia).
  - intros o p [d st] ec n d'. cbn. destruct (read_some_at _ _ d) as [[e bs] d1] eqn:E. intros [= <- <- <-].
    pose proof (read_at_bounds _ _ _ _ _ _ E (zlen_nonneg _)). zlen_lia.
  - intros o p [d st] n d'. cbn. destruct (read_some_at _ _ d) as [[e bs] d1] eqn:E. intros [= -> <- <-] L.
    pose proof (read_at_progress _ _ _ _ _ E L) as P. destruct bs; [done|zlen_lia].
  - intros o p [d st] ec n d'. cbn. destruct (read_some_at _ _ d) as [[e bs] d1] eqn:E. intros Ho [= <- <- <-].
    pose proof (read_at_bounds _ _ _ _ _ _ E (zlen_nonneg _)) as B.
    destruct (read_at_content _ _ _ _ _ _ E Ho) as [P C]. exists bs. split_and!; [|done|done|].
    + rewrite zlen_ztake by zlen_lia. done.
    + by rewrite zip_take.
Defined.

(** [read_at] and [async_read_at]: the stores they make. *)
Definition read_at {C} `{Consuming C} (cc : completion_condition) (fuel : nat) (offset : Z) (c : C) (d : D) :=
  transfer_at_seq cc offset fuel c None (d, []).

Definition async_read_at {C} `{Consuming C} (cc : completion_condition) (fuel : nat) (offset : Z) (c : C) (d : D) :=
  async_transfer_at cc offset fuel c (d, []).

End ReadAt.

(** A device to write to: [dev_byte] is its byte at an offset. *)
Class WriteDevice (W : Type) := {
  write_some_at : Z -> list Z -> W -> error_code * Z * W;
  write_at_cancelled : W -> bool
}.

Class WriteDeviceLaws (W : Type) `{WriteDevice W} := {
  dev_byte : W -> Z -> Z;
  write_at_bounds : forall o bs d ec n d', write_some_at o bs d = (ec, n, d') -> 0 <= n <= zlen bs;
  write_at_progress : forall o bs d n d', write_some_at o bs d = (None, n, d') -> bs <> [] -> 0 < n;
  write_at_content : forall o bs d ec n d' i, write_some_at o bs d = (ec, n, d') -> 0 <= o ->
    dev_byte d' i = if (o <=? i) && (i <? o + n) then nth (Z.to_nat (i - o)) bs 0 else dev_byte d i
}.

Section WriteAt.
Context {W : Type} `{WD : WriteDevice W} (mem : Z -> Z).

Definition write_device : TransferAt W := {|
  transfer_some_at := fun o p d => write_some_at o (map mem (all_addrs p)) d;
  cancelled_at := write_at_cancelled
|}.

Context `{WL : WriteDeviceLaws W (H := WD)}.

(** The bytes at the offset, and no others, are replaced. *)
Definition written_at (d : W) (o : Z) (bs : list Z) (d' : W) : Prop := forall i,
  dev_byte d' i = if (o <=? i) && (i <? o + zlen bs) then nth (Z.to_nat (i - o)) bs 0 else dev_byte d i.

Lemma written_at_app d o bs d1 bs' d2 :
  written_at d o bs d1 -> written_at d1 (o + zlen bs) bs' d2 -> written_at d o (bs ++ bs') d2.
Proof.
  intros H1 H2 i. rewrite H2, H1, zlen_app. pose proof (zlen_nonneg bs). pose proof (zlen_nonneg bs').
  destruct (Z.leb_spec (o + zlen bs) i), (Z.ltb_spec i (o + zlen bs + zlen bs')),
    (Z.leb_spec o i), (Z.ltb_spec i (o + zlen bs)), (Z.ltb_spec i (o + (zlen bs + zlen bs'))); try lia; cbn [andb]; try done.
  - rewrite app_nth2 by (unfold zlen in *; lia). f_equal. unfold zlen in *. lia.
  - rewrite app_nth1 by (unfold zlen in *; lia). done.
Qed.

Definition write_device_laws : TransferAtLaws W (H := write_device).
Proof.
  refine {| moved_at := fun d o a d' => written_at d o (map mem a) d' |}; cbn.
  - intros d o i. cbn [map]. rewrite zlen_nil, Z.add_0_r.
    destruct (Z.leb_spec o i), (Z.ltb_spec i o); try done; lia.
  - intros d o a d1 b d2 _ H1 H2. rewrite map_app. eapply written_at_app; [done|by rewrite zlen_map].
  - intros o p d ec n d' E. rewrite <- (zlen_map mem). by eapply write_at_bounds.
  - intros o p d n d' E L. eapply write_at_progress; [done|]. intros N%(f_equal zlen). rewrite zlen_map in N. cbn in N. zlen_lia.
  - intros o p d ec n d' Ho E i. pose proof (write_at_bounds _ _ _ _ _ _ E) as B. rewrite zlen_map in B.
    rewrite (write_at_content _ _ _ _ _ _ i E Ho). rewrite zlen_map, zlen_ztake by lia.
    destruct (Z.leb_spec o i), (Z.ltb_spec i (o + n)); cbn [andb]; try done.
    unfold ztake. rewrite <- firstn_map. rewrite <- (firstn_skipn (Z.to_nat n) (map mem (all_addrs p))) at 1.
    apply app_nth1. rewrite length_take, length_map. unfold zlen in *. lia.
Defined.

Definition write_at {C} `{Consuming C} (cc : completion_condition) (fuel : nat) (offset : Z) (c : C) (d : W) :
    res (Z * error_code * W) :=
  transfer_at_seq (TA := write_device) cc offset fuel c None d.

Definition async_write_at {C} `{Consuming C} (cc : completion_condition) (fuel : nat) (offset : Z) (c : C) (d : W) :
    res (Z * error_code * W) :=
  async_transfer_at (TA := write_device) cc offset fuel c d.

End WriteAt.

(** * A [basic_streambuf] and a device *)

(** A device that is read from a position on is a stream. *)
Section ReadFrom.
Context {D : Type} `{RD : ReadDevice D}.

#[local] Instance read_from : ReadStream (nat * D) := {
  read_some := fun n '(pos, d) =>
    let '(ec, bs, d) := read_some_at (Z.of_nat pos) n d in (ec, bs, ((pos + length bs)%nat, d));
  read_cancelled := fun '(_, d) => read_at_cancelled d
}.

Section Loops.
Context {B : Type} `{DB : DynBuffer B} (cc : completion_condition) (offset : Z).

(** [read_at] into a [basic_streambuf]; [read_size_helper] is [bytes_to_read]. *)
Fixpoint read_at_streambuf (fuel : nat) (b : B) (total_transferred : Z) (ec : error_code) (d : D) :
    res (Z * error_code * B * D) :=
  let bytes_available := bytes_to_read (cc ec total_transferred) b in
  if bytes_available =? 0 then Ok (total_transferred, ec, b, d)
  else
    match fuel with
    | O => Throw Blocked
    | S fuel =>
        match dr_open bytes_available b with
        | Throw e => Throw e
        | Ok b =>
            let '(ec, bs, d) := read_some_at (u64 (offset + total_transferred)) bytes_available d in
            read_at_streambuf fuel (dr_put bytes_available bs b) (u64 (total_transferred + zlen bs)) ec d
        end
    end.

(** [read_at_streambuf_op] *)
Fixpoint read_at_streambuf_op (fuel : nat) (b : B) (bytes_available total_transferred : Z) (d : D) :
    res (Z * error_code * B * D) :=
  match fuel with
  | O => Throw Blocked
  | S fuel =>
      match dr_open bytes_available b with
      | Throw e => Throw e
      | Ok b =>
          let '(ec, bs, d) := read_some_at (u64 (offset + total_transferred)) bytes_available d in
          let total_transferred := u64 (total_transferred + zlen bs) in
          let b := dr_put bytes_available bs b in
          let bytes_available := bytes_to_read (cc ec total_transferred) b in
          if (negb (failed ec) && (zlen bs =? 0)) || (bytes_available =? 0)
          then Ok (total_transferred, ec, b, d)
          else if read_at_cancelled d then Ok (total_transferred, Some operation_aborted, b, d)
          else read_at_streambuf_op fuel b bytes_available total_transferred d
      end
  end.

Definition async_read_at_streambuf (fuel : nat) (b : B) (d : D) : res (Z * error_code * B * D) :=
  read_at_streambuf_op fuel b (bytes_to_read (cc None 0) b) 0 d.

End Loops.

Context `{RL : ReadDeviceLaws D (H := RD)}.

#[local] Instance read_from_laws : ReadStreamLaws (nat * D).
Proof.
  refine {| content := fun '(pos, d) => zdrop (Z.of_nat pos) (dev_content d) |}.
  - intros n [pos d] ec bs [pos' d']. cbn. destruct (read_some_at _ n d) as [[e l] d1] eqn:E.
    intros [= <- <- <- <-]. by eapply read_at_bounds.
  - intros n [pos d] bs [pos' d']. cbn. destruct (read_some_at _ n d) as [[e l] d1] eqn:E.
    intros [= -> <- <- <-]. by eapply read_at_progress.
  - intros n [pos d] ec bs [pos' d']. cbn. destruct (read_some_at _ n d) as [[e l] d1] eqn:E.
    intros [= <- <- <- <-]. destruct (read_at_content _ _ _ _ _ _ E) as [[k P] C]; [lia|].
    rewrite C, P. f_equal. unfold zdrop in *. rewrite Nat2Z.id in *. by rewrite <- drop_drop, P, drop_app_length.
Defined.

Definition no_position_b {A B} (r : res (Z * error_code * B * (nat * A))) : res (Z * error_code * B * A) :=
  match r with Throw e => Throw e | Ok (n, ec, b, (_, d)) => Ok (n, ec, b, d) end.

Context {B : Type} `{DL : DynBufferLaws B}.

(** The device is read as the stream from [offset] on. *)
Lemma read_at_streambuf_stream cc fuel offset b total ec d :
  0 <= offset -> 0 <= total -> offset + total <= zlen (dev_content d) -> zlen (dev_content d) < 2 ^ 64 ->
  (forall ec t, 0 <= cc ec t) -> dr_inv b ->
  read_at_streambuf cc offset fuel b total ec d
  = no_position_b (read_dynbuf cc fuel b total ec (Z.to_nat (offset + total), d)).
Proof.
  intros Ho Ht Hr Hd Hcc. revert b total ec d Ht Hr Hd.
  induction fuel as [|fuel IH]; intros b total ec d Ht Hr Hd Hi; cbn [read_at_streambuf read_dynbuf]; cbv zeta;
    (destruct (Z.eqb_spec (bytes_to_read (cc ec total) b) 0) as [|N]; [done|]); [done|].
  destruct (bytes_to_read_bounds (cc ec total) b Hi (Hcc ec total)) as [Bn _].
  cbn [read_some read_from]. rewrite Z2Nat.id, u64_small by (unfold_width; lia).
  destruct (read_some_at (offset + total) _ d) as [[ec1 bs1] d1] eqn:E.
  destruct (read_step b _ (Z.to_nat (offset + total), d) ec1 bs1 ((Z.to_nat (offset + total) + length bs1)%nat, d1) Hi Bn)
    as (b1 & -> & I & _ & _ & _); [by cbn [read_some read_from]; rewrite Z2Nat.id by lia; rewrite E|].
  destruct (read_at_content _ _ _ _ _ _ E ltac:(lia)) as [[k P] C].
  apply (f_equal zlen) in P. rewrite zlen_app, zlen_zdrop in P by lia. zlen_facts.
  pose proof (zlen_nonneg bs1). pose proof (zlen_nonneg k). rewrite u64_small by (unfold_width; lia).
  rewrite IH by (rewrite ?C; done || lia). do 3 f_equal. unfold zlen in *. lia.
Qed.

Lemma read_at_streambuf_op_stream cc fuel offset b n total d :
  0 <= offset -> 0 <= total -> offset + total <= zlen (dev_content d) -> zlen (dev_content d) < 2 ^ 64 ->
  (forall ec t, 0 <= cc ec t) -> dr_inv b -> 0 <= n <= dr_max_size b - dr_size b ->
  read_at_streambuf_op cc offset fuel b n total d
  = no_position_b (read_dynbuf_op cc fuel b n total (Z.to_nat (offset + total), d)).
Proof.
  intros Ho Ht Hr Hd Hcc. revert b n total d Ht Hr Hd.
  induction fuel as [|fuel IH]; intros b n total d Ht Hr Hd Hi Bn; [done|]. cbn [read_at_streambuf_op read_dynbuf_op].
  cbn [read_some read_from]. rewrite Z2Nat.id, u64_small by (unfold_width; lia).
  destruct (read_some_at (offset + total) _ d) as [[ec1 bs1] d1] eqn:E.
  destruct (read_step b _ (Z.to_nat (offset + total), d) ec1 bs1 ((Z.to_nat (offset + total) + length bs1)%nat, d1) Hi Bn)
    as (b1 & -> & I & _ & _ & _); [by cbn [read_some read_from]; rewrite Z2Nat.id by lia; rewrite E|].
  destruct (read_at_content _ _ _ _ _ _ E ltac:(lia)) as [[k P] C].
  apply (f_equal zlen) in P. rewrite zlen_app, zlen_zdrop in P by lia. zlen_facts.
  pose proof (zlen_nonneg bs1). pose proof (zlen_nonneg k). rewrite u64_small by (unfold_width; lia). cbv zeta.
  destruct (_ || (bytes_to_read _ _ =? 0)); [done|]. cbn [read_cancelled read_from].
  destruct (read_at_cancelled d1); [done|].
  destruct (bytes_to_read_bounds (cc ec1 (total + zlen bs1)) _ I (Hcc ec1 _)) as [Bn' _].
  rewrite IH by (rewrite ?C; done || lia). do 3 f_equal. unfold zlen in *. lia.
Qed.

(** Both append the bytes of the device from the offset on. *)
Lemma read_at_streambuf_all offset b d fuel :
  0 <= offset <= zlen (dev_content d) -> zlen (dev_content d) < 2 ^ 64 -> dr_inv b ->
  zlen (dev_content d) + 1 < Z.of_nat fuel ->
  let reads r := exists bs ec b' d', r = Ok (zlen bs, ec, b', d') /\ dr_inv b' /\
    dr_data b' = dr_data b ++ bs /\ bs `prefix_of` zdrop offset (dev_content d) /\
    (ec = None -> dr_size b' = dr_max_size b) in
  reads (read_at_streambuf transfer_all offset fuel b 0 None d) /\
  reads (async_read_at_streambuf transfer_all offset fuel b d).
Proof.
  intros Ho Hd Hi Hf. cbv zeta. assert (forall ec t, 0 <= transfer_all ec t) as Hcc by by intros [] ?.
  destruct (bytes_to_read_bounds (transfer_all None 0) b Hi (Hcc None 0)) as [Bn Bp].
  assert (content (Z.to_nat offset, d) = zdrop offset (dev_content d)) as Ec by (cbn; by rewrite Z2Nat.id by lia).
  assert (zlen (content (Z.to_nat offset, d)) = zlen (dev_content d) - offset) as El by (rewrite Ec; by apply zlen_zdrop).
  unfold async_read_at_streambuf. rewrite read_at_streambuf_stream, read_at_streambuf_op_stream by (done || lia).
  rewrite Z.add_0_r. split.
  - destruct (read_dynbuf_all fuel b 0 None (Z.to_nat offset, d)) as (bs & ec & b' & [p d'] & -> & D' & C & I & F);
      [done|done|lia|cbn [failed]; lia|].
    exists bs, ec, b', d'. split_and!; try done. rewrite <- Ec, C. by exists (content (p, d')).
  - destruct (async_read_dynbuf_all fuel b (bytes_to_read (transfer_all None 0) b) 0 (Z.to_nat offset, d)) as (bs & ec & b' & [p d'] & -> & D' & C & I & F);
      [done|exact Bn| |done|lia|lia|].
    { intros E. destruct (Z.eq_dec (dr_size b) (dr_max_size b)) as [|N]; [done|].
      specialize (Bp ltac:(done) N). lia. }
    exists bs, ec, b', d'. split_and!; try done. rewrite <- Ec, C. by exists (content (p, d')).
Qed.

End ReadFrom.

(** [write_at] of a [basic_streambuf]: what was written is consumed. *)
Section WriteFrom.
Context {B W : Type} `{DB : DynBuffer B} `{WD : WriteDevice W} (cc : completion_condition).

Definition write_at_streambuf (fuel : nat) (offset : Z) (b : B) (d : W) : res (Z * error_code * B * W) :=
  consume_written b (write_at (data_memory b) cc fuel offset (Single.single_new (data_buffer b)) d).

(** [write_at_streambuf_op] *)
Definition async_write_at_streambuf (fuel : nat) (offset : Z) (b : B) (d : W) : res (Z * error_code * B * W) :=
  consume_written b (async_write_at (data_memory b) cc fuel offset (Single.single_new (data_buffer b)) d).

End WriteFrom.

(** * What the operations do *)

(** [read_at] and [async_read_at] end, and what they store in the buffers, in
    order, are the bytes of the device from the offset on; without an error all of
    the buffers are filled.  [write_at] and [async_write_at] end as well: the bytes
    of the buffers replace those of the device from the offset on, all of them
    without an error, and no other byte of the device changes. *)
Theorem random_access_ok {C D W : Type} `{CL : ConsumingLaws C} `{RL : ReadDeviceLaws D} `{WL : WriteDeviceLaws W}
    (offset : Z) (c : C) (d : D) (mem : Z -> Z) (w : W) :
  in_range offset c -> cb_inv c -> cb_total c = 0 -> 0 < zlen (cb_all c) ->
  let reads r := exists n ec d' stores, r = Ok (n, ec, (d', stores)) /\ 0 <= n <= zlen (cb_all c) /\
    (ec = None -> n = zlen (cb_all c)) /\ dev_content d' = dev_content d /\
    stores = zip (ztake n (cb_all c)) (ztake n (zdrop offset (dev_content d))) /\
    n <= zlen (zdrop offset (dev_content d)) in
  let writes r := exists n ec w', r = Ok (n, ec, w') /\ 0 <= n <= zlen (cb_all c) /\
    (ec = None -> n = zlen (cb_all c)) /\ written_at w offset (map mem (ztake n (cb_all c))) w' in
  reads (read_at transfer_all (enough c) offset c d) /\
  reads (async_read_at transfer_all (enough c) offset c d) /\
  writes (write_at mem transfer_all (enough c) offset c w) /\
  writes (async_write_at mem transfer_all (enough c) offset c w).
Proof.
  intros Hr Hi Ht Hl reads writes.
  assert (forall r, (exists n ec d', r = Ok (n, ec, d') /\ 0 <= n <= zlen (cb_all c) /\
    (ec = None -> n = zlen (cb_all c)) /\ moved_at (d, []) offset (ztake n (cb_all c)) d') -> reads r) as Hreads.
  { intros r (n & ec & [d' st] & -> & Hn & Hf & (bs & L & [k P] & C' & ->)).
    rewrite zlen_ztake in L by done. subst n. exists (zlen bs), ec, d', (zip (ztake (zlen bs) (cb_all c)) bs).
    rewrite P, ztake_app, zlen_app. pose proof (zlen_nonneg k). split_and!; done || lia. }
  destruct (transfer_at_all (TL := read_device_laws) offset c (d, []) Hr Hi Ht Hl) as [R1 R2].
  destruct (transfer_at_all (TL := write_device_laws mem) offset c w Hr Hi Ht Hl) as [W1 W2].
  split_and!; [by apply Hreads|by apply Hreads|exact W1|exact W2].
Qed.
