(* ===== verification/IoSamples.v ===== *)
(** A stream that delivers its bytes in pieces and devices of bytes, for the theorems about composed
    operations. *)
From S2P Require Import Prelude IoBuffers BufferCopy Composed DynBuffers BasicStreambuf ReadUntil DynTransfer RandomAccess.

(** The pieces still to come; an empty one is an error, and after the last one the
    stream is at its end. *)
Definition pieces := list (list Z).

Definition read_piece (n : Z) (s : pieces) : error_code * list Z * pieces :=
  if n <=? 0 then (None, [], s)
  else
    match s with
    | [] => (Some eof, [], [])
    | [] :: s => (Some (other_error 11), [], s)
    | p :: s => (None, ztake n p, match zdrop n p with [] => s | rest => rest :: s end)
    end.

#[global] Instance piece_stream : ReadStream pieces := {
  read_some := read_piece;
  read_cancelled := fun _ => false
}.

#[global] Instance piece_stream_laws : ReadStreamLaws pieces.
Proof.
  refine {| content := @concat Z |}; cbn; unfold read_piece.
  - intros n s ec bs s' E Hn. destruct (Z.leb_spec n 0); [injection E as <- <- <-; zlen_lia|].
    destruct s as [|[|x p] s]; injection E as <- <- <-; [zlen_lia..|].
    unfold zlen, ztake. rewrite length_take. lia.
  - intros n s bs s' E Hn. rewrite leb_false in E by lia.
    destruct s as [|[|x p] s]; [done..|]. injection E as <- <-. unfold ztake.
    by replace (Z.to_nat n) with (S (Z.to_nat (n - 1))) by lia.
  - intros n s ec bs s' E. destruct (Z.leb_spec n 0); [by injection E as <- <- <-|].
    destruct s as [|[|x p] s]; injection E as <- <- <-; [done..|].
    cbn [concat]. change (x :: p ++ concat s) with ((x :: p) ++ concat s). rewrite <- (ztake_zdrop n (x :: p)) at 1.
    rewrite <- app_assoc. by destruct (zdrop n (x :: p)).
Defined.

#[local] Instance sixteen : Many.MaxBuffers := 16%nat.

#[local] Instance sixteen_ok : Many.MaxBuffersOk := ltac:(unfold Many.MaxBuffersOk, Many.max_buffers, sixteen; lia).

Definition sample_buffers : Many.consuming_buffers :=
  Many.consuming_new [mk_io_buffer 100 3; mk_io_buffer 200 0; mk_io_buffer 300 4].

Lemma sample_buffers_ok : cb_inv sample_buffers.
Proof. apply Many.many_new. split; [repeat constructor; done|done]. Qed.

(** Seven bytes in pieces of two, four and three. *)
Definition sample_stream : pieces := [[1; 2]; [3; 4; 5; 6]; [7; 8; 9]].

Lemma read_fills_witness :
  exists n ec s', read transfer_all (enough sample_buffers) sample_buffers sample_stream
      = Ok (n, ec, (s', zip (ztake n (cb_all sample_buffers)) (ztake n (content sample_stream)))) /\
    content sample_stream = ztake n (content sample_stream) ++ content s' /\
    0 <= n <= zlen (cb_all sample_buffers) /\ n <= zlen (content sample_stream) /\ (ec = None -> n = zlen (cb_all sample_buffers)).
Proof.
  assert (0 < zlen (cb_all sample_buffers)) as Hl by by vm_compute.
  destruct (read_fills sample_buffers sample_stream sample_buffers_ok eq_refl Hl) as [H _]. exact H.
Defined.

Example sample_read :
  read transfer_all (enough sample_buffers) sample_buffers sample_stream
  = Ok (7, None, ([[8; 9]], [(100, 1); (101, 2); (102, 3); (300, 4); (301, 5); (302, 6); (303, 7)])).
Proof. vm_compute. reflexivity. Qed.

(** A delimiter of two bytes that two pieces share. *)
Definition http_stream : pieces := [[65; 13]; [13; 10; 66]; [67]].

#[local] Instance streambuf_instance : DynBuffer Streambuf.basic_streambuf := Streambuf.streambuf_dyn id.

#[local] Instance streambuf_laws_instance : DynBufferLaws Streambuf.basic_streambuf := Streambuf.streambuf_laws id.

Lemma streambuf_new_ok : dr_inv (Streambuf.streambuf_new 1000).
Proof. by split. Qed.

Lemma read_until_first_match_witness :
  let b := Streambuf.streambuf_new 1000 in
  until_spec [13; 10] b http_stream (read_until (look_string [13; 10]) 8 b 0 http_stream) /\
  until_spec [13; 10] b http_stream (async_read_until (look_string [13; 10]) 8 b http_stream).
Proof.
  destruct (read_until_first_match [13; 10] (Streambuf.streambuf_new 1000) http_stream) as (H1 & H2 & _).
  - done.
  - apply streambuf_new_ok.
  - by vm_compute.
  - by split.
Defined.

Example http_read :
  match async_read_until (look_string [13; 10]) 8 (Streambuf.streambuf_new 1000) http_stream with
  | Ok (n, ec, b, s) => (n, ec, dr_data b, s) = (4, None, [65; 13; 13; 10; 66], [[67]])
  | Throw _ => False
  end.
Proof. vm_compute. reflexivity. Qed.

Lemma buffer_copy_ok_witness :
  let target := [mk_io_buffer 100 3; mk_io_buffer 200 2] in
  let source := [mk_io_buffer 300 1; mk_io_buffer 400 7] in
  copy_many_many target source (Some 4) = Ok (4, [(100, 300); (101, 400); (102, 401); (200, 402)]).
Proof.
  destruct (buffer_copy_ok [mk_io_buffer 100 3; mk_io_buffer 200 2] [mk_io_buffer 300 1; mk_io_buffer 400 7] (Some 4))
    as [H _].
  - split; [repeat constructor; done|done].
  - split; [repeat constructor; done|done].
  - done.
  - exact H.
Defined.

(** * Devices *)

(** A file that returns at most three bytes at a time. *)
Record file := mk_file { file_bytes : list Z }.

Definition read_file (o n : Z) (f : file) : error_code * list Z * file :=
  if n <=? 0 then (None, [], f)
  else
    match zdrop o (file_bytes f) with
    | [] => (Some eof, [], f)
    | rest => (None, ztake (Z.min n 3) rest, f)
    end.

#[global] Instance file_device : ReadDevice file := {
  read_some_at := read_file;
  read_at_cancelled := fun _ => false
}.

#[global] Instance file_device_laws : ReadDeviceLaws file.
Proof.
  refine {| dev_content := file_bytes |}; cbn; unfold read_file.
  - intros o n d ec bs d' E Hn. destruct (Z.leb_spec n 0); [injection E as <- <- <-; zlen_lia|].
    destruct (zdrop o _); injection E as <- <- <-; [zlen_lia|]. unfold zlen, ztake. rewrite length_take. lia.
  - intros o n d bs d' E Hn. rewrite leb_false in E by lia. destruct (zdrop o _); [done|]. injection E as <- <-.
    unfold ztake. by replace (Z.to_nat (Z.min n 3)) with (S (Z.to_nat (Z.min n 3 - 1))) by lia.
  - intros o n d ec bs d' E Ho. destruct (Z.leb_spec n 0); [injection E as <- <- <-; split; [apply prefix_nil|done]|].
    destruct (zdrop o _) as [|x l]; injection E as <- <- <-; [split; [apply prefix_nil|done]|]. split; [|done].
    exists (zdrop (Z.min n 3) (x :: l)). by rewrite ztake_zdrop.
Defined.

(** A device that takes at most two bytes at a time; its bytes as a function. *)
Record disk := mk_disk { disk_byte : Z -> Z }.

Definition write_disk (o : Z) (bs : list Z) (d : disk) : error_code * Z * disk :=
  let n := Z.min 2 (zlen bs) in
  (None, n, mk_disk (fun i => if (o <=? i) && (i <? o + n) then nth (Z.to_nat (i - o)) bs 0 else disk_byte d i)).

#[global] Instance disk_device : WriteDevice disk := {
  write_some_at := write_disk;
  write_at_cancelled := fun _ => false
}.

#[global] Instance disk_device_laws : WriteDeviceLaws disk.
Proof.
  refine {| dev_byte := disk_byte |}; cbn; unfold write_disk.
  - intros o bs d ec n d' [= <- <- <-]. zlen_lia.
  - intros o bs d n d' [= <- <-] N. destruct bs; [done|zlen_lia].
  - intros o bs d ec n d' i [= <- <- <-] _. done.
Defined.

Definition sample_file : file := mk_file [10; 11; 12; 13; 14; 15; 16; 17; 18; 19].

Definition sample_disk : disk := mk_disk (fun _ => 0).

Lemma random_access_ok_witness :
  exists n ec d' stores, read_at transfer_all (enough sample_buffers) 2 sample_buffers sample_file = Ok (n, ec, (d', stores)) /\
    stores = zip (ztake n (cb_all sample_buffers)) (ztake n (zdrop 2 (dev_content sample_file))).
Proof.
  assert (in_range 2 sample_buffers) as Hr by by split; vm_compute.
  assert (0 < zlen (cb_all sample_buffers)) as Hl by by vm_compute.
  destruct (random_access_ok 2 sample_buffers sample_file id sample_disk Hr sample_buffers_ok eq_refl Hl)
    as [(n & ec & d' & stores & E & _ & _ & _ & S & _) _].
  exists n, ec, d', stores. by split.
Defined.

Example sample_read_at :
  match read_at transfer_all (enough sample_buffers) 2 sample_buffers sample_file with
  | Ok (n, ec, (_, stores)) => (n, ec) = (7, None) /\
      stores = [(100, 12); (101, 13); (102, 14); (300, 15); (301, 16); (302, 17); (303, 18)]
  | Throw _ => False
  end.
Proof. vm_compute. by split. Qed.

Example sample_write_at :
  match write_at (fun a => a) transfer_all (enough sample_buffers) 2 sample_buffers sample_disk with
  | Ok (n, ec, d) => (n, ec) = (7, None) /\
      map (disk_byte d) (seqZ 0 10) = [0; 0; 100; 101; 102; 300; 301; 302; 303; 0]
  | Throw _ => False
  end.
Proof. vm_compute. by split. Qed.

(** * A stream that brings nothing *)

(** As [piece_stream], but an empty piece is no error. *)
Definition read_or_nothing (n : Z) (s : pieces) : error_code * list Z * pieces :=
  match s with
  | [] :: s => (None, [], s)
  | _ => read_piece n s
  end.

(** The operation ends without an error although there is no match. *)
Example until_without_match :
  let S : ReadStream pieces := {| read_some := read_or_nothing; read_cancelled := fun _ => false |} in
  match async_read_until (look_string [13; 10]) 8 (Streambuf.streambuf_new 1000) [[65; 66]; []; [13; 10]] with
  | Ok (n, ec, b, _) => (n, ec, dr_data b) = (2, None, [65; 66])
  | Throw _ => False
  end.
Proof. vm_compute. reflexivity. Qed.
