(* ===== verification/TimerQueue.v ===== *)
(** detail/timer_queue.h: the timers of a reactor, in a heap by expiry and in a
    doubly linked list; detail/chrono_time_traits.h: the times.

    Timers ([per_timer_data]) belong to their owners and are named by their
    addresses; [objs] is the memory they are in.  Pointers are [option nat].  The
    index of a timer that is not in the heap, the largest [size_t] in the code,
    is [None]: a vector never has that many entries.  The operations of a timer
    are the list that its queue holds (see OpQueue.v). *)
From S2P Require Import Prelude.

(** * Times *)

Definition time_max : Z := 2 ^ 63 - 1.

Definition time_min : Z := - 2 ^ 63.

(** Signed arithmetic of 64 bits: an overflow is undefined behaviour. *)
Definition checked (z : Z) : res Z :=
  if (time_min <=? z) && (z <=? time_max) then Ok z else Throw Undefined.

(** [chrono_time_traits::add] on ticks since the epoch. *)
Definition time_add (t d : Z) : res Z :=
  if 0 <=? t then
    let* m := checked (time_max - t) in
    if m <? d then Ok time_max else checked (t + d)
  else
    let* m := checked (t - time_min) in
    let* n := checked (- m) in
    if d <? n then Ok time_min else checked (t + d).

Definition time_subtract (t1 t2 : Z) : res Z :=
  if 0 <=? t1 then
    if 0 <=? t2 then checked (t1 - t2)
    else if t2 =? time_min then Ok time_max
    else
      let* a := checked (time_max - t1) in
      let* b := checked (0 - t2) in
      if a <? b then Ok time_max else checked (t1 - t2)
  else
    if t2 <? 0 then checked (t1 - t2)
    else if t1 =? time_min then Ok time_min
    else
      let* a := checked (time_max - t2) in
      let* b := checked (0 - t1) in
      if a <? b then Ok time_min
      else let* c := checked (t2 - t1) in checked (- c).

Definition time_less_than (t1 t2 : Z) : bool := t1 <? t2.

(** [posix_time_duration::duration_cast<Num, Den>] for a clock whose period is
    [pnum]/[pden] seconds. *)
Definition duration_cast (pnum pden Num Den ticks : Z) : res Z :=
  let num1 := pnum / Z.gcd pnum Num in
  let num2 := Num / Z.gcd pnum Num in
  let den1 := pden / Z.gcd pden Den in
  let den2 := Den / Z.gcd pden Den in
  let num := num1 * den2 in
  let den := num2 * den1 in
  if (num =? 1) && (den =? 1) then Ok ticks
  else if negb (num =? 1) && (den =? 1) then checked (ticks * num)
  else if (num =? 1) && negb (pden =? 1) then Ok (Z.quot ticks den)
  else let* p := checked (ticks * num) in Ok (Z.quot p den).

Definition total_seconds (pnum pden : Z) : Z -> res Z := duration_cast pnum pden 1 1.

Definition total_milliseconds (pnum pden : Z) : Z -> res Z := duration_cast pnum pden 1 1000.

Definition total_microseconds (pnum pden : Z) : Z -> res Z := duration_cast pnum pden 1 1000000.

Definition in_time (t : Z) : Prop := time_min <= t <= time_max.

Definition clamp (z : Z) : Z := Z.max time_min (Z.min time_max z).

Lemma checked_ok (z : Z) : in_time z -> checked z = Ok z.
Proof. unfold in_time, checked. intros H. by rewrite !(proj2 (Z.leb_le _ _)) by lia. Qed.

(** C40: adding a duration to a time and subtracting times saturate at the ends
    of the type instead of overflowing: no step of either overflows, and the
    result is the exact one cut to the range of the type. *)
Theorem times_saturate (t d : Z) :
  in_time t -> in_time d ->
  time_add t d = Ok (clamp (t + d)) /\ time_subtract t d = Ok (clamp (t - d)).
Proof.
  unfold in_time, clamp. intros Ht Hd. change time_min with (- 2 ^ 63) in *. change time_max with (2 ^ 63 - 1) in *.
  unfold time_add, time_subtract, rbind. change time_min with (- 2 ^ 63). change time_max with (2 ^ 63 - 1).
  split; repeat (case_match; rewrite ?checked_ok in * by (unfold in_time, time_min, time_max; lia);
    simplify_eq); rewrite ?checked_ok by (unfold in_time, time_min, time_max; lia); f_equal; lia.
Qed.

Lemma times_saturate_witness : time_add (2 ^ 62) (2 ^ 62 + 5) = Ok time_max.
Proof. refine (proj1 (times_saturate (2 ^ 62) (2 ^ 62 + 5) _ _)); vm_compute; split; discriminate. Defined.

(** * The queue *)

(** The traits a queue is instantiated with: the order of the times, which of
    them never come, and the ticks, milliseconds and microseconds from one time
    to another. *)
Class TimeTraits (T : Type) := {
  less_than : T -> T -> bool;
  is_positive_infinity : T -> bool;
  ticks_to : T -> T -> res Z;
  msec_to : T -> T -> res Z;
  usec_to : T -> T -> res Z
}.

(** What the queue relies on: [less_than] is a strict weak order. *)
Class TimeOrder (T : Type) `{TimeTraits T} := {
  less_than_asym : forall a b, less_than a b = true -> less_than b a = false;
  not_less_trans : forall a b c, less_than b a = false -> less_than c b = false -> less_than c a = false
}.

(** Times of a [std::chrono] clock with a period of [pnum]/[pden] seconds. *)
Definition chrono_traits (pnum pden : Z) : TimeTraits Z := {|
  less_than := time_less_than;
  is_positive_infinity := fun _ => false;
  ticks_to := fun t now => time_subtract t now;
  msec_to := fun t now => let* d := time_subtract t now in total_milliseconds pnum pden d;
  usec_to := fun t now => let* d := time_subtract t now in total_microseconds pnum pden d
|}.

#[global] Instance chrono_order (pnum pden : Z) : @TimeOrder Z (chrono_traits pnum pden).
Proof. split; cbn; unfold time_less_than; intros; lia. Qed.

Section TimerQueue.
Context {T : Type} `{TT : TimeTraits T}.

(** [ec_]: success, or [error::operation_aborted]. *)
Inductive op_error := No_error | Operation_aborted.

Record wait_op := mk_wait_op { op_id : nat; cancellation_key_ : nat; ec_ : op_error }.

Record per_timer_data := mk_timer_data {
  op_queue_ : list wait_op;
  heap_index_ : option nat;
  next_ : option nat;
  prev_ : option nat
}.

#[global] Instance eta_timer_data : Eta per_timer_data := fun d =>
  mk_timer_data (op_queue_ d) (heap_index_ d) (next_ d) (prev_ d).

Definition per_timer_data_new : per_timer_data := mk_timer_data [] None None None.

Record heap_entry := mk_heap_entry { time_ : T; timer_ : nat }.

Record timer_queue := mk_timer_queue {
  timers_ : option nat;
  heap_ : list heap_entry;
  objs : gmap nat per_timer_data
}.

#[global] Instance eta_timer_queue : Eta timer_queue := fun q =>
  mk_timer_queue (timers_ q) (heap_ q) (objs q).

Definition timer_queue_new (objs : gmap nat per_timer_data) : timer_queue := mk_timer_queue None [] objs.

Definition TM := M timer_queue.

(** Following a pointer to a timer, and writing through it. *)
Definition timer_at (id : nat) : TM per_timer_data :=
  fun q => (if objs q !! id is Some d then Ok d else Throw Undefined, q).

Definition upd_timer (id : nat) (f : per_timer_data -> per_timer_data) : TM unit :=
  d <- timer_at id ;; modify (fun q => q <| objs ::= <[id := f d]> |>).

Definition upd_timer_opt (id : option nat) (f : per_timer_data -> per_timer_data) : TM unit :=
  if id is Some id then upd_timer id f else ret tt.

(** [heap_[i]]. *)
Definition heap_at (i : nat) : TM heap_entry :=
  fun q => (if heap_ q !! i is Some e then Ok e else Throw Undefined, q).

Definition set_heap_at (i : nat) (e : heap_entry) : TM unit :=
  fun q => if decide (i < length (heap_ q))%nat then (Ok tt, q <| heap_ ::= <[i := e]> |>)
           else (Throw Undefined, q).

Definition pop_back : TM unit := modify (fun q => q <| heap_ ::= fun h => take (pred (length h)) h |>).

Definition swap_heap (index1 index2 : nat) : TM unit :=
  tmp <- heap_at index1 ;;
  e2 <- heap_at index2 ;;
  set_heap_at index1 e2 ;;
  set_heap_at index2 tmp ;;
  e1 <- heap_at index1 ;;
  upd_timer (timer_ e1) (fun d => d <| heap_index_ := Some index1 |>) ;;
  e2' <- heap_at index2 ;;
  upd_timer (timer_ e2') (fun d => d <| heap_index_ := Some index2 |>).

Definition parent (index : nat) : nat := ((index - 1) / 2)%nat.

(** The loops take fuel: [up_heap] as many rounds as the index, [down_heap] as
    the heap has entries. *)
Fixpoint up_heap_loop (fuel index : nat) : TM unit :=
  if (0 <? index)%nat then
    e <- heap_at index ;;
    p <- heap_at (parent index) ;;
    if negb (less_than (time_ e) (time_ p)) then ret tt
    else
      match fuel with
      | O => throw Blocked
      | S fuel => swap_heap index (parent index) ;; up_heap_loop fuel (parent index)
      end
  else ret tt.

Definition up_heap (index : nat) : TM unit := up_heap_loop index index.

(** [min_child]. *)
Definition min_child (child : nat) : TM nat :=
  n <- gets (fun q => length (heap_ q)) ;;
  if (child + 1 =? n)%nat then ret child
  else
    a <- heap_at child ;;
    b <- heap_at (child + 1) ;;
    ret (if less_than (time_ a) (time_ b) then child else (child + 1)%nat).

Fixpoint down_heap_loop (fuel index : nat) : TM unit :=
  n <- gets (fun q => length (heap_ q)) ;;
  let child := (index * 2 + 1)%nat in
  if (child <? n)%nat then
    m <- min_child child ;;
    e <- heap_at index ;;
    c <- heap_at m ;;
    if less_than (time_ e) (time_ c) then ret tt
    else
      match fuel with
      | O => throw Blocked
      | S fuel => swap_heap index m ;; down_heap_loop fuel m
      end
  else ret tt.

Definition down_heap (index : nat) : TM unit :=
  n <- gets (fun q => length (heap_ q)) ;; down_heap_loop n index.

(** The first half of [remove_timer]: the heap. *)
Definition remove_from_heap (timer : nat) : TM unit :=
  d <- timer_at timer ;;
  n <- gets (fun q => length (heap_ q)) ;;
  match heap_index_ d with
  | Some index =>
    if (index <? n)%nat then
      if (index =? n - 1)%nat then
        upd_timer timer (fun d => d <| heap_index_ := None |>) ;;
        pop_back
      else
        swap_heap index (n - 1) ;;
        upd_timer timer (fun d => d <| heap_index_ := None |>) ;;
        pop_back ;;
        if (0 <? index)%nat then
          e <- heap_at index ;;
          p <- heap_at (parent index) ;;
          if less_than (time_ e) (time_ p) then up_heap index else down_heap index
        else down_heap index
    else ret tt
  | None => ret tt
  end.

(** The second half: the list. *)
Definition unlink (timer : nat) : TM unit :=
  d <- timer_at timer ;;
  t <- gets timers_ ;;
  (if decide (t = Some timer) then modify (fun q => q <| timers_ := next_ d |>) else ret tt) ;;
  upd_timer_opt (prev_ d) (fun p => p <| next_ := next_ d |>) ;;
  d <- timer_at timer ;;
  upd_timer_opt (next_ d) (fun n => n <| prev_ := prev_ d |>) ;;
  upd_timer timer (fun d => d <| next_ := None |>) ;;
  upd_timer timer (fun d => d <| prev_ := None |>).

Definition remove_timer (timer : nat) : TM unit := remove_from_heap timer ;; unlink timer.

Definition enqueue_timer (time : T) (timer : nat) (op : wait_op) : TM bool :=
  d <- timer_at timer ;;
  t <- gets timers_ ;;
  (if is_none (prev_ d) && negb (bool_decide (t = Some timer)) then
     (if is_positive_infinity time then upd_timer timer (fun d => d <| heap_index_ := None |>)
      else
        n <- gets (fun q => length (heap_ q)) ;;
        upd_timer timer (fun d => d <| heap_index_ := Some n |>) ;;
        modify (fun q => q <| heap_ ::= fun h => h ++ [mk_heap_entry time timer] |>) ;;
        up_heap n) ;;
     t <- gets timers_ ;;
     upd_timer timer (fun d => d <| next_ := t |>) ;;
     upd_timer timer (fun d => d <| prev_ := None |>) ;;
     upd_timer_opt t (fun d => d <| prev_ := Some timer |>) ;;
     modify (fun q => q <| timers_ := Some timer |>)
   else ret tt) ;;
  upd_timer timer (fun d => d <| op_queue_ ::= fun l => l ++ [op] |>) ;;
  d <- timer_at timer ;;
  ret (bool_decide (heap_index_ d = Some 0%nat) &&
       bool_decide (op_id <$> head (op_queue_ d) = Some (op_id op))).

Definition empty_timers (q : timer_queue) : bool := is_none (timers_ q).

(** [to_msec] and [to_usec]: [amount] is [total_milliseconds] or
    [total_microseconds]. *)
Definition to_wait (ticks : Z) (amount : res Z) (max_duration : Z) : res Z :=
  if ticks <=? 0 then Ok 0
  else
    let* n := amount in
    if n =? 0 then Ok 1
    else if max_duration <? n then Ok max_duration
    else Ok n.

Definition wait_duration_msec (now : T) (max_duration : Z) (q : timer_queue) : res Z :=
  match heap_ q with
  | [] => Ok max_duration
  | e :: _ => let* n := ticks_to (time_ e) now in to_wait n (msec_to (time_ e) now) max_duration
  end.

Definition wait_duration_usec (now : T) (max_duration : Z) (q : timer_queue) : res Z :=
  match heap_ q with
  | [] => Ok max_duration
  | e :: _ => let* n := ticks_to (time_ e) now in to_wait n (usec_to (time_ e) now) max_duration
  end.

Definition with_error (ec : op_error) (op : wait_op) : wait_op :=
  mk_wait_op (op_id op) (cancellation_key_ op) ec.

(** The inner loops, on the operations of one timer: they are moved to [ops]. *)
Fixpoint ready_ops (queue ops : list wait_op) : list wait_op :=
  match queue with
  | [] => ops
  | op :: queue => ready_ops queue (ops ++ [with_error No_error op])
  end.

(** How many were cancelled, those left, and [ops]. *)
Fixpoint cancel_ops (max_cancelled : option nat) (num_cancelled : nat) (queue ops : list wait_op)
    : nat * list wait_op * list wait_op :=
  match queue with
  | [] => (num_cancelled, [], ops)
  | op :: queue' =>
    if decide (Some num_cancelled = max_cancelled) then (num_cancelled, queue, ops)
    else cancel_ops max_cancelled (S num_cancelled) queue' (ops ++ [with_error Operation_aborted op])
  end.

Fixpoint cancel_key_ops (key : nat) (queue other_ops ops : list wait_op) : list wait_op * list wait_op :=
  match queue with
  | [] => (other_ops, ops)
  | op :: queue =>
    if decide (cancellation_key_ op = key)
    then cancel_key_ops key queue other_ops (ops ++ [with_error Operation_aborted op])
    else cancel_key_ops key queue (other_ops ++ [op]) ops
  end.

(** [get_ready_timers]. *)
Fixpoint ready_loop (fuel : nat) (now : T) (ops : list wait_op) : TM (list wait_op) :=
  h <- gets heap_ ;;
  match h with
  | [] => ret ops
  | e :: _ =>
    if negb (less_than now (time_ e)) then
      match fuel with
      | O => throw Blocked
      | S fuel =>
        d <- timer_at (timer_ e) ;;
        upd_timer (timer_ e) (fun d => d <| op_queue_ := [] |>) ;;
        remove_timer (timer_ e) ;;
        ready_loop fuel now (ready_ops (op_queue_ d) ops)
      end
    else ret ops
  end.

Definition get_ready_timers (now : T) (ops : list wait_op) : TM (list wait_op) :=
  n <- gets (fun q => length (heap_ q)) ;; ready_loop n now ops.

(** [get_all_timers]; at most as many rounds as there are timers. *)
Fixpoint all_loop (fuel : nat) (ops : list wait_op) : TM (list wait_op) :=
  t <- gets timers_ ;;
  match t with
  | None => ret ops
  | Some timer =>
    match fuel with
    | O => throw Blocked
    | S fuel =>
      d <- timer_at timer ;;
      modify (fun q => q <| timers_ := next_ d |>) ;;
      upd_timer timer (fun d => d <| op_queue_ := [] |>) ;;
      upd_timer timer (fun d => d <| next_ := None |>) ;;
      upd_timer timer (fun d => d <| prev_ := None |>) ;;
      all_loop fuel (ops ++ op_queue_ d)
    end
  end.

Definition get_all_timers (ops : list wait_op) : TM (list wait_op) :=
  n <- gets (fun q => size (objs q)) ;;
  ops <- all_loop n ops ;;
  modify (fun q => q <| heap_ := [] |>) ;;
  ret ops.

(** [max_cancelled] is [None] for the largest [size_t]. *)
Definition cancel_timer (timer : nat) (ops : list wait_op) (max_cancelled : option nat) : TM (nat * list wait_op) :=
  d <- timer_at timer ;;
  t <- gets timers_ ;;
  if is_some (prev_ d) || bool_decide (t = Some timer) then
    let '(num_cancelled, queue, ops) := cancel_ops max_cancelled 0 (op_queue_ d) ops in
    upd_timer timer (fun d => d <| op_queue_ := queue |>) ;;
    (if queue is [] then remove_timer timer else ret tt) ;;
    ret (num_cancelled, ops)
  else ret (0%nat, ops).

Definition cancel_timer_by_key (timer : nat) (ops : list wait_op) (key : nat) : TM (list wait_op) :=
  d <- timer_at timer ;;
  t <- gets timers_ ;;
  if is_some (prev_ d) || bool_decide (t = Some timer) then
    let '(queue, ops) := cancel_key_ops key (op_queue_ d) [] ops in
    upd_timer timer (fun d => d <| op_queue_ := queue |>) ;;
    (if queue is [] then remove_timer timer else ret tt) ;;
    ret ops
  else ret ops.

Definition move_timer (target source : nat) : TM unit :=
  s <- timer_at source ;;
  upd_timer source (fun d => d <| op_queue_ := [] |>) ;;
  upd_timer target (fun d => d <| op_queue_ ::= fun l => l ++ op_queue_ s |>) ;;
  upd_timer target (fun d => d <| heap_index_ := heap_index_ s |>) ;;
  upd_timer source (fun d => d <| heap_index_ := None |>) ;;
  n <- gets (fun q => length (heap_ q)) ;;
  (match heap_index_ s with
   | Some i =>
     if (i <? n)%nat then e <- heap_at i ;; set_heap_at i (mk_heap_entry (time_ e) target) else ret tt
   | None => ret tt
   end) ;;
  modify (fun q => if decide (timers_ q = Some source) then q <| timers_ := Some target |> else q) ;;
  upd_timer_opt (prev_ s) (fun d => d <| next_ := Some target |>) ;;
  s <- timer_at source ;;
  upd_timer_opt (next_ s) (fun d => d <| prev_ := Some target |>) ;;
  s <- timer_at source ;;
  upd_timer target (fun d => d <| next_ := next_ s |>) ;;
  upd_timer target (fun d => d <| prev_ := prev_ s |>) ;;
  upd_timer source (fun d => d <| next_ := None |>) ;;
  upd_timer source (fun d => d <| prev_ := None |>).

End TimerQueue.
