(* ===== verification/TimerHeap.v ===== *)
(** The heap of a timer queue: [up_heap], [down_heap] and the removal of an entry
    keep the entries, their order and the indexes that the timers hold. *)
From S2P Require Import Prelude TimerQueue.

Section TimerHeap.
Context {T : Type} {TT : TimeTraits T} {TO : TimeOrder T}.

Definition le (a b : heap_entry (T:=T)) : Prop := less_than (time_ b) (time_ a) = false.

Definition le_at (h : list heap_entry) (i j : nat) : Prop :=
  forall a b, h !! i = Some a -> h !! j = Some b -> le a b.

(** No entry is earlier than its parent. *)
Definition heap_ordered (h : list heap_entry) : Prop :=
  forall c, (0 < c)%nat -> le_at h (parent c) c.

(** Each entry's timer holds the index of the entry. *)
Definition index_ok (q : timer_queue (T:=T)) : Prop :=
  forall i e, heap_ q !! i = Some e -> exists d, objs q !! timer_ e = Some d /\ heap_index_ d = Some i.

Definition strip (d : per_timer_data) : per_timer_data := d <| heap_index_ := None |>.

(** The heap is rearranged; nothing else changes but the indexes of its timers. *)
Record reheap (q q' : timer_queue (T:=T)) : Prop := mk_reheap {
  rh_timers : timers_ q' = timers_ q;
  rh_perm : heap_ q' ≡ₚ heap_ q;
  rh_index : index_ok q';
  rh_strip : forall id, strip <$> objs q' !! id = strip <$> objs q !! id;
  rh_frame : forall id, id ∉ timer_ <$> heap_ q -> objs q' !! id = objs q !! id
}.

Lemma reheap_refl (q : timer_queue) : index_ok q -> reheap q q.
Proof. by split. Qed.

Lemma reheap_trans (q1 q2 q3 : timer_queue) : reheap q1 q2 -> reheap q2 q3 -> reheap q1 q3.
Proof.
  intros [A1 B1 C1 D1 E1] [A2 B2 C2 D2 E2]. split; [congruence | by rewrite B2 | done | | ].
  - intros id. by rewrite D2.
  - intros id Hn. rewrite E2 by (by rewrite B1). by apply E1.
Qed.

Lemma reheap_length (q q' : timer_queue) : reheap q q' -> length (heap_ q') = length (heap_ q).
Proof. intros H. apply Permutation_length, H. Qed.

Lemma le_trans (a b c : heap_entry) : le a b -> le b c -> le a c.
Proof. unfold le. intros H1 H2. by eapply not_less_trans. Qed.

Lemma less_le (a b : heap_entry) : less_than (time_ a) (time_ b) = true -> le a b.
Proof. apply less_than_asym. Qed.

Lemma index_ok_inj (q : timer_queue) (i j : nat) (a b : heap_entry) :
  index_ok q -> heap_ q !! i = Some a -> heap_ q !! j = Some b -> timer_ a = timer_ b -> i = j.
Proof.
  intros H Hi Hj E. destruct (H i a Hi) as (d & Hd & Ei). destruct (H j b Hj) as (d' & Hd' & Ej). congruence.
Qed.

(** * Swapping two entries *)

Definition swap (h : list (heap_entry (T:=T))) (i j : nat) (a b : heap_entry) : list heap_entry :=
  <[j := a]> (<[i := b]> h).

Lemma lookup_swap (h : list heap_entry) (i j k : nat) (a b : heap_entry) :
  h !! i = Some a -> h !! j = Some b ->
  swap h i j a b !! k = if decide (k = j) then Some a else if decide (k = i) then Some b else h !! k.
Proof.
  intros Hi Hj. pose proof (lookup_lt_Some _ _ _ Hi). pose proof (lookup_lt_Some _ _ _ Hj). unfold swap.
  repeat case_decide; subst;
    rewrite ?list_lookup_insert_eq by (rewrite ?length_insert; lia); try done;
    rewrite list_lookup_insert_ne by done;
    rewrite ?list_lookup_insert_eq by (rewrite ?length_insert; lia); try done.
  by rewrite list_lookup_insert_ne.
Qed.

Lemma swap_perm (h : list heap_entry) (i j : nat) (a b : heap_entry) :
  h !! i = Some a -> h !! j = Some b -> swap h i j a b ≡ₚ h.
Proof. apply Permutation_insert_swap. Qed.

(** Executing one access. *)
Lemma bind_ok {A B} (m : TM (T:=T) A) (k : A -> TM B) (q q' : timer_queue) (a : A) :
  m q = (Ok a, q') -> bind m k q = k a q'.
Proof. unfold bind. by intros ->. Qed.

Lemma run_heap_at (q : timer_queue (T:=T)) (i : nat) (e : heap_entry) :
  heap_ q !! i = Some e -> heap_at i q = (Ok e, q).
Proof. unfold heap_at. by intros ->. Qed.

Lemma run_set_heap_at (q : timer_queue (T:=T)) (i : nat) (e a : heap_entry) :
  heap_ q !! i = Some a -> set_heap_at i e q = (Ok tt, q <| heap_ ::= <[i := e]> |>).
Proof. intros H%lookup_lt_Some. unfold set_heap_at. by rewrite decide_True. Qed.

Lemma run_timer_at (q : timer_queue (T:=T)) (id : nat) (d : per_timer_data) :
  objs q !! id = Some d -> timer_at id q = (Ok d, q).
Proof. unfold timer_at. by intros ->. Qed.

Lemma run_upd_timer (q : timer_queue (T:=T)) (id : nat) (d : per_timer_data) f :
  objs q !! id = Some d -> upd_timer id f q = (Ok tt, q <| objs ::= <[id := f d]> |>).
Proof. intros H. unfold upd_timer. by erewrite bind_ok by (by apply run_timer_at). Qed.

Lemma swap_heap_spec (q : timer_queue (T:=T)) (i j : nat) (a b : heap_entry) :
  index_ok q -> heap_ q !! i = Some a -> heap_ q !! j = Some b -> i <> j ->
  exists q', swap_heap i j q = (Ok tt, q') /\ heap_ q' = swap (heap_ q) i j a b /\ reheap q q'.
Proof.
  intros HI Hi Hj Hn.
  destruct (HI i a Hi) as (da & Ha & Ia). destruct (HI j b Hj) as (db & Hb & Ib).
  assert (Hab : timer_ a <> timer_ b) by (intros E; by apply Hn, (index_ok_inj q i j a b)).
  pose proof (lookup_lt_Some _ _ _ Hi) as Li. pose proof (lookup_lt_Some _ _ _ Hj) as Lj.
  eexists. split; [|split].
  - unfold swap_heap.
    rewrite (bind_ok _ _ _ _ _ (run_heap_at q i a Hi)), (bind_ok _ _ _ _ _ (run_heap_at q j b Hj)).
    rewrite (bind_ok _ _ _ _ _ (run_set_heap_at q i b a Hi)).
    erewrite bind_ok; [|apply (run_set_heap_at _ _ _ b); cbn; by rewrite list_lookup_insert_ne].
    erewrite bind_ok; [|apply (run_heap_at _ _ b); cbn;
      rewrite list_lookup_insert_ne by done; by apply list_lookup_insert_eq].
    erewrite bind_ok; [|apply (run_upd_timer _ _ db); exact Hb].
    erewrite bind_ok; [|apply (run_heap_at _ _ a); cbn; apply list_lookup_insert_eq; by rewrite length_insert].
    apply (run_upd_timer _ _ da). cbn. by rewrite lookup_insert_ne.
  - reflexivity.
  - split; cbn; [done | by apply swap_perm | | |].
    + intros k e Hk. change (swap (heap_ q) i j a b !! k = Some e) in Hk. cbn.
      rewrite (lookup_swap _ _ _ _ _ _ Hi Hj) in Hk. repeat case_decide; simplify_eq.
      * rewrite lookup_insert_eq. by eexists.
      * rewrite lookup_insert_ne, lookup_insert_eq by done. by eexists.
      * assert (timer_ a <> timer_ e /\ timer_ b <> timer_ e) as [? ?].
        { split; intros E; [assert (i = k) by (by apply (index_ok_inj q i k a e))
                           |assert (j = k) by (by apply (index_ok_inj q j k b e))]; congruence. }
        rewrite !lookup_insert_ne by done. by apply HI.
    + intros id. destruct (decide (id = timer_ a)) as [->|Na];
        [rewrite lookup_insert_eq, Ha; by destruct da|rewrite lookup_insert_ne by done].
      destruct (decide (id = timer_ b)) as [->|Nb];
        [rewrite lookup_insert_eq, Hb; by destruct db|by rewrite lookup_insert_ne].
    + intros id Hid. rewrite !lookup_insert_ne; [done|..]; intros <-; apply Hid, list_elem_of_fmap;
        eexists; (split; [done|]); by eapply list_elem_of_lookup_2.
Qed.

(** * up_heap *)

Lemma parent_lt (c : nat) : (0 < c)%nat -> (parent c < c)%nat.
Proof. intros H. unfold parent. apply Nat.Div0.div_lt_upper_bound. lia. Qed.

Lemma parent_eq (c i : nat) : (0 < c)%nat -> parent c = i <-> c = (i * 2 + 1)%nat \/ c = (i * 2 + 2)%nat.
Proof.
  intros H. unfold parent.
  pose proof (Nat.div_mod_eq (c - 1) 2). pose proof (Nat.mod_upper_bound (c - 1) 2). lia.
Qed.

(** Ordered but for the entry at [i], which may be earlier than its parent. *)
Definition up_ordered (h : list heap_entry) (i : nat) : Prop :=
  (forall c, (0 < c)%nat -> c <> i -> le_at h (parent c) c) /\
  (forall c, (0 < c)%nat -> parent c = i -> (0 < i)%nat -> le_at h (parent i) c).

Lemma up_ordered_done (h : list heap_entry) (i : nat) :
  up_ordered h i -> ((0 < i)%nat -> le_at h (parent i) i) -> heap_ordered h.
Proof. intros [H _] Hi c Hc. destruct (decide (c = i)) as [->|Hn]; auto. Qed.

Lemma up_ordered_swap (h : list heap_entry) (i : nat) (a b : heap_entry) :
  up_ordered h i -> (0 < i)%nat -> h !! i = Some a -> h !! parent i = Some b ->
  less_than (time_ a) (time_ b) = true -> up_ordered (swap h i (parent i) a b) (parent i).
Proof.
  intros [U1 U2] Hi Ha Hb L. pose proof (parent_lt i Hi) as Hp. apply less_le in L.
  split.
  - intros c Hc Hn x y. rewrite !(lookup_swap _ _ _ _ _ _ Ha Hb).
    rewrite (decide_False (P := c = parent i)) by done.
    destruct (decide (parent c = parent i)) as [E1|N1].
    + intros [= <-]. destruct (decide (c = i)) as [->|Nc]; [by intros [= <-]|].
      intros Hy. eapply le_trans; [exact L|]. apply (U1 c Hc Nc); [by rewrite E1|done].
    + destruct (decide (parent c = i)) as [E2|N2].
      * intros [= <-]. rewrite decide_False by (intros ->; by apply N1). intros Hy. by apply (U2 c Hc E2 Hi b y).
      * destruct (decide (c = i)) as [->|Nc]; [done | by apply U1].
  - intros c Hc E Hp0 x y. pose proof (parent_lt (parent i) Hp0).
    rewrite !(lookup_swap _ _ _ _ _ _ Ha Hb). rewrite !(decide_False (P := parent (parent i) = _)) by lia.
    intros Hx. pose proof (U1 (parent i) Hp0 (ltac:(lia)) x b Hx Hb) as Hxb.
    rewrite (decide_False (P := c = parent i)) by (intros ->; pose proof (parent_lt (parent i) Hp0); lia).
    destruct (decide (c = i)) as [->|Nc]; [by intros [= <-]|].
    intros Hy. eapply le_trans; [exact Hxb|]. apply (U1 c Hc Nc); [by rewrite E|done].
Qed.

Lemma up_heap_spec (fuel i : nat) (q : timer_queue) :
  index_ok q -> (i < length (heap_ q))%nat -> (i <= fuel)%nat -> up_ordered (heap_ q) i ->
  exists q', up_heap_loop fuel i q = (Ok tt, q') /\ reheap q q' /\ heap_ordered (heap_ q').
Proof.
  revert i q. induction fuel as [|fuel IH]; intros i q HI Hi Hf HU.
  { replace i with 0%nat in * by lia. exists q. split_and!; [done | by apply reheap_refl|].
    eapply up_ordered_done; [exact HU | lia]. }
  cbn [up_heap_loop]. destruct (Nat.ltb_spec 0 i) as [Hp|Hp].
  - pose proof (parent_lt i Hp) as Hlt.
    destruct (lookup_lt_is_Some_2 (heap_ q) i Hi) as [a Ha].
    destruct (lookup_lt_is_Some_2 (heap_ q) (parent i)) as [b Hb]; [lia|].
    rewrite (bind_ok _ _ _ _ _ (run_heap_at q i a Ha)), (bind_ok _ _ _ _ _ (run_heap_at q _ b Hb)).
    destruct (less_than (time_ a) (time_ b)) eqn:L; cbn [negb].
    + destruct (swap_heap_spec q i (parent i) a b HI Ha Hb) as (q1 & E1 & H1 & R1); [lia|].
      rewrite (bind_ok _ _ _ _ _ E1). pose proof (reheap_length _ _ R1) as HL.
      destruct (IH (parent i) q1) as (q2 & E2 & R2 & O2); [apply R1|lia|lia| |].
      * rewrite H1. by apply up_ordered_swap.
      * exists q2. split_and!; [done | by eapply reheap_trans | done].
    + exists q. split_and!; [done | by apply reheap_refl|]. eapply up_ordered_done; [exact HU|].
      intros _ x y Hx Hy. unfold le. congruence.
  - exists q. split_and!; [done | by apply reheap_refl|]. eapply up_ordered_done; [exact HU | lia].
Qed.

(** * down_heap *)

(** Ordered but for the children of [i], which may be earlier than it. *)
Definition down_ordered (h : list heap_entry) (i : nat) : Prop :=
  (forall c, (0 < c)%nat -> parent c <> i -> le_at h (parent c) c) /\
  (forall c, (0 < c)%nat -> parent c = i -> (0 < i)%nat -> le_at h (parent i) c).

Lemma down_ordered_done (h : list heap_entry) (i : nat) :
  down_ordered h i -> (forall c, (0 < c)%nat -> parent c = i -> le_at h i c) -> heap_ordered h.
Proof. intros [H _] Hi c Hc. destruct (decide (parent c = i)) as [<-|Hn]; auto. Qed.

Lemma down_ordered_swap (h : list heap_entry) (i m : nat) (a b : heap_entry) :
  down_ordered h i -> (0 < m)%nat -> parent m = i -> h !! i = Some a -> h !! m = Some b ->
  (forall c, (0 < c)%nat -> parent c = i -> le_at h m c) ->
  le b a -> down_ordered (swap h i m a b) m.
Proof.
  intros [D1 D2] Hm Hp Ha Hb Hmin L. pose proof (parent_lt m Hm) as Hlt. rewrite Hp in Hlt.
  split.
  - intros c Hc Hn x y. rewrite !(lookup_swap _ _ _ _ _ _ Ha Hb).
    rewrite (decide_False (P := parent c = m)) by done.
    pose proof (parent_lt c Hc) as Hlc.
    destruct (decide (parent c = i)) as [E|N].
    + intros [= <-]. destruct (decide (c = m)) as [->|Nm]; [by intros [= <-]|].
      rewrite decide_False by lia. intros Hy. by apply (Hmin c).
    + rewrite (decide_False (P := c = m)) by (intros ->; done). intros Hx.
      destruct (decide (c = i)) as [->|Ni]; [|by apply D1].
      intros [= <-]. by apply (D2 m Hm Hp Hc).
  - intros c Hc E _ x y. pose proof (parent_lt c Hc) as Hlc.
    rewrite !(lookup_swap _ _ _ _ _ _ Ha Hb), Hp.
    rewrite (decide_False (P := i = m)), (decide_True (P := i = i)) by (done || lia).
    rewrite (decide_False (P := c = m)), (decide_False (P := c = i)) by lia.
    intros [= <-] Hy. apply (D1 c Hc); [rewrite E; lia | by rewrite E | done].
Qed.

Lemma min_child_spec (q : timer_queue) (i : nat) :
  (i * 2 + 1 < length (heap_ q))%nat ->
  exists m, min_child (i * 2 + 1) q = (Ok m, q) /\ (0 < m)%nat /\ parent m = i /\ (m < length (heap_ q))%nat /\
            forall c, (0 < c)%nat -> parent c = i -> le_at (heap_ q) m c.
Proof.
  intros Hl. unfold min_child, gets, bind at 1.
  assert (Hc : forall m, (forall c, c = i * 2 + 1 \/ c = i * 2 + 2 -> le_at (heap_ q) m c)%nat ->
    forall c, (0 < c)%nat -> parent c = i -> le_at (heap_ q) m c).
  { intros m H c H0 Hp. apply H. by apply parent_eq. }
  assert (Hrefl : forall m, le_at (heap_ q) m m).
  { intros m x y Hx Hy. rewrite Hx in Hy. injection Hy as <-. unfold le.
    destruct (less_than (time_ x) (time_ x)) eqn:E; [|done]. by rewrite (less_than_asym _ _ E) in E. }
  destruct (Nat.eqb_spec (i * 2 + 1 + 1) (length (heap_ q))) as [E|N].
  - exists (i * 2 + 1)%nat. split_and!; [done | lia | by apply parent_eq; lia | lia|].
    apply Hc. intros c [-> | ->]; [done|]. intros x y _ Hy%lookup_lt_Some. lia.
  - destruct (lookup_lt_is_Some_2 (heap_ q) (i * 2 + 1)) as [a Ha]; [lia|].
    destruct (lookup_lt_is_Some_2 (heap_ q) (i * 2 + 1 + 1)) as [b Hb]; [lia|].
    rewrite (bind_ok _ _ _ _ _ (run_heap_at q _ a Ha)), (bind_ok _ _ _ _ _ (run_heap_at q _ b Hb)).
    eexists. split; [done|]. replace (i * 2 + 2)%nat with (i * 2 + 1 + 1)%nat in Hc by lia.
    destruct (less_than (time_ a) (time_ b)) eqn:L.
    + split_and!; [lia | by apply parent_eq; lia | lia|].
      apply Hc. intros c [-> | ->]; [done|]. intros x y Hx Hy. simplify_eq. by apply less_le.
    + split_and!; [lia | apply parent_eq; lia | lia|].
      apply Hc. intros c [-> | ->]; [|done]. intros x y Hx Hy. by simplify_eq.
Qed.

Lemma down_heap_loop_spec (fuel i : nat) (q : timer_queue) :
  index_ok q -> (i < length (heap_ q))%nat -> (length (heap_ q) <= fuel + i)%nat ->
  down_ordered (heap_ q) i ->
  exists q', down_heap_loop fuel i q = (Ok tt, q') /\ reheap q q' /\ heap_ordered (heap_ q').
Proof.
  revert i q. induction fuel as [|fuel IH]; intros i q HI Hi Hf HD; [lia|].
  cbn [down_heap_loop]. unfold gets, bind at 1.
  destruct (Nat.ltb_spec (i * 2 + 1) (length (heap_ q))) as [Hc|Hc].
  - destruct (min_child_spec q i Hc) as (m & Em & Hm & Hp & Hlm & Hmin).
    pose proof (parent_lt m Hm) as Hlt. rewrite Hp in Hlt.
    destruct (lookup_lt_is_Some_2 (heap_ q) i Hi) as [a Ha].
    destruct (lookup_lt_is_Some_2 (heap_ q) m Hlm) as [b Hb].
    rewrite (bind_ok _ _ _ _ _ Em), (bind_ok _ _ _ _ _ (run_heap_at q i a Ha)),
      (bind_ok _ _ _ _ _ (run_heap_at q m b Hb)).
    destruct (less_than (time_ a) (time_ b)) eqn:L.
    + exists q. split_and!; [done | by apply reheap_refl|]. eapply down_ordered_done; [exact HD|].
      intros c H0 Hpc x y Hx Hy. apply less_le in L. simplify_eq. eapply le_trans; [exact L|].
      by apply (Hmin c H0 Hpc).
    + destruct (swap_heap_spec q i m a b HI Ha Hb) as (q1 & E1 & H1 & R1); [lia|].
      rewrite (bind_ok _ _ _ _ _ E1). pose proof (reheap_length _ _ R1) as HL.
      destruct (IH m q1) as (q2 & E2 & R2 & O2); [apply R1|lia|lia| |].
      * rewrite H1. by apply down_ordered_swap.
      * exists q2. split_and!; [done | by eapply reheap_trans | done].
  - exists q. split_and!; [done | by apply reheap_refl|]. eapply down_ordered_done; [exact HD|].
    intros c H0 Hpc x y _ Hy%lookup_lt_Some. apply parent_eq in Hpc; lia.
Qed.

(** * Removing an entry *)

(** The entry [e] of timer [id] leaves the heap. *)
Record unheap (q q' : timer_queue (T:=T)) (id : nat) (e : heap_entry) : Prop := mk_unheap {
  uh_timers : timers_ q' = timers_ q;
  uh_perm : heap_ q ≡ₚ e :: heap_ q';
  uh_index : index_ok q';
  uh_strip : forall x, strip <$> objs q' !! x = strip <$> objs q !! x;
  uh_none : forall d, objs q' !! id = Some d -> heap_index_ d = None;
  uh_frame : forall x, x ∉ timer_ <$> heap_ q -> objs q' !! x = objs q !! x
}.

Lemma take_pred_snoc {A} (l : list A) (x : A) : last l = Some x -> l = take (pred (length l)) l ++ [x].
Proof.
  intros (l' & ->)%last_Some. rewrite length_app. cbn. replace (pred (length l' + 1)) with (length l') by lia.
  by rewrite take_app_length.
Qed.

(** [heap_index_] of the timer of the last entry is reset and the entry popped. *)
Lemma pop_last (q : timer_queue (T:=T)) (e : heap_entry) (d : per_timer_data) :
  index_ok q -> heap_ q !! pred (length (heap_ q)) = Some e -> objs q !! timer_ e = Some d ->
  unheap q (q <| objs ::= <[timer_ e := d <| heap_index_ := None |>]> |>
              <| heap_ ::= fun h => take (pred (length h)) h |>) (timer_ e) e.
Proof.
  intros HI He Hd. rewrite <-last_lookup in He. pose proof (take_pred_snoc _ _ He) as Ht.
  rewrite last_lookup in He. split; cbn; [done | | | | |].
  - rewrite Ht at 1. by rewrite Permutation_app_comm.
  - intros k x Hk. cbn in *. apply lookup_take_Some in Hk as [Hk Hlt].
    destruct (HI k x Hk) as (dx & Hdx & Ix).
    rewrite lookup_insert_ne; [by exists dx|]. intros E.
    pose proof (index_ok_inj q _ _ _ _ HI He Hk E). lia.
  - intros x. destruct (decide (x = timer_ e)) as [->|N]; [|by rewrite lookup_insert_ne].
    rewrite lookup_insert_eq, Hd. by destruct d.
  - intros d'. rewrite lookup_insert_eq. by intros [= <-].
  - intros x Hx. rewrite lookup_insert_ne; [done|]. intros <-. apply Hx, list_elem_of_fmap.
    exists e. split; [done | by eapply list_elem_of_lookup_2].
Qed.

Lemma unheap_reheap (q q1 q2 : timer_queue) (id : nat) (e : heap_entry) :
  unheap q q1 id e -> reheap q1 q2 -> id ∉ timer_ <$> heap_ q1 -> unheap q q2 id e.
Proof.
  intros [A B C D E F] [A' B' C' D' E'] Hn. split; [congruence | by rewrite B' | done | | |].
  - intros x. by rewrite D'.
  - intros d. rewrite E' by done. apply E.
  - intros x Hx. rewrite E'; [by apply F|]. intros Hin. apply Hx. rewrite B. cbn. by right.
Qed.

Lemma reheap_unheap (q q1 q2 : timer_queue) (id : nat) (e : heap_entry) :
  reheap q q1 -> unheap q1 q2 id e -> unheap q q2 id e.
Proof.
  intros [A B C D E] [A' B' C' D' E' F']. split; [congruence | by rewrite <-B | done | | done |].
  - intros x. by rewrite D'.
  - intros x Hx. rewrite F' by (by rewrite B). by apply E.
Qed.

Lemma unheap_absent (q q' : timer_queue) (e : heap_entry) :
  index_ok q -> unheap q q' (timer_ e) e -> timer_ e ∉ timer_ <$> heap_ q'.
Proof.
  intros HI [_ B C _ E _] (x & Ex & Hx)%list_elem_of_fmap.
  apply list_elem_of_lookup in Hx as [k Hk]. destruct (C k x Hk) as (d & Hd & Id).
  rewrite <-Ex in Hd. by rewrite (E d Hd) in Id.
Qed.

(** The heap after its last entry [z] has taken the place [i] of another. *)
Lemma replaced_ordered (h h' : list heap_entry) (i : nat) (e z : heap_entry) :
  heap_ordered h -> h !! i = Some e -> (forall k x, h' !! k = Some x -> (k = i /\ x = z) \/ (k <> i /\ h !! k = Some x)) ->
  h' !! i = Some z ->
  ((0 < i)%nat /\ (exists p, h' !! parent i = Some p /\ less_than (time_ z) (time_ p) = true) -> up_ordered h' i) /\
  (((0 < i)%nat -> exists p, h' !! parent i = Some p /\ less_than (time_ z) (time_ p) = false) -> down_ordered h' i).
Proof.
  intros HO He Hh Hz.
  assert (Hc : forall c, (0 < c)%nat -> parent c = i -> (0 < i)%nat -> le_at h' (parent i) c).
  { intros c Hc Hp Hi x y Hx Hy. pose proof (parent_lt c Hc). pose proof (parent_lt i Hi).
    destruct (Hh _ _ Hx) as [[? ?]|[_ Hx']]; [lia|]. destruct (Hh _ _ Hy) as [[? ?]|[_ Hy']]; [lia|].
    eapply le_trans; [by apply (HO i Hi x e)|]. apply (HO c Hc); [by rewrite Hp|done]. }
  split.
  - intros [Hi (p & Hp & L)]. split; [|done]. intros c H0 Hn x y Hx Hy.
    destruct (Hh _ _ Hy) as [[? ?]|[_ Hy']]; [lia|].
    destruct (Hh _ _ Hx) as [[Ep ->]|[_ Hx']]; [|by apply (HO c H0)].
    eapply le_trans; [by apply less_le|]. by apply (Hc c H0 Ep Hi).
  - intros Hpar. split; [|done]. intros c H0 Hn x y Hx Hy.
    destruct (Hh _ _ Hx) as [[? ?]|[_ Hx']]; [done|].
    destruct (Hh _ _ Hy) as [[-> ->]|[_ Hy']]; [|by apply (HO c H0)].
    destruct (Hpar H0) as (p & Hp & L). unfold le. congruence.
Qed.

Lemma prefix_ordered (h : list heap_entry) (n : nat) : heap_ordered h -> heap_ordered (take n h).
Proof.
  intros H c Hc x y [Hx _]%lookup_take_Some [Hy _]%lookup_take_Some. by apply (H c Hc).
Qed.

(** An entry at [i] moves to its place, up or down. *)
Lemma sift (q : timer_queue) (h : list heap_entry) (i : nat) (e z : heap_entry) :
  index_ok q -> heap_ordered h -> h !! i = Some e -> heap_ q !! i = Some z ->
  (forall k x, heap_ q !! k = Some x -> (k = i /\ x = z) \/ (k <> i /\ h !! k = Some x)) ->
  exists q',
    (if (0 <? i)%nat then
       e <- heap_at i ;; p <- heap_at (parent i) ;;
       if less_than (time_ e) (time_ p) then up_heap i else down_heap i
     else down_heap i) q = (Ok tt, q') /\ reheap q q' /\ heap_ordered (heap_ q').
Proof.
  intros HI HO He Hz Hh. destruct (replaced_ordered h (heap_ q) i e z HO He Hh Hz) as [HU HD].
  pose proof (lookup_lt_Some _ _ _ Hz) as Hlt.
  assert (Hdown : down_ordered (heap_ q) i -> exists q',
    down_heap i q = (Ok tt, q') /\ reheap q q' /\ heap_ordered (heap_ q'))
    by (intros D; apply down_heap_loop_spec; [done|done|lia|done]).
  destruct (Nat.ltb_spec 0 i) as [Hi|Hi]; [|apply Hdown, HD; lia].
  pose proof (parent_lt i Hi).
  destruct (lookup_lt_is_Some_2 (heap_ q) (parent i)) as [p Hp]; [lia|].
  rewrite (bind_ok _ _ _ _ _ (run_heap_at q i z Hz)), (bind_ok _ _ _ _ _ (run_heap_at q _ p Hp)).
  destruct (less_than (time_ z) (time_ p)) eqn:L.
  - apply up_heap_spec; [done..|]. apply HU. split; [done|]. by exists p.
  - apply Hdown, HD. intros _. by exists p.
Qed.

Lemma remove_from_heap_spec (q : timer_queue) (i : nat) (e : heap_entry) :
  index_ok q -> heap_ordered (heap_ q) -> heap_ q !! i = Some e ->
  exists q', remove_from_heap (timer_ e) q = (Ok tt, q') /\ unheap q q' (timer_ e) e /\ heap_ordered (heap_ q').
Proof.
  intros HI HO He. destruct (HI i e He) as (d & Hd & Id). pose proof (lookup_lt_Some _ _ _ He) as Hlt.
  unfold remove_from_heap. rewrite (bind_ok _ _ _ _ _ (run_timer_at q _ d Hd)).
  unfold gets, bind at 1. rewrite Id, (proj2 (Nat.ltb_lt _ _) Hlt).
  destruct (Nat.eqb_spec i (length (heap_ q) - 1)) as [E|N].
  - rewrite (bind_ok _ _ _ _ _ (run_upd_timer q _ d _ Hd)).
    eexists. split; [reflexivity|]. split; [|by apply prefix_ordered].
    apply pop_last; [done | by replace (pred (length (heap_ q))) with i by lia | done].
  - destruct (lookup_lt_is_Some_2 (heap_ q) (length (heap_ q) - 1)) as [z Hz]; [lia|].
    destruct (swap_heap_spec q i (length (heap_ q) - 1) e z HI He Hz N) as (q1 & E1 & H1 & R1).
    rewrite (bind_ok _ _ _ _ _ E1). pose proof (reheap_length _ _ R1) as HL.
    assert (He1 : heap_ q1 !! pred (length (heap_ q1)) = Some e).
    { rewrite HL, H1, (lookup_swap _ _ _ _ _ _ He Hz), decide_True; [done|lia]. }
    destruct (rh_index _ _ R1 _ _ He1) as (d1 & Hd1 & _).
    rewrite (bind_ok _ _ _ _ _ (run_upd_timer q1 _ d1 _ Hd1)).
    pose proof (pop_last q1 e d1 (rh_index _ _ R1) He1 Hd1) as U1.
    unfold pop_back. erewrite bind_ok by reflexivity.
    match type of U1 with unheap _ ?x _ _ => set (q2 := x) in U1 |- * end.
    destruct (sift q2 (heap_ q) i e z (uh_index _ _ _ _ U1) HO He) as (q3 & E3 & R3 & O3).
    + subst q2. cbn. rewrite lookup_take_lt by lia.
      by rewrite H1, (lookup_swap _ _ _ _ _ _ He Hz), decide_False, decide_True.
    + subst q2. cbn. intros k x [Hk Hlk]%lookup_take_Some.
      rewrite H1, (lookup_swap _ _ _ _ _ _ He Hz), decide_False in Hk by lia.
      case_decide; [left; by simplify_eq|by right].
    + exists q3. split; [exact E3|]. split; [|done].
      eapply reheap_unheap; [exact R1|]. eapply unheap_reheap; [exact U1|exact R3|].
      apply (unheap_absent q1); [apply R1|exact U1].
Qed.

(** * Adding an entry *)

Lemma add_to_heap_spec (q : timer_queue) (t : T) (id : nat) (d : per_timer_data) :
  index_ok q -> heap_ordered (heap_ q) -> objs q !! id = Some d -> id ∉ timer_ <$> heap_ q ->
  exists q',
    up_heap (length (heap_ q)) (q <| objs ::= <[id := d <| heap_index_ := Some (length (heap_ q)) |>]> |>
                                  <| heap_ ::= fun h => h ++ [mk_heap_entry t id] |>) = (Ok tt, q') /\
    timers_ q' = timers_ q /\ heap_ q' ≡ₚ mk_heap_entry t id :: heap_ q /\ index_ok q' /\
    heap_ordered (heap_ q') /\
    (forall x, strip <$> objs q' !! x = strip <$> objs q !! x) /\
    (forall x, x <> id -> x ∉ timer_ <$> heap_ q -> objs q' !! x = objs q !! x).
Proof.
  intros HI HO Hd Hid.
  match goal with |- context [up_heap _ ?x] => set (q1 := x) end.
  assert (HI1 : index_ok q1).
  { intros k e. subst q1. cbn. intros Hk. apply lookup_app_Some in Hk as [Hk|[Hk Hx]].
    - rewrite lookup_insert_ne; [by apply HI|]. intros ->. apply Hid, list_elem_of_fmap.
      exists e. split; [done | by eapply list_elem_of_lookup_2].
    - apply list_lookup_singleton_Some in Hx as [Ek <-]. cbn. rewrite lookup_insert_eq.
      eexists. split; [done|]. cbn. f_equal. lia. }
  assert (HO1 : up_ordered (heap_ q1) (length (heap_ q))).
  { assert (Hnew : forall c y, heap_ q1 !! c = Some y -> c <> length (heap_ q) -> heap_ q !! c = Some y).
    { subst q1. cbn. intros c y [Hc|[Hc Hx]]%lookup_app_Some Hn; [done|].
      apply list_lookup_singleton_Some in Hx as [Ek <-]. lia. }
    split.
    - intros c Hc Hn x y Hx Hy. apply Hnew in Hy; [|done]. pose proof (parent_lt c Hc).
      pose proof (lookup_lt_Some _ _ _ Hy). apply Hnew in Hx; [|lia]. by apply (HO c Hc).
    - intros c Hc Hp Hi x y _ Hy%lookup_lt_Some. pose proof (parent_lt c Hc).
      subst q1. cbn in Hy. rewrite length_app in Hy. cbn in Hy. lia. }
  destruct (up_heap_spec (length (heap_ q)) (length (heap_ q)) q1) as (q2 & E2 & R2 & O2);
    [done | subst q1; cbn; rewrite length_app; cbn; lia | lia | done |].
  exists q2. destruct R2 as [A B C D F]. split_and!; [done | by rewrite A | | done | done | |].
  - rewrite B. subst q1. cbn. by rewrite Permutation_app_comm.
  - intros x. rewrite D. subst q1. cbn. destruct (decide (x = id)) as [->|N]; [|by rewrite lookup_insert_ne].
    rewrite lookup_insert_eq, Hd. by destruct d.
  - intros x Hn Hx. rewrite F; subst q1; cbn; [by rewrite lookup_insert_ne|].
    rewrite fmap_app. set_solver.
Qed.

End TimerHeap.
