(* ===== verification/Timers.v ===== *)
(** The timer queue as a whole: the list of active timers, the invariant of the
    heap and the list together, and what each operation does to the timers. *)
From Stdlib Require Import Sorted.
From S2P Require Import Prelude TimerQueue TimerHeap.

Section Timers.
Context {T : Type} {TT : TimeTraits T} {TO : TimeOrder T}.
Implicit Types (q : timer_queue (T:=T)) (o : gmap nat per_timer_data) (l : list nat).

(** * The linked list *)

(** The timers of [l], in this order, are linked both ways; no other timer is. *)
Record linked (tm : option nat) o l : Prop := mk_linked {
  lk_nodup : NoDup l;
  lk_head : tm = head l;
  lk_link : forall l1 id l2, l = l1 ++ id :: l2 ->
    exists d, o !! id = Some d /\ next_ d = head l2 /\ prev_ d = last l1;
  lk_off : forall id d, o !! id = Some d -> id ∉ l -> next_ d = None /\ prev_ d = None
}.

Lemma linked_at tm o l id :
  linked tm o l -> id ∈ l -> exists l1 l2 d, l = l1 ++ id :: l2 /\ o !! id = Some d /\
    next_ d = head l2 /\ prev_ d = last l1.
Proof.
  intros H (l1 & l2 & E)%list_elem_of_split. destruct (lk_link _ _ _ H l1 id l2 E) as (d & ?).
  by exists l1, l2, d.
Qed.

(** The test for an active timer. *)
Lemma linked_active tm o l id d :
  linked tm o l -> o !! id = Some d ->
  is_some (prev_ d) || bool_decide (tm = Some id) = bool_decide (id ∈ l).
Proof.
  intros H Hd. destruct (bool_decide_reflect (id ∈ l)) as [Hin|Hin].
  - destruct (linked_at _ _ _ _ H Hin) as (l1 & l2 & d' & E & Hd' & _ & Hp). simplify_eq.
    rewrite Hp, (lk_head _ _ _ H). destruct l1 as [|x l1] using rev_ind; [|by rewrite last_snoc].
    apply orb_true_intro. right. by apply bool_decide_eq_true.
  - destruct (lk_off _ _ _ H id d Hd Hin) as [_ ->]. cbn. apply bool_decide_eq_false.
    rewrite (lk_head _ _ _ H). intros E. apply Hin. destruct l; [done|]. cbn in E. set_solver.
Qed.

(** Two memories that agree on the links. *)
Definition links (d : per_timer_data) : option nat * option nat := (next_ d, prev_ d).

Lemma linked_same tm o o' l :
  linked tm o l -> (forall x, links <$> o' !! x = links <$> o !! x) -> linked tm o' l.
Proof.
  intros [Hn Hh Hl Ho] E. split; [done|done| |].
  - intros l1 id l2 El. destruct (Hl l1 id l2 El) as (d & Hd & N & P). specialize (E id). rewrite Hd in E.
    destruct (o' !! id) as [d'|]; [|done]. cbn in E. exists d'. unfold links in E. split; [done|]. split; congruence.
  - intros id d Hd Hin. specialize (E id). rewrite Hd in E. destruct (o !! id) as [d'|] eqn:Hd'; [|done].
    destruct (Ho id d' Hd' Hin). cbn in E. unfold links in E. split; congruence.
Qed.

(** What [unlink] leaves of a timer: [p] and [n] are its neighbours. *)
Definition unlinked (id : nat) (p n : option nat) (x : nat) (d : per_timer_data) : per_timer_data :=
  if decide (x = id) then d <| next_ := None |> <| prev_ := None |>
  else if decide (Some x = p) then d <| next_ := n |>
  else if decide (Some x = n) then d <| prev_ := p |>
  else d.

Lemma linked_remove tm o o' l1 id l2 :
  linked tm o (l1 ++ id :: l2) ->
  (forall x, o' !! x = unlinked id (last l1) (head l2) x <$> o !! x) ->
  linked (if decide (tm = Some id) then head l2 else tm) o' (l1 ++ l2).
Proof.
  intros [Hn Hh Hl Ho] E.
  apply NoDup_app in Hn as (N1 & N12 & N2). apply NoDup_cons in N2 as [Nid N2].
  assert (Nid1 : id ∉ l1) by (intros Hin; apply (N12 id Hin); left).
  assert (Nd : forall x, x ∈ l1 -> x ∉ l2) by (intros x Hx Hx2; apply (N12 x Hx); by right).
  assert (Hlast : forall x, last l1 = Some x -> x ∈ l1) by (intros x (l' & ->)%last_Some; set_solver).
  assert (Hhead : forall x, head l2 = Some x -> x ∈ l2) by (intros x; destruct l2; cbn; [done|]; intros [= ->]; left).
  split.
  - apply NoDup_app. split_and!; [done | intros x Hx; by apply Nd | done].
  - rewrite Hh. destruct l1 as [|a l1]; cbn; [by rewrite decide_True|].
    rewrite decide_False; [done|]. intros [= ->]. apply Nid1. left.
  - intros m1 x m2 Em. rewrite E. unfold unlinked.
    destruct (app_eq_inv l1 l2 m1 (x :: m2) Em) as [(k & E1 & E2)|(k & E1 & E2)].
    + destruct k as [|y k]; cbn in E2.
      * subst l2. rewrite app_nil_r in E1. subst m1.
        destruct (Hl (l1 ++ [id]) x m2) as (d & Hd & Hnx & Hpx); [by rewrite <-app_assoc|].
        rewrite Hd. cbn. eexists. split; [done|].
        rewrite decide_False by (intros ->; set_solver).
        rewrite decide_False by (intros Hx%eq_sym%Hlast; by apply (Nd x); [|left]).
        by rewrite decide_True.
      * injection E2 as -> ->. subst l1.
        destruct (Hl m1 y (k ++ id :: l2)) as (d & Hd & Hnx & Hpx); [by rewrite <-app_assoc|].
        rewrite Hd. cbn. eexists. split; [done|].
        rewrite decide_False by (intros ->; set_solver).
        destruct k as [|z k].
        -- rewrite last_snoc, decide_True by done. done.
        -- assert (Hy : last (m1 ++ y :: z :: k) <> Some y).
           { intros Hy. rewrite last_app, last_cons_cons in Hy.
             destruct (last (z :: k)) as [w|] eqn:Ew; [injection Hy as ->|by apply last_None in Ew].
             apply last_Some in Ew as [k' Ek]. apply NoDup_app in N1 as (_ & _ & N1).
             apply NoDup_cons in N1 as [Ny _]. apply Ny. rewrite Ek. set_solver. }
           rewrite decide_False by congruence.
           rewrite decide_False by (intros Hy'%eq_sym%Hhead; apply (Nd y); [set_solver|done]).
           done.
    + subst l2. destruct k as [|y k]; cbn in E1.
      * subst m1. rewrite app_nil_r in *.
        destruct (Hl (l1 ++ [id]) x m2) as (d & Hd & Hnx & Hpx); [by rewrite <-app_assoc|].
        rewrite Hd. cbn. eexists. split; [done|].
        rewrite decide_False by (intros ->; set_solver).
        rewrite decide_False by (intros Hx%eq_sym%Hlast; by apply (Nd x); [|left]).
        by rewrite decide_True.
      * subst m1. destruct (Hl (l1 ++ id :: y :: k) x m2) as (d & Hd & Hnx & Hpx); [by rewrite <-app_assoc|].
        rewrite Hd. cbn. eexists. split; [done|].
        rewrite decide_False by (intros ->; set_solver).
        rewrite decide_False by (intros Hx%eq_sym%Hlast; apply (Nd x); [done|set_solver]).
        rewrite decide_False by (intros [= ->]; apply NoDup_cons in N2 as [Ny _]; set_solver).
        split; [done|]. rewrite Hpx, !last_app. change (last (id :: y :: k)) with (last (y :: k)).
        by destruct (last (y :: k)) eqn:Ek; [|apply last_None in Ek].
  - intros x d. rewrite E. destruct (o !! x) as [d0|] eqn:Hx; [|done]. intros [= <-] Hin. unfold unlinked.
    case_decide as Hid; [done|].
    assert ((x ∉ l1) /\ (x ∉ l2)) as [X1 X2] by set_solver.
    rewrite decide_False by (intros ?%eq_sym%Hlast; done).
    rewrite decide_False by (intros ?%eq_sym%Hhead; done).
    apply (Ho x d0 Hx). set_solver.
Qed.

(** * Writing through pointers *)

Definition alter_opt (id : option nat) (f : per_timer_data -> per_timer_data) o : gmap nat per_timer_data :=
  if id is Some id then alter f id o else o.

Lemma lookup_alter_opt id f o x :
  alter_opt id f o !! x = (if decide (Some x = id) then f else (fun d => d)) <$> o !! x.
Proof.
  destruct id as [id|]; cbn.
  - destruct (decide (x = id)) as [->|N].
    + by rewrite lookup_alter_eq, decide_True.
    + rewrite lookup_alter_ne, decide_False by congruence. by destruct (o !! x).
  - by destruct (o !! x).
Qed.

Lemma run_alter q id f :
  is_Some (objs q !! id) -> upd_timer id f q = (Ok tt, q <| objs ::= alter f id |>).
Proof.
  intros [d Hd]. rewrite (run_upd_timer q id d f Hd).
  enough (E : <[id := f d]> (objs q) = alter f id (objs q)) by (unfold upd; by rewrite E).
  apply map_eq. intros x. destruct (decide (x = id)) as [->|N].
  - by rewrite lookup_insert_eq, lookup_alter_eq, Hd.
  - by rewrite lookup_insert_ne, lookup_alter_ne.
Qed.

Lemma run_alter_opt q id f :
  (forall x, id = Some x -> is_Some (objs q !! x)) ->
  upd_timer_opt id f q = (Ok tt, q <| objs ::= alter_opt id f |>).
Proof.
  intros H. destruct id as [id|]; cbn; [by apply run_alter, H|]. by destruct q.
Qed.

Lemma is_Some_alter_opt id f o x : is_Some (o !! x) -> is_Some (alter_opt id f o !! x).
Proof. intros [d Hd]. rewrite lookup_alter_opt, Hd. by eexists. Qed.

Lemma unlink_spec q l1 id l2 :
  linked (timers_ q) (objs q) (l1 ++ id :: l2) ->
  exists q', unlink id q = (Ok tt, q') /\ heap_ q' = heap_ q /\
    linked (timers_ q') (objs q') (l1 ++ l2) /\
    (forall x, objs q' !! x = unlinked id (last l1) (head l2) x <$> objs q !! x).
Proof.
  intros H. destruct (lk_link _ _ _ H l1 id l2 eq_refl) as (d & Hd & Hn & Hp).
  assert (Nid : forall x, last l1 = Some x \/ head l2 = Some x -> x <> id /\ is_Some (objs q !! x)).
  { intros x Hx. pose proof (lk_nodup _ _ _ H) as (_ & N12 & N2)%NoDup_app. apply NoDup_cons in N2 as [N2 _].
    split.
    - intros ->. destruct Hx as [(l' & ->)%last_Some|Hx]; [apply (N12 id); set_solver|].
      destruct l2; cbn in Hx; simplify_eq. set_solver.
    - assert (Hin : x ∈ l1 ++ id :: l2).
      { destruct Hx as [(l' & ->)%last_Some|Hx]; [set_solver|]. destruct l2; cbn in Hx; simplify_eq. set_solver. }
      destruct (linked_at _ _ _ _ H Hin) as (? & ? & dx & _ & ? & _). by exists dx. }
  assert (Npn : forall x, last l1 = Some x -> head l2 = Some x -> False).
  { intros x (l' & ->)%last_Some Hx. destruct l2; cbn in Hx; simplify_eq.
    pose proof (lk_nodup _ _ _ H) as (_ & N12 & _)%NoDup_app. apply (N12 x); set_solver. }
  set (q1 := q <| timers_ := if decide (timers_ q = Some id) then head l2 else timers_ q |>).
  set (q2 := q1 <| objs ::= alter_opt (last l1) (fun p => p <| next_ := head l2 |>) |>).
  set (q3 := q2 <| objs ::= alter_opt (head l2) (fun p => p <| prev_ := last l1 |>) |>).
  set (q4 := q3 <| objs ::= alter (fun d => d <| next_ := None |>) id |>).
  set (q5 := q4 <| objs ::= alter (fun d => d <| prev_ := None |>) id |>).
  assert (Hid2 : objs q2 !! id = Some d).
  { subst q2 q1. cbn. rewrite lookup_alter_opt, Hd, decide_False; [done|].
    intros E. by destruct (Nid id (or_introl (eq_sym E))). }
  assert (Hid3 : objs q3 !! id = Some d).
  { change (alter_opt (head l2) (fun p => p <| prev_ := last l1 |>) (objs q2) !! id = Some d).
    rewrite lookup_alter_opt, Hid2, decide_False; [done|].
    intros E. by destruct (Nid id (or_intror (eq_sym E))). }
  assert (Hobj : forall x, objs q5 !! x = unlinked id (last l1) (head l2) x <$> objs q !! x).
  { intros x. unfold unlinked. destruct (decide (x = id)) as [->|Nx].
    - change (alter (fun d => d <| prev_ := None |>) id (alter (fun d => d <| next_ := None |>) id (objs q3)) !! id
              = (fun d => d <| next_ := None |> <| prev_ := None |>) <$> objs q !! id).
      by rewrite !lookup_alter_eq, Hid3, Hd.
    - subst q5 q4 q3 q2 q1. cbn. rewrite !lookup_alter_ne, !lookup_alter_opt by done.
      destruct (objs q !! x) as [dx|]; [|done]. cbn. f_equal.
      destruct (decide (Some x = last l1)) as [E1|]; [|by destruct (decide (Some x = head l2))].
      rewrite decide_False; [done|]. intros E2. by apply (Npn x). }
  exists q5. split; [|split; [done|split; [|done]]].
  - unfold unlink. rewrite (bind_ok _ _ _ _ _ (run_timer_at q id d Hd)). unfold gets at 1, bind at 1.
    rewrite (bind_ok _ _ q q1 tt).
    2:{ subst q1. rewrite Hn. case_decide; [done|]. by destruct q. }
    rewrite Hp, Hn. erewrite bind_ok by (apply run_alter_opt; intros x Hx; apply Nid; by left).
    erewrite bind_ok by (by apply run_timer_at). rewrite Hp, Hn.
    erewrite bind_ok by (apply run_alter_opt; intros x Hx; apply is_Some_alter_opt, Nid; by right).
    erewrite bind_ok by (apply run_alter; by exists d).
    apply run_alter. cbn. rewrite lookup_alter_eq. change (is_Some ((fun d => d <| next_ := None |>) <$> objs q3 !! id)).
    rewrite Hid3. by eexists.
  - change (timers_ q5) with (if decide (timers_ q = Some id) then head l2 else timers_ q).
    by apply (linked_remove _ (objs q)).
Qed.

(** A timer put in front. *)
Definition pushed (id : nat) (tm : option nat) (x : nat) (d : per_timer_data) : per_timer_data :=
  if decide (x = id) then d <| next_ := tm |> <| prev_ := None |>
  else if decide (Some x = tm) then d <| prev_ := Some id |>
  else d.

Lemma linked_push tm o o' l id :
  linked tm o l -> id ∉ l -> is_Some (o !! id) ->
  (forall x, o' !! x = pushed id tm x <$> o !! x) -> linked (Some id) o' (id :: l).
Proof.
  intros [Hn Hh Hl Ho] Hid [d Hd] E. split.
  - by apply NoDup_cons.
  - done.
  - intros [|y l1] x l2 El; cbn in El; injection El as <- El.
    + subst l2. rewrite E, Hd. unfold pushed. cbn. rewrite decide_True by done. eexists. by split_and!.
    + destruct (Hl l1 x l2 El) as (dx & Hx & Nx & Px). rewrite E, Hx. unfold pushed. cbn.
      rewrite decide_False by (intros ->; set_solver). eexists. split; [done|].
      destruct l1 as [|z l1].
      * subst l. rewrite Hh. cbn. rewrite decide_True by done. by split.
      * assert (Some x <> tm).
        { rewrite Hh, El. cbn. intros [= ->]. rewrite El in Hn. apply NoDup_cons in Hn as [Hz _]. set_solver. }
        rewrite decide_False by done. split; [done|]. rewrite Px. by destruct l1.
  - intros x dx. rewrite E. destruct (o !! x) as [d0|] eqn:Hx; [|done]. intros [= <-] Hin. unfold pushed.
    rewrite decide_False by set_solver. rewrite decide_False; [apply (Ho x d0 Hx); set_solver|].
    rewrite Hh. intros E'. destruct l; [done|]. cbn in E'. set_solver.
Qed.

(** A timer put in the place of another. *)
Definition replaced (t s : nat) (p n : option nat) (x : nat) (d : per_timer_data) : per_timer_data :=
  if decide (x = t) then d <| next_ := n |> <| prev_ := p |>
  else if decide (x = s) then d <| next_ := None |> <| prev_ := None |>
  else if decide (Some x = p) then d <| next_ := Some t |>
  else if decide (Some x = n) then d <| prev_ := Some t |>
  else d.

Lemma nodup_middle (l1 l2 : list nat) (x : nat) :
  NoDup (l1 ++ x :: l2) -> NoDup l1 /\ NoDup l2 /\ (x ∉ l1) /\ (x ∉ l2) /\ forall y, y ∈ l1 -> y ∉ l2.
Proof.
  intros (N1 & N12 & N2)%NoDup_app. apply NoDup_cons in N2 as [Nx N2].
  split_and!; [done | done | intros H; by apply (N12 x H); left | done|].
  intros y H1 H2. apply (N12 y H1). by right.
Qed.

Lemma last_in (l : list nat) (x : nat) : last l = Some x -> x ∈ l.
Proof. intros (l' & ->)%last_Some. set_solver. Qed.

Lemma head_in (l : list nat) (x : nat) : head l = Some x -> x ∈ l.
Proof. destruct l; cbn; [done|]. intros [= ->]. left. Qed.

Lemma linked_replace tm o o' l1 s l2 t :
  linked tm o (l1 ++ s :: l2) -> t ∉ l1 ++ s :: l2 -> is_Some (o !! t) ->
  (forall x, o' !! x = replaced t s (last l1) (head l2) x <$> o !! x) ->
  linked (if decide (tm = Some s) then Some t else tm) o' (l1 ++ t :: l2).
Proof.
  intros [Hn Hh Hl Ho] Ht [dt Hdt] E.
  destruct (nodup_middle _ _ _ Hn) as (N1 & N2 & S1 & S2 & N12).
  assert (t <> s /\ (t ∉ l1) /\ (t ∉ l2)) as (Ts & T1 & T2) by set_solver.
  split.
  - apply NoDup_app. split_and!; [done| |by apply NoDup_cons]. intros x Hx.
    apply not_elem_of_cons. split; [set_solver|by apply N12].
  - rewrite Hh. destruct l1 as [|a l1]; cbn; [by rewrite decide_True|].
    rewrite decide_False; [done|]. intros [= ->]. apply S1. left.
  - intros m1 x m2 Em. rewrite E. unfold replaced.
    destruct (app_eq_inv l1 (t :: l2) m1 (x :: m2) Em) as [([|y k] & E1 & E2)|([|y k] & E1 & E2)]; cbn in E2.
    + injection E2 as -> ->. rewrite app_nil_r in E1. subst m1. rewrite Hdt. cbn.
      rewrite decide_True by done. eexists. by split_and!.
    + injection E2 as -> ->. subst l1.
      destruct (Hl m1 y (k ++ s :: l2)) as (d & Hd & Hnx & Hpx); [by rewrite <-app_assoc|].
      rewrite Hd. cbn. eexists. split; [done|].
      rewrite decide_False by (intros ->; set_solver). rewrite decide_False by (intros ->; set_solver).
      destruct (nodup_middle m1 k y) as (_ & _ & _ & Yk & _); [done|].
      destruct k as [|z k].
      * rewrite last_snoc, decide_True by done. done.
      * assert (Hy : last (m1 ++ y :: z :: k) <> Some y).
        { intros Hy. rewrite last_app, last_cons_cons in Hy.
          destruct (last (z :: k)) as [w|] eqn:Ew; [injection Hy as ->; by apply Yk, last_in|by apply last_None in Ew]. }
        rewrite decide_False by congruence.
        rewrite decide_False by (intros Hy'%eq_sym%head_in; apply (N12 y); [set_solver|done]). done.
    + injection E2 as <- <-. rewrite app_nil_r in E1. subst m1. rewrite Hdt. cbn.
      rewrite decide_True by done. eexists. by split_and!.
    + injection E2 as <- E2. subst m1 l2.
      destruct (Hl (l1 ++ s :: k) x m2) as (d & Hd & Hnx & Hpx); [by rewrite <-app_assoc|].
      rewrite Hd. cbn. eexists. split; [done|].
      rewrite decide_False by (intros ->; set_solver). rewrite decide_False by (intros ->; set_solver).
      rewrite decide_False by (intros Hx%eq_sym%last_in; apply (N12 x); [done|set_solver]).
      destruct k as [|z k].
      * cbn. rewrite decide_True by done. split; [done|]. cbn. by rewrite last_snoc.
      * cbn [head app]. rewrite decide_False by (intros [= ->]; apply NoDup_cons in N2 as [Ny _]; set_solver).
        split; [done|]. rewrite Hpx, !last_app. done.
  - intros x d. rewrite E. destruct (o !! x) as [d0|] eqn:Hx; [|done]. intros [= <-] Hin. unfold replaced.
    rewrite decide_False by set_solver.
    case_decide as Hs; [done|].
    rewrite decide_False by (intros ?%eq_sym%last_in; set_solver).
    rewrite decide_False by (intros ?%eq_sym%head_in; set_solver).
    apply (Ho x d0 Hx). set_solver.
Qed.

(** * The invariant *)

Record tq_inv q l : Prop := mk_tq_inv {
  ti_linked : linked (timers_ q) (objs q) l;
  ti_index : index_ok q;
  ti_order : heap_ordered (heap_ q);
  ti_active : forall e, e ∈ heap_ q -> timer_ e ∈ l;
  ti_at : forall id d i, objs q !! id = Some d -> heap_index_ d = Some i ->
    exists e, heap_ q !! i = Some e /\ timer_ e = id;
  ti_ops : forall id d, objs q !! id = Some d -> id ∈ l <-> op_queue_ d <> []
}.

(** The operations that wait on a timer. *)
Definition ops_of q (id : nat) : list wait_op := default [] (op_queue_ <$> objs q !! id).

(** The same timers, but for those of which [f] says what they become. *)
Lemma timers_in q id : index_ok q -> id ∈ timer_ <$> heap_ q ->
  exists i e d, heap_ q !! i = Some e /\ timer_ e = id /\ objs q !! id = Some d /\ heap_index_ d = Some i.
Proof.
  intros HI (e & -> & [i Hi]%list_elem_of_lookup)%list_elem_of_fmap.
  destruct (HI i e Hi) as (d & Hd & Id). by exists i, e, d.
Qed.

Lemma strip_links o o' :
  (forall x, strip <$> o' !! x = strip <$> o !! x) -> forall x, links <$> o' !! x = links <$> o !! x.
Proof.
  intros H x. specialize (H x). destruct (o !! x), (o' !! x); cbn in *; try done.
  injection H as ? ? ?. unfold links. by f_equal; f_equal.
Qed.

Lemma strip_ops o o' :
  (forall x, strip <$> o' !! x = strip <$> o !! x) -> forall x, op_queue_ <$> o' !! x = op_queue_ <$> o !! x.
Proof.
  intros H x. specialize (H x). destruct (o !! x), (o' !! x); cbn in *; try done.
  injection H as ? ? ?. by f_equal.
Qed.

Lemma unlinked_same id p n x d :
  heap_index_ (unlinked id p n x d) = heap_index_ d /\ op_queue_ (unlinked id p n x d) = op_queue_ d.
Proof. unfold unlinked. by repeat case_decide. Qed.

(** The invariant when the operations of timer [id] have been taken. *)
Record tq_drained q l (id : nat) : Prop := mk_tq_drained {
  td_linked : linked (timers_ q) (objs q) l;
  td_index : index_ok q;
  td_order : heap_ordered (heap_ q);
  td_active : forall e, e ∈ heap_ q -> timer_ e ∈ l;
  td_at : forall x d i, objs q !! x = Some d -> heap_index_ d = Some i ->
    exists e, heap_ q !! i = Some e /\ timer_ e = x;
  td_ops : forall x d, x <> id -> objs q !! x = Some d -> x ∈ l <-> op_queue_ d <> [];
  td_in : id ∈ l;
  td_none : exists d, objs q !! id = Some d /\ op_queue_ d = []
}.

(** What [remove_from_heap] leaves. *)
Lemma remove_from_heap_drained q l id d :
  tq_drained q l id -> objs q !! id = Some d ->
  exists q1, remove_from_heap id q = (Ok tt, q1) /\ index_ok q1 /\ heap_ordered (heap_ q1) /\
    timers_ q1 = timers_ q /\ (forall x, strip <$> objs q1 !! x = strip <$> objs q !! x) /\
    (forall e, e ∈ heap_ q1 -> e ∈ heap_ q /\ timer_ e <> id) /\
    (forall x d i, objs q1 !! x = Some d -> heap_index_ d = Some i ->
      exists e, heap_ q1 !! i = Some e /\ timer_ e = x) /\
    match heap_index_ d with
    | Some i => exists e, heap_ q !! i = Some e /\ timer_ e = id /\ heap_ q ≡ₚ e :: heap_ q1
    | None => heap_ q1 = heap_ q
    end.
Proof.
  intros [HL HI HO HA Hat _ _ _] Hd. destruct (heap_index_ d) as [i|] eqn:Hi.
  - destruct (Hat id d i Hd Hi) as (e & He & <-).
    destruct (remove_from_heap_spec q i e HI HO He) as (q1 & E1 & U1 & O1).
    pose proof (unheap_absent q q1 e HI U1) as Habs. destruct U1 as [A B C D F G].
    assert (Hsub : forall x, x ∈ heap_ q1 -> x ∈ heap_ q /\ timer_ x <> timer_ e).
    { intros x Hx. split; [rewrite B; by right|]. intros Ex. apply Habs, list_elem_of_fmap. by exists x. }
    exists q1. split_and!; try done; [|by exists e].
    intros x dx j Hx Hj. destruct (decide (x ∈ timer_ <$> heap_ q1)) as [Hin|Hout].
    + destruct (timers_in q1 x C Hin) as (k & y & dy & Hk & Hy & Hdy & Ik). simplify_eq. by exists y.
    + destruct (decide (x = timer_ e)) as [->|Nx]; [by rewrite (F dx Hx) in Hj|].
      assert (Hnot : x ∉ timer_ <$> heap_ q) by (rewrite B; cbn; by apply not_elem_of_cons).
      rewrite G in Hx by done. destruct (Hat x dx j Hx Hj) as (y & Hy & Ey).
      exfalso. apply Hnot, list_elem_of_fmap. exists y. split; [done | by eapply list_elem_of_lookup_2].
  - exists q. split_and!; try done.
    + unfold remove_from_heap. rewrite (bind_ok _ _ _ _ _ (run_timer_at q id d Hd)). unfold gets, bind. by rewrite Hi.
    + intros e He. split; [done|]. intros <-. destruct (timers_in q (timer_ e) HI) as (k & y & dy & _ & _ & Hdy & Ik);
        [apply list_elem_of_fmap; by exists e|]. congruence.
Qed.

(** An active timer whose operations have been taken leaves the queue. *)
Lemma remove_timer_spec q l id d :
  tq_drained q l id -> objs q !! id = Some d ->
  exists q' l1 l2, l = l1 ++ id :: l2 /\ remove_timer id q = (Ok tt, q') /\ tq_inv q' (l1 ++ l2) /\
    (forall x, ops_of q' x = ops_of q x) /\
    match heap_index_ d with
    | Some i => exists e, heap_ q !! i = Some e /\ timer_ e = id /\ heap_ q ≡ₚ e :: heap_ q'
    | None => heap_ q' = heap_ q
    end.
Proof.
  intros H Hd. destruct (remove_from_heap_drained q l id d H Hd) as (q1 & E1 & HI1 & HO1 & HT1 & HS1 & HH1 & HA1 & Hheap).
  destruct H as [HL HI HO HA Hat Hops Hin (d' & Hd' & Hnil)]. simplify_eq.
  destruct (linked_at _ _ _ _ HL Hin) as (l1 & l2 & _ & El & _). subst l.
  assert (HL1 : linked (timers_ q1) (objs q1) (l1 ++ id :: l2)).
  { rewrite HT1. by apply (linked_same _ (objs q)), strip_links. }
  destruct (unlink_spec q1 l1 id l2 HL1) as (q2 & E2 & HH2 & HL2 & HO2).
  assert (Hq2 : forall x, op_queue_ <$> objs q2 !! x = op_queue_ <$> objs q !! x).
  { intros x. rewrite <-(strip_ops _ _ HS1 x), HO2. destruct (objs q1 !! x) as [dx|]; [|done]. cbn.
    by rewrite (proj2 (unlinked_same id (last l1) (head l2) x dx)). }
  destruct (nodup_middle _ _ _ (lk_nodup _ _ _ HL)) as (_ & _ & I1 & I2 & _).
  exists q2, l1, l2. split_and!; [done | | | | ].
  - unfold remove_timer. by rewrite (bind_ok _ _ _ _ _ E1).
  - split; [done | | by rewrite HH2 | | |].
    + intros i e Hi. rewrite HH2 in Hi. destruct (HI1 i e Hi) as (de & He & Ie). rewrite HO2, He. cbn.
      eexists. split; [done|]. by rewrite (proj1 (unlinked_same _ _ _ _ _)).
    + intros e He. rewrite HH2 in He. destruct (HH1 e He) as [He' Hne]. apply HA in He'. set_solver.
    + intros x dx i. rewrite HO2, HH2. destruct (objs q1 !! x) as [d1|] eqn:Hx; [|done]. cbn. intros [= <-].
      rewrite (proj1 (unlinked_same _ _ _ _ _)). by apply HA1.
    + intros x dx Hx. specialize (Hq2 x). rewrite Hx in Hq2. destruct (objs q !! x) as [d0|] eqn:H0; [|done].
      cbn in Hq2. injection Hq2 as ->. destruct (decide (x = id)) as [->|N].
      * simplify_eq. rewrite Hnil. set_solver.
      * rewrite <-(Hops x d0 N H0). set_solver.
  - intros x. unfold ops_of. by rewrite Hq2.
  - by rewrite HH2.
Qed.

(** * Taking operations from a timer *)

Definition with_ops (id : nat) (d : per_timer_data) (ops : list wait_op) q : timer_queue :=
  q <| objs ::= <[id := d <| op_queue_ := ops |>]> |>.

Lemma with_ops_lookup q id d ops x :
  objs q !! id = Some d ->
  objs (with_ops id d ops q) !! x
  = (if decide (x = id) then fun d => d <| op_queue_ := ops |> else fun d => d) <$> objs q !! x.
Proof.
  intros Hd. cbn. destruct (decide (x = id)) as [->|N]; [by rewrite lookup_insert_eq, Hd|].
  rewrite lookup_insert_ne by done. by destruct (objs q !! x).
Qed.

Lemma with_ops_ops_of q id d ops x :
  objs q !! id = Some d -> ops_of (with_ops id d ops q) x = if decide (x = id) then ops else ops_of q x.
Proof.
  intros Hd. unfold ops_of. rewrite with_ops_lookup by done. destruct (decide (x = id)) as [->|N].
  - by rewrite Hd.
  - by destruct (objs q !! x).
Qed.

(** All but the operations is as before. *)
Lemma with_ops_base q l id d ops :
  tq_inv q l -> objs q !! id = Some d ->
  linked (timers_ (with_ops id d ops q)) (objs (with_ops id d ops q)) l /\ index_ok (with_ops id d ops q) /\
  (forall x d' i, objs (with_ops id d ops q) !! x = Some d' -> heap_index_ d' = Some i ->
    exists e, heap_ (with_ops id d ops q) !! i = Some e /\ timer_ e = x).
Proof.
  intros [HL HI HO HA Hat Hops] Hd. split_and!.
  - apply (linked_same _ (objs q)); [done|]. intros x. rewrite with_ops_lookup by done.
    destruct (objs q !! x); [|done]. cbn. by case_decide.
  - intros i e Hi. destruct (HI i e Hi) as (de & He & Ie). rewrite with_ops_lookup, He by done. cbn.
    eexists. split; [done|]. by case_decide.
  - intros x d' i. rewrite with_ops_lookup by done. destruct (objs q !! x) as [dx|] eqn:Hx; [|done].
    cbn. intros [= <-] Hi. apply (Hat x dx i Hx). by case_decide.
Qed.

Lemma with_ops_drained q l id d :
  tq_inv q l -> objs q !! id = Some d -> id ∈ l -> tq_drained (with_ops id d [] q) l id.
Proof.
  intros H Hd Hin. destruct (with_ops_base q l id d [] H Hd) as (HL & HI & Hat).
  destruct H as [_ _ HO HA _ Hops]. split; try done.
  - intros x dx N. rewrite with_ops_lookup, decide_False by done. destruct (objs q !! x) as [d0|] eqn:Hx; [|done].
    cbn. intros [= <-]. by apply Hops.
  - exists (d <| op_queue_ := [] |>). by rewrite with_ops_lookup, decide_True, Hd.
Qed.

Lemma with_ops_inv q l id d ops :
  tq_inv q l -> objs q !! id = Some d -> id ∈ l -> ops <> [] -> tq_inv (with_ops id d ops q) l.
Proof.
  intros H Hd Hin Hne. destruct (with_ops_base q l id d ops H Hd) as (HL & HI & Hat).
  destruct H as [_ _ HO HA _ Hops]. split; try done.
  intros x dx. rewrite with_ops_lookup by done. destruct (objs q !! x) as [d0|] eqn:Hx; [|done].
  cbn. intros [= <-]. case_decide as E; [by subst|by apply Hops].
Qed.

Lemma ready_ops_app (queue ops : list wait_op) :
  ready_ops queue ops = ops ++ map (with_error No_error) queue.
Proof.
  revert ops. induction queue as [|op queue IH]; intros ops; cbn; [by rewrite app_nil_r|].
  by rewrite IH, <-app_assoc.
Qed.

(** How many of [n] operations are cancelled. *)
Definition cancelled (max_cancelled : option nat) (n : nat) : nat :=
  if max_cancelled is Some m then Nat.min m n else n.

Lemma cancel_ops_take (m : option nat) (num : nat) (queue ops : list wait_op) :
  let k := cancelled ((fun m => m - num)%nat <$> m) (length queue) in
  (forall m', m = Some m' -> num <= m')%nat ->
  cancel_ops m num queue ops
  = ((num + k)%nat, drop k queue, ops ++ map (with_error Operation_aborted) (take k queue)).
Proof.
  revert num ops. induction queue as [|op queue IH]; intros num ops k Hm; subst k; cbn [cancel_ops].
  - destruct m; cbn; rewrite ?Nat.min_0_r, app_nil_r, Nat.add_0_r; done.
  - case_decide as E.
    + subst m. cbn [cancelled fmap option_fmap option_map]. replace (num - num)%nat with 0%nat by lia. cbn.
      by rewrite app_nil_r, Nat.add_0_r.
    + rewrite IH by (intros m' ->; specialize (Hm m' eq_refl); assert (num <> m') by congruence; lia).
      assert (Hk : cancelled ((fun m => m - num)%nat <$> m) (length (op :: queue))
                   = S (cancelled ((fun m => m - S num)%nat <$> m) (length queue))).
      { destruct m as [m'|]; cbn; [|done]. specialize (Hm m' eq_refl). assert (num <> m') by congruence.
        destruct (m' - num)%nat eqn:?; lia. }
      rewrite Hk. cbn. rewrite <-app_assoc. cbn. repeat f_equal. lia.
Qed.

Definition has_key (key : nat) (op : wait_op) : bool := bool_decide (cancellation_key_ op = key).

Lemma cancel_key_ops_filter (key : nat) (queue other ops : list wait_op) :
  cancel_key_ops key queue other ops
  = (other ++ List.filter (fun op => negb (has_key key op)) queue,
     ops ++ map (with_error Operation_aborted) (List.filter (has_key key) queue)).
Proof.
  revert other ops. unfold has_key. induction queue as [|op queue IH]; intros other ops; cbn; [by rewrite !app_nil_r|].
  case_decide as E; rewrite IH.
  - rewrite bool_decide_eq_true_2 by done. cbn. by rewrite <-app_assoc.
  - rewrite bool_decide_eq_false_2 by done. cbn. by rewrite <-app_assoc.
Qed.

(** The first entry is the earliest. *)
Lemma heap_root (h : list (heap_entry (T:=T))) (i : nat) (a b : heap_entry) :
  heap_ordered h -> h !! 0%nat = Some a -> h !! i = Some b -> le a b.
Proof.
  intros HO Ha. revert b. induction (lt_wf i) as [i _ IH]. intros b Hb.
  destruct (decide (i = 0%nat)) as [->|N].
  - replace b with a by congruence. unfold le. destruct (less_than (time_ a) (time_ a)) eqn:E; [|done].
    by rewrite (less_than_asym _ _ E) in E.
  - pose proof (parent_lt i ltac:(lia)) as Hp.
    destruct (lookup_lt_is_Some_2 h (parent i)) as [p Hpp]; [apply lookup_lt_Some in Hb; lia|].
    eapply le_trans; [by apply (IH (parent i))|]. by apply (HO i ltac:(lia)).
Qed.

(** * The ready timers *)

Lemma index_ok_nodup q : index_ok q -> NoDup (timer_ <$> heap_ q).
Proof.
  intros HI. apply NoDup_alt. intros i j x. rewrite !list_lookup_fmap, !fmap_Some.
  intros (a & Ha & ->) (b & Hb & E). by apply (index_ok_inj q i j a b).
Qed.

(** One round: the earliest timer, due, is taken. *)
Lemma take_first q l e h :
  tq_inv q l -> heap_ q = e :: h ->
  exists d q' l', objs q !! timer_ e = Some d /\ remove_timer (timer_ e) (with_ops (timer_ e) d [] q) = (Ok tt, q') /\
    tq_inv q' l' /\ heap_ q ≡ₚ e :: heap_ q' /\ (timer_ e ∉ timer_ <$> heap_ q') /\
    (forall x, ops_of q' x = if decide (x = timer_ e) then [] else ops_of q x).
Proof.
  intros H Eh. pose proof (ti_index _ _ H) as HI.
  assert (H0 : heap_ q !! 0%nat = Some e) by (by rewrite Eh).
  destruct (HI 0%nat e H0) as (d & Hd & Id).
  assert (Hin : timer_ e ∈ l) by (apply H; rewrite Eh; left).
  pose proof (with_ops_drained q l _ d H Hd Hin) as HD.
  assert (Hd0 : objs (with_ops (timer_ e) d [] q) !! timer_ e = Some (d <| op_queue_ := [] |>))
    by (by rewrite with_ops_lookup, decide_True, Hd).
  destruct (remove_timer_spec _ _ _ _ HD Hd0) as (q' & l1 & l2 & _ & E & Hinv & Hops & Hheap).
  change (heap_index_ (d <| op_queue_ := [] |>)) with (heap_index_ d) in Hheap. rewrite Id in Hheap.
  destruct Hheap as (e' & He' & _ & Hp). change (heap_ (with_ops (timer_ e) d [] q)) with (heap_ q) in *.
  replace e' with e in Hp by congruence.
  exists d, q', (l1 ++ l2). split_and!; try done.
  - pose proof (index_ok_nodup q HI) as Hnd. rewrite Hp in Hnd. cbn in Hnd. by apply NoDup_cons in Hnd as [? _].
  - intros x. by rewrite Hops, with_ops_ops_of.
Qed.

Lemma ready_loop_spec (fuel : nat) (now : T) (ops : list wait_op) q l :
  tq_inv q l -> (length (heap_ q) <= fuel)%nat ->
  exists q' l' r, ready_loop fuel now ops q
    = (Ok (ops ++ concat (map (fun e => map (with_error No_error) (ops_of q (timer_ e))) r)), q') /\
    tq_inv q' l' /\ heap_ q ≡ₚ r ++ heap_ q' /\ StronglySorted le r /\
    (forall e, e ∈ r -> less_than now (time_ e) = false) /\
    (forall e, e ∈ heap_ q' -> less_than now (time_ e) = true) /\
    (forall x, ops_of q' x = if decide (x ∈ timer_ <$> r) then [] else ops_of q x).
Proof.
  revert ops q l. induction fuel as [|fuel IH]; intros ops q l H Hf.
  { destruct (heap_ q) as [|e h] eqn:Eh; [|cbn in Hf; lia]. exists q, l, [].
    cbn. unfold gets, bind. rewrite Eh, app_nil_r. split_and!; try done; [constructor|set_solver..]. }
  cbn [ready_loop]. unfold gets, bind at 1. destruct (heap_ q) as [|e h] eqn:Eh.
  { exists q, l, []. rewrite Eh, app_nil_r. split_and!; try done; [constructor|set_solver..]. }
  destruct (less_than now (time_ e)) eqn:L; cbn [negb].
  - exists q, l, []. rewrite app_nil_r. split_and!; try done; [by rewrite Eh|constructor|set_solver|].
    intros x [i Hx]%list_elem_of_lookup. destruct (less_than now (time_ x)) eqn:Lx; [done|].
    assert (Hle : le e x) by (eapply (heap_root (heap_ q) i); [apply H|by rewrite Eh|done]).
    rewrite (not_less_trans (time_ e) (time_ x) now Hle Lx) in L. done.
  - destruct (take_first q l e h H Eh) as (d & q1 & l1 & Hd & E1 & H1 & Hp1 & Habs & Hops1).
    assert (Hlen : (length (heap_ q1) <= fuel)%nat).
    { apply Permutation_length in Hp1. cbn in Hp1. rewrite Eh in Hp1. cbn in *. lia. }
    destruct (IH (ready_ops (op_queue_ d) ops) q1 l1 H1 Hlen) as (q' & l' & r & E2 & H2 & Hp2 & Hs & Hr & Hl & Hops2).
    assert (Hsub : forall x, x ∈ r -> x ∈ heap_ q1) by (intros x Hx; rewrite Hp2; set_solver).
    assert (Hne : forall x, x ∈ r -> timer_ x <> timer_ e).
    { intros x Hx E. apply Habs, list_elem_of_fmap. exists x. by split; [|apply Hsub]. }
    exists q', l', (e :: r). split_and!; try done.
    + rewrite (bind_ok _ _ _ _ _ (run_timer_at q _ d Hd)).
      rewrite (bind_ok _ _ _ _ _ (run_upd_timer q _ d _ Hd)), (bind_ok _ _ _ _ _ E1), E2.
      rewrite ready_ops_app, <-app_assoc. cbn [map concat]. unfold ops_of at 2. rewrite Hd. cbn.
      do 5 f_equal. apply map_ext_in. intros x Hx%list_elem_of_In. f_equal.
      rewrite Hops1, decide_False; [done | by apply Hne].
    + rewrite <-Eh, Hp1. cbn. by rewrite Hp2.
    + constructor; [done|]. apply Forall_forall. intros x Hx%Hsub.
      assert (Hin : x ∈ heap_ q) by (rewrite Hp1; by right).
      apply list_elem_of_lookup in Hin as [i Hi]. eapply (heap_root (heap_ q) i); [apply H|by rewrite Eh|done].
    + intros x [->|Hx]%elem_of_cons; [done | by apply Hr].
    + intros x. rewrite Hops2, Hops1. cbn.
      destruct (decide (x ∈ timer_ <$> r)), (decide (x = timer_ e)), (decide (x ∈ timer_ e :: (timer_ <$> r)));
        try done; set_solver.
Qed.

(** * Adding a timer *)

(** The part of [enqueue_timer] that links a new timer, and the operation. *)
Definition link_new (timer : nat) (op : wait_op) : TM (T:=T) unit :=
  (t <- gets timers_ ;;
   upd_timer timer (fun d => d <| next_ := t |>) ;;
   upd_timer timer (fun d => d <| prev_ := None |>) ;;
   upd_timer_opt t (fun d => d <| prev_ := Some timer |>) ;;
   modify (fun q => q <| timers_ := Some timer |>)) ;;
  upd_timer timer (fun d => d <| op_queue_ ::= fun ops => ops ++ [op] |>).

Definition linked_in (id : nat) (tm : option nat) (op : wait_op) (x : nat) (d : per_timer_data) : per_timer_data :=
  if decide (x = id) then (pushed id tm x d) <| op_queue_ ::= fun ops => ops ++ [op] |> else pushed id tm x d.

Lemma link_new_run q l id op :
  linked (timers_ q) (objs q) l -> id ∉ l -> is_Some (objs q !! id) ->
  exists q', link_new id op q = (Ok tt, q') /\ heap_ q' = heap_ q /\ timers_ q' = Some id /\
    forall x, objs q' !! x = linked_in id (timers_ q) op x <$> objs q !! x.
Proof.
  intros HL Hid Hd. unfold link_new, gets.
  assert (Htm : forall x, timers_ q = Some x -> x <> id /\ is_Some (objs q !! x)).
  { intros x Hx. rewrite (lk_head _ _ _ HL) in Hx. apply head_in in Hx. split; [by intros ->|].
    destruct (linked_at _ _ _ _ HL Hx) as (? & ? & dx & _ & ? & _). by exists dx. }
  eexists. split; [|split; [|split]].
  - erewrite bind_ok.
    2:{ unfold bind at 1. erewrite bind_ok by (by apply run_alter).
        erewrite bind_ok by (apply run_alter; cbn; by apply lookup_alter_is_Some).
        erewrite bind_ok; [reflexivity|]. apply run_alter_opt. intros x Hx. cbn.
        by apply lookup_alter_is_Some, lookup_alter_is_Some, Htm. }
    apply run_alter. cbn. by apply is_Some_alter_opt, lookup_alter_is_Some, lookup_alter_is_Some.
  - reflexivity.
  - reflexivity.
  - intros x. cbn. unfold linked_in, pushed. destruct (decide (x = id)) as [->|N].
    + rewrite lookup_alter_eq, lookup_alter_opt, !lookup_alter_eq, decide_False.
      * by destruct (objs q !! id).
      * intros E. by destruct (Htm id (eq_sym E)).
    + rewrite lookup_alter_ne, lookup_alter_opt, !lookup_alter_ne by done.
      by destruct (objs q !! x), (decide (Some x = timers_ q)).
Qed.

Lemma link_new_spec q l id d op :
  linked (timers_ q) (objs q) l -> index_ok q -> heap_ordered (heap_ q) ->
  (forall e, e ∈ heap_ q -> timer_ e ∈ id :: l) ->
  (forall x d i, objs q !! x = Some d -> heap_index_ d = Some i -> exists e, heap_ q !! i = Some e /\ timer_ e = x) ->
  (forall x d, objs q !! x = Some d -> x ∈ l <-> op_queue_ d <> []) ->
  id ∉ l -> objs q !! id = Some d ->
  exists q', link_new id op q = (Ok tt, q') /\ tq_inv q' (id :: l) /\ heap_ q' = heap_ q /\
    (forall x, heap_index_ <$> objs q' !! x = heap_index_ <$> objs q !! x) /\
    (forall x, ops_of q' x = if decide (x = id) then [op] else ops_of q x).
Proof.
  intros HL HI HO HA Hat Hops Hid Hd.
  destruct (link_new_run q l id op HL Hid) as (q' & E & Hh & Ht & Ho); [by exists d|].
  assert (Hnil : op_queue_ d = []).
  { destruct (op_queue_ d) eqn:Eo; [done|]. exfalso. apply Hid, (Hops id d Hd). by rewrite Eo. }
  assert (Hfld : forall x dx, heap_index_ (linked_in id (timers_ q) op x dx) = heap_index_ dx /\
    op_queue_ (linked_in id (timers_ q) op x dx) = if decide (x = id) then op_queue_ dx ++ [op] else op_queue_ dx).
  { intros x dx. unfold linked_in, pushed. by repeat case_decide. }
  exists q'. split_and!; [done | | done | |].
  - split; [| | by rewrite Hh | by rewrite Hh | |].
    + rewrite Ht. set (o1 := map_imap (fun x dx => Some (pushed id (timers_ q) x dx)) (objs q)).
      assert (Ho1 : forall x, o1 !! x = pushed id (timers_ q) x <$> objs q !! x)
        by (intros x; unfold o1; rewrite map_lookup_imap; by destruct (objs q !! x)).
      apply (linked_same _ o1); [by eapply linked_push; [| |exists d|]|].
      intros x. rewrite Ho, Ho1. destruct (objs q !! x); [|done]. cbn. unfold linked_in. by case_decide.
    + intros i e Hi. rewrite Hh in Hi. destruct (HI i e Hi) as (de & He & Ie). rewrite Ho, He. cbn.
      eexists. split; [done|]. by rewrite (proj1 (Hfld _ _)).
    + intros x dx i. rewrite Ho, Hh. destruct (objs q !! x) as [d0|] eqn:Hx; [|done]. cbn. intros [= <-].
      rewrite (proj1 (Hfld _ _)). by apply Hat.
    + intros x dx. rewrite Ho. destruct (objs q !! x) as [d0|] eqn:Hx; [|done]. cbn. intros [= <-].
      rewrite (proj2 (Hfld _ _)), elem_of_cons. case_decide as N; [subst x|].
      * split; [|by left]. intros _ H. by apply app_nil in H as [_ ?].
      * rewrite <-(Hops x d0 Hx). naive_solver.
  - intros x. rewrite Ho. destruct (objs q !! x); [|done]. cbn. by rewrite (proj1 (Hfld _ _)).
  - intros x. unfold ops_of. rewrite Ho. case_decide as N; [subst x; rewrite Hd|destruct (objs q !! x); [|done]];
      cbn; rewrite (proj2 (Hfld _ _)); [by rewrite decide_True, Hnil|by rewrite decide_False].
Qed.

Lemma not_in_heap q l id : tq_inv q l -> id ∉ l -> id ∉ timer_ <$> heap_ q.
Proof. intros H Hid (e & -> & He)%list_elem_of_fmap. by apply Hid, (ti_active _ _ H). Qed.

(** A timer that is not active is put in the heap, or not when it never expires. *)
Definition heap_new (time : T) (timer : nat) : TM (T:=T) unit :=
  if is_positive_infinity time then upd_timer timer (fun d => d <| heap_index_ := None |>)
  else
    n <- gets (fun q => length (heap_ q)) ;;
    upd_timer timer (fun d => d <| heap_index_ := Some n |>) ;;
    modify (fun q => q <| heap_ ::= fun h => h ++ [mk_heap_entry time timer] |>) ;;
    up_heap n.

Lemma heap_new_spec q l t id d :
  tq_inv q l -> id ∉ l -> objs q !! id = Some d ->
  exists q', heap_new t id q = (Ok tt, q') /\ timers_ q' = timers_ q /\ index_ok q' /\ heap_ordered (heap_ q') /\
    (forall x, strip <$> objs q' !! x = strip <$> objs q !! x) /\
    (forall x d i, objs q' !! x = Some d -> heap_index_ d = Some i -> exists e, heap_ q' !! i = Some e /\ timer_ e = x) /\
    heap_ q' ≡ₚ (if is_positive_infinity t then heap_ q else mk_heap_entry t id :: heap_ q).
Proof.
  intros H Hid Hd. pose proof (not_in_heap q l id H Hid) as Hnot. destruct H as [HL HI HO HA Hat Hops].
  unfold heap_new. destruct (is_positive_infinity t).
  - exists (q <| objs ::= <[id := d <| heap_index_ := None |>]> |>). split; [by apply run_upd_timer|].
    assert (Hnone : heap_index_ d = None).
    { destruct (heap_index_ d) as [i|] eqn:Hi; [|done]. destruct (Hat id d i Hd Hi) as (e & He & <-).
      exfalso. apply Hid, HA. by eapply list_elem_of_lookup_2. }
    assert (Ed : d <| heap_index_ := None |> = d) by (destruct d; cbn in *; by subst).
    assert (Eq : q <| objs ::= <[id := d <| heap_index_ := None |>]> |> = q).
    { rewrite Ed. assert (Eo : <[id := d]> (objs q) = objs q) by (by apply insert_id).
      destruct q as [tm h o]. cbn in *. change (mk_timer_queue tm h (<[id := d]> o) = mk_timer_queue tm h o). by rewrite Eo. }
    rewrite Eq. by split_and!.
  - destruct (add_to_heap_spec q t id d HI HO Hd Hnot) as (q' & E & A & B & C & D & F & G).
    exists q'. split_and!; try done.
    + unfold gets, bind at 1. rewrite (bind_ok _ _ _ _ _ (run_upd_timer q id d _ Hd)).
      erewrite bind_ok by reflexivity. exact E.
    + intros x dx j Hx Hj. destruct (decide (x ∈ timer_ <$> heap_ q')) as [Hin|Hout].
      * destruct (timers_in q' x C Hin) as (k & y & dy & Hk & Hy & Hdy & Ik). simplify_eq. by exists y.
      * rewrite B in Hout. cbn in Hout. apply not_elem_of_cons in Hout as [N Hout].
        rewrite G in Hx by done. destruct (Hat x dx j Hx Hj) as (y & Hy & Ey).
        exfalso. apply Hout, list_elem_of_fmap. exists y. split; [done | by eapply list_elem_of_lookup_2].
Qed.

Lemma bind_inv {A B} (m : TM (T:=T) A) (k : A -> TM B) q q' b :
  bind m k q = (Ok b, q') -> exists a q1, m q = (Ok a, q1) /\ k a q1 = (Ok b, q').
Proof. unfold bind. destruct (m q) as [[a|] q1] eqn:E; [|done]. by exists a, q1. Qed.

(** The state [enqueue_timer] leaves, and what it returns in that state. *)
Lemma enqueue_run q l t id d op :
  tq_inv q l -> objs q !! id = Some d ->
  exists q' l' d', enqueue_timer t id op q
    = (Ok (bool_decide (heap_index_ d' = Some 0%nat) &&
           bool_decide (op_id <$> head (op_queue_ d') = Some (op_id op))), q') /\
    objs q' !! id = Some d' /\ tq_inv q' l' /\
    (forall x, ops_of q' x = if decide (x = id) then ops_of q id ++ [op] else ops_of q x) /\
    (forall x, x ∈ l' <-> x = id \/ x ∈ l) /\
    heap_ q' ≡ₚ (if bool_decide (id ∈ l) || is_positive_infinity t then heap_ q else mk_heap_entry t id :: heap_ q).
Proof.
  intros H Hd. pose proof (linked_active _ _ _ _ _ (ti_linked _ _ H) Hd) as Hact.
  unfold enqueue_timer. rewrite (bind_ok _ _ _ _ _ (run_timer_at q id d Hd)). unfold gets at 1, bind at 1.
  replace (is_none (prev_ d) && negb (bool_decide (timers_ q = Some id))) with (negb (bool_decide (id ∈ l)))
    by (rewrite <-Hact; by destruct (prev_ d), (bool_decide (timers_ q = Some id))).
  destruct (bool_decide_reflect (id ∈ l)) as [Hin|Hout]; cbn [negb orb].
  - set (q1 := with_ops id d (op_queue_ d ++ [op]) q).
    assert (Hd1 : objs q1 !! id = Some (d <| op_queue_ := op_queue_ d ++ [op] |>))
      by (subst q1; by rewrite with_ops_lookup, decide_True, Hd).
    exists q1, l, (d <| op_queue_ := op_queue_ d ++ [op] |>). split_and!; try done.
    + erewrite bind_ok by reflexivity. rewrite (bind_ok _ _ _ _ _ (run_upd_timer q id d _ Hd)).
      erewrite bind_ok by (by apply run_timer_at). done.
    + apply with_ops_inv; try done. by destruct (op_queue_ d).
    + intros x. subst q1. rewrite with_ops_ops_of by done. unfold ops_of at 2. by rewrite Hd.
    + intros x. naive_solver.
  - destruct (heap_new_spec q l t id d H Hout Hd) as (q1 & E1 & T1 & I1 & O1 & S1 & A1 & P1).
    destruct (objs q1 !! id) as [d1|] eqn:Hd1; [|specialize (S1 id); by rewrite Hd1, Hd in S1].
    assert (Ops1 : forall x, op_queue_ <$> objs q1 !! x = op_queue_ <$> objs q !! x) by (by apply strip_ops).
    destruct (link_new_spec q1 l id d1 op) as (q2 & E2 & H2 & Hh2 & Hi2 & Hops2); try done.
    + rewrite T1. apply (linked_same _ (objs q)); [apply H | by apply strip_links].
    + intros e He. rewrite P1 in He. destruct (is_positive_infinity t);
        [right; by apply (ti_active _ _ H)|apply elem_of_cons in He as [->|He]; [left|right; by apply (ti_active _ _ H)]].
    + intros x dx Hx. specialize (Ops1 x). rewrite Hx in Ops1. destruct (objs q !! x) as [d0|] eqn:H0; [|done].
      cbn in Ops1. injection Ops1 as ->. by apply (ti_ops _ _ H).
    + assert (Hnil : ops_of q id = []).
      { unfold ops_of. rewrite Hd. cbn. destruct (op_queue_ d) eqn:Eo; [done|].
        exfalso. apply Hout, (ti_ops _ _ H id d Hd). by rewrite Eo. }
      destruct (objs q2 !! id) as [d2|] eqn:Hd2; [|specialize (Hi2 id); by rewrite Hd2, Hd1 in Hi2].
      unfold link_new in E2. apply bind_inv in E2 as ([] & q3 & E3 & E4).
      exists q2, (id :: l), d2. split_and!; try done.
      * erewrite bind_ok; [|erewrite bind_ok by exact E1; exact E3].
        rewrite (bind_ok _ _ _ _ _ E4). by erewrite bind_ok by (by apply run_timer_at).
      * intros x. rewrite Hops2, Hnil. unfold ops_of. by rewrite Ops1.
      * intros x. by rewrite elem_of_cons.
      * by rewrite Hh2.
Qed.

(** Adding a wait to a timer: the operation is queued on the timer, after
    those that wait on it already; a timer that was not active is entered with
    its time, unless that time never comes; nothing else changes.  [true], by
    which the reactor is interrupted, is returned only for a timer that is now
    the earliest, and always for a new timer earlier than all others. *)
Theorem enqueue_timer_correct q l (t : T) (id : nat) (d : per_timer_data) (op : wait_op) :
  tq_inv q l -> objs q !! id = Some d ->
  exists b q' l', enqueue_timer t id op q = (Ok b, q') /\ tq_inv q' l' /\
    (forall x, x ∈ l' <-> x = id \/ x ∈ l) /\
    (forall x, ops_of q' x = if decide (x = id) then ops_of q id ++ [op] else ops_of q x) /\
    heap_ q' ≡ₚ (if bool_decide (id ∈ l) || is_positive_infinity t then heap_ q else mk_heap_entry t id :: heap_ q) /\
    (b = true -> exists e0, e0 ∈ heap_ q' /\ timer_ e0 = id /\ forall e, e ∈ heap_ q' -> le e0 e) /\
    (id ∉ l -> is_positive_infinity t = false -> (forall e, e ∈ heap_ q -> less_than t (time_ e) = true) -> b = true).
Proof.
  intros H Hd. destruct (enqueue_run q l t id d op H Hd) as (q' & l' & d' & E & Hd' & H' & Hops & Hl & Hp).
  eexists _, q', l'. split; [exact E|]. split_and!; try done.
  - intros [B1 _]%andb_true_iff. apply bool_decide_eq_true in B1.
    destruct (ti_at _ _ H' id d' 0%nat Hd' B1) as (e0 & He0 & Ht). exists e0.
    split_and!; [by eapply list_elem_of_lookup_2|done|].
    intros e [i Hi]%list_elem_of_lookup. eapply heap_root; [apply H'|done|done].
  - intros Hout Hinf Hless. rewrite bool_decide_eq_false_2, Hinf in Hp by done. cbn [orb] in Hp.
    apply andb_true_iff. split; apply bool_decide_eq_true.
    + assert (Hin : mk_heap_entry t id ∈ heap_ q') by (rewrite Hp; left).
      apply list_elem_of_lookup in Hin as [i Hi]. destruct (ti_index _ _ H' i _ Hi) as (d2 & Hd2 & I2).
      cbn in Hd2. simplify_eq. rewrite I2. f_equal.
      destruct (lookup_lt_is_Some_2 (heap_ q') 0) as [r Hr]; [apply lookup_lt_Some in Hi; lia|].
      pose proof (heap_root _ i r _ (ti_order _ _ H') Hr Hi) as Hle.
      assert (Hrin : r ∈ heap_ q') by (by eapply list_elem_of_lookup_2).
      rewrite Hp in Hrin. apply elem_of_cons in Hrin as [->|Hrin].
      * by apply (index_ok_inj q' _ _ _ _ (ti_index _ _ H') Hi Hr).
      * unfold le in Hle. cbn in Hle. by rewrite (Hless r Hrin) in Hle.
    + specialize (Hops id). unfold ops_of in Hops. rewrite Hd', Hd, decide_True in Hops by done. cbn in Hops.
      rewrite Hops. assert (Hnil : op_queue_ d = []); [|by rewrite Hnil].
      destruct (op_queue_ d) eqn:Eo; [done|]. exfalso. apply Hout, (ti_ops _ _ H id d Hd). by rewrite Eo.
Qed.

(** C18: firing the timers: [get_ready_timers] ends, and hands over, with no error
    and ordered by time, the operations of exactly the timers whose time is not
    after [now]; the others stay with their operations, and none of them is due. *)
Theorem ready_timers_correct q l (now : T) (ops : list wait_op) :
  tq_inv q l ->
  exists q' l' r, get_ready_timers now ops q
    = (Ok (ops ++ concat (map (fun e => map (with_error No_error) (ops_of q (timer_ e))) r)), q') /\
    tq_inv q' l' /\ heap_ q ≡ₚ r ++ heap_ q' /\ StronglySorted le r /\
    (forall e, e ∈ r -> less_than now (time_ e) = false) /\
    (forall e, e ∈ heap_ q' -> less_than now (time_ e) = true) /\
    (forall x, ops_of q' x = if decide (x ∈ timer_ <$> r) then [] else ops_of q x).
Proof. intros H. unfold get_ready_timers, gets, bind at 1. by apply (ready_loop_spec _ now ops q l). Qed.

(** * Cancelling *)

(** The operations of a timer become [queue]; without any it leaves. *)
Lemma shrink_spec q l id d queue :
  tq_inv q l -> objs q !! id = Some d -> id ∈ l ->
  exists q' l', (upd_timer id (fun d => d <| op_queue_ := queue |>) ;;
                 if queue is [] then remove_timer id else ret tt) q = (Ok tt, q') /\ tq_inv q' l' /\
    (forall x, x ∈ l' <-> x ∈ l /\ (x <> id \/ queue <> [])) /\
    (forall x, ops_of q' x = if decide (x = id) then queue else ops_of q x).
Proof.
  intros H Hd Hin. rewrite (bind_ok _ _ _ _ _ (run_upd_timer q id d _ Hd)).
  change (q <| objs ::= <[id := d <| op_queue_ := queue |>]> |>) with (with_ops id d queue q).
  destruct queue as [|op queue].
  - pose proof (with_ops_drained q l id d H Hd Hin) as HD.
    assert (Hd0 : objs (with_ops id d [] q) !! id = Some (d <| op_queue_ := [] |>))
      by (by rewrite with_ops_lookup, decide_True, Hd).
    destruct (remove_timer_spec _ _ _ _ HD Hd0) as (q' & l1 & l2 & El & E & Hinv & Hops & _).
    exists q', (l1 ++ l2). split_and!; try done.
    + intros x. pose proof (lk_nodup _ _ _ (ti_linked _ _ H)) as Hnd. rewrite El in Hnd.
      destruct (nodup_middle _ _ _ Hnd) as (_ & _ & I1 & I2 & _). set_solver.
    + intros x. by rewrite Hops, with_ops_ops_of.
  - exists (with_ops id d (op :: queue) q), l. split_and!; [done | by apply with_ops_inv | naive_solver|].
    intros x. by apply with_ops_ops_of.
Qed.

Lemma drop_not_nil {A} (n : nat) (k : list A) : drop n k <> [] <-> (n < length k)%nat.
Proof. rewrite <-length_zero_iff_nil, length_drop. lia. Qed.

Lemma cancel_run q l id d ops m :
  tq_inv q l -> objs q !! id = Some d ->
  let n := cancelled m (length (op_queue_ d)) in
  exists q' l', cancel_timer id ops m q
    = (Ok (n, ops ++ map (with_error Operation_aborted) (take n (op_queue_ d))), q') /\ tq_inv q' l' /\
    (forall x, x ∈ l' <-> x ∈ l /\ (x <> id \/ (n < length (op_queue_ d))%nat)) /\
    (forall x, ops_of q' x = if decide (x = id) then drop n (op_queue_ d) else ops_of q x).
Proof.
  intros H Hd n. unfold cancel_timer. rewrite (bind_ok _ _ _ _ _ (run_timer_at q id d Hd)). unfold gets, bind at 1.
  rewrite (linked_active _ _ _ _ _ (ti_linked _ _ H) Hd).
  destruct (bool_decide_reflect (id ∈ l)) as [Hin|Hout].
  - rewrite cancel_ops_take by (intros; lia). cbn [Nat.add].
    replace (cancelled ((fun m => m - 0)%nat <$> m) (length (op_queue_ d))) with n
      by (subst n; destruct m; cbn; [by rewrite Nat.sub_0_r|done]).
    destruct (shrink_spec q l id d (drop n (op_queue_ d)) H Hd Hin) as (q' & l' & E & H' & Hl & Ho).
    exists q', l'. split_and!; try done.
    + apply bind_inv in E as ([] & q1 & E1 & E2). rewrite (bind_ok _ _ _ _ _ E1), (bind_ok _ _ _ _ _ E2). done.
    + intros x. by rewrite Hl, drop_not_nil.
  - assert (Hnil : op_queue_ d = []).
    { destruct (op_queue_ d) eqn:Eo; [done|]. exfalso. apply Hout, (ti_ops _ _ H id d Hd). by rewrite Eo. }
    subst n. rewrite Hnil. cbn [length]. assert (cancelled m 0 = 0%nat) as -> by (destruct m; cbn; lia). cbn. rewrite app_nil_r.
    exists q, l. split_and!; try done.
    + intros x. split; [|naive_solver]. intros Hx. split; [done|]. left. by intros ->.
    + intros x. case_decide as E; [subst x; unfold ops_of; by rewrite Hd, <-Hnil|done].
Qed.

Lemma cancel_by_key_run q l id d ops key :
  tq_inv q l -> objs q !! id = Some d ->
  exists q' l', cancel_timer_by_key id ops key q
    = (Ok (ops ++ map (with_error Operation_aborted) (List.filter (has_key key) (op_queue_ d))), q') /\ tq_inv q' l' /\
    (forall x, ops_of q' x
      = if decide (x = id) then List.filter (fun op => negb (has_key key op)) (op_queue_ d) else ops_of q x).
Proof.
  intros H Hd. unfold cancel_timer_by_key. rewrite (bind_ok _ _ _ _ _ (run_timer_at q id d Hd)). unfold gets, bind at 1.
  rewrite (linked_active _ _ _ _ _ (ti_linked _ _ H) Hd).
  destruct (bool_decide_reflect (id ∈ l)) as [Hin|Hout].
  - rewrite cancel_key_ops_filter. cbn [app].
    destruct (shrink_spec q l id d (List.filter (fun op => negb (has_key key op)) (op_queue_ d)) H Hd Hin)
      as (q' & l' & E & H' & _ & Ho).
    exists q', l'. split_and!; try done.
    apply bind_inv in E as ([] & q1 & E1 & E2). by rewrite (bind_ok _ _ _ _ _ E1), (bind_ok _ _ _ _ _ E2).
  - assert (Hnil : op_queue_ d = []).
    { destruct (op_queue_ d) eqn:Eo; [done|]. exfalso. apply Hout, (ti_ops _ _ H id d Hd). by rewrite Eo. }
    rewrite Hnil. cbn. rewrite app_nil_r. exists q, l. split_and!; try done.
    intros x. case_decide as E; [subst x; unfold ops_of; by rewrite Hd, <-Hnil|done].
Qed.

(** Cancelling: [cancel_timer] aborts, in order, the first [max_cancelled]
    waits of the timer, or all, and returns how many; [cancel_timer_by_key]
    those with the key.  The other waits of the timer stay in their order, the
    waits of other timers are not touched, and the timer leaves the queue when
    none is left. *)
Theorem cancel_timer_correct q l (id : nat) (d : per_timer_data) (ops : list wait_op) (m : option nat) (key : nat) :
  tq_inv q l -> objs q !! id = Some d ->
  (let n := cancelled m (length (op_queue_ d)) in
   exists q' l', cancel_timer id ops m q
     = (Ok (n, ops ++ map (with_error Operation_aborted) (take n (op_queue_ d))), q') /\ tq_inv q' l' /\
     (forall x, x ∈ l' <-> x ∈ l /\ (x <> id \/ (n < length (op_queue_ d))%nat)) /\
     (forall x, ops_of q' x = if decide (x = id) then drop n (op_queue_ d) else ops_of q x)) /\
  (exists q' l', cancel_timer_by_key id ops key q
     = (Ok (ops ++ map (with_error Operation_aborted) (List.filter (has_key key) (op_queue_ d))), q') /\ tq_inv q' l' /\
     (forall x, ops_of q' x
       = if decide (x = id) then List.filter (fun op => negb (has_key key op)) (op_queue_ d) else ops_of q x)).
Proof. intros H Hd. split; [by apply cancel_run | by apply (cancel_by_key_run q l)]. Qed.

(** * Moving *)

Definition moved (t s : nat) (ds : per_timer_data) (x : nat) (d : per_timer_data) : per_timer_data :=
  if decide (x = t) then mk_timer_data (op_queue_ d ++ op_queue_ ds) (heap_index_ ds) (next_ ds) (prev_ ds)
  else if decide (x = s) then mk_timer_data [] None None None
  else if decide (Some x = prev_ ds) then d <| next_ := Some t |>
  else if decide (Some x = next_ ds) then d <| prev_ := Some t |>
  else d.

Definition moved_heap (t : nat) (i : option nat) (h : list (heap_entry (T:=T))) : list heap_entry :=
  match i with
  | Some i => if h !! i is Some e then <[i := mk_heap_entry (time_ e) t]> h else h
  | None => h
  end.

Lemma move_run q t s ds :
  objs q !! s = Some ds -> is_Some (objs q !! t) -> t <> s ->
  (forall x, prev_ ds = Some x \/ next_ ds = Some x -> x <> s /\ x <> t /\ is_Some (objs q !! x)) ->
  (forall x, prev_ ds = Some x -> next_ ds = Some x -> False) ->
  exists q', move_timer t s q = (Ok tt, q') /\
    timers_ q' = (if decide (timers_ q = Some s) then Some t else timers_ q) /\
    heap_ q' = moved_heap t (heap_index_ ds) (heap_ q) /\
    forall x, objs q' !! x = moved t s ds x <$> objs q !! x.
Proof.
  intros Hs Ht Hn Hnb Hpn.
  set (o1 := alter (fun d => d <| op_queue_ := [] |>) s (objs q)).
  set (o2 := alter (fun d => d <| op_queue_ ::= fun ops => ops ++ op_queue_ ds |>) t o1).
  set (o3 := alter (fun d => d <| heap_index_ := heap_index_ ds |>) t o2).
  set (o4 := alter (fun d => d <| heap_index_ := None |>) s o3).
  set (o5 := alter_opt (prev_ ds) (fun d => d <| next_ := Some t |>) o4).
  set (o6 := alter_opt (next_ ds) (fun d => d <| prev_ := Some t |>) o5).
  set (o7 := alter (fun d => d <| next_ := next_ ds |>) t o6).
  set (o8 := alter (fun d => d <| prev_ := prev_ ds |>) t o7).
  set (o9 := alter (fun d => d <| next_ := None |>) s o8).
  set (o10 := alter (fun d => d <| prev_ := None |>) s o9).
  set (tm := if decide (timers_ q = Some s) then Some t else timers_ q).
  set (h := moved_heap t (heap_index_ ds) (heap_ q)).
  assert (Hex : forall x, is_Some (objs q !! x) -> is_Some (o4 !! x))
    by (intros x Hx; by repeat apply lookup_alter_is_Some).
  set (ds' := ds <| op_queue_ := [] |> <| heap_index_ := None |>).
  assert (Hs4 : o4 !! s = Some ds').
  { subst o4 o3 o2 o1. rewrite lookup_alter_eq, !(lookup_alter_ne _ _ t s), lookup_alter_eq, Hs by done. done. }
  assert (Hs5 : o5 !! s = Some ds').
  { subst o5. rewrite lookup_alter_opt, Hs4, decide_False; [done|].
    intros E. by destruct (Hnb s (or_introl (eq_sym E))). }
  assert (Hs6 : o6 !! s = Some ds').
  { subst o6. rewrite lookup_alter_opt, Hs5, decide_False; [done|].
    intros E. by destruct (Hnb s (or_intror (eq_sym E))). }
  exists (mk_timer_queue tm h o10). split_and!; [|done|done|].
  - unfold move_timer. rewrite (bind_ok _ _ _ _ _ (run_timer_at q s ds Hs)).
    erewrite bind_ok by (apply run_alter; by exists ds).
    erewrite bind_ok by (apply run_alter; cbn; by apply lookup_alter_is_Some).
    erewrite bind_ok by (apply run_alter; cbn; by repeat apply lookup_alter_is_Some).
    erewrite bind_ok by (apply run_alter; cbn; repeat apply lookup_alter_is_Some; by exists ds).
    unfold gets, bind at 1.
    rewrite (bind_ok _ _ _ (mk_timer_queue (timers_ q) h o4) tt).
    2:{ subst h. unfold moved_heap. destruct (heap_index_ ds) as [i|]; [|by destruct q].
        match goal with |- context [(i <? ?n)%nat] => change n with (length (heap_ q)) end.
        destruct (Nat.ltb_spec i (length (heap_ q))) as [Hi|Hi].
        - destruct (lookup_lt_is_Some_2 _ _ Hi) as [e He]. rewrite He.
          erewrite bind_ok by (apply (run_heap_at _ i e); exact He).
          erewrite run_set_heap_at by exact He. done.
        - rewrite (lookup_ge_None_2 _ _ Hi). by destruct q. }
    rewrite (bind_ok _ _ _ (mk_timer_queue tm h o4) tt) by (subst tm; unfold modify; cbn; by case_decide).
    erewrite bind_ok by (apply run_alter_opt; intros x Hx; cbn; apply Hex, Hnb; by left).
    erewrite bind_ok by (apply (run_timer_at _ s ds'); exact Hs5).
    erewrite bind_ok by (apply run_alter_opt; intros x Hx; cbn; apply is_Some_alter_opt, Hex, Hnb; by right).
    erewrite bind_ok by (apply (run_timer_at _ s ds'); exact Hs6).
    erewrite bind_ok by (apply run_alter; cbn; by do 2 apply is_Some_alter_opt; apply Hex).
    erewrite bind_ok by (apply run_alter; cbn; apply lookup_alter_is_Some; by do 2 apply is_Some_alter_opt; apply Hex).
    erewrite bind_ok by (apply run_alter; cbn; do 2 apply lookup_alter_is_Some; by exists ds').
    apply run_alter. cbn. do 3 apply lookup_alter_is_Some. by exists ds'.
  - intros x. unfold moved. cbn. destruct (decide (x = t)) as [->|Nt]; [|destruct (decide (x = s)) as [->|Ns]].
    + assert (Some t <> prev_ ds /\ Some t <> next_ ds) as [? ?].
      { split; intros E; [destruct (Hnb t (or_introl (eq_sym E))) as (_ & ? & _)
                         |destruct (Hnb t (or_intror (eq_sym E))) as (_ & ? & _)]; done. }
      subst o10 o9. rewrite !(lookup_alter_ne _ _ s t) by done. subst o8 o7. rewrite !lookup_alter_eq.
      subst o6 o5. rewrite !lookup_alter_opt, !decide_False by done. subst o4. rewrite lookup_alter_ne by done.
      subst o3 o2. rewrite !lookup_alter_eq. subst o1. rewrite lookup_alter_ne by done. by destruct (objs q !! t).
    + subst o10 o9. rewrite !lookup_alter_eq. subst o8 o7. rewrite !(lookup_alter_ne _ _ t s), Hs6, Hs by done. done.
    + subst o10 o9 o8 o7 o6 o5 o4 o3 o2 o1.
      rewrite !(lookup_alter_ne _ _ s x), !(lookup_alter_ne _ _ t x), !lookup_alter_opt by done.
      rewrite !(lookup_alter_ne _ _ s x), !(lookup_alter_ne _ _ t x), !(lookup_alter_ne _ _ s x) by done.
      destruct (objs q !! x) as [d|]; [|done]. cbn. f_equal.
      destruct (decide (Some x = prev_ ds)) as [E1|]; [|by destruct (decide (Some x = next_ ds))].
      rewrite decide_False; [done|]. intros E2. by apply (Hpn x).
Qed.

Lemma same_times_ordered (h h' : list (heap_entry (T:=T))) :
  time_ <$> h' = time_ <$> h -> heap_ordered h -> heap_ordered h'.
Proof.
  intros E H c Hc a b Ha Hb.
  assert (Hl : forall i x, h' !! i = Some x -> exists y, h !! i = Some y /\ time_ y = time_ x).
  { intros i x Hx. assert (Et : (time_ <$> h') !! i = Some (time_ x)) by (by rewrite list_lookup_fmap, Hx).
    rewrite E, list_lookup_fmap, fmap_Some in Et. destruct Et as (y & ? & ?). by exists y. }
  destruct (Hl _ _ Ha) as (a' & Ha' & Ea). destruct (Hl _ _ Hb) as (b' & Hb' & Eb).
  pose proof (H c Hc a' b' Ha' Hb') as L. unfold le in *. by rewrite <-Ea, <-Eb.
Qed.

Lemma moved_heap_times (t : nat) (i : option nat) (h : list (heap_entry (T:=T))) :
  time_ <$> moved_heap t i h = time_ <$> h.
Proof.
  unfold moved_heap. destruct i as [i|]; [|done]. destruct (h !! i) as [e|] eqn:He; [|done].
  rewrite list_fmap_insert. apply list_insert_id. by rewrite list_lookup_fmap, He.
Qed.

Lemma inactive_blank q l id d : tq_inv q l -> id ∉ l -> objs q !! id = Some d -> d = per_timer_data_new.
Proof.
  intros H Hid Hd. destruct (lk_off _ _ _ (ti_linked _ _ H) id d Hd Hid) as [Hn Hp].
  destruct d as [ops i n p]. cbn in *. subst n p. unfold per_timer_data_new. f_equal.
  - destruct ops as [|o ops]; [done|]. exfalso. apply Hid, (ti_ops _ _ H id _ Hd). done.
  - destruct i as [i|]; [|done]. destruct (ti_at _ _ H id _ i Hd eq_refl) as (e & He & <-).
    exfalso. apply Hid, (ti_active _ _ H). by eapply list_elem_of_lookup_2.
Qed.

(** The case of an active source. *)
Lemma move_active_inv q q' l1 l2 t s ds :
  tq_inv q (l1 ++ s :: l2) -> t ∉ l1 ++ s :: l2 -> objs q !! s = Some ds -> is_Some (objs q !! t) ->
  next_ ds = head l2 -> prev_ ds = last l1 ->
  timers_ q' = (if decide (timers_ q = Some s) then Some t else timers_ q) ->
  heap_ q' = moved_heap t (heap_index_ ds) (heap_ q) ->
  (forall x, objs q' !! x = moved t s ds x <$> objs q !! x) ->
  tq_inv q' (l1 ++ t :: l2).
Proof.
  intros H Ht Hs [dt Hdt] Hnx Hpx ET EH EO.
  pose proof (inactive_blank q _ t dt H Ht Hdt) as ->. pose proof (not_in_heap q _ t H Ht) as Hth.
  assert (Hts : t <> s) by set_solver.
  destruct (nodup_middle _ _ _ (lk_nodup _ _ _ (ti_linked _ _ H))) as (_ & _ & S1 & S2 & _).
  assert (Hheap : forall i e, heap_ q' !! i = Some e ->
    (heap_index_ ds = Some i /\ timer_ e = t) \/ (heap_ q !! i = Some e /\ heap_index_ ds <> Some i)).
  { intros i e. rewrite EH. unfold moved_heap. destruct (heap_index_ ds) as [j|]; [|by right].
    destruct (heap_ q !! j) as [ej|] eqn:Hj; [|intros Hi; right; split; [done|congruence]].
    intros [(<- & <- & _)|[N Hi]]%list_lookup_insert_Some; [by left|right; split; [done|congruence]]. }
  assert (Hne : forall i e, heap_ q !! i = Some e -> heap_index_ ds <> Some i -> timer_ e <> t /\ timer_ e <> s).
  { intros i e Hi Hd. split.
    - intros <-. apply Hth, list_elem_of_fmap. exists e. split; [done|by eapply list_elem_of_lookup_2].
    - intros E. destruct (ti_index _ _ H i e Hi) as (de & Hde & Ie). rewrite E in Hde. congruence. }
  assert (Hidx : forall x d, x <> t -> x <> s ->
    heap_index_ (moved t s ds x d) = heap_index_ d /\ op_queue_ (moved t s ds x d) = op_queue_ d).
  { intros x d N1 N2. unfold moved. by repeat case_decide. }
  split.
  - rewrite ET. set (o1 := map_imap (fun x dx => Some (replaced t s (last l1) (head l2) x dx)) (objs q)).
    assert (Ho1 : forall x, o1 !! x = replaced t s (last l1) (head l2) x <$> objs q !! x)
      by (intros x; unfold o1; rewrite map_lookup_imap; by destruct (objs q !! x)).
    apply (linked_same _ o1); [by apply (linked_replace _ (objs q)); [apply H|done|eexists|]|].
    intros x. rewrite EO, Ho1. destruct (objs q !! x); [|done]. cbn. unfold moved, replaced, links.
    rewrite Hnx, Hpx. by repeat case_decide.
  - intros i e Hi. destruct (Hheap i e Hi) as [[E1 ->]|[Hi' Hd]].
    + rewrite EO, Hdt. cbn. eexists. split; [done|]. unfold moved. by rewrite decide_True.
    + destruct (Hne i e Hi' Hd) as [N1 N2]. destruct (ti_index _ _ H i e Hi') as (de & Hde & Ie).
      rewrite EO, Hde. cbn. eexists. split; [done|]. by rewrite (proj1 (Hidx _ _ N1 N2)).
  - eapply same_times_ordered; [|apply H]. rewrite EH. apply moved_heap_times.
  - intros e [i Hi]%list_elem_of_lookup. destruct (Hheap i e Hi) as [[_ ->]|[Hi' Hd]]; [set_solver|].
    destruct (Hne i e Hi' Hd) as [_ N2]. assert (timer_ e ∈ l1 ++ s :: l2); [|set_solver].
    apply (ti_active _ _ H). by eapply list_elem_of_lookup_2.
  - intros x dx i. rewrite EO. destruct (objs q !! x) as [d0|] eqn:Hx; [|done]. cbn. intros [= <-].
    destruct (decide (x = t)) as [->|N1]; [|destruct (decide (x = s)) as [->|N2]].
    + unfold moved. rewrite decide_True by done. cbn. intros Hi.
      destruct (ti_at _ _ H s ds i Hs Hi) as (e & He & _). exists (mk_heap_entry (time_ e) t). split; [|done].
      rewrite EH, Hi. cbn. rewrite He. apply list_lookup_insert_eq. by eapply lookup_lt_Some.
    + unfold moved. by rewrite decide_False, decide_True.
    + rewrite (proj1 (Hidx _ _ N1 N2)). intros Hi. destruct (ti_at _ _ H x d0 i Hx Hi) as (e & He & Ee).
      exists e. split; [|done]. rewrite EH. unfold moved_heap. destruct (heap_index_ ds) as [j|] eqn:Hj; [|done].
      destruct (ti_at _ _ H s ds j Hs Hj) as (ej & Hej & Es). rewrite Hej, list_lookup_insert_ne; [done|].
      intros ->. congruence.
  - intros x dx. rewrite EO. destruct (objs q !! x) as [d0|] eqn:Hx; [|done]. cbn. intros [= <-].
    destruct (decide (x = t)) as [->|N1]; [|destruct (decide (x = s)) as [->|N2]].
    + simplify_eq. unfold moved. rewrite decide_True by done. cbn. split; [|set_solver]. intros _.
      apply (ti_ops _ _ H s ds Hs). set_solver.
    + unfold moved. rewrite decide_False, decide_True by done. cbn. set_solver.
    + rewrite (proj2 (Hidx _ _ N1 N2)), <-(ti_ops _ _ H x d0 Hx). set_solver.
Qed.

Lemma move_spec q l t s ds :
  tq_inv q l -> t ∉ l -> objs q !! s = Some ds -> is_Some (objs q !! t) -> t <> s ->
  exists q' l', move_timer t s q = (Ok tt, q') /\ tq_inv q' l' /\ time_ <$> heap_ q' = time_ <$> heap_ q /\
    (forall x, ops_of q' x = if decide (x = t) then ops_of q s else if decide (x = s) then [] else ops_of q x).
Proof.
  intros H Ht Hs Hdt Hts. pose proof (ti_linked _ _ H) as HL.
  assert (Hnb : (forall x, prev_ ds = Some x \/ next_ ds = Some x -> x <> s /\ x <> t /\ is_Some (objs q !! x)) /\
                (forall x, prev_ ds = Some x -> next_ ds = Some x -> False)).
  { destruct (decide (s ∈ l)) as [Hin|Hout].
    - destruct (linked_at _ _ _ _ HL Hin) as (l1 & l2 & d & El & Hd & Hn & Hp). simplify_eq. rewrite Hn, Hp.
      destruct (nodup_middle _ _ _ (lk_nodup _ _ _ HL)) as (_ & _ & S1 & S2 & N12). split.
      + intros x Hx. assert (Hxl : x ∈ l1 \/ x ∈ l2) by (destruct Hx as [?%last_in|?%head_in]; [by left|by right]).
        split_and!; [naive_solver|set_solver|].
        destruct (linked_at _ _ _ x HL) as (? & ? & dx & _ & ? & _); [set_solver|by exists dx].
      + intros x ?%last_in ?%head_in. by apply (N12 x).
    - destruct (lk_off _ _ _ HL s ds Hs Hout) as [-> ->]. naive_solver. }
  destruct Hnb as [Hnb Hpn]. destruct (move_run q t s ds Hs Hdt Hts Hnb Hpn) as (q' & E & ET & EH & EO).
  destruct Hdt as [dt Hdt]. pose proof (inactive_blank q l t dt H Ht Hdt) as ->.
  assert (Hops : forall x, ops_of q' x = if decide (x = t) then ops_of q s else if decide (x = s) then [] else ops_of q x).
  { intros x. unfold ops_of. rewrite EO. unfold moved.
    destruct (decide (x = t)) as [->|]; [by rewrite Hdt, Hs|]. destruct (decide (x = s)) as [->|]; [by rewrite Hs|].
    destruct (objs q !! x); [|done]. cbn. by repeat case_decide. }
  assert (Htimes : time_ <$> heap_ q' = time_ <$> heap_ q) by (rewrite EH; apply moved_heap_times).
  destruct (decide (s ∈ l)) as [Hin|Hout].
  - destruct (linked_at _ _ _ _ HL Hin) as (l1 & l2 & d & El & Hd & Hn & Hp). simplify_eq.
    exists q', (l1 ++ t :: l2). split_and!; try done. by eapply (move_active_inv q q' l1 l2 t s).
  - exists q', l. split_and!; try done. pose proof (inactive_blank q l s ds H Hout Hs) as ->.
    assert (EO' : objs q' = objs q).
    { apply map_eq. intros x. rewrite EO. unfold moved.
      destruct (decide (x = t)) as [->|]; [by rewrite Hdt|]. destruct (decide (x = s)) as [->|]; [by rewrite Hs|].
      by destruct (objs q !! x). }
    rewrite decide_False in ET.
    + cbn in EH. destruct q as [tm h o], q' as [tm' h' o']. cbn in *. by subst.
    + rewrite (lk_head _ _ _ HL). intros ?%head_in. done.
Qed.

(** * All timers *)

(** Timers linked forward. *)
Record chain (tm : option nat) o l : Prop := mk_chain {
  ch_nodup : NoDup l;
  ch_head : tm = head l;
  ch_next : forall l1 x l2, l = l1 ++ x :: l2 -> exists d, o !! x = Some d /\ next_ d = head l2
}.

Definition released (d : per_timer_data) : per_timer_data :=
  d <| op_queue_ := [] |> <| next_ := None |> <| prev_ := None |>.

Lemma all_loop_spec (fuel : nat) (ops : list wait_op) q l :
  chain (timers_ q) (objs q) l -> (length l <= fuel)%nat ->
  exists q', all_loop fuel ops q = (Ok (ops ++ concat (map (ops_of q) l)), q') /\ timers_ q' = None /\
    forall x, objs q' !! x = (if decide (x ∈ l) then released else fun d => d) <$> objs q !! x.
Proof.
  revert fuel ops q. induction l as [|id l IH]; intros fuel ops q [Hnd Hh Hl] Hf.
  - exists q. split_and!; [|done|by intros x; destruct (objs q !! x)].
    destruct fuel; cbn [all_loop]; unfold gets, bind; rewrite Hh; cbn; by rewrite app_nil_r.
  - destruct fuel as [|fuel]; cbn in Hf; [lia|]. cbn [all_loop]. unfold gets, bind at 1. rewrite Hh. cbn [head].
    destruct (Hl [] id l eq_refl) as (d & Hd & Hn). apply NoDup_cons in Hnd as [Hid Hnd].
    rewrite (bind_ok _ _ _ _ _ (run_timer_at q id d Hd)). erewrite bind_ok by reflexivity.
    erewrite bind_ok by (apply run_alter; by exists d).
    erewrite bind_ok by (apply run_alter; cbn; apply lookup_alter_is_Some; by exists d).
    erewrite bind_ok by (apply run_alter; cbn; do 2 apply lookup_alter_is_Some; by exists d).
    match goal with |- context [all_loop fuel _ ?s] => set (q1 := s) end.
    assert (O1 : forall x, objs q1 !! x = (if decide (x = id) then released else fun d => d) <$> objs q !! x).
    { intros x. subst q1. cbn. destruct (decide (x = id)) as [->|N];
        [by rewrite !lookup_alter_eq, Hd|rewrite !lookup_alter_ne by done; by destruct (objs q !! x)]. }
    assert (T1 : timers_ q1 = head l) by exact Hn. clearbody q1.
    destruct (IH fuel (ops ++ op_queue_ d) q1) as (q' & E & T' & O').
    + split; [done|done|]. intros l1 x l2 ->. destruct (Hl (id :: l1) x l2 eq_refl) as (dx & Hx & Hnx).
      exists dx. rewrite O1, Hx, decide_False; [done|]. intros ->. set_solver.
    + lia.
    + exists q'. split_and!; [|done|].
      * assert (Em : map (ops_of q1) l = map (ops_of q) l).
        { apply map_ext_in. intros x Hx%list_elem_of_In. unfold ops_of. rewrite O1, decide_False by (by intros ->).
          by destruct (objs q !! x). }
        rewrite E, Em. cbn [map concat]. unfold ops_of at 2. rewrite Hd. cbn. by rewrite <-app_assoc.
      * intros x. rewrite O', O1. destruct (objs q !! x) as [dx|]; [|done]. cbn. f_equal.
        destruct (decide (x = id)) as [->|N].
        -- rewrite decide_False, decide_True by (done || set_solver). done.
        -- destruct (decide (x ∈ l)); [rewrite decide_True by set_solver|rewrite decide_False by set_solver]; done.
Qed.

Lemma active_bound q l : tq_inv q l -> (length l <= size (objs q))%nat.
Proof.
  intros H. pose proof (ti_linked _ _ H) as HL. rewrite <-size_dom.
  rewrite <-(size_list_to_set (C := gset nat) l) by apply HL. apply subseteq_size.
  intros x Hx%elem_of_list_to_set. apply elem_of_dom.
  destruct (linked_at _ _ _ x HL Hx) as (_ & _ & d & _ & Hd & _). by exists d.
Qed.

Lemma all_timers_spec q l (ops : list wait_op) :
  tq_inv q l ->
  exists q', get_all_timers ops q = (Ok (ops ++ concat (map (ops_of q) l)), q') /\ timers_ q' = None /\ heap_ q' = [] /\
    forall x, ops_of q' x = [].
Proof.
  intros H. pose proof (ti_linked _ _ H) as HL.
  destruct (all_loop_spec (size (objs q)) ops q l) as (q' & E & ET & EO).
  - split; [apply HL|apply HL|]. intros l1 x l2 El.
    destruct (lk_link _ _ _ HL l1 x l2 El) as (d & Hd & Hn & _). by exists d.
  - by apply (active_bound q).
  - exists (q' <| heap_ := [] |>). split_and!; try done.
    + unfold get_all_timers, gets, bind at 1. by rewrite (bind_ok _ _ _ _ _ E).
    + intros x. unfold ops_of. cbn. rewrite EO. destruct (objs q !! x) as [d|] eqn:Hx; [|done]. cbn.
      case_decide as Hin; [done|]. destruct (op_queue_ d) eqn:Eo; [done|]. exfalso.
      apply Hin, (ti_ops _ _ H x d Hx). by rewrite Eo.
Qed.

(** * Sequences of operations *)

(** What the reactor does with its queue.  [Reactor_move] is
    [epoll_reactor::move_timer]: the waits of the target are cancelled first. *)
Inductive timer_op :=
| Enqueue (t : T) (id : nat) (op : wait_op)
| Cancel (id : nat) (max_cancelled : option nat)
| Cancel_key (id key : nat)
| Reactor_move (target source : nat)
| Ready (now : T).

Definition reactor_move (target source : nat) : TM (T:=T) (list wait_op) :=
  r <- cancel_timer target [] None ;;
  move_timer target source ;;
  ret (snd r).

Definition run_timer_op (a : timer_op) : TM (T:=T) (list wait_op) :=
  match a with
  | Enqueue t id op => _ <- enqueue_timer t id op ;; ret []
  | Cancel id m => r <- cancel_timer id [] m ;; ret (snd r)
  | Cancel_key id key => cancel_timer_by_key id [] key
  | Reactor_move target source => reactor_move target source
  | Ready now => get_ready_timers now []
  end.

(** The timers it names exist; a timer is not moved to itself. *)
Definition timer_op_ok (ids : gset nat) (a : timer_op) : Prop :=
  match a with
  | Enqueue _ id _ | Cancel id _ | Cancel_key id _ => id ∈ ids
  | Reactor_move target source => target ∈ ids /\ source ∈ ids /\ target <> source
  | Ready _ => True
  end.

(** No operation makes or destroys a timer. *)
Definition tkeeps {A} (m : TM (T:=T) A) : Prop := forall q, dom (objs (snd (m q))) = dom (objs q).

Lemma tkeeps_bind {A B} (m : TM A) (k : A -> TM B) : tkeeps m -> (forall a, tkeeps (k a)) -> tkeeps (bind m k).
Proof.
  intros Hm Hk q. unfold bind. specialize (Hm q). destruct (m q) as [[a|] q1]; cbn in *; [|done].
  by rewrite Hk.
Qed.

Lemma tkeeps_modify (f : timer_queue -> timer_queue) : (forall q, dom (objs (f q)) = dom (objs q)) -> tkeeps (modify f).
Proof. intros H q. apply H. Qed.

Lemma tkeeps_ret {A} (a : A) : tkeeps (ret a).
Proof. done. Qed.

Lemma tkeeps_throw {A} (e : exn) : tkeeps (A:=A) (throw e).
Proof. done. Qed.

Lemma tkeeps_gets {A} (f : timer_queue -> A) : tkeeps (gets f).
Proof. done. Qed.

Lemma tkeeps_heap_at i : tkeeps (heap_at i).
Proof. done. Qed.

Lemma tkeeps_timer_at id : tkeeps (timer_at id).
Proof. done. Qed.

Lemma tkeeps_set_heap_at i e : tkeeps (set_heap_at i e).
Proof. intros q. unfold set_heap_at. by case_decide. Qed.

Lemma tkeeps_upd_timer id f : tkeeps (upd_timer id f).
Proof.
  intros q. unfold upd_timer, bind, timer_at. destruct (objs q !! id) as [d|] eqn:Hd; [|done]. cbn.
  rewrite dom_insert_L. apply subseteq_union_1_L, singleton_subseteq_l, elem_of_dom. by exists d.
Qed.

Create HintDb tkeeps.
#[local] Hint Resolve tkeeps_ret tkeeps_throw tkeeps_gets tkeeps_heap_at tkeeps_timer_at tkeeps_set_heap_at tkeeps_upd_timer
  : tkeeps.

Ltac keep :=
  repeat first
    [ solve [eauto with tkeeps]
    | apply tkeeps_bind; [|intros ?]
    | apply tkeeps_modify; intros q; cbn; by repeat case_match
    | case_match ].

Lemma tkeeps_upd_timer_opt id f : tkeeps (upd_timer_opt id f).
Proof. unfold upd_timer_opt. keep. Qed.
#[local] Hint Resolve tkeeps_upd_timer_opt : tkeeps.

Lemma tkeeps_swap_heap i j : tkeeps (swap_heap i j).
Proof. unfold swap_heap. keep. Qed.
#[local] Hint Resolve tkeeps_swap_heap : tkeeps.

Lemma tkeeps_up_heap i : tkeeps (up_heap i).
Proof.
  unfold up_heap. generalize i at 1. intros fuel. revert i.
  induction fuel as [|fuel IH]; intros i; cbn [up_heap_loop]; keep.
Qed.

Lemma tkeeps_down_heap i : tkeeps (down_heap i).
Proof.
  unfold down_heap. apply tkeeps_bind; [keep|]. intros fuel. revert i.
  induction fuel as [|fuel IH]; intros i; cbn [down_heap_loop]; unfold min_child; keep.
Qed.
#[local] Hint Resolve tkeeps_up_heap tkeeps_down_heap : tkeeps.

Lemma tkeeps_remove_timer id : tkeeps (remove_timer id).
Proof. unfold remove_timer, remove_from_heap, unlink, pop_back. keep. Qed.
#[local] Hint Resolve tkeeps_remove_timer : tkeeps.

Lemma tkeeps_enqueue_timer t id op : tkeeps (enqueue_timer t id op).
Proof. unfold enqueue_timer. keep. Qed.

Lemma tkeeps_cancel_timer id ops m : tkeeps (cancel_timer id ops m).
Proof. unfold cancel_timer. keep. Qed.

Lemma tkeeps_cancel_by_key id ops key : tkeeps (cancel_timer_by_key id ops key).
Proof. unfold cancel_timer_by_key. keep. Qed.

Lemma tkeeps_move_timer t s : tkeeps (move_timer t s).
Proof. unfold move_timer. keep. Qed.

Lemma tkeeps_ready now ops : tkeeps (get_ready_timers now ops).
Proof.
  unfold get_ready_timers. apply tkeeps_bind; [keep|]. intros fuel. revert ops.
  induction fuel as [|fuel IH]; intros ops; cbn [ready_loop]; keep.
Qed.
#[local] Hint Resolve tkeeps_enqueue_timer tkeeps_cancel_timer tkeeps_cancel_by_key tkeeps_move_timer tkeeps_ready : tkeeps.

Lemma tkeeps_run_timer_op a : tkeeps (run_timer_op a).
Proof. destruct a; cbn; unfold reactor_move; keep. Qed.

(** * No wait is lost or delivered twice *)

(** The waits on the timers of [E]. *)
Definition waits_on (E : list nat) (f : nat -> list nat) : list nat := concat (map f E).

Definition waits q (x : nat) : list nat := map op_id (ops_of q x).

Lemma waits_on_move (E : list nat) (f f' g h : nat -> list nat) :
  (forall x, x ∈ E -> f x ++ h x ≡ₚ g x ++ f' x) ->
  waits_on E f ++ waits_on E h ≡ₚ waits_on E g ++ waits_on E f'.
Proof.
  unfold waits_on. induction E as [|x E IH]; intros H; [done|]. cbn.
  assert (Hx : f x ++ h x ≡ₚ g x ++ f' x) by (apply H; left).
  assert (HE : concat (map f E) ++ concat (map h E) ≡ₚ concat (map g E) ++ concat (map f' E)) by (apply IH; set_solver).
  transitivity ((f x ++ h x) ++ (concat (map f E) ++ concat (map h E))); [solve_Permutation|].
  rewrite Hx, HE. solve_Permutation.
Qed.

Lemma waits_on_nil (E : list nat) (f : nat -> list nat) : (forall x, x ∈ E -> f x = []) -> waits_on E f = [].
Proof. unfold waits_on. induction E as [|x E IH]; intros H; [done|]. cbn. rewrite H, IH; set_solver. Qed.

(** Waits on some of the timers only. *)
Lemma waits_on_some (E k : list nat) (f : nat -> list nat) :
  NoDup E -> NoDup k -> (forall x, x ∈ k -> x ∈ E) ->
  waits_on E (fun x => if decide (x ∈ k) then f x else []) ≡ₚ waits_on k f.
Proof.
  intros HE. revert k. induction HE as [|y E Hy HE IH]; intros k Hk Hsub.
  - destruct k as [|x k]; [done|]. specialize (Hsub x ltac:(left)). set_solver.
  - cbn. destruct (decide (y ∈ k)) as [Hin|Hout].
    + apply list_elem_of_split in Hin as (k1 & k2 & ->).
      destruct (nodup_middle _ _ _ Hk) as (N1 & N2 & Y1 & Y2 & N12).
      transitivity (f y ++ waits_on (k1 ++ k2) f); [|unfold waits_on; rewrite !map_app, !concat_app; cbn; solve_Permutation].
      apply Permutation_app_head. rewrite <-IH.
      * apply reflexive_eq. unfold waits_on. f_equal. apply map_ext_in. intros x Hx%list_elem_of_In.
        destruct (decide (x ∈ k1 ++ k2)), (decide (x ∈ k1 ++ y :: k2)); try done; set_solver.
      * apply NoDup_app. split_and!; [done|intros x Hx; by apply N12|done].
      * intros x Hx. assert (x ∈ y :: E) by (apply Hsub; set_solver). set_solver.
    + rewrite <-IH; [done|done|]. intros x Hx. pose proof (Hsub x Hx). set_solver.
Qed.

Lemma waits_on_one (E : list nat) (id : nat) (v : list nat) :
  NoDup E -> id ∈ E -> waits_on E (fun x => if decide (x = id) then v else []) ≡ₚ v.
Proof.
  intros HE Hid. assert (Ev : v = waits_on [id] (fun _ => v)) by (cbn; by rewrite app_nil_r).
  transitivity (waits_on [id] (fun _ => v)); [|by rewrite <-Ev].
  rewrite <-(waits_on_some E [id] (fun _ => v) HE); [|apply NoDup_singleton|set_solver].
  apply reflexive_eq. unfold waits_on. f_equal. apply map_ext. intros x.
  destruct (decide (x = id)), (decide (x ∈ [id])); try done; set_solver.
Qed.

(** The operations an operation on the queue is given. *)
Definition submitted (a : timer_op) : list nat := if a is Enqueue _ _ op then [op_id op] else [].

Lemma map_op_id_error (ec : op_error) (ops : list wait_op) : map op_id (map (with_error ec) ops) = map op_id ops.
Proof. rewrite map_map. by apply map_ext. Qed.

Lemma filter_split {A} (f : A -> bool) (k : list A) : k ≡ₚ List.filter f k ++ List.filter (fun x => negb (f x)) k.
Proof.
  induction k as [|x k IH]; [done|]. cbn. destruct (f x); cbn; [by rewrite <-IH|].
  rewrite IH at 1. solve_Permutation.
Qed.

Lemma ops_of_lookup q id d : objs q !! id = Some d -> ops_of q id = op_queue_ d.
Proof. unfold ops_of. by intros ->. Qed.

Lemma waits_on_plain (E : list nat) (f : nat -> list nat) : waits_on E f = waits_on E f ++ waits_on E (fun _ => []).
Proof. by rewrite (waits_on_nil E (fun _ => [])), app_nil_r. Qed.

(** The waits [v] are taken from timer [id]. *)
Lemma waits_taken (E : list nat) (f f' : nat -> list nat) (id : nat) (v : list nat) :
  NoDup E -> id ∈ E -> (forall x, x <> id -> f' x = f x) -> f id ≡ₚ v ++ f' id ->
  waits_on E f ≡ₚ v ++ waits_on E f'.
Proof.
  intros HE Hid Hx Hv. rewrite <-(waits_on_one E id v) by done. rewrite waits_on_plain. apply waits_on_move. intros x _. rewrite app_nil_r. destruct (decide (x = id)) as [->|N]; [done|].
  by rewrite (Hx x N).
Qed.

(** The waits of one timer pass to another that has none. *)
Lemma waits_passed (E : list nat) (f f' : nat -> list nat) (t s : nat) :
  NoDup E -> t ∈ E -> s ∈ E -> t <> s -> f t = [] ->
  (forall x, f' x = if decide (x = t) then f s else if decide (x = s) then [] else f x) ->
  waits_on E f ≡ₚ waits_on E f'.
Proof.
  intros HE Ht Hs Hts Hnil Hf. apply (Permutation_app_inv_l (f s)).
  rewrite (Permutation_app_comm (f s) (waits_on E f)).
  transitivity (waits_on E f ++ waits_on E (fun x => if decide (x = t) then f s else [])).
  { apply Permutation_app_head. symmetry. by apply waits_on_one. }
  transitivity (waits_on E (fun x => if decide (x = s) then f s else []) ++ waits_on E f').
  { apply waits_on_move. intros x _. rewrite Hf.
    destruct (decide (x = t)) as [->|]; [by rewrite Hnil, decide_False|].
    destruct (decide (x = s)) as [->|]; by rewrite ?app_nil_r. }
  apply Permutation_app_tail. by apply waits_on_one.
Qed.

Lemma cancel_waits q l id d m :
  tq_inv q l -> objs q !! id = Some d ->
  let E := elements (dom (objs q)) in
  exists r q' l', cancel_timer id [] m q = (Ok r, q') /\ tq_inv q' l' /\
    (m = None -> (id ∉ l') /\ ops_of q' id = []) /\
    waits_on E (waits q) ≡ₚ map op_id (snd r) ++ waits_on E (waits q').
Proof.
  intros H Hd E. destruct (cancel_run q l id d [] m H Hd) as (q' & l' & E' & H' & Hl & Hops).
  eexists _, q', l'. split_and!; [exact E'|done| |].
  - intros ->. cbn in *. rewrite Hl, Hops, decide_True, drop_all by done. split; [|done].
    intros [_ [?|?]]; [done|lia].
  - cbn [snd]. rewrite app_nil_l, map_op_id_error. apply (waits_taken E _ _ id).
    + apply NoDup_elements.
    + apply elem_of_elements, elem_of_dom. by exists d.
    + intros x N. unfold waits. by rewrite Hops, decide_False.
    + unfold waits. rewrite Hops, decide_True, (ops_of_lookup q id d Hd), <-map_app, take_drop by done. done.
Qed.

Lemma key_waits q l id d key :
  tq_inv q l -> objs q !! id = Some d ->
  let E := elements (dom (objs q)) in
  exists r q' l', cancel_timer_by_key id [] key q = (Ok r, q') /\ tq_inv q' l' /\
    waits_on E (waits q) ≡ₚ map op_id r ++ waits_on E (waits q').
Proof.
  intros H Hd E. destruct (cancel_by_key_run q l id d [] key H Hd) as (q' & l' & E' & H' & Hops).
  eexists _, q', l'. split_and!; [exact E'|done|]. rewrite app_nil_l, map_op_id_error. apply (waits_taken E _ _ id).
  - apply NoDup_elements.
  - apply elem_of_elements, elem_of_dom. by exists d.
  - intros x N. unfold waits. by rewrite Hops, decide_False.
  - unfold waits. rewrite Hops, decide_True, (ops_of_lookup q id d Hd), <-map_app by done.
    apply Permutation_map, filter_split.
Qed.

Lemma ready_waits q l now :
  tq_inv q l ->
  let E := elements (dom (objs q)) in
  exists r q' l', get_ready_timers now [] q = (Ok r, q') /\ tq_inv q' l' /\
    waits_on E (waits q) ≡ₚ map op_id r ++ waits_on E (waits q').
Proof.
  intros H E. unfold get_ready_timers, gets, bind at 1.
  destruct (ready_loop_spec (length (heap_ q)) now [] q l H) as (q' & l' & r & E' & H' & Hp & _ & _ & _ & Hops); [done|].
  eexists _, q', l'. split_and!; [exact E'|done|]. rewrite app_nil_l.
  assert (Hr : map op_id (concat (map (fun e => map (with_error No_error) (ops_of q (timer_ e))) r))
               = waits_on (timer_ <$> r) (waits q)).
  { unfold waits_on, waits. rewrite concat_map. change (timer_ <$> r) with (map timer_ r).
    rewrite !map_map. f_equal. apply map_ext. intros e. apply map_op_id_error. }
  rewrite Hr.
  assert (Hnd : NoDup (timer_ <$> r)).
  { pose proof (index_ok_nodup q (ti_index _ _ H)) as Hnd. rewrite Hp, fmap_app in Hnd. by apply NoDup_app in Hnd as [? _]. }
  rewrite <-(waits_on_some E (timer_ <$> r)); [|apply NoDup_elements|done|].
  - rewrite waits_on_plain. apply waits_on_move. intros x _. rewrite app_nil_r. unfold waits. rewrite Hops.
    destruct (decide (x ∈ timer_ <$> r)); by rewrite ?app_nil_r.
  - intros x (e & -> & He)%list_elem_of_fmap. apply elem_of_elements, elem_of_dom.
    assert (He' : e ∈ heap_ q) by (rewrite Hp; set_solver). apply list_elem_of_lookup in He' as [i Hi].
    destruct (ti_index _ _ H i e Hi) as (d & Hd & _). by exists d.
Qed.

Lemma timer_op_step a q l :
  tq_inv q l -> timer_op_ok (dom (objs q)) a ->
  let E := elements (dom (objs q)) in
  exists r q' l', run_timer_op a q = (Ok r, q') /\ tq_inv q' l' /\
    submitted a ++ waits_on E (waits q) ≡ₚ map op_id r ++ waits_on E (waits q').
Proof.
  intros H Hok E.
  assert (Hin : forall x, x ∈ dom (objs q) -> x ∈ E /\ exists d, objs q !! x = Some d).
  { intros x Hx. split; [by apply elem_of_elements|]. by apply elem_of_dom in Hx as [d Hd]; exists d. }
  destruct a as [t id op|id m|id key|t s|now]; cbn [run_timer_op submitted timer_op_ok] in *.
  - destruct (Hin id Hok) as [HidE [d Hd]].
    destruct (enqueue_run q l t id d op H Hd) as (q' & l' & d' & E' & _ & H' & Hops & _).
    exists [], q', l'. rewrite (bind_ok _ _ _ _ _ E'). split_and!; [done|done|].
    change (map op_id [] ++ waits_on E (waits q')) with (waits_on E (waits q')).
    symmetry. apply (waits_taken E _ _ id); [apply NoDup_elements|done| |].
    + intros x N. unfold waits. by rewrite Hops, decide_False.
    + unfold waits. rewrite Hops, decide_True, map_app by done. apply Permutation_app_comm.
  - destruct (Hin id Hok) as [_ [d Hd]].
    destruct (cancel_waits q l id d m H Hd) as (r & q' & l' & E' & H' & _ & Hw).
    exists (snd r), q', l'. by rewrite (bind_ok _ _ _ _ _ E').
  - destruct (Hin id Hok) as [_ [d Hd]]. by apply (key_waits q l id d).
  - destruct Hok as (Ht & Hs & Hts). destruct (Hin t Ht) as [HtE [dt Hdt]]. destruct (Hin s Hs) as [HsE _].
    destruct (cancel_waits q l t dt None H Hdt) as (r & q1 & l1 & E1 & H1 & Hl1 & Hw1).
    destruct (Hl1 eq_refl) as [Hout Hnil]. fold E in Hw1.
    assert (Hdom : dom (objs q1) = dom (objs q)) by (pose proof (tkeeps_cancel_timer t [] None q) as K; by rewrite E1 in K).
    rewrite <-Hdom in Ht, Hs. apply elem_of_dom in Ht. apply elem_of_dom in Hs as [ds Hds].
    destruct (move_spec q1 l1 t s ds H1) as (q2 & l2 & E2 & H2 & _ & Hops2); [done..|].
    exists (snd r), q2, l2. unfold reactor_move. rewrite (bind_ok _ _ _ _ _ E1), (bind_ok _ _ _ _ _ E2).
    split_and!; [done|done|]. rewrite app_nil_l, Hw1. apply Permutation_app_head.
    apply (waits_passed E _ _ t s); [apply NoDup_elements|done|done|done| |].
    + unfold waits. by rewrite Hnil.
    + intros x. unfold waits. rewrite Hops2. by repeat case_match.
  - by apply (ready_waits q l).
Qed.

(** * From a new queue *)

Fixpoint run_timer_ops (a : list timer_op) : TM (T:=T) (list wait_op) :=
  match a with
  | [] => ret []
  | x :: a => r <- run_timer_op x ;; r' <- run_timer_ops a ;; ret (r ++ r')
  end.

Lemma tq_inv_new (o : gmap nat per_timer_data) :
  (forall id d, o !! id = Some d -> d = per_timer_data_new) -> tq_inv (timer_queue_new o) [].
Proof.
  intros Hnew. split; cbn.
  - split; [constructor|done| |].
    + by intros [|? ?] id l2.
    + intros id d Hd _. by rewrite (Hnew id d Hd).
  - intros i e. cbn. by rewrite lookup_nil.
  - intros c _ a b. by rewrite lookup_nil.
  - set_solver.
  - intros id d i Hd. by rewrite (Hnew id d Hd).
  - intros id d Hd. rewrite (Hnew id d Hd). set_solver.
Qed.

Lemma run_timer_ops_spec (a : list timer_op) q l :
  tq_inv q l -> Forall (timer_op_ok (dom (objs q))) a ->
  let E := elements (dom (objs q)) in
  exists r q' l', run_timer_ops a q = (Ok r, q') /\ tq_inv q' l' /\ dom (objs q') = dom (objs q) /\
    concat (map submitted a) ++ waits_on E (waits q) ≡ₚ map op_id r ++ waits_on E (waits q').
Proof.
  revert q l. induction a as [|x a IH]; intros q l H Hok E; [by exists [], q, l|].
  apply Forall_cons in Hok as [Hx Hok].
  destruct (timer_op_step x q l H Hx) as (r & q1 & l1 & E1 & H1 & W1).
  assert (Hdom : dom (objs q1) = dom (objs q)) by (pose proof (tkeeps_run_timer_op x q) as K; by rewrite E1 in K).
  destruct (IH q1 l1 H1) as (r' & q2 & l2 & E2 & H2 & D2 & W2); [by rewrite Hdom|]. rewrite Hdom in W2.
  exists (r ++ r'), q2, l2. split_and!; [|done|by rewrite D2|].
  - cbn [run_timer_ops]. by rewrite (bind_ok _ _ _ _ _ E1), (bind_ok _ _ _ _ _ E2).
  - cbn [map concat]. subst E.
    transitivity (concat (map submitted a) ++ (submitted x ++ waits_on (elements (dom (objs q))) (waits q)));
      [solve_Permutation|].
    rewrite W1. transitivity (map op_id r ++ (concat (map submitted a) ++ waits_on (elements (dom (objs q))) (waits q1)));
      [solve_Permutation|].
    rewrite W2, map_app. solve_Permutation.
Qed.

(** C17: the timer queue loses no wait and delivers none twice: whatever waits
    are added, cancelled, moved between timers and fired, in any order, every
    operation on the queue returns, the heap, the list and the indexes of the
    timers stay consistent, and the waits that were added are those delivered
    and those still pending, each once. *)
Theorem timer_queue_conserves (o : gmap nat per_timer_data) (a : list timer_op) :
  (forall id d, o !! id = Some d -> d = per_timer_data_new) -> Forall (timer_op_ok (dom o)) a ->
  exists r q l, run_timer_ops a (timer_queue_new o) = (Ok r, q) /\ tq_inv q l /\
    concat (map submitted a) ≡ₚ map op_id r ++ waits_on (elements (dom o)) (waits q).
Proof.
  intros Hnew Hok. destruct (run_timer_ops_spec a (timer_queue_new o) [] (tq_inv_new o Hnew) Hok)
    as (r & q & l & E & H & _ & W).
  exists r, q, l. split_and!; [done|done|]. rewrite <-W. cbn [objs timer_queue_new].
  rewrite (waits_on_nil _ (waits (timer_queue_new o))), app_nil_r; [done|].
  intros x _. unfold waits, ops_of. cbn. destruct (o !! x) as [d|] eqn:Hd; [|done]. cbn. by rewrite (Hnew x d Hd).
Qed.

End Timers.

(** * Samples: a nanosecond clock, three timers *)

Definition sample_traits : TimeTraits Z := chrono_traits 1 1000000000.

Definition sample_objs : gmap nat per_timer_data :=
  <[1%nat := per_timer_data_new]> (<[2%nat := per_timer_data_new]> (<[3%nat := per_timer_data_new]> ∅)).

Definition sample_op (n : nat) : wait_op := mk_wait_op n 0 No_error.

Lemma sample_objs_new (id : nat) (d : per_timer_data) : sample_objs !! id = Some d -> d = per_timer_data_new.
Proof.
  unfold sample_objs. intros H.
  repeat (apply lookup_insert_Some in H as [[_ <-]|[_ H]]; [done|]). by rewrite lookup_empty in H.
Qed.

Lemma sample_new_inv : tq_inv (TT := sample_traits) (timer_queue_new sample_objs) [].
Proof. apply tq_inv_new, sample_objs_new. Qed.

(** A queue with one wait at time 50. *)
Lemma sample_queue : exists (q : timer_queue (T:=Z)) (l : list nat) d, tq_inv (TT := sample_traits) q l /\
  objs q !! 1%nat = Some d /\ op_queue_ d = [sample_op 7] /\ heap_ q ≡ₚ [mk_heap_entry 50 1%nat].
Proof.
  destruct (enqueue_run (TT := sample_traits) (TO := chrono_order _ _) (timer_queue_new sample_objs) [] 50 1%nat
    per_timer_data_new (sample_op 7)) as (q & l & d & _ & Hd & H & Hops & _ & Hp).
  - exact sample_new_inv.
  - reflexivity.
  - exists q, l, d. split_and!; [done|done| |done].
    specialize (Hops 1%nat). unfold ops_of in Hops. by rewrite Hd in Hops.
Qed.

Lemma enqueue_timer_correct_witness :
  exists b q', enqueue_timer (TT := sample_traits) 50 1%nat (sample_op 7) (timer_queue_new sample_objs) = (Ok b, q') /\
    b = true.
Proof.
  destruct (enqueue_timer_correct (TT := sample_traits) (TO := chrono_order _ _) (timer_queue_new sample_objs) [] 50 1%nat
    per_timer_data_new (sample_op 7)) as (b & q & l & E & _ & _ & _ & _ & _ & Hb).
  - exact sample_new_inv.
  - reflexivity.
  - exists b, q. split; [exact E|]. apply Hb; [apply not_elem_of_nil | reflexivity |].
    intros e He. by apply not_elem_of_nil in He.
Defined.

Lemma ready_timers_correct_witness :
  exists (q q' : timer_queue (T:=Z)) ops, get_ready_timers (TT := sample_traits) 60 [] q = (Ok ops, q') /\ heap_ q <> [].
Proof.
  destruct sample_queue as (q & l & d & H & Hd & Hops & Hp).
  destruct (ready_timers_correct (TT := sample_traits) (TO := chrono_order _ _) q l 60 [] H) as (q' & l' & r & E & _).
  eexists q, q', _. split; [exact E|]. intros Hn. rewrite Hn in Hp. by apply Permutation_nil_cons in Hp.
Defined.

Lemma cancel_timer_correct_witness :
  exists (q q' : timer_queue (T:=Z)) r, cancel_timer (TT := sample_traits) 1%nat [] None q = (Ok r, q') /\ fst r = 1%nat.
Proof.
  destruct sample_queue as (q & l & d & H & Hd & Hops & Hp).
  destruct (cancel_timer_correct (TT := sample_traits) (TO := chrono_order _ _) q l 1%nat d [] None 0%nat H Hd)
    as [(q' & l' & E & _) _].
  eexists q, q', _. split; [exact E|]. cbn. by rewrite Hops.
Defined.

Definition sample_timer_ops : list (timer_op (T:=Z)) :=
  [Enqueue 50 1%nat (sample_op 7); Enqueue 20 2%nat (sample_op 8); Reactor_move 3%nat 1%nat; Ready 30; Cancel 3%nat None].

Lemma timer_queue_conserves_witness :
  exists r q, run_timer_ops (TT := sample_traits) sample_timer_ops (timer_queue_new sample_objs) = (Ok r, q).
Proof.
  destruct (timer_queue_conserves (TT := sample_traits) (TO := chrono_order _ _) sample_objs sample_timer_ops)
    as (r & q & l & E & _).
  - exact sample_objs_new.
  - repeat constructor; try (apply elem_of_dom; by eexists); discriminate.
  - exists r, q. exact E.
Defined.
