(* ===== verification/Peer.v ===== *)
(** peer.{h,cc} and snapshot_sync_ctx.h: what the leader keeps about another
    server, and how requests to it are sent and their results taken.

    The RPC client is its id ([rpc_client::get_id]); [steady_clock::now()] is
    an argument; the mutexes are not modelled, each operation being one step. *)
From S2P Require Import Prelude Buffer Codec Messages.

(** The cursor [ssc_offset] is the union of [offset_] and [obj_idx_]; a null
    [void*] is 0. *)
Record snapshot_sync_ctx := mk_snapshot_sync_ctx {
  ssc_peer_id : Z;
  ssc_snapshot : snapshot;
  ssc_offset : Z;
  ssc_user_snp_ctx : Z;
  ssc_timer : timer_helper
}.

#[global] Instance eta_snapshot_sync_ctx : Eta snapshot_sync_ctx := fun r =>
  mk_snapshot_sync_ctx (ssc_peer_id r) (ssc_snapshot r) (ssc_offset r) (ssc_user_snp_ctx r)
    (ssc_timer r).

Definition snapshot_sync_ctx_new (now : Z) (s : snapshot) (peer_id timeout_ms offset : Z)
  : snapshot_sync_ctx :=
  mk_snapshot_sync_ctx peer_id s offset 0
    (set_duration_ms timeout_ms (timer_helper_new now 0 false)).

Definition set_ctx_offset (now offset : Z) (c : snapshot_sync_ctx) : snapshot_sync_ctx :=
  (if ssc_offset c =? offset then c else c <| ssc_timer ::= timer_reset now 0 |>)
    <| ssc_offset := offset |>.

Definition set_obj_idx (obj_idx : Z) (c : snapshot_sync_ctx) : snapshot_sync_ctx :=
  c <| ssc_offset := obj_idx |>.

Definition set_user_snp_ctx (u : Z) (c : snapshot_sync_ctx) : snapshot_sync_ctx :=
  c <| ssc_user_snp_ctx := u |>.

(** The handlers the server passes with its requests. *)
Inductive rpc_handler := resp_handler_ | ex_resp_handler_.

Record rpc_exception := mk_rpc_exception { ex_req : req_msg; ex_err : list Z }.

(** The fields of [peer]; of the two pointers [scheduler_] and [hb_task_] only
    whether they are set. *)
Record peer := mk_peer {
  config_ : srv_config;
  p_scheduler : bool;
  rpc_ : option Z;
  current_hb_interval_ : Z;
  hb_interval_ : Z;
  rpc_backoff_ : Z;
  max_hb_interval_ : Z;
  next_log_idx_ : Z;
  last_accepted_log_idx_ : Z;
  sm_committed_idx_ : Z;
  next_batch_size_hint_in_bytes_ : Z;
  matched_idx_ : Z;
  busy_flag_ : bool;
  pending_commit_flag_ : bool;
  hb_enabled_ : bool;
  hb_task_ : bool;
  snp_sync_ctx_ : option snapshot_sync_ctx;
  last_sent_timer_ : timer_helper;
  last_resp_timer_ : timer_helper;
  last_active_timer_ : timer_helper;
  long_pause_warnings_ : Z;
  network_recoveries_ : Z;
  manual_free_ : bool;
  rpc_errs_ : Z;
  stale_rpc_responses_ : Z;
  last_sent_idx_ : Z;
  cnt_not_applied_ : Z;
  leave_requested_ : bool;
  hb_cnt_since_leave_ : Z;
  stepping_down_ : bool;
  reconn_scheduled_ : bool;
  reconn_timer_ : timer_helper;
  reconn_backoff_ : timer_helper;
  suppress_following_error_ : bool;
  abandoned_ : bool;
  lost_by_leader_ : bool;
  rsv_msg_ : option req_msg;
  rsv_msg_handler_ : option rpc_handler;
  last_streamed_log_idx_ : Z;
  bytes_in_flight_ : Z;
  snapshot_sync_is_needed_ : bool;
  self_mark_down_ : bool
}.

#[global] Instance eta_peer : Eta peer := fun r =>
  mk_peer (config_ r) (p_scheduler r) (rpc_ r) (current_hb_interval_ r)
    (hb_interval_ r) (rpc_backoff_ r) (max_hb_interval_ r) (next_log_idx_ r)
    (last_accepted_log_idx_ r) (sm_committed_idx_ r)
    (next_batch_size_hint_in_bytes_ r) (matched_idx_ r) (busy_flag_ r)
    (pending_commit_flag_ r) (hb_enabled_ r) (hb_task_ r) (snp_sync_ctx_ r)
    (last_sent_timer_ r) (last_resp_timer_ r) (last_active_timer_ r)
    (long_pause_warnings_ r) (network_recoveries_ r) (manual_free_ r)
    (rpc_errs_ r) (stale_rpc_responses_ r) (last_sent_idx_ r)
    (cnt_not_applied_ r) (leave_requested_ r) (hb_cnt_since_leave_ r)
    (stepping_down_ r) (reconn_scheduled_ r) (reconn_timer_ r)
    (reconn_backoff_ r) (suppress_following_error_ r) (abandoned_ r)
    (lost_by_leader_ r) (rsv_msg_ r) (rsv_msg_handler_ r)
    (last_streamed_log_idx_ r) (bytes_in_flight_ r)
    (snapshot_sync_is_needed_ r) (self_mark_down_ r).

(** The constructor, with the client the factory made for the endpoint. *)
Definition peer_new (now : Z) (config : srv_config) (params : raft_params)
    (client : option Z) : peer :=
  let t := timer_helper_new now 0 false in
  mk_peer config true client (heart_beat_interval_ params) (heart_beat_interval_ params)
    (rpc_failure_backoff_ params) (max_hb_interval params) 0 0 0 0 0 false false false
    true None t t t 0 0 false 0 0 0 0 false 0 false false t t false false false None None
    0 0 false false.

Definition p_id (p : peer) : Z := sc_id (config_ p).

Definition is_learner (p : peer) : bool := sc_learner (config_ p).

Definition is_new_joiner (p : peer) : bool := sc_new_joiner (config_ p).

Definition set_config (c : srv_config) (p : peer) : peer := p <| config_ := c |>.

(** [compare_exchange_strong(f, true)] with [f = false]. *)
Definition make_busy (p : peer) : bool * peer :=
  if busy_flag_ p then (false, p) else (true, p <| busy_flag_ := true |>).

Definition set_free (p : peer) : peer := p <| busy_flag_ := false |>.

Inductive peer_out :=
| Cancel_hb_task (id : Z)
| Rpc_send (rpc : Z) (req : req_msg) (handler : rpc_handler) (streaming : bool)
    (req_size_bytes : Z).

Definition enable_hb (enable : bool) (p : peer) : peer * list peer_out :=
  if abandoned_ p then (p, [])
  else (p <| hb_enabled_ := enable |>, if enable then [] else [Cancel_hb_task (p_id p)]).

Definition set_next_log_idx (idx : Z) (p : peer) : peer := p <| next_log_idx_ := idx |>.

Definition set_last_accepted_log_idx (to : Z) (p : peer) : peer :=
  p <| last_accepted_log_idx_ := to |>.

Definition set_sm_committed_idx (to : Z) (p : peer) : peer := p <| sm_committed_idx_ := to |>.

Definition set_next_batch_size_hint_in_bytes (batch_size : Z) (p : peer) : peer :=
  p <| next_batch_size_hint_in_bytes_ := batch_size |>.

Definition set_matched_idx (idx : Z) (p : peer) : peer := p <| matched_idx_ := idx |>.

Definition set_pending_commit (p : peer) : peer := p <| pending_commit_flag_ := true |>.

Definition clear_pending_commit (p : peer) : bool * peer :=
  if pending_commit_flag_ p then (true, p <| pending_commit_flag_ := false |>)
  else (false, p).

Definition set_snapshot_in_sync (now : Z) (s : option snapshot) (timeout_ms : Z) (p : peer)
  : peer :=
  match s with
  | None => p <| snp_sync_ctx_ := None |>
  | Some s => p <| snp_sync_ctx_ := Some (snapshot_sync_ctx_new now s (p_id p) timeout_ms 0) |>
  end.

Definition slow_down_hb (p : peer) : peer :=
  p <| current_hb_interval_ :=
       Z.min (max_hb_interval_ p) (s32 (current_hb_interval_ p + rpc_backoff_ p)) |>.

Definition resume_hb_speed (p : peer) : peer := p <| current_hb_interval_ := hb_interval_ p |>.

Definition set_hb_interval (new_interval : Z) (p : peer) : peer :=
  p <| hb_interval_ := new_interval |>.

Definition reset_ls_timer (now : Z) (p : peer) : peer :=
  p <| last_sent_timer_ ::= timer_reset now 0 |>.

Definition reset_resp_timer (now : Z) (p : peer) : peer :=
  p <| last_resp_timer_ ::= timer_reset now 0 |>.

Definition reset_active_timer (now : Z) (p : peer) : peer :=
  p <| last_active_timer_ ::= timer_reset now 0 |>.

Definition get_resp_timer_us (now : Z) (p : peer) : Z := get_us now (last_resp_timer_ p).

Definition get_active_timer_us (now : Z) (p : peer) : Z := get_us now (last_active_timer_ p).

Definition reset_long_pause_warnings (p : peer) : peer := p <| long_pause_warnings_ := 0 |>.

Definition inc_long_pause_warnings (p : peer) : peer :=
  p <| long_pause_warnings_ ::= fun n => s32 (n + 1) |>.

Definition reset_recovery_cnt (p : peer) : peer := p <| network_recoveries_ := 0 |>.

Definition inc_recovery_cnt (p : peer) : peer :=
  p <| network_recoveries_ ::= fun n => s32 (n + 1) |>.

Definition reset_manual_free (p : peer) : peer := p <| manual_free_ := false |>.

Definition set_manual_free (p : peer) : peer := p <| manual_free_ := true |>.

Definition reset_rpc_errs (p : peer) : peer := p <| rpc_errs_ := 0 |>.

Definition inc_rpc_errs (p : peer) : peer := p <| rpc_errs_ ::= fun n => s32 (n + 1) |>.

Definition reset_stale_rpc_responses (p : peer) : peer := p <| stale_rpc_responses_ := 0 |>.

Definition inc_stale_rpc_responses (p : peer) : peer :=
  p <| stale_rpc_responses_ ::= fun n => s32 (n + 1) |>.

Definition set_last_sent_idx (to : Z) (p : peer) : peer := p <| last_sent_idx_ := to |>.

Definition reset_cnt_not_applied (p : peer) : peer := p <| cnt_not_applied_ := 0 |>.

Definition inc_cnt_not_applied (p : peer) : Z * peer :=
  let p := p <| cnt_not_applied_ ::= fun n => s32 (n + 1) |> in (cnt_not_applied_ p, p).

Definition step_down (p : peer) : peer := p <| stepping_down_ := true |>.

Definition set_leave_flag (p : peer) : peer := p <| leave_requested_ := true |>.

Definition inc_hb_cnt_since_leave (p : peer) : peer :=
  p <| hb_cnt_since_leave_ ::= fun n => s32 (n + 1) |>.

Definition schedule_reconnection (now : Z) (p : peer) : peer :=
  p <| reconn_timer_ ::= set_duration_sec 3 |> <| reconn_timer_ ::= timer_reset now 0 |>
    <| reconn_scheduled_ := true |>.

Definition clear_reconnection (p : peer) : peer := p <| reconn_scheduled_ := false |>.

(** The timer is polled only when a reconnection is scheduled. *)
Definition need_to_reconnect (now : Z) (p : peer) : bool * peer :=
  if abandoned_ p then (false, p)
  else
    let '(fired, p) :=
      if reconn_scheduled_ p then
        let '(b, t) := timeout now (reconn_timer_ p) in (b, p <| reconn_timer_ := t |>)
      else (false, p) in
    if fired then (true, p) else (is_none (rpc_ p), p).

Definition set_suppress_following_error (p : peer) : peer :=
  p <| suppress_following_error_ := true |>.

Definition need_to_suppress_error (p : peer) : bool * peer :=
  if suppress_following_error_ p then (true, p <| suppress_following_error_ := false |>)
  else (false, p).

Definition set_rsv_msg (m : option req_msg) (h : option rpc_handler) (p : peer) : peer :=
  p <| rsv_msg_ := m |> <| rsv_msg_handler_ := h |>.

Definition set_last_streamed_log_idx (expected idx : Z) (p : peer) : peer :=
  if last_streamed_log_idx_ p =? expected then p <| last_streamed_log_idx_ := idx |> else p.

Definition reset_stream (p : peer) : peer := p <| last_streamed_log_idx_ := 0 |>.

Definition bytes_in_flight_add (n : Z) (p : peer) : peer :=
  p <| bytes_in_flight_ ::= fun b => s64 (b + n) |>.

Definition bytes_in_flight_sub (n : Z) (p : peer) : peer :=
  p <| bytes_in_flight_ ::= fun b => s64 (b - n) |>.

Definition reset_bytes_in_flight (p : peer) : peer := p <| bytes_in_flight_ := 0 |>.

Definition set_lost (p : peer) : peer := p <| lost_by_leader_ := true |>.

Definition set_recovered (p : peer) : peer := p <| lost_by_leader_ := false |>.

Definition set_snapshot_sync_is_needed (to : bool) (p : peer) : peer :=
  p <| snapshot_sync_is_needed_ := to |>.

Definition set_self_mark_down (to : bool) (p : peer) : bool * peer :=
  (self_mark_down_ p, p <| self_mark_down_ := to |>).

(** * peer.cc *)

Definition msg_types_to_free : list msg_type :=
  [install_snapshot_request; request_vote_request; pre_vote_request; leave_cluster_request;
   custom_notification_request; reconnect_request; priority_change_request].

Definition try_set_free (type : msg_type) (streaming : bool) (p : peer) : peer :=
  let p := if decide (type ∈ msg_types_to_free) then set_free p else p in
  if decide (type = append_entries_request) then
    if streaming then p else set_free p
  else p.

(** [size()] of the payload of each entry; a null payload is dereferenced. *)
Fixpoint entries_size (l : list log_entry) : res Z :=
  match l with
  | [] => Ok 0
  | e :: l' =>
      match le_buff e with
      | None => Throw Undefined
      | Some b => let* n := entries_size l' in Ok (size b + n)
      end
  end.

Definition send_req (req : req_msg) (handler : rpc_handler) (streaming : bool) (p : peer)
  : res (peer * list peer_out) :=
  if abandoned_ p then Ok (p, [])
  else
    match rpc_ p with
    | None => Ok (set_free p, [])
    | Some rpc_local =>
        let* req_size_bytes :=
          (if decide (rq_type req = append_entries_request)
           then entries_size (rq_log_entries req) else Ok 0) in
        Ok (bytes_in_flight_add req_size_bytes p,
            [Rpc_send rpc_local req handler streaming req_size_bytes])
    end.

Definition rpc_id (rpc : option Z) : Z := match rpc with Some i => i | None => 0 end.

(** [handle_rpc_result] up to the call of the handler, for a response. *)
Definition rpc_succeeded (now my_rpc_client : Z) (req : req_msg) (streaming : bool)
    (req_size_bytes : Z) (p : peer) : peer :=
  let p :=
    if rpc_id (rpc_ p) =? my_rpc_client then
      try_set_free (rq_type req) streaming
        (bytes_in_flight_sub req_size_bytes (reset_stale_rpc_responses p))
    else inc_stale_rpc_responses p in
  resume_hb_speed (reset_active_timer now p).

(** After the handler of a response has run. *)
Definition rpc_after_response (now : Z) (p : peer) : peer :=
  p <| reconn_backoff_ ::= timer_reset now 0 |> <| reconn_backoff_ ::= set_duration_ms 1 |>.

(** The same for a failure: before and after its handler. *)
Definition rpc_failed (now : Z) (p : peer) : peer := slow_down_hb (reset_active_timer now p).

Definition rpc_after_failure (my_rpc_client : Z) (req : req_msg) (streaming : bool) (p : peer)
  : peer :=
  if rpc_id (rpc_ p) =? my_rpc_client then
    set_snapshot_sync_is_needed false
      (try_set_free (rq_type req) streaming
        (reset_bytes_in_flight (reset_stale_rpc_responses (reset_stream
          (p <| rpc_ := None |>)))))
  else inc_stale_rpc_responses p.

(** [handle_rpc_result]; [set_result] is the call of the handler, which may
    itself change the peer. *)
Definition handle_rpc_result (now my_rpc_client : Z) (req : req_msg) (streaming : bool)
    (req_size_bytes : Z) (result : resp_msg + rpc_exception)
    (set_result : resp_msg + rpc_exception -> peer -> peer) (p : peer) : peer :=
  if abandoned_ p then p
  else
    match result with
    | inl resp =>
        rpc_after_response now
          (set_result (inl (set_peer (Some (p_id p)) resp))
            (rpc_succeeded now my_rpc_client req streaming req_size_bytes p))
    | inr err =>
        rpc_after_failure my_rpc_client req streaming
          (set_result (inr err) (rpc_failed now p))
    end.

(** [factory] and [client]: whether the context has a client factory, and the
    client it creates; [backoff_disabled] is the debugging option. *)
Definition recreate_rpc (now : Z) (factory backoff_disabled : bool) (client : option Z)
    (p : peer) : bool * peer :=
  if abandoned_ p then (false, p)
  else if negb factory then (false, p)
  else
    let '(fired, p) :=
      if backoff_disabled then (true, p)
      else let '(b, t) := timeout now (reconn_backoff_ p) in (b, p <| reconn_backoff_ := t |>) in
    if fired then
      let p := p <| reconn_backoff_ ::= timer_reset now 0 |> in
      let new_duration_ms := duration_us_ (reconn_backoff_ p) / 1000 in
      let new_duration_ms := u64 (Z.min (hb_interval_ p) (s32 (s32 new_duration_ms * 2))) in
      let new_duration_ms := if new_duration_ms =? 0 then 1 else new_duration_ms in
      let p := p <| reconn_backoff_ ::= set_duration_ms new_duration_ms |>
                 <| rpc_ := client |> in
      (true, set_manual_free (set_free (reset_bytes_in_flight (reset_stream
               (reset_active_timer now p)))))
    else (false, p).

Definition shutdown (p : peer) : peer :=
  p <| abandoned_ := true |> <| p_scheduler := false |> <| rpc_ := None |>
    <| hb_task_ := false |>.

(** * The connection of a peer as a transition system

    Requests travel through the client they were sent with; [outstanding]
    lists those whose result has not come back.  The two halves of
    [handle_rpc_result] are separate steps, since the handler runs in between
    and may send, reconnect or shut the peer down. *)

Record call := mk_call { c_rpc : Z; c_req : req_msg; c_streaming : bool; c_size : Z }.

Record link := mk_link { l_peer : peer; outstanding : list call }.

(** Bytes of the outstanding requests sent through [rpc]. *)
Definition in_flight (rpc : Z) (l : list call) : Z :=
  fold_right (fun c n => if c_rpc c =? rpc then c_size c + n else n) 0 l.

Arguments in_flight : simpl never.

Definition calls_of (o : list peer_out) : list call :=
  omap (fun e => match e with
                 | Rpc_send rpc req _ streaming n => Some (mk_call rpc req streaming n)
                 | _ => None
                 end) o.

(** The payload of an entry is a buffer the buffer operations made. *)
Definition entry_wf (e : log_entry) : Prop :=
  match le_buff e with Some b => wf b | None => True end.

Inductive link_step : link -> link -> Prop :=
| step_send p l req h streaming p' out :
    Forall entry_wf (rq_log_entries req) ->
    send_req req h streaming p = Ok (p', out) ->
    link_step (mk_link p l) (mk_link p' (calls_of out ++ l))
| step_response p l1 c l2 now :
    abandoned_ p = false ->
    link_step (mk_link p (l1 ++ c :: l2))
      (mk_link (rpc_succeeded now (c_rpc c) (c_req c) (c_streaming c) (c_size c) p) (l1 ++ l2))
| step_after_response p l now :
    link_step (mk_link p l) (mk_link (rpc_after_response now p) l)
| step_failure p l now :
    link_step (mk_link p l) (mk_link (rpc_failed now p) l)
| step_after_failure p l1 c l2 :
    abandoned_ p = false ->
    link_step (mk_link p (l1 ++ c :: l2))
      (mk_link (rpc_after_failure (c_rpc c) (c_req c) (c_streaming c) p) (l1 ++ l2))
| step_recreate p l now factory off id :
    id <> 0 -> Forall (fun c => c_rpc c <> id) l ->
    link_step (mk_link p l) (mk_link (snd (recreate_rpc now factory off (Some id) p)) l)
| step_shutdown p l :
    link_step (mk_link p l) (mk_link (shutdown p) l).

Definition link_reach : link -> link -> Prop := rtc link_step.

(** The counter equals the bytes outstanding on the current client, and is
    zero without one. *)
Definition link_inv (s : link) : Prop :=
  Forall (fun c => c_rpc c <> 0 /\ 0 <= c_size c) (outstanding s) /\
  (abandoned_ (l_peer s) = false ->
   match rpc_ (l_peer s) with
   | Some id => id <> 0 /\ bytes_in_flight_ (l_peer s) = s64 (in_flight id (outstanding s))
   | None => bytes_in_flight_ (l_peer s) = 0
   end).

Lemma in_flight_cons rpc c l :
  in_flight rpc (c :: l) = (if c_rpc c =? rpc then c_size c else 0) + in_flight rpc l.
Proof. unfold in_flight. cbn. destruct (_ =? _); lia. Qed.

Lemma in_flight_app rpc l k : in_flight rpc (l ++ k) = in_flight rpc l + in_flight rpc k.
Proof.
  induction l as [|c l IH]; [done|]. cbn [app]. rewrite !in_flight_cons. lia.
Qed.

Lemma in_flight_nonneg rpc l : Forall (fun c => 0 <= c_size c) l -> 0 <= in_flight rpc l.
Proof. induction 1 as [|c l]; [done|]. rewrite in_flight_cons. destruct (_ =? _); lia. Qed.

Lemma in_flight_other rpc l : Forall (fun c => c_rpc c <> rpc) l -> in_flight rpc l = 0.
Proof.
  induction 1 as [|c l H]; [done|]. rewrite in_flight_cons. by rewrite eqb_false by done.
Qed.

Lemma s64_add x y : s64 (s64 x + y) = s64 (x + y).
Proof.
  apply s64_mod. unfold s64.
  replace ((x + 2 ^ 63) mod 2 ^ 64 - 2 ^ 63 + y)
    with ((x + 2 ^ 63) mod 2 ^ 64 + (y - 2 ^ 63)) by lia.
  rewrite Z.add_mod_idemp_l by lia. f_equal. lia.
Qed.

Lemma s64_sub x y : s64 (s64 x - y) = s64 (x - y).
Proof. apply (s64_add x (- y)). Qed.

Lemma entries_size_nonneg l n :
  Forall entry_wf l -> entries_size l = Ok n -> 0 <= n.
Proof.
  intros H. revert n. induction H as [|e l He Hl IH]; cbn; [intros; by simplify_eq|].
  intros n. unfold entry_wf in He. destruct (le_buff e) as [b|]; [|done].
  destruct (entries_size l) as [m|]; cbn [rbind]; [|done]. intros. simplify_eq.
  destruct He as (bs & q & Hb & ->). rewrite mkbuf_size by done.
  specialize (IH m eq_refl). zlen_lia.
Qed.

(** The fields [link_inv] reads, of the operations that touch them or not. *)
Lemma try_set_free_frame type streaming p :
  rpc_ (try_set_free type streaming p) = rpc_ p /\
  abandoned_ (try_set_free type streaming p) = abandoned_ p /\
  bytes_in_flight_ (try_set_free type streaming p) = bytes_in_flight_ p.
Proof. unfold try_set_free. repeat case_decide; destruct streaming; done. Qed.

Lemma send_inv req h streaming p p' out l :
  Forall entry_wf (rq_log_entries req) -> send_req req h streaming p = Ok (p', out) ->
  link_inv (mk_link p l) -> link_inv (mk_link p' (calls_of out ++ l)).
Proof.
  intros Hw. unfold send_req. destruct (abandoned_ p) eqn:A; [by intros [= <- <-]|].
  destruct (rpc_ p) as [id|] eqn:R; [|intros [= <- <-] [Hf Hi]; split; [done|]; cbn in *; by rewrite R in *].
  destruct (if decide _ then _ else _) as [n|] eqn:E; [|done].
  intros [= <- <-] [Hf Hi]. cbn in Hf, Hi |- *. rewrite R in *. destruct (Hi A) as [Hid Hb].
  assert (0 <= n).
  { case_decide; [by eapply entries_size_nonneg|]. by simplify_eq. }
  split; [by constructor|]. cbn. rewrite R. intros _. split; [done|].
  rewrite in_flight_cons. cbn. rewrite Hb, s64_add, Z.eqb_refl. f_equal. lia.
Qed.

Lemma succeeded_inv p l1 c l2 now :
  link_inv (mk_link p (l1 ++ c :: l2)) ->
  link_inv (mk_link (rpc_succeeded now (c_rpc c) (c_req c) (c_streaming c) (c_size c) p)
              (l1 ++ l2)).
Proof.
  intros [Hf Hi]. cbn in Hf, Hi. split; cbn.
  { rewrite Forall_app, Forall_cons in Hf. apply Forall_app. tauto. }
  unfold rpc_succeeded, resume_hb_speed, reset_active_timer. cbn.
  destruct (rpc_id (rpc_ p) =? c_rpc c) eqn:E; bool_to_prop.
  - destruct (try_set_free_frame (rq_type (c_req c)) (c_streaming c)
      (bytes_in_flight_sub (c_size c) (reset_stale_rpc_responses p))) as (-> & -> & ->).
    cbn. intros A. specialize (Hi A). destruct (rpc_ p) as [id|] eqn:R.
    + destruct Hi as [Hid ->]. split; [done|]. rewrite s64_sub. f_equal.
      rewrite !in_flight_app, in_flight_cons. cbn in E. rewrite E, Z.eqb_refl. lia.
    + exfalso. rewrite Forall_app, Forall_cons in Hf. cbn in E. destruct Hf as (_ & [? _] & _). congruence.
  - cbn. intros A. specialize (Hi A). destruct (rpc_ p) as [id|] eqn:R; [|done].
    destruct Hi as [Hid ->]. split; [done|]. f_equal. rewrite !in_flight_app, in_flight_cons. cbn in E.
    by rewrite eqb_false by congruence.
Qed.

Lemma after_failure_inv p l1 c l2 :
  link_inv (mk_link p (l1 ++ c :: l2)) ->
  link_inv (mk_link (rpc_after_failure (c_rpc c) (c_req c) (c_streaming c) p) (l1 ++ l2)).
Proof.
  intros [Hf Hi]. cbn in Hf, Hi. split; cbn.
  { rewrite Forall_app, Forall_cons in Hf. apply Forall_app. tauto. }
  unfold rpc_after_failure. destruct (rpc_id (rpc_ p) =? c_rpc c) eqn:E; bool_to_prop.
  - unfold set_snapshot_sync_is_needed. cbn.
    match goal with |- context [try_set_free ?t ?s ?q] =>
      destruct (try_set_free_frame t s q) as (-> & -> & ->) end. done.
  - cbn. intros A. specialize (Hi A). destruct (rpc_ p) as [id|] eqn:R; [|done].
    destruct Hi as [Hid ->]. split; [done|]. f_equal. rewrite !in_flight_app, in_flight_cons. cbn in E.
    by rewrite eqb_false by congruence.
Qed.

Lemma recreate_inv p l now factory off id :
  id <> 0 -> Forall (fun c => c_rpc c <> id) l -> link_inv (mk_link p l) ->
  link_inv (mk_link (snd (recreate_rpc now factory off (Some id) p)) l).
Proof.
  intros Hid Hl [Hf Hi]. split; [done|]. cbn in Hi |- *. unfold recreate_rpc.
  destruct (abandoned_ p) eqn:A; [cbn; by rewrite A|].
  destruct factory; cbn [negb]; [|by intros _; apply Hi].
  destruct off; [|unfold timeout; destruct (negb _), (timed_out now (reconn_backoff_ p))];
    cbn [snd]; cbn; intros _; rewrite ?in_flight_other by done; (done || by apply Hi).
Qed.

Lemma link_step_inv s s' : link_step s s' -> link_inv s -> link_inv s'.
Proof.
  destruct 1; intros Hinv.
  - by eapply send_inv.
  - by apply succeeded_inv.
  - exact Hinv.
  - exact Hinv.
  - by apply after_failure_inv.
  - by apply recreate_inv.
  - destruct Hinv as [Hf _]. by split.
Qed.

(** whatever the order in which requests are sent, their results come
    back (also late, through a client replaced since) and the connection is
    recreated or shut down, a live peer's in-flight counter equals the bytes
    of the requests outstanding on its current client; so the assertion that
    it never becomes negative holds while the outstanding bytes fit in 63
    bits. *)
Theorem bytes_in_flight_exact (now : Z) (cfg : srv_config) (params : raft_params)
    (client : option Z) (p : peer) (calls : list call) :
  client <> Some 0 ->
  link_reach (mk_link (peer_new now cfg params client) []) (mk_link p calls) ->
  abandoned_ p = false ->
  let outstanding_bytes :=
    match rpc_ p with Some id => in_flight id calls | None => 0 end in
  bytes_in_flight_ p = s64 outstanding_bytes /\
  (outstanding_bytes < 2 ^ 63 -> 0 <= bytes_in_flight_ p).
Proof.
  intros Hc Hr A.
  assert (link_inv (mk_link p calls)) as [Hf Hi].
  { revert Hr. generalize (mk_link p calls). intros s Hr.
    assert (link_inv (mk_link (peer_new now cfg params client) [])) as H0.
    { split; [done|]. cbn. intros _. destruct client; [|done]. split; [congruence|done]. }
    revert H0. induction Hr; eauto using link_step_inv. }
  cbn in Hf, Hi. specialize (Hi A). destruct (rpc_ p) as [id|]; cbn.
  - destruct Hi as [_ ->]. split; [done|]. intros L.
    assert (0 <= in_flight id calls)
      by (apply in_flight_nonneg; eapply Forall_impl; [done|]; cbn; tauto).
    rewrite s64_small by (unfold_width; lia). lia.
  - rewrite Hi. done.
Qed.

(** A call is sent, the client is replaced, and the late response arrives. *)
Definition sample_peer : peer :=
  peer_new 0 (srv_config_simple 2 []) raft_params_default (Some 7).

Definition sample_req : req_msg :=
  (req_msg_new 1 append_entries_request 1 2 0 0 0)
    <| rq_log_entries := [log_entry_new 1 (Some (mkbuf [1; 2; 3] 0)) app_log 0 false 0 false] |>.

Definition sample_peer_reconnected : peer :=
  snd (recreate_rpc 10 true true (Some 8) (bytes_in_flight_add 3 sample_peer)).

Lemma sample_link :
  link_reach (mk_link sample_peer [])
    (mk_link (rpc_succeeded 20 7 sample_req false 3 sample_peer_reconnected) []).
Proof.
  eapply (rtc_l _ _ (mk_link (bytes_in_flight_add 3 sample_peer)
                       [mk_call 7 sample_req false 3])).
  { apply (step_send _ [] sample_req resp_handler_ false _
             [Rpc_send 7 sample_req resp_handler_ false 3]); [|done].
    constructor; [|done]. exists [1; 2; 3], 0. done. }
  eapply rtc_l.
  { apply (step_recreate _ _ 10 true true 8); [done|]. by repeat constructor. }
  apply rtc_once, (step_response _ [] (mk_call 7 sample_req false 3) [] 20). done.
Qed.

Lemma bytes_in_flight_exact_witness :
  bytes_in_flight_ (rpc_succeeded 20 7 sample_req false 3 sample_peer_reconnected) = 0 /\
  0 <= bytes_in_flight_ (rpc_succeeded 20 7 sample_req false 3 sample_peer_reconnected).
Proof.
  destruct (bytes_in_flight_exact 0 (srv_config_simple 2 []) raft_params_default (Some 7)
    _ _ ltac:(done) sample_link eq_refl) as [H H'].
  split; [exact H|]. by apply H'.
Defined.

(** * Heartbeat backoff *)

Lemma max_hb_interval_ge params :
  heart_beat_interval_ params <= max_hb_interval params.
Proof. unfold max_hb_interval. lia. Qed.

(** The peer after failures at the given times. *)
Definition after_failures (times : list Z) (p : peer) : peer :=
  fold_left (fun p now => rpc_failed now p) times p.

Lemma after_failures_fields times p k :
  0 <= rpc_backoff_ p -> 0 <= hb_interval_ p <= max_hb_interval_ p ->
  max_hb_interval_ p + rpc_backoff_ p < 2 ^ 31 -> 0 <= k ->
  current_hb_interval_ p = Z.min (max_hb_interval_ p) (hb_interval_ p + k * rpc_backoff_ p) ->
  current_hb_interval_ (after_failures times p)
  = Z.min (max_hb_interval_ p) (hb_interval_ p + (k + zlen times) * rpc_backoff_ p) /\
  hb_interval_ (after_failures times p) = hb_interval_ p.
Proof.
  revert p k. induction times as [|now times IH]; intros p k Hb Hh Hm Hk Hc.
  { cbn. by rewrite zlen_nil, Z.add_0_r. }
  cbn [after_failures fold_left].
  destruct (IH (rpc_failed now p) (k + 1)) as [E1 E2]; [done..|lia| |].
  - unfold rpc_failed, slow_down_hb. cbn. rewrite Hc.
    rewrite s32_small by (unfold_width; nia). nia.
  - unfold after_failures in E1, E2. rewrite E1, E2. split; [|done].
    change (max_hb_interval_ (rpc_failed now p)) with (max_hb_interval_ p).
    change (hb_interval_ (rpc_failed now p)) with (hb_interval_ p).
    change (rpc_backoff_ (rpc_failed now p)) with (rpc_backoff_ p).
    rewrite zlen_cons. do 2 f_equal. lia.
Qed.

Lemma succeeded_hb now rpc req streaming sz p :
  current_hb_interval_ (rpc_succeeded now rpc req streaming sz p) = hb_interval_ p.
Proof.
  unfold rpc_succeeded. destruct (_ =? _); [|done]. unfold try_set_free.
  repeat case_decide; by destruct streaming.
Qed.

(** [n] failed requests in a row slow the heartbeat of a peer down linearly,
    up to the maximum derived from the election timeout and the heartbeat
    interval; the next response restores the configured interval. *)
Theorem heartbeat_backoff (now : Z) (cfg : srv_config) (params : raft_params)
    (client : option Z) (times : list Z) :
  0 <= rpc_failure_backoff_ params -> 0 <= heart_beat_interval_ params ->
  max_hb_interval params + rpc_failure_backoff_ params < 2 ^ 31 ->
  let p := after_failures times (peer_new now cfg params client) in
  current_hb_interval_ p
  = Z.min (max_hb_interval params)
      (heart_beat_interval_ params + zlen times * rpc_failure_backoff_ params) /\
  (forall now' rpc req streaming sz,
     current_hb_interval_ (rpc_succeeded now' rpc req streaming sz p)
     = heart_beat_interval_ params).
Proof.
  intros Hb Hh Hm. pose proof (max_hb_interval_ge params).
  destruct (after_failures_fields times (peer_new now cfg params client) 0) as [E1 E2];
    [done..| |].
  { cbn. lia. }
  split; [exact E1|]. intros. by rewrite succeeded_hb, E2.
Qed.

Lemma heartbeat_backoff_witness :
  current_hb_interval_
    (after_failures [1; 2; 3] (peer_new 0 (srv_config_simple 2 []) raft_params_default None))
  = 188.
Proof.
  apply (proj1 (heartbeat_backoff 0 (srv_config_simple 2 []) raft_params_default None [1; 2; 3]
    ltac:(done) ltac:(done) ltac:(done))).
Defined.
