(* ===== verification/LogStore.v ===== *)
(** log_store.h as an interface with laws, and in_memory_log_store.{h,cc} as
    its implementation.  [LogStore] has the virtual functions the server calls;
    [LogStoreSpec] states what they promise in terms of an abstract log, a
    start index and the entries from it on.  The server's theorems are proved
    against these laws and the in-memory store discharges them. *)
From S2P Require Import Prelude Buffer Serializer Crc32 Codec Messages Peer.

(** * The interface *)

Class LogStore (L : Type) := {
  next_slot : L -> Z;
  start_index : L -> Z;
  last_entry : M L log_entry;
  append : log_entry -> M L Z;
  write_at : Z -> log_entry -> M L unit;
  end_of_append_batch : Z -> Z -> M L unit;
  log_entries_ext : Z -> Z -> Z -> M L (option (list log_entry));
  entry_at : Z -> M L (option log_entry);
  term_at : Z -> M L Z;
  compact : Z -> M L bool;
  flush : M L bool;
  last_durable_index : L -> Z;
  await_durable : Z -> M L unit;
  pack : Z -> Z -> M L buffer;
  apply_pack : Z -> buffer -> M L unit
}.

Record alog := mk_alog { al_start : Z; al_entries : list log_entry }.

#[global] Instance eta_alog : Eta alog := fun a => mk_alog (al_start a) (al_entries a).

Definition al_next (a : alog) : Z := al_start a + zlen (al_entries a).

Definition al_at (a : alog) (i : Z) : option log_entry :=
  if al_start a <=? i then al_entries a !! Z.to_nat (i - al_start a) else None.

(** Term of the entry at [i], 0 where there is none. *)
Definition al_term (a : alog) (i : Z) : Z :=
  match al_at a i with Some e => le_term e | None => 0 end.

Definition al_append (e : log_entry) (a : alog) : alog := a <| al_entries ::= fun l => l ++ [e] |>.

(** The entries before [i], then [e]. *)
Definition al_write (i : Z) (e : log_entry) (a : alog) : alog :=
  a <| al_entries := ztake (i - al_start a) (al_entries a) ++ [e] |>.

Definition al_compact (i : Z) (a : alog) : alog :=
  if al_start a <=? i then mk_alog (i + 1) (zdrop (i + 1 - al_start a) (al_entries a)) else a.

(** An entry that a store can keep: its payload is a buffer. *)
Definition storable (e : log_entry) : Prop :=
  exists l p, le_buff e = Some (mkbuf l p) /\ in_block l p.

(** What a store keeps of it: a copy, with the payload rewound. *)
Definition rewound (e : log_entry) : log_entry :=
  match le_buff e with
  | Some b => e <| le_buff := Some (mkbuf (bytes b) 0) |>
  | None => e
  end.

Class LogStoreSpec (L : Type) `{LS : LogStore L} := {
  ls_view : L -> alog;
  ls_ok : L -> Prop;
  ls_range l : ls_ok l -> 1 <= al_start (ls_view l) /\ al_next (ls_view l) < 2 ^ 64;
  ls_storable l : ls_ok l -> Forall storable (al_entries (ls_view l));
  ls_next_slot l : ls_ok l -> next_slot l = al_next (ls_view l);
  ls_start_index l : ls_ok l -> start_index l = al_start (ls_view l);
  ls_last_entry l : ls_ok l -> exists e, last_entry l = (Ok e, l) /\
    le_term e = al_term (ls_view l) (al_next (ls_view l) - 1);
  ls_append e l : ls_ok l -> storable e -> al_next (ls_view l) + 1 < 2 ^ 64 ->
    exists l', append e l = (Ok (al_next (ls_view l)), l') /\ ls_ok l' /\
      ls_view l' = al_append (rewound e) (ls_view l);
  ls_write_at i e l : ls_ok l -> storable e ->
    al_start (ls_view l) <= i <= al_next (ls_view l) -> i + 1 < 2 ^ 64 ->
    exists l', write_at i e l = (Ok tt, l') /\ ls_ok l' /\
      ls_view l' = al_write i (rewound e) (ls_view l);
  ls_end_of_batch i n l : ls_ok l -> exists l', end_of_append_batch i n l = (Ok tt, l') /\
    ls_ok l' /\ ls_view l' = ls_view l;
  ls_entry_at i l e : ls_ok l -> al_at (ls_view l) i = Some e ->
    entry_at i l = (Ok (Some (rewound e)), l);
  ls_term_at i l : ls_ok l -> 0 <= i -> term_at i l = (Ok (al_term (ls_view l) i), l);
  ls_entry_keeps i l : ls_ok l -> exists r, entry_at i l = (r, l);
  ls_term_keeps i l : ls_ok l -> exists r, term_at i l = (r, l);
  ls_entries_keep i j h l : ls_ok l -> exists r, log_entries_ext i j h l = (r, l);
  ls_entries i j h l : ls_ok l -> 0 <= h ->
    al_start (ls_view l) <= i <= j -> j <= al_next (ls_view l) ->
    exists n, log_entries_ext i j h l
        = (Ok (Some (map rewound (take n (zdrop (i - al_start (ls_view l))
                                              (al_entries (ls_view l)))))), l) /\
      Z.of_nat n <= j - i /\ (i < j -> (0 < n)%nat);
  ls_compact i l : ls_ok l -> i + 1 < 2 ^ 64 -> exists l', compact i l = (Ok true, l') /\
    ls_ok l' /\ ls_view l' = al_compact i (ls_view l);
  ls_flush l : ls_ok l -> exists b l', flush l = (Ok b, l') /\
    ls_ok l' /\ ls_view l' = ls_view l
}.

(** * inmem_log_store *)

Record inmem_log_store := mk_inmem {
  logs_ : gmap Z log_entry;
  start_idx_ : Z;
  disk_emul_delay : Z;
  disk_emul_logs_being_written_ : gmap Z Z;
  disk_emul_last_durable_index_ : Z;
  il_now : Z
}.

#[global] Instance eta_inmem : Eta inmem_log_store := fun r =>
  mk_inmem (logs_ r) (start_idx_ r) (disk_emul_delay r) (disk_emul_logs_being_written_ r)
    (disk_emul_last_durable_index_ r) (il_now r).

Section Inmem.
Context `{U : Uninit}.

(** The dummy entry for index 0, of term 0. *)
Definition dummy_entry : log_entry :=
  log_entry_new 0 (Some (init_s_block 8 (fresh 8))) app_log 0 false 0 true.

Definition inmem_log_store_new (now : Z) : inmem_log_store :=
  mk_inmem {[ 0 := dummy_entry ]} 1 0 ∅ 0 now.

Definition make_clone (e : log_entry) : res log_entry :=
  let* b := get_entry_buf e in
  let* c := clone b in
  Ok (log_entry_new (le_term e) (Some c) (le_value_type e) (le_timestamp_us e)
        (le_has_crc32 e) (le_crc32 e) false).

Definition inmem_next_slot (s : inmem_log_store) : Z :=
  u64 (start_idx_ s + Z.of_nat (base.size (logs_ s)) - 1).

(** [logs_.find(i)], or the entry at 0. *)
Definition find_or_dummy (i : Z) (s : inmem_log_store) : option log_entry :=
  match logs_ s !! i with Some e => Some e | None => logs_ s !! 0 end.

(** Dereferences the iterator; [end()] cannot be. *)
Definition find_entry (i : Z) : M inmem_log_store log_entry := fun s =>
  match find_or_dummy i s with Some e => (Ok e, s) | None => (Throw Undefined, s) end.

Definition inmem_last_entry : M inmem_log_store log_entry :=
  next_idx <- gets inmem_next_slot ;;
  e <- find_entry (u64 (next_idx - 1)) ;;
  lift (make_clone e).

Definition disk_emul (idx : Z) (s : inmem_log_store) : inmem_log_store :=
  if disk_emul_delay s =? 0 then s
  else
    s <| disk_emul_logs_being_written_ ::=
         <[ u64 (get_timeofday_us (il_now s) + disk_emul_delay s * 1000) := idx ]> |>.

Definition inmem_append (entry : log_entry) : M inmem_log_store Z :=
  clone <- lift (make_clone entry) ;;
  idx <- gets inmem_next_slot ;;
  modify (fun s => disk_emul idx (s <| logs_ ::= <[ idx := clone ]> |>)) ;;
  ret idx.

(** Erases from [lower_bound(index)] to the end, then stores. *)
Definition inmem_write_at (index : Z) (entry : log_entry) : M inmem_log_store unit :=
  clone <- lift (make_clone entry) ;;
  modify (fun s =>
    let s := s <| logs_ ::= filter (fun kv => fst kv < index) |>
               <| logs_ ::= <[ index := clone ]> |> in
    if disk_emul_delay s =? 0 then s
    else (disk_emul index s)
         <| disk_emul_logs_being_written_ ::= filter (fun kv => snd kv <= index) |>).

(** The loop of [log_entries_ext]; a missing index stops the program at the
    [assert]. *)
Fixpoint entries_loop (n : nat) (ii hint accum : Z) : M inmem_log_store (list log_entry) :=
  match n with
  | O => ret []
  | S n' =>
      s <- gets id ;;
      match logs_ s !! ii with
      | None => throw Undefined
      | Some src =>
          c <- lift (make_clone src) ;;
          b <- lift (get_entry_buf src) ;;
          let accum := accum + Buffer.size b in
          if negb (hint =? 0) && (hint <=? accum) then ret [c]
          else l <- entries_loop n' (ii + 1) hint accum ;; ret (c :: l)
      end
  end.

Definition inmem_log_entries (start end_ : Z) : M inmem_log_store (list log_entry) :=
  entries_loop (Z.to_nat (end_ - start)) start 0 0.

Definition inmem_log_entries_ext (start end_ hint : Z)
  : M inmem_log_store (option (list log_entry)) :=
  if hint <? 0 then ret (Some [])
  else l <- entries_loop (Z.to_nat (end_ - start)) start hint 0 ;; ret (Some l).

Definition inmem_entry_at (index : Z) : M inmem_log_store (option log_entry) :=
  src <- find_entry index ;;
  c <- lift (make_clone src) ;;
  ret (Some c).

Definition inmem_term_at (index : Z) : M inmem_log_store Z :=
  e <- find_entry index ;; ret (le_term e).

(** [for (ii = start_idx_; ii <= last_log_index; ++ii)] erases each index. *)
Definition inmem_compact (last_log_index : Z) : M inmem_log_store bool :=
  modify (fun s =>
    let s' := s <| logs_ ::= filter (fun kv =>
                     ~ (start_idx_ s <= fst kv <= last_log_index)) |> in
    if start_idx_ s <=? last_log_index
    then s' <| start_idx_ := u64 (last_log_index + 1) |> else s') ;;
  ret true.

Definition inmem_flush : M inmem_log_store bool :=
  modify (fun s => s <| disk_emul_last_durable_index_ := u64 (inmem_next_slot s - 1) |>) ;;
  ret true.

Definition inmem_last_durable_index (s : inmem_log_store) : Z :=
  if disk_emul_delay s =? 0 then u64 (inmem_next_slot s - 1)
  else disk_emul_last_durable_index_ s.

(** One round of [disk_emul_loop] at [cur_time]: the writes due are durable. *)
Definition disk_emul_iter (cur_time : Z) (s : inmem_log_store) : inmem_log_store :=
  let last := fold_left (fun best kv =>
      match best with
      | Some (k, _) => if k <? fst kv then Some kv else best
      | None => Some kv
      end) (map_to_list (filter (fun kv => fst kv <= cur_time) (disk_emul_logs_being_written_ s)))
      None in
  s <| disk_emul_logs_being_written_ ::= filter (fun kv => cur_time < fst kv) |>
    <| disk_emul_last_durable_index_ ::= fun d => match last with Some (_, i) => i | None => d end |>.

(** Waiting for the index [n] to be durable: the disk thread runs until the
    last write under way is done. *)
Definition inmem_await_durable (n : Z) : M inmem_log_store unit :=
  modify (fun s =>
    if inmem_last_durable_index s <? n then
      disk_emul_iter (fold_left (fun m kv => Z.max m (fst kv))
        (map_to_list (disk_emul_logs_being_written_ s)) 0) s
    else s) ;;
  s <- gets id ;;
  if inmem_last_durable_index s <? n then throw Blocked else ret tt.

(** ** pack and apply_pack *)

(** The serialized entries [[ii, ii + n)]; a missing one stops the program at
    the [assert].  Serializing rewinds the stored entry. *)
Fixpoint pack_loop (n : nat) (ii : Z) : M inmem_log_store (list buffer) :=
  match n with
  | O => ret []
  | S n' =>
      s <- gets id ;;
      match logs_ s !! ii with
      | None => throw Undefined
      | Some le =>
          modify (fun s => s <| logs_ ::= <[ ii := run_state log_entry_serialize le ]> |>) ;;
          b <- lift (run_val log_entry_serialize le) ;;
          bs <- pack_loop n' (u64 (ii + 1)) ;;
          ret (b :: bs)
      end
  end.

Fixpoint put_packed (bs : list buffer) : M buffer unit :=
  match bs with
  | [] => ret tt
  | b :: bs' => put_int (s32 (size b)) ;; put_buf b ;; put_packed bs'
  end.

Definition inmem_pack (index cnt : Z) : M inmem_log_store buffer :=
  bs <- pack_loop (Z.to_nat cnt) index ;;
  lift (build (4 + cnt * 4 + sizes bs) (put_int cnt ;; put_packed bs)).

(** One entry of a pack: its length and its encoding. *)
Definition unpack_entry : M buffer log_entry :=
  buf_size <- get_int ;;
  local <- lift (alloc (u64 buf_size)) ;;
  local <- get_buf local ;;
  lift (run_val log_entry_deserialize local).

Fixpoint apply_loop (n : nat) (cur_idx : Z) (pack : buffer) : M inmem_log_store unit :=
  match n with
  | O => ret tt
  | S n' =>
      le <- lift (run_val unpack_entry pack) ;;
      modify (fun s => s <| logs_ ::= <[ cur_idx := le ]> |>) ;;
      apply_loop n' (u64 (cur_idx + 1)) (run_state unpack_entry pack)
  end.

(** [logs_.upper_bound(0)]: the least positive index. *)
Definition first_index (m : gmap Z log_entry) : Z :=
  fold_left (fun acc kv => if (0 <? fst kv) && ((acc =? 0) || (fst kv <? acc)) then fst kv else acc)
    (map_to_list m) 0.

Definition inmem_apply_pack (index : Z) (pack : buffer) : M inmem_log_store unit :=
  let pack := run_state (set_pos 0) pack in
  num_logs <- lift (run_val get_int pack) ;;
  apply_loop (Z.to_nat num_logs) index (run_state get_int pack) ;;
  modify (fun s =>
    let i := first_index (logs_ s) in s <| start_idx_ := if i =? 0 then 1 else i |>).

#[export] Instance inmem_LogStore : LogStore inmem_log_store := {
  next_slot := inmem_next_slot;
  start_index := start_idx_;
  last_entry := inmem_last_entry;
  append := inmem_append;
  write_at := inmem_write_at;
  end_of_append_batch := fun _ _ => ret tt;
  log_entries_ext := inmem_log_entries_ext;
  entry_at := inmem_entry_at;
  term_at := inmem_term_at;
  compact := inmem_compact;
  flush := inmem_flush;
  last_durable_index := inmem_last_durable_index;
  await_durable := inmem_await_durable;
  pack := inmem_pack;
  apply_pack := inmem_apply_pack
}.

End Inmem.

(** * The in-memory store keeps an abstract log *)

Section InmemRefines.
Context `{U : Uninit}.

(** [s] holds the entries of [a] at consecutive indices, and the dummy at 0. *)
Definition holds (s : inmem_log_store) (a : alog) : Prop :=
  1 <= al_start a /\ start_idx_ s = al_start a /\
  (exists d, logs_ s !! 0 = Some d /\ le_term d = 0 /\ storable d) /\
  (forall i, i <> 0 -> logs_ s !! i = al_at a i).

Definition view_of (s : inmem_log_store) : alog :=
  mk_alog (start_idx_ s)
    (omap (fun i => logs_ s !! i) (seqZ (start_idx_ s) (Z.of_nat (base.size (logs_ s)) - 1))).

Definition inmem_ok (s : inmem_log_store) : Prop :=
  exists a, holds s a /\ al_next a < 2 ^ 64 /\ Forall storable (al_entries a).

Lemma al_at_seqZ a i : al_at a i = (map_seqZ (al_start a) (al_entries a) : gmap Z log_entry) !! i.
Proof.
  unfold al_at. destruct (Z.leb_spec (al_start a) i).
  - by rewrite lookup_map_seqZ, option_guard_True.
  - rewrite lookup_map_seqZ, option_guard_False; [done|lia].
Qed.

Lemma size_seqZ start (l : list log_entry) :
  base.size (map_seqZ start l : gmap Z log_entry) = length l.
Proof.
  revert start. induction l as [|e l IH]; intros start; cbn; [apply map_size_empty|].
  rewrite map_size_insert_None, IH; [done|]. apply lookup_map_seqZ_None. lia.
Qed.

Lemma al_at_None a i : i < al_start a \/ al_next a <= i -> al_at a i = None.
Proof.
  unfold al_at, al_next, zlen. intros H. destruct (Z.leb_spec (al_start a) i); [|done].
  apply lookup_ge_None. lia.
Qed.

Lemma al_at_Some a i : al_start a <= i < al_next a -> is_Some (al_at a i).
Proof.
  unfold al_at, al_next, zlen. intros H. rewrite leb_true by lia.
  apply lookup_lt_is_Some. lia.
Qed.

Lemma al_at_range a i e : al_at a i = Some e -> al_start a <= i < al_next a.
Proof.
  intros H. destruct (decide (al_start a <= i < al_next a)); [done|].
  rewrite al_at_None in H by lia. done.
Qed.

Lemma al_at_append a e i :
  al_at (al_append e a) i = if decide (i = al_next a) then Some e else al_at a i.
Proof.
  unfold al_at, al_next, al_append, zlen. cbn. case_decide as H.
  - rewrite leb_true by lia. rewrite lookup_app_r by lia.
    by replace (Z.to_nat _ - _)%nat with 0%nat by lia.
  - destruct (Z.leb_spec (al_start a) i); [|done].
    destruct (decide (i < al_start a + Z.of_nat (length (al_entries a)))).
    + by rewrite lookup_app_l by lia.
    + rewrite (proj2 (lookup_ge_None _ _)), (proj2 (lookup_ge_None (al_entries a) _)); [done|lia|].
      rewrite length_app. cbn. lia.
Qed.

Lemma al_write_next a k e :
  al_start a <= k <= al_next a -> al_next (al_write k e a) = k + 1.
Proof.
  unfold al_next, al_write. cbn. intros H. rewrite zlen_app, zlen_ztake by lia.
  rewrite zlen_cons, zlen_nil. lia.
Qed.

Lemma al_at_write a k e i :
  al_start a <= k <= al_next a ->
  al_at (al_write k e a) i
  = if decide (i = k) then Some e else if i <? k then al_at a i else None.
Proof.
  intros H. pose proof (al_write_next a k e H) as N.
  assert (length (ztake (k - al_start a) (al_entries a)) = Z.to_nat (k - al_start a)) as T.
  { unfold al_next in H. pose proof (zlen_ztake (k - al_start a) (al_entries a) ltac:(lia)) as Z.
    unfold zlen in Z. lia. }
  destruct (decide (al_start a <= i < k + 1)) as [R|R]; cycle 1.
  { rewrite al_at_None by (rewrite N; cbn; lia). case_decide; [lia|].
    destruct (Z.ltb_spec i k); [by rewrite al_at_None by lia|done]. }
  unfold al_at at 1. cbn. rewrite leb_true by lia. case_decide as E.
  - rewrite lookup_app_r by lia. by replace (_ - _)%nat with 0%nat by lia.
  - rewrite lookup_app_l by lia. rewrite ltb_true by lia. unfold ztake.
    rewrite lookup_take_lt by lia. unfold al_at. by rewrite leb_true by lia.
Qed.

Lemma al_at_compact a k i :
  al_at (al_compact k a) i = if decide (al_start a <= i <= k) then None else al_at a i.
Proof.
  unfold al_compact. destruct (Z.leb_spec (al_start a) k); cycle 1.
  { case_decide; [lia|done]. }
  destruct (decide (k + 1 <= i)).
  - rewrite decide_False by lia. unfold al_at. cbn. rewrite !leb_true by lia.
    unfold zdrop. rewrite lookup_drop. f_equal. lia.
  - rewrite al_at_None by (cbn; lia). case_decide; [done|]. by rewrite al_at_None by lia.
Qed.

Lemma storable_rewound e : storable e -> storable (rewound e).
Proof.
  intros (l & p & E & Hb). exists l, 0. unfold rewound. rewrite E. cbn.
  rewrite mkbuf_bytes. split; [done|]. destruct Hb. split; zlen_lia.
Qed.

Lemma make_clone_ok e : storable e -> make_clone e = Ok (rewound e).
Proof.
  intros (l & p & E & Hb). unfold make_clone, get_entry_buf, rewound. rewrite E. cbn [rbind].
  rewrite clone_ok by done. cbn [rbind]. unfold log_entry_new. rewrite andb_false_r, mkbuf_bytes.
  by destruct e.
Qed.

Lemma rewound_term e : le_term (rewound e) = le_term e.
Proof. unfold rewound. by destruct (le_buff e). Qed.

Lemma rewound_type e : le_value_type (rewound e) = le_value_type e.
Proof. unfold rewound. by destruct (le_buff e). Qed.

Section Held.
Context (s : inmem_log_store) (a : alog).
Hypothesis (H : holds s a).

Lemma held_logs :
  exists d, le_term d = 0 /\ storable d /\
    logs_ s = <[0 := d]> (map_seqZ (al_start a) (al_entries a)).
Proof.
  destruct H as (H1 & Hs & (d & Hd & Ht & Hst) & Hl). exists d. split_and!; [done..|].
  apply map_eq. intros i. destruct (decide (i = 0)) as [->|E].
  - by rewrite lookup_insert_eq.
  - rewrite lookup_insert_ne by done. rewrite <- al_at_seqZ. by apply Hl.
Qed.

Lemma held_size : Z.of_nat (base.size (logs_ s)) = 1 + zlen (al_entries a).
Proof.
  destruct held_logs as (d & _ & _ & ->). rewrite map_size_insert_None, size_seqZ.
  - unfold zlen. lia.
  - apply lookup_map_seqZ_None. destruct H as (? & _). lia.
Qed.

Lemma held_next : al_next a < 2 ^ 64 -> inmem_next_slot s = al_next a.
Proof.
  intros L. unfold inmem_next_slot. rewrite held_size. destruct H as (H1 & -> & _).
  unfold al_next in *. rewrite u64_small; [lia|]. unfold_width. zlen_lia.
Qed.

Lemma held_view : view_of s = a.
Proof.
  unfold view_of. rewrite held_size. destruct H as (H1 & -> & _ & Hl). destruct a as [st es].
  cbn in *. f_equal. replace (1 + zlen es - 1) with (zlen es) by lia. unfold zlen.
  transitivity (omap (fun i => al_at (mk_alog st es) i) (seqZ st (Z.of_nat (length es)))).
  { apply list_omap_ext, Forall_Forall2_diag, Forall_forall. intros i Hi.
    apply elem_of_seqZ in Hi. apply Hl. lia. }
  clear. unfold al_at. cbn. revert st. induction es as [|e es IH]; intros st; [done|].
  cbn [length]. rewrite seqZ_cons by lia. cbn.
  rewrite leb_true, Z.sub_diag by lia. cbn. f_equal.
  rewrite <- (IH (Z.succ st)) at 2. replace (Z.pred _) with (Z.of_nat (length es)) by lia.
  apply list_omap_ext, Forall_Forall2_diag, Forall_forall. intros i Hi.
  apply elem_of_seqZ in Hi. rewrite !leb_true by lia.
  by replace (Z.to_nat (i - st)) with (S (Z.to_nat (i - Z.succ st))) by lia.
Qed.

Lemma held_term i : 0 <= i -> inmem_term_at i s = (Ok (al_term a i), s).
Proof.
  intros Hi. unfold inmem_term_at, bind, find_entry, find_or_dummy, al_term.
  destruct H as (H1 & _ & (d & Hd & Ht & _) & Hl).
  destruct (decide (i = 0)) as [->|E].
  - rewrite Hd, al_at_None by lia. cbn. by rewrite Ht.
  - rewrite Hl by done. destruct (al_at a i); [done|]. rewrite Hd. cbn. by rewrite Ht.
Qed.

End Held.

(** A store whose disk-emulation bookkeeping alone changed. *)
Lemma holds_logs s s' a :
  logs_ s' = logs_ s -> start_idx_ s' = start_idx_ s -> holds s a -> holds s' a.
Proof. unfold holds. by intros -> ->. Qed.

Lemma disk_emul_logs i s : logs_ (disk_emul i s) = logs_ s /\ start_idx_ (disk_emul i s) = start_idx_ s.
Proof. unfold disk_emul. by destruct (_ =? _). Qed.

Lemma holds_disk i s a : holds s a -> holds (disk_emul i s) a.
Proof. apply holds_logs; apply disk_emul_logs. Qed.

Lemma append_holds s a e :
  holds s a -> al_next a < 2 ^ 64 -> storable e ->
  exists s', inmem_append e s = (Ok (al_next a), s') /\ holds s' (al_append (rewound e) a).
Proof.
  intros H L He. eexists. unfold inmem_append, bind, lift, gets, modify, ret.
  rewrite make_clone_ok by done. rewrite (held_next s a) by done. split; [done|].
  apply holds_disk. destruct H as (H1 & Hs & (d & Hd & Hd') & Hl).
  pose proof (zlen_nonneg (al_entries a)).
  assert (0 <> al_next a) by (unfold al_next; lia).
  split_and!; [done|done| |].
  - exists d. cbn. by rewrite lookup_insert_ne.
  - intros i Hi. cbn. rewrite al_at_append. case_decide as E.
    + subst. by rewrite lookup_insert_eq.
    + rewrite lookup_insert_ne by done. by apply Hl.
Qed.

Lemma write_holds s a i e :
  holds s a -> al_start a <= i <= al_next a -> storable e ->
  exists s', inmem_write_at i e s = (Ok tt, s') /\ holds s' (al_write i (rewound e) a).
Proof.
  intros H L He. eexists. unfold inmem_write_at, bind, lift, modify.
  rewrite make_clone_ok by done. split; [done|]. cbn beta zeta.
  assert (holds (s <| logs_ ::= filter (fun kv => fst kv < i) |>
                   <| logs_ ::= <[ i := rewound e ]> |>) (al_write i (rewound e) a)) as G.
  { destruct H as (H1 & Hs & (d & Hd & Hd') & Hl). split_and!; [done|done| |].
    - exists d. cbn. rewrite lookup_insert_ne by lia. split; [|done].
      apply map_lookup_filter_Some. split; [done|]. cbn. lia.
    - intros j Hj. cbn. rewrite al_at_write by done. case_decide as E.
      + subst. by rewrite lookup_insert_eq.
      + rewrite lookup_insert_ne by done. rewrite <- Hl by done.
        destruct (Z.ltb_spec j i); cycle 1.
        * apply map_lookup_filter_None. right. cbn. lia.
        * destruct (logs_ s !! j) eqn:Ej.
          -- apply map_lookup_filter_Some. by split.
          -- apply map_lookup_filter_None. by left. }
  cbn [disk_emul_delay upd]. destruct (_ =? 0); [done|].
  eapply holds_logs, holds_disk, G; done.
Qed.

Lemma compact_holds s a i :
  holds s a -> i + 1 < 2 ^ 64 ->
  exists s', inmem_compact i s = (Ok true, s') /\ holds s' (al_compact i a).
Proof.
  intros (H1 & Hs & (d & Hd & Hd') & Hl) L. eexists. split; [done|]. cbn beta zeta.
  rewrite Hs.
  assert (1 <= al_start (al_compact i a) /\
          al_start (al_compact i a) = if al_start a <=? i then i + 1 else al_start a) as [Hc Ec].
  { unfold al_compact. destruct (Z.leb_spec (al_start a) i); cbn; lia. }
  split_and!; [done| | |].
  - rewrite Ec. destruct (Z.leb_spec (al_start a) i); cbn; [|done].
    rewrite u64_small; [done|]. unfold_width. lia.
  - exists d. split; [|done]. destruct (_ <=? _); cbn; apply map_lookup_filter_Some;
      (split; [done|]); cbn; lia.
  - intros j Hj. rewrite al_at_compact, <- Hl by done.
    assert (filter (fun kv : Z * log_entry => ~ (al_start a <= fst kv <= i)) (logs_ s) !! j
            = if decide (al_start a <= j <= i) then None else logs_ s !! j) as F.
    { case_decide.
      - apply map_lookup_filter_None. right. cbn. tauto.
      - destruct (logs_ s !! j) eqn:Ej.
        + by apply map_lookup_filter_Some.
        + apply map_lookup_filter_None. by left. }
    by destruct (_ <=? _).
Qed.

Lemma last_entry_holds s a :
  holds s a -> al_next a < 2 ^ 64 -> Forall storable (al_entries a) ->
  exists e, inmem_last_entry s = (Ok e, s) /\ le_term e = al_term a (al_next a - 1).
Proof.
  intros H L F. unfold inmem_last_entry, bind, gets. rewrite (held_next s a) by done.
  destruct H as (H1 & Hs & (d & Hd & Ht & Hst) & Hl).
  pose proof (zlen_nonneg (al_entries a)).
  rewrite u64_small by (unfold_width; unfold al_next in *; lia).
  unfold find_entry, find_or_dummy, al_term, lift.
  destruct (decide (al_next a - 1 = 0)) as [E|E].
  - rewrite E, Hd, al_at_None by lia. rewrite make_clone_ok by done.
    eexists. split; [done|]. by rewrite rewound_term.
  - rewrite Hl by done. destruct (al_at a (al_next a - 1)) as [e|] eqn:Ee.
    + rewrite make_clone_ok; [eexists; split; [done|]; by rewrite rewound_term|].
      unfold al_at in Ee. destruct (_ <=? _); [|done]. by eapply Forall_lookup_1.
    + rewrite Hd, make_clone_ok by done. eexists. split; [done|]. by rewrite rewound_term.
Qed.

Lemma al_at_storable a i e : Forall storable (al_entries a) -> al_at a i = Some e -> storable e.
Proof.
  intros F. unfold al_at. destruct (_ <=? _); [|done]. intros. by eapply Forall_lookup_1.
Qed.

Lemma entry_holds s a i e :
  holds s a -> Forall storable (al_entries a) -> al_at a i = Some e ->
  inmem_entry_at i s = (Ok (Some (rewound e)), s).
Proof.
  intros (H1 & Hs & _ & Hl) F E. unfold inmem_entry_at, bind, find_entry, find_or_dummy, lift.
  pose proof (al_at_range _ _ _ E). rewrite Hl, E by lia.
  by rewrite make_clone_ok by by eapply al_at_storable.
Qed.

Lemma entries_loop_state n ii h acc s : snd (entries_loop n ii h acc s) = s.
Proof.
  revert ii acc s. induction n as [|n IH]; intros ii acc s; [done|].
  cbn [entries_loop]. unfold bind, gets, lift, ret, throw, id. destruct (logs_ s !! ii) as [e|]; [|done].
  destruct (make_clone e); [|done]. destruct (get_entry_buf e); [|done]. destruct (_ && _); [done|].
  pose proof (IH (ii + 1) (acc + Buffer.size a0) s) as H.
  destruct (entries_loop _ _ _ _ _) as [[]]; done.
Qed.

(** The entries from [i] on, as many as asked for or as the hint allows. *)
Lemma entries_loop_reads s a h n i acc :
  holds s a -> Forall storable (al_entries a) ->
  al_start a <= i -> i + Z.of_nat n <= al_next a ->
  exists k, entries_loop n i h acc s
      = (Ok (map rewound (take k (zdrop (i - al_start a) (al_entries a)))), s) /\
    (k <= n)%nat /\ ((0 < n)%nat -> (0 < k)%nat).
Proof.
  intros H F. revert i acc. induction n as [|n IH]; intros i acc Hi Hn; [by exists 0%nat|].
  destruct H as (H1 & Hs & Hd & Hl). unfold al_next, zlen in Hn.
  destruct (lookup_lt_is_Some_2 (al_entries a) (Z.to_nat (i - al_start a))) as (e & He); [lia|].
  assert (zdrop (i - al_start a) (al_entries a) = e :: zdrop (i + 1 - al_start a) (al_entries a)) as Ed.
  { unfold zdrop. replace (Z.to_nat (i + 1 - al_start a)) with (S (Z.to_nat (i - al_start a))) by lia.
    by apply drop_S. }
  assert (storable e) as Hst by (eapply Forall_lookup_1; eassumption).
  cbn [entries_loop]. unfold bind, gets, lift, ret, id. rewrite Hl by lia. unfold al_at.
  rewrite leb_true, He by lia. rewrite make_clone_ok by done.
  destruct Hst as (l & p & Eb & Hb). unfold get_entry_buf. rewrite Eb. rewrite Ed.
  destruct (_ && _).
  { exists 1%nat. cbn. rewrite take_0. split_and!; [done|lia|lia]. }
  destruct (IH (i + 1) (acc + Buffer.size (mkbuf l p))) as (k & E & Hk & _); [lia|unfold al_next, zlen; lia|].
  exists (S k). unfold bind in E. rewrite E. split_and!; [done|lia|lia].
Qed.

Lemma find_entry_state i s : snd (find_entry i s) = s.
Proof. unfold find_entry. by destruct (find_or_dummy i s). Qed.

Lemma storable_append a e :
  Forall storable (al_entries a) -> storable e ->
  Forall storable (al_entries (al_append (rewound e) a)).
Proof. intros. cbn. apply Forall_app. split; [done|]. constructor; [|done]. by apply storable_rewound. Qed.

Lemma storable_write a i e :
  Forall storable (al_entries a) -> storable e ->
  Forall storable (al_entries (al_write i (rewound e) a)).
Proof.
  intros. cbn. apply Forall_app. split; [by apply Forall_take|].
  constructor; [|done]. by apply storable_rewound.
Qed.

Lemma storable_compact a i :
  Forall storable (al_entries a) -> Forall storable (al_entries (al_compact i a)).
Proof. unfold al_compact. destruct (_ <=? _); [|done]. intros. by apply Forall_drop. Qed.

Lemma al_compact_next a i :
  i + 1 < 2 ^ 64 -> al_next a < 2 ^ 64 -> al_next (al_compact i a) < 2 ^ 64.
Proof.
  unfold al_compact, al_next. destruct (Z.leb_spec (al_start a) i); [|done]. cbn.
  intros. unfold zdrop, zlen in *. rewrite length_drop. lia.
Qed.

End InmemRefines.

#[export] Program Instance inmem_LogStoreSpec `{U : Uninit} : LogStoreSpec inmem_log_store :=
  {| ls_view := view_of; ls_ok := inmem_ok |}.
Next Obligation. intros U l (a & H & L & F). rewrite (held_view _ _ H). split; [apply H|done]. Qed.
Next Obligation. intros U l (a & H & L & F). by rewrite (held_view _ _ H). Qed.
Next Obligation. intros U l (a & H & L & F). rewrite (held_view _ _ H). by apply held_next. Qed.
Next Obligation. intros U l (a & H & L & F). rewrite (held_view _ _ H). apply H. Qed.
Next Obligation. intros U l (a & H & L & F). rewrite (held_view _ _ H). by apply last_entry_holds. Qed.
Next Obligation.
  intros U e l (a & H & L & F) He. rewrite (held_view _ _ H). intros L'.
  destruct (append_holds l a e H L He) as (l' & E & H'). exists l'.
  rewrite (held_view _ _ H'). split_and!; [done| |done]. exists (al_append (rewound e) a).
  split_and!; [done| |by apply storable_append]. unfold al_next in *. cbn. zlen_lia.
Qed.
Next Obligation.
  intros U i e l (a & H & L & F) He. rewrite (held_view _ _ H). intros R L'.
  destruct (write_holds l a i e H R He) as (l' & E & H'). exists l'.
  rewrite (held_view _ _ H'). split_and!; [done| |done]. exists (al_write i (rewound e) a).
  split_and!; [done| |by apply storable_write]. by rewrite al_write_next.
Qed.
Next Obligation. intros U i n l H. by exists l. Qed.
Next Obligation. intros U i l e (a & H & L & F). rewrite (held_view _ _ H). by apply entry_holds. Qed.
Next Obligation. intros U i l (a & H & L & F) Hi. rewrite (held_view _ _ H). by apply held_term. Qed.
Next Obligation.
  intros U i l _. change (exists r, inmem_entry_at i l = (r, l)). unfold inmem_entry_at, bind, lift, ret.
  pose proof (find_entry_state i l). destruct (find_entry i l) as [[e|] l']; cbn in *; subst; [|by eexists].
  destruct (make_clone e); by eexists.
Qed.
Next Obligation.
  intros U i l _. change (exists r, inmem_term_at i l = (r, l)). unfold inmem_term_at, bind, ret.
  pose proof (find_entry_state i l). destruct (find_entry i l) as [[e|] l']; cbn in *; subst; by eexists.
Qed.
Next Obligation.
  intros U i j h l _. change (exists r, inmem_log_entries_ext i j h l = (r, l)).
  unfold inmem_log_entries_ext, bind, ret. destruct (_ <? _); [by eexists|].
  pose proof (entries_loop_state (Z.to_nat (j - i)) i h 0 l) as E.
  destruct (entries_loop _ _ _ _ _) as [[] ?]; cbn in E; subst; by eexists.
Qed.
Next Obligation.
  intros U i j h l (a & H & L & F) Hh. rewrite (held_view _ _ H). intros Hi Hj.
  destruct (entries_loop_reads l a h (Z.to_nat (j - i)) i 0 H F) as (k & E & Hk & Hp); [lia|lia|].
  exists k. change (log_entries_ext i j h l) with (inmem_log_entries_ext i j h l).
  unfold inmem_log_entries_ext, bind. rewrite ltb_false by lia. rewrite E. split_and!; [done|lia|lia].
Qed.
Next Obligation.
  intros U i l (a & H & L & F) L'. rewrite (held_view _ _ H).
  destruct (compact_holds l a i H L') as (l' & E & H'). exists l'.
  rewrite (held_view _ _ H'). split_and!; [done| |done]. exists (al_compact i a).
  split_and!; [done|by apply al_compact_next|by apply storable_compact].
Qed.
Next Obligation.
  intros U l (a & H & L & F). eexists _, _. split; [done|].
  match goal with |- inmem_ok ?s /\ _ => assert (holds s a) as H' by by apply (holds_logs l) end.
  rewrite (held_view _ _ H'), (held_view _ _ H). split; [|done]. by exists a.
Qed.

(** * Sequences of updates *)

Inductive log_op :=
| Op_append (e : log_entry)
| Op_write_at (i : Z) (e : log_entry)
| Op_compact (i : Z).

(** The same operations on the abstract log. *)
Definition spec_op (o : log_op) (a : alog) : alog :=
  match o with
  | Op_append e => al_append (rewound e) a
  | Op_write_at i e => al_write i (rewound e) a
  | Op_compact i => al_compact i a
  end.

(** Payloads are buffers, overwrites hit the log or its end, indices fit. *)
Definition op_ok (o : log_op) (a : alog) : Prop :=
  match o with
  | Op_append e => storable e /\ al_next a + 1 < 2 ^ 64
  | Op_write_at i e => storable e /\ al_start a <= i <= al_next a /\ i + 1 < 2 ^ 64
  | Op_compact i => i + 1 < 2 ^ 64
  end.

Fixpoint ops_ok (os : list log_op) (a : alog) : Prop :=
  match os with [] => True | o :: os' => op_ok o a /\ ops_ok os' (spec_op o a) end.

Definition run_op {L} `{LogStore L} (o : log_op) : M L unit :=
  match o with
  | Op_append e => append e ;; ret tt
  | Op_write_at i e => write_at i e
  | Op_compact i => compact i ;; ret tt
  end.

Fixpoint run_ops {L} `{LogStore L} (os : list log_op) : M L unit :=
  match os with [] => ret tt | o :: os' => run_op o ;; run_ops os' end.

Definition spec_ops (os : list log_op) (a : alog) : alog := fold_left (fun a o => spec_op o a) os a.

Section Refinement.
Context {L : Type} `{LSS : LogStoreSpec L}.

Lemma run_op_view o l :
  ls_ok l -> op_ok o (ls_view l) ->
  exists l', run_op o l = (Ok tt, l') /\ ls_ok l' /\ ls_view l' = spec_op o (ls_view l).
Proof.
  intros H Ho. destruct o as [e|i e|i]; cbn in Ho |- *; unfold bind.
  - destruct Ho as [He Hn]. destruct (ls_append e l H He Hn) as (l' & -> & ? & ?). by exists l'.
  - destruct Ho as (He & Hr & Hi). destruct (ls_write_at i e l H He Hr Hi) as (l' & -> & ? & ?).
    by exists l'.
  - destruct (ls_compact i l H Ho) as (l' & -> & ? & ?). by exists l'.
Qed.

Lemma run_ops_view os l :
  ls_ok l -> ops_ok os (ls_view l) ->
  exists l', run_ops os l = (Ok tt, l') /\ ls_ok l' /\ ls_view l' = spec_ops os (ls_view l).
Proof.
  revert l. induction os as [|o os IH]; intros l H Hos; cbn; [by exists l|].
  destruct Hos as [Ho Hos]. destruct (run_op_view o l H Ho) as (l1 & E1 & H1 & V1).
  unfold bind. rewrite E1. rewrite <- V1 in Hos.
  destruct (IH l1 H1 Hos) as (l2 & E2 & H2 & V2). exists l2. by rewrite E2, V2, V1.
Qed.

End Refinement.

Lemma inmem_new_ok `{U : Uninit} now :
  ls_ok (inmem_log_store_new now) /\ ls_view (inmem_log_store_new now) = mk_alog 1 [].
Proof.
  assert (holds (inmem_log_store_new now) (mk_alog 1 [])) as H.
  { split_and!; [done|done| |].
    - exists dummy_entry. split_and!; [done|done|]. exists (fresh 8), 0.
      split; [|split; by rewrite ?zlen_fresh]. unfold dummy_entry. cbn.
      by unfold init_s_block, mkbuf; rewrite zlen_fresh.
    - intros i Hi. cbn. rewrite lookup_singleton_ne by done. by rewrite al_at_None by (unfold al_next, zlen; cbn; lia). }
  split; [by exists (mk_alog 1 [])|]. by apply held_view.
Qed.


Definition sample_entry (term : Z) : log_entry :=
  mk_log_entry term app_log (Some (mkbuf [1; 2] 0)) 0 false 0.

Lemma sample_storable term : storable (sample_entry term).
Proof. by exists [1; 2], 0. Qed.

#[local] Instance sample_uninit : Uninit := fun _ => 171.

