(* ===== verification/StateMgr.v ===== *)
(** in_memory_state_mgr.h: [inmem_state_mgr], where a server saves its state and
    its configuration.

    The manager and the server hand each other pointers: [load_config] and
    [read_state] return the very objects the manager keeps, and the server goes
    on changing its own.  So the objects live in a heap, a pointer is an index
    into it, and [saved_state_] and [saved_config_] are pointers.  The server is
    any sequence of operations on the objects it knows. *)
From S2P Require Import Prelude Buffer Serializer Codec LogStore.

Section StateMgr.
Context `{U : Uninit}.

Record inmem_state_mgr := mk_state_mgr {
  my_id_ : Z;
  my_endpoint_ : list Z;
  cur_log_store_ : inmem_log_store;
  my_srv_config_ : srv_config;
  saved_config_ : nat;
  saved_state_ : option nat
}.

#[global] Instance eta_state_mgr : Eta inmem_state_mgr := fun r =>
  mk_state_mgr (my_id_ r) (my_endpoint_ r) (cur_log_store_ r) (my_srv_config_ r) (saved_config_ r)
    (saved_state_ r).

(** The objects, and the manager. *)
Record world := mk_world {
  states : list srv_state;
  configs : list cluster_config;
  mgr : inmem_state_mgr
}.

#[global] Instance eta_world : Eta world := fun w => mk_world (states w) (configs w) (mgr w).

Definition WM := M world.

(** [cs_new]. *)
Definition new_state (s : srv_state) : WM nat :=
  fun w => (Ok (length (states w)), w <| states ::= fun l => l ++ [s] |>).

Definition new_config (c : cluster_config) : WM nat :=
  fun w => (Ok (length (configs w)), w <| configs ::= fun l => l ++ [c] |>).

(** Following a pointer. *)
Definition deref_state (p : nat) : WM srv_state :=
  fun w => (if states w !! p is Some s then Ok s else Throw Undefined, w).

Definition deref_config (p : nat) : WM cluster_config :=
  fun w => (if configs w !! p is Some c then Ok c else Throw Undefined, w).

(** The constructor: the initial configuration has this server only. *)
Definition inmem_state_mgr_new (srv_id : Z) (endpoint : list Z) (now : Z) : world :=
  let me := srv_config_simple srv_id endpoint in
  mk_world []
    [(cluster_config_new 0 0 false) <| cc_servers := [me] |>]
    (mk_state_mgr srv_id endpoint (inmem_log_store_new now) me 0 None).

Definition load_config : WM nat := gets (fun w => saved_config_ (mgr w)).

Definition save_config (config : cluster_config) : WM unit :=
  buf <- lift (cluster_config_serialize config) ;;
  c <- lift (from_buf cluster_config_deserialize buf) ;;
  p <- new_config c ;;
  modify (fun w => w <| mgr ::= fun m => m <| saved_config_ := p |> |>).

Definition save_state (state : srv_state) : WM unit :=
  buf <- lift (srv_state_serialize state) ;;
  s <- lift (srv_state_deserialize buf) ;;
  p <- new_state s ;;
  modify (fun w => w <| mgr ::= fun m => m <| saved_state_ := Some p |> |>).

Definition read_state : WM (option nat) := gets (fun w => saved_state_ (mgr w)).

Definition load_log_store : WM inmem_log_store := gets (fun w => cur_log_store_ (mgr w)).

Definition server_id : WM Z := gets (fun w => my_id_ (mgr w)).

Definition system_exit (exit_code : Z) : WM unit := ret tt.

Definition get_srv_config : WM srv_config := gets (fun w => my_srv_config_ (mgr w)).

(** ** A server that uses it *)

(** What a server does: it changes an object it has a pointer to, makes a new
    one, or saves one. *)
Inductive use :=
| Change_state (p : nat) (f : srv_state -> srv_state)
| Change_config (p : nat) (f : cluster_config -> cluster_config)
| New_state (s : srv_state)
| New_config (c : cluster_config)
| Save_state (p : nat)
| Save_config (p : nat).

Definition run_use (u : use) : WM unit :=
  match u with
  | Change_state p f => s <- deref_state p ;; modify (fun w => w <| states ::= <[p := f s]> |>)
  | Change_config p f => c <- deref_config p ;; modify (fun w => w <| configs ::= <[p := f c]> |>)
  | New_state s => _ <- new_state s ;; ret tt
  | New_config c => _ <- new_config c ;; ret tt
  | Save_state p => s <- deref_state p ;; save_state s
  | Save_config p => c <- deref_config p ;; save_config c
  end.

Fixpoint run_uses (l : list use) : WM unit :=
  match l with [] => ret tt | u :: l => run_use u ;; run_uses l end.

(** The state that was saved last is at [p] and is [s]; of the configuration alike. *)
Definition saved (p : nat) (s : srv_state) (w : world) : Prop :=
  saved_state_ (mgr w) = Some p /\ states w !! p = Some s.

Definition saved_conf (p : nat) (c : cluster_config) (w : world) : Prop :=
  saved_config_ (mgr w) = p /\ configs w !! p = Some c.

(** A use that does not save a state, nor changes the object at [p]. *)
Definition spares_state (p : nat) (u : use) : Prop :=
  match u with Save_state _ => False | Change_state q _ => q <> p | _ => True end.

Definition spares_config (p : nat) (u : use) : Prop :=
  match u with Save_config _ => False | Change_config q _ => q <> p | _ => True end.

Lemma save_state_saves (s : srv_state) (w : world) :
  is_u64 (term_ s) -> is_s32 (voted_for_ s) ->
  save_state s w = (Ok tt, w <| states ::= fun l => l ++ [s <| inc_term_cb_ := None |>] |>
                             <| mgr ::= fun m => m <| saved_state_ := Some (length (states w)) |> |>).
Proof.
  intros Ht Hv. unfold save_state, bind, lift.
  pose proof (srv_state_v1p_roundtrip CURRENT_VERSION (s <| inc_term_cb_ := None |>)) as H.
  change (srv_state_serialize s) with (srv_state_serialize_v1p CURRENT_VERSION (s <| inc_term_cb_ := None |>)).
  rewrite srv_state_serialize_v1p_ok in *. cbn [rbind] in H. by rewrite H.
Qed.

Lemma save_config_saves (c : cluster_config) (w : world) :
  cluster_config_ok c ->
  save_config c w = (Ok tt, w <| configs ::= fun l => l ++ [c] |>
                              <| mgr ::= fun m => m <| saved_config_ := length (configs w) |> |>).
Proof.
  intros H. unfold save_config, bind, lift. rewrite cluster_config_serialize_ok by done.
  rewrite (from_buf_all _ _ c) by (by apply sreads_cluster_config || by destruct H as (_ & _ & _ & ?)).
  done.
Qed.

Lemma save_config_spares (c : cluster_config) (w : world) (p : nat) (s : srv_state) :
  saved p s w -> saved p s (run_state (save_config c) w).
Proof.
  unfold run_state, save_config, bind, lift. destruct (cluster_config_serialize c); [|done].
  by destruct (from_buf _ _).
Qed.

Lemma save_state_spares (s : srv_state) (w : world) (p : nat) (c : cluster_config) :
  saved_conf p c w -> saved_conf p c (run_state (save_state s) w).
Proof.
  unfold run_state, save_state, bind, lift. destruct (srv_state_serialize s); [|done].
  by destruct (srv_state_deserialize _).
Qed.

Lemma run_use_saved (u : use) (p : nat) (s : srv_state) (w : world) :
  spares_state p u -> saved p s w -> saved p s (run_state (run_use u) w).
Proof.
  intros Hu H. destruct u as [q f|q f|s'|c'|q|q]; cbn in Hu; unfold run_use; try done.
  - unfold run_state, bind, deref_state, modify. destruct (states w !! q); [|done].
    split; cbn; [apply H|]. rewrite list_lookup_insert_ne by done. apply H.
  - unfold run_state, bind, deref_config. by destruct (configs w !! q).
  - split; cbn; [apply H|]. apply lookup_app_l_Some, H.
  - unfold run_state, bind, deref_config. destruct (configs w !! q) as [c|]; [|done].
    exact (save_config_spares c w p s H).
Qed.

Lemma run_use_saved_conf (u : use) (p : nat) (c : cluster_config) (w : world) :
  spares_config p u -> saved_conf p c w -> saved_conf p c (run_state (run_use u) w).
Proof.
  intros Hu H. destruct u as [q f|q f|s'|c'|q|q]; cbn in Hu; unfold run_use; try done.
  - unfold run_state, bind, deref_state. by destruct (states w !! q).
  - unfold run_state, bind, deref_config, modify. destruct (configs w !! q); [|done].
    split; cbn; [apply H|]. rewrite list_lookup_insert_ne by done. apply H.
  - split; cbn; [apply H|]. apply lookup_app_l_Some, H.
  - unfold run_state, bind, deref_state. destruct (states w !! q) as [s|]; [|done].
    exact (save_state_spares s w p c H).
Qed.

(** What every use keeps is kept by all of them, also when one of them throws. *)
Lemma run_uses_keeps (P : world -> Prop) (Q : use -> Prop) (l : list use) (w : world) :
  (forall u w, Q u -> P w -> P (run_state (run_use u) w)) ->
  Forall Q l -> P w -> P (run_state (run_uses l) w).
Proof.
  intros HK Hl. revert w. induction Hl as [|u l Hu _ IH]; intros w HP; [done|].
  specialize (HK u w Hu HP). unfold run_state in *. cbn. unfold bind.
  destruct (run_use u w) as [[] w1]; [by apply IH | done].
Qed.

(** a server finds after a restart what it saved last: the manager keeps a
    copy of its own, so that what the server does afterwards to its objects, new
    ones and other saves included, changes neither the state that [read_state]
    returns nor the configuration that [load_config] does. *)
Theorem saves_are_isolated (w : world) (p q : nat) (s : srv_state) (c : cluster_config) (l : list use) :
  states w !! p = Some s -> is_u64 (term_ s) -> is_s32 (voted_for_ s) ->
  configs w !! q = Some c -> cluster_config_ok c ->
  Forall (spares_state (length (states w))) l -> Forall (spares_config (length (configs w))) l ->
  let w' := run_state (run_uses (Save_state p :: Save_config q :: l)) w in
  (exists a, run_val read_state w' = Ok (Some a) /\
             run_val (deref_state a) w' = Ok (s <| inc_term_cb_ := None |>)) /\
  (exists a, run_val load_config w' = Ok a /\ run_val (deref_config a) w' = Ok c).
Proof.
  intros Hs Ht Hv Hc Hok Hl1 Hl2 w'.
  assert (H : saved (length (states w)) (s <| inc_term_cb_ := None |>) w' /\
              saved_conf (length (configs w)) c w').
  { assert (E1 : run_use (Save_state p) w = save_state s w)
      by (unfold run_use, bind, deref_state; by rewrite Hs).
    rewrite save_state_saves in E1 by done.
    match type of E1 with _ = (_, ?x) => set (w1 := x) in E1 end.
    assert (E2 : run_use (Save_config q) w1 = save_config c w1)
      by (unfold run_use, bind, deref_config; by rewrite (Hc : configs w1 !! q = Some c)).
    rewrite save_config_saves in E2 by done.
    match type of E2 with _ = (_, ?x) => set (w2 := x) in E2 end.
    assert (E : w' = run_state (run_uses l) w2).
    { subst w'. unfold run_state. cbn [run_uses]. unfold bind at 1. rewrite E1. unfold bind. by rewrite E2. }
    rewrite E. split.
    - apply (run_uses_keeps _ (spares_state (length (states w)))); [|done|].
      + intros u w3. apply run_use_saved.
      + split; [done|]. cbn. by rewrite lookup_app_r, Nat.sub_diag by lia.
    - apply (run_uses_keeps _ (spares_config (length (configs w)))); [|done|].
      + intros u w3. apply run_use_saved_conf.
      + split; [done|]. cbn. by rewrite lookup_app_r, Nat.sub_diag by lia. }
  destruct H as [[H1 H2] [H3 H4]]. split.
  - eexists. unfold run_val, read_state, gets, deref_state. cbn. by rewrite H1, H2.
  - eexists. unfold run_val, load_config, gets, deref_config. cbn. by rewrite H3, H4.
Qed.

End StateMgr.

(** Term 7 and a vote are saved; then the server goes on to term 8. *)
Lemma saves_are_isolated_witness :
  let U : Uninit := fun _ : nat => 171 in
  let w := mk_world [mk_srv_state 7 2 true false false None] [sample_config]
             (mgr (inmem_state_mgr_new 1 [104; 58; 49] 0)) in
  exists a, run_val read_state (run_state (run_uses (U:=U) [Save_state 0; Save_config 0; Change_state 0 (set_term 8)]) w)
            = Ok (Some a).
Proof.
  intros U w.
  destruct (saves_are_isolated (U:=U) w 0 0 (mk_srv_state 7 2 true false false None) sample_config
    [Change_state 0 (set_term 8)]) as [(a & H & _) _].
  - reflexivity.
  - done.
  - done.
  - reflexivity.
  - exact sample_config_ok.
  - repeat constructor. discriminate.
  - repeat constructor.
  - exists a. exact H.
Defined.
