(* ===== verification/Server.v ===== *)
(** raft_server.{h,cc}: the state of a server, its surroundings and the
    operations the handlers share: quorum sizes, timers, configuration, log
    entries, roles and terms (also from handle_timeout.cc, handle_priority.cc,
    handle_snapshot_sync.cc, handle_commit.cc and handle_client_request.cc).

    A handler is a function of [M (raft_server L)].  The interfaces the user of
    the library implements (callbacks, state machine, clients, random timeouts)
    are the fields of [Env]; they may depend on the whole history, which is the
    list of events [trace_]; the state machine may end a snapshot at once, with
    a result and whether there is an error.  The log store is any [LogStore].
    Every handler runs under the server's lock, so that handlers are sequential;
    the clock [now_] stands still during one. *)
From stdpp Require Import sorting.
From S2P Require Import Prelude Buffer Codec Messages Peer LogStore.

#[global] Instance ge_rel_dec : RelDecision Z.ge := fun a b => Z_ge_dec a b.

(** * callback.h *)

Inductive cb_type :=
| ProcessReq
| GotAppendEntryRespFromPeer
| AppendLogs
| HeartBeat
| JoinedCluster
| BecomeLeader
| RequestAppendEntries
| SaveSnapshot
| NewConfig
| RemovedFromCluster
| BecomeFollower
| BecomeFresh
| BecomeStale
| GotAppendEntryReqFromLeader
| OutOfLogRangeWarning
| ConnectionOpened
| ConnectionClosed
| NewSessionFromLeader
| StateMachineExecution
| SentAppendEntriesReq
| ReceivedAppendEntriesReq
| SentAppendEntriesResp
| ReceivedAppendEntriesResp
| AutoAdjustQuorum
| ServerJoinFailed
| SnapshotCreationBegin
| ResignationFromLeader
| FollowerLost
| ReceivedMisbehavingMessage.

#[global] Instance cb_type_eq_dec : EqDecision cb_type.
Proof. solve_decision. Defined.

Inductive cb_return := Cb_Ok | Cb_ReturnNull.

#[global] Instance cb_return_eq_dec : EqDecision cb_return.
Proof. solve_decision. Defined.

(** * Surroundings *)

Inductive task :=
| Election_task
| Heartbeat_task (peer : Z)
| Retry_task (peer : Z) (req : req_msg).

Inductive event :=
| Ev_save_state (s : srv_state)
| Ev_save_config (c : cluster_config)
| Ev_peer (id : Z) (o : peer_out)
| Ev_callback (t : cb_type) (peer : Z)
| Ev_schedule (t : task) (ms : Z)
| Ev_cancel (t : task)
| Ev_system_exit (code : Z)
| Ev_wake_commit
| Ev_wake_append
| Ev_wake_snapshot_io
| Ev_pre_commit (idx : Z) (data : option buffer)
| Ev_rollback (idx : Z) (data : option buffer)
| Ev_rollback_config (idx : Z) (c : cluster_config)
| Ev_free_user_snp_ctx (ctx : Z)
| Ev_client_result (idx : Z) (code : cmd_result_code) (value : option buffer)
| Ev_commit (idx : Z) (data : buffer)
| Ev_commit_config (idx : Z) (c : cluster_config)
| Ev_create_snapshot (s : snapshot)
| Ev_snapshot_result (idx : Z) (code : cmd_result_code)
| Ev_sm_watcher (w : Z) (ok : bool)
| Ev_after_precommit (idx term : Z)
| Ev_save_snapshot (s : snapshot) (offset : Z) (data : buffer) (first last : bool)
| Ev_apply_snapshot (s : snapshot).

Definition history := list event.

(** What the library is given: the callback, the RPC client factory (and the
    debugging option of its back-off), the random election timeout and snapshot
    distance, and the state machine. *)
Class Env := {
  cb_func : history -> cb_type -> Z -> cb_return;
  create_client : history -> list Z -> option Z;
  has_factory : bool;
  reconn_backoff_disabled : bool;
  rand_timeout : history -> Z;
  ctx_scheduler : bool;
  sm_last_snapshot : history -> option snapshot;
  sm_adjust_commit_index : history -> Z -> Z -> gmap Z Z -> Z;
  sm_next_batch_size_hint : history -> Z;
  sm_allow_leadership_transfer : history -> bool;
  sm_read_snapshot_data : history -> snapshot -> Z -> buffer -> Z * buffer;
  sm_read_logical_snp_obj : history -> snapshot -> Z -> Z -> Z * Z * option buffer * bool;
  sm_pre_commit_ext : history -> Z -> buffer -> option buffer;
  sm_commit_ext : history -> Z -> buffer -> option buffer;
  sm_chk_create_snapshot : history -> bool;
  sm_save_logical_snp_obj : history -> snapshot -> Z -> buffer -> bool -> bool -> Z;
  sm_apply_snapshot : history -> snapshot -> bool;
  sm_create_snapshot : history -> snapshot -> option (bool * bool);
  rand_snapshot_distance : history -> Z
}.

(** * limits *)

Record limits := mk_limits {
  pre_vote_rejection_limit_ : Z;
  warning_limit_ : Z;
  response_limit_ : Z;
  leadership_limit_ : Z;
  reconnect_limit_ : Z;
  leave_limit_ : Z;
  vote_limit_ : Z;
  busy_connection_limit_ : Z;
  full_consensus_leader_limit_ : Z;
  full_consensus_follower_limit_ : Z
}.

#[global] Instance eta_limits : Eta limits := fun r =>
  mk_limits (pre_vote_rejection_limit_ r) (warning_limit_ r) (response_limit_ r)
    (leadership_limit_ r) (reconnect_limit_ r) (leave_limit_ r)
    (vote_limit_ r) (busy_connection_limit_ r)
    (full_consensus_leader_limit_ r) (full_consensus_follower_limit_ r).

Definition limits_default : limits := mk_limits 20 20 20 20 50 5 5 20 4 2.

(** [operator=]: the last two fields are not copied. *)
Definition limits_assign (src dst : limits) : limits :=
  mk_limits (pre_vote_rejection_limit_ src) (warning_limit_ src) (response_limit_ src)
    (leadership_limit_ src) (reconnect_limit_ src) (leave_limit_ src) (vote_limit_ src)
    (busy_connection_limit_ src) (full_consensus_leader_limit_ dst)
    (full_consensus_follower_limit_ dst).

(** * pre_vote_status_t *)

Record pre_vote_status_t := mk_pre_vote {
  pv_term : Z;
  pv_done : bool;
  pv_live : Z;
  pv_dead : Z;
  pv_abandoned : Z;
  pv_connection_busy : Z;
  pv_quorum_reject_count : Z;
  pv_no_response_failure_count : Z;
  pv_busy_connection_failure_count : Z
}.

#[global] Instance eta_pre_vote_status_t : Eta pre_vote_status_t := fun r =>
  mk_pre_vote (pv_term r) (pv_done r) (pv_live r) (pv_dead r) (pv_abandoned r)
    (pv_connection_busy r) (pv_quorum_reject_count r)
    (pv_no_response_failure_count r) (pv_busy_connection_failure_count r).

Definition pre_vote_reset (term : Z) (p : pre_vote_status_t) : pre_vote_status_t :=
  mk_pre_vote term false 0 0 0 0 (pv_quorum_reject_count p)
    (pv_no_response_failure_count p) (pv_busy_connection_failure_count p).

Definition pre_vote_new : pre_vote_status_t := pre_vote_reset 0 (mk_pre_vote 0 false 0 0 0 0 0 0 0).

(** * commit_ret_elem *)

(** A client request that waits for its commit.  [cre_async_result_] is whether
    its result object exists; the awaiter of a blocked client is woken by an
    event. *)
Record commit_ret_elem := mk_commit_ret_elem {
  cre_idx_ : Z;
  cre_result_code_ : cmd_result_code;
  cre_ret_value_ : option buffer;
  cre_async_result_ : bool;
  cre_callback_invoked_ : bool
}.

#[global] Instance eta_commit_ret_elem : Eta commit_ret_elem := fun r =>
  mk_commit_ret_elem (cre_idx_ r) (cre_result_code_ r) (cre_ret_value_ r) (cre_async_result_ r)
    (cre_callback_invoked_ r).

(** * raft_server *)

(** [rand_timeout_]: the uniform distribution, or the constant set once when
    leadership is handed over. *)
Inductive rand_source := Rand_uniform | Rand_resign.

(** The fields of [raft_server], less threads, mutexes and awaiters.  Of
    [scheduler_] and [election_task_] only whether they are set is kept; the
    peers [srv_to_leave_] points to are in [peers_], so its id is kept; the
    watchers of the state machine are names.  [params_] are the
    parameters of the context; [raft_limits_] is static, as is [chk_timer_];
    [snp_io_queue_] is the queue of [snapshot_io_mgr] (peer ids). *)
Record raft_server {L : Type} := mk_raft_server {
  initialized_ : bool;
  leader_ : Z;
  id_ : Z;
  my_priority_ : Z;
  target_priority_ : Z;
  priority_change_timer_ : timer_helper;
  votes_responded_ : Z;
  votes_granted_ : Z;
  precommit_index_ : Z;
  leader_commit_index_ : Z;
  quick_commit_index_ : Z;
  sm_commit_index_ : Z;
  lagging_sm_target_index_ : Z;
  index_at_becoming_leader_ : Z;
  initial_commit_index_ : Z;
  hb_alive_ : bool;
  pre_vote_ : pre_vote_status_t;
  election_completed_ : bool;
  config_changing_ : bool;
  out_of_log_range_ : bool;
  data_fresh_ : bool;
  stopping_ : bool;
  write_paused_ : bool;
  sm_commit_paused_ : bool;
  next_leader_candidate_ : Z;
  reelection_timer_ : timer_helper;
  im_learner_ : bool;
  serving_req_ : bool;
  steps_to_down_ : Z;
  scheduler_ : bool;
  election_task_ : bool;
  last_election_timer_reset_ : timer_helper;
  peers_ : gmap Z peer;
  role_ : srv_role;
  state_ : srv_state;
  log_store_ : L;
  et_cnt_receiving_snapshot_ : Z;
  rand_timeout_ : rand_source;
  stale_config_ : option cluster_config;
  rs_config_ : cluster_config;
  uncommitted_config_ : option cluster_config;
  srv_to_join_ : option peer;
  srv_to_join_snp_retry_required_ : bool;
  srv_to_leave_ : option Z;
  srv_to_leave_target_idx_ : Z;
  commit_ret_elems_ : gmap Z commit_ret_elem;
  last_snapshot_ : option snapshot;
  leadership_transfer_timer_ : timer_helper;
  status_check_timer_ : timer_helper;
  vote_init_timer_ : timer_helper;
  vote_init_timer_term_ : Z;
  rs_self_mark_down_ : bool;
  excluded_from_the_quorum_ : bool;
  last_rcvd_valid_append_entries_req_ : timer_helper;
  last_rcvd_append_entries_req_ : timer_helper;
  sm_commit_notifier_target_idx_ : Z;
  sm_commit_notifier_notified_idx_ : Z;
  params_ : raft_params;
  raft_limits_ : limits;
  chk_timer_ : timer_helper;
  snp_io_queue_ : list Z;
  sm_watchers_ : gmap Z (list Z);
  snp_in_progress_ : bool;
  snp_creation_scheduled_ : bool;
  first_snapshot_distance_ : Z;
  now_ : Z;
  trace_ : history
}.

Arguments mk_raft_server {L}.

#[global] Instance eta_raft_server {L} : Eta (@raft_server L) := fun r =>
  mk_raft_server (initialized_ r) (leader_ r) (id_ r) (my_priority_ r)
    (target_priority_ r) (priority_change_timer_ r) (votes_responded_ r)
    (votes_granted_ r) (precommit_index_ r) (leader_commit_index_ r)
    (quick_commit_index_ r) (sm_commit_index_ r) (lagging_sm_target_index_ r)
    (index_at_becoming_leader_ r) (initial_commit_index_ r) (hb_alive_ r)
    (pre_vote_ r) (election_completed_ r) (config_changing_ r)
    (out_of_log_range_ r) (data_fresh_ r) (stopping_ r) (write_paused_ r)
    (sm_commit_paused_ r) (next_leader_candidate_ r) (reelection_timer_ r)
    (im_learner_ r) (serving_req_ r) (steps_to_down_ r) (scheduler_ r)
    (election_task_ r) (last_election_timer_reset_ r) (peers_ r) (role_ r)
    (state_ r) (log_store_ r) (et_cnt_receiving_snapshot_ r)
    (rand_timeout_ r) (stale_config_ r) (rs_config_ r)
    (uncommitted_config_ r) (srv_to_join_ r)
    (srv_to_join_snp_retry_required_ r) (srv_to_leave_ r)
    (srv_to_leave_target_idx_ r) (commit_ret_elems_ r) (last_snapshot_ r)
    (leadership_transfer_timer_ r) (status_check_timer_ r)
    (vote_init_timer_ r) (vote_init_timer_term_ r) (rs_self_mark_down_ r)
    (excluded_from_the_quorum_ r) (last_rcvd_valid_append_entries_req_ r)
    (last_rcvd_append_entries_req_ r) (sm_commit_notifier_target_idx_ r)
    (sm_commit_notifier_notified_idx_ r) (params_ r) (raft_limits_ r)
    (chk_timer_ r) (snp_io_queue_ r) (sm_watchers_ r) (snp_in_progress_ r)
    (snp_creation_scheduled_ r) (first_snapshot_distance_ r) (now_ r) (trace_ r).
Arguments raft_server L : clear implicits.

Section Server.
Context {L : Type} `{LS : LogStore L} `{EV : Env} `{U : Uninit}.

#[local] Abbreviation server := (raft_server L).
#[local] Abbreviation SM := (M (raft_server L)).

Definition self : SM server := fun s => (Ok s, s).

Definition emit (e : event) : SM unit := modify (fun s => s <| trace_ ::= cons e |>).

Definition when (c : bool) (m : SM unit) : SM unit := if c then m else ret tt.

(** A call of the user's callback about [peer] (-1: none). *)
Definition callback (t : cb_type) (peer : Z) : SM cb_return :=
  h <- gets trace_ ;;
  emit (Ev_callback t peer) ;;
  ret (cb_func h t peer).

Definition with_log {A} (m : M L A) : SM A := fun s =>
  let '(r, l) := m (log_store_ s) in (r, s <| log_store_ := l |>).

Definition save_state : SM unit :=
  st <- gets state_ ;; emit (Ev_save_state st).

Definition upd_state (f : srv_state -> srv_state) : SM unit :=
  modify (fun s => s <| state_ ::= f |>).

Definition system_exit (code : Z) : SM unit := emit (Ev_system_exit code).

(** ** Peers *)

Definition peer_list (s : server) : list peer := map snd (map_to_list (peers_ s)).

Definition upd_peer (pid : Z) (f : peer -> peer) : SM unit :=
  modify (fun s => s <| peers_ ::= alter f pid |>).

(** An operation of the peer [pid] with the effects it has outside it. *)
Definition on_peer (pid : Z) (f : peer -> peer * list peer_out) : SM unit :=
  modify (fun s =>
    match peers_ s !! pid with
    | None => s
    | Some p =>
        let '(p', out) := f p in
        s <| peers_ ::= <[ pid := p' ]> |> <| trace_ ::= app (rev (map (Ev_peer pid) out)) |>
    end).

(** A query of a peer that may update it; [d] if the peer is gone. *)
Definition ask_peer {A} (pid : Z) (d : A) (f : peer -> A * peer) : SM A := fun s =>
  match peers_ s !! pid with
  | None => (Ok d, s)
  | Some p => let '(a, p') := f p in (Ok a, s <| peers_ ::= <[ pid := p' ]> |>)
  end.

Fixpoint for_all (ids : list Z) (f : Z -> SM unit) : SM unit :=
  match ids with [] => ret tt | i :: ids' => f i ;; for_all ids' f end.

(** [for (auto& entry: peers_)], in the order of the map. *)
Definition for_peers (f : Z -> SM unit) : SM unit :=
  s <- self ;; for_all (map fst (map_to_list (peers_ s))) f.

(** [p->send_req(p, req, handler, streaming)] *)
Definition peer_send (pid : Z) (req : req_msg) (h : rpc_handler) (streaming : bool) : SM unit :=
  fun s =>
    match peers_ s !! pid with
    | None => (Ok tt, s)
    | Some p =>
        match send_req req h streaming p with
        | Throw e => (Throw e, s)
        | Ok (p', out) =>
            (Ok tt, s <| peers_ ::= <[ pid := p' ]> |>
                      <| trace_ ::= app (rev (map (Ev_peer pid) out)) |>)
        end
    end.

(** ** Quorums *)

Definition is_regular_member (s : server) (p : peer) : bool :=
  negb (bool_decide (srv_to_leave_ s = Some (p_id p)))
  && negb (is_learner p) && negb (is_new_joiner p).

Definition get_num_voting_members (s : server) : Z :=
  zlen (filter (fun p => is_regular_member s p) (peer_list s))
  + (if im_learner_ s then 0 else 1).

Definition get_quorum_for_election (s : server) : Z :=
  let c := custom_election_quorum_size_ (params_ s) in
  let n := get_num_voting_members s in
  if (c <=? 0) || (n <? c) then n / 2 else c - 1.

(** Every peer that receives a snapshot lowers the count, down to 0. *)
Definition without_snp_receivers (s : server) (n : Z) : Z :=
  fold_left (fun n p => if negb (n =? 0) && is_some (snp_sync_ctx_ p) then n - 1 else n)
    (peer_list s) n.

Definition get_quorum_for_commit (s : server) : Z :=
  let c := custom_commit_quorum_size_ (params_ s) in
  let n := get_num_voting_members s in
  let n := if exclude_snp_receiver_from_quorum_ (params_ s) then without_snp_receivers s n else n in
  if (c <=? 0) || (n <? c) then n / 2 else c - 1.

Definition get_leadership_expiry (s : server) : Z :=
  if leadership_expiry_ (params_ s) =? 0
  then s32 (heart_beat_interval_ (params_ s) * leadership_limit_ (raft_limits_ s))
  else leadership_expiry_ (params_ s).

(** [static_cast<int32>(get_resp_timer_us() / 1000)] *)
Definition resp_elapsed_ms (s : server) (p : peer) : Z :=
  s32 (Z.quot (get_resp_timer_us (now_ s) p) 1000).

Definition voting_peers (s : server) : list peer :=
  filter (fun p => is_regular_member s p) (peer_list s).

Definition default_expiry (s : server) (expiry : Z) : Z :=
  if expiry =? 0 then s32 (heart_beat_interval_ (params_ s) * response_limit_ (raft_limits_ s))
  else expiry.

Definition get_not_responding_peers (s : server) (expiry : Z) : list peer :=
  filter (fun p => default_expiry s expiry < resp_elapsed_ms s p) (voting_peers s).

Definition is_excluded_from_quorum (p : peer) (elapsed_ms expiry required_log_idx : Z)
    (include_self_mark_down : bool) : bool :=
  if elapsed_ms <=? expiry then
    (negb (required_log_idx =? 0)
     && ((negb (matched_idx_ p =? 0) && (matched_idx_ p <? required_log_idx))
         || is_some (snp_sync_ctx_ p)))
    || (include_self_mark_down && self_mark_down_ p)
  else true.

Definition get_not_responding_peers_count (s : server) (expiry required_log_idx : Z) : Z :=
  zlen (filter (fun p => is_excluded_from_quorum p (resp_elapsed_ms s p)
                           (default_expiry s expiry) required_log_idx true)
          (voting_peers s)).

Definition get_last_log_idx (s : server) : Z := u64 (next_slot (log_store_ s) - 1).

Definition get_num_stale_peers (s : server) : Z :=
  if negb (leader_ s =? id_ s) then 0
  else zlen (filter (fun p => u64 (last_accepted_log_idx_ p + stale_log_gap_ (params_ s))
                              < get_last_log_idx s) (peer_list s)).

Definition is_leader (s : server) : bool :=
  (leader_ s =? id_ s) && bool_decide (role_ s = leader).

Definition is_leader_alive (s : server) : bool := negb (leader_ s =? -1) && hb_alive_ s.

(** ** Log and configuration *)

Definition term_for_log (log_idx : Z) : SM Z :=
  s <- self ;;
  if log_idx =? 0 then ret 0
  else if start_index (log_store_ s) <=? log_idx then with_log (term_at log_idx)
  else
    match sm_last_snapshot (trace_ s) with
    | Some snp =>
        if log_idx =? snp_last_log_idx snp then ret (snp_last_log_term snp) else ret 0
    | None => ret 0
    end.

Definition set_server_config (c : cluster_config) : SM unit :=
  modify (fun s => s <| stale_config_ := Some (rs_config_ s) |> <| rs_config_ := c |>).

(** Without interference the first compare-and-exchange succeeds. *)
Definition try_update_precommit_index (desired : Z) : SM bool :=
  modify (fun s => if precommit_index_ s <? desired then s <| precommit_index_ := desired |>
                   else s) ;;
  ret true.

Definition N21_log_flush_failed : Z := -21.

Definition N22_unrecoverable_isolation : Z := -22.

Definition N8_peer_last_log_idx_too_large : Z := -8.

Definition store_log_entry (entry : log_entry) (index : Z) : SM Z :=
  log_index <- (if index =? 0 then with_log (append entry)
                else with_log (write_at index entry) ;; ret index) ;;
  when (bool_decide (le_value_type entry = conf)) (
    ok <- with_log flush ;;
    when (negb ok) (system_exit N21_log_flush_failed) ;;
    s <- self ;;
    when (bool_decide (role_ s = leader)) (try_update_precommit_index log_index ;; ret tt)) ;;
  ret log_index.

(** ** Timers *)

Definition schedule_task (t : task) (ms : Z) : SM unit :=
  s <- self ;;
  when (negb (stopping_ s)) (
    when (negb (scheduler_ s)) (modify (fun s => s <| scheduler_ := ctx_scheduler |>)) ;;
    s <- self ;;
    when (scheduler_ s) (emit (Ev_schedule t ms))).

Definition cancel_task (t : task) : SM unit :=
  s <- self ;; when (scheduler_ s) (emit (Ev_cancel t)).

Definition draw_timeout : SM Z :=
  s <- self ;;
  ret (match rand_timeout_ s with
       | Rand_uniform => rand_timeout (trace_ s)
       | Rand_resign => s32 (election_timeout_upper_bound_ (params_ s)
                             + election_timeout_lower_bound_ (params_ s))
       end).

Definition restart_election_timer : SM unit :=
  s <- self ;;
  if catching_up_ (state_ s) || bool_decide (role_ s = leader) then ret tt
  else
    when (negb (election_timer_allowed_ (state_ s)))
      (upd_state (allow_election_timer true) ;; save_state) ;;
    (if election_task_ s then cancel_task Election_task
     else modify (fun s => s <| election_task_ := true |>)) ;;
    modify (fun s => s <| last_election_timer_reset_ ::= timer_reset (now_ s) 0 |>) ;;
    ms <- draw_timeout ;;
    schedule_task Election_task ms.

Definition stop_election_timer : SM unit :=
  s <- self ;; when (election_task_ s) (cancel_task Election_task).

Definition enable_hb_for_peer (pid : Z) : SM unit :=
  on_peer pid (enable_hb true) ;;
  upd_peer pid resume_hb_speed ;;
  s <- self ;;
  match peers_ s !! pid with
  | Some p => schedule_task (Heartbeat_task pid) (current_hb_interval_ p)
  | None => ret tt
  end.

(** ** Snapshot contexts and removal of peers *)

Definition clear_snapshot_sync_ctx (pid : Z) : SM unit :=
  s <- self ;;
  match peers_ s !! pid with
  | None => ret tt
  | Some p =>
      match snp_sync_ctx_ p with
      | Some c => emit (Ev_free_user_snp_ctx (ssc_user_snp_ctx c))
      | None => ret tt
      end ;;
      upd_peer pid (set_snapshot_in_sync (now_ s) None (10 * 1000))
  end.

Definition check_snapshot_timeout (pid : Z) : SM bool :=
  s <- self ;;
  match peers_ s !! pid with
  | None => ret false
  | Some p =>
      match snp_sync_ctx_ p with
      | None => ret false
      | Some c =>
          let '(fired, t) := timeout (now_ s) (ssc_timer c) in
          upd_peer pid (fun p => p <| snp_sync_ctx_ := Some (c <| ssc_timer := t |>) |>) ;;
          if fired then clear_snapshot_sync_ctx pid ;; ret true else ret false
      end
  end.

Definition remove_peer_from_peers (pid : Z) : SM unit :=
  on_peer pid (enable_hb false) ;;
  clear_snapshot_sync_ctx pid ;;
  modify (fun s => s <| peers_ ::= delete pid |>).

(** The peer shut down is out of [peers_] already, but for a shut down of the
    whole server. *)
Definition reset_srv_to_leave : SM unit :=
  s <- self ;;
  match srv_to_leave_ s with
  | Some pid => upd_peer pid shutdown
  | None => throw Undefined
  end ;;
  modify (fun s => s <| srv_to_leave_ := None |> <| srv_to_leave_target_idx_ := 0 |>).

Definition check_srv_to_leave_timeout : SM unit :=
  s <- self ;;
  match srv_to_leave_ s with
  | None => ret tt
  | Some pid =>
      match peers_ s !! pid with
      | None => ret tt
      | Some p =>
          let last_resp_ms := Z.quot (get_resp_timer_us (now_ s) p) 1000 in
          when (leave_limit_ (raft_limits_ s) * heart_beat_interval_ (params_ s) <? last_resp_ms)
            (remove_peer_from_peers pid ;; reset_srv_to_leave)
      end
  end.

(** Pending client requests are answered [CANCELLED]: blocked clients are woken,
    and the other ones are given a result. *)
Definition cancel_async (e : commit_ret_elem) : SM unit :=
  if cre_async_result_ e then emit (Ev_client_result (cre_idx_ e) CANCELLED None) else throw Undefined.

Fixpoint cancel_all_async (l : list commit_ret_elem) : SM unit :=
  match l with [] => ret tt | e :: l' => cancel_async e ;; cancel_all_async l' end.

Definition drop_all_pending_commit_elems : SM unit :=
  s <- self ;;
  if bool_decide (return_method_ (params_ s) = blocking) then
    for_all (map (fun e => cre_idx_ (snd e)) (map_to_list (commit_ret_elems_ s)))
      (fun i => emit (Ev_client_result i CANCELLED None)) ;;
    modify (fun s => s <| commit_ret_elems_ := ∅ |>)
  else
    modify (fun s => s <| commit_ret_elems_ := ∅ |>) ;;
    cancel_all_async (map snd (map_to_list (commit_ret_elems_ s))).

(** ** Priorities *)

Definition decay_target_priority : SM unit :=
  modify (fun s =>
    let gap := Z.max 10 (Z.quot (target_priority_ s) 5) in
    let prev_priority := target_priority_ s in
    let s := s <| target_priority_ := Z.max 1 (target_priority_ s - gap) |> in
    if 1 <? prev_priority then s <| priority_change_timer_ ::= timer_reset (now_ s) 0 |> else s).

Definition max_peer_priority (s : server) : Z :=
  fold_left (fun m p => Z.max m (sc_priority (config_ p))) (peer_list s) (my_priority_ s).

Definition update_target_priority : SM unit :=
  modify (fun s =>
    let m := max_peer_priority s in
    s <| target_priority_ := if 0 <? m then m else INIT_PRIORITY |>
      <| priority_change_timer_ ::= timer_reset (now_ s) 0 |>
      <| hb_alive_ := true |>
      <| pre_vote_ ::= pre_vote_reset (term_ (state_ s)) |>).

Definition check_cond_for_zp_election (s : server) : bool :=
  allow_temporary_zero_priority_leader_ (params_ s) && (target_priority_ s =? 1)
  && (my_priority_ s =? 0)
  && (heart_beat_interval_ (params_ s) * 20 <? get_ms (now_ s) (priority_change_timer_ s)).

(** ** Roles and terms *)

Definition set_quorum_sizes (n : Z) (p : raft_params) : raft_params :=
  p <| custom_commit_quorum_size_ := n |> <| custom_election_quorum_size_ := n |>.

Definition become_follower : SM unit :=
  for_peers (fun pid => on_peer pid (enable_hb false) ;; upd_peer pid reset_stream) ;;
  modify (fun s => s <| srv_to_join_ := None |> <| role_ := follower |>
                     <| index_at_becoming_leader_ := 0 |>) ;;
  callback BecomeFollower (-1) ;;
  modify (fun s => s <| write_paused_ := false |> <| next_leader_candidate_ := -1 |>
                     <| initialized_ := true |> <| uncommitted_config_ := None |>
                     <| pre_vote_ ::= fun v => v <| pv_quorum_reject_count := 0 |>
                                                 <| pv_no_response_failure_count := 0 |> |>) ;;
  s <- self ;;
  when (auto_adjust_quorum_for_small_cluster_ (params_ s) && (zlen (peer_list s) =? 1)
        && (custom_commit_quorum_size_ (params_ s) =? 1))
    (modify (fun s => s <| params_ ::= set_quorum_sizes 0 |>)) ;;
  drop_all_pending_commit_elems ;;
  restart_election_timer.

Definition update_term (term : Z) : SM bool :=
  s <- self ;;
  if term_ (state_ s) <? term then
    modify (fun s => s <| role_ := follower |>) ;;
    upd_state (set_term term) ;;
    upd_state (set_voted_for (-1)) ;;
    upd_state (allow_election_timer true) ;;
    modify (fun s => s <| election_completed_ := false |> <| votes_granted_ := 0 |>
                       <| votes_responded_ := 0 |>) ;;
    save_state ;;
    become_follower ;;
    ret true
  else ret false.

(** ** Commit index *)

Definition get_current_leader_index (s : server) : Z :=
  if parallel_log_appending_ (params_ s)
  then Z.min (precommit_index_ s) (last_durable_index (log_store_ s))
  else precommit_index_ s.

(** The leader's index, then those of the voting peers. *)
Definition matched_indexes (s : server) : list Z :=
  get_current_leader_index s :: map matched_idx_ (voting_peers s).

Definition peer_index_map (s : server) : gmap Z Z :=
  fold_left (fun m p => <[ p_id p := matched_idx_ p ]> m) (peer_list s)
    {[ id_ s := get_current_leader_index s ]}.

Definition allowed_log_index (s : server) : Z :=
  if max_append_size_ (params_ s) <? quick_commit_index_ s
  then quick_commit_index_ s - max_append_size_ (params_ s) else 0.

Definition quorum_idx (s : server) : Z :=
  let quorum_idx := get_quorum_for_commit s in
  if use_full_consensus_among_healthy_members_ (params_ s)
     && (custom_commit_quorum_size_ (params_ s) =? 0) then
    let allowed_interval :=
      s32 (heart_beat_interval_ (params_ s) * full_consensus_leader_limit_ (raft_limits_ s)) in
    let not_responding_peers :=
      get_not_responding_peers_count s allowed_interval (allowed_log_index s) in
    if not_responding_peers <? u64 (get_num_voting_members s - quorum_idx)
    then get_num_voting_members s - not_responding_peers - 1
    else quorum_idx
  else quorum_idx.

(** Sorted in descending order; [matched_indexes[quorum_idx]]. *)
Definition get_expected_committed_log_idx : SM Z :=
  s <- self ;;
  match merge_sort Z.ge (matched_indexes s) !! Z.to_nat (quorum_idx s) with
  | Some i => ret (sm_adjust_commit_index (trace_ s) (quick_commit_index_ s) i (peer_index_map s))
  | None => throw Undefined
  end.

End Server.
