(* ===== verification/Replication.v ===== *)
(** The leader's side of replication: handle_append_entries.cc (sending), the
    snapshot requests of handle_snapshot_sync.cc and [commit] of
    handle_commit.cc. *)
From S2P Require Import Prelude Buffer Serializer Codec Messages Peer LogStore Server.

Section Replication.
Context {L : Type} `{LS : LogStore L} `{EV : Env} `{U : Uninit}.

#[local] Abbreviation server := (raft_server L).
#[local] Abbreviation SM := (M (raft_server L)).

(** [system_exit(code); _sys_exit(-1)] *)
Definition fatal {A} (code : Z) : SM A := system_exit code ;; throw Sys_exit.

(** The peer, which is in the map while the lock is held. *)
Definition peer_at (pid : Z) : SM peer := fun s =>
  match peers_ s !! pid with Some p => (Ok p, s) | None => (Throw Undefined, s) end.

(** ** Snapshot requests *)

Definition N16_snapshot_for_peer_not_found : Z := -16.

Definition N17_empty_snapshot : Z := -17.

Definition N18_partial_snapshot_block : Z := -18.

Definition default_snapshot_sync_block_size : Z := 4 * 1024.

Definition get_snapshot_sync_block_size (s : server) : Z :=
  let b := snapshot_block_size_ (params_ s) in
  if b =? 0 then default_snapshot_sync_block_size else b.

Definition get_snapshot_sync_ctx_timeout (s : server) : Z :=
  if snapshot_sync_ctx_timeout_ (params_ s) =? 0
  then s32 (response_limit_ (raft_limits_ s) * heart_beat_interval_ (params_ s))
  else snapshot_sync_ctx_timeout_ (params_ s).

(** The context kept from the previous request, unless its timer fired. *)
Definition previous_sync_ctx (pid : Z) : SM (option snapshot_sync_ctx) :=
  s <- self ;;
  p <- peer_at pid ;;
  match snp_sync_ctx_ p with
  | None => ret None
  | Some c =>
      let '(fired, t) := timeout (now_ s) (ssc_timer c) in
      let c := c <| ssc_timer := t |> in
      upd_peer pid (fun p => p <| snp_sync_ctx_ := Some c |>) ;;
      if fired then emit (Ev_free_user_snp_ctx (ssc_user_snp_ctx c)) ;; ret None
      else ret (Some c)
  end.

(** The snapshot to send: that of a transfer under way, or the last one.  A
    null last snapshot is dereferenced for the error message. *)
Definition snapshot_to_sync (pid last_log_idx : Z) (sync_ctx : option snapshot_sync_ctx)
  : SM snapshot :=
  let under_way :=
    match sync_ctx with
    | Some c => if ssc_offset c =? 0 then None else Some (ssc_snapshot c)
    | None => None
    end in
  match under_way with
  | Some snp => ret snp
  | None =>
      s <- self ;;
      match last_snapshot_ s with
      | None => throw Undefined
      | Some snp =>
          if snp_last_log_idx snp <? last_log_idx then fatal N16_snapshot_for_peer_not_found
          else if bool_decide (snp_kind snp = raw_binary) && (snp_size snp <? 1)
          then fatal N17_empty_snapshot
          else
            match sync_ctx with
            | Some c => emit (Ev_free_user_snp_ctx (ssc_user_snp_ctx c))
            | None => ret tt
            end ;;
            upd_peer pid (set_snapshot_in_sync (now_ s) (Some snp)
                            (u64 (get_snapshot_sync_ctx_timeout s))) ;;
            ret snp
      end
  end.

(** One block of a raw snapshot, or one object of a logical one: its index,
    its data and whether it is the last; [None] if the object cannot be read. *)
Definition read_snapshot_object (pid : Z) (snp : snapshot)
  : SM (option (Z * option buffer * bool)) :=
  s <- self ;;
  p <- peer_at pid ;;
  match snp_sync_ctx_ p with
  | None => throw Undefined
  | Some c =>
      if bool_decide (snp_kind snp = raw_binary) then
        let offset := ssc_offset c in
        let sz_left := if offset <? snp_size snp then snp_size snp - offset else 0 in
        data <- lift (alloc (Z.min (u64 (get_snapshot_sync_block_size s)) sz_left)) ;;
        let '(sz_rd, data) := sm_read_snapshot_data (trace_ s) snp offset data in
        if u64 sz_rd <? size data then fatal N18_partial_snapshot_block
        else ret (Some (offset, Some data, snp_size snp <=? u64 (offset + size data)))
      else
        let obj_idx := ssc_offset c in
        let '(rc, user_snp_ctx, data, last_request) :=
          sm_read_logical_snp_obj (trace_ s) snp (ssc_user_snp_ctx c) obj_idx in
        upd_peer pid (fun p => p <| snp_sync_ctx_ := Some (c <| ssc_user_snp_ctx := user_snp_ctx |>) |>) ;;
        if rc <? 0 then clear_snapshot_sync_ctx pid ;; ret None
        else ret (Some (obj_idx, option_map (fun b => run_state (set_pos 0) b) data, last_request))
  end.

Definition create_sync_snapshot_req (pid last_log_idx term commit_idx : Z)
  : SM (option req_msg) :=
  sync_ctx <- previous_sync_ctx pid ;;
  snp <- snapshot_to_sync pid last_log_idx sync_ctx ;;
  s <- self ;;
  if use_bg_thread_for_snapshot_io_ (params_ s) then
    modify (fun s => if bool_decide (pid ∈ snp_io_queue_ s) then s
                     else s <| snp_io_queue_ ::= fun q => q ++ [pid] |>) ;;
    ret None
  else
    obj <- read_snapshot_object pid snp ;;
    match obj with
    | None => ret None
    | Some (_, None, _) => throw Undefined
    | Some (data_idx, Some data, last_request) =>
        b <- lift (snapshot_sync_req_serialize
                     (mk_snapshot_sync_req snp data_idx data last_request)) ;;
        let req := req_msg_new term install_snapshot_request (id_ s) pid
                     (snp_last_log_term snp) (snp_last_log_idx snp) commit_idx in
        ret (Some (req <| rq_log_entries :=
                     [log_entry_new term (Some b) snp_sync_req 0 false 0 true] |>))
    end.

(** ** create_append_entries_req *)

(** Entries [[last_log_idx + 1, end_idx)], fewer on the fifth retry of one. *)
Definition end_of_batch (pid last_log_idx cur_nxt_idx : Z) : SM Z :=
  s <- self ;;
  p <- peer_at pid ;;
  let end_idx := Z.min cur_nxt_idx (u64 (last_log_idx + 1 + max_append_size_ (params_ s))) in
  if (u64 (last_log_idx + 1) =? last_sent_idx_ p) && (u64 (last_log_idx + 2) <? end_idx) then
    cur_cnt <- ask_peer pid 0 inc_cnt_not_applied ;;
    ret (if 5 <=? cur_cnt then Z.min cur_nxt_idx (u64 (last_log_idx + 1 + 1)) else end_idx)
  else
    upd_peer pid reset_cnt_not_applied ;;
    ret end_idx.

(** [EXCLUDED_FROM_THE_QUORUM] for a peer that full consensus leaves out. *)
Definition exclusion_flags (s : server) (p : peer) : Z :=
  if use_full_consensus_among_healthy_members_ (params_ s)
     && is_excluded_from_quorum p (Z.quot (get_resp_timer_us (now_ s) p) 1000)
          (heart_beat_interval_ (params_ s) * full_consensus_leader_limit_ (raft_limits_ s))
          (allowed_log_index s) false
  then EXCLUDED_FROM_THE_QUORUM else 0.

(** The notification for a follower that neither log nor snapshot serves. *)
Definition out_of_log_range_req (pid term last_log_idx commit_idx starting_idx : Z)
  : SM (option req_msg) :=
  s <- self ;;
  ctx <- lift (out_of_log_serialize starting_idx) ;;
  b <- lift (noti_serialize (mk_noti out_of_log_range_warning (Some ctx))) ;;
  let req := req_msg_new term custom_notification_request (id_ s) pid 0 last_log_idx commit_idx in
  ret (Some (req <| rq_log_entries := [log_entry_new 0 (Some b) custom 0 false 0 true] |>)).

Definition create_append_entries_req (pid custom_last_log_idx : Z) : SM (option req_msg) :=
  s <- self ;;
  let starting_idx := start_index (log_store_ s) in
  let cur_nxt_idx := u64 (precommit_index_ s + 1) in
  let commit_idx := quick_commit_index_ s in
  let term := term_ (state_ s) in
  upd_peer pid (fun p => if next_log_idx_ p =? 0 then set_next_log_idx cur_nxt_idx p else p) ;;
  p <- peer_at pid ;;
  let last_log_idx :=
    if 0 <? custom_last_log_idx then custom_last_log_idx else u64 (next_log_idx_ p - 1) in
  if cur_nxt_idx <=? last_log_idx then fatal N8_peer_last_log_idx_too_large
  else
    let entries_valid :=
      (starting_idx <=? u64 (last_log_idx + 1)) && negb (snapshot_sync_is_needed_ p) in
    end_idx <- end_of_batch pid last_log_idx cur_nxt_idx ;;
    log_entries <-
      (if cur_nxt_idx <=? u64 (last_log_idx + 1) then ret (Some [])
       else if entries_valid then
         with_log (log_entries_ext (u64 (last_log_idx + 1)) end_idx
                     (next_batch_size_hint_in_bytes_ p))
       else ret (Some [])) ;;
    if negb (entries_valid && is_some log_entries) then
      match last_snapshot_ s with
      | Some snp =>
          if snapshot_sync_is_needed_ p
             || ((last_log_idx <? starting_idx) && (last_log_idx <? snp_last_log_idx snp))
          then create_sync_snapshot_req pid last_log_idx term commit_idx
          else out_of_log_range_req pid term last_log_idx commit_idx starting_idx
      | None => out_of_log_range_req pid term last_log_idx commit_idx starting_idx
      end
    else
      last_log_term <- term_for_log last_log_idx ;;
      upd_peer pid (set_last_sent_idx (u64 (last_log_idx + 1))) ;;
      p <- peer_at pid ;;
      let req := req_msg_new term append_entries_request (id_ s) pid
                   last_log_term last_log_idx commit_idx in
      ret (Some (req <| rq_log_entries := default [] log_entries |>
                     <| rq_extra_flags := exclusion_flags s p |>)).

(** ** Sending *)

Definition reconnect_client (pid : Z) : SM bool :=
  s <- self ;;
  if stopping_ s then ret false
  else
    p <- peer_at pid ;;
    s_config <- (match get_server (rs_config_ s) pid with
                 | Some c => ret (Some c)
                 | None =>
                     if leave_requested_ p then
                       b <- lift (srv_config_serialize (config_ p)) ;;
                       c <- lift (from_buf srv_config_deserialize b) ;;
                       ret (Some c)
                     else ret None
                 end) ;;
    match s_config with
    | Some c =>
        ask_peer pid false
          (recreate_rpc (now_ s) has_factory reconn_backoff_disabled
             (create_client (trace_ s) (sc_endpoint c)))
    | None => ret false
    end.

Definition send_request (pid : Z) (msg : req_msg) (h : rpc_handler) (streaming : bool)
  : SM bool :=
  s <- self ;;
  p <- peer_at pid ;;
  (if manual_free_ p then upd_peer pid reset_manual_free
   else
     when (warning_limit_ (raft_limits_ s) <=? long_pause_warnings_ p)
       (upd_peer pid inc_recovery_cnt ;;
        upd_peer pid (fun p => if 10 <=? network_recoveries_ p then reset_recovery_cnt p else p)) ;;
     upd_peer pid reset_long_pause_warnings) ;;
  peer_send pid msg h streaming ;;
  upd_peer pid (reset_ls_timer (now_ s)) ;;
  callback SentAppendEntriesReq pid ;;
  p <- peer_at pid ;;
  when (bool_decide (srv_to_leave_ s = Some pid)
        && (srv_to_leave_target_idx_ s <=? rq_commit_idx msg) && negb (stepping_down_ p))
    (upd_peer pid step_down) ;;
  ret true.

(** [commit], given the function that sends to one peer. *)
Definition commit_with (request : Z -> SM bool) (target_idx : Z) : SM unit :=
  s <- self ;;
  when (quick_commit_index_ s <? target_idx)
    (modify (fun s => s <| quick_commit_index_ := target_idx |>
                        <| lagging_sm_target_index_ := target_idx |>) ;;
     when (bool_decide (role_ s = leader))
       (for_peers (fun pid =>
          p <- peer_at pid ;;
          if track_peers_sm_commit_idx_ (params_ s) && (target_idx <=? sm_committed_idx_ p)
          then ret tt
          else
            sent <- request pid ;;
            when (negb sent) (upd_peer pid set_pending_commit)))) ;;
  s <- self ;;
  if (sm_commit_index_ s <? get_last_log_idx s) && (sm_commit_index_ s <? quick_commit_index_ s)
  then emit Ev_wake_commit
  else
    when (bool_decide (role_ s = follower) && negb (data_fresh_ s)
          && (leader_commit_index_ s <? u64 (sm_commit_index_ s + fresh_log_gap_ (params_ s))))
      (modify (fun s => s <| data_fresh_ := true |>) ;;
       callback BecomeFresh (-1) ;; ret tt).

(** The 2-node adjustment of [request_append_entries], which may commit. *)
Definition adjust_quorum (commit : Z -> SM unit) (pid : Z) : SM unit :=
  s <- self ;;
  let params := params_ s in
  let not_responding := get_not_responding_peers_count s 0 0 in
  let stale := get_num_stale_peers s in
  if 1 <=? get_quorum_for_commit s then
    when (negb (not_responding =? 0) || negb (stale =? 0))
      (rc <- callback AutoAdjustQuorum pid ;;
       when (bool_decide (rc = Cb_Ok))
         (modify (fun s => s <| params_ := set_quorum_sizes 1 params |>) ;;
          s <- self ;;
          commit (get_current_leader_index s)))
  else
    when ((not_responding =? 0) && (stale =? 0) && (custom_commit_quorum_size_ params =? 1))
      (modify (fun s => s <| params_ := set_quorum_sizes 0 params |>)).

(** Reconnects when asked or inactive for long, forgetting the indices. *)
Definition reconnect_if_needed (pid : Z) : SM unit :=
  s <- self ;;
  need <- ask_peer pid false (need_to_reconnect (now_ s)) ;;
  p <- peer_at pid ;;
  let last_active_time_ms := s32 (Z.quot (get_active_timer_us (now_ s) p) 1000) in
  need <- (if s32 (heart_beat_interval_ (params_ s) * reconnect_limit_ (raft_limits_ s))
              <? last_active_time_ms then
             if bool_decide (srv_to_leave_ s = Some pid) then ret need
             else upd_peer pid (reset_active_timer (now_ s)) ;; ret true
           else ret need) ;;
  when need
    (reconnected <- reconnect_client pid ;;
     upd_peer pid (fun p =>
       clear_reconnection
         (if reconnected && negb (next_log_idx_ p =? 0)
          then set_matched_idx 0 (set_next_log_idx 0 p) else p))).

(** The peer is busy: warn when it has been for too long. *)
Definition skip_busy_peer (pid : Z) : SM bool :=
  check_snapshot_timeout pid ;;
  s <- self ;;
  p <- peer_at pid ;;
  when (heart_beat_interval_ (params_ s)
        <? s32 (Z.quot (get_us (now_ s) (last_sent_timer_ p)) 1000))
    (upd_peer pid inc_long_pause_warnings) ;;
  ret false.

(** Throttling of the stream mode: whether to go on streaming. *)
Definition stream_allowed (s : server) (p : peer) (last_streamed_log_idx : Z) : bool :=
  let max_stream_bytes := Z.max 0 (max_bytes_in_flight_in_stream_ (params_ s)) in
  negb ((u64 (max_log_gap_in_stream_ (params_ s) + next_log_idx_ p)
         <=? u64 (last_streamed_log_idx + 1))
        || (negb (max_stream_bytes =? 0) && (max_stream_bytes <? bytes_in_flight_ p))).

(** Sends the next entries if the peer is free or the stream mode is on. *)
Definition send_entries (pid : Z) : SM bool :=
  s <- self ;;
  p <- peer_at pid ;;
  let disable := (0 <? last_streamed_log_idx_ p) && (max_log_gap_in_stream_ (params_ s) =? 0) in
  let last_streamed_log_idx := if disable then 0 else last_streamed_log_idx_ p in
  when disable (upd_peer pid reset_stream) ;;
  let streaming := 0 <? last_streamed_log_idx in
  go <- (if streaming then ret true else ask_peer pid false make_busy) ;;
  if negb go then skip_busy_peer pid
  else
    msg <- create_append_entries_req pid last_streamed_log_idx ;;
    match msg with
    | Some msg =>
        let streaming := streaming && bool_decide (rq_type msg = append_entries_request) in
        p <- peer_at pid ;;
        s <- self ;;
        if streaming then
          if stream_allowed s p last_streamed_log_idx then
            upd_peer pid (set_last_streamed_log_idx last_streamed_log_idx
              (u64 (last_streamed_log_idx + zlen (rq_log_entries msg)))) ;;
            send_request pid msg resp_handler_ true
          else if busy_flag_ p then send_request pid msg resp_handler_ false
          else skip_busy_peer pid
        else
          busy <- (if busy_flag_ p then ret true else ask_peer pid false make_busy) ;;
          if busy then send_request pid msg resp_handler_ false else skip_busy_peer pid
    | None =>
        when (negb streaming) (upd_peer pid set_free) ;;
        s <- self ;;
        p <- peer_at pid ;;
        when (use_bg_thread_for_snapshot_io_ (params_ s) && is_some (snp_sync_ctx_ p))
          (emit Ev_wake_snapshot_io) ;;
        ret true
    end.

(** [request_append_entries(p)].  Only [commit] inside the 2-node adjustment
    calls it again; [fuel] bounds that nesting. *)
Fixpoint request_append_entries_to (fuel : nat) (pid : Z) : SM bool :=
  s <- self ;;
  if negb (bool_decide (role_ s = leader)) then ret false
  else
    rc <- callback RequestAppendEntries pid ;;
    if bool_decide (rc = Cb_ReturnNull) then ret true
    else
      s <- self ;;
      when (auto_adjust_quorum_for_small_cluster_ (params_ s) && (get_num_voting_members s =? 2))
        (let '(fired, t) := timeout_and_reset (now_ s) (chk_timer_ s) in
         modify (fun s => s <| chk_timer_ := t |>) ;;
         when fired
           (match fuel with
            | O => ret tt
            | S fuel' => adjust_quorum (commit_with (request_append_entries_to fuel')) pid
            end)) ;;
      reconnect_if_needed pid ;;
      q <- gets snp_io_queue_ ;;
      if use_bg_thread_for_snapshot_io_ (params_ s) && bool_decide (pid ∈ q)
      then ret true
      else
        p <- peer_at pid ;;
        match rsv_msg_ p with
        | Some msg =>
            free <- ask_peer pid false make_busy ;;
            if free then
              upd_peer pid (set_rsv_msg None None) ;;
              send_request pid msg (default resp_handler_ (rsv_msg_handler_ p)) false
            else skip_busy_peer pid
        | None => send_entries pid
        end.

(** Nested once, the timer of the adjustment has just been reset. *)
Definition request_append_entries_peer (pid : Z) : SM bool := request_append_entries_to 1 pid.

Definition commit (target_idx : Z) : SM unit :=
  commit_with request_append_entries_peer target_idx.

Definition request_append_entries : SM unit :=
  s <- self ;;
  if (zlen (peer_list s) =? 0) || (get_quorum_for_commit s =? 0)
  then commit (get_current_leader_index s)
  else for_peers (fun pid => request_append_entries_peer pid ;; ret tt).

End Replication.
