(* ===== verification/Election.v ===== *)
(** Leader election: handle_vote.cc, the election timer of handle_timeout.cc,
    and [become_leader], [yield_leadership] and the dispatch of requests and
    responses of raft_server.cc. *)
From S2P Require Import Prelude Buffer Serializer Codec Messages Peer LogStore Server.
From S2P Require Import Replication.

Section Election.
Context {L : Type} `{LS : LogStore L} `{EV : Env} `{U : Uninit}.

#[local] Abbreviation server := (raft_server L).
#[local] Abbreviation SM := (M (raft_server L)).

(** ** Leadership *)

(** The last configuration in the entries [ii, ii + n), or [c]. *)
Fixpoint last_config_in (n : nat) (ii : Z) (c : cluster_config) : SM cluster_config :=
  match n with
  | O => ret c
  | S n' =>
      le <- with_log (entry_at ii) ;;
      match le with
      | None => throw Undefined
      | Some e =>
          if bool_decide (le_value_type e = conf) then
            b <- lift (get_entry_buf e) ;;
            c' <- lift (from_buf cluster_config_deserialize b) ;;
            last_config_in n' (u64 (ii + 1)) c'
          else last_config_in n' (u64 (ii + 1)) c
      end
  end.

(** A configuration entry for the next slot with the contents of [c]. *)
Definition config_entry (c : cluster_config) : SM (cluster_config * log_entry) :=
  s <- self ;;
  b <- lift (cluster_config_serialize c) ;;
  cloned <- lift (from_buf cluster_config_deserialize b) ;;
  let cloned := set_log_idx (next_slot (log_store_ s)) cloned in
  conf_buf <- lift (cluster_config_serialize cloned) ;;
  ret (cloned, log_entry_new (term_ (state_ s)) (Some conf_buf) conf
                 (get_timeofday_us (now_ s)) false 0 true).

(** The peer with the highest priority among those that answered within a
    heartbeat; 0 and -1 if there is none. *)
Definition best_successor (s : server) : Z * Z :=
  fold_left (fun '(max_priority, candidate_id) '(srv_id, pp) =>
      if negb (srv_id =? id_ s)
         && (Z.quot (get_resp_timer_us (now_ s) pp) 1000 <=? heart_beat_interval_ (params_ s))
         && (max_priority <? sc_priority (config_ pp))
      then (sc_priority (config_ pp), srv_id) else (max_priority, candidate_id))
    (map_to_list (peers_ s)) (0, -1).

Definition yield_leadership (immediate_yield : bool) (successor_id : Z) : SM unit :=
  s <- self ;;
  if write_paused_ s then ret tt
  else if negb (id_ s =? leader_ s) then ret tt
  else if get_num_voting_members s <=? 1 then ret tt
  else
    cb_ret <- callback ResignationFromLeader successor_id ;;
    if negb (bool_decide (cb_ret = Cb_Ok)) then ret tt
    else if immediate_yield then
      modify (fun s => s <| leader_ := -1 |>) ;;
      become_follower ;;
      modify (fun s => s <| hb_alive_ := false |>)
    else
      s <- self ;;
      let given := (0 <=? successor_id) && is_some (peers_ s !! successor_id) in
      let candidate_id := if given then successor_id else snd (best_successor s) in
      modify (fun s => s <| write_paused_ := true |>) ;;
      when (-1 <? candidate_id)
        (modify (fun s => s <| next_leader_candidate_ := candidate_id |>) ;;
         request_append_entries_peer candidate_id ;; ret tt) ;;
      modify (fun s => s
        <| reelection_timer_ ::= set_duration_ms (u64 (election_timeout_upper_bound_ (params_ s))) |>
        <| reelection_timer_ ::= timer_reset (now_ s) 0 |>).

(** Loop body of [become_leader] for one peer. *)
Definition prepare_peer (pid : Z) : SM unit :=
  s <- self ;;
  clear_snapshot_sync_ctx pid ;;
  upd_peer pid (set_next_log_idx (next_slot (log_store_ s))) ;;
  upd_peer pid reset_stream ;;
  enable_hb_for_peer pid ;;
  upd_peer pid set_recovered ;;
  upd_peer pid (set_snapshot_sync_is_needed false) ;;
  when (use_full_consensus_among_healthy_members_ (params_ s))
    (upd_peer pid (reset_resp_timer (now_ s))).

Definition become_leader : SM unit :=
  stop_election_timer ;;
  modify (fun s => s <| role_ := leader |> <| leader_ := id_ s |>
    <| rs_self_mark_down_ := false |> <| excluded_from_the_quorum_ := false |>
    <| srv_to_join_ := None |>
    <| leadership_transfer_timer_ ::=
         set_duration_ms (u64 (leadership_transfer_min_wait_time_ (params_ s))) |>
    <| leadership_transfer_timer_ ::= timer_reset (now_ s) 0 |>
    <| precommit_index_ := get_last_log_idx s |>) ;;
  for_peers prepare_peer ;;
  s <- self ;;
  let s_idx := u64 (sm_commit_index_ s + 1) in
  last_config <- last_config_in (Z.to_nat (next_slot (log_store_ s) - s_idx)) s_idx (rs_config_ s) ;;
  ce <- config_entry last_config ;;
  idx <- store_log_entry (snd ce) 0 ;;
  modify (fun s => s <| index_at_becoming_leader_ := idx |> <| config_changing_ := true |>) ;;
  callback BecomeLeader (-1) ;;
  modify (fun s => s <| write_paused_ := false |> <| next_leader_candidate_ := -1 |>
    <| initialized_ := true |>
    <| pre_vote_ ::= fun v => v <| pv_quorum_reject_count := 0 |>
                                <| pv_no_response_failure_count := 0 |> |>
    <| data_fresh_ := true |>) ;;
  request_append_entries ;;
  s <- self ;;
  when ((my_priority_ s =? 0) && (1 <? get_num_voting_members s)) (yield_leadership false (-1)).

(** ** Vote requests *)

(** A request of type [type] to [pid], about the end of the log. *)
Definition log_end_req (type : msg_type) (pid : Z) : SM req_msg :=
  s <- self ;;
  last_log_term <- term_for_log (get_last_log_idx s) ;;
  ret (req_msg_new (term_ (state_ s)) type (id_ s) pid last_log_term (get_last_log_idx s)
         (quick_commit_index_ s)).

Definition request_vote (force_vote : bool) : SM unit :=
  s <- self ;;
  upd_state (set_voted_for (id_ s)) ;;
  save_state ;;
  modify (fun s => s <| votes_granted_ ::= fun n => s32 (n + 1) |>
                     <| votes_responded_ ::= fun n => s32 (n + 1) |>) ;;
  s <- self ;;
  if get_quorum_for_election s <? votes_granted_ s then
    modify (fun s => s <| election_completed_ := true |>) ;;
    become_leader
  else
    for_peers (fun pid =>
      s <- self ;;
      p <- peer_at pid ;;
      when (is_regular_member s p)
        (req <- log_end_req request_vote_request (p_id p) ;;
         req <- (if force_vote then
                   b <- lift force_vote_serialize ;;
                   ret (req <| rq_log_entries := [log_entry_new 0 (Some b) custom 0 false 0 true] |>)
                 else ret req) ;;
         free <- ask_peer pid false make_busy ;;
         when free (peer_send pid req resp_handler_ false))).

(** The grace period of a lagging state machine: whether to skip this vote. *)
Definition grace_period_skips (force_vote : bool) : SM bool :=
  s <- self ;;
  let grace_period := grace_period_of_lagging_state_machine_ (params_ s) in
  let cur_term := term_ (state_ s) in
  if negb force_vote && negb (grace_period =? 0)
     && (sm_commit_index_ s <? lagging_sm_target_index_ s) then
    when (negb (vote_init_timer_term_ s =? cur_term))
      (modify (fun s => s <| vote_init_timer_ ::= set_duration_ms (u64 grace_period) |>
                          <| vote_init_timer_ ::= timer_reset (now_ s) 0 |>
                          <| vote_init_timer_term_ := cur_term |>)) ;;
    s <- self ;;
    if vote_init_timer_term_ s =? cur_term then
      let '(fired, t) := timeout (now_ s) (vote_init_timer_ s) in
      modify (fun s => s <| vote_init_timer_ := t |>) ;;
      ret (negb fired)
    else ret false
  else ret false.

Definition initiate_vote (force_vote : bool) : SM unit :=
  skip <- grace_period_skips force_vote ;;
  if skip then ret tt
  else
    s <- self ;;
    when ((target_priority_ s <=? my_priority_ s) || force_vote || check_cond_for_zp_election s
          || ((get_quorum_for_election s =? 0) && (0 <? my_priority_ s)))
      (upd_state inc_term ;;
       upd_state (set_voted_for (-1)) ;;
       modify (fun s => s <| role_ := candidate |> <| index_at_becoming_leader_ := 0 |>
                          <| votes_granted_ := 0 |> <| votes_responded_ := 0 |>
                          <| election_completed_ := false |>) ;;
       request_vote force_vote) ;;
    s <- self ;;
    when (negb (bool_decide (role_ s = leader)))
      (modify (fun s => s <| hb_alive_ := false |> <| leader_ := -1 |>)).

(** [log_okay]: the candidate's log is at least as up-to-date as this one. *)
Definition vote_log_okay (req : req_msg) (last : log_entry) (s : server) : bool :=
  (le_term last <? rq_last_log_term req)
  || ((rq_last_log_term req =? le_term last) && (get_last_log_idx s <=? rq_last_log_idx req)).

Definition vote_grant (req : req_msg) (last : log_entry) (s : server) : bool :=
  (rq_term req =? term_ (state_ s)) && vote_log_okay req last s
  && ((voted_for_ (state_ s) =? rq_src req) || (voted_for_ (state_ s) =? -1)).

(** The candidate's priority is below the target, unless that is ignored. *)
Definition priority_too_low (req : req_msg) (s : server) : bool :=
  let ignore_priority := (0 <? zlen (rq_log_entries req)) || catching_up_ (state_ s) in
  existsb (fun c => negb ignore_priority && (sc_id c =? rq_src req)
                    && negb (sc_priority c =? 0) && (sc_priority c <? target_priority_ s))
    (cc_servers (rs_config_ s)).

Definition handle_vote_req (req : req_msg) : SM resp_msg :=
  s <- self ;;
  let resp := resp_msg_new (term_ (state_ s)) request_vote_response (id_ s) (rq_src req) 0 false in
  last <- with_log last_entry ;;
  s <- self ;;
  if vote_grant req last s then
    if priority_too_low req s then ret resp
    else
      upd_state (set_voted_for (rq_src req)) ;;
      save_state ;;
      ret (accept (next_slot (log_store_ s)) resp)
  else ret resp.

Definition handle_vote_resp (resp : resp_msg) : SM unit :=
  s <- self ;;
  if election_completed_ s then ret tt
  else if negb (rs_term resp =? term_ (state_ s)) then ret tt
  else
    modify (fun s => s <| votes_responded_ ::= fun n => s32 (n + 1) |>
                       <| votes_granted_ ::= fun n => if rs_accepted resp then s32 (n + 1) else n |>) ;;
    modify (fun s => if get_num_voting_members s <=? votes_responded_ s
                     then s <| election_completed_ := true |> else s) ;;
    s <- self ;;
    when (get_quorum_for_election s + 1 <=? votes_granted_ s)
      (modify (fun s => s <| election_completed_ := true |>) ;;
       become_leader).

(** ** Pre-votes *)

(** The connections are renewed before a pre-vote: all of them the first time,
    later those closed or inactive for long. *)
Definition renew_connection (pid : Z) : SM unit :=
  s <- self ;;
  p <- peer_at pid ;;
  when (is_regular_member s p)
    (match get_server (rs_config_ s) (p_id p) with
     | None => ret tt
     | Some c =>
         recreate <- (if hb_alive_ s then ret true
                      else
                        need <- ask_peer pid false (need_to_reconnect (now_ s)) ;;
                        ret (need
                          || (s32 (heart_beat_interval_ (params_ s) * reconnect_limit_ (raft_limits_ s))
                              <? s32 (Z.quot (get_active_timer_us (now_ s) p) 1000)))) ;;
         when recreate
           (ask_peer pid false
              (recreate_rpc (now_ s) has_factory reconn_backoff_disabled
                 (create_client (trace_ s) (sc_endpoint c))) ;; ret tt)
     end).

Definition send_prevote (pid : Z) : SM unit :=
  s <- self ;;
  p <- peer_at pid ;;
  when (is_regular_member s p)
    (req <- log_end_req pre_vote_request (p_id p) ;;
     free <- ask_peer pid false make_busy ;;
     if free then peer_send pid req resp_handler_ false
     else modify (fun s => s <| pre_vote_ ::= fun v =>
            v <| pv_connection_busy ::= fun n => s32 (n + 1) |> |>)).

(** The outcome of the previous round, and the adjustment of a 2-node cluster
    whose other node has not answered for several rounds. *)
Definition check_previous_prevote : SM unit :=
  s <- self ;;
  let answered := pv_live (pre_vote_ s) + pv_dead (pre_vote_ s) in
  when (0 <? answered)
    (if answered <? get_quorum_for_election s + 1
     then modify (fun s => s <| pre_vote_ ::= fun v =>
            v <| pv_no_response_failure_count ::= fun n => s32 (n + 1) |> |>)
     else modify (fun s => s <| pre_vote_ ::= fun v => v <| pv_no_response_failure_count := 0 |> |>)) ;;
  s <- self ;;
  when (auto_adjust_quorum_for_small_cluster_ (params_ s) && (get_num_voting_members s =? 2)
        && (vote_limit_ (raft_limits_ s) <? pv_no_response_failure_count (pre_vote_ s)))
    (rc <- callback AutoAdjustQuorum (-1) ;;
     when (bool_decide (rc = Cb_Ok)) (modify (fun s => s <| params_ ::= set_quorum_sizes 1 |>))).

Definition request_prevote : SM unit :=
  for_peers renew_connection ;;
  check_previous_prevote ;;
  s <- self ;;
  let num_voting_members := get_num_voting_members s in
  modify (fun s => s <| hb_alive_ := false |> <| leader_ := -1 |> <| role_ := candidate |>
    <| index_at_becoming_leader_ := 0 |>
    <| pre_vote_ := (pre_vote_reset (term_ (state_ s)) (pre_vote_ s)) <| pv_dead := 1 |> |>) ;;
  s <- self ;;
  if (my_priority_ s <? target_priority_ s) && negb (check_cond_for_zp_election s)
  then restart_election_timer
  else
    for_peers send_prevote ;;
    s <- self ;;
    when (num_voting_members
          <? pv_connection_busy (pre_vote_ s) + (get_quorum_for_election s + 1))
      (modify (fun s => s <| pre_vote_ ::= fun v =>
         v <| pv_busy_connection_failure_count ::= fun n => s32 (n + 1) |> |>) ;;
       s <- self ;;
       let limit := busy_connection_limit_ (raft_limits_ s) in
       when (negb (limit =? 0) && (limit <? pv_busy_connection_failure_count (pre_vote_ s)))
         (system_exit N22_unrecoverable_isolation)).

Definition handle_prevote_req (req : req_msg) : SM resp_msg :=
  s <- self ;;
  let next_idx_for_resp := if is_none (peers_ s !! rq_src req) then ulong_max else 0 in
  let resp := resp_msg_new (rq_term req) pre_vote_response (id_ s) (rq_src req)
                next_idx_for_resp false in
  ret (if negb (hb_alive_ s) || catching_up_ (state_ s)
       then accept (next_slot (log_store_ s)) resp else resp).

Definition send_reconnect_request : SM unit :=
  s <- self ;;
  if leader_ s =? id_ s then ret tt
  else
    match peers_ s !! leader_ s with
    | None => system_exit N22_unrecoverable_isolation
    | Some _ =>
        let req := req_msg_new (term_ (state_ s)) reconnect_request (id_ s) (leader_ s) 0 0 0 in
        free <- ask_peer (leader_ s) false make_busy ;;
        when free (peer_send (leader_ s) req ex_resp_handler_ false)
    end.

Definition handle_prevote_resp (resp : resp_msg) : SM unit :=
  s <- self ;;
  if negb (rs_term resp =? pv_term (pre_vote_ s)) then ret tt
  else
    modify (fun s => s <| pre_vote_ ::= fun v =>
      if rs_accepted resp then v <| pv_dead ::= fun n => s32 (n + 1) |>
      else if negb (rs_next_idx resp =? ulong_max) then v <| pv_live ::= fun n => s32 (n + 1) |>
      else v <| pv_abandoned ::= fun n => s32 (n + 1) |> |>) ;;
    s <- self ;;
    let election_quorum_size := get_quorum_for_election s + 1 in
    when ((election_quorum_size <=? pv_dead (pre_vote_ s)) && negb (pv_done (pre_vote_ s)))
      (modify (fun s => s <| pre_vote_ ::= fun v => v <| pv_done := true |> |>) ;;
       initiate_vote false ;;
       s <- self ;;
       when (negb (bool_decide (role_ s = leader))) restart_election_timer) ;;
    s <- self ;;
    when (election_quorum_size <=? pv_live (pre_vote_ s))
      (modify (fun s => s <| pre_vote_ ::= fun v =>
         v <| pv_quorum_reject_count ::= fun n => s32 (n + 1) |> |>) ;;
       s <- self ;;
       when (pre_vote_rejection_limit_ (raft_limits_ s) <=? pv_quorum_reject_count (pre_vote_ s))
         send_reconnect_request) ;;
    s <- self ;;
    when (election_quorum_size <=? pv_abandoned (pre_vote_ s))
      (callback RemovedFromCluster (-1) ;;
       modify (fun s => s <| steps_to_down_ := 2 |>)).

(** ** The election timer *)

Definition cancel_schedulers : SM unit :=
  s <- self ;;
  when (scheduler_ s)
    (when (election_task_ s) (cancel_task Election_task) ;;
     for_peers (fun pid =>
       p <- peer_at pid ;;
       when (hb_task_ p) (cancel_task (Heartbeat_task pid)) ;;
       upd_peer pid shutdown ;;
       clear_snapshot_sync_ctx pid) ;;
     modify (fun s => s <| scheduler_ := false |>)).

Definition handle_election_timeout : SM unit :=
  s <- self ;;
  if stopping_ s then ret tt
  else if 0 <? steps_to_down_ s then
    modify (fun s => s <| steps_to_down_ ::= fun n => n - 1 |>) ;;
    s <- self ;;
    if steps_to_down_ s =? 0 then
      upd_state (allow_election_timer false) ;;
      save_state ;;
      cancel_schedulers
    else restart_election_timer
  else if catching_up_ (state_ s) then restart_election_timer
  else if out_of_log_range_ s then ret tt
  else if receiving_snapshot_ (state_ s) then
    modify (fun s => s <| et_cnt_receiving_snapshot_ ::= fun n => u64 (n + 1) |>) ;;
    restart_election_timer
  else if serving_req_ s
          || (s32 (Z.quot (get_us (now_ s) (last_election_timer_reset_ s)) 1000)
              <? election_timeout_lower_bound_ (params_ s))
  then restart_election_timer
  else if bool_decide (role_ s = leader) then ret tt
  else
    when (negb (im_learner_ s))
      (when (negb (hb_alive_ s)) decay_target_priority ;;
       modify (fun s => if pv_term (pre_vote_ s) =? term_ (state_ s) then s
                        else s <| pre_vote_ ::= pre_vote_reset (term_ (state_ s)) |>) ;;
       s <- self ;;
       if (zlen (peer_list s) =? 0) || pv_done (pre_vote_ s) || (get_quorum_for_election s =? 0)
       then initiate_vote false
       else request_prevote) ;;
    s <- self ;;
    when (negb (bool_decide (role_ s = leader))) restart_election_timer.

(** ** Requests and responses about votes *)

(** The start of [process_req]: whether to go on. *)
Definition accepts_req : SM bool :=
  rc <- callback ProcessReq (-1) ;;
  if bool_decide (rc = Cb_ReturnNull) then ret false
  else stopping <- gets stopping_ ;; ret (negb stopping).

(** The term of a request that carries one counts before the request does. *)
Definition observe_req_term (req : req_msg) : SM unit :=
  when (bool_decide (rq_type req = append_entries_request)
        || bool_decide (rq_type req = request_vote_request)
        || bool_decide (rq_type req = install_snapshot_request))
    (term_updated <- update_term (rq_term req) ;;
     s <- self ;;
     when (negb (im_learner_ s) && negb (hb_alive_ s) && term_updated
           && bool_decide (rq_type req = request_vote_request)) decay_target_priority ;;
     modify (fun s => if 0 <? steps_to_down_ s then s <| steps_to_down_ := 2 |> else s)).

(** [process_req] on a vote request. *)
Definition process_vote_req (req : req_msg) : SM (option resp_msg) :=
  go <- accepts_req ;;
  if go then
    observe_req_term req ;;
    resp <- handle_vote_req req ;;
    ret (Some resp)
  else ret None.

(** [handle_peer_resp] up to its switch: whether the term was updated. *)
Definition observe_resp (resp : resp_msg) : SM bool :=
  s <- self ;;
  when (rs_accepted resp)
    (upd_peer (rs_src resp) (fun p => reset_resp_timer (now_ s) (reset_rpc_errs (set_recovered p)))) ;;
  if is_valid_msg (msg_type_val (rs_type resp)) then update_term (rs_term resp) else ret false.

(** [handle_peer_resp] on a response to a vote or pre-vote request. *)
Definition peer_vote_resp (resp : resp_msg) : SM unit :=
  updated <- observe_resp resp ;;
  if updated then ret tt
  else
    match rs_type resp with
    | request_vote_response => handle_vote_resp resp
    | pre_vote_response => handle_prevote_resp resp
    | _ => ret tt
    end.

End Election.
