(* ===== verification/Startup.v ===== *)
(** The constructor of [raft_server], [start_server] and the change of the
    parameters (raft_server.cc). *)
From S2P Require Import Prelude Buffer Serializer Codec Messages Peer LogStore Server.

Section Startup.
Context {L : Type} `{LS : LogStore L} `{EV : Env} `{U : Uninit}.

#[local] Abbreviation server := (raft_server L).
#[local] Abbreviation SM := (M (raft_server L)).

(** What the state manager and the state machine give to the constructor.
    [bo_my_priority] is what the memory of [my_priority_] holds, which the
    constructor sets only if the server is in the configuration. *)
Record boot := mk_boot {
  bo_now : Z;
  bo_server_id : Z;
  bo_params : raft_params;
  bo_limits : limits;
  bo_state : option srv_state;
  bo_log_store : L;
  bo_config : cluster_config;
  bo_last_commit_index : Z;
  bo_my_priority : Z;
  bo_test_mode : bool;
  bo_trace : history
}.

(** The member initializers. *)
Definition raft_server_members (b : boot) : server :=
  let now := bo_now b in
  let t := timer_helper_new now 0 false in
  let st := default (set_voted_for (-1) (set_term 0 srv_state_init)) (bo_state b) in
  let last := u64 (next_slot (bo_log_store b) - 1) in
  mk_raft_server false (-1) (bo_server_id b) (bo_my_priority b) INIT_PRIORITY t 0 0
    last 0 (bo_last_commit_index b) (bo_last_commit_index b) last 0 (bo_last_commit_index b)
    false pre_vote_new true false false false false false false (-1) t false false 0
    ctx_scheduler false t ∅ follower st (bo_log_store b) 0 Rand_uniform None (bo_config b)
    None None false None 0 ∅ (sm_last_snapshot (bo_trace b)) t t t (term_ st) false false
    t t 0 0 (bo_params b) (bo_limits b) (timer_helper_new now (1000 * 1000) false) [] ∅
    false false 0 now (bo_trace b).

Definition apply_params_fixes (test_mode : bool) (p : raft_params) : raft_params :=
  if test_mode then p
  else
    let p := if election_timeout_lower_bound_ p <=? heart_beat_interval_ p
             then p <| election_timeout_lower_bound_ := s32 (heart_beat_interval_ p * 2) |> else p in
    if election_timeout_upper_bound_ p <=? election_timeout_lower_bound_ p
    then p <| election_timeout_upper_bound_ := s32 (election_timeout_lower_bound_ p * 2) |> else p.

Definition apply_and_log_current_params (test_mode : bool) : SM unit :=
  modify (fun s => s <| params_ ::= apply_params_fixes test_mode |>) ;;
  modify (fun s => s
    <| status_check_timer_ ::= set_duration_ms (u64 (heart_beat_interval_ (params_ s))) |>
    <| status_check_timer_ ::= timer_reset (now_ s) 0 |>
    <| leadership_transfer_timer_ ::=
         set_duration_ms (u64 (leadership_transfer_min_wait_time_ (params_ s))) |>).

(** Whether an entry from [i] on, of [n], is a configuration. *)
Fixpoint find_conf (n : nat) (i : Z) : SM bool :=
  match n with
  | O => ret false
  | S n' =>
      le <- with_log (entry_at i) ;;
      match le with
      | None => throw Undefined
      | Some e => if bool_decide (le_value_type e = conf) then ret true
                  else find_conf n' (u64 (i + 1))
      end
  end.

(** A server of the configuration: a peer, or this one. *)
Definition add_configured (c : srv_config) : SM unit :=
  modify (fun s =>
    if negb (sc_id c =? id_ s) then
      match peers_ s !! sc_id c with
      | Some _ => s
      | None => s <| peers_ ::= <[ sc_id c := peer_new (now_ s) c (params_ s)
                                     (create_client (trace_ s) (sc_endpoint c)) ]> |>
      end
    else s <| im_learner_ := sc_learner c |> <| my_priority_ := sc_priority c |>).

Fixpoint add_all_configured (l : list srv_config) : SM unit :=
  match l with [] => ret tt | c :: l' => add_configured c ;; add_all_configured l' end.

(** The constructor, less [start_server], which an option makes it call. *)
Definition raft_server_body (test_mode : bool) : SM unit :=
  modify (fun s => s
    <| last_rcvd_valid_append_entries_req_ ::= timer_reset (now_ s)
         (- s32 (heart_beat_interval_ (params_ s)
                 * Z.max 100 (full_consensus_follower_limit_ (raft_limits_ s)))) |>
    <| params_ ::= fun p => if stale_log_gap_ p <? fresh_log_gap_ p
                            then p <| stale_log_gap_ := fresh_log_gap_ p |> else p |>) ;;
  modify (fun s =>
    if enable_randomized_snapshot_creation_ (params_ s) && is_none (last_snapshot_ s)
       && (1 <? snapshot_distance_ (params_ s))
    then s <| first_snapshot_distance_ := rand_snapshot_distance (trace_ s) |> else s) ;;
  apply_and_log_current_params test_mode ;;
  s <- self ;;
  let i := Z.max (u64 (sm_commit_index_ s + 1)) (start_index (log_store_ s)) in
  changing <- find_conf (Z.to_nat (next_slot (log_store_ s) - i)) i ;;
  modify (fun s => if changing then s <| config_changing_ := true |> else s) ;;
  add_all_configured (cc_servers (rs_config_ s)).

Definition raft_server_new (b : boot) : res unit * server :=
  raft_server_body (bo_test_mode b) (raft_server_members b).

(** Threads are not modelled; the sleep before the election timer is. *)
Definition start_server (skip_initial_election_timeout : bool) : SM unit :=
  modify (fun s => s <| sm_commit_notifier_target_idx_ := 0 |>
                     <| sm_commit_notifier_notified_idx_ := 0 |>) ;;
  s <- self ;;
  (if skip_initial_election_timeout then
     upd_state (allow_election_timer false) ;; save_state
   else if negb (election_timer_allowed_ (state_ s)) then ret tt
   else
     modify (fun s => s <| now_ ::= fun t => t + rpc_failure_backoff_ (params_ s) * 1000000 |>) ;;
     restart_election_timer) ;;
  modify (fun s => s
    <| priority_change_timer_ ::= timer_reset (now_ s) 0 |>
    <| vote_init_timer_ ::=
         set_duration_ms (u64 (grace_period_of_lagging_state_machine_ (params_ s))) |>
    <| vote_init_timer_ ::= timer_reset (now_ s) 0 |>
    <| rs_self_mark_down_ := false |> <| excluded_from_the_quorum_ := false |>
    <| stopping_ := false |>).

Definition update_params (test_mode : bool) (new_params : raft_params) : SM unit :=
  modify (fun s => s <| params_ := new_params |>) ;;
  apply_and_log_current_params test_mode ;;
  modify (fun s => s <| rand_timeout_ := Rand_uniform |>) ;;
  s <- self ;;
  when (negb (bool_decide (role_ s = leader))) restart_election_timer ;;
  for_peers (fun pid =>
    s <- self ;;
    upd_peer pid (fun p => resume_hb_speed (set_hb_interval (heart_beat_interval_ (params_ s)) p))).

End Startup.
