(* ===== verification/Samples.v ===== *)
(** Concrete surroundings and servers, on which the theorems are tried. *)
From S2P Require Import Prelude Buffer Serializer Codec Messages Peer LogStore Server.
From S2P Require Import Replication Election Startup.

#[local] Instance zeroed : Uninit := fun _ => 0.

(** Callbacks accept, clients connect, there is no snapshot. *)
Definition sample_env : Env := {|
  cb_func := fun _ _ _ => Cb_Ok;
  create_client := fun h _ => Some (zlen h + 1);
  has_factory := true;
  reconn_backoff_disabled := false;
  rand_timeout := fun _ => 250;
  ctx_scheduler := true;
  sm_last_snapshot := fun _ => None;
  sm_adjust_commit_index := fun _ _ i _ => i;
  sm_next_batch_size_hint := fun _ => 0;
  sm_allow_leadership_transfer := fun _ => true;
  sm_read_snapshot_data := fun _ _ _ b => (0, b);
  sm_read_logical_snp_obj := fun _ _ _ _ => (0, 0, None, true);
  sm_pre_commit_ext := fun _ _ _ => None;
  sm_commit_ext := fun _ _ b => Some b;
  sm_chk_create_snapshot := fun _ => true;
  sm_save_logical_snp_obj := fun _ _ obj_id _ _ _ => obj_id + 1;
  sm_apply_snapshot := fun _ _ => true;
  sm_create_snapshot := fun _ _ => None;
  rand_snapshot_distance := fun _ => 0
|}.

Definition trio : gset Z := {[ 1; 2; 3 ]}.

Definition trio_config : cluster_config :=
  (cluster_config_new 0 0 false) <| cc_servers :=
    [srv_config_simple 1 [49]; srv_config_simple 2 [50]; srv_config_simple 3 [51]] |>.

(** A server of the three, as its constructor leaves it. *)
Definition trio_server (i : Z) : raft_server inmem_log_store :=
  snd (raft_server_new (EV := sample_env)
    (mk_boot 0 i raft_params_default limits_default (Some srv_state_init)
       (inmem_log_store_new 0) trio_config 0 0 false [Ev_save_state srv_state_init])).

(** A store with entries of the given terms. *)
Definition store_of (terms : list Z) : inmem_log_store :=
  run_state (run_ops (map (fun t => Op_append (sample_entry t)) terms)) (inmem_log_store_new 0).

Lemma store_of_ok terms :
  zlen terms + 1 < 2 ^ 64 ->
  ls_ok (store_of terms) /\ ls_view (store_of terms) = mk_alog 1 (map (fun t => rewound (sample_entry t)) terms).
Proof.
  intros Hz. destruct (inmem_new_ok 0) as (O & V). unfold store_of.
  set (os := map (fun t => Op_append (sample_entry t)) terms).
  assert (forall l, 1 + zlen l + zlen terms < 2 ^ 64 ->
    ops_ok (map (fun t => Op_append (sample_entry t)) terms) (mk_alog 1 l)) as K1.
  { clear. induction terms as [|t ts IH]; intros l H; [done|]. cbn. rewrite zlen_cons in H. pose proof (zlen_nonneg ts).
    split; [split; [apply sample_storable|unfold al_next; cbn; lia]|]. apply IH. change (1 + zlen (l ++ [rewound (sample_entry t)]) + zlen ts < 2 ^ 64). zlen_lia. }
  assert (forall l, spec_ops (map (fun t => Op_append (sample_entry t)) terms) (mk_alog 1 l)
    = mk_alog 1 (l ++ map (fun t => rewound (sample_entry t)) terms)) as K2.
  { clear. induction terms as [|t ts IH]; intros l; cbn; [by rewrite app_nil_r|].
    change (spec_ops (map (fun t => Op_append (sample_entry t)) ts) (mk_alog 1 (l ++ [rewound (sample_entry t)]))
      = mk_alog 1 (l ++ rewound (sample_entry t) :: map (fun t => rewound (sample_entry t)) ts)).
    by rewrite IH, <- app_assoc. }
  destruct (run_ops_view os (inmem_log_store_new 0) O) as (l & E & O' & V').
  { rewrite V. apply K1. rewrite zlen_nil. lia. }
  unfold run_state. rewrite E. cbn [snd]. split; [done|]. by rewrite V', V, K2.
Qed.
