(* ===== verification/Follower.v ===== *)
(** The follower's side of replication: [handle_append_entries]
    (handle_append_entries.cc). *)
From S2P Require Import Prelude Buffer Serializer Codec Messages Peer LogStore Server.
From S2P Require Import Replication Election.

Section Follower.
Context {L : Type} `{LS : LogStore L} `{EV : Env} `{U : Uninit}.

#[local] Abbreviation server := (raft_server L).
#[local] Abbreviation SM := (M (raft_server L)).

(** The payload of an entry, rewound, as the state machine gets it. *)
Definition payload (e : log_entry) : SM buffer :=
  match le_buff e with
  | Some b => ret (run_state (set_pos 0) b)
  | None => throw Undefined
  end.

(** The flag [serving_req_] is set while [m] runs, however it ends. *)
Definition serving {A} (m : SM A) : SM A := fun s =>
  let '(r, s') := m (s <| serving_req_ := true |>) in (r, s' <| serving_req_ := false |>).

(** Entries already in the log with the same term are skipped: the first index
    and the entries that are left. *)
Fixpoint skip_existing (log_idx : Z) (es : list log_entry) : SM (Z * list log_entry) :=
  match es with
  | [] => ret (log_idx, [])
  | e :: es' =>
      s <- self ;;
      if log_idx <? next_slot (log_store_ s) then
        t <- with_log (term_at log_idx) ;;
        if t =? le_term e then skip_existing (u64 (log_idx + 1)) es' else ret (log_idx, es)
      else ret (log_idx, es)
  end.

(** Rolls back [n] entries from [idx] backwards. *)
Fixpoint rollback_loop (n : nat) (idx : Z) : SM unit :=
  match n with
  | O => ret tt
  | S n' =>
      old <- with_log (entry_at idx) ;;
      match old with
      | None => throw Undefined
      | Some old_entry =>
          match le_value_type old_entry with
          | app_log => buf <- payload old_entry ;; emit (Ev_rollback idx (Some buf))
          | conf =>
              buf <- lift (get_entry_buf old_entry) ;;
              c <- lift (from_buf cluster_config_deserialize buf) ;;
              emit (Ev_rollback_config idx c) ;;
              modify (fun s => s <| config_changing_ := false |>)
          | _ => ret tt
          end ;;
          rollback_loop n' (u64 (idx - 1))
      end
  end.

(** Rollback, only if there is an entry to overwrite with. *)
Definition rollback_from (log_idx : Z) (es : list log_entry) : SM unit :=
  s <- self ;;
  let my_last_log_idx := get_last_log_idx s in
  when ((log_idx <=? my_last_log_idx) && (0 <? zlen es))
    (modify (fun s => if log_idx <=? quick_commit_index_ s
                      then s <| quick_commit_index_ := u64 (log_idx - 1) |> else s) ;;
     modify (fun s => if log_idx <=? sm_commit_index_ s
                      then s <| sm_commit_index_ := u64 (log_idx - 1) |> else s) ;;
     rollback_loop (Z.to_nat (my_last_log_idx - log_idx + 1)) my_last_log_idx).

(** What follows the storing of a received entry. *)
Definition entry_received (log_idx : Z) (e : log_entry) : SM unit :=
  match le_value_type e with
  | app_log => buf <- payload e ;; emit (Ev_pre_commit log_idx (Some buf))
  | conf => modify (fun s => s <| config_changing_ := true |>)
  | _ => ret tt
  end.

(** Overwrites entries of another term; [None] if the server is stopping. *)
Fixpoint overwrite_loop (log_idx : Z) (es : list log_entry) : SM (option (list log_entry)) :=
  match es with
  | [] => ret (Some [])
  | e :: es' =>
      s <- self ;;
      if log_idx <? next_slot (log_store_ s) then
        store_log_entry e log_idx ;;
        entry_received log_idx e ;;
        s <- self ;;
        if stopping_ s then ret None else overwrite_loop (u64 (log_idx + 1)) es'
      else ret (Some es)
  end.

(** Appends the rest; [false] if the server is stopping. *)
Fixpoint append_loop (es : list log_entry) : SM bool :=
  match es with
  | [] => ret true
  | e :: es' =>
      idx_for_entry <- store_log_entry e 0 ;;
      entry_received idx_for_entry e ;;
      s <- self ;;
      if stopping_ s then ret false else append_loop es'
  end.

(** The entries of the request are written to the log; [false] if the server
    is stopping. *)
Definition write_entries (req : req_msg) : SM bool :=
  let es := rq_log_entries req in
  if negb (0 <? zlen es) then ret true
  else
    skipped <- skip_existing (u64 (rq_last_log_idx req + 1)) es ;;
    let '(log_idx, rest) := skipped in
    rollback_from log_idx rest ;;
    rest <- overwrite_loop log_idx rest ;;
    match rest with
    | None => ret false
    | Some rest =>
        go <- append_loop rest ;;
        if negb go then ret false
        else
          with_log (end_of_append_batch (u64 (rq_last_log_idx req + 1)) (zlen es)) ;;
          s <- self ;;
          when (parallel_log_appending_ (params_ s))
            (with_log (await_durable (u64 (rq_last_log_idx req + zlen es)))) ;;
          ret true
    end.

(** The log of this server contains the entry before those of the request. *)
Definition append_log_okay (req : req_msg) (log_term : Z) (s : server) : bool :=
  (rq_last_log_idx req =? 0)
  || (negb (log_term =? 0) && (rq_last_log_term req =? log_term))
  || match last_snapshot_ s with
     | Some snp => (snp_last_log_idx snp =? rq_last_log_idx req)
                   && (snp_last_log_term snp =? rq_last_log_term req)
     | None => false
     end.

Definition deny_append (resp : resp_msg) : SM resp_msg :=
  s <- self ;;
  resp <- (if receiving_snapshot_ (state_ s) then
             b <- lift (appendix_serialize (mk_appendix RECEIVING_SNAPSHOT 0)) ;;
             ret (set_ctx (Some b) resp)
           else ret resp) ;;
  ret (set_next_batch_size_hint (sm_next_batch_size_hint (trace_ s)) resp).

(** The application refused the request. *)
Definition decline_append (resp : resp_msg) : SM resp_msg :=
  b <- lift (appendix_serialize (mk_appendix DO_NOT_REWIND 0)) ;;
  let resp := set_next_batch_size_hint (-1) (set_ctx (Some b) resp) in
  restart_election_timer ;;
  ret resp.

(** After the entries were written: commit and accept. *)
Definition accept_append (req : req_msg) (resp : resp_msg) : SM resp_msg :=
  modify (fun s => s <| leader_ := rq_src req |> <| leader_commit_index_ := rq_commit_idx req |>) ;;
  let target_precommit_index := u64 (rq_last_log_idx req + zlen (rq_log_entries req)) in
  pc_updated <- try_update_precommit_index target_precommit_index ;;
  when pc_updated (commit (Z.min (rq_commit_idx req) target_precommit_index)) ;;
  let resp := accept (u64 (target_precommit_index + 1)) resp in
  s <- self ;;
  when ((rq_term req =? term_ (state_ s)) && bool_decide (role_ s = follower))
    restart_election_timer ;;
  s <- self ;;
  let resp := set_next_batch_size_hint (sm_next_batch_size_hint (trace_ s)) resp in
  let resp := if rs_self_mark_down_ s
              then set_resp_extra_flags (Z.lor (rs_extra_flags resp) SELF_MARK_DOWN) resp
              else resp in
  resp <- (if track_peers_sm_commit_idx_ (params_ s) then
             b <- lift (appendix_serialize (mk_appendix NOTIFYING_SM_COMMITTED_INDEX
                                              (sm_commit_index_ s))) ;;
             ret (set_ctx (Some b) resp)
           else ret resp) ;;
  modify (fun s => s <| out_of_log_range_ := false |>) ;;
  ret resp.

(** The check of the previous entry, and what follows it. *)
Definition append_checked (req : req_msg) : SM (option resp_msg) :=
  s <- self ;;
  let resp := resp_msg_new (term_ (state_ s)) append_entries_response (id_ s) (rq_src req)
                (next_slot (log_store_ s)) false in
  log_term <- (if rq_last_log_idx req <? next_slot (log_store_ s)
               then term_for_log (rq_last_log_idx req) else ret 0) ;;
  s <- self ;;
  if (rq_term req <? term_ (state_ s)) || negb (append_log_okay req log_term s)
     || receiving_snapshot_ (state_ s)
  then resp <- deny_append resp ;; ret (Some resp)
  else
    modify (fun s => s <| initialized_ := true |>
      <| excluded_from_the_quorum_ :=
           negb (Z.land (rq_extra_flags req) EXCLUDED_FROM_THE_QUORUM =? 0) |>) ;;
    cb_ret <- callback GotAppendEntryReqFromLeader (-1) ;;
    if negb (bool_decide (cb_ret = Cb_Ok)) then resp <- decline_append resp ;; ret (Some resp)
    else
      modify (fun s => s <| last_rcvd_valid_append_entries_req_ ::= timer_reset (now_ s) 0 |>) ;;
      go <- write_entries req ;;
      if negb go then ret (Some resp)
      else resp <- accept_append req resp ;; ret (Some resp).

(** A request of the current term makes a candidate a follower; a leader calls
    the callback and drops the request. *)
Definition append_same_term (req : req_msg) : SM (option resp_msg) :=
  s <- self ;;
  if rq_term req =? term_ (state_ s) then
    match role_ s with
    | candidate => become_follower ;; append_checked req
    | leader => callback ReceivedMisbehavingMessage (-1) ;; ret None
    | follower => update_target_priority ;; append_checked req
    end
  else append_checked req.

(** The end of catching up is noticed when the configuration has this server. *)
Definition check_catching_up : SM unit :=
  s <- self ;;
  when (catching_up_ (state_ s))
    (match get_server (rs_config_ s) (id_ s) with
     | Some c => when (negb (sc_new_joiner c)) (upd_state (set_catching_up false) ;; save_state)
     | None => ret tt
     end).

Definition handle_append_entries (req : req_msg) : SM (option resp_msg) :=
  s <- self ;;
  let time_gap_ms := get_ms (now_ s) (last_rcvd_append_entries_req_ s) in
  modify (fun s => s <| last_rcvd_append_entries_req_ ::= timer_reset (now_ s) 0 |>) ;;
  if use_full_consensus_among_healthy_members_ (params_ s)
     && (u64 (heart_beat_interval_ (params_ s) * full_consensus_follower_limit_ (raft_limits_ s))
         <? time_gap_ms)
  then ret None
  else
    check_catching_up ;;
    serving (append_same_term req).

End Follower.
