(* ===== verification/Leader.v ===== *)
(** The leader's side of replication: [handle_append_entries_resp] and
    [notify_log_append_completion] (handle_append_entries.cc), with the checks of
    the leadership (raft_server.cc) and the index up to which the commits of all
    state machines are reported (handle_commit.cc).

    The [assert]s of these functions are not modelled. *)
From stdpp Require Import sorting.
From S2P Require Import Prelude Buffer Serializer Codec Messages Peer LogStore Server.
From S2P Require Import Replication Election Follower.

Section Leader.
Context {L : Type} `{LS : LogStore L} `{EV : Env} `{U : Uninit}.

#[local] Abbreviation server := (raft_server L).
#[local] Abbreviation SM := (M (raft_server L)).

(** ** Commits of the state machines *)

(** The commit indices of the state machines that count. *)
Definition sm_commit_indexes (s : server) : list Z :=
  let expiry := u64 (s32 (heart_beat_interval_ (params_ s)
                          * full_consensus_leader_limit_ (raft_limits_ s))) in
  sm_commit_index_ s ::
  map sm_committed_idx_ (filter (fun p =>
      negb (is_excluded_from_quorum p (Z.quot (get_resp_timer_us (now_ s) p) 1000) expiry
              (allowed_log_index s) true)
      && negb (sm_committed_idx_ p =? 0))
    (peer_list s)).

(** The smallest of them, or the one a custom quorum has reached. *)
Definition find_sm_commit_idx_to_notify : SM Z :=
  s <- self ;;
  let l := sm_commit_indexes s in
  let c := custom_commit_quorum_size_ (params_ s) in
  let idx_to_pick := if negb (c =? 0) && (c <? zlen l) then c - 1 else zlen l - 1 in
  match (if idx_to_pick <? 0 then None else merge_sort Z.ge l !! Z.to_nat idx_to_pick) with
  | Some i => ret i
  | None => throw Undefined
  end.

Definition update_sm_commit_notifier_target_idx (to : Z) : SM Z :=
  s <- self ;;
  if to <=? sm_commit_notifier_target_idx_ s then ret (sm_commit_notifier_target_idx_ s)
  else
    modify (fun s => s <| sm_commit_notifier_target_idx_ := to |>) ;;
    ret to.

(** ** The leadership *)

Definition lose_peer (pid : Z) : SM unit :=
  p <- peer_at pid ;;
  when (negb (lost_by_leader_ p))
    (upd_peer pid set_lost ;; callback FollowerLost pid ;; ret tt).

Definition check_leadership_validity : SM bool :=
  s <- self ;;
  if negb (bool_decide (role_ s = leader)) then ret false
  else
    let num_voting_members := get_num_voting_members s in
    let leadership_expiry := get_leadership_expiry s in
    let nr_peers := if 0 <=? leadership_expiry
                    then get_not_responding_peers_count s leadership_expiry 0 else 0 in
    let min_quorum_size := get_quorum_for_commit s + 1 in
    if num_voting_members - nr_peers <? min_quorum_size then
      for_all (map p_id (get_not_responding_peers s 0)) lose_peer ;;
      if num_voting_members <=? min_quorum_size then ret true
      else yield_leadership true (-1) ;; ret false
    else ret true.

(** The peer with the highest priority, above this server's; [None] when a peer
    lags behind or does not respond.  -1: no such peer. *)
Definition transfer_target (s : server) : option Z :=
  fst <$> fold_left (fun acc p =>
      '(successor_id, max_priority) ← acc;
      let '(successor_id, max_priority) :=
        if max_priority <? sc_priority (config_ p)
        then (sc_id (config_ p), sc_priority (config_ p)) else (successor_id, max_priority) in
      if u64 (matched_idx_ p + stale_log_gap_ (params_ s)) <? quick_commit_index_ s then None
      else if u64 (election_timeout_lower_bound_ (params_ s))
              <? Z.quot (get_resp_timer_us (now_ s) p) 1000 then None
      else Some (successor_id, max_priority))
    (peer_list s) (Some (-1, my_priority_ s)).

Definition check_leadership_transfer : SM unit :=
  s <- self ;;
  if leadership_transfer_min_wait_time_ (params_ s) =? 0 then ret tt
  else
    let '(fired, t) := timeout (now_ s) (leadership_transfer_timer_ s) in
    modify (fun s => s <| leadership_transfer_timer_ := t |>) ;;
    if negb fired then ret tt
    else
      match transfer_target s with
      | None => ret tt
      | Some successor_id =>
          if successor_id =? -1 then ret tt
          else if negb (sm_allow_leadership_transfer (trace_ s)) then ret tt
          else yield_leadership false successor_id
      end.

Definition check_overall_status : SM unit := check_leadership_transfer.

(** ** Sending *)

(** Requests for all peers, from the background thread or at once. *)
Definition request_append_entries_for_all : SM unit :=
  s <- self ;;
  if use_bg_thread_for_urgent_commit_ (params_ s) then emit Ev_wake_append
  else request_append_entries.

Definition append_entries_in_bg_exec : SM unit := request_append_entries.

(** ** Responses *)

(** An accepted response: what the peer has stored, and committed. *)
Definition record_sm_commit (pid : Z) (resp : resp_msg) : SM unit :=
  s <- self ;;
  p <- peer_at pid ;;
  let prev_sm_committed_idx := sm_committed_idx_ p in
  updated <- match rs_ctx resp with
    | Some b =>
        if track_peers_sm_commit_idx_ (params_ s) then
          appendix <- lift (from_buf appendix_deserialize b) ;;
          if bool_decide (ra_order appendix = NOTIFYING_SM_COMMITTED_INDEX) then
            let new_sm_committed_idx := ra_sm_committed_idx appendix in
            upd_peer pid (set_sm_committed_idx new_sm_committed_idx) ;;
            when (prev_sm_committed_idx <? new_sm_committed_idx)
              (target_idx <- find_sm_commit_idx_to_notify ;;
               update_sm_commit_notifier_target_idx target_idx ;;
               emit Ev_wake_commit) ;;
            ret true
          else ret false
        else ret false
    | None => ret false
    end ;;
  when (negb updated) (upd_peer pid (set_sm_committed_idx 0)).

Definition record_match (pid : Z) (resp : resp_msg) : SM unit :=
  ask_peer pid false (set_self_mark_down
    (negb (Z.land (rs_extra_flags resp) SELF_MARK_DOWN =? 0))) ;;
  let new_matched_idx := u64 (rs_next_idx resp - 1) in
  upd_peer pid (fun p => set_last_accepted_log_idx new_matched_idx
    (set_matched_idx new_matched_idx (set_next_log_idx (rs_next_idx resp) p))) ;;
  record_sm_commit pid resp ;;
  callback GotAppendEntryRespFromPeer pid ;;
  ret tt.

(** The stream mode starts when the peer is close behind. *)
Definition start_stream (pid : Z) (resp : resp_msg) : SM unit :=
  s <- self ;;
  p <- peer_at pid ;;
  let max_gap_in_stream := max_log_gap_in_stream_ (params_ s) in
  let acceptable_precommit_idx := u64 (rs_next_idx resp + max_gap_in_stream) in
  when ((0 <? max_gap_in_stream) && (last_streamed_log_idx_ p =? 0) && (0 <? rs_next_idx resp)
        && (last_sent_idx_ p <? rs_next_idx resp)
        && (precommit_index_ s <? acceptable_precommit_idx))
    (upd_peer pid (set_last_streamed_log_idx 0 (rs_next_idx resp - 1))).

(** Whether there is more to send to the peer. *)
Definition needs_catchup (pid : Z) (resp : resp_msg) : SM bool :=
  p <- peer_at pid ;;
  let last_streamed_log_idx := last_streamed_log_idx_ p in
  let next_idx_to_send := if last_streamed_log_idx =? 0 then rs_next_idx resp
                          else u64 (last_streamed_log_idx + 1) in
  pending <- ask_peer pid false clear_pending_commit ;;
  s <- self ;;
  ret (pending || (next_idx_to_send <? next_slot (log_store_ s))
       || (track_peers_sm_commit_idx_ (params_ s) && negb (sm_committed_idx_ p =? 0)
           && (sm_committed_idx_ p <? quick_commit_index_ s)
           && negb ((0 <? last_streamed_log_idx) && (0 <? bytes_in_flight_ p)))).

Definition append_accepted (pid : Z) (resp : resp_msg) : SM bool :=
  record_match pid resp ;;
  start_stream pid resp ;;
  committed_index <- get_expected_committed_log_idx ;;
  commit committed_index ;;
  needs_catchup pid resp.

(** A declined response: the peer's next index moves back. *)
Definition rewind (pid : Z) (resp : resp_msg) : SM unit :=
  p <- peer_at pid ;;
  let prev_next_log := next_log_idx_ p in
  if (0 <? rs_next_idx resp) && (rs_next_idx resp <? prev_next_log)
  then upd_peer pid (set_next_log_idx (rs_next_idx resp))
  else
    do_log_rewind <- match rs_ctx resp with
      | None => ret true
      | Some b =>
          appendix <- lift (from_buf appendix_deserialize b) ;;
          match ra_order appendix with
          | DO_NOT_REWIND => ret false
          | RECEIVING_SNAPSHOT => upd_peer pid (set_snapshot_sync_is_needed true) ;; ret true
          | _ => ret true
          end
      end ;;
    when (do_log_rewind && negb (prev_next_log =? 0))
      (upd_peer pid (set_next_log_idx (prev_next_log - 1))).

Definition append_declined (pid : Z) (resp : resp_msg) : SM unit :=
  rewind pid resp ;;
  ask_peer pid false need_to_suppress_error ;;
  upd_peer pid reset_stream.

(** The first configuration of [id] loses its flag. *)
Fixpoint clear_new_joiner (id : Z) (l : list srv_config) : list srv_config :=
  match l with
  | [] => []
  | c :: l' => if sc_id c =? id then set_new_joiner false c :: l' else c :: clear_new_joiner id l'
  end.

(** A new joiner that has caught up becomes a member; whether it did. *)
Definition end_of_joining (pid : Z) : SM bool :=
  s <- self ;;
  p <- peer_at pid ;;
  let gap := if log_sync_stop_gap_ (params_ s) =? 0 then 1 else u64 (log_sync_stop_gap_ (params_ s)) in
  if negb (config_changing_ s) && is_new_joiner p
     && (next_slot (log_store_ s) <=? u64 (matched_idx_ p + gap)) then
    b <- lift (cluster_config_serialize (rs_config_ s)) ;;
    c <- lift (from_buf cluster_config_deserialize b) ;;
    let new_conf := set_log_idx (next_slot (log_store_ s)) c
                      <| cc_servers ::= clear_new_joiner (p_id p) |> in
    new_conf_buf <- lift (cluster_config_serialize new_conf) ;;
    store_log_entry (log_entry_new (term_ (state_ s)) (Some new_conf_buf) conf
                       (get_timeofday_us (now_ s)) false 0 true) 0 ;;
    modify (fun s => s <| config_changing_ := true |> <| uncommitted_config_ := Some new_conf |>) ;;
    request_append_entries ;;
    ret true
  else ret false.

(** The successor has the whole log: it is told to take over; whether it was. *)
Definition hand_over (pid : Z) : SM bool :=
  s <- self ;;
  p <- peer_at pid ;;
  if write_paused_ s && (p_id p =? next_leader_candidate_ s) && negb (matched_idx_ p =? 0)
     && (matched_idx_ p =? get_last_log_idx s) then
    free <- ask_peer pid false make_busy ;;
    if free then
      modify (fun s => s <| leader_ := -1 |> <| rand_timeout_ := Rand_resign |>) ;;
      become_follower ;;
      modify (fun s => s <| rand_timeout_ := Rand_uniform |> <| hb_alive_ := false |>) ;;
      req <- log_end_req custom_notification_request (p_id p) ;;
      b <- lift (noti_serialize (mk_noti leadership_takeover None)) ;;
      peer_send pid (req <| rq_log_entries := [log_entry_new 0 (Some b) custom 0 false 0 true] |>)
        resp_handler_ false ;;
      ret true
    else ret false
  else ret false.

(** The server to be removed has seen its removal. *)
Definition leaver_done (resp : resp_msg) (s : server) : bool :=
  bool_decide (srv_to_leave_ s = Some (rs_src resp))
  && match peers_ s !! rs_src resp with Some p => stepping_down_ p | None => false end
  && (srv_to_leave_target_idx_ s <? rs_next_idx resp).

(** The iterator of the peer is used after [check_srv_to_leave_timeout], which
    may have erased it. *)
Definition handle_append_entries_resp (resp : resp_msg) : SM unit :=
  let pid := rs_src resp in
  s <- self ;;
  if is_none (peers_ s !! pid) then ret tt
  else
    check_srv_to_leave_timeout ;;
    s <- self ;;
    if leaver_done resp s then
      remove_peer_from_peers pid ;;
      reset_srv_to_leave
    else if is_none (peers_ s !! pid) then throw Undefined
    else
      let bs_hint := rs_next_batch_size_hint_in_bytes resp in
      upd_peer pid (set_next_batch_size_hint_in_bytes bs_hint) ;;
      need_to_catchup <- (if rs_accepted resp then append_accepted pid resp
                          else append_declined pid resp ;; ret true) ;;
      joined <- end_of_joining pid ;;
      if joined then ret tt
      else
        handed <- hand_over pid ;;
        if handed then ret tt
        else
          s <- self ;;
          when (bool_decide (role_ s = leader))
            (when (need_to_catchup && (0 <=? bs_hint))
               (request_append_entries_peer pid ;; ret tt) ;;
             s <- self ;;
             let '(fired, t) := timeout_and_reset (now_ s) (status_check_timer_ s) in
             modify (fun s => s <| status_check_timer_ := t |>) ;;
             when fired check_overall_status).

(** [handle_peer_resp] on a response to an append request. *)
Definition peer_append_resp (resp : resp_msg) : SM unit :=
  updated <- observe_resp resp ;;
  if updated then ret tt
  else
    callback ReceivedAppendEntriesResp (rs_src resp) ;;
    handle_append_entries_resp resp.

(** [process_req] on an append request. *)
Definition process_append_req (req : req_msg) : SM (option resp_msg) :=
  go <- accepts_req ;;
  if go then
    observe_req_term req ;;
    rc <- callback ReceivedAppendEntriesReq (rq_src req) ;;
    if bool_decide (rc = Cb_Ok) then
      resp <- handle_append_entries req ;;
      rc <- callback SentAppendEntriesResp (rq_src req) ;;
      ret (if bool_decide (rc = Cb_Ok) then resp else None)
    else ret None
  else ret None.

(** ** The end of a log write *)

Definition notify_log_append_completion (ok : bool) : SM unit :=
  s <- self ;;
  if bool_decide (role_ s = leader) then
    if negb ok then
      modify (fun s => s <| leader_ := -1 |>) ;;
      become_follower ;;
      modify (fun s => s <| hb_alive_ := false |>)
    else
      committed_index <- get_expected_committed_log_idx ;;
      commit committed_index ;;
      s' <- self ;;
      when (quick_commit_index_ s <? quick_commit_index_ s') request_append_entries_for_all
  else if negb ok then system_exit N21_log_flush_failed
  else ret tt.

End Leader.
