(* ===== verification/Commit.v ===== *)
(** The commit thread (handle_commit.cc): entries are given to the state machine,
    configurations take effect, clients and watchers are answered, snapshots are
    made and the log is compacted.

    A round of the thread ([commit_in_bg_exec], then [scan_sm_commit_and_notify])
    is one sequential step.  The flag that a round is running, and its awaiter,
    are for other threads and are not kept. *)
From S2P Require Import Prelude Buffer Serializer Codec Messages Peer LogStore Server.
From S2P Require Import Replication Election Follower Leader.

Section Commit.
Context {L : Type} `{LS : LogStore L} `{EV : Env} `{U : Uninit}.

#[local] Abbreviation server := (raft_server L).
#[local] Abbreviation SM := (M (raft_server L)).

Definition N6_no_snapshot_found : Z := -6.

Definition N19_bad_log_idx_for_term : Z := -19.

Definition N20_background_commit_err : Z := -20.

Definition N23_precommit_order_inversion : Z := -23.

Fixpoint for_each {A} (l : list A) (f : A -> SM unit) : SM unit :=
  match l with [] => ret tt | a :: l' => f a ;; for_each l' f end.

(** [try { m } catch (std::exception&) { h }] *)
Definition try_catch {A} (m : SM A) (h : SM A) : SM A := fun s =>
  match m s with
  | (Throw (Out_of_range | Overflow_error | Runtime_error), s') => h s'
  | r => r
  end.

(** ** Client requests *)

(** A request that waits for the entry at its index: its result is [ret_value]. *)
Definition answer_waiting (ret_value : option buffer) (idx : Z) (elem : commit_ret_elem) : SM unit :=
  let elem := elem <| cre_result_code_ := OK |> <| cre_ret_value_ := ret_value |> in
  s <- self ;;
  if track_peers_sm_commit_idx_ (params_ s)
  then modify (fun s => s <| commit_ret_elems_ ::= <[ idx := elem ]> |>)
  else
    match return_method_ (params_ s) with
    | blocking =>
        if cre_callback_invoked_ elem
        then modify (fun s => s <| commit_ret_elems_ ::= delete idx |>)
        else
          modify (fun s => s <| commit_ret_elems_ ::= <[ idx := elem ]> |>) ;;
          emit (Ev_client_result idx OK ret_value)
    | async_handler =>
        modify (fun s => s <| commit_ret_elems_ ::= delete idx |>) ;;
        when (cre_async_result_ elem) (emit (Ev_client_result idx OK ret_value))
    end.

(** The commit thread is faster than the client's thread: the result waits. *)
Definition answer_early (ret_value : option buffer) (idx : Z) : SM unit :=
  s <- self ;;
  let has_result := negb (track_peers_sm_commit_idx_ (params_ s))
                    && bool_decide (return_method_ (params_ s) = async_handler) in
  let elem := mk_commit_ret_elem idx OK ret_value has_result false in
  when (is_none (commit_ret_elems_ s !! idx))
    (modify (fun s => s <| commit_ret_elems_ ::= <[ idx := elem ]> |>)).

Definition answer_client (ret_value : option buffer) (idx pc_idx : Z) : SM unit :=
  s <- self ;;
  match commit_ret_elems_ s !! idx with
  | Some elem =>
      if cre_idx_ elem =? idx then answer_waiting ret_value idx elem
      else when (idx =? pc_idx) (answer_early ret_value idx)
  | None => when (idx =? pc_idx) (answer_early ret_value idx)
  end.

Definition commit_app_log (idx_to_commit : Z) (le : log_entry)
    (need_to_handle_commit_elem : bool) : SM unit :=
  buf <- payload le ;;
  s <- self ;;
  let pc_idx := precommit_index_ s in
  if pc_idx <? idx_to_commit then fatal N23_precommit_order_inversion
  else
    emit (Ev_commit idx_to_commit buf) ;;
    let ret_value := run_state (set_pos 0) <$> sm_commit_ext (trace_ s) idx_to_commit buf in
    when need_to_handle_commit_elem (answer_client ret_value idx_to_commit pc_idx).

(** ** Configurations *)

(** A server of the new configuration that is this one. *)
Definition reconfigure_self (c : srv_config) : SM unit :=
  s <- self ;;
  when (id_ s =? sc_id c)
    (modify (fun s => s <| my_priority_ := sc_priority c |> <| im_learner_ := sc_learner c |>
                        <| steps_to_down_ := 0 |>) ;;
     when (negb (sc_new_joiner c) && bool_decide (role_ s = follower) && catching_up_ (state_ s))
       (upd_state (fun st => st <| catching_up_ := false |>) ;;
        save_state ;;
        restart_election_timer)).

Definition srvs_added (new_config : cluster_config) (s : server) : list srv_config :=
  filter (fun c => is_none (peers_ s !! sc_id c) && negb (id_ s =? sc_id c)) (cc_servers new_config).

Definition srvs_removed (new_config : cluster_config) (s : server) : list Z :=
  filter (fun i => is_none (get_server new_config i)) (map fst (map_to_list (peers_ s)))
  ++ (if is_none (get_server new_config (id_ s)) then [id_ s] else []).

(** The peer object of a server listed twice is dropped; its heartbeat is
    scheduled all the same. *)
Definition add_server (c : srv_config) : SM unit :=
  s <- self ;;
  let id := sc_id c in
  let p := set_next_log_idx (next_slot (log_store_ s))
             (peer_new (now_ s) c (params_ s) (create_client (trace_ s) (sc_endpoint c))) in
  if is_none (peers_ s !! id) then
    modify (fun s => s <| peers_ ::= <[ id := p ]> |>) ;;
    when (bool_decide (role_ s = leader))
      (upd_peer id set_suppress_following_error ;;
       enable_hb_for_peer id ;;
       match srv_to_join_ s with
       | Some j =>
           when (p_id j =? id)
             (upd_peer id (set_next_log_idx (next_log_idx_ j)) ;;
              modify (fun s => s <| srv_to_join_ := None |>))
       | None => ret tt
       end)
  else
    when (bool_decide (role_ s = leader))
      (for_each (snd (enable_hb true p)) (fun o => emit (Ev_peer id o)) ;;
       schedule_task (Heartbeat_task id) (current_hb_interval_ (resume_hb_speed p)) ;;
       when (bool_decide (p_id <$> srv_to_join_ s = Some id))
         (modify (fun s => s <| srv_to_join_ := None |>))).

Definition remove_server (srv_removed : Z) : SM unit :=
  s <- self ;;
  when ((srv_removed =? id_ s) && negb (catching_up_ (state_ s)))
    (callback RemovedFromCluster (-1) ;;
     modify (fun s => s <| steps_to_down_ := 2 |>)) ;;
  s <- self ;;
  when (is_some (peers_ s !! srv_removed))
    (match srv_to_leave_ s with
     | Some leaver =>
         if bool_decide (role_ s = leader) then
           when (match peers_ s !! leaver with
                 | Some p => is_some (snp_sync_ctx_ p)
                 | None => false
                 end)
             (clear_snapshot_sync_ctx leaver)
         else remove_peer_from_peers srv_removed
     | None => remove_peer_from_peers srv_removed
     end).

Definition update_peer_config (c : srv_config) : SM unit :=
  modify (fun s => s <| peers_ ::= fmap (fun p => if p_id p =? sc_id c then set_config c p else p) |>).

Definition reconfigure (new_config : cluster_config) : SM unit :=
  s <- self ;;
  let invoke_join_cb := is_none (get_server (rs_config_ s) (id_ s))
                        && is_some (get_server new_config (id_ s)) in
  for_each (cc_servers new_config) reconfigure_self ;;
  let added := srvs_added new_config s in
  let removed := srvs_removed new_config s in
  for_each added add_server ;;
  for_each removed remove_server ;;
  set_server_config new_config ;;
  modify (fun s =>
    if bool_decide (cc_log_idx <$> uncommitted_config_ s = Some (cc_log_idx new_config))
    then s <| uncommitted_config_ := None |> else s) ;;
  when invoke_join_cb (callback JoinedCluster (-1) ;; ret tt) ;;
  for_each (cc_servers new_config) update_peer_config ;;
  update_target_priority.

Definition commit_conf (idx_to_commit : Z) (le : log_entry) : SM unit :=
  b <- lift (get_entry_buf le) ;;
  new_conf <- lift (from_buf cluster_config_deserialize (run_state (set_pos 0) b)) ;;
  modify (fun s => s <| config_changing_ := false |>) ;;
  s <- self ;;
  when (cc_log_idx (rs_config_ s) <? cc_log_idx new_conf)
    (emit (Ev_save_config new_conf) ;; reconfigure new_conf) ;;
  callback NewConfig (-1) ;;
  emit (Ev_commit_config idx_to_commit new_conf).

(** An entry of configuration that a tool applies without a server; the
    configuration to save, if any. *)
Definition apply_config_log_entry (le : option log_entry) (has_state_mgr : bool)
    : res (option cluster_config) :=
  match le with
  | Some e =>
      if negb has_state_mgr then Ok None
      else if negb (bool_decide (le_value_type e = conf)) then Ok None
      else
        match le_buff e with
        | None => Ok None
        | Some b =>
            let* c := from_buf cluster_config_deserialize (run_state (set_pos 0) b) in
            Ok (Some c)
        end
  | None => Ok None
  end.

(** ** Snapshots *)

(** [compact_async] compacts at once; its handler does nothing. *)
Definition on_snapshot_completed (snp : snapshot) (manual_creation_cb result err : bool) : SM unit :=
  when (negb err && result)
    (s <- self ;;
     let new_snp := sm_last_snapshot (trace_ s) in
     modify (fun s => s <| last_snapshot_ := new_snp |>) ;;
     match new_snp with
     | None => throw Undefined
     | Some n =>
         let reserved := u64 (reserved_log_items_ (params_ s)) in
         when (reserved <? snp_last_log_idx n)
           (with_log (compact (u64 (snp_last_log_idx n - reserved))) ;; ret tt)
     end) ;;
  when manual_creation_cb
    ((if negb err && result then emit (Ev_snapshot_result (snp_last_log_idx snp) OK)
      else emit (Ev_snapshot_result 0 FAILED)) ;;
     modify (fun s => s <| snp_creation_scheduled_ := false |>)) ;;
  modify (fun s => s <| snp_in_progress_ := false |>).

(** The configurations of the log, backwards, to the one in force at
    [committed_idx]. *)
Fixpoint find_config (fuel : nat) (committed_idx : Z) (c : cluster_config) : SM cluster_config :=
  s <- self ;;
  if (committed_idx <? cc_log_idx c) && (start_index (log_store_ s) <=? cc_prev_log_idx c) then
    match fuel with
    | O => throw Blocked
    | S fuel' =>
        le <- with_log (entry_at (cc_prev_log_idx c)) ;;
        match le with
        | None => throw Undefined
        | Some e =>
            b <- lift (get_entry_buf e) ;;
            c' <- lift (from_buf cluster_config_deserialize b) ;;
            find_config fuel' committed_idx c'
        end
    end
  else ret c.

Definition snapshot_config (committed_idx : Z) (local_snp : option snapshot) (c : cluster_config)
    : SM cluster_config :=
  s <- self ;;
  c <- find_config (Z.to_nat (next_slot (log_store_ s) - start_index (log_store_ s))) committed_idx c ;;
  s <- self ;;
  if (committed_idx <? cc_log_idx c) && (0 <? cc_prev_log_idx c)
     && (cc_prev_log_idx c <? start_index (log_store_ s))
  then
    match local_snp with
    | None => fatal N6_no_snapshot_found
    | Some p => ret (snp_last_config p)
    end
  else ret c.

Definition can_create_snapshot (forced_creation : bool) (committed_idx snapshot_distance : Z)
    (s : server) : bool :=
  forced_creation || snp_creation_scheduled_ s
  || match last_snapshot_ s with
     | None => true
     | Some p => u64 (snapshot_distance + snp_last_log_idx p) <=? committed_idx
     end.

(** What follows the setting of [snp_in_progress_]. *)
Definition make_snapshot (committed_idx : Z) : SM bool :=
  s <- self ;;
  let local_snp := last_snapshot_ s in
  if match local_snp with Some p => committed_idx <=? snp_last_log_idx p | None => false end then
    modify (fun s => s <| snp_in_progress_ := false |>) ;; ret false
  else
    let manual_creation_cb := snp_creation_scheduled_ s in
    c <- snapshot_config committed_idx local_snp (rs_config_ s) ;;
    log_term_to_compact <- with_log (term_at committed_idx) ;;
    let new_snapshot := mk_snapshot committed_idx log_term_to_compact 0 c logical_object in
    s <- self ;;
    emit (Ev_create_snapshot new_snapshot) ;;
    match sm_create_snapshot (trace_ s) new_snapshot with
    | Some (result, err) => on_snapshot_completed new_snapshot manual_creation_cb result err
    | None => ret tt
    end ;;
    ret true.

Definition snapshot_and_compact (committed_idx : Z) (forced_creation : bool) : SM bool :=
  s <- self ;;
  let params := params_ s in
  if next_slot (log_store_ s) <=? cc_prev_log_idx (rs_config_ s) then ret false
  else
    let snapshot_distance :=
      if enable_randomized_snapshot_creation_ params && negb (snp_in_progress_ s)
         && is_none (last_snapshot_ s) && negb (snapshot_distance_ params =? 0)
      then first_snapshot_distance_ s else u64 (snapshot_distance_ params) in
    if negb forced_creation && negb (snp_creation_scheduled_ s)
       && ((snapshot_distance_ params =? 0)
           || (u64 (committed_idx - start_index (log_store_ s) + 1) <? snapshot_distance)
           || negb (sm_chk_create_snapshot (trace_ s)))
    then ret false
    else
      rc <- callback SnapshotCreationBegin (-1) ;;
      if negb (bool_decide (rc = Cb_Ok)) then ret false
      else
        s <- self ;;
        if can_create_snapshot forced_creation committed_idx snapshot_distance s
           && negb (snp_in_progress_ s) then
          modify (fun s => s <| snp_in_progress_ := true |>) ;;
          s <- self ;;
          if negb (can_create_snapshot forced_creation committed_idx snapshot_distance s)
          then modify (fun s => s <| snp_in_progress_ := false |>) ;; ret false
          else
            try_catch (make_snapshot committed_idx)
              (modify (fun s => s <| snp_in_progress_ := false |>) ;; ret false)
        else ret false.

Definition create_snapshot : SM Z :=
  s <- self ;;
  created <- snapshot_and_compact (sm_commit_index_ s) true ;;
  ret (if created then sm_commit_index_ s else 0).

(** Whether a result object is given to the caller. *)
Definition schedule_snapshot_creation : SM bool :=
  s <- self ;;
  if snp_creation_scheduled_ s then ret false
  else modify (fun s => s <| snp_creation_scheduled_ := true |>) ;; ret true.

Definition get_last_snapshot_idx (s : server) : Z :=
  match last_snapshot_ s with Some p => snp_last_log_idx p | None => 0 end.

(** ** A round *)

Definition notify_watchers (idx : Z) : SM unit :=
  s <- self ;;
  match sm_watchers_ s !! idx with
  | None => ret tt
  | Some ws =>
      modify (fun s => s <| sm_watchers_ ::= delete idx |>) ;;
      for_each ws (fun w => emit (Ev_sm_watcher w true))
  end.

(** The entry after the state machine's index. *)
Definition commit_one (need_to_handle_commit_elem : bool) : SM unit :=
  s <- self ;;
  let index_to_commit := u64 (sm_commit_index_ s + 1) in
  le <- with_log (entry_at index_to_commit) ;;
  match le with
  | None => fatal N19_bad_log_idx_for_term
  | Some e =>
      if le_term e =? 0 then fatal N19_bad_log_idx_for_term
      else
        match le_value_type e with
        | app_log => commit_app_log index_to_commit e need_to_handle_commit_elem
        | conf => commit_conf index_to_commit e
        | _ => ret tt
        end ;;
        s <- self ;;
        when (sm_commit_index_ s =? u64 (index_to_commit - 1))
          (modify (fun s => s <| sm_commit_index_ := index_to_commit |>) ;;
           snapshot_and_compact index_to_commit false ;;
           callback StateMachineExecution (-1) ;; ret tt) ;;
        notify_watchers index_to_commit
  end.

(** [late]: whether the time given to the round has elapsed.  Each turn commits
    one entry, so that the distance to [quick_commit_index_] is enough fuel. *)
Fixpoint commit_loop (late : history -> bool) (need_to_handle_commit_elem first_loop_exec : bool)
    (fuel : nat) : SM bool :=
  s <- self ;;
  if (sm_commit_index_ s <? quick_commit_index_ s) && (sm_commit_index_ s <? get_last_log_idx s) then
    if negb first_loop_exec && late (trace_ s) then ret false
    else if sm_commit_paused_ s then ret true
    else
      match fuel with
      | O => throw Blocked
      | S fuel' =>
          commit_one need_to_handle_commit_elem ;;
          commit_loop late need_to_handle_commit_elem false fuel'
      end
  else ret true.

(** A follower that lags behind becomes stale, and fresh again. *)
Definition update_freshness : SM unit :=
  s <- self ;;
  when (bool_decide (role_ s = follower))
    (if data_fresh_ s
        && (u64 (sm_commit_index_ s + u64 (stale_log_gap_ (params_ s))) <? leader_commit_index_ s)
     then modify (fun s => s <| data_fresh_ := false |>) ;; callback BecomeStale (-1) ;; ret tt
     else
       when (negb (data_fresh_ s)
             && (leader_commit_index_ s <? u64 (sm_commit_index_ s + u64 (fresh_log_gap_ (params_ s)))))
         (modify (fun s => s <| data_fresh_ := true |>) ;; callback BecomeFresh (-1) ;; ret tt)).

Definition commit_in_bg_exec (late : history -> bool) : SM bool :=
  modify (fun s =>
    let log_start_idx := start_index (log_store_ s) in
    if negb (log_start_idx =? 0) && (sm_commit_index_ s <? log_start_idx - 1)
    then s <| sm_commit_index_ := log_start_idx - 1 |> else s) ;;
  s <- self ;;
  let need_to_handle_commit_elem := is_leader s && negb (cc_async_replication (rs_config_ s)) in
  finished_in_time <- commit_loop late need_to_handle_commit_elem true
    (Z.to_nat (quick_commit_index_ s - sm_commit_index_ s)) ;;
  update_freshness ;;
  s <- self ;;
  when (track_peers_sm_commit_idx_ (params_ s))
    (target_idx <- find_sm_commit_idx_to_notify ;;
     update_sm_commit_notifier_target_idx target_idx ;; ret tt) ;;
  ret finished_in_time.

(** A request that all state machines have committed. *)
Definition notify_committed (e : Z * commit_ret_elem) : SM unit :=
  let '(idx, elem) := e in
  s <- self ;;
  match return_method_ (params_ s) with
  | blocking =>
      if cre_callback_invoked_ elem
      then modify (fun s => s <| commit_ret_elems_ ::= delete idx |>)
      else emit (Ev_client_result idx (cre_result_code_ elem) (cre_ret_value_ elem))
  | async_handler =>
      modify (fun s => s <| commit_ret_elems_ ::= delete idx |>) ;;
      when (cre_async_result_ elem) (emit (Ev_client_result idx OK (cre_ret_value_ elem)))
  end.

Definition scan_sm_commit_and_notify (idx_upto : Z) : SM unit :=
  s <- self ;;
  when (track_peers_sm_commit_idx_ (params_ s))
    (for_each (filter (fun e => fst e <= idx_upto) (map_to_list (commit_ret_elems_ s)))
       notify_committed ;;
     modify (fun s => s <| sm_commit_notifier_notified_idx_ := idx_upto |>)).

(** Whether the thread waits on its condition variable before a round. *)
Definition commit_thread_sleeps (s : server) : bool :=
  ((quick_commit_index_ s <=? sm_commit_index_ s)
   || (get_last_log_idx s <=? sm_commit_index_ s) || sm_commit_paused_ s)
  && (sm_commit_notifier_target_idx_ s =? sm_commit_notifier_notified_idx_ s).

(** An exception ends the process. *)
Definition commit_round : SM unit :=
  try_catch
    (commit_in_bg_exec (fun _ => false) ;;
     s <- self ;;
     when (sm_commit_notifier_notified_idx_ s <? sm_commit_notifier_target_idx_ s)
       (scan_sm_commit_and_notify (sm_commit_notifier_target_idx_ s)))
    (fatal N20_background_commit_err).

Definition reset_sm_commit_notifier_target_idx (expected : Z) : SM bool :=
  modify (fun s => s <| sm_commit_notifier_notified_idx_ := expected |>) ;; ret true.

Definition pause_state_machine_execution : SM unit :=
  modify (fun s => s <| sm_commit_paused_ := true |>).

Definition resume_state_machine_execution : SM unit :=
  modify (fun s => s <| sm_commit_paused_ := false |>) ;; emit Ev_wake_commit.

End Commit.
