(* ===== verification/Quorum.v ===== *)
(** Quorums: how many members a commit or an election needs, and the index that
    [get_expected_committed_log_idx] commits. *)
From stdpp Require Import sorting.
From S2P Require Import Prelude Buffer Serializer Codec Messages Peer LogStore Server.
From S2P Require Import Replication Election Startup Samples Follower Leader.

(** How many of [l] have reached [j]. *)
Definition reached (j : Z) (l : list Z) : Z := zlen (filter (fun i => j <= i) l).

Lemma reached_perm j l l' : l ≡ₚ l' -> reached j l = reached j l'.
Proof. intros H. unfold reached, zlen. by rewrite H. Qed.

Lemma reached_all j l : Forall (fun i => j <= i) l -> reached j l = zlen l.
Proof.
  unfold reached. induction 1 as [|i l Hi Hl IH]; [done|].
  rewrite filter_cons_True by done. rewrite !zlen_cons. lia.
Qed.

Lemma reached_none j l : Forall (fun i => i < j) l -> reached j l = 0.
Proof.
  unfold reached. induction 1 as [|i l Hi Hl IH]; [done|]. by rewrite filter_cons_False by lia.
Qed.

Lemma reached_app j l l' : reached j (l ++ l') = reached j l + reached j l'.
Proof. unfold reached. rewrite filter_app. zlen_lia. Qed.

Lemma reached_le j l : 0 <= reached j l <= zlen l.
Proof. unfold reached, zlen. pose proof (length_filter (fun i => j <= i) l). lia. Qed.

(** The element at [k] of a list in descending order: more than [k] elements are
    as large, and at most [k] larger. *)
Lemma sorted_kth l k i :
  StronglySorted Z.ge l -> l !! k = Some i ->
  Z.of_nat k < reached i l /\ (forall j, i < j -> reached j l <= Z.of_nat k).
Proof.
  intros Hs Hk. pose proof (lookup_lt_Some _ _ _ Hk) as Hl.
  rewrite <- (take_drop_middle l k i Hk) in Hs |- *.
  apply StronglySorted_app in Hs as (Hg & _ & [Hi _]%StronglySorted_cons).
  assert (zlen (take k l) = Z.of_nat k) as Ht by (unfold zlen; rewrite length_take_le; lia).
  setoid_rewrite reached_app. split.
  - rewrite (reached_all i (take k l)), Ht.
    + unfold reached. rewrite filter_cons_True, zlen_cons by lia.
      pose proof (zlen_nonneg (filter (fun x => i <= x) (drop (S k) l))). lia.
    + apply Forall_forall. intros x Hx. assert (x >= i) by (apply Hg; [done|left]). lia.
  - intros j Hj. pose proof (reached_le j (take k l)).
    rewrite (reached_none j (i :: drop (S k) l)); [lia|]. constructor; [lia|].
    eapply Forall_impl; [exact Hi|]. cbn. lia.
Qed.

#[local] Instance ge_trans : Transitive Z.ge.
Proof. intros x y z. lia. Qed.

#[local] Instance ge_total : Total Z.ge.
Proof. intros x y. lia. Qed.

Section Quorum.
Context {L : Type} `{LS : LogStore L} `{EV : Env} `{U : Uninit}.

#[local] Abbreviation server := (raft_server L).

(** How many voting members have stored the entries up to [j], as far as the
    leader knows, itself included. *)
Definition acked (s : server) (j : Z) : Z := reached j (matched_indexes s).

Lemma matched_len (s : server) :
  im_learner_ s = false -> zlen (matched_indexes s) = get_num_voting_members s.
Proof.
  intros Hl. unfold matched_indexes, get_num_voting_members, voting_peers. rewrite Hl.
  rewrite zlen_cons, zlen_map. lia.
Qed.

Lemma without_receivers_range (s : server) n : 0 <= n -> 0 <= without_snp_receivers s n <= n.
Proof.
  unfold without_snp_receivers. generalize (peer_list s). intros l. revert n.
  induction l as [|p l IH]; cbn; intros n Hn; [lia|].
  destruct (Z.eqb_spec n 0); cbn [negb andb]; [by subst; apply (IH 0)|].
  destruct (is_some _); [|by apply IH]. pose proof (IH (n - 1) ltac:(lia)). lia.
Qed.

Lemma not_responding_range (s : server) e r : 0 <= get_not_responding_peers_count s e r.
Proof. apply zlen_nonneg. Qed.

Lemma voting_pos (s : server) : im_learner_ s = false -> 1 <= get_num_voting_members s.
Proof.
  intros Hl. unfold get_num_voting_members. rewrite Hl.
  pose proof (zlen_nonneg (filter (fun p => is_regular_member s p) (peer_list s))). lia.
Qed.

Lemma quorum_for_commit_range (s : server) :
  im_learner_ s = false -> 0 <= get_quorum_for_commit s < get_num_voting_members s.
Proof.
  intros Hl. pose proof (voting_pos s Hl) as Hv. unfold get_quorum_for_commit.
  set (n := if exclude_snp_receiver_from_quorum_ _ then _ else _).
  assert (0 <= n <= get_num_voting_members s) as Hn.
  { subst n. destruct (exclude_snp_receiver_from_quorum_ _); [|lia]. apply without_receivers_range. lia. }
  clearbody n. pose proof (Z.div_lt_upper_bound n 2 (get_num_voting_members s)).
  pose proof (Z.div_pos n 2).
  destruct (Z.leb_spec (custom_commit_quorum_size_ (params_ s)) 0); cbn [orb]; [lia|].
  destruct (Z.ltb_spec n (custom_commit_quorum_size_ (params_ s))); lia.
Qed.

Lemma quorum_idx_range (s : server) :
  im_learner_ s = false -> get_num_voting_members s < 2 ^ 31 ->
  get_quorum_for_commit s <= quorum_idx s < get_num_voting_members s.
Proof.
  intros Hl Hb. pose proof (quorum_for_commit_range s Hl) as Hq. unfold quorum_idx.
  destruct (_ && _); [|lia].
  set (n := get_not_responding_peers_count _ _ _). pose proof (zlen_nonneg (get_not_responding_peers s 0)).
  assert (0 <= n) by apply not_responding_range. clearbody n.
  rewrite u64_small by (unfold is_u64; lia). destruct (Z.ltb_spec n (get_num_voting_members s - get_quorum_for_commit s)); lia.
Qed.

(** A commit needs a majority of the voting members, unless the user sets the
    quorum or leaves out the receivers of snapshots. *)
Lemma commit_needs_majority (s : server) :
  im_learner_ s = false -> get_num_voting_members s < 2 ^ 31 ->
  custom_commit_quorum_size_ (params_ s) <= 0 ->
  exclude_snp_receiver_from_quorum_ (params_ s) = false ->
  get_num_voting_members s < 2 * (quorum_idx s + 1).
Proof.
  intros Hl Hb Hc Hx. pose proof (quorum_idx_range s Hl Hb) as [Hq _]. revert Hq.
  unfold get_quorum_for_commit. rewrite Hx.
  destruct (Z.leb_spec (custom_commit_quorum_size_ (params_ s)) 0); [|lia]. cbn [orb].
  pose proof (Z.div_mod (get_num_voting_members s) 2). pose proof (Z.mod_pos_bound (get_num_voting_members s) 2). lia.
Qed.

Lemma expected_commit_index (s : server) :
  im_learner_ s = false -> get_num_voting_members s < 2 ^ 31 ->
  exists i, get_expected_committed_log_idx s
    = (Ok (sm_adjust_commit_index (trace_ s) (quick_commit_index_ s) i (peer_index_map s)), s) /\
    quorum_idx s < acked s i /\ (forall j, i < j -> acked s j <= quorum_idx s).
Proof.
  intros Hl Hb. pose proof (quorum_idx_range s Hl Hb) as Hq. pose proof (quorum_for_commit_range s Hl).
  destruct (lookup_lt_is_Some_2 (merge_sort Z.ge (matched_indexes s)) (Z.to_nat (quorum_idx s))) as (i & Hi).
  { rewrite (Permutation_length (merge_sort_Permutation Z.ge _)).
    pose proof (matched_len s Hl). unfold zlen in *. lia. }
  exists i. split.
  { unfold get_expected_committed_log_idx, self, bind. cbv beta iota. by rewrite Hi. }
  destruct (sorted_kth _ _ _ (StronglySorted_merge_sort Z.ge _) Hi) as (H1 & H2).
  unfold acked. setoid_rewrite (reached_perm _ _ _ (merge_sort_Permutation Z.ge (matched_indexes s))) in H2.
  rewrite (reached_perm _ _ _ (merge_sort_Permutation Z.ge (matched_indexes s))) in H1.
  rewrite Z2Nat.id in * by lia. done.
Qed.

(** C7: the index a leader commits is the largest that enough members have
    stored, the leader included: more than [quorum_idx] of them have it and at
    most [quorum_idx] have a larger one.  With the default quorum these are a
    majority of the voting members.  The state machine may adjust the index. *)
Theorem commit_index_has_quorum (s : server) :
  im_learner_ s = false -> get_num_voting_members s < 2 ^ 31 ->
  exists i, run_val get_expected_committed_log_idx s
      = Ok (sm_adjust_commit_index (trace_ s) (quick_commit_index_ s) i (peer_index_map s)) /\
    quorum_idx s < acked s i /\
    (forall j, i < j -> acked s j <= quorum_idx s) /\
    (custom_commit_quorum_size_ (params_ s) <= 0 ->
     exclude_snp_receiver_from_quorum_ (params_ s) = false ->
     get_num_voting_members s < 2 * acked s i).
Proof.
  intros Hl Hb. destruct (expected_commit_index s Hl Hb) as (i & E & H1 & H2).
  exists i. unfold run_val. rewrite E. split_and!; [done|done|done|].
  intros Hc Hx. pose proof (commit_needs_majority s Hl Hb Hc Hx). lia.
Qed.

End Quorum.

(** * An example *)

Section SampleQuorum.

#[local] Existing Instance zeroed.
#[local] Existing Instance sample_env.

(** A leader with the entries up to 5, whose followers have those up to 4 and 2. *)
Definition sample_leader : raft_server inmem_log_store :=
  (trio_server 1) <| role_ := leader |> <| leader_ := 1 |> <| precommit_index_ := 5 |>
    <| peers_ ::= alter (set_matched_idx 4) 2 |> <| peers_ ::= alter (set_matched_idx 2) 3 |>.

Lemma commit_index_has_quorum_witness :
  exists i, run_val get_expected_committed_log_idx sample_leader = Ok i /\
    1 < acked sample_leader i /\ (forall j, i < j -> acked sample_leader j <= 1) /\
    3 < 2 * acked sample_leader i.
Proof.
  assert (im_learner_ sample_leader = false) as Hl by (vm_compute; reflexivity).
  assert (get_num_voting_members sample_leader = 3) as Hn by (vm_compute; reflexivity).
  assert (quorum_idx sample_leader = 1) as Hq by (vm_compute; reflexivity).
  destruct (commit_index_has_quorum sample_leader Hl) as (i & E & H1 & H2 & H3); [rewrite Hn; lia|].
  exists i. rewrite Hn, Hq in *. split; [exact E|]. split; [exact H1|]. split; [exact H2|].
  apply H3; vm_compute; [congruence|reflexivity].
Defined.

End SampleQuorum.
