(* ===== verification/Total.v ===== *)
(** Operations that always return, and what they leave alone of the log and of
    the state the log depends on. *)
From S2P Require Import Prelude Buffer Serializer Codec Messages Peer LogStore Server.
From S2P Require Import Replication Election Follower.

Create HintDb total.

Section Total.
Context {L : Type} `{LS : LogStore L} `{EV : Env} `{U : Uninit}.

#[local] Abbreviation server := (raft_server L).
#[local] Abbreviation SM := (M (raft_server L)).

(** The clients that wait without blocking have a result object. *)
Definition results_set (s : server) : Prop :=
  return_method_ (params_ s) = blocking \/
  map_Forall (fun _ e => cre_async_result_ e = true) (commit_ret_elems_ s).

(** The term and what decides how entries are received. *)
Record same_context (s s' : server) : Prop := {
  un_term : term_ (state_ s') = term_ (state_ s);
  un_receiving : receiving_snapshot_ (state_ s') = receiving_snapshot_ (state_ s);
  un_parallel : parallel_log_appending_ (params_ s') = parallel_log_appending_ (params_ s);
  un_stopping : stopping_ s' = stopping_ s;
  un_snapshot : last_snapshot_ s' = last_snapshot_ s;
  un_role : role_ s <> leader -> role_ s' <> leader;
  un_results : results_set s -> results_set s'
}.

#[export] Instance same_context_preorder : PreOrder same_context.
Proof.
  split; [by split|]. intros s1 s2 s3 [] []. split; try congruence; auto.
Qed.

(** The log is kept, too. *)
Definition undisturbed (s s' : server) : Prop :=
  log_store_ s' = log_store_ s /\ same_context s s'.

#[export] Instance undisturbed_preorder : PreOrder undisturbed.
Proof.
  split; [by repeat split|]. intros s1 s2 s3 [] []. split; [congruence|by etrans].
Qed.

(** [m] returns from every state, and the state it leaves is related to it. *)
Definition returns {A} (R : server -> server -> Prop) (m : SM A) : Prop :=
  forall s, exists a s', m s = (Ok a, s') /\ R s s'.

Section Returns.
Context (R : server -> server -> Prop) {HR : PreOrder R}.

Lemma returns_ret {A} (a : A) : returns R (ret a).
Proof. intros s. by exists a, s. Qed.

Lemma returns_self : returns R self.
Proof. intros s. by exists s, s. Qed.

Lemma returns_gets {A} (f : server -> A) : returns R (gets f).
Proof. intros s. by exists (f s), s. Qed.

Lemma returns_modify f : (forall s, R s (f s)) -> returns R (modify f).
Proof. intros H s. by exists tt, (f s). Qed.

Lemma returns_bind {A B} (m : SM A) (k : A -> SM B) :
  returns R m -> (forall a, returns R (k a)) -> returns R (bind m k).
Proof.
  intros Hm Hk s. destruct (Hm s) as (a & s1 & E1 & U1), (Hk a s1) as (b & s2 & E2 & U2).
  exists b, s2. split; [|by etrans]. unfold bind. by rewrite E1.
Qed.

Lemma returns_when c (m : SM unit) : returns R m -> returns R (when c m).
Proof. intros H. destruct c; [done|apply returns_ret]. Qed.

Lemma returns_for_all ids f : (forall i, returns R (f i)) -> returns R (for_all ids f).
Proof.
  intros H. induction ids as [|i ids IH]; cbn; [apply returns_ret|]. by apply returns_bind.
Qed.

Lemma returns_for_peers f : (forall i, returns R (f i)) -> returns R (for_peers f).
Proof. intros H. apply returns_bind; [apply returns_self|]. intros. by apply returns_for_all. Qed.

End Returns.

(** [m] returns from every state and leaves it undisturbed. *)
Definition total {A} (m : SM A) : Prop := returns undisturbed m.

Lemma total_ret {A} (a : A) : total (ret a).
Proof. apply (returns_ret _). Qed.

Lemma total_self : total self.
Proof. apply (returns_self _). Qed.

Lemma total_gets {A} (f : server -> A) : total (gets f).
Proof. apply (returns_gets _). Qed.

Lemma total_modify f : (forall s, undisturbed s (f s)) -> total (modify f).
Proof. apply (returns_modify _). Qed.

Lemma total_bind {A B} (m : SM A) (k : A -> SM B) :
  total m -> (forall a, total (k a)) -> total (bind m k).
Proof. apply (returns_bind _). Qed.

Lemma total_when c (m : SM unit) : total m -> total (when c m).
Proof. apply (returns_when _). Qed.

Lemma total_emit e : total (emit e).
Proof. apply total_modify. by split. Qed.

Lemma total_save : total save_state.
Proof. unfold save_state. apply total_bind; [apply total_gets|]. intros. apply total_emit. Qed.

Lemma total_callback t p : total (callback t p).
Proof.
  unfold callback. apply total_bind; [apply total_gets|]. intros.
  apply total_bind; [apply total_emit|]. intros. apply total_ret.
Qed.

Lemma total_upd_peer pid f : total (upd_peer pid f).
Proof. apply total_modify. by split. Qed.

Lemma total_on_peer pid f : total (on_peer pid f).
Proof.
  apply total_modify. intros s. destruct (peers_ s !! pid) as [p|]; [|done].
  destruct (f p). by repeat split.
Qed.

Lemma total_for_all ids f : (forall i, total (f i)) -> total (for_all ids f).
Proof. apply (returns_for_all _). Qed.

Lemma total_for_peers f : (forall i, total (f i)) -> total (for_peers f).
Proof. apply (returns_for_peers _). Qed.

Lemma total_lift {A} (r : res A) a : r = Ok a -> total (lift r).
Proof. intros -> s. by exists a, s. Qed.

End Total.

Ltac total_step :=
  lazymatch goal with
  | |- forall _, _ => intros ?
  | |- total (let x := _ in _) => cbn zeta
  | |- total (bind _ _) => apply total_bind
  | |- total (ret _) => apply total_ret
  | |- total self => apply total_self
  | |- total (gets _) => apply total_gets
  | |- total (when _ _) => apply total_when
  | |- total (emit _) => apply total_emit
  | |- total save_state => apply total_save
  | |- total (callback _ _) => apply total_callback
  | |- total (modify _) => apply total_modify; intros ?; split_ifs; by repeat split
  | |- total (upd_state _) => apply total_modify; intros ?; by repeat split
  | |- total (upd_peer _ _) => apply total_upd_peer
  | |- total (on_peer _ _) => apply total_on_peer
  | |- total (for_peers _) => apply total_for_peers
  | |- total (for_all _ _) => apply total_for_all
  | |- total (if ?b then _ else _) => destruct b
  | |- total (match ?x with _ => _ end) => destruct x
  end.

Ltac total_solve := repeat first [solve [eauto 2 with total nocore] | total_step].

Section TotalOps.
Context {L : Type} `{LS : LogStore L} `{EV : Env} `{U : Uninit}.

#[local] Abbreviation SM := (M (raft_server L)).

Lemma total_schedule t ms : total (L := L) (schedule_task t ms).
Proof. unfold schedule_task. total_solve. Qed.

Lemma total_cancel t : total (L := L) (cancel_task t).
Proof. unfold cancel_task. total_solve. Qed.

#[local] Hint Resolve total_schedule total_cancel : total.

Lemma total_restart_timer : total (L := L) restart_election_timer.
Proof. unfold restart_election_timer, draw_timeout. total_solve. Qed.

#[local] Hint Resolve total_restart_timer : total.

Lemma total_cancel_all (l : list commit_ret_elem) :
  Forall (fun e => cre_async_result_ e = true) l -> total (L := L) (cancel_all_async l).
Proof.
  induction 1 as [|e l He _ IH]; cbn; [apply total_ret|].
  apply total_bind; [unfold cancel_async; rewrite He; apply total_emit|done].
Qed.

Lemma total_clear : total (L := L) (modify (fun s => s <| commit_ret_elems_ := ∅ |>)).
Proof. apply total_modify. intros s. split; [done|split; try done]. intros _. right. apply map_Forall_empty. Qed.

Lemma drop_pending_returns (s : raft_server L) :
  results_set s -> exists s', drop_all_pending_commit_elems s = (Ok tt, s') /\ undisturbed s s'.
Proof.
  intros H. unfold drop_all_pending_commit_elems. unfold self, bind at 1.
  destruct (bool_decide_reflect (return_method_ (params_ s) = blocking)) as [_|N].
  - assert (T : total (L := L) (for_all (map (fun e => cre_idx_ (snd e)) (map_to_list (commit_ret_elems_ s)))
      (fun i => emit (Ev_client_result i CANCELLED None)) ;; modify (fun s => s <| commit_ret_elems_ := ∅ |>)))
      by (apply total_bind; [total_solve|intros; apply total_clear]).
    destruct (T s) as ([] & s' & E & Un). by exists s'.
  - destruct H as [?|H]; [done|].
    assert (T : total (L := L) (modify (fun s => s <| commit_ret_elems_ := ∅ |>) ;;
      cancel_all_async (map snd (map_to_list (commit_ret_elems_ s))))).
    { apply total_bind; [apply total_clear|]. intros _. apply total_cancel_all, Forall_forall.
      intros e ([i e'] & -> & Hin%elem_of_map_to_list)%list_elem_of_fmap. by apply (H i). }
    destruct (T s) as ([] & s' & E & Un). by exists s'.
Qed.

(** [m] returns from [s] and leaves it undisturbed. *)
Definition total_at {A} (m : SM A) (s : raft_server L) : Prop :=
  exists a s', m s = (Ok a, s') /\ undisturbed s s'.

Lemma total_at_bind {A B} (m : SM A) (k : A -> SM B) s :
  total m -> (forall a s', undisturbed s s' -> total_at (k a) s') -> total_at (bind m k) s.
Proof.
  intros Hm Hk. destruct (Hm s) as (a & s1 & E1 & U1), (Hk a s1 U1) as (b & s2 & E2 & U2).
  exists b, s2. split; [|by etrans]. unfold bind. by rewrite E1.
Qed.

Lemma become_follower_returns (s : raft_server L) : results_set s -> total_at become_follower s.
Proof.
  intros H. unfold become_follower.
  do 6 (apply total_at_bind; [total_solve|intros ? ? ?]).
  match goal with |- total_at _ ?s1 => assert (Hs : undisturbed s s1) by (by repeat (etrans; [eassumption|])) end.
  destruct (drop_pending_returns _ (un_results _ _ (proj2 Hs) H)) as (s1 & E & U1).
  destruct (total_restart_timer s1) as ([] & s2 & E2 & U2).
  exists tt, s2. split; [unfold bind; by rewrite E, E2 | by etrans].
Qed.

Lemma total_update_target : total (L := L) update_target_priority.
Proof. unfold update_target_priority. total_solve. Qed.

Lemma total_catching_up : total (L := L) check_catching_up.
Proof. unfold check_catching_up. total_solve. Qed.

Lemma total_precommit i : total (L := L) (try_update_precommit_index i).
Proof. unfold try_update_precommit_index. total_solve. Qed.

End TotalOps.

#[export] Hint Resolve total_schedule total_cancel total_restart_timer total_update_target total_catching_up total_precommit : total.
