(* ===== verification/Append.v ===== *)
(** What an append request does to the log of a follower: the entries it
    already has are skipped, from the first one that differs on the log is
    replaced. *)
From S2P Require Import Prelude Buffer Serializer Codec Messages Peer LogStore Server.
From S2P Require Import Replication Election Startup Samples Follower Total.

(** * On the abstract log *)

Definition al_appends (es : list log_entry) (a : alog) : alog :=
  fold_left (fun a e => al_append (rewound e) a) es a.

(** The entries [es] replace the log from the index [i] on. *)
Definition al_replace (i : Z) (es : list log_entry) (a : alog) : alog :=
  match es with [] => a | e :: es' => al_appends es' (al_write i (rewound e) a) end.

(** Those at the front that the log has, by their terms, are skipped. *)
Fixpoint al_merge (i : Z) (es : list log_entry) (a : alog) : alog :=
  match es with
  | [] => a
  | e :: es' =>
      if (i <? al_next a) && (al_term a i =? le_term e) then al_merge (i + 1) es' a
      else al_replace i es a
  end.

Lemma al_write_end a e : al_write (al_next a) e a = al_append e a.
Proof.
  unfold al_write, al_append, al_next, upd, eta. cbn.
  replace (_ - _) with (zlen (al_entries a)) by lia. by rewrite ztake_all.
Qed.

Lemma al_append_next a e : al_next (al_append e a) = al_next a + 1.
Proof. unfold al_next, al_append. cbn. zlen_lia. Qed.

Lemma al_appends_next es a : al_next (al_appends es a) = al_next a + zlen es.
Proof.
  revert a. induction es as [|e es IH]; intros a; cbn [al_appends fold_left].
  - rewrite zlen_nil. lia.
  - fold (al_appends es (al_append (rewound e) a)). rewrite IH, al_append_next, zlen_cons. lia.
Qed.

Lemma al_appends_start es a : al_start (al_appends es a) = al_start a.
Proof. revert a. induction es as [|e es IH]; intros a; [done|]. exact (IH (al_append (rewound e) a)). Qed.

Lemma al_at_appends es a i :
  i < al_next a -> al_at (al_appends es a) i = al_at a i.
Proof.
  revert a. induction es as [|e es IH]; intros a Hi; [done|]. cbn [al_appends fold_left].
  fold (al_appends es (al_append (rewound e) a)).
  rewrite IH by (rewrite al_append_next; lia). rewrite al_at_append. by rewrite decide_False by lia.
Qed.

(** The entries appended are there, in order. *)
Lemma al_at_appended es a k e :
  al_start a <= al_next a ->
  es !! k = Some e -> al_at (al_appends es a) (al_next a + Z.of_nat k) = Some (rewound e).
Proof.
  revert a k. induction es as [|e' es IH]; intros a k Ha Hk; [done|]. cbn [al_appends fold_left].
  fold (al_appends es (al_append (rewound e') a)). destruct k as [|k]; cbn in Hk.
  - injection Hk as ->. rewrite Z.add_0_r, al_at_appends by (rewrite al_append_next; lia).
    rewrite al_at_append. by rewrite decide_True.
  - replace (al_next a + Z.of_nat (S k)) with (al_next (al_append (rewound e') a) + Z.of_nat k)
      by (rewrite al_append_next; lia).
    apply IH; [|done]. rewrite al_append_next. cbn. lia.
Qed.

(** ** Properties of a merge *)

Section Merge.
Context (a : alog).
Hypothesis a_ok : al_start a <= al_next a.

Lemma al_at_replace i es j :
  al_start a <= i <= al_next a -> j < i -> al_at (al_replace i es a) j = al_at a j.
Proof.
  intros Hi Hj. destruct es as [|e es]; [done|]. cbn.
  rewrite al_at_appends by (rewrite al_write_next; lia). rewrite al_at_write by done.
  rewrite decide_False by lia. by rewrite ltb_true.
Qed.

Lemma al_at_replaced i es k e :
  al_start a <= i <= al_next a -> es !! k = Some e ->
  al_at (al_replace i es a) (i + Z.of_nat k) = Some (rewound e).
Proof.
  intros Hi. destruct es as [|e' es]; [done|]. cbn [al_replace].
  pose proof (al_write_next a i (rewound e') Hi) as N. destruct k as [|k]; cbn.
  - intros [= ->]. rewrite Z.add_0_r, al_at_appends by lia. rewrite al_at_write by done.
    by rewrite decide_True.
  - intros Hk. replace (i + Z.of_nat (S k)) with (al_next (al_write i (rewound e') a) + Z.of_nat k) by lia.
    apply al_at_appended; [rewrite N; cbn; lia|done].
Qed.

(** What precedes the entries is kept. *)
Lemma merge_prefix i es j :
  al_start a <= i <= al_next a -> j < i -> al_at (al_merge i es a) j = al_at a j.
Proof.
  revert i. induction es as [|e es IH]; intros i Hi Hj; [done|]. cbn [al_merge].
  destruct (_ && _) eqn:E; [|by apply al_at_replace]. bool_to_prop. apply IH; lia.
Qed.

(** After a merge the log has, at the index of each entry, one of its term. *)
Lemma merge_terms i es k e :
  al_start a <= i <= al_next a -> es !! k = Some e ->
  al_term (al_merge i es a) (i + Z.of_nat k) = le_term e.
Proof.
  revert i k. induction es as [|e' es IH]; intros i k Hi; [done|]. cbn [al_merge].
  destruct (_ && _) eqn:E; cycle 1.
  { intros Hk. unfold al_term. rewrite (al_at_replaced i (e' :: es) k e) by done. apply rewound_term. }
  bool_to_prop. destruct k as [|k]; cbn.
  - intros [= ->]. rewrite Z.add_0_r. unfold al_term in *. by rewrite merge_prefix by lia.
  - intros Hk. replace (i + Z.of_nat (S k)) with (i + 1 + Z.of_nat k) by lia. apply IH; [lia|done].
Qed.

(** Nothing changes when the log has all of them, however long it is. *)
Lemma merge_same i es :
  (forall k e, es !! k = Some e -> i + Z.of_nat k < al_next a /\
                al_term a (i + Z.of_nat k) = le_term e) ->
  al_merge i es a = a.
Proof.
  revert i. induction es as [|e es IH]; intros i H; [done|]. cbn [al_merge].
  destruct (H 0%nat e eq_refl) as [H1 H2]. rewrite Z.add_0_r in H1, H2.
  rewrite ltb_true, H2, Z.eqb_refl by done. cbn [andb]. apply IH.
  intros k e' Hk. destruct (H (S k) e' Hk). by replace (i + 1 + Z.of_nat k) with (i + Z.of_nat (S k)) by lia.
Qed.

Lemma merge_next i es :
  al_start a <= i <= al_next a -> i + zlen es <= al_next (al_merge i es a).
Proof.
  revert i. induction es as [|e es IH]; intros i Hi; cbn [al_merge].
  - rewrite zlen_nil. lia.
  - rewrite zlen_cons. destruct (_ && _) eqn:E.
    + bool_to_prop. specialize (IH (i + 1)). lia.
    + cbn [al_replace]. rewrite al_appends_next, al_write_next by done. lia.
Qed.

End Merge.

Lemma merge_start i es a : al_start (al_merge i es a) = al_start a.
Proof.
  revert i. induction es as [|e es IH]; intros i; cbn [al_merge]; [done|].
  destruct (_ && _); [apply IH|]. cbn [al_replace]. by rewrite al_appends_start.
Qed.

(** A request that arrives twice changes the log once. *)
Lemma merge_idempotent i es a :
  al_start a <= i <= al_next a -> al_merge i es (al_merge i es a) = al_merge i es a.
Proof.
  intros Hi. assert (al_start a <= al_next a) as Ha by lia. apply merge_same. intros k e Hk. split.
  - pose proof (merge_next a i es Hi). apply lookup_lt_Some in Hk. unfold zlen in *. lia.
  - by apply merge_terms.
Qed.

(** * On the server *)

Section Append.
Context {L : Type} `{LSS : LogStoreSpec L} `{EV : Env} `{U : Uninit}.

#[local] Abbreviation server := (raft_server L).
#[local] Abbreviation SM := (M (raft_server L)).

Definition log_of (s : server) : alog := ls_view (log_store_ s).

(** From [s], [m] returns a value that satisfies [Q] and the log becomes [a]. *)
Definition logs_to {A} (m : SM A) (s : server) (a : alog) (Q : A -> Prop) : Prop :=
  exists x s', m s = (Ok x, s') /\ ls_ok (log_store_ s') /\ log_of s' = a /\
    same_context s s' /\ Q x.

Lemma logs_bind {A B} (m : SM A) (k : A -> SM B) s a1 a2 P Q :
  logs_to m s a1 P ->
  (forall x s1, P x -> ls_ok (log_store_ s1) -> log_of s1 = a1 -> same_context s s1 ->
     logs_to (k x) s1 a2 Q) ->
  logs_to (bind m k) s a2 Q.
Proof.
  intros (x & s1 & E & O & V & C & HP) Hk.
  destruct (Hk x s1 HP O V C) as (y & s2 & E2 & O2 & V2 & C2 & HQ).
  exists y, s2. split_and!; try done; [|by etrans]. unfold bind. by rewrite E.
Qed.

Lemma logs_total {A} (m : SM A) s :
  total m -> ls_ok (log_store_ s) -> logs_to m s (log_of s) (fun _ => True).
Proof.
  intros H O. destruct (H s) as (x & s' & E & (El & C)). exists x, s'.
  unfold log_of. by rewrite El.
Qed.

Lemma logs_ret {A} (x : A) s (Q : A -> Prop) :
  ls_ok (log_store_ s) -> Q x -> logs_to (ret x) s (log_of s) Q.
Proof. intros O HQ. by exists x, s. Qed.

Lemma logs_self {B} (k : server -> SM B) s a Q :
  logs_to (k s) s a Q -> logs_to (bind self k) s a Q.
Proof. intros (x & s' & E & H). exists x, s'. by split. Qed.

Lemma logs_run {A B} (m : SM A) (k : A -> SM B) s s1 x a Q :
  m s = (Ok x, s1) -> same_context s s1 -> logs_to (k x) s1 a Q -> logs_to (bind m k) s a Q.
Proof.
  intros E C (y & s2 & E2 & O2 & V2 & C2 & HQ). exists y, s2. split_and!; try done; [|by etrans].
  unfold bind. by rewrite E.
Qed.

Lemma logs_un {A B} (m : SM A) (k : A -> SM B) s a Q :
  total m -> (forall x s1, undisturbed s s1 -> logs_to (k x) s1 a Q) -> logs_to (bind m k) s a Q.
Proof.
  intros T H. destruct (T s) as (x & s1 & E & Un). eapply logs_run; [exact E|apply Un|]. by apply H.
Qed.

(** An operation of the store that leaves its log. *)
Lemma logs_read {A} (m : M L A) s l' x (Q : A -> Prop) :
  m (log_store_ s) = (Ok x, l') -> ls_ok l' -> ls_view l' = log_of s -> Q x ->
  logs_to (with_log m) s (log_of s) Q.
Proof.
  intros E O V HQ. exists x, (s <| log_store_ := l' |>). unfold with_log. rewrite E.
  by repeat split.
Qed.

(** ** Storing *)

Definition stored (e : log_entry) (i : Z) (a : alog) : alog :=
  if i =? 0 then al_append (rewound e) a else al_write i (rewound e) a.

Lemma store_log_entry_logs e i s :
  ls_ok (log_store_ s) -> storable e -> al_next (log_of s) + 1 < 2 ^ 64 ->
  (i <> 0 -> al_start (log_of s) <= i <= al_next (log_of s)) ->
  logs_to (store_log_entry e i) s (stored e i (log_of s))
    (fun idx => idx = if i =? 0 then al_next (log_of s) else i).
Proof.
  intros O He Hn Hi. unfold store_log_entry.
  eapply (logs_bind _ _ _ (stored e i (log_of s))
            _ (fun idx => idx = if i =? 0 then al_next (log_of s) else i)).
  { unfold stored. destruct (Z.eqb_spec i 0) as [->|Ne].
    - destruct (ls_append e _ O He Hn) as (l' & E & O' & V).
      exists (al_next (log_of s)), (s <| log_store_ := l' |>).
      unfold with_log. rewrite E. by repeat split.
    - assert (i + 1 < 2 ^ 64) as Hi' by (specialize (Hi Ne); lia).
      destruct (ls_write_at i e _ O He (Hi Ne) Hi') as (l' & E & O' & V).
      exists i, (s <| log_store_ := l' |>). unfold bind, with_log. rewrite E. by repeat split. }
  intros idx s1 Hidx O1 V1 C1. apply (logs_bind _ _ _ (log_of s1) _ (fun _ => True));
    [|intros [] s2 _ O2 V2 C2; rewrite <- V1, <- V2; by apply logs_ret].
  unfold when. destruct (bool_decide _); [|by apply logs_ret].
  destruct (ls_flush _ O1) as (b & l' & E & O' & V').
  eapply logs_bind; [by eapply (logs_read _ _ l' b (fun _ => True))|].
  intros b' s2 _ O2 V2 C2. rewrite <- V2. apply logs_total; [|done].
  unfold system_exit. total_solve.
Qed.

Lemma payload_ok e : storable e -> exists b, forall s : server, payload e s = (Ok b, s).
Proof. intros (l & p & E & _). eexists. intros s. unfold payload. by rewrite E. Qed.

Lemma total_received i e : storable e -> total (L := L) (entry_received i e).
Proof.
  intros He. destruct (payload_ok e He) as (b & Hb). unfold entry_received.
  destruct (le_value_type e); total_solve. intros s. exists b, s. by rewrite Hb.
Qed.

(** ** The loops *)

Lemma append_loop_logs es s :
  ls_ok (log_store_ s) -> Forall storable es -> al_next (log_of s) + zlen es < 2 ^ 64 ->
  stopping_ s = false ->
  logs_to (append_loop es) s (al_appends es (log_of s)) (eq true).
Proof.
  revert s. induction es as [|e es IH]; intros s O F Hn Hs; cbn [append_loop].
  { by apply logs_ret. }
  inversion F as [|? ? He F']; subst. rewrite zlen_cons in Hn. pose proof (zlen_nonneg es).
  eapply logs_bind; [apply store_log_entry_logs; [done|done|lia|done]|].
  intros idx s1 _ O1 V1 C1. eapply logs_bind; [by apply logs_total; [apply total_received|]|].
  intros [] s2 _ O2 V2 C2. apply logs_self. rewrite (un_stopping _ _ C2), (un_stopping _ _ C1), Hs.
  unfold stored in V1. rewrite Z.eqb_refl in V1. cbn [al_appends fold_left].
  fold (al_appends es (al_append (rewound e) (log_of s))). rewrite <- V1, <- V2.
  apply IH; [done|done| |]; [rewrite V2, V1, al_append_next; lia|].
  by rewrite (un_stopping _ _ C2), (un_stopping _ _ C1).
Qed.

Lemma next_slot_log s : ls_ok (log_store_ s) -> next_slot (log_store_ s) = al_next (log_of s).
Proof. apply ls_next_slot. Qed.

(** At most the first entry overwrites: it cuts the log behind it. *)
Definition overwritten (i : Z) (es : list log_entry) (a : alog) : alog * list log_entry :=
  match es with
  | e :: es' => if i <? al_next a then (al_write i (rewound e) a, es') else (a, es)
  | [] => (a, [])
  end.

Lemma overwrite_loop_logs i es s :
  ls_ok (log_store_ s) -> Forall storable es ->
  al_start (log_of s) <= i <= al_next (log_of s) -> 1 <= i ->
  al_next (log_of s) + 1 < 2 ^ 64 -> stopping_ s = false ->
  logs_to (overwrite_loop i es) s (fst (overwritten i es (log_of s)))
    (eq (Some (snd (overwritten i es (log_of s))))).
Proof.
  intros O F Hi H1 Hn Hs. destruct es as [|e es]; cbn [overwrite_loop overwritten fst snd].
  { by apply logs_ret. }
  inversion F as [|? ? He F']; subst. apply logs_self. rewrite next_slot_log by done.
  destruct (Z.ltb_spec i (al_next (log_of s))) as [Hlt|Hge]; [|by apply logs_ret].
  eapply logs_bind; [apply store_log_entry_logs; [done|done|lia|done]|].
  intros idx s1 _ O1 V1 C1. eapply logs_bind; [by apply logs_total; [apply total_received|]|].
  intros [] s2 _ O2 V2 C2. apply logs_self. rewrite (un_stopping _ _ C2), (un_stopping _ _ C1), Hs.
  unfold stored in V1. rewrite eqb_false in V1 by lia. cbn [fst snd]. rewrite <- V1, <- V2.
  rewrite u64_small by (unfold is_u64; lia).
  destruct es as [|e2 es]; cbn [overwrite_loop]; [by apply logs_ret|]. apply logs_self.
  rewrite next_slot_log, V2, V1, al_write_next, ltb_false by (done || lia). rewrite <- V1, <- V2.
  by apply logs_ret.
Qed.

Lemma overwritten_replace i es a :
  al_start a <= i <= al_next a -> (es <> [] -> i = al_next a \/ i < al_next a) ->
  al_appends (snd (overwritten i es a)) (fst (overwritten i es a)) = al_replace i es a.
Proof.
  intros Hi Hd. destruct es as [|e es]; [done|]. cbn [overwritten al_replace].
  destruct (Z.ltb_spec i (al_next a)); [done|]. cbn [fst snd].
  replace i with (al_next a) by lia. by rewrite al_write_end.
Qed.

(** Entries whose roll back is possible: configurations can be read. *)
Definition decodable (e : log_entry) : Prop :=
  storable e /\
  (le_value_type e = conf -> exists b c, le_buff e = Some b /\
     from_buf cluster_config_deserialize b = Ok c).

Lemma rollback_loop_logs n idx s :
  ls_ok (log_store_ s) -> Forall decodable (map rewound (al_entries (log_of s))) ->
  al_start (log_of s) <= idx - Z.of_nat n + 1 -> idx < al_next (log_of s) ->
  logs_to (rollback_loop n idx) s (log_of s) (fun _ => True).
Proof.
  revert idx s. induction n as [|n IH]; intros idx s O D H1 H2; cbn [rollback_loop].
  { by apply logs_ret. }
  destruct (ls_range _ O) as (R1 & R2). fold (log_of s) in R1, R2.
  destruct (al_at_Some (log_of s) idx ltac:(lia)) as (e & He).
  eapply logs_bind.
  { eapply (logs_read _ _ (log_store_ s) (Some (rewound e)) (eq (Some (rewound e)))); try done.
    by apply ls_entry_at. }
  intros ? s1 <- O1 V1 C1.
  assert (decodable (rewound e)) as (Hst & Hc).
  { rewrite Forall_map, Forall_forall in D. apply D. unfold al_at in He.
    destruct (_ <=? _); [|done]. by eapply list_elem_of_lookup_2. }
  assert (total (L := L) (match le_value_type (rewound e) with
    | app_log => buf <- payload (rewound e) ;; emit (Ev_rollback idx (Some buf))
    | conf =>
        buf <- lift (get_entry_buf (rewound e)) ;;
        c <- lift (from_buf cluster_config_deserialize buf) ;;
        emit (Ev_rollback_config idx c) ;;
        modify (fun s => s <| config_changing_ := false |>)
    | _ => ret tt
    end)) as T.
  { destruct (le_value_type (rewound e)); try apply total_ret.
    - destruct (payload_ok _ Hst) as (b & Hb). total_solve. intros s'. exists b, s'. by rewrite Hb.
    - destruct (Hc eq_refl) as (b & c & Eb & Ec). intros s'.
      unfold bind, get_entry_buf, lift. rewrite Eb, Ec. eexists _, _. split; [done|]. by repeat split. }
  eapply logs_bind; [by apply logs_total|].
  intros [] s2 _ O2 V2 C2. rewrite <- V1, <- V2.
  rewrite u64_small by (unfold is_u64; lia). apply IH; [done|by rewrite V2, V1| |]; rewrite V2, V1; lia.
Qed.

Lemma skip_existing_logs i es s :
  ls_ok (log_store_ s) -> Forall storable es ->
  al_start (log_of s) <= i <= al_next (log_of s) -> 1 <= i -> i + zlen es < 2 ^ 64 ->
  exists j rest, logs_to (skip_existing i es) s (log_of s) (eq (j, rest)) /\
    al_merge i es (log_of s) = al_replace j rest (log_of s) /\
    al_start (log_of s) <= j <= al_next (log_of s) /\ 1 <= j /\
    j + zlen rest = i + zlen es /\ Forall storable rest.
Proof.
  revert i s. induction es as [|e es IH]; intros i s O F Hi H1 Hn; cbn [skip_existing al_merge].
  { exists i, []. split_and!; try done; try lia. by apply logs_ret. }
  inversion F as [|? ? He F']; subst. rewrite zlen_cons in Hn. pose proof (zlen_nonneg es).
  destruct (Z.ltb_spec i (al_next (log_of s))) as [Hlt|Hge]; cbn [andb]; cycle 1.
  { exists i, (e :: es). split_and!; try done; try lia. apply logs_self.
    rewrite next_slot_log, ltb_false by (done || lia). by apply logs_ret. }
  pose proof (ls_term_at i (log_store_ s) O ltac:(lia)) as Et. fold (log_of s) in Et.
  destruct (Z.eqb_spec (al_term (log_of s) i) (le_term e)) as [E|E]; cycle 1.
  { exists i, (e :: es). split_and!; try done; try lia. apply logs_self.
    rewrite next_slot_log, ltb_true by (done || lia).
    eapply logs_bind; [by eapply (logs_read _ _ _ _ (eq (al_term (log_of s) i)))|].
    intros t s1 <- O1 V1 C1. rewrite eqb_false by done. rewrite <- V1. by apply logs_ret. }
  destruct (IH (i + 1) s O F') as (j & rest & Hl & Hm & Hj & Hj1 & Hz & Hf); [lia|lia|lia|].
  exists j, rest. split_and!; try done; try lia; [|rewrite zlen_cons; lia]. apply logs_self.
  rewrite next_slot_log, ltb_true by (done || lia).
  unfold logs_to in Hl |- *. unfold bind, with_log. rewrite Et, E, Z.eqb_refl, u64_small by (unfold is_u64; lia).
  destruct Hl as (x & s' & E1 & H'). exists x, s'. split; [|done]. rewrite <- E1. f_equal. by destruct s.
Qed.

Lemma rollback_from_logs j rest s :
  ls_ok (log_store_ s) -> Forall decodable (map rewound (al_entries (log_of s))) ->
  al_start (log_of s) <= j <= al_next (log_of s) -> 1 <= j ->
  logs_to (rollback_from j rest) s (log_of s) (fun _ => True).
Proof.
  intros O D Hj H1. apply logs_self. unfold when, get_last_log_idx.
  destruct (ls_range _ O) as (R1 & R2). fold (log_of s) in R1, R2.
  rewrite next_slot_log by done. rewrite u64_small by (unfold is_u64; lia).
  destruct (_ && _) eqn:E; [|by apply logs_ret]. bool_to_prop.
  eapply logs_bind; [apply logs_total; [total_solve|done]|]. intros [] s1 _ O1 V1 C1. rewrite <- V1.
  eapply logs_bind; [apply logs_total; [total_solve|done]|]. intros [] s2 _ O2 V2 C2. rewrite <- V2.
  apply rollback_loop_logs; [done|by rewrite V2, V1| |]; rewrite V2, V1; lia.
Qed.

(** The log after the entries of a request were written. *)
Lemma write_entries_logs req s :
  ls_ok (log_store_ s) -> Forall storable (rq_log_entries req) ->
  Forall decodable (map rewound (al_entries (log_of s))) ->
  0 <= rq_last_log_idx req ->
  al_start (log_of s) <= rq_last_log_idx req + 1 <= al_next (log_of s) ->
  al_next (log_of s) + zlen (rq_log_entries req) + 1 < 2 ^ 64 ->
  stopping_ s = false -> parallel_log_appending_ (params_ s) = false ->
  logs_to (write_entries req) s
    (al_merge (rq_last_log_idx req + 1) (rq_log_entries req) (log_of s)) (eq true).
Proof.
  intros O F D Hp Hi Hn Hs Hpar. unfold write_entries. pose proof (zlen_nonneg (rq_log_entries req)).
  destruct (Z.ltb_spec 0 (zlen (rq_log_entries req))) as [Hz|Hz]; cbn [negb]; cycle 1.
  { destruct (rq_log_entries req) as [|e es]; [by apply logs_ret|]. rewrite zlen_cons in Hz.
    pose proof (zlen_nonneg es). lia. }
  rewrite u64_small by (unfold is_u64; lia).
  destruct (skip_existing_logs (rq_last_log_idx req + 1) (rq_log_entries req) s)
    as (j & rest & Hl & -> & Hj & Hj1 & Hjz & Hf); [done|done|lia|lia|lia|].
  eapply logs_bind; [exact Hl|]. intros ? s1 <- O1 V1 C1. rewrite <- V1 in *. clear Hl.
  eapply logs_bind; [by apply rollback_from_logs|]. intros [] s2 _ O2 V2 C2. rewrite <- V2 in *.
  assert (stopping_ s2 = false) as Hs2 by (by rewrite (un_stopping _ _ C2), (un_stopping _ _ C1)).
  eapply logs_bind; [by apply overwrite_loop_logs; try lia|]. intros ? s3 <- O3 V3 C3.
  pose proof (overwritten_replace j rest (log_of s2) Hj ltac:(lia)) as Hr.
  assert (stopping_ s3 = false) as Hs3 by by rewrite (un_stopping _ _ C3).
  eapply logs_bind.
  { apply append_loop_logs; [done| | |done].
    - destruct rest as [|e rest]; [constructor|]. cbn. inversion Hf. by destruct (_ <? _).
    - rewrite V3. destruct rest as [|e rest]; cbn; [rewrite zlen_nil; lia|]. rewrite zlen_cons in *.
      pose proof (zlen_nonneg rest).
      destruct (Z.ltb_spec j (al_next (log_of s2))); cbn [fst snd]; rewrite ?al_write_next, ?zlen_cons by done; lia. }
  intros ? s4 <- O4 V4 C4. cbn [negb]. rewrite V3, Hr in V4. rewrite <- V4.
  destruct (ls_end_of_batch (rq_last_log_idx req + 1) (zlen (rq_log_entries req)) _ O4)
    as (l5 & E5 & O5 & V5).
  eapply logs_bind; [by eapply (logs_read _ _ l5 tt (fun _ => True))|].
  intros [] s5 _ Os5 Vs5 C5. rewrite <- Vs5. apply logs_self.
  rewrite (un_parallel _ _ C5), (un_parallel _ _ C4), (un_parallel _ _ C3), (un_parallel _ _ C2),
    (un_parallel _ _ C1), Hpar. by apply logs_ret.
Qed.

(** ** The handler *)

(** The entry before those of the request is in the log, or is the last one
    covered by the snapshot, or there is none. *)
Definition prev_matches (req : req_msg) (s : server) : Prop :=
  rq_last_log_idx req = 0 \/
  (al_start (log_of s) <= rq_last_log_idx req /\ rq_last_log_term req <> 0 /\
   al_term (log_of s) (rq_last_log_idx req) = rq_last_log_term req) \/
  (exists snp, last_snapshot_ s = Some snp /\ snp_last_log_idx snp = rq_last_log_idx req /\
     snp_last_log_term snp = rq_last_log_term req).

(** A request of the server's term that follows its log. *)
Record append_ready (req : req_msg) (s : server) : Prop := {
  ar_role : role_ s <> leader;
  ar_term : rq_term req = term_ (state_ s);
  ar_receiving : receiving_snapshot_ (state_ s) = false;
  ar_stopping : stopping_ s = false;
  ar_parallel : parallel_log_appending_ (params_ s) = false;
  ar_ok : ls_ok (log_store_ s);
  ar_storable : Forall storable (rq_log_entries req);
  ar_decodable : Forall decodable (map rewound (al_entries (log_of s)));
  ar_prev : prev_matches req s;
  ar_index : 0 <= rq_last_log_idx req;
  ar_range : al_start (log_of s) <= rq_last_log_idx req + 1 <= al_next (log_of s);
  ar_bound : al_next (log_of s) + zlen (rq_log_entries req) + 1 < 2 ^ 64;
  ar_results : results_set s
}.

Lemma append_ready_same req s s' :
  append_ready req s -> undisturbed s s' -> append_ready req s'.
Proof.
  intros [A1 A2 A3 A4 A5 A6 A7 A8 A9 A10 A11 A12 A13] (El & [C1 C2 C3 C4 C5 C6 C7]).
  assert (log_of s' = log_of s) as V by (unfold log_of; by rewrite El).
  split; rewrite ?V, ?El, ?C1, ?C2, ?C3, ?C4; try done; [by apply C6| |by apply C7].
  unfold prev_matches in *. by rewrite V, C5.
Qed.

(** A follower's commit sends nothing. *)
Lemma commit_logs i s :
  ls_ok (log_store_ s) -> role_ s <> leader ->
  logs_to (commit i) s (log_of s) (fun _ => True).
Proof.
  intros O Hr. unfold commit, commit_with. apply logs_self.
  eapply (logs_bind _ _ _ (log_of s) _ (fun _ => True)).
  { unfold when at 1. destruct (_ <? _); [|by apply logs_ret].
    rewrite bool_decide_false by done. unfold when. apply logs_total; [|done]. total_solve. }
  intros [] s1 _ O1 V1 C1. rewrite <- V1. apply logs_total; [total_solve|done].
Qed.

Lemma total_appendix a : total (L := L) (lift (appendix_serialize a)).
Proof. eapply total_lift, appendix_serialize_ok. Qed.

#[local] Hint Resolve total_appendix : total.

Lemma accept_append_logs req resp s :
  ls_ok (log_store_ s) -> role_ s <> leader ->
  0 <= rq_last_log_idx req -> rq_last_log_idx req + zlen (rq_log_entries req) + 1 < 2 ^ 64 ->
  logs_to (accept_append req resp) s (log_of s) (fun r => rs_accepted r = true /\
    rs_next_idx r = rq_last_log_idx req + zlen (rq_log_entries req) + 1 /\
    rs_term r = rs_term resp /\ rs_type r = rs_type resp /\
    rs_src r = rs_src resp /\ rs_dst r = rs_dst resp).
Proof.
  intros O Hr Hp Hn. pose proof (zlen_nonneg (rq_log_entries req)).
  unfold accept_append. cbn zeta. rewrite !u64_small by (unfold is_u64; rewrite ?u64_small; unfold is_u64; lia).
  eapply logs_bind; [apply logs_total; [total_solve|done]|]. intros [] s1 _ O1 V1 C1. rewrite <- V1.
  eapply logs_bind; [apply logs_total; [total_solve|done]|]. intros b s2 _ O2 V2 C2. rewrite <- V2.
  assert (role_ s2 <> leader) as Hr2 by (apply (un_role _ _ C2), (un_role _ _ C1), Hr).
  eapply (logs_bind _ _ _ (log_of s2) _ (fun _ => True)).
  { unfold when. destruct b; [|by apply logs_ret]. by apply commit_logs. }
  intros [] s3 _ O3 V3 C3. rewrite <- V3. apply logs_self.
  eapply logs_bind; [apply logs_total; [total_solve|done]|]. intros [] s4 _ O4 V4 C4. rewrite <- V4.
  apply logs_self.
  match goal with |- logs_to (bind (if _ then _ else ret ?x) _) _ _ _ => set (r0 := x) end.
  assert (rs_accepted r0 = true /\ rs_next_idx r0 = rq_last_log_idx req + zlen (rq_log_entries req) + 1 /\
    rs_base r0 = rs_base resp) as (R1 & R2 & R3).
  { subst r0. by destruct (rs_self_mark_down_ s4). }
  eapply (logs_bind _ _ _ (log_of s4) _ (fun r => rs_accepted r = rs_accepted r0 /\
    rs_next_idx r = rs_next_idx r0 /\ rs_base r = rs_base r0)).
  { destruct (track_peers_sm_commit_idx_ _); [|by apply logs_ret].
    eapply logs_bind; [apply logs_total; [apply total_appendix|done]|].
    intros b' s5 _ O5 V5 C5. rewrite <- V5. by apply logs_ret. }
  intros r s5 (Q1 & Q2 & Q3) O5 V5 C5. rewrite <- V5.
  eapply logs_bind; [apply logs_total; [total_solve|done]|]. intros [] s6 _ O6 V6 C6. rewrite <- V6.
  apply logs_ret; [done|]. unfold rs_term, rs_type, rs_src, rs_dst. rewrite Q1, Q2, Q3, R1, R2, R3. done.
Qed.

(** Where the log ends or the entry is older, the term looked up is 0. *)
Lemma prev_term_logs req s :
  append_ready req s ->
  exists t s1, (if rq_last_log_idx req <? next_slot (log_store_ s)
                then term_for_log (rq_last_log_idx req) else ret 0) s = (Ok t, s1) /\
    undisturbed s s1 /\ append_log_okay req t s1 = true.
Proof.
  intros A. pose proof (ar_ok _ _ A) as O. pose proof (ar_range _ _ A) as Hr. pose proof (ar_index _ _ A) as Hi.
  rewrite next_slot_log, ltb_true by (done || lia).
  unfold term_for_log, bind, self. rewrite ls_start_index by done. fold (log_of s).
  destruct (Z.eqb_spec (rq_last_log_idx req) 0) as [E|E].
  { exists 0, s. split; [done|]. split; [done|]. unfold append_log_okay. by rewrite E. }
  destruct (Z.leb_spec (al_start (log_of s)) (rq_last_log_idx req)) as [Hle|Hgt].
  - unfold with_log. rewrite ls_term_at by done. eexists _, _. split; [done|].
    split; [by repeat split|]. unfold append_log_okay. rewrite eqb_false by done. cbn [orb].
    change (last_snapshot_ _) with (last_snapshot_ s).
    destruct (ar_prev _ _ A) as [?|[(_ & Hne & Ht)|(snp & -> & -> & ->)]]; [done| |].
    + fold (log_of s). rewrite Ht, Z.eqb_refl, eqb_false by done. done.
    + rewrite !Z.eqb_refl. by rewrite orb_true_r.
  - destruct (ar_prev _ _ A) as [?|[(? & _)|(snp & Es & Ei & Et)]]; [done|lia|].
    assert (forall t, append_log_okay req t s = true) as K.
    { intros t. unfold append_log_okay. rewrite Es, Ei, Et, !Z.eqb_refl. by rewrite orb_true_r. }
    destruct (sm_last_snapshot (trace_ s)) as [snp'|]; [destruct (_ =? _)|];
      eexists _, s; (split; [done|]); (split; [done|]); apply K.
Qed.

(** The response to an accepted request. *)
Definition accepted_resp (req : req_msg) (s : server) (r : option resp_msg) : Prop :=
  exists resp, r = Some resp /\ rs_accepted resp = true /\
    rs_next_idx resp = rq_last_log_idx req + zlen (rq_log_entries req) + 1 /\
    rs_term resp = term_ (state_ s) /\ rs_type resp = append_entries_response /\
    rs_dst resp = rq_src req.

Definition append_callback_ok : Prop :=
  forall h p, cb_func h GotAppendEntryReqFromLeader p = Cb_Ok.

Lemma append_checked_logs req s :
  append_ready req s -> append_callback_ok ->
  logs_to (append_checked req) s
    (al_merge (rq_last_log_idx req + 1) (rq_log_entries req) (log_of s)) (accepted_resp req s).
Proof.
  intros A Hcb. unfold append_checked. apply logs_self.
  destruct (prev_term_logs req s A) as (t & s1 & E & Un & Hok).
  pose proof (append_ready_same _ _ _ A Un) as A1. destruct Un as (El & C).
  assert (log_of s1 = log_of s) as V1 by (unfold log_of; by rewrite El).
  eapply logs_run; [exact E|exact C|]. apply logs_self.
  rewrite (ar_term _ _ A1), Z.ltb_irrefl, Hok, (ar_receiving _ _ A1). cbn [negb orb].
  apply logs_un; [total_solve|]. intros [] s2 Un2.
  destruct (total_callback GotAppendEntryReqFromLeader (-1) s2) as (cb & s3 & E3 & Un3).
  assert (cb = Cb_Ok) as -> by (unfold callback, bind, gets, emit, modify, ret in E3; injection E3; by intros _ <-).
  eapply logs_run; [exact E3|apply Un3|]. rewrite bool_decide_true by done. cbn [negb].
  apply logs_un; [total_solve|]. intros [] s4 Un4.
  assert (undisturbed s1 s4) as Un14 by (do 2 (etrans; [eassumption|]); done).
  pose proof (append_ready_same _ _ _ A1 Un14) as A4. destruct Un14 as (El4 & C4).
  assert (log_of s4 = log_of s) as V4 by (unfold log_of; by rewrite El4, El). rewrite <- V4.
  destruct A4 as [R1 R2 R3 R4 R5 R6 R7 R8 R9 R10 R11 R12].
  eapply logs_bind; [by apply write_entries_logs|]. intros ? s5 <- O5 V5 C5. cbn [negb]. rewrite <- V5.
  eapply logs_bind; [apply accept_append_logs; [done|by apply (un_role _ _ C5)|done|lia]|].
  intros resp s6 (Q1 & Q2 & Q3 & Q4 & Q5 & Q6) O6 V6 C6. rewrite <- V6. apply logs_ret; [done|].
  exists resp. split_and!; done.
Qed.

Lemma append_same_term_logs req s :
  append_ready req s -> append_callback_ok ->
  logs_to (append_same_term req) s
    (al_merge (rq_last_log_idx req + 1) (rq_log_entries req) (log_of s)) (accepted_resp req s).
Proof.
  intros A Hcb. apply logs_self. rewrite (ar_term _ _ A), Z.eqb_refl.
  assert (forall m : SM unit, total_at m s -> logs_to (m ;; append_checked req) s
    (al_merge (rq_last_log_idx req + 1) (rq_log_entries req) (log_of s)) (accepted_resp req s)) as K.
  { intros m ([] & s1 & Em & Un). eapply logs_run; [exact Em|apply Un|].
    replace (log_of s) with (log_of s1) by (unfold log_of; by rewrite (proj1 Un)).
    destruct (append_checked_logs req s1) as (r & s2 & E & O & V & C & resp & R);
      [by eapply append_ready_same|done|].
    exists r, s2. split_and!; try done. exists resp. by rewrite <- (un_term _ _ (proj2 Un)). }
  pose proof (ar_role _ _ A). destruct (role_ s); [| |done]; apply K;
    [apply total_update_target | apply become_follower_returns; exact (ar_results _ _ A)].
Qed.

Lemma handle_append_logs (req : req_msg) (s : server) :
  append_ready req s -> append_callback_ok ->
  use_full_consensus_among_healthy_members_ (params_ s) = false ->
  exists resp s', handle_append_entries req s = (Ok (Some resp), s') /\
    rs_accepted resp = true /\
    rs_next_idx resp = rq_last_log_idx req + zlen (rq_log_entries req) + 1 /\
    rs_term resp = term_ (state_ s) /\ ls_ok (log_store_ s') /\
    log_of s' = al_merge (rq_last_log_idx req + 1) (rq_log_entries req) (log_of s).
Proof.
  intros A Hcb Hf.
  assert (logs_to (handle_append_entries req) s
    (al_merge (rq_last_log_idx req + 1) (rq_log_entries req) (log_of s)) (accepted_resp req s)) as H.
  { unfold handle_append_entries. apply logs_self. apply logs_un; [total_solve|]. intros [] s1 Un1.
    rewrite Hf. cbn [andb]. apply logs_un; [total_solve|]. intros [] s2 Un2.
    assert (undisturbed s (s2 <| serving_req_ := true |>)) as Un.
    { etrans; [exact Un1|]. etrans; [exact Un2|]. by repeat split. }
    pose proof (append_ready_same _ _ _ A Un) as A2.
    destruct (append_same_term_logs _ _ A2 Hcb) as (r & s3 & E & O & V & C & R).
    exists r, (s3 <| serving_req_ := false |>). unfold serving. rewrite E. split_and!; [done|done| | |].
    - change (log_of s3 = al_merge (rq_last_log_idx req + 1) (rq_log_entries req) (log_of s)).
      rewrite V. unfold log_of. by rewrite (proj1 Un).
    - etrans; [|etrans; [exact C|by repeat split]]. by repeat split.
    - destruct R as (resp & R). exists resp. by rewrite <- (un_term _ _ (proj2 Un)). }
  destruct H as (r & s' & E & O & V & C & resp & -> & R1 & R2 & R3 & _). by exists resp, s'.
Qed.

(** C2: a follower or candidate that gets an append request of its term whose
    previous entry it has accepts it: its log becomes the old one merged with
    the entries of the request (those it has, by index and term, are kept; from
    the first that differs on, the log is replaced), and the response asks for
    the entry after the last of the request. *)
Theorem append_entries_merges (req : req_msg) (s : server) :
  append_ready req s -> append_callback_ok ->
  use_full_consensus_among_healthy_members_ (params_ s) = false ->
  exists resp s', handle_append_entries req s = (Ok (Some resp), s') /\
    rs_accepted resp = true /\
    rs_next_idx resp = rq_last_log_idx req + zlen (rq_log_entries req) + 1 /\
    rs_term resp = term_ (state_ s) /\ ls_ok (log_store_ s') /\
    log_of s' = al_merge (rq_last_log_idx req + 1) (rq_log_entries req) (log_of s).
Proof. apply handle_append_logs. Qed.


(** A request that arrives late or twice does no harm: when the log already
    has all entries of the request, by index and term, it is left as it is,
    also if it has more entries behind them. *)
Theorem append_entries_keeps_log (req : req_msg) (s : server) :
  append_ready req s -> append_callback_ok ->
  use_full_consensus_among_healthy_members_ (params_ s) = false ->
  (forall k e, rq_log_entries req !! k = Some e ->
     rq_last_log_idx req + 1 + Z.of_nat k < al_next (log_of s) /\
     al_term (log_of s) (rq_last_log_idx req + 1 + Z.of_nat k) = le_term e) ->
  exists resp, run_val (handle_append_entries req) s = Ok (Some resp) /\ rs_accepted resp = true /\
    log_of (run_state (handle_append_entries req) s) = log_of s.
Proof.
  intros A Hcb Hf H. unfold run_state, run_val.
  destruct (handle_append_logs req s A Hcb Hf) as (resp & s' & -> & R & _ & _ & _ & V).
  exists resp. cbn. split_and!; [done|done|]. rewrite V. by apply merge_same.
Qed.

End Append.

(** * An example *)

Section SampleAppend.

#[local] Existing Instance zeroed.
#[local] Existing Instance sample_env.

(** A follower of term 3 with entries of the terms 1, 1 and 2. *)
Definition sample_follower : raft_server inmem_log_store :=
  (trio_server 2) <| log_store_ := store_of [1; 1; 2] |> <| state_ ::= set_term 3 |>.

(** The leader of term 3 sends the entries of the terms 1 and 3 after the first. *)
Definition sample_append (terms : list Z) : req_msg :=
  (req_msg_new 3 append_entries_request 1 2 1 1 1) <| rq_log_entries := map sample_entry terms |>.

Definition sample_log : alog := mk_alog 1 (map (fun t => rewound (sample_entry t)) [1; 1; 2]).

Lemma sample_follower_log : log_of sample_follower = sample_log.
Proof. exact (proj2 (store_of_ok [1; 1; 2] eq_refl)). Qed.

Lemma sample_append_ready terms :
  zlen terms < 2 ^ 32 -> append_ready (sample_append terms) sample_follower.
Proof.
  intros Hz. pose proof sample_follower_log as E. constructor.
  - vm_compute. discriminate.
  - vm_compute. reflexivity.
  - vm_compute. reflexivity.
  - vm_compute. reflexivity.
  - vm_compute. reflexivity.
  - exact (proj1 (store_of_ok [1; 1; 2] eq_refl)).
  - apply Forall_map, Forall_forall. intros. apply sample_storable.
  - rewrite E. cbn [sample_log al_entries map].
    assert (forall t, decodable (rewound (rewound (sample_entry t)))) as D.
    { intros t. split; [apply storable_rewound, storable_rewound, sample_storable|discriminate]. }
    repeat apply Forall_cons_2; try apply D. apply Forall_nil_2.
  - right. left. rewrite E. vm_compute. repeat split; congruence.
  - vm_compute. congruence.
  - rewrite E. vm_compute. split; congruence.
  - rewrite E. change (4 + zlen (map sample_entry terms) + 1 < 2 ^ 64). rewrite zlen_map. lia.
  - left. reflexivity.
Qed.

Lemma sample_callback_ok : append_callback_ok.
Proof. intros h p. reflexivity. Qed.

Lemma sample_consensus : use_full_consensus_among_healthy_members_ (params_ sample_follower) = false.
Proof. vm_compute. reflexivity. Qed.

#[local] Opaque handle_append_entries sample_follower.

Lemma append_entries_merges_witness :
  exists resp s', handle_append_entries (sample_append [1; 3]) sample_follower = (Ok (Some resp), s') /\
    rs_accepted resp = true /\ rs_next_idx resp = 4 /\
    map le_term (al_entries (log_of s')) = [1; 1; 3].
Proof.
  destruct (append_entries_merges (sample_append [1; 3]) sample_follower
    (sample_append_ready [1; 3] eq_refl) sample_callback_ok sample_consensus) as
    (resp & s' & E & R1 & R2 & _ & _ & V).
  exists resp, s'. split; [exact E|]. split; [exact R1|]. split; [rewrite R2; vm_compute; reflexivity|].
  rewrite V, sample_follower_log. vm_compute. reflexivity.
Defined.


Lemma append_entries_keeps_log_witness :
  exists resp, run_val (handle_append_entries (sample_append [1])) sample_follower = Ok (Some resp) /\
    rs_accepted resp = true /\
    log_of (run_state (handle_append_entries (sample_append [1])) sample_follower) = log_of sample_follower.
Proof.
  apply (append_entries_keeps_log (sample_append [1]) sample_follower
    (sample_append_ready [1] eq_refl) sample_callback_ok sample_consensus).
  intros k e Hk. rewrite sample_follower_log. destruct k as [|k]; [|discriminate Hk].
  injection Hk as <-. split; vm_compute; reflexivity.
Defined.

End SampleAppend.
