(* ===== verification/Applied.v ===== *)
(** What the commit thread gives the state machine: the entries of the log from
    its own index on, in order and once, up to the index the cluster has
    committed; and that a round of the thread ends. *)
From stdpp Require Import sorting.
From S2P Require Import Prelude Buffer Serializer Codec Messages Peer LogStore Server.
From S2P Require Import Replication Election Startup Samples Follower Total Append Leader Quorum Commit.

(** * What the state machine has been given *)

Definition is_commit (e : event) : bool :=
  match e with Ev_commit _ _ | Ev_commit_config _ _ => true | _ => false end.

(** Oldest first. *)
Definition commits (h : history) : list event := filter (fun e => is_commit e) (rev h).

Lemma commits_cons e h : commits (e :: h) = commits h ++ (if is_commit e then [e] else []).
Proof.
  unfold commits. cbn [rev]. rewrite filter_app. f_equal. by destruct e.
Qed.

Lemma commits_peer pid o h : commits (rev (map (Ev_peer pid) o) ++ h) = commits h.
Proof.
  unfold commits. rewrite rev_app_distr, rev_involutive, filter_app.
  replace (filter _ (map (Ev_peer pid) o)) with (@nil event); [by rewrite app_nil_r|].
  by induction o.
Qed.

(** The payload of a stored entry, as it is read back. *)
Definition stored_payload (e : log_entry) : option buffer :=
  run_state (set_pos 0) <$> le_buff (rewound e).

(** What the state machine is given for the entry [e] at [i]. *)
Definition commit_event (i : Z) (e : log_entry) : list event :=
  match stored_payload e with
  | None => []
  | Some b =>
      match le_value_type e with
      | app_log => [Ev_commit i b]
      | conf =>
          match from_buf cluster_config_deserialize b with
          | Ok c => [Ev_commit_config i c]
          | Throw _ => []
          end
      | _ => []
      end
  end.

(** And for the [n] entries from [i] on. *)
Fixpoint commit_events (a : alog) (i : Z) (n : nat) : list event :=
  match n with
  | O => []
  | S n' =>
      match al_at a i with Some e => commit_event i e | None => [] end
      ++ commit_events a (i + 1) n'
  end.

Lemma commit_events_snoc a i n :
  commit_events a i (S n) = commit_events a i n
    ++ match al_at a (i + Z.of_nat n) with Some e => commit_event (i + Z.of_nat n) e | None => [] end.
Proof.
  revert i. induction n as [|n IH]; intros i.
  - cbn. by rewrite Z.add_0_r, app_nil_r.
  - change (commit_events a i (S (S n))) with
      (match al_at a i with Some e => commit_event i e | None => [] end ++ commit_events a (i + 1) (S n)).
    rewrite IH. cbn [commit_events]. rewrite app_assoc. by replace (i + 1 + Z.of_nat n) with (i + Z.of_nat (S n)) by lia.
Qed.

(** * Chains of configurations *)

(** Each configuration names the entry of the one before it, back to the start
    of the log. *)
Inductive config_chain (a : alog) : cluster_config -> Prop :=
| chain_end c : cc_prev_log_idx c < al_start a -> config_chain a c
| chain_link c e b c' :
    al_at a (cc_prev_log_idx c) = Some e -> le_buff (rewound e) = Some b ->
    from_buf cluster_config_deserialize b = Ok c' ->
    cc_prev_log_idx c' < cc_prev_log_idx c ->
    config_chain a c' -> config_chain a c.

Lemma config_chain_compacted a a' c :
  al_start a <= al_start a' -> (forall i, al_start a' <= i -> al_at a' i = al_at a i) ->
  config_chain a c -> config_chain a' c.
Proof.
  intros Hs Hat. induction 1 as [c H|c e b c' He Hb Hc Hlt _ IH]; [apply chain_end; lia|].
  destruct (decide (cc_prev_log_idx c < al_start a')) as [|N]; [by apply chain_end|].
  eapply chain_link; eauto. by rewrite Hat by lia.
Qed.

(** * What the parts of a round leave alone *)

Section Applied.
Context {L : Type} {LS : LogStore L} {SP : LogStoreSpec L} {EV : Env} {U : Uninit}.

#[local] Abbreviation server := (raft_server L).
#[local] Abbreviation SM := (M (raft_server L)).

(** The indexes, the log and what the state machine was given. *)
Record kept (s s' : server) : Prop := {
  kp_sm : sm_commit_index_ s' = sm_commit_index_ s;
  kp_quick : quick_commit_index_ s' = quick_commit_index_ s;
  kp_precommit : precommit_index_ s' = precommit_index_ s;
  kp_paused : sm_commit_paused_ s' = sm_commit_paused_ s;
  kp_params : params_ s' = params_ s;
  kp_log : log_store_ s' = log_store_ s;
  kp_config : rs_config_ s' = rs_config_ s;
  kp_snapshot : last_snapshot_ s' = last_snapshot_ s;
  kp_receiving : receiving_snapshot_ (state_ s') = receiving_snapshot_ (state_ s);
  kp_role : role_ s' = role_ s;
  kp_commits : commits (trace_ s') = commits (trace_ s)
}.

#[export] Instance kept_preorder : PreOrder kept.
Proof. split; [by split|]. intros s1 s2 s3 [] []. split; congruence. Qed.

Lemma kept_emit e : is_commit e = false -> returns kept (emit e).
Proof.
  intros He. apply (returns_modify _). intros s. split; try done.
  pose proof (commits_cons e (trace_ s)) as H. by rewrite He, app_nil_r in H.
Qed.

Lemma kept_callback t p : returns kept (callback t p).
Proof.
  unfold callback. apply (returns_bind _); [apply (returns_gets _)|]. intros h.
  apply (returns_bind _); [by apply kept_emit|]. intros. apply (returns_ret _).
Qed.

Lemma kept_on_peer pid f : returns kept (on_peer pid f).
Proof.
  apply (returns_modify _). intros s. destruct (peers_ s !! pid) as [p|]; [|done].
  destruct (f p) as [p' out]. split; try done. exact (commits_peer _ _ _).
Qed.

Lemma returns_for_each {A} (l : list A) (f : A -> SM unit) :
  (forall a, returns kept (f a)) -> returns kept (for_each l f).
Proof.
  intros H. induction l as [|a l IH]; cbn; [apply (returns_ret _)|]. by apply (returns_bind _).
Qed.

End Applied.

Create HintDb kept.

Ltac kept_step :=
  lazymatch goal with
  | |- forall _, _ => intros ?
  | |- returns _ (let x := _ in _) => cbn zeta
  | |- returns _ (bind _ _) => apply (returns_bind _)
  | |- returns _ (ret _) => apply (returns_ret _)
  | |- returns _ self => apply (returns_self _)
  | |- returns _ (gets _) => apply (returns_gets _)
  | |- returns _ (when _ _) => apply (returns_when _)
  | |- returns _ (emit _) => apply kept_emit; done
  | |- returns _ (callback _ _) => apply kept_callback
  | |- returns _ (modify _) => apply (returns_modify _); intros ?; split_ifs; by split
  | |- returns _ (upd_state _) => apply (returns_modify _); intros ?; by split
  | |- returns _ (upd_peer _ _) => apply (returns_modify _); intros ?; by split
  | |- returns _ (on_peer _ _) => apply kept_on_peer
  | |- returns _ (for_each _ _) => apply returns_for_each
  | |- returns _ (if ?b then _ else _) => destruct b
  | |- returns _ (match ?x with _ => _ end) => destruct x
  end.

Ltac kept_solve := repeat first [solve [eauto 2 with kept nocore] | kept_step].

Section Round.
Context {L : Type} {LS : LogStore L} {SP : LogStoreSpec L} {EV : Env} {U : Uninit}.

#[local] Abbreviation server := (raft_server L).
#[local] Abbreviation SM := (M (raft_server L)).

Lemma kept_schedule t ms : returns kept (schedule_task (L := L) t ms).
Proof. unfold schedule_task. kept_solve. Qed.

Lemma kept_restart_timer : returns kept (restart_election_timer (L := L)).
Proof.
  pose proof kept_schedule. unfold restart_election_timer, draw_timeout, cancel_task, save_state. kept_solve.
Qed.

Lemma kept_clear_ctx pid : returns kept (clear_snapshot_sync_ctx (L := L) pid).
Proof. unfold clear_snapshot_sync_ctx. kept_solve. Qed.

Lemma kept_enable_hb pid : returns kept (enable_hb_for_peer (L := L) pid).
Proof. pose proof kept_schedule. unfold enable_hb_for_peer. kept_solve. Qed.

#[local] Hint Resolve kept_schedule kept_restart_timer kept_clear_ctx kept_enable_hb : kept.

Lemma kept_self c : returns kept (reconfigure_self (L := L) c).
Proof. unfold reconfigure_self, save_state. kept_solve. Qed.

Lemma kept_add c : returns kept (add_server (L := L) c).
Proof. unfold add_server. kept_solve. Qed.

Lemma kept_remove i : returns kept (remove_server (L := L) i).
Proof. unfold remove_server, remove_peer_from_peers. kept_solve. Qed.

Lemma kept_answer v i pc : returns kept (answer_client (L := L) v i pc).
Proof. unfold answer_client, answer_waiting, answer_early. kept_solve. Qed.

Lemma kept_watchers i : returns kept (notify_watchers (L := L) i).
Proof. unfold notify_watchers. kept_solve. Qed.

Lemma kept_freshness : returns kept (update_freshness (L := L)).
Proof. unfold update_freshness. kept_solve. Qed.

Lemma kept_target i : returns kept (update_sm_commit_notifier_target_idx (L := L) i).
Proof. unfold update_sm_commit_notifier_target_idx. kept_solve. Qed.

#[local] Hint Resolve kept_self kept_add kept_remove kept_answer kept_watchers kept_freshness kept_target : kept.

(** [m] returns from [s], with [Q] of its result and of the state it leaves. *)
Definition runs {A} (m : SM A) (s : server) (Q : A -> server -> Prop) : Prop :=
  exists a s', m s = (Ok a, s') /\ Q a s'.

Lemma runs_bind {A B} (m : SM A) (k : A -> SM B) s Q :
  runs m s (fun a s1 => runs (k a) s1 Q) -> runs (bind m k) s Q.
Proof. intros (a & s1 & E & b & s2 & E2 & H). exists b, s2. split; [|done]. unfold bind. by rewrite E. Qed.

Lemma runs_ret {A} (a : A) s (Q : A -> server -> Prop) : Q a s -> runs (ret a) s Q.
Proof. by exists a, s. Qed.

Lemma runs_modify f s (Q : unit -> server -> Prop) : Q tt (f s) -> runs (modify f) s Q.
Proof. by exists tt, (f s). Qed.

Lemma runs_self {A} (k : server -> SM A) s Q : runs (k s) s Q -> runs (bind self k) s Q.
Proof. done. Qed.

Lemma runs_kept {A} (m : SM A) s Q :
  returns kept m -> (forall a s', kept s s' -> Q a s') -> runs m s Q.
Proof. intros Hm HQ. destruct (Hm s) as (a & s' & E & K). exists a, s'. auto. Qed.

Lemma runs_mono {A} (m : SM A) s (P Q : A -> server -> Prop) :
  runs m s P -> (forall a s', P a s' -> Q a s') -> runs m s Q.
Proof. intros (a & s' & E & H) HPQ. exists a, s'. auto. Qed.

Lemma runs_read {A} (m : M L A) s a (Q : A -> server -> Prop) :
  m (log_store_ s) = (Ok a, log_store_ s) -> Q a s -> runs (with_log m) s Q.
Proof.
  intros E H. exists a, s. split; [|done]. unfold with_log. rewrite E. by destruct s.
Qed.

Lemma runs_lift {A} (r : res A) a s (Q : A -> server -> Prop) :
  r = Ok a -> Q a s -> runs (lift r) s Q.
Proof. intros -> H. by exists a, s. Qed.

(** ** Snapshots *)

(** A server whose log is [a], compacted up to what is applied. *)
Record ready (a : alog) (s : server) : Prop := {
  rd_ok : ls_ok (log_store_ s);
  rd_start : al_start a <= al_start (log_of s) <= sm_commit_index_ s + 1;
  rd_next : al_next (log_of s) = al_next a;
  rd_at i : al_start (log_of s) <= i -> al_at (log_of s) i = al_at a i;
  rd_sm : 0 <= sm_commit_index_ s;
  rd_snap : 1 < al_start (log_of s) -> last_snapshot_ s <> None;
  rd_chain : config_chain a (rs_config_ s)
}.

(** What a snapshot leaves alone. *)
Record steady (s s' : server) : Prop := {
  sd_sm : sm_commit_index_ s' = sm_commit_index_ s;
  sd_quick : quick_commit_index_ s' = quick_commit_index_ s;
  sd_precommit : precommit_index_ s' = precommit_index_ s;
  sd_paused : sm_commit_paused_ s' = sm_commit_paused_ s;
  sd_params : params_ s' = params_ s;
  sd_commits : commits (trace_ s') = commits (trace_ s)
}.

#[export] Instance steady_preorder : PreOrder steady.
Proof. split; [by split|]. intros s1 s2 s3 [] []. split; congruence. Qed.

Lemma kept_steady s s' : kept s s' -> steady s s'.
Proof. intros []. by split. Qed.

Lemma ready_kept a s s' : ready a s -> kept s s' -> ready a s'.
Proof.
  intros [] []. unfold log_of in *. split; unfold log_of; rewrite ?kp_log0, ?kp_sm0, ?kp_snapshot0, ?kp_config0; auto.
Qed.

Lemma find_config_runs fuel i c s :
  ls_ok (log_store_ s) -> config_chain (log_of s) c ->
  (Z.to_nat (cc_prev_log_idx c + 1 - al_start (log_of s)) <= fuel)%nat ->
  exists c', find_config fuel i c s = (Ok c', s).
Proof.
  intros O H. revert fuel. induction H as [c H|c e b c' He Hb Hc Hlt _ IH]; intros fuel Hf.
  - exists c. destruct fuel; cbn [find_config]; unfold self, bind at 1; rewrite ls_start_index by done;
      rewrite (leb_false _ (cc_prev_log_idx c)) by done; by rewrite andb_false_r.
  - pose proof (al_at_range _ _ _ He) as R. destruct fuel as [|fuel]; [lia|]. cbn [find_config].
    unfold self, bind at 1. destruct (_ && _); [|by exists c].
    assert (runs (with_log (entry_at (cc_prev_log_idx c))) s (fun r s' => r = Some (rewound e) /\ s' = s))
      as (? & ? & E & -> & ->) by (eapply runs_read; [by apply ls_entry_at|done]).
    unfold bind at 1. rewrite E. unfold bind, lift, get_entry_buf. rewrite Hb, Hc.
    apply IH. lia.
Qed.

Lemma ready_chain a s c : ready a s -> config_chain a c -> config_chain (log_of s) c.
Proof. intros R. eapply config_chain_compacted; [apply R|]. intros. by apply (rd_at a). Qed.

Lemma snapshot_config_runs a s i c :
  ready a s -> config_chain a c -> cc_prev_log_idx c < al_next a ->
  runs (snapshot_config i (last_snapshot_ s) c) s (fun _ s' => s' = s).
Proof.
  intros R Hc Hlt. destruct (ls_range _ (rd_ok _ _ R)) as (R1 & R2). fold (log_of s) in *.
  unfold snapshot_config. apply runs_self, runs_bind.
  destruct (find_config_runs (Z.to_nat (next_slot (log_store_ s) - start_index (log_store_ s))) i c s)
    as (c' & E); [apply R|by eapply ready_chain| |].
  { rewrite ls_next_slot, ls_start_index by apply R. fold (log_of s). rewrite (rd_next _ _ R). lia. }
  exists c', s. split; [done|]. apply runs_self. rewrite ls_start_index by apply R. fold (log_of s).
  destruct (Z.ltb_spec i (cc_log_idx c')), (Z.ltb_spec 0 (cc_prev_log_idx c'));
    destruct (Z.ltb_spec (cc_prev_log_idx c') (al_start (log_of s))); cbn [andb]; try by apply runs_ret.
  destruct (last_snapshot_ s) eqn:El; [by apply runs_ret|]. exfalso. apply (rd_snap _ _ R); [lia|done].
Qed.

(** The state machine's last snapshot is the one it has just made. *)
Definition keeps_snapshots : Prop := forall h p,
  sm_create_snapshot h p = Some (true, false) ->
  exists q, sm_last_snapshot (Ev_create_snapshot p :: h) = Some q
            /\ snp_last_log_idx q = snp_last_log_idx p.

Lemma al_compact_end a k : k < al_next a -> al_next (al_compact k a) = al_next a.
Proof.
  intros H. unfold al_compact, al_next in *. destruct (Z.leb_spec (al_start a) k); [|done]. cbn.
  unfold zdrop, zlen in *. rewrite length_drop. lia.
Qed.

Lemma al_compact_start a k : al_start (al_compact k a) = Z.max (al_start a) (k + 1).
Proof. unfold al_compact. destruct (Z.leb_spec (al_start a) k); cbn; lia. Qed.

Lemma ready_compact a s k l :
  ready a s -> sm_commit_index_ s < al_next a -> k <= sm_commit_index_ s ->
  last_snapshot_ s <> None -> ls_ok l -> ls_view l = al_compact k (log_of s) ->
  ready a (s <| log_store_ := l |>).
Proof.
  intros [] Hlt Hk Hs O V. split; unfold log_of; cbn; rewrite ?V; try done.
  - rewrite al_compact_start. lia.
  - by rewrite al_compact_end by lia.
  - intros i. rewrite al_compact_start. intros Hi. rewrite al_at_compact, decide_False by lia.
    apply rd_at0. lia.
Qed.

Lemma completed_runs a s n manual r err :
  ready a s -> sm_commit_index_ s < al_next a -> al_next a < 2 ^ 64 ->
  (r = true -> err = false -> exists q, sm_last_snapshot (trace_ s) = Some q
     /\ snp_last_log_idx q = sm_commit_index_ s) ->
  runs (on_snapshot_completed n manual r err) s
    (fun _ s' => ready a s' /\ steady s s').
Proof.
  intros R Hlt Hb Hq. unfold on_snapshot_completed. apply runs_bind.
  apply (runs_mono _ _ (fun _ s' => ready a s' /\ steady s s')); cycle 1.
  { intros [] s1 (R1 & S1). apply runs_kept.
    { kept_solve. }
    intros [] s2 K. split; [by eapply ready_kept|]. etrans; [done|by apply kept_steady]. }
  destruct err; cbn [negb andb when]; [by apply runs_ret|]. destruct r; cbn [when]; [|by apply runs_ret].
  destruct (Hq eq_refl eq_refl) as (q & Eq & Hi). apply runs_self. rewrite Eq.
  apply runs_bind, runs_modify. rewrite Hi.
  set (s1 := s <| last_snapshot_ := Some q |>).
  assert (R1 : ready a s1) by (destruct R; by split).
  destruct (Z.ltb_spec (u64 (reserved_log_items_ (params_ s))) (sm_commit_index_ s)) as [Hr|Hr];
    cbn [when]; [|by apply runs_ret].
  assert (0 <= u64 (reserved_log_items_ (params_ s))) by (unfold u64; apply Z.mod_pos_bound; lia).
  rewrite u64_small by (unfold is_u64; lia).
  destruct (ls_compact (sm_commit_index_ s - u64 (reserved_log_items_ (params_ s))) (log_store_ s1))
    as (l & E & O & V); [apply R1|lia|].
  apply runs_bind. exists true, (s1 <| log_store_ := l |>). split; [unfold with_log; by rewrite E|].
  apply runs_ret. split; [|by split].
  eapply ready_compact; [done|done| |done|done|exact V]. cbn. lia.
Qed.

Lemma make_snapshot_runs a s :
  keeps_snapshots -> ready a s -> sm_commit_index_ s < al_next a -> al_next a < 2 ^ 64 ->
  cc_prev_log_idx (rs_config_ s) < al_next a ->
  runs (make_snapshot (sm_commit_index_ s)) s (fun _ s' => ready a s' /\ steady s s').
Proof.
  intros HK R Hlt Hb Hp. unfold make_snapshot. apply runs_self.
  destruct (match last_snapshot_ s with Some p => _ | None => false end).
  { apply runs_kept; [kept_solve|]. intros ? s' K. split; [by eapply ready_kept|by apply kept_steady]. }
  apply runs_bind. eapply runs_mono; [eapply snapshot_config_runs; [done|apply R|done]|].
  intros c ? ->. apply runs_bind. eapply runs_read; [apply ls_term_at; apply R|].
  set (p := mk_snapshot _ _ _ _ _). apply runs_self, runs_bind, runs_modify.
  set (s1 := s <| trace_ ::= cons (Ev_create_snapshot p) |>).
  assert (K1 : kept s s1).
  { split; try done. pose proof (commits_cons (Ev_create_snapshot p) (trace_ s)) as H.
    by rewrite app_nil_r in H. }
  apply runs_bind. destruct (sm_create_snapshot (trace_ s) p) as [[r err]|] eqn:Ec.
  - apply (runs_mono _ _ (fun _ s' => ready a s' /\ steady s1 s')); cycle 1.
    { intros [] s' (R' & S'). apply runs_ret. split; [done|]. etrans; [by apply kept_steady|done]. }
    apply completed_runs; [by eapply ready_kept|done|done|]. intros -> ->. exact (HK _ _ Ec).
  - apply runs_ret, runs_ret. split; [by eapply ready_kept|by apply kept_steady].
Qed.

Lemma snapshot_runs a s forced :
  keeps_snapshots -> ready a s -> sm_commit_index_ s < al_next a -> al_next a < 2 ^ 64 ->
  runs (snapshot_and_compact (sm_commit_index_ s) forced) s (fun _ s' => ready a s' /\ steady s s').
Proof.
  intros HK R Hlt Hb. unfold snapshot_and_compact. apply runs_self.
  rewrite ls_next_slot by apply R. fold (log_of s). rewrite (rd_next _ _ R).
  destruct (Z.leb_spec (al_next a) (cc_prev_log_idx (rs_config_ s))); [by apply runs_ret|].
  destruct (_ && _); [by apply runs_ret|].
  apply runs_bind, runs_kept; [apply kept_callback|]. intros rc s1 K1.
  assert (R1 : ready a s1) by (by eapply ready_kept). apply kept_steady in K1 as S1.
  destruct (negb _); [by apply runs_ret|]. apply runs_self.
  destruct (_ && _); [|by apply runs_ret]. apply runs_bind, runs_modify.
  set (s2 := s1 <| snp_in_progress_ := true |>).
  assert (K2 : kept s1 s2) by (by split). apply runs_self.
  destruct (negb (can_create_snapshot _ _ _ s2)).
  { apply runs_bind, runs_modify, runs_ret. assert (K3 : kept s1 (s2 <| snp_in_progress_ := false |>)) by (by split).
    split; [by eapply ready_kept|]. etrans; [done|by apply kept_steady]. }
  rewrite <- (sd_sm _ _ S1). change (sm_commit_index_ s1) with (sm_commit_index_ s2).
  destruct (make_snapshot_runs a s2) as (b & s3 & E & R3 & S3); [done|by eapply ready_kept| |done| |].
  { cbn. by rewrite (sd_sm _ _ S1). }
  { cbn. by rewrite (kp_config _ _ K1). }
  exists b, s3. split; [unfold try_catch; by rewrite E|]. split; [done|].
  etrans; [done|]. etrans; [by apply kept_steady|done].
Qed.

(** ** Entries *)

(** The state machine has been given [evs]. *)
Record gave (evs : list event) (s s' : server) : Prop := {
  gv_quick : quick_commit_index_ s' = quick_commit_index_ s;
  gv_precommit : precommit_index_ s' = precommit_index_ s;
  gv_paused : sm_commit_paused_ s' = sm_commit_paused_ s;
  gv_params : params_ s' = params_ s;
  gv_commits : commits (trace_ s') = commits (trace_ s) ++ evs
}.

Lemma steady_gave s s' : steady s s' -> gave [] s s'.
Proof. intros []. split; try done. by rewrite app_nil_r. Qed.

Lemma gave_trans e1 e2 s1 s2 s3 : gave e1 s1 s2 -> gave e2 s2 s3 -> gave (e1 ++ e2) s1 s3.
Proof. intros [] []. split; try congruence. rewrite app_assoc. congruence. Qed.

Lemma gave_steady evs s1 s2 s3 : gave evs s1 s2 -> steady s2 s3 -> gave evs s1 s3.
Proof.
  intros H1 H2%steady_gave. rewrite <- (app_nil_r evs). by eapply gave_trans.
Qed.

Lemma gave_emit e s : is_commit e = true -> gave [e] s (s <| trace_ ::= cons e |>).
Proof.
  intros He. split; try done. pose proof (commits_cons e (trace_ s)) as H. by rewrite He in H.
Qed.

(** What a commit of the entry [e] at [i] needs. *)
Definition committable (a : alog) (precommit i : Z) (e : log_entry) : Prop :=
  le_term e <> 0 /\
  match le_value_type e with
  | app_log => i <= precommit
  | conf => exists b c, stored_payload e = Some b
              /\ from_buf cluster_config_deserialize b = Ok c /\ config_chain a c
  | _ => True
  end.

Lemma stored_payload_Some e : storable e -> exists b, le_buff (rewound e) = Some b
  /\ stored_payload e = Some (run_state (set_pos 0) b).
Proof.
  intros (l & p & E & _). unfold stored_payload, rewound. rewrite E. by eexists.
Qed.

Lemma app_log_runs a s i e need :
  ready a s -> storable e -> le_value_type e = app_log -> i <= precommit_index_ s ->
  runs (commit_app_log i (rewound e) need) s (fun _ s' =>
    ready a s' /\ gave (commit_event i e) s s' /\ sm_commit_index_ s' = sm_commit_index_ s).
Proof.
  intros R He Et Hi. destruct (stored_payload_Some e He) as (b & Eb & Ep).
  unfold commit_event. rewrite Ep, Et. unfold commit_app_log, payload. rewrite Eb.
  apply runs_bind, runs_ret, runs_self. rewrite ltb_false by lia. apply runs_bind, runs_modify.
  set (s1 := s <| trace_ ::= _ |>). assert (R1 : ready a s1) by (destruct R; by split).
  apply runs_kept; [apply (returns_when _), kept_answer|]. intros [] s2 K2.
  split; [by eapply ready_kept|]. split; [|apply K2].
  eapply gave_steady; [by apply gave_emit|by apply kept_steady].
Qed.

Lemma reconfigure_sets c (s : server) :
  runs (reconfigure c) s (fun _ s' => exists s1, kept s s1 /\
    kept (s1 <| stale_config_ := Some (rs_config_ s1) |> <| rs_config_ := c |>) s').
Proof.
  unfold reconfigure. apply runs_self.
  do 3 (apply runs_bind, runs_kept; [apply returns_for_each; kept_solve|]; intros [] ? ?).
  match goal with |- runs _ ?s1 _ => assert (K1 : kept s s1) by (by repeat (etrans; [eassumption|]));
    set (s1' := s1) in * end.
  apply runs_bind, runs_modify. apply runs_kept.
  { unfold update_peer_config, update_target_priority. kept_solve. }
  intros [] s3 K3. by exists s1'.
Qed.

Lemma reconfigure_runs a s c :
  ready a s -> config_chain a c ->
  runs (reconfigure c) s (fun _ s' => ready a s' /\ steady s s').
Proof.
  intros R Hc. eapply runs_mono; [apply reconfigure_sets|]. intros _ s' (s1 & K1 & K2).
  set (s2 := _ <| rs_config_ := c |>) in K2.
  assert (R2 : ready a s2) by (apply (ready_kept _ _ _ R) in K1 as []; by split).
  split; [by eapply ready_kept|]. etrans; [by apply kept_steady|].
  etrans; [|by apply kept_steady]. by split.
Qed.

Lemma conf_runs a s i e b c :
  ready a s -> storable e -> le_value_type e = conf -> stored_payload e = Some b ->
  from_buf cluster_config_deserialize b = Ok c -> config_chain a c ->
  runs (commit_conf i (rewound e)) s (fun _ s' =>
    ready a s' /\ gave (commit_event i e) s s' /\ sm_commit_index_ s' = sm_commit_index_ s).
Proof.
  intros R He Et Eb Ec Hc. destruct (stored_payload_Some e He) as (b' & Eb' & Ep).
  unfold commit_event. rewrite Ep in Eb. injection Eb as <-. rewrite Ep, Et, Ec.
  unfold commit_conf, get_entry_buf. rewrite Eb'.
  apply runs_bind. eapply runs_lift; [done|]. apply runs_bind. eapply runs_lift; [done|].
  apply runs_bind, runs_modify, runs_self. set (s1 := s <| config_changing_ := false |>).
  assert (R1 : ready a s1) by (destruct R; by split).
  apply runs_bind. apply (runs_mono _ _ (fun _ s2 => ready a s2 /\ steady s1 s2)).
  { destruct (_ <? _); cbn [when]; [|by apply runs_ret].
    apply runs_bind, runs_kept; [by apply kept_emit|]. intros [] s2 K2.
    eapply runs_mono; [apply reconfigure_runs; [by eapply ready_kept|done]|].
    intros [] s3 (R3 & S3). split; [done|]. etrans; [by apply kept_steady|done]. }
  intros [] s2 (R2 & S2). apply runs_bind, runs_kept; [apply kept_callback|]. intros rc s3 K3.
  apply runs_modify. apply (ready_kept _ _ _ R2) in K3 as R3. split; [destruct R3; by split|].
  assert (S3 : steady s s3) by (etrans; [|by apply kept_steady]; etrans; [|exact S2]; by split).
  split; [|apply S3]. eapply (gave_trans []); [by apply steady_gave|by apply gave_emit].
Qed.

Lemma commit_one_runs a s e need :
  keeps_snapshots -> ready a s -> al_next a < 2 ^ 64 ->
  al_at a (sm_commit_index_ s + 1) = Some e ->
  committable a (precommit_index_ s) (sm_commit_index_ s + 1) e ->
  runs (commit_one need) s (fun _ s' => ready a s' /\
    gave (commit_event (sm_commit_index_ s + 1) e) s s' /\
    sm_commit_index_ s' = sm_commit_index_ s + 1).
Proof.
  intros HK R Hb He (Ht & Hcm). pose proof (al_at_range _ _ _ He) as Hr.
  assert (He' : al_at (log_of s) (sm_commit_index_ s + 1) = Some e)
    by (by rewrite (rd_at _ _ R) by apply R).
  pose proof (al_at_storable _ _ _ (ls_storable _ (rd_ok _ _ R)) He') as Hst.
  pose proof (rd_sm _ _ R). unfold commit_one. apply runs_self.
  rewrite u64_small by (unfold is_u64; lia). apply runs_bind.
  eapply runs_read; [by apply ls_entry_at; [apply R|]|]. cbn beta iota.
  replace (le_term (rewound e)) with (le_term e) by (unfold rewound; by destruct (le_buff e)).
  rewrite (proj2 (Z.eqb_neq _ _) Ht). apply runs_bind.
  replace (le_value_type (rewound e)) with (le_value_type e) by (unfold rewound; by destruct (le_buff e)).
  set (i := sm_commit_index_ s + 1) in *.
  apply (runs_mono _ _ (fun _ s' =>
    ready a s' /\ gave (commit_event i e) s s' /\ sm_commit_index_ s' = sm_commit_index_ s)).
  { destruct (stored_payload_Some e Hst) as (b & _ & Ep).
    destruct (le_value_type e) eqn:Et;
      try (apply runs_ret; split; [done|]; split; [|done]; unfold commit_event; rewrite Ep, Et; apply steady_gave; reflexivity).
    - by apply app_log_runs.
    - destruct Hcm as (b' & c & Eb & Ec & Hc). exact (conf_runs a s i e b' c R Hst Et Eb Ec Hc). }
  intros [] s1 (R1 & G1 & Esm). apply runs_self. rewrite u64_small by (unfold is_u64; lia).
  rewrite Esm. replace (i - 1) with (sm_commit_index_ s) by lia. rewrite Z.eqb_refl. cbn [when].
  apply runs_bind, runs_bind, runs_modify. set (s2 := s1 <| sm_commit_index_ := i |>).
  assert (R2 : ready a s2).
  { pose proof (rd_start _ _ R1) as H1. rewrite Esm in H1.
    destruct R1. split; try done; change (log_of s2) with (log_of s1); change (sm_commit_index_ s2) with i; lia. }
  apply runs_bind. eapply runs_mono; [apply (snapshot_runs a s2); [done|done|cbn; lia|done]|].
  intros _ s3 (R3 & S3).
  apply runs_bind, runs_kept; [apply kept_callback|]. intros _ s4 K4. apply runs_ret.
  apply runs_kept; [apply kept_watchers|]. intros [] s5 K5.
  assert (S5 : steady s2 s5) by (etrans; [done|]; etrans; by apply kept_steady).
  split; [by eapply ready_kept; [eapply ready_kept|]|]. split; [|apply S5].
  split; (etrans; [apply S5|apply G1]).
Qed.

(** ** A round *)

(** The last index that can be applied. *)
Definition apply_target (a : alog) (s : server) : Z := Z.min (quick_commit_index_ s) (al_next a - 1).

(** The entries not yet applied can be. *)
Definition all_committable (a : alog) (s : server) : Prop := forall i e,
  sm_commit_index_ s < i <= apply_target a s -> al_at a i = Some e ->
  committable a (precommit_index_ s) i e.

(** What a round has done: [n] entries were applied. *)
Record round_done (late : history -> bool) (a : alog) (s : server) (finished first : bool) (n : nat)
    (s' : server) : Prop := {
  ro_ready : ready a s';
  ro_gave : gave (commit_events a (sm_commit_index_ s + 1) n) s s';
  ro_sm : sm_commit_index_ s' = sm_commit_index_ s + Z.of_nat n;
  ro_upto : n <> O -> sm_commit_index_ s' <= apply_target a s;
  ro_all : finished = true -> sm_commit_paused_ s = false -> apply_target a s <= sm_commit_index_ s';
  ro_some : first = true -> sm_commit_paused_ s = false -> sm_commit_index_ s < apply_target a s -> n <> O;
  ro_time : (forall h, late h = false) -> finished = true
}.

Lemma last_log_idx_ready a s : ready a s -> get_last_log_idx s = al_next a - 1.
Proof.
  intros R. destruct (ls_range _ (rd_ok _ _ R)) as (R1 & R2). fold (log_of s) in *.
  unfold get_last_log_idx. rewrite ls_next_slot by apply R. fold (log_of s). rewrite (rd_next _ _ R) in *.
  rewrite u64_small; [done|]. unfold is_u64. pose proof (rd_next _ _ R) as E.
  unfold al_next in E at 1. pose proof (zlen_nonneg (al_entries (log_of s))). lia.
Qed.

Lemma loop_runs late need a fuel first s :
  keeps_snapshots -> ready a s -> al_next a < 2 ^ 64 -> all_committable a s ->
  quick_commit_index_ s - sm_commit_index_ s <= Z.of_nat fuel ->
  runs (commit_loop late need first fuel) s (fun b s' => exists n, round_done late a s b first n s').
Proof.
  revert first s. induction fuel as [|fuel IH]; intros first s HK R Hb Hc Hf; cbn [commit_loop];
    apply runs_self; rewrite (last_log_idx_ready _ _ R);
    destruct (Z.ltb_spec (sm_commit_index_ s) (quick_commit_index_ s)),
      (Z.ltb_spec (sm_commit_index_ s) (al_next a - 1)); cbn [andb];
    try lia;
    try (apply runs_ret; exists O; split; try done; [apply steady_gave; reflexivity|lia|unfold apply_target; lia..]).
  destruct (negb first && late (trace_ s)) eqn:El.
  { apply runs_ret. exists O. split; try done; [apply steady_gave; reflexivity|lia| |].
    - by intros ->.
    - intros Hl. by rewrite Hl, andb_false_r in El. }
  destruct (sm_commit_paused_ s) eqn:Epa.
  { apply runs_ret. exists O. split; try done; [apply steady_gave; reflexivity|lia|congruence..]. }
  assert (Ht : sm_commit_index_ s + 1 <= apply_target a s) by (unfold apply_target; lia).
  pose proof (rd_start _ _ R). destruct (al_at_Some a (sm_commit_index_ s + 1)) as (e & He); [lia|].
  apply runs_bind. eapply runs_mono; [apply (commit_one_runs a s e); try done; apply Hc; [lia|done]|].
  intros [] s1 (R1 & G1 & E1).
  assert (Et : apply_target a s1 = apply_target a s) by (unfold apply_target; by rewrite (gv_quick _ _ _ G1)).
  eapply runs_mono; [apply (IH false s1 HK R1 Hb)|].
  { intros i e' Hi. rewrite (gv_precommit _ _ _ G1). apply Hc. rewrite Et, E1 in Hi. lia. }
  { rewrite (gv_quick _ _ _ G1), E1. lia. }
  intros b s2 (n & D). exists (S n). destruct D. rewrite Et, E1, (gv_paused _ _ _ G1) in *.
  split; try done; try lia.
  cbn [commit_events]. rewrite He. by eapply gave_trans.
Qed.

Lemma find_sm_commit_runs (s : server) :
  0 <= custom_commit_quorum_size_ (params_ s) ->
  exists i, find_sm_commit_idx_to_notify s = (Ok i, s).
Proof.
  intros Hc. unfold find_sm_commit_idx_to_notify, self, bind at 1.
  set (l := sm_commit_indexes s). assert (0 < zlen l) by (unfold l, sm_commit_indexes; rewrite zlen_cons; zlen_facts; lia).
  set (k := if _ && _ then _ else _). assert (0 <= k < zlen l) as Hk.
  { unfold k. destruct (Z.eqb_spec (custom_commit_quorum_size_ (params_ s)) 0); cbn [negb andb]; [lia|].
    destruct (Z.ltb_spec (custom_commit_quorum_size_ (params_ s)) (zlen l)); lia. }
  rewrite ltb_false by lia.
  destruct (lookup_lt_is_Some_2 (merge_sort Z.ge l) (Z.to_nat k)) as (i & ->); [|by exists i].
  rewrite (merge_sort_Permutation Z.ge l). unfold zlen in Hk. lia.
Qed.

(** The index a round starts from: entries before the log are in a snapshot. *)
Definition apply_from (s : server) : Z := Z.max (sm_commit_index_ s) (al_start (log_of s) - 1).

(** What a round needs: an intact log whose configurations are chained, terms
    and payloads, and pre-commits made. *)
Record round_ready (s : server) : Prop := {
  rr_ok : ls_ok (log_store_ s);
  rr_sm : 0 <= sm_commit_index_ s;
  rr_snap : 1 < al_start (log_of s) -> last_snapshot_ s <> None;
  rr_chain : config_chain (log_of s) (rs_config_ s);
  rr_entries i e : apply_from s < i <= apply_target (log_of s) s ->
    al_at (log_of s) i = Some e -> committable (log_of s) (precommit_index_ s) i e;
  rr_quorum : 0 <= custom_commit_quorum_size_ (params_ s)
}.

(** C6: whatever time it is given, a round of the commit thread returns, and
    the state machine is given exactly the next [n] entries of the log, in
    order and each once, where [n] is not 0 when there is an entry to apply; all
    the entries up to the commit index (or the end of the log) when the round
    finishes in time, which it does without a time limit.  The entries not yet
    applied are still in the log, although a snapshot may have compacted it. *)
Theorem state_machine_applies_log late s :
  keeps_snapshots -> round_ready s ->
  exists finished s' n, commit_in_bg_exec late s = (Ok finished, s') /\
    sm_commit_index_ s' = apply_from s + Z.of_nat n /\
    commits (trace_ s') = commits (trace_ s) ++ commit_events (log_of s) (apply_from s + 1) n /\
    (forall i, sm_commit_index_ s' < i -> al_at (log_of s') i = al_at (log_of s) i) /\
    (n <> O -> sm_commit_index_ s' <= apply_target (log_of s) s) /\
    (sm_commit_paused_ s = false -> apply_from s < apply_target (log_of s) s -> n <> O) /\
    (sm_commit_paused_ s = false -> finished = true -> apply_target (log_of s) s <= sm_commit_index_ s') /\
    ((forall h, late h = false) -> finished = true).
Proof.
  intros HK R. destruct (ls_range _ (rr_ok _ R)) as (R1 & R2). fold (log_of s) in *.
  pose proof (rr_sm _ R).
  assert (runs (commit_in_bg_exec late) s (fun b s' => exists n,
    round_done late (log_of s) (s <| sm_commit_index_ := apply_from s |>) b true n s')) as (b & s' & E & n & []).
  { unfold commit_in_bg_exec. apply runs_bind, runs_modify. rewrite ls_start_index by apply R. fold (log_of s).
    match goal with |- runs _ ?s1 _ => replace s1 with (s <| sm_commit_index_ := apply_from s |>) end; cycle 1.
    { unfold apply_from. rewrite (proj2 (Z.eqb_neq _ _)) by lia. cbn [negb andb].
      destruct (Z.ltb_spec (sm_commit_index_ s) (al_start (log_of s) - 1));
        [by rewrite Z.max_r by lia|rewrite Z.max_l by lia; by destruct s]. }
    set (s0 := s <| sm_commit_index_ := apply_from s |>). apply runs_self, runs_bind.
    assert (ready (log_of s) s0) by (destruct R; split; try done; change (sm_commit_index_ s0) with (apply_from s); change (log_of s0) with (log_of s); unfold apply_from; lia).
    eapply runs_mono; [apply (loop_runs late _ (log_of s) _ true s0)|]; try done; [exact (rr_entries _ R)|lia|].
    intros b s1 (n & D). apply runs_bind, runs_kept; [apply kept_freshness|]. intros [] s2 K2. apply runs_self.
    apply runs_bind, (runs_mono _ _ (fun _ s3 => kept s2 s3)).
    { destruct (track_peers_sm_commit_idx_ _); cbn [when]; [|by apply runs_ret].
      apply runs_bind. destruct (find_sm_commit_runs s2) as (i & Ei).
      { rewrite (kp_params _ _ K2), (gv_params _ _ _ (ro_gave _ _ _ _ _ _ _ D)). apply R. }
      exists i, s2. split; [done|]. apply runs_kept; [kept_solve|]. done. }
    intros [] s3 K3. apply runs_ret. exists n. assert (K : kept s1 s3) by (by etrans).
    destruct D. split; rewrite ?(kp_sm _ _ K); try done; [by eapply ready_kept|].
    eapply gave_steady; [done|by apply kept_steady]. }
  exists b, s', n. repeat split; try done.
  - apply ro_gave0.
  - intros i Hi. apply (rd_at _ _ ro_ready0). pose proof (rd_start _ _ ro_ready0). lia.
  - intros. by apply ro_some0.
  - intros. by apply ro_all0.
Qed.

End Round.

(** * A server with three entries, of which two are committed *)

Section Sample.

#[local] Existing Instance zeroed.

#[local] Instance sample_surroundings : Env := sample_env.

Definition applying_server : raft_server inmem_log_store :=
  (trio_server 1) <| log_store_ := store_of [1; 1; 1] |> <| quick_commit_index_ := 2 |>
                  <| precommit_index_ := 3 |>.

Lemma applying_ready : round_ready applying_server.
Proof.
  destruct (store_of_ok [1; 1; 1]) as (O & V); [done|]. split.
  - exact O.
  - by vm_compute.
  - unfold log_of, applying_server. cbn [log_store_]. intros H. change (1 < al_start (ls_view (store_of [1; 1; 1]))) in H.
    by rewrite V in H.
  - apply chain_end. change (0 < al_start (ls_view (store_of [1; 1; 1]))). by rewrite V.
  - intros i e Hi He. change (al_at (ls_view (store_of [1; 1; 1])) i = Some e) in He.
    change (0 `max` (al_start (ls_view (store_of [1; 1; 1])) - 1) < i
      <= 2 `min` (al_next (ls_view (store_of [1; 1; 1])) - 1)) in Hi.
    rewrite V in He, Hi. cbn in Hi. assert (i = 1 \/ i = 2) as [->| ->] by lia;
      vm_compute in He; injection He as <-; by vm_compute.
  - by vm_compute.
Qed.

Lemma state_machine_applies_log_witness :
  exists finished s' n, commit_in_bg_exec (fun _ => false) applying_server = (Ok finished, s') /\
    n <> O /\ apply_target (log_of applying_server) applying_server <= sm_commit_index_ s'.
Proof.
  destruct (state_machine_applies_log (fun _ => false) applying_server) as
    (b & s' & n & E & _ & _ & _ & _ & Hn & Ht & Hb); [by intros h p|exact applying_ready|].
  exists b, s', n. split; [exact E|]. split; [apply Hn|apply Ht]; try done; by apply Hb.
Defined.

End Sample.
