(* ===== verification/Client.v ===== *)
(** Client requests (handle_client_request.cc): the leader appends the entries
    of a client and pre-commits them; the answer waits for the commit.

    A response carries the function that waits for the commit: [Blocking_cb] and
    [Async_cb] name the index they wait for.  The sleep that a debugging option
    asks for is not modelled. *)
From S2P Require Import Prelude Buffer Serializer Codec Messages Peer LogStore Server.
From S2P Require Import Replication Election Startup Samples Follower Leader Commit Total Append Quorum Applied.

Record req_ext_params := mk_req_ext_params {
  after_precommit_ : bool;
  expected_term_ : Z
}.

Section Client.
Context {L : Type} `{LS : LogStore L} `{EV : Env} `{U : Uninit}.

#[local] Abbreviation server := (raft_server L).
#[local] Abbreviation SM := (M (raft_server L)).

(** The entry with the term of the leader and the time of the request. *)
Definition stamped (cur_term timestamp_us : Z) (e : log_entry) : log_entry :=
  set_timestamp timestamp_us (set_entry_term cur_term e).

(** The index of the last entry, and what its pre-commit returned. *)
Fixpoint append_cli_entries (ext_params : req_ext_params) (cur_term timestamp_us : Z)
    (entries : list log_entry) (last_idx : Z) (ret_value : option buffer)
    : SM (Z * option buffer) :=
  match entries with
  | [] => ret (last_idx, ret_value)
  | e :: entries' =>
      let e := stamped cur_term timestamp_us e in
      last_idx <- store_log_entry e 0 ;;
      buf <- payload e ;;
      h <- gets trace_ ;;
      emit (Ev_pre_commit last_idx (Some buf)) ;;
      when (after_precommit_ ext_params) (emit (Ev_after_precommit last_idx cur_term)) ;;
      append_cli_entries ext_params cur_term timestamp_us entries' last_idx
        (sm_pre_commit_ext h last_idx buf)
  end.

(** The request waits for [last_idx]; the commit thread may have been faster. *)
Definition wait_for_commit (last_idx : Z) : SM cli_cb :=
  modify (fun s => match commit_ret_elems_ s !! last_idx with
    | Some _ => s
    | None => s <| commit_ret_elems_ ::=
                  <[ last_idx := mk_commit_ret_elem last_idx TIMEOUT None false false ]> |>
    end) ;;
  s <- self ;;
  match return_method_ (params_ s) with
  | blocking => ret (Blocking_cb last_idx)
  | async_handler =>
      modify (fun s => s <| commit_ret_elems_ ::=
        alter (fun e => e <| cre_async_result_ := true |>) last_idx |>) ;;
      ret (Async_cb last_idx)
  end.

Definition handle_cli_req (req : req_msg) (ext_params : req_ext_params) (timestamp_us : Z)
    : SM (option (resp_msg * cli_cb)) :=
  s <- self ;;
  let cur_term := term_ (state_ s) in
  let resp := resp_msg_new cur_term append_entries_response (id_ s) (leader_ s) 0 false in
  if negb (bool_decide (role_ s = leader)) || write_paused_ s
  then ret (Some (set_result_code NOT_LEADER resp, No_cb))
  else if negb (expected_term_ ext_params =? 0) && negb (expected_term_ ext_params =? cur_term)
  then ret (Some (set_result_code TERM_MISMATCH resp, No_cb))
  else
    let num_entries := zlen (rq_log_entries req) in
    last <- append_cli_entries ext_params cur_term timestamp_us (rq_log_entries req) 0 None ;;
    let '(last_idx, ret_value) := last in
    when (negb (num_entries =? 0))
      (with_log (end_of_append_batch (u64 (last_idx - num_entries + 1)) num_entries)) ;;
    try_update_precommit_index last_idx ;;
    s <- self ;;
    let resp_idx := next_slot (log_store_ s) in
    rc <- callback AppendLogs (-1) ;;
    if bool_decide (rc = Cb_ReturnNull) then ret None
    else if negb (cc_async_replication (rs_config_ s)) then
      cb <- wait_for_commit last_idx ;;
      ret (Some (accept resp_idx resp, cb))
    else ret (Some (accept resp_idx (set_ctx ret_value resp), No_cb)).

Definition handle_cli_req_prelock (req : req_msg) (ext_params : req_ext_params)
    : SM (option (resp_msg * cli_cb)) :=
  s <- self ;;
  resp <- handle_cli_req req ext_params (get_timeofday_us (now_ s)) ;;
  request_append_entries_for_all ;;
  ret resp.

(** The callback of a blocked client when it wakes up, woken or after its
    timeout: [elem] is what its element then holds.  An element whose code is
    still [TIMEOUT] is in [commit_ret_elems_]. *)
Definition handle_cli_req_callback (elem : commit_ret_elem) (resp : resp_msg) : SM resp_msg :=
  (if negb (bool_decide (cre_result_code_ elem = TIMEOUT))
   then modify (fun s => s <| commit_ret_elems_ ::= delete (cre_idx_ elem) |>)
   else modify (fun s => s <| commit_ret_elems_ ::=
          alter (fun e => e <| cre_callback_invoked_ := true |>) (cre_idx_ elem) |>)) ;;
  when (negb (bool_decide (cre_result_code_ elem = OK))) (check_leadership_validity ;; ret tt) ;;
  ret (set_result_code (cre_result_code_ elem) (set_ctx (cre_ret_value_ elem) resp)).

Definition drop_all_sm_watcher_elems : SM unit :=
  s <- self ;;
  modify (fun s => s <| sm_watchers_ := ∅ |>) ;;
  for_each (map snd (map_to_list (sm_watchers_ s)))
    (fun ws => for_each ws (fun w => emit (Ev_sm_watcher w false))).

(** [w] names the result object that is returned. *)
Definition wait_for_state_machine_commit (target_idx w : Z) : SM unit :=
  s <- self ;;
  if target_idx <=? sm_commit_index_ s then emit (Ev_sm_watcher w true)
  else modify (fun s => s <| sm_watchers_ ::=
         <[ target_idx := default [] (sm_watchers_ s !! target_idx) ++ [w] ]> |>).

End Client.

(** * What a request does to the log *)

(** The pre-commits of the state machine, oldest first. *)
Definition pre_commits (h : history) : list (Z * option buffer) :=
  omap (fun e => match e with Ev_pre_commit i b => Some (i, b) | _ => None end) (rev h).

Lemma pre_commits_cons e h :
  pre_commits (e :: h) = pre_commits h ++ match e with Ev_pre_commit i b => [(i, b)] | _ => [] end.
Proof. unfold pre_commits. cbn [rev]. rewrite omap_app. f_equal. by destruct e. Qed.

(** The pre-commits of the entries [es], the first at [i]. *)
Fixpoint pre_commits_of (i : Z) (es : list log_entry) : list (Z * option buffer) :=
  match es with
  | [] => []
  | e :: es' => (i, run_state (set_pos 0) <$> le_buff e) :: pre_commits_of (i + 1) es'
  end.

Section ClientLog.
Context {L : Type} {LS : LogStore L} {SP : LogStoreSpec L} {EV : Env} {U : Uninit}.

#[local] Abbreviation server := (raft_server L).

(** What the appending of entries leaves alone. *)
Record unanswered (s s' : server) : Prop := {
  ua_params : params_ s' = params_ s;
  ua_config : rs_config_ s' = rs_config_ s;
  ua_state : state_ s' = state_ s;
  ua_role : role_ s' = role_ s;
  ua_commit : quick_commit_index_ s' = quick_commit_index_ s;
  ua_precommit : precommit_index_ s' = precommit_index_ s;
  ua_elems : commit_ret_elems_ s' = commit_ret_elems_ s
}.

#[export] Instance unanswered_preorder : PreOrder unanswered.
Proof. split; [by split|]. intros s1 s2 s3 [] []. split; congruence. Qed.

(** An entry of the application that can be stored. *)
Definition app_entry (e : log_entry) : Prop := storable e /\ le_value_type e = app_log.

Lemma append_app_entry (e : log_entry) (s : server) :
  ls_ok (log_store_ s) -> app_entry e -> al_next (log_of s) + 1 < 2 ^ 64 ->
  runs (store_log_entry e 0) s (fun i s' => i = al_next (log_of s) /\ ls_ok (log_store_ s') /\
    log_of s' = al_append (rewound e) (log_of s) /\ unanswered s s' /\ trace_ s' = trace_ s).
Proof.
  intros O (He & Et) Hn. destruct (ls_append e _ O He Hn) as (l' & E & O' & V).
  unfold store_log_entry. rewrite Et. cbn [Z.eqb]. apply runs_bind.
  exists (al_next (log_of s)), (s <| log_store_ := l' |>). split; [unfold with_log; by rewrite E|].
  apply runs_bind, runs_ret, runs_ret. by repeat split.
Qed.

Lemma stamped_app t ts e : app_entry e -> app_entry (stamped t ts e).
Proof. done. Qed.

Lemma payload_runs e (s : server) :
  storable e ->
  runs (payload e) s (fun b s' => s' = s /\ Some b = run_state (set_pos 0) <$> le_buff e).
Proof. intros (l & p & E & _). unfold payload. rewrite E. by apply runs_ret. Qed.

Lemma append_cli_runs ext t ts es last v (s : server) :
  ls_ok (log_store_ s) -> Forall app_entry es -> al_next (log_of s) + zlen es < 2 ^ 64 ->
  runs (append_cli_entries ext t ts es last v) s (fun r s' => ls_ok (log_store_ s') /\
    log_of s' = al_appends (map (stamped t ts) es) (log_of s) /\
    fst r = (if bool_decide (es = []) then last else al_next (log_of s) + zlen es - 1) /\
    pre_commits (trace_ s')
      = pre_commits (trace_ s) ++ pre_commits_of (al_next (log_of s)) (map (stamped t ts) es) /\
    unanswered s s').
Proof.
  revert last v s. induction es as [|e es IH]; intros last v s O F Hn; cbn [append_cli_entries].
  { apply runs_ret. cbn. by rewrite app_nil_r. }
  inversion F as [|? ? He F']; subst. rewrite zlen_cons in Hn. pose proof (zlen_nonneg es).
  apply runs_bind. eapply runs_mono; [apply append_app_entry; [done|by apply stamped_app|lia]|].
  intros i s1 (-> & O1 & V1 & U1 & T1). apply runs_bind.
  eapply runs_mono; [apply payload_runs; apply He|]. intros buf ? (-> & Eb).
  apply runs_bind. exists (trace_ s1), s1. split; [done|]. apply runs_bind, runs_modify, runs_bind.
  set (s2 := s1 <| trace_ ::= _ |>).
  apply (runs_mono _ _ (fun _ s3 => unanswered s2 s3 /\ log_store_ s3 = log_store_ s1 /\
    pre_commits (trace_ s3) = pre_commits (trace_ s2))).
  { destruct (after_precommit_ ext); cbn [when]; [|by apply runs_ret]. apply runs_modify.
    split; [by split|]. split; [done|].
    pose proof (pre_commits_cons (Ev_after_precommit (al_next (log_of s)) t) (trace_ s2)) as Hc.
    by rewrite app_nil_r in Hc. }
  intros [] s3 (U3 & E3 & P3). assert (V3 : log_of s3 = log_of s1) by (unfold log_of; by rewrite E3).
  assert (A1 : al_next (log_of s1) = al_next (log_of s) + 1) by (rewrite V1; apply al_append_next).
  eapply runs_mono; [apply IH; [by rewrite E3|done|rewrite V3; lia]|].
  intros r s4 (O4 & V4 & R4 & P4 & U4). split; [done|]. split; [by rewrite V4, V3, V1|].
  split; [|split].
  - rewrite R4, V3, A1, zlen_cons. destruct es as [|e' es]; [rewrite zlen_nil; cbn; lia|].
    rewrite !bool_decide_eq_false_2 by done. lia.
  - rewrite P4, P3, V3, A1. unfold s2. cbn [map pre_commits_of].
    pose proof (pre_commits_cons (Ev_pre_commit (al_next (log_of s)) (Some buf)) (trace_ s1)) as H2.
    rewrite T1 in H2. change (trace_ (s1 <| trace_ ::= cons (Ev_pre_commit (al_next (log_of s)) (Some buf)) |>))
      with (Ev_pre_commit (al_next (log_of s)) (Some buf) :: trace_ s1).
    rewrite T1, H2, <- app_assoc. cbn [app]. by rewrite Eb.
  - etrans; [exact U1|]. etrans; [|exact U4]. etrans; [|exact U3]. by split.
Qed.

(** The request waits for the index [i] as [cb] says. *)
Definition waits_for (i : Z) (cb : cli_cb) (s : server) : Prop :=
  exists elem, commit_ret_elems_ s !! i = Some elem /\
    match cb with
    | Blocking_cb j => j = i /\ return_method_ (params_ s) = blocking
    | Async_cb j => j = i /\ return_method_ (params_ s) = async_handler /\ cre_async_result_ elem = true
    | No_cb => False
    end.

(** What else the request needs not touch. *)
Record answered (s s' : server) : Prop := {
  aw_log : log_store_ s' = log_store_ s;
  aw_commit : quick_commit_index_ s' = quick_commit_index_ s;
  aw_precommit : precommit_index_ s' = precommit_index_ s;
  aw_trace : trace_ s' = trace_ s
}.

Lemma wait_runs i (s : server) :
  runs (wait_for_commit i) s (fun cb s' => waits_for i cb s' /\ answered s s').
Proof.
  unfold wait_for_commit. apply runs_bind, runs_modify.
  set (s1 := match commit_ret_elems_ s !! i with Some _ => _ | None => _ end).
  assert (answered s s1 /\ params_ s1 = params_ s /\ is_Some (commit_ret_elems_ s1 !! i)) as (A & Ep & e & He).
  { unfold s1. destruct (commit_ret_elems_ s !! i) eqn:E; (split; [by split|]; split; [done|]); [by rewrite E|].
    cbn. rewrite lookup_insert_eq. by eexists. }
  apply runs_self. destruct (return_method_ (params_ s1)) eqn:Er; [apply runs_ret; split; [by exists e|done]|].
  apply runs_bind, runs_modify, runs_ret. split; [|by destruct A].
  exists (e <| cre_async_result_ := true |>). split; [|done]. cbn. by rewrite lookup_alter_eq, He.
Qed.

Lemma end_batch_runs c i n (s : server) :
  ls_ok (log_store_ s) ->
  runs (when c (with_log (end_of_append_batch i n))) s (fun _ s' => unanswered s s' /\
    trace_ s' = trace_ s /\ ls_ok (log_store_ s') /\ log_of s' = log_of s).
Proof.
  intros O. destruct c; cbn [when]; [|by apply runs_ret].
  destruct (ls_end_of_batch i n _ O) as (l' & E & O' & V'). eexists tt, _. unfold with_log.
  rewrite E. by repeat split.
Qed.

Lemma try_update_runs i (s : server) :
  runs (try_update_precommit_index i) s
    (fun _ s' => s' = s <| precommit_index_ := Z.max (precommit_index_ s) i |>).
Proof.
  apply runs_bind, runs_modify, runs_ret. destruct (Z.ltb_spec (precommit_index_ s) i);
    [by rewrite Z.max_r by lia|]. rewrite Z.max_l by lia. by destruct s.
Qed.

(** C10: a leader takes the entries of a client: they are appended to its log in
    order, with its term and the time of the request; the state machine
    pre-commits each at its index; the pre-commit index is the last of them, and
    the commit index does not move.  The response is accepted and, with
    synchronous replication, waits for the commit of the last entry. *)
Theorem client_request_appends req ext ts (s : server) :
  ls_ok (log_store_ s) -> role_ s = leader -> write_paused_ s = false ->
  expected_term_ ext = 0 \/ expected_term_ ext = term_ (state_ s) ->
  Forall app_entry (rq_log_entries req) -> rq_log_entries req <> [] ->
  al_next (log_of s) + zlen (rq_log_entries req) < 2 ^ 64 ->
  (forall h, cb_func h AppendLogs (-1) = Cb_Ok) ->
  let es := map (fun e => e <| le_term := term_ (state_ s) |> <| le_timestamp_us := ts |>)
              (rq_log_entries req) in
  let last_idx := al_next (log_of s) + zlen es - 1 in
  exists r cb s', handle_cli_req req ext ts s = (Ok (Some (r, cb)), s') /\
    rs_accepted r = true /\ rs_next_idx r = last_idx + 1 /\
    ls_ok (log_store_ s') /\ log_of s' = al_appends es (log_of s) /\
    pre_commits (trace_ s') = pre_commits (trace_ s) ++ pre_commits_of (al_next (log_of s)) es /\
    precommit_index_ s' = Z.max (precommit_index_ s) last_idx /\
    quick_commit_index_ s' = quick_commit_index_ s /\
    (cc_async_replication (rs_config_ s) = false -> waits_for last_idx cb s').
Proof.
  intros O Hr Hw Ht F Hne Hn Hcb es last_idx. unfold last_idx.
  change es with (map (stamped (term_ (state_ s)) ts) (rq_log_entries req)) in *. clear es.
  set (es := map (stamped (term_ (state_ s)) ts) (rq_log_entries req)).
  replace (zlen es) with (zlen (rq_log_entries req)) by (unfold es; by rewrite zlen_map).
  cut (runs (handle_cli_req req ext ts) s (fun o s' => exists r cb, o = Some (r, cb) /\
    rs_accepted r = true /\ rs_next_idx r = al_next (log_of s) + zlen (rq_log_entries req) /\
    ls_ok (log_store_ s') /\ log_of s' = al_appends es (log_of s) /\
    pre_commits (trace_ s') = pre_commits (trace_ s) ++ pre_commits_of (al_next (log_of s)) es /\
    precommit_index_ s' = Z.max (precommit_index_ s) (al_next (log_of s) + zlen (rq_log_entries req) - 1) /\
    quick_commit_index_ s' = quick_commit_index_ s /\
    (cc_async_replication (rs_config_ s) = false ->
       waits_for (al_next (log_of s) + zlen (rq_log_entries req) - 1) cb s'))).
  { intros (o & s' & E & r & cb & -> & H1 & H2 & H3). exists r, cb, s'. split; [done|]. split; [done|].
    split; [lia|done]. }
  unfold handle_cli_req. apply runs_self. rewrite Hr, Hw. cbn [bool_decide negb orb].
  replace (negb (expected_term_ ext =? 0) && _) with false
    by (destruct Ht as [-> | ->]; [done|by rewrite Z.eqb_refl, andb_false_r]).
  apply runs_bind. eapply runs_mono; [by apply append_cli_runs|].
  intros [i v] s1 (O1 & V1 & R1 & P1 & U1). rewrite bool_decide_eq_false_2 in R1 by done. cbn [fst] in R1. subst i.
  set (last := al_next (log_of s) + zlen (rq_log_entries req) - 1).
  apply runs_bind, (runs_mono _ _ (fun _ s2 => unanswered s1 s2 /\ trace_ s2 = trace_ s1 /\
    ls_ok (log_store_ s2) /\ log_of s2 = log_of s1)).
  { by apply end_batch_runs. }
  intros [] s2 (U2 & T2 & O2 & V2). apply runs_bind.
  assert (US : unanswered s s2) by (by etrans).
  eapply runs_mono; [apply try_update_runs|]. intros _ ? ->. rewrite (ua_precommit _ _ US).
  set (s3 := s2 <| precommit_index_ := _ |>). apply runs_self, runs_bind.
  exists Cb_Ok, (s3 <| trace_ ::= cons (Ev_callback AppendLogs (-1)) |>).
  split; [unfold callback, bind, gets, emit, modify, ret; by rewrite Hcb|].
  set (s4 := s3 <| trace_ ::= _ |>). cbn [bool_decide].
  assert (O4 : ls_ok (log_store_ s4)) by exact O2.
  assert (V4 : log_of s4 = al_appends es (log_of s)) by (etrans; [exact V2|exact V1]).
  assert (Hnext : next_slot (log_store_ s3) = al_next (log_of s) + zlen (rq_log_entries req)).
  { change (next_slot (log_store_ s4) = al_next (log_of s) + zlen (rq_log_entries req)).
    rewrite ls_next_slot by done. fold (log_of s4). rewrite V4, al_appends_next.
    unfold es. by rewrite zlen_map. }
  assert (P4 : pre_commits (trace_ s4) = pre_commits (trace_ s) ++ pre_commits_of (al_next (log_of s)) es).
  { pose proof (pre_commits_cons (Ev_callback AppendLogs (-1)) (trace_ s2)) as Hc.
    rewrite app_nil_r in Hc. etrans; [exact Hc|]. by rewrite T2. }
  change (rs_config_ s3) with (rs_config_ s2). rewrite (ua_config _ _ US), Hnext.
  destruct (cc_async_replication (rs_config_ s)); cbn [negb].
  - apply runs_ret. eexists _, _. split; [done|]. repeat split; try done. apply US.
  - apply runs_bind. eapply runs_mono; [apply wait_runs|]. intros cb s5 (W & A5). apply runs_ret.
    eexists _, _. split; [done|]. unfold log_of. rewrite (aw_log _ _ A5), (aw_trace _ _ A5), (aw_precommit _ _ A5), (aw_commit _ _ A5).
    repeat split; try done. apply US.
Qed.

(** Otherwise it is refused and nothing changes. *)
Lemma client_request_refused req ext ts (s : server) :
  role_ s <> leader \/ write_paused_ s = true \/
    (expected_term_ ext <> 0 /\ expected_term_ ext <> term_ (state_ s)) ->
  exists r, handle_cli_req req ext ts s = (Ok (Some (r, No_cb)), s) /\
    rs_accepted r = false /\ rs_result_code r <> OK.
Proof.
  intros H. unfold handle_cli_req, self, bind at 1.
  destruct (negb _ || _) eqn:E; [by eexists|]. apply orb_false_iff in E as (E1 & E2).
  apply negb_false_iff, bool_decide_eq_true in E1. destruct H as [H|[H|(H1 & H2)]]; try congruence.
  rewrite (proj2 (Z.eqb_neq _ _) H1), (proj2 (Z.eqb_neq _ _) H2). by eexists.
Qed.

End ClientLog.

(** * A leader that takes two entries *)

Section ClientSample.

#[local] Existing Instance zeroed.

#[local] Instance client_surroundings : Env := sample_env.

Definition client_server : raft_server inmem_log_store :=
  (trio_server 1) <| log_store_ := store_of [1] |> <| role_ := leader |> <| leader_ := 1 |>.

Definition client_req : req_msg :=
  (req_msg_new 0 client_request 0 1 0 0 0) <| rq_log_entries := [sample_entry 0; sample_entry 0] |>.

Lemma client_request_appends_witness :
  exists r cb s', handle_cli_req client_req (mk_req_ext_params false 0) 7 client_server
      = (Ok (Some (r, cb)), s') /\
    rs_next_idx r = 4 /\ precommit_index_ s' = 3 /\ waits_for 3 cb s'.
Proof.
  destruct (store_of_ok [1]) as (O & V); [done|].
  assert (al_next (log_of client_server) = 2) as Hn by (unfold log_of; exact (f_equal al_next V)).
  destruct (client_request_appends client_req (mk_req_ext_params false 0) 7 client_server)
    as (r & cb & s' & E & _ & Hi & _ & _ & _ & Hp & _ & W); try done.
  - by left.
  - repeat constructor; apply sample_storable.
  - rewrite Hn in Hi, Hp, W. exists r, cb, s'. split; [exact E|]. split; [exact Hi|]. split; [exact Hp|].
    by apply W.
Defined.

End ClientSample.
