(* ===== verification/Snapshot.v ===== *)
(** The transfer of a snapshot (handle_snapshot_sync.cc): a follower saves the
    objects it receives and, after the last one, replaces its log by the
    snapshot; the leader follows the transfer by the responses.

    Before the snapshot is applied the server's lock is released until the commit
    thread pauses; what the other threads do to the server meanwhile is the
    argument [meanwhile]. *)
From S2P Require Import Prelude Buffer Serializer Codec Messages Peer LogStore Server.
From S2P Require Import Replication Election Startup Samples Follower Leader Commit Total Append Quorum Applied.

Section Snapshot.
Context {L : Type} `{LS : LogStore L} `{EV : Env} `{U : Uninit}.

#[local] Abbreviation server := (raft_server L).
#[local] Abbreviation SM := (M (raft_server L)).

Definition N10_leader_receive_InstallSnapshotRequest : Z := -10.

Definition N11_not_follower_for_snapshot : Z := -11.

Definition N12_apply_snapshot_failed : Z := -12.

Definition N13_snapshot_install_failed : Z := -13.

(** [fin] runs when [m] is left, however it ends; the end of the process apart. *)
Definition finally {A} (m : SM A) (fin : SM unit) : SM A := fun s =>
  match m s with
  | (Throw Sys_exit, s') => (Throw Sys_exit, s')
  | (r, s') => (r, snd (fin s'))
  end.

(** ** The follower *)

(** The object is given to the state machine, which names the next one. *)
Definition save_object (req : snapshot_sync_req) : SM snapshot_sync_req :=
  let is_first_obj := ssr_offset req =? 0 in
  s <- self ;;
  if bool_decide (snp_kind (ssr_snapshot req) = raw_binary) then
    emit (Ev_save_snapshot (ssr_snapshot req) (ssr_offset req) (ssr_data req) is_first_obj (ssr_done req)) ;;
    ret req
  else
    let buf := run_state (set_pos 0) (ssr_data req) in
    emit (Ev_save_snapshot (ssr_snapshot req) (ssr_offset req) buf is_first_obj (ssr_done req)) ;;
    ret (set_offset (sm_save_logical_snp_obj (trace_ s) (ssr_snapshot req) (ssr_offset req) buf
                       is_first_obj (ssr_done req)) req).

(** The log is compacted and the snapshot applied. *)
Definition apply_received (snp : snapshot) : SM bool :=
  upd_state (fun st => st <| receiving_snapshot_ := false |>) ;;
  save_state ;;
  s <- self ;;
  if negb (bool_decide (role_ s = follower)) then fatal N11_not_follower_for_snapshot
  else
    compacted <- with_log (compact (snp_last_log_idx snp)) ;;
    if compacted then
      stop_election_timer ;;
      s <- self ;;
      emit (Ev_apply_snapshot snp) ;;
      if negb (sm_apply_snapshot (trace_ s) snp) then fatal N12_apply_snapshot_failed
      else
        s <- self ;;
        let snap_conf := snp_last_config snp in
        when (cc_log_idx (rs_config_ s) <? cc_log_idx snap_conf)
          (emit (Ev_save_config snap_conf) ;; reconfigure snap_conf) ;;
        let idx := snp_last_log_idx snp in
        modify (fun s => s <| precommit_index_ := idx |> <| sm_commit_index_ := idx |>
                           <| quick_commit_index_ := idx |> <| lagging_sm_target_index_ := idx |>) ;;
        save_state ;;
        modify (fun s => s <| last_snapshot_ :=
          Some (mk_snapshot idx (snp_last_log_term snp) (snp_size snp) (rs_config_ s) (snp_kind snp)) |>) ;;
        restart_election_timer ;;
        ret true
    else ret false.

(** Whether the object was saved, and the request with the next offset. *)
Definition handle_snapshot_sync_req (meanwhile : server -> server) (req : snapshot_sync_req)
    : SM (bool * snapshot_sync_req) :=
  try_catch
    (rc <- callback SaveSnapshot (-1) ;;
     if bool_decide (rc = Cb_ReturnNull) then ret (false, req)
     else
       s <- self ;;
       when (negb (receiving_snapshot_ (state_ s)))
         (upd_state (fun st => st <| receiving_snapshot_ := true |>) ;; save_state) ;;
       modify (fun s => s <| et_cnt_receiving_snapshot_ := 0 |> <| initialized_ := true |>) ;;
       req <- save_object req ;;
       if ssr_done req then
         pause_state_machine_execution ;;
         modify meanwhile ;;
         ok <- finally (apply_received (ssr_snapshot req)) resume_state_machine_execution ;;
         ret (ok, req)
       else ret (true, req))
    (fatal N13_snapshot_install_failed).

(** A byte that tells the leader that the transfer is over. *)
Definition done_ctx : res buffer := build 1 (put_byte 0 ;; set_pos 0).

Definition end_of_transfer (resp : resp_msg) : SM resp_msg :=
  b <- lift done_ctx ;; ret (set_ctx (Some b) resp).

Definition handle_install_snapshot_req (meanwhile : server -> server) (req : req_msg) : SM resp_msg :=
  s <- self ;;
  when ((rq_term req =? term_ (state_ s)) && negb (catching_up_ (state_ s)))
    (match role_ s with
     | candidate => become_follower
     | leader => fatal N10_leader_receive_InstallSnapshotRequest
     | follower => restart_election_timer
     end) ;;
  s <- self ;;
  let resp := resp_msg_new (term_ (state_ s)) install_snapshot_response (id_ s) (rq_src req)
                (next_slot (log_store_ s)) false in
  if negb (catching_up_ (state_ s)) && (rq_term req <? term_ (state_ s)) then ret resp
  else
    match rq_log_entries req with
    | [e] =>
        if bool_decide (le_value_type e = snp_sync_req) then
          b <- lift (get_entry_buf e) ;;
          sync_req <- lift (from_buf snapshot_sync_req_deserialize b) ;;
          if snp_last_log_idx (ssr_snapshot sync_req) <=? quick_commit_index_ s then end_of_transfer resp
          else
            saved <- handle_snapshot_sync_req meanwhile sync_req ;;
            let '(ok, sync_req) := saved in
            if ok then
              if bool_decide (snp_kind (ssr_snapshot sync_req) = raw_binary)
              then ret (accept (u64 (ssr_offset sync_req + size (ssr_data sync_req))) resp)
              else
                let resp := accept (ssr_offset sync_req) resp in
                if ssr_done sync_req then end_of_transfer resp else ret resp
            else ret resp
        else ret resp
    | _ => ret resp
    end.

(** ** The leader *)

(** The last block of a raw snapshot, or the answer to the last object. *)
Definition snp_install_done (snp : snapshot) (resp : resp_msg) : bool :=
  (bool_decide (snp_kind snp = raw_binary) && (snp_size snp <=? rs_next_idx resp))
  || (bool_decide (snp_kind snp = logical_object) && is_some (rs_ctx resp)).

(** What the response says of the transfer; whether there is more to send. *)
Definition follow_transfer (pid : Z) (resp : resp_msg) : SM bool :=
  s <- self ;;
  p <- peer_at pid ;;
  if rs_accepted resp then
    match snp_sync_ctx_ p with
    | None => ret false
    | Some c =>
        let snp := ssc_snapshot c in
        if snp_install_done snp resp then
          upd_peer pid (set_next_log_idx (u64 (snp_last_log_idx snp + 1))) ;;
          upd_peer pid (set_matched_idx (snp_last_log_idx snp)) ;;
          clear_snapshot_sync_ctx pid ;;
          upd_peer pid (set_snapshot_sync_is_needed false) ;;
          pending <- ask_peer pid false clear_pending_commit ;;
          p <- peer_at pid ;;
          ret (pending || (next_log_idx_ p <? next_slot (log_store_ s)))
        else
          upd_peer pid (fun p => p <| snp_sync_ctx_ := Some (set_ctx_offset (now_ s) (rs_next_idx resp) c) |>) ;;
          ret true
    end
  else
    upd_peer pid (set_next_log_idx (rs_next_idx resp)) ;;
    clear_snapshot_sync_ctx pid ;;
    ret (rs_next_idx resp <? next_slot (log_store_ s)).

Definition handle_install_snapshot_resp (resp : resp_msg) : SM unit :=
  let pid := rs_src resp in
  s <- self ;;
  if is_none (peers_ s !! pid) then ret tt
  else
    need_to_catchup <- follow_transfer pid resp ;;
    s <- self ;;
    when (bool_decide (role_ s = leader) && need_to_catchup)
      (request_append_entries_peer pid ;; ret tt).

End Snapshot.

(** * What the last object does *)

Section Installed.
Context {L : Type} {LS : LogStore L} {SP : LogStoreSpec L} {EV : Env} {U : Uninit}.

#[local] Abbreviation server := (raft_server L).

(** The server has replaced its log up to the index of [snp] by the snapshot. *)
Record installed (snp : snapshot) (s : server) : Prop := {
  in_ok : ls_ok (log_store_ s);
  in_log : snp_last_log_idx snp < al_start (log_of s);
  in_precommit : precommit_index_ s = snp_last_log_idx snp;
  in_sm : sm_commit_index_ s = snp_last_log_idx snp;
  in_quick : quick_commit_index_ s = snp_last_log_idx snp;
  in_snapshot : exists p, last_snapshot_ s = Some p /\ snp_last_log_idx p = snp_last_log_idx snp
                  /\ snp_last_log_term p = snp_last_log_term snp;
  in_config : cc_log_idx (snp_last_config snp) <= cc_log_idx (rs_config_ s);
  in_receiving : receiving_snapshot_ (state_ s) = false;
  in_role : role_ s = follower
}.

Lemma installed_kept snp s s' : installed snp s -> kept s s' -> installed snp s'.
Proof.
  intros [] []. split; unfold log_of in *; rewrite ?kp_log, ?kp_precommit, ?kp_sm, ?kp_quick, ?kp_snapshot,
    ?kp_config, ?kp_receiving, ?kp_role; done.
Qed.

Lemma kept_stop_timer : returns kept (stop_election_timer (L := L)).
Proof. unfold stop_election_timer, cancel_task. kept_solve. Qed.

(** The configuration of the snapshot takes effect if it is newer. *)
Lemma newer_config_runs c (s : server) :
  runs (when (cc_log_idx (rs_config_ s) <? cc_log_idx c) (emit (Ev_save_config c) ;; reconfigure c)) s
    (fun _ s' => log_store_ s' = log_store_ s /\ cc_log_idx c <= cc_log_idx (rs_config_ s')
       /\ receiving_snapshot_ (state_ s') = receiving_snapshot_ (state_ s) /\ role_ s' = role_ s).
Proof.
  destruct (Z.ltb_spec (cc_log_idx (rs_config_ s)) (cc_log_idx c)); cbn [when]; [|by apply runs_ret].
  apply runs_bind, runs_kept; [by apply kept_emit|]. intros [] s1 K1.
  eapply runs_mono; [apply reconfigure_sets|]. intros _ s' (s2 & K2 & K3).
  assert (K : kept s s2) by (by etrans). rewrite (kp_log _ _ K3), (kp_config _ _ K3), (kp_receiving _ _ K3), (kp_role _ _ K3).
  split; [exact (kp_log _ _ K)|]. split; [done|]. split; [exact (kp_receiving _ _ K)|exact (kp_role _ _ K)].
Qed.

Lemma apply_received_runs snp (s : server) :
  ls_ok (log_store_ s) -> role_ s = follower -> 0 <= snp_last_log_idx snp < 2 ^ 64 - 1 ->
  (forall h, sm_apply_snapshot h snp = true) ->
  runs (apply_received snp) s (fun b s' => b = true /\ installed snp s').
Proof.
  intros O Hr Hi Ha. unfold apply_received. apply runs_bind, runs_modify.
  set (s0 := s <| state_ ::= _ |>). apply runs_bind, runs_kept; [unfold save_state; kept_solve|].
  intros [] s1 K1. apply runs_self. rewrite (kp_role _ _ K1). change (role_ s0) with (role_ s). rewrite Hr.
  cbn [bool_decide negb]. destruct (ls_compact (snp_last_log_idx snp) (log_store_ s1)) as (l & E & O1 & V1);
    [by rewrite (kp_log _ _ K1)|lia|].
  apply runs_bind. exists true, (s1 <| log_store_ := l |>). split; [unfold with_log; by rewrite E|].
  set (s2 := s1 <| log_store_ := l |>).
  apply runs_bind, runs_kept; [apply kept_stop_timer|]. intros [] s3 K3. apply runs_self.
  apply runs_bind, runs_kept; [by apply kept_emit|]. intros [] s4 K4. rewrite Ha. cbn [negb].
  assert (K : kept s2 s4) by (by etrans). apply runs_self, runs_bind.
  eapply runs_mono; [apply newer_config_runs|]. intros [] s5 (E5 & C5 & R5 & L5).
  apply runs_bind, runs_modify. set (s6 := s5 <| precommit_index_ := _ |> <| sm_commit_index_ := _ |>
    <| quick_commit_index_ := _ |> <| lagging_sm_target_index_ := _ |>).
  apply runs_bind, runs_kept; [unfold save_state; kept_solve|]. intros [] s7 K7.
  apply runs_bind, runs_modify. set (s8 := s7 <| last_snapshot_ := _ |>).
  apply runs_bind, runs_kept; [apply kept_restart_timer|]. intros [] s9 K9. apply runs_ret. split; [done|].
  eapply installed_kept; [|exact K9].
  assert (Hl : log_store_ s8 = l).
  { etrans; [exact (kp_log _ _ K7)|]. etrans; [exact E5|]. exact (kp_log _ _ K). }
  split; unfold log_of; rewrite ?Hl; try done.
  - rewrite V1, al_compact_start. lia.
  - exact (kp_precommit _ _ K7).
  - exact (kp_sm _ _ K7).
  - exact (kp_quick _ _ K7).
  - by eexists.
  - change (rs_config_ s8) with (rs_config_ s7). by rewrite (kp_config _ _ K7).
  - etrans; [exact (kp_receiving _ _ K7)|]. etrans; [exact R5|]. etrans; [exact (kp_receiving _ _ K)|].
    exact (kp_receiving _ _ K1).
  - etrans; [exact (kp_role _ _ K7)|]. etrans; [exact L5|]. etrans; [exact (kp_role _ _ K)|].
    etrans; [exact (kp_role _ _ K1)|exact Hr].
Qed.

(** What the other threads may do while the commit thread is brought to a pause:
    anything that leaves a follower with an intact log. *)
Definition harmless (meanwhile : server -> server) : Prop := forall s,
  ls_ok (log_store_ s) -> role_ s = follower ->
  ls_ok (log_store_ (meanwhile s)) /\ role_ (meanwhile s) = follower.

Lemma kept_save_object r : returns kept (save_object (L := L) r).
Proof. unfold save_object. kept_solve. Qed.

Lemma save_object_same r (s : server) :
  runs (save_object r) s (fun r' s' => kept s s' /\
    ssr_snapshot r' = ssr_snapshot r /\ ssr_done r' = ssr_done r).
Proof.
  destruct (kept_save_object r s) as (r' & s' & E & K). exists r', s'. split; [done|]. split; [done|].
  unfold save_object, self, bind at 1 in E. destruct (bool_decide _); unfold bind, emit, modify, ret in E;
    by injection E as <- _.
Qed.

(** The last object is saved, then the snapshot is applied. *)
Lemma last_object_runs meanwhile r (s : server) :
  harmless meanwhile -> ls_ok (log_store_ s) -> role_ s = follower ->
  0 <= snp_last_log_idx (ssr_snapshot r) < 2 ^ 64 - 1 -> ssr_done r = true ->
  (forall h, sm_apply_snapshot h (ssr_snapshot r) = true) ->
  (forall h, cb_func h SaveSnapshot (-1) = Cb_Ok) ->
  runs (handle_snapshot_sync_req meanwhile r) s (fun x s' => fst x = true /\
    ssr_snapshot (snd x) = ssr_snapshot r /\ ssr_done (snd x) = true /\
    installed (ssr_snapshot r) s' /\ sm_commit_paused_ s' = false).
Proof.
  intros HM O Hr Hi Hd Ha Hcb. unfold handle_snapshot_sync_req.
  match goal with |- runs (try_catch ?m _) s ?Q => cut (runs m s Q);
    [intros (x & s' & E & HQ); exists x, s'; split; [unfold try_catch; by rewrite E|done]|] end.
  apply runs_bind. eexists Cb_Ok, _. split; [unfold callback, bind, gets, emit, modify, ret; by rewrite Hcb|].
  cbn [bool_decide]. set (s1 := s <| trace_ ::= _ |>). apply runs_self, runs_bind.
  apply (runs_mono _ _ (fun _ s2 => ls_ok (log_store_ s2) /\ role_ s2 = follower)).
  { destruct (negb _); cbn [when]; [|by apply runs_ret]. apply runs_bind, runs_modify, runs_modify. done. }
  intros [] s2 (O2 & R2). apply runs_bind, runs_modify. set (s3 := s2 <| et_cnt_receiving_snapshot_ := _ |> <| initialized_ := _ |>).
  apply runs_bind. eapply runs_mono; [apply save_object_same|]. intros r' s4 (K4 & Es & Ed). rewrite Ed, Hd.
  apply runs_bind, runs_modify, runs_bind, runs_modify. set (s5 := s4 <| sm_commit_paused_ := true |>).
  destruct (HM s5) as (O6 & R6).
  { change (ls_ok (log_store_ s4)). by rewrite (kp_log _ _ K4). }
  { change (role_ s4 = follower). by rewrite (kp_role _ _ K4). }
  rewrite Es. destruct (apply_received_runs (ssr_snapshot r) (meanwhile s5) O6 R6 Hi Ha) as (b & s7 & E7 & -> & I7).
  apply runs_bind. eexists true, _. split; [unfold finally; by rewrite E7|]. apply runs_ret.
  split; [done|]. split; [done|]. split; [by rewrite <- Hd|]. split; [|done].
  destruct I7. by split.
Qed.


End Installed.

(** * A follower that receives a snapshot of five entries *)

Section InstalledSample.

#[local] Existing Instance zeroed.

#[local] Instance snapshot_surroundings : Env := sample_env.

Definition sample_snapshot : snapshot := mk_snapshot 5 1 0 trio_config logical_object.

Definition sample_sync_req : snapshot_sync_req := mk_snapshot_sync_req sample_snapshot 0 (mkbuf [7] 0) true.

Definition sample_sync_buf : buffer :=
  match snapshot_sync_req_serialize sample_sync_req with Ok b => b | Throw _ => mkbuf [] 0 end.

Definition sample_install_req : req_msg :=
  (req_msg_new 0 install_snapshot_request 1 2 1 5 5)
    <| rq_log_entries := [log_entry_new 0 (Some sample_sync_buf) snp_sync_req 0 false 0 true] |>.


End InstalledSample.
