(* ===== verification/SnapshotIo.v ===== *)
(** The thread that reads objects of snapshots (snapshot_io_mgr in
    snapshot_sync_ctx.cc): its queue, which all servers of the process share, and
    its loop.

    A request has an identity, since the loop erases requests by their address;
    of its fields the server and the peer matter to the queue.  What the server
    and the state machine make of a request is one of four outcomes.  A wait of
    the loop may end at any time, since it has a timeout; a step is one critical
    section of [queue_lock_], or one request. *)
From S2P Require Import Prelude.

Record io_queue_elem := mk_io_queue_elem { ie_id : nat; ie_raft : Z; ie_dst : Z }.

#[global] Instance io_queue_elem_eq_dec : EqDecision io_queue_elem.
Proof. solve_decision. Defined.

Definition io_key (e : io_queue_elem) : Z * Z := (ie_raft e, ie_dst e).

Inductive io_outcome := Io_not_leader | Io_read_failed | Io_sent | Io_busy.

(** What became of a request; [Io_discarded]: it was erased without a look. *)
Inductive io_fate := Io_done | Io_failed | Io_discarded.

(** [L_work]: the copy of the queue, what of it is still to be done, and
    [reqs_to_return]. *)
Inductive io_pc :=
| L_wait
| L_copy
| L_work (reqs todo reqs_to_return : list io_queue_elem)
| L_return (reqs reqs_to_return : list io_queue_elem)
| L_exit.

Record snapshot_io_mgr := mk_snapshot_io_mgr {
  io_queue_ : list io_queue_elem;
  terminating_ : bool;
  io_loop_ : io_pc;
  pushed_elems_ : list io_queue_elem;
  settled_ : list (io_queue_elem * io_fate)
}.

#[global] Instance eta_snapshot_io_mgr : Eta snapshot_io_mgr := fun r =>
  mk_snapshot_io_mgr (io_queue_ r) (terminating_ r) (io_loop_ r) (pushed_elems_ r) (settled_ r).

Definition snapshot_io_mgr_new : snapshot_io_mgr := mk_snapshot_io_mgr [] false L_wait [] [].

(** ** Operations *)

Definition has_pending_request (r srv_id : Z) (m : snapshot_io_mgr) : bool :=
  existsb (fun e => (ie_raft e =? r) && (ie_dst e =? srv_id)) (io_queue_ m).

Definition io_push (e : io_queue_elem) (m : snapshot_io_mgr) : bool * snapshot_io_mgr :=
  if has_pending_request (ie_raft e) (ie_dst e) m then (false, m)
  else (true, m <| io_queue_ ::= fun q => q ++ [e] |> <| pushed_elems_ ::= fun l => l ++ [e] |>).

Definition drop_reqs (r : Z) (m : snapshot_io_mgr) : snapshot_io_mgr :=
  m <| io_queue_ ::= filter (fun e => ie_raft e <> r) |>.

Definition io_shutdown (m : snapshot_io_mgr) : snapshot_io_mgr := m <| terminating_ := true |>.

(** ** The loop *)

Fixpoint erase_one (e : io_queue_elem) (q : list io_queue_elem) : list io_queue_elem :=
  match q with
  | [] => []
  | e2 :: q' => if bool_decide (e2 = e) then q' else e2 :: erase_one e q'
  end.

Definition erase_all (reqs q : list io_queue_elem) : list io_queue_elem :=
  fold_left (fun q e => erase_one e q) reqs q.

Definition discard (l : list io_queue_elem) : list (io_queue_elem * io_fate) :=
  map (fun e => (e, Io_discarded)) l.

(** The loop leaves the requests that are still to be done. *)
Definition break_off (reqs todo ret : list io_queue_elem) (m : snapshot_io_mgr) : snapshot_io_mgr :=
  m <| io_loop_ := L_return reqs ret |> <| settled_ ::= fun l => l ++ discard todo |>.

Definition io_request (o : io_outcome) (reqs : list io_queue_elem) (e : io_queue_elem)
    (todo ret : list io_queue_elem) (m : snapshot_io_mgr) : snapshot_io_mgr :=
  if terminating_ m then break_off reqs (e :: todo) ret m
  else
    match o with
    | Io_not_leader => break_off reqs (e :: todo) ret m
    | Io_read_failed => m <| io_loop_ := L_work reqs todo ret |> <| settled_ ::= fun l => l ++ [(e, Io_failed)] |>
    | Io_sent => m <| io_loop_ := L_work reqs todo ret |> <| settled_ ::= fun l => l ++ [(e, Io_done)] |>
    | Io_busy => m <| io_loop_ := L_work reqs todo (ret ++ [e]) |>
    end.

(** A step of [async_io_loop]; [o] is the outcome of the request, if it gets to one. *)
Definition async_io_loop (o : io_outcome) (m : snapshot_io_mgr) : option snapshot_io_mgr :=
  match io_loop_ m with
  | L_wait => Some (m <| io_loop_ := L_copy |>)
  | L_copy =>
      let reqs := if terminating_ m then [] else io_queue_ m in
      Some (m <| io_loop_ := L_work reqs reqs [] |>)
  | L_work reqs (e :: todo) ret => Some (io_request o reqs e todo ret m)
  | L_work reqs [] ret => Some (m <| io_loop_ := L_return reqs ret |>)
  | L_return reqs ret =>
      Some (m <| io_queue_ ::= fun q => erase_all reqs q ++ ret |>
              <| io_loop_ := if terminating_ m then L_exit else L_wait |>)
  | L_exit => None
  end.

Inductive io_step : snapshot_io_mgr -> snapshot_io_mgr -> Prop :=
| io_step_push e m : io_step m (snd (io_push e m))
| io_step_loop o m m' : async_io_loop o m = Some m' -> io_step m m'
| io_step_shutdown m : io_step m (io_shutdown m).

(** * While no server drops its requests *)

(** Requests that are still to be looked at. *)
Definition waiting (m : snapshot_io_mgr) : list io_queue_elem :=
  match io_loop_ m with
  | L_work reqs todo ret => ret ++ todo ++ erase_all reqs (io_queue_ m)
  | L_return reqs ret => ret ++ erase_all reqs (io_queue_ m)
  | _ => io_queue_ m
  end.

(** The copy is the beginning of the queue, and what is returned is of it. *)
Definition copy_ok (m : snapshot_io_mgr) : Prop :=
  match io_loop_ m with
  | L_work reqs todo ret => (exists new, io_queue_ m = reqs ++ new) /\ ret ++ todo `sublist_of` reqs
  | L_return reqs ret => (exists new, io_queue_ m = reqs ++ new) /\ ret `sublist_of` reqs
  | _ => True
  end.

Record io_inv (m : snapshot_io_mgr) : Prop := {
  io_keys : NoDup (map io_key (io_queue_ m));
  io_copy : copy_ok m;
  io_all : map fst (settled_ m) ++ waiting m ≡ₚ pushed_elems_ m
}.

Lemma erase_prefix reqs new : erase_all reqs (reqs ++ new) = new.
Proof.
  unfold erase_all. induction reqs as [|e reqs IH]; [done|]. cbn [app fold_left erase_one].
  by rewrite bool_decide_eq_true_2.
Qed.

Lemma pending_iff r d m : has_pending_request r d m = true <-> (r, d) ∈ map io_key (io_queue_ m).
Proof.
  unfold has_pending_request. rewrite existsb_exists, list_elem_of_fmap. unfold io_key. split.
  - intros (e & He & [H1%Z.eqb_eq H2%Z.eqb_eq]%andb_true_iff). exists e. rewrite H1, H2. by rewrite list_elem_of_In.
  - intros (e & [= -> ->] & He). exists e. rewrite !Z.eqb_refl. by rewrite <- list_elem_of_In.
Qed.

(** The requests are in the queue once each. *)
Lemma returned_keys reqs ret new :
  NoDup (map io_key (reqs ++ new)) -> ret `sublist_of` reqs -> NoDup (map io_key (new ++ ret)).
Proof.
  intros N S. rewrite map_app, Permutation_app_comm, <- map_app. eapply sublist_NoDup; [exact N|].
  apply map_sublist. by apply sublist_app.
Qed.

Lemma io_push_inv e m : io_inv m -> io_inv (snd (io_push e m)).
Proof.
  intros [N C A]. unfold io_push. destruct (has_pending_request _ _ _) eqn:E; [by split|].
  assert (io_key e ∉ map io_key (io_queue_ m)) as Hk.
  { intros H%pending_iff. by rewrite E in H. }
  split; cbn.
  - rewrite map_app. apply NoDup_app. split; [done|]. split; [|apply NoDup_singleton].
    intros k Hk1 ->%list_elem_of_singleton. done.
  - unfold copy_ok in *. cbn. destruct (io_loop_ m); try done;
      destruct C as ((new & ->) & S); (split; [exists (new ++ [e]); by rewrite app_assoc|done]).
  - rewrite <- A. unfold waiting, copy_ok in *. cbn. destruct (io_loop_ m); try solve_Permutation;
      destruct C as ((new & Eq) & S); rewrite Eq, <- app_assoc, !erase_prefix; solve_Permutation.
Qed.

Lemma fst_discard l : map fst (discard l) = l.
Proof. unfold discard. rewrite map_map. apply map_id. Qed.

Lemma io_request_inv o reqs e todo ret m :
  io_loop_ m = L_work reqs (e :: todo) ret -> io_inv m -> io_inv (io_request o reqs e todo ret m).
Proof.
  intros E [N C A]. unfold copy_ok in C. unfold waiting in A. rewrite E in *. destruct C as (P & S).
  assert (io_inv (break_off reqs (e :: todo) ret m)) as Hb.
  { split; [done|split; [done|]|].
    - etrans; [|exact S]. by apply sublist_inserts_r.
    - unfold waiting, break_off. cbn -[map discard]. rewrite map_app, fst_discard, <- A. solve_Permutation. }
  assert (ret ++ todo `sublist_of` reqs) as S'.
  { etrans; [|exact S]. apply sublist_app; [done|]. by apply sublist_cons. }
  unfold io_request. destruct (terminating_ m); [done|]. destruct o; [done|..]; (split; cbn; [done|split|]); try done.
  - rewrite <- A, map_app. cbn. solve_Permutation.
  - rewrite <- A, map_app. cbn. solve_Permutation.
  - by rewrite <- app_assoc.
  - rewrite <- A. cbn. solve_Permutation.
Qed.

Lemma io_loop_inv o m m' : io_inv m -> async_io_loop o m = Some m' -> io_inv m'.
Proof.
  intros I. unfold async_io_loop. destruct (io_loop_ m) as [| |reqs [|e todo] ret|reqs ret|] eqn:E.
  - intros [= <-]. destruct I as [N C A]. unfold waiting in A. rewrite E in A. by split.
  - intros [= <-]. destruct I as [N C A]. unfold waiting in A. rewrite E in A. split; [done|..].
    + split; [|done]. cbn. destruct (terminating_ m); [by eexists|]. exists []. by rewrite app_nil_r.
    + cbn. rewrite <- A. unfold waiting. cbn. destruct (terminating_ m); [done|].
      pose proof (erase_prefix (io_queue_ m) []) as H. rewrite app_nil_r in H. rewrite H. solve_Permutation.
  - intros [= <-]. destruct I as [N C A]. unfold waiting, copy_ok in *. rewrite E in *. destruct C as (P & S).
    split; cbn; [done|split; [done|by rewrite app_nil_r in S]|exact A].
  - intros [= <-]. by apply io_request_inv.
  - intros [= <-]. destruct I as [N C A]. unfold waiting, copy_ok in *. rewrite E in *. destruct C as ((new & Eq) & S).
    rewrite Eq, erase_prefix in *. split; cbn; rewrite ?Eq, ?erase_prefix.
    + by eapply returned_keys.
    + by destruct (terminating_ m).
    + rewrite <- A. unfold waiting. cbn. rewrite Eq, erase_prefix. destruct (terminating_ m); solve_Permutation.
  - done.
Qed.

(** Whatever the loop does between pushes, and until it ends: the queue holds at
    most one request of a server for a peer; every request that was taken into
    it is still to be looked at, has been answered or failed, or was discarded,
    exactly one of these; and the loop goes on as long as it is not told to end. *)
Theorem io_queue_accounts m : rtc io_step snapshot_io_mgr_new m ->
  NoDup (map io_key (io_queue_ m)) /\
  (map fst (settled_ m) ++ waiting m ≡ₚ pushed_elems_ m) /\
  (io_loop_ m <> L_exit -> forall o, is_Some (async_io_loop o m)).
Proof.
  intros R. assert (io_inv m) as [N C A].
  { remember snapshot_io_mgr_new as m0 eqn:E0. assert (io_inv m0) as I by (subst m0; split; [by apply NoDup_nil|done|done]).
    clear E0. induction R as [|m1 m2 m3 St R IH]; [done|]. apply IH. destruct St.
    - by apply io_push_inv.
    - by eapply io_loop_inv.
    - by destruct I. }
  split; [done|]. split; [done|]. intros H o. unfold async_io_loop.
  destruct (io_loop_ m) as [| |reqs [|e todo] ret|reqs ret|]; [by eexists..|done].
Qed.

(** ** What the queue does not promise *)

Fixpoint io_play (l : list (snapshot_io_mgr -> option snapshot_io_mgr)) (m : snapshot_io_mgr) : option snapshot_io_mgr :=
  match l with [] => Some m | f :: l' => m1 ← f m; io_play l' m1 end.

Definition io_pushes (e : io_queue_elem) (m : snapshot_io_mgr) : option snapshot_io_mgr := Some (snd (io_push e m)).

(** Server 1 has lost its leadership; the request of server 2, which leads its
    own cluster, is erased with it without having been looked at. *)
Example break_discards_others :
  io_play [io_pushes (mk_io_queue_elem 1 1 5); io_pushes (mk_io_queue_elem 2 2 6);
           async_io_loop Io_sent; async_io_loop Io_sent; async_io_loop Io_not_leader; async_io_loop Io_sent]
    snapshot_io_mgr_new
  = Some (mk_snapshot_io_mgr [] false L_wait [mk_io_queue_elem 1 1 5; mk_io_queue_elem 2 2 6]
            [(mk_io_queue_elem 1 1 5, Io_discarded); (mk_io_queue_elem 2 2 6, Io_discarded)]).
Proof. reflexivity. Qed.

(** A server drops its requests when it shuts down; one whose peer is busy at
    that moment comes back into the queue. *)
Example dropped_comes_back :
  (io_queue_ <$> io_play [io_pushes (mk_io_queue_elem 1 1 5); async_io_loop Io_sent; async_io_loop Io_sent;
                          fun m => Some (drop_reqs 1 m); async_io_loop Io_busy; async_io_loop Io_sent;
                          async_io_loop Io_sent] snapshot_io_mgr_new)
  = Some [mk_io_queue_elem 1 1 5].
Proof. reflexivity. Qed.
