(* ===== verification/Membership.v ===== *)
(** Changes of the cluster (handle_join_leave.cc): servers are added and removed
    one at a time.  The leader invites a new server, brings its log up to date
    and puts it into the configuration; a server that leaves is asked first, and
    removed from the configuration when it agrees or does not answer.  Also the
    messages of this exchange in raft_server.cc ([handle_ext_resp] and its
    errors) and [handle_hb_timeout] (handle_timeout.cc).

    [srv_to_join_] is a peer that is not in [peers_]; [on_joiner] runs an
    operation of peers on it.  [conf_to_add_] is its configuration.  A response
    names the peer object it belongs to by its id. *)
From S2P Require Import Prelude Buffer Serializer Codec Messages Peer LogStore Server.
From S2P Require Import Replication Election Startup Samples Follower Leader Commit Snapshot.

Section Membership.
Context {L : Type} `{LS : LogStore L} `{EV : Env} `{U : Uninit}.

#[local] Abbreviation server := (raft_server L).
#[local] Abbreviation SM := (M (raft_server L)).

(** [m] on the peer that joins. *)
Definition on_joiner {A} (m : Z -> SM A) : SM A := fun s =>
  match srv_to_join_ s with
  | None => (Throw Undefined, s)
  | Some j =>
      let id := p_id j in
      let '(r, s') := m id (s <| peers_ ::= <[ id := j ]> |>) in
      (r, s' <| srv_to_join_ := peers_ s' !! id |>
             <| peers_ ::= match peers_ s !! id with
                           | Some p => <[ id := p ]>
                           | None => delete id
                           end |>)
  end.

Definition upd_joiner (f : peer -> peer) : SM unit :=
  modify (fun s => s <| srv_to_join_ ::= fmap f |>).

Definition reset_srv_to_join : SM unit :=
  on_joiner clear_snapshot_sync_ctx ;;
  upd_joiner shutdown ;;
  modify (fun s => s <| srv_to_join_ := None |>).

(** ** Adding a server *)

Definition invite_srv_to_join_cluster : SM unit :=
  s <- self ;;
  b <- lift (cluster_config_serialize (rs_config_ s)) ;;
  on_joiner (fun pid =>
    let req := req_msg_new (term_ (state_ s)) join_cluster_request (id_ s) pid 0
                 (get_last_log_idx s) (quick_commit_index_ s) in
    peer_send pid (req <| rq_log_entries := [log_entry_new (term_ (state_ s)) (Some b) conf 0 false 0 true] |>)
      ex_resp_handler_ false).

(** Whether another server is joining, and not given up. *)
Definition join_in_progress (s : server) : bool :=
  match srv_to_join_ s with
  | None => false
  | Some j =>
      let last_active_ms := Z.quot (get_active_timer_us (now_ s) j) 1000 in
      let sync_timeout :=
        if is_some (snp_sync_ctx_ j) then u64 (get_snapshot_sync_ctx_timeout s)
        else u64 (response_limit_ (raft_limits_ s) * heart_beat_interval_ (params_ s)) in
      last_active_ms <=? sync_timeout
  end.

Definition handle_add_srv_req (req : req_msg) : SM resp_msg :=
  s <- self ;;
  let resp := resp_msg_new (term_ (state_ s)) add_server_response (id_ s) (leader_ s) 0 false in
  match rq_log_entries req with
  | [e] =>
      if negb (bool_decide (le_value_type e = cluster_server)) then ret (set_result_code BAD_REQUEST resp)
      else if negb (bool_decide (role_ s = leader)) || write_paused_ s
      then ret (set_result_code NOT_LEADER resp)
      else
        check_srv_to_leave_timeout ;;
        b <- lift (get_entry_buf e) ;;
        srv_conf <- lift (from_buf srv_config_deserialize b) ;;
        s <- self ;;
        let srv_conf := if use_new_joiner_type_ (params_ s) then set_new_joiner true srv_conf else srv_conf in
        if is_some (peers_ s !! sc_id srv_conf) || (id_ s =? sc_id srv_conf)
        then ret (set_result_code SERVER_ALREADY_EXISTS resp)
        else if config_changing_ s then ret (set_result_code CONFIG_CHANGING resp)
        else if join_in_progress s then ret (set_result_code SERVER_IS_JOINING resp)
        else
          match srv_to_join_ s with
          | Some j => callback ServerJoinFailed (p_id j) ;; reset_srv_to_join
          | None => ret tt
          end ;;
          s <- self ;;
          modify (fun s => s <| srv_to_join_ := Some (peer_new (now_ s) srv_conf (params_ s)
                                  (create_client (trace_ s) (sc_endpoint srv_conf))) |>) ;;
          invite_srv_to_join_cluster ;;
          ret (accept (next_slot (log_store_ s)) resp)
  | _ => ret (set_result_code BAD_REQUEST resp)
  end.

(** A configuration for the next slot with the servers [l] and the rest of [c]. *)
Definition config_with (l : list srv_config) (c : cluster_config) (s : server) : cluster_config :=
  (set_async_replication (cc_async_replication c)
     (set_user_ctx (cc_user_ctx c)
        (cluster_config_new (next_slot (log_store_ s)) (cc_log_idx c) false)))
    <| cc_servers := l |>.

(** The configuration the next one is made from: the newest, committed or not. *)
Definition latest_config (s : server) : cluster_config := default (rs_config_ s) (uncommitted_config_ s).

Definition conf_entry (c : cluster_config) : SM log_entry :=
  s <- self ;;
  b <- lift (cluster_config_serialize c) ;;
  ret (log_entry_new (term_ (state_ s)) (Some b) conf (get_timeofday_us (now_ s)) false 0 true).

(** The new server is put into the cluster. *)
Definition add_to_cluster (j : peer) : SM unit :=
  s <- self ;;
  let cur_conf := latest_config s in
  let new_conf := config_with (cc_servers cur_conf ++ [config_ j]) cur_conf s in
  e <- conf_entry new_conf ;;
  store_log_entry e 0 ;;
  modify (fun s => s <| config_changing_ := true |> <| uncommitted_config_ := Some new_conf |>) ;;
  request_append_entries.

(** The request that brings the new server forward: a snapshot or a pack of
    entries.  With snapshots read in the background the pack is not sent. *)
Definition sync_request (start_idx gap : Z) : SM unit :=
  s <- self ;;
  let params := params_ s in
  let bg := use_bg_thread_for_snapshot_io_ params in
  if start_idx <? start_index (log_store_ s) then
    modify (fun s => s <| srv_to_join_snp_retry_required_ := false |>) ;;
    req <- on_joiner (fun pid => create_sync_snapshot_req pid start_idx (term_ (state_ s)) (quick_commit_index_ s)) ;;
    if bg then emit Ev_wake_snapshot_io
    else
      match req with
      | None =>
          modify (fun s => s <| srv_to_join_snp_retry_required_ := true |>) ;;
          on_joiner enable_hb_for_peer
      | Some r => on_joiner (fun pid => peer_send pid r ex_resp_handler_ false)
      end
  else
    let size_to_sync := s32 (Z.min gap (u64 (log_sync_batch_size_ params))) in
    log_pack_buf <- with_log (pack start_idx size_to_sync) ;;
    if bg then emit Ev_wake_snapshot_io
    else
      on_joiner (fun pid =>
        let req := req_msg_new (term_ (state_ s)) sync_log_request (id_ s) pid 0 (u64 (start_idx - 1))
                     (quick_commit_index_ s) in
        peer_send pid (req <| rq_log_entries :=
                         [log_entry_new (term_ (state_ s)) (Some log_pack_buf) log_pack 0 false 0 true] |>)
          ex_resp_handler_ false).

Definition sync_log_to_new_srv (start_idx : Z) : SM unit :=
  s <- self ;;
  match srv_to_join_ s with
  | None => throw Undefined
  | Some j =>
      let params := params_ s in
      let gap := if start_idx <? quick_commit_index_ s then quick_commit_index_ s - start_idx else 0 in
      if ((0 <? log_sync_stop_gap_ params) && (gap <? u64 (log_sync_stop_gap_ params)))
         || (log_sync_stop_gap_ params =? 0) || use_new_joiner_type_ params
      then add_to_cluster j
      else sync_request start_idx gap
  end.

Definition handle_join_cluster_resp (resp : resp_msg) : SM unit :=
  s <- self ;;
  match srv_to_join_ s with
  | Some j =>
      when (bool_decide (rs_peer resp = Some (p_id j)) && rs_accepted resp)
        (sync_log_to_new_srv (rs_next_idx resp))
  | None => ret tt
  end.

Definition handle_log_sync_resp (resp : resp_msg) : SM unit :=
  s <- self ;;
  when (is_some (srv_to_join_ s))
    (upd_joiner resume_hb_speed ;;
     upd_joiner (set_next_log_idx (rs_next_idx resp)) ;;
     upd_joiner (set_matched_idx (u64 (rs_next_idx resp - 1))) ;;
     sync_log_to_new_srv (rs_next_idx resp)).

Definition handle_install_snapshot_resp_new_member (resp : resp_msg) : SM unit :=
  s <- self ;;
  when (is_some (srv_to_join_ s))
    (when (negb (rs_accepted resp)) (upd_joiner (set_next_log_idx (rs_next_idx resp))) ;;
     upd_joiner (reset_resp_timer (now_ s)) ;;
     s <- self ;;
     match srv_to_join_ s with
     | None => throw Undefined
     | Some j =>
         match snp_sync_ctx_ j with
         | None => ret tt
         | Some c =>
             let snp := ssc_snapshot c in
             (if snp_install_done snp resp then
                upd_joiner (set_next_log_idx (u64 (snp_last_log_idx snp + 1))) ;;
                upd_joiner (set_matched_idx (snp_last_log_idx snp)) ;;
                on_joiner clear_snapshot_sync_ctx
              else
                upd_joiner (fun p => p <| snp_sync_ctx_ := Some (set_ctx_offset (now_ s) (rs_next_idx resp) c) |>)) ;;
             s <- self ;;
             match srv_to_join_ s with
             | None => throw Undefined
             | Some j => sync_log_to_new_srv (next_log_idx_ j)
             end
         end
     end).

(** ** The server that joins *)

(** The servers of a configuration but [id], with their addresses. *)
Definition other_servers (id : Z) (c : cluster_config) : gmap Z (list Z) :=
  fold_left (fun m s => if sc_id s =? id then m else <[ sc_id s := sc_endpoint s ]> m) (cc_servers c) ∅.

(** The server becomes a follower of the leader that invites it. *)
Definition join_leader (req : req_msg) (decode : SM cluster_config) : SM unit :=
  s <- self ;;
  let reset_commit_idx := negb (catching_up_ (state_ s)) in
  upd_state (fun st => st <| catching_up_ := true |>) ;;
  modify (fun s => s <| role_ := follower |> <| index_at_becoming_leader_ := 0 |>
                     <| leader_ := rq_src req |>) ;;
  when reset_commit_idx
    (modify (fun s => s <| sm_commit_index_ := initial_commit_index_ s |>
                        <| quick_commit_index_ := initial_commit_index_ s |>)) ;;
  upd_state (set_voted_for (-1)) ;;
  upd_state (set_term (rq_term req)) ;;
  save_state ;;
  callback BecomeFollower (-1) ;;
  c_config <- decode ;;
  emit (Ev_save_config c_config) ;;
  reconfigure c_config.

Definition handle_join_cluster_req (req : req_msg) : SM resp_msg :=
  s <- self ;;
  let resp := resp_msg_new (term_ (state_ s)) join_cluster_response (id_ s) (rq_src req) 0 false in
  match rq_log_entries req with
  | [e] =>
      if negb (bool_decide (le_value_type e = conf)) then ret resp
      else
        let decode := b <- lift (get_entry_buf e) ;; lift (from_buf cluster_config_deserialize b) in
        if 1 <? zlen (cc_servers (rs_config_ s)) then
          req_config <- decode ;;
          if bool_decide (other_servers (id_ s) req_config = other_servers (id_ s) (rs_config_ s))
          then ret (accept (u64 (quick_commit_index_ s + 1)) resp)
          else ret resp
        else if is_some (srv_to_join_ s) && negb (rq_src req <? id_ s) then ret resp
        else
          when (is_some (srv_to_join_ s)) reset_srv_to_join ;;
          join_leader req decode ;;
          s <- self ;;
          ret (accept (u64 (quick_commit_index_ s + 1)) resp)
  | _ => ret resp
  end.

Definition handle_log_sync_req (req : req_msg) : SM resp_msg :=
  s <- self ;;
  let resp := resp_msg_new (term_ (state_ s)) sync_log_response (id_ s) (rq_src req)
                (next_slot (log_store_ s)) false in
  match rq_log_entries req with
  | [e] =>
      if negb (bool_decide (le_value_type e = log_pack)) then ret resp
      else if negb (catching_up_ (state_ s)) then ret resp
      else
        b <- lift (get_entry_buf e) ;;
        with_log (apply_pack (u64 (rq_last_log_idx req + 1)) b) ;;
        modify (fun s => s <| precommit_index_ := get_last_log_idx s |>) ;;
        s <- self ;;
        commit (get_last_log_idx s) ;;
        s <- self ;;
        ret (accept (next_slot (log_store_ s)) resp)
  | _ => ret resp
  end.

(** ** Removing a server *)

Definition rm_srv_from_cluster (srv_id : Z) : SM unit :=
  s <- self ;;
  if is_some (srv_to_leave_ s) then ret tt
  else
    let cur_conf := latest_config s in
    let new_conf := config_with (filter (fun c => sc_id c <> srv_id) (cc_servers cur_conf)) cur_conf s in
    modify (fun s => s <| config_changing_ := true |> <| uncommitted_config_ := Some new_conf |>) ;;
    e <- conf_entry new_conf ;;
    store_log_entry e 0 ;;
    s <- self ;;
    when (is_some (peers_ s !! srv_id))
      (modify (fun s => s <| srv_to_leave_ := Some srv_id |>
                          <| srv_to_leave_target_idx_ := cc_log_idx new_conf |>)) ;;
    request_append_entries.

Definition leave_requested_by_some (s : server) : bool := existsb leave_requested_ (peer_list s).

Definition handle_rm_srv_req (req : req_msg) : SM resp_msg :=
  s <- self ;;
  let resp := resp_msg_new (term_ (state_ s)) remove_server_response (id_ s) (leader_ s) 0 false in
  match rq_log_entries req with
  | [e] =>
      b <- lift (get_entry_buf e) ;;
      if negb (size b =? 4) then ret (set_result_code BAD_REQUEST resp)
      else if negb (bool_decide (role_ s = leader)) || write_paused_ s
      then ret (set_result_code NOT_LEADER resp)
      else
        check_srv_to_leave_timeout ;;
        s <- self ;;
        if is_some (srv_to_leave_ s) || leave_requested_by_some s
        then ret (set_result_code SERVER_IS_LEAVING resp)
        else if config_changing_ s then ret (set_result_code CONFIG_CHANGING resp)
        else
          srv_id <- lift (run_val get_int b) ;;
          if srv_id =? id_ s then ret (set_result_code CANNOT_REMOVE_LEADER resp)
          else if is_none (peers_ s !! srv_id) then ret (set_result_code SERVER_NOT_FOUND resp)
          else
            let leave_req := req_msg_new (term_ (state_ s)) leave_cluster_request (id_ s) srv_id 0
                               (get_last_log_idx s) (quick_commit_index_ s) in
            upd_peer srv_id set_leave_flag ;;
            free <- ask_peer srv_id false make_busy ;;
            (if free then peer_send srv_id leave_req ex_resp_handler_ false
             else upd_peer srv_id (set_rsv_msg (Some leave_req) (Some ex_resp_handler_))) ;;
            ret (accept (next_slot (log_store_ s)) resp)
  | _ => ret (set_result_code BAD_REQUEST resp)
  end.

Definition handle_leave_cluster_req (req : req_msg) : SM resp_msg :=
  s <- self ;;
  let resp := resp_msg_new (term_ (state_ s)) leave_cluster_response (id_ s) (rq_src req) 0 false in
  if negb (config_changing_ s) then
    modify (fun s => s <| steps_to_down_ := 2 |>) ;;
    ret (accept (next_slot (log_store_ s)) resp)
  else ret resp.

Definition handle_leave_cluster_resp (resp : resp_msg) : SM unit :=
  when (rs_accepted resp) (rm_srv_from_cluster (rs_src resp)).

(** [pid]: the peer that does not answer. *)
Definition handle_join_leave_rpc_err (t_msg : msg_type) (pid : Z) : SM unit :=
  if bool_decide (t_msg = leave_cluster_request) then
    s <- self ;;
    when (zlen (peer_list s) =? 1)
      (when (is_some (peers_ s !! pid)) (remove_peer_from_peers pid) ;;
       s <- self ;;
       when (is_some (srv_to_leave_ s)) reset_srv_to_leave) ;;
    s <- self ;;
    match srv_to_leave_ s with
    | Some leaver => remove_peer_from_peers leaver ;; reset_srv_to_leave
    | None => rm_srv_from_cluster pid
    end
  else
    modify (fun s => s <| config_changing_ := false |>) ;;
    reset_srv_to_join ;;
    callback ServerJoinFailed pid ;;
    ret tt.

(** ** Responses and errors of these requests *)

Definition on_retryable_req_err (pid : Z) (req : req_msg) : SM unit :=
  free <- ask_peer pid false make_busy ;;
  when free (peer_send pid req ex_resp_handler_ false).

(** A retry backs off like the heartbeats, up to the longest interval. *)
Definition retry_or_give_up (req : req_msg) (pid interval : Z) (slow_down : SM unit) : SM unit :=
  s <- self ;;
  if max_hb_interval (params_ s) <=? interval then handle_join_leave_rpc_err (rq_type req) pid
  else slow_down.

Definition handle_ext_resp_err (req : req_msg) : SM unit :=
  s <- self ;;
  when (bool_decide (rq_type req = install_snapshot_request)
        && bool_decide (p_id <$> srv_to_join_ s = Some (rq_dst req)))
    (timed_out <- on_joiner check_snapshot_timeout ;;
     when (negb timed_out)
       (modify (fun s => s <| srv_to_join_snp_retry_required_ := true |>) ;;
        on_joiner enable_hb_for_peer)) ;;
  s <- self ;;
  match rq_type req with
  | leave_cluster_request =>
      match peers_ s !! rq_dst req with
      | None => ret tt
      | Some p =>
          retry_or_give_up req (p_id p) (current_hb_interval_ p)
            (upd_peer (rq_dst req) slow_down_hb ;;
             schedule_task (Retry_task (p_id p) req) (current_hb_interval_ (slow_down_hb p)))
      end
  | sync_log_request | join_cluster_request =>
      match srv_to_join_ s with
      | None => ret tt
      | Some j =>
          retry_or_give_up req (p_id j) (current_hb_interval_ j)
            (upd_joiner slow_down_hb ;;
             schedule_task (Retry_task (p_id j) req) (current_hb_interval_ (slow_down_hb j)))
      end
  | _ => ret tt
  end.

Definition handle_ext_resp (resp : resp_msg) : SM unit :=
  match rs_type resp with
  | sync_log_response => handle_log_sync_resp resp
  | join_cluster_response => handle_join_cluster_resp resp
  | leave_cluster_response => handle_leave_cluster_resp resp
  | install_snapshot_response => handle_install_snapshot_resp_new_member resp
  | _ => ret tt
  end.

(** ** Heartbeats *)

(** A snapshot for the new server is read again. *)
Definition retry_snapshot (j : peer) : SM unit :=
  s <- self ;;
  let '(reconnect, j) := need_to_reconnect (now_ s) j in
  modify (fun s => s <| srv_to_join_ := Some j |>) ;;
  if reconnect then
    let resp_timer_ms := Z.quot (get_resp_timer_us (now_ s) j) 1000 in
    if u64 (heart_beat_interval_ (params_ s) * response_limit_ (raft_limits_ s)) <=? resp_timer_ms
    then on_joiner clear_snapshot_sync_ctx
    else
      b <- lift (srv_config_serialize (config_ j)) ;;
      c <- lift (from_buf srv_config_deserialize b) ;;
      succ <- on_joiner (fun pid => ask_peer pid false
                (recreate_rpc (now_ s) has_factory reconn_backoff_disabled
                   (create_client (trace_ s) (sc_endpoint c)))) ;;
      if succ then sync_log_to_new_srv 0 else on_joiner clear_snapshot_sync_ctx
  else sync_log_to_new_srv 0.

(** The heartbeat of a peer of the cluster. *)
Definition heartbeat (srv_id : Z) : SM unit :=
  callback HeartBeat srv_id ;;
  s <- self ;;
  if stopping_ s then ret tt
  else
    valid <- check_leadership_validity ;;
    if negb valid then ret tt
    else
      s <- self ;;
      when (bool_decide (role_ s = leader))
        (update_target_priority ;;
         request_append_entries_peer srv_id ;;
         s <- self ;;
         match peers_ s !! srv_id with
         | Some p => when (hb_enabled_ p) (schedule_task (Heartbeat_task srv_id) (current_hb_interval_ p))
         | None => ret tt
         end).

Definition handle_hb_timeout (srv_id : Z) : SM unit :=
  check_srv_to_leave_timeout ;;
  s <- self ;;
  let '(fired, t) := timeout (now_ s) (reelection_timer_ s) in
  when (write_paused_ s) (modify (fun s => s <| reelection_timer_ := t |>)) ;;
  if write_paused_ s && fired then
    modify (fun s => s <| leader_ := -1 |>) ;;
    become_follower ;;
    modify (fun s => s <| hb_alive_ := false |>)
  else
    s <- self ;;
    if srv_to_join_snp_retry_required_ s && bool_decide (p_id <$> srv_to_join_ s = Some srv_id) then
      match srv_to_join_ s with Some j => retry_snapshot j | None => ret tt end
    else
      match peers_ s !! srv_id with
      | None => ret tt
      | Some p =>
          if leave_requested_ p then
            upd_peer srv_id inc_hb_cnt_since_leave ;;
            let cur_cnt := hb_cnt_since_leave_ (inc_hb_cnt_since_leave p) in
            if leave_limit_ (raft_limits_ s) <=? cur_cnt
            then handle_join_leave_rpc_err leave_cluster_request (p_id p)
            else heartbeat srv_id
          else heartbeat srv_id
      end.

End Membership.

(** * Majorities of successive configurations *)

(** [q] has more than half of the servers of [c]. *)
Definition majority_of (c : cluster_config) (q : gset Z) : Prop :=
  q ⊆ list_to_set (map sc_id (cc_servers c)) /\ zlen (cc_servers c) < 2 * Z.of_nat (base.size q).

Lemma majority_ids l c q :
  map sc_id (cc_servers c) = l -> q ⊆ list_to_set l -> zlen l < 2 * Z.of_nat (base.size q) -> majority_of c q.
Proof. intros <- Hq Hl. split; [done|]. by rewrite zlen_map in Hl. Qed.

(** Two majorities of the ids [l1] and [l2], one more than [l1], share a server. *)
Lemma near_majorities_meet (l1 l2 : list Z) (q1 q2 : gset Z) :
  NoDup l2 -> l1 ⊆ l2 -> (length l2 <= length l1 + 1)%nat ->
  q1 ⊆ list_to_set l1 -> q2 ⊆ list_to_set l2 ->
  (length l1 < 2 * base.size q1)%nat -> (length l2 < 2 * base.size q2)%nat ->
  exists i, i ∈ q1 /\ i ∈ q2.
Proof.
  intros N S Hl S1 S2 H1 H2. apply (large_parts_meet (list_to_set l2)); [set_solver|done|].
  rewrite size_list_to_set by done. lia.
Qed.

Section Overlap.
Context {L : Type} {LS : LogStore L}.

#[local] Abbreviation server := (raft_server L).

Lemma filter_other_len (l : list srv_config) id :
  NoDup (map sc_id l) -> (length l <= length (filter (fun c => sc_id c <> id) l) + 1)%nat.
Proof.
  induction l as [|c l IH]; cbn [map]; [cbn; lia|]. intros [Hc N]%NoDup_cons. rewrite filter_cons.
  destruct (decide (sc_id c <> id)) as [|E]; cbn [length]; [specialize (IH N); lia|].
  apply dec_stable in E. assert (filter (fun c => sc_id c <> id) l = l) as ->; [|lia].
  clear IH N. induction l as [|d l IH]; [done|]. cbn [map] in Hc. apply not_elem_of_cons in Hc as (Hd & Hc).
  rewrite filter_cons, decide_True by congruence.
  by rewrite IH.
Qed.

Lemma servers_of_config_with l c (s : server) : cc_servers (config_with l c s) = l.
Proof. done. Qed.


End Overlap.

Section MembershipSample.

#[local] Existing Instance zeroed.

#[local] Instance membership_surroundings : Env := sample_env.

#[local] Abbreviation server := (raft_server inmem_log_store).


(** ** A server leaves while another one joins *)

Definition payload_of (r : res buffer) : buffer := match r with Ok b => b | Throw _ => mkbuf [] 0 end.

(** The leader of three servers, without the gap that lets a new server in late. *)
Definition trio_leader : server :=
  (trio_server 1) <| role_ := leader |> <| leader_ := 1 |>
                  <| params_ ::= fun p => p <| log_sync_stop_gap_ := 0 |> |>.

Definition admin_req (type : msg_type) (t : log_val_type) (b : buffer) : req_msg :=
  (req_msg_new 0 type 0 1 0 0 0) <| rq_log_entries := [log_entry_new 0 (Some b) t 0 false 0 true] |>.

(** Server 3 is asked to leave; server 4 is added and joins; server 3 agrees. *)
Definition leave_during_join : M server unit :=
  handle_rm_srv_req (admin_req remove_server_request app_log (payload_of (build 4 (put_int 3 ;; set_pos 0)))) ;;
  handle_add_srv_req (admin_req add_server_request cluster_server
                        (payload_of (srv_config_serialize (srv_config_simple 4 [52])))) ;;
  handle_join_cluster_resp (accept 1 (resp_msg_new 0 join_cluster_response 4 1 1 true) <| rs_peer := Some 4 |>) ;;
  handle_leave_cluster_resp (accept 1 (resp_msg_new 0 leave_cluster_response 3 1 1 true)).

(** The leader makes a second configuration before the first is committed
    when a server agrees to leave while another one joins: the newest and the
    committed configuration then differ by two servers and have majorities
    without a common server. *)
Theorem leave_during_join_splits :
  let s := run_state leave_during_join trio_leader in
  run_val leave_during_join trio_leader = Ok tt /\
  quick_commit_index_ s = 0 /\ get_last_log_idx s = 2 /\
  majority_of (rs_config_ s) {[ 2; 3 ]} /\ majority_of (latest_config s) {[ 1; 4 ]}.
Proof.
  split; [vm_compute; reflexivity|]. split; [vm_compute; reflexivity|]. split; [vm_compute; reflexivity|].
  split; [apply (majority_ids [1; 2; 3])|apply (majority_ids [1; 2; 4])];
    [vm_compute; reflexivity|set_solver|vm_compute; reflexivity|vm_compute; reflexivity|set_solver|vm_compute; reflexivity].
Qed.

End MembershipSample.
