(* ===== verification/Dispatch.v ===== *)
(** The entry points of a server: [process_req] for requests and
    [handle_peer_resp] for responses (raft_server.cc), with the handlers of
    priorities (handle_priority.cc), notifications
    (handle_custom_notification.cc) and reconnections (raft_server.cc).

    The configuration of a peer is an object of the cluster configuration, so
    that a priority set in the latter is also the peer's. *)
From S2P Require Import Prelude Buffer Serializer Codec Messages Peer LogStore Server.
From S2P Require Import Replication Election Follower Leader Commit Client Snapshot Membership.

Section Dispatch.
Context {L : Type} `{LS : LogStore L} `{EV : Env} `{U : Uninit}.

#[local] Abbreviation server := (raft_server L).
#[local] Abbreviation SM := (M (raft_server L)).

(** ** Priorities *)

Inductive PrioritySetResult := SET | BROADCAST | IGNORED.

Definition set_server_priority (srv_id priority : Z) (c : srv_config) : srv_config :=
  if sc_id c =? srv_id then set_priority priority c else c.

(** The servers [srv_id] of the configuration, which the peers share. *)
Definition set_shared_priority (srv_id priority : Z) : SM unit :=
  modify (fun s => s <| rs_config_ ::= fun c => c <| cc_servers ::= map (set_server_priority srv_id priority) |> |>
                     <| peers_ ::= fmap (fun p => set_config (set_server_priority srv_id priority (config_ p)) p) |>).

Definition broadcast_priority_change (srv_id new_priority : Z) : SM unit :=
  s <- self ;;
  when (srv_id =? id_ s) (modify (fun s => s <| my_priority_ := new_priority |>)) ;;
  set_shared_priority srv_id new_priority ;;
  for_peers (fun pid =>
    req <- log_end_req priority_change_request pid ;;
    b <- lift (sbuild (4 * 2) (put_i32 srv_id ;; put_i32 new_priority)) ;;
    s <- self ;;
    free <- ask_peer pid false make_busy ;;
    when free
      (peer_send pid (req <| rq_log_entries :=
                        [log_entry_new (term_ (state_ s)) (Some b) custom 0 false 0 true] |>)
         resp_handler_ false)).

Definition set_server_priority_req (srv_id new_priority : Z) (broadcast_when_leader_exists : bool)
    : SM PrioritySetResult :=
  s <- self ;;
  if negb (id_ s =? leader_ s) then
    if negb (is_leader_alive s) || broadcast_when_leader_exists
    then broadcast_priority_change srv_id new_priority ;; ret BROADCAST
    else ret IGNORED
  else if (id_ s =? srv_id) && (new_priority =? 0)
  then broadcast_priority_change srv_id new_priority ;; ret BROADCAST
  else
    b <- lift (cluster_config_serialize (latest_config s)) ;;
    cloned <- lift (from_buf cluster_config_deserialize b) ;;
    let cloned := set_log_idx (next_slot (log_store_ s))
                    (cloned <| cc_servers ::= map (set_server_priority srv_id new_priority) |>) in
    e <- conf_entry cloned ;;
    modify (fun s => s <| config_changing_ := true |> <| uncommitted_config_ := Some cloned |>) ;;
    store_log_entry e 0 ;;
    request_append_entries ;;
    ret SET.

(** The first server with the id is given the priority. *)
Fixpoint set_first_priority (srv_id priority : Z) (l : list srv_config) : list srv_config :=
  match l with
  | [] => []
  | c :: l' => if sc_id c =? srv_id then set_priority priority c :: l'
               else c :: set_first_priority srv_id priority l'
  end.

Definition handle_priority_change_req (req : req_msg) : SM resp_msg :=
  s <- self ;;
  let resp := resp_msg_new (rq_term req) priority_change_response (id_ s) (rq_src req) 0 false in
  match rq_log_entries req with
  | [] => ret resp
  | e :: _ =>
      match le_buff e with
      | None => ret resp
      | Some b =>
          let b := run_state (set_pos 0) b in
          if size b <? 4 * 2 then ret resp
          else
            v <- lift (run_val (i <- get_int ;; p <- get_int ;; ret (i, p)) b) ;;
            let '(t_id, t_priority) := v in
            when (t_id =? id_ s) (modify (fun s => s <| my_priority_ := t_priority |>)) ;;
            if is_some (get_server (rs_config_ s) t_id) then
              modify (fun s => s
                <| rs_config_ ::= fun c => c <| cc_servers ::= set_first_priority t_id t_priority |> |>
                <| peers_ ::= fmap (fun p => set_config (set_server_priority t_id t_priority (config_ p)) p) |>) ;;
              ret (accept (next_slot (log_store_ s)) resp)
            else ret resp
      end
  end.

(** ** Notifications *)

Definition handle_out_of_log_msg (req : req_msg) (ctx : option buffer) : SM unit :=
  update_term (rq_term req) ;;
  modify (fun s => s <| out_of_log_range_ := true |>) ;;
  match ctx with
  | None => throw Undefined
  | Some c =>
      lift (from_buf out_of_log_deserialize c) ;;
      s <- self ;;
      when ((rq_term req =? term_ (state_ s)) && bool_decide (role_ s = follower)) restart_election_timer ;;
      callback OutOfLogRangeWarning (-1) ;;
      ret tt
  end.

Definition handle_leadership_takeover : SM unit :=
  s <- self ;;
  if is_leader s then ret tt
  else
    initiate_vote true ;;
    s <- self ;;
    when (negb (bool_decide (role_ s = leader))) restart_election_timer.

Definition handle_resignation_request (req : req_msg) : SM unit :=
  s <- self ;;
  if negb (is_leader s) then ret tt else yield_leadership false (rq_src req).

Definition handle_custom_notification_req (req : req_msg) : SM resp_msg :=
  s <- self ;;
  let next := next_slot (log_store_ s) in
  let resp := accept next (resp_msg_new (term_ (state_ s)) custom_notification_response (id_ s) (rq_src req)
                             next false) in
  match rq_log_entries req with
  | [] => ret resp
  | e :: _ =>
      match le_buff e with
      | None => ret resp
      | Some b =>
          msg <- lift (from_buf noti_deserialize b) ;;
          match noti_kind msg with
          | out_of_log_range_warning => handle_out_of_log_msg req (noti_ctx msg)
          | leadership_takeover => handle_leadership_takeover
          | request_resignation => handle_resignation_request req
          | noti_other _ => ret tt
          end ;;
          ret resp
      end
  end.

Definition handle_custom_notification_resp (resp : resp_msg) : SM unit :=
  when (rs_accepted resp) (upd_peer (rs_src resp) (set_next_log_idx (rs_next_idx resp))).

(** ** Reconnections *)

Definition handle_reconnect_req (req : req_msg) : SM resp_msg :=
  s <- self ;;
  let resp := resp_msg_new (term_ (state_ s)) reconnect_response (id_ s) (rq_src req) 0 false in
  if negb (bool_decide (role_ s = leader)) then ret resp
  else if is_none (peers_ s !! rq_src req) then ret resp
  else
    upd_peer (rq_src req) (schedule_reconnection (now_ s)) ;;
    ret (accept (next_slot (log_store_ s)) resp).

(** ** Requests *)

Definition handle_ext_msg (meanwhile : server -> server) (req : req_msg) : SM (option resp_msg) :=
  match rq_type req with
  | add_server_request => resp <- handle_add_srv_req req ;; ret (Some resp)
  | remove_server_request => resp <- handle_rm_srv_req req ;; ret (Some resp)
  | sync_log_request => resp <- handle_log_sync_req req ;; ret (Some resp)
  | join_cluster_request => resp <- handle_join_cluster_req req ;; ret (Some resp)
  | leave_cluster_request => resp <- handle_leave_cluster_req req ;; ret (Some resp)
  | install_snapshot_request => resp <- handle_install_snapshot_req meanwhile req ;; ret (Some resp)
  | reconnect_request => resp <- handle_reconnect_req req ;; ret (Some resp)
  | custom_notification_request => resp <- handle_custom_notification_req req ;; ret (Some resp)
  | _ => ret None
  end.

(** [process_req]; the response to a client comes with how it waits. *)
Definition process_req (meanwhile : server -> server) (req : req_msg) (ext_params : req_ext_params)
    : SM (option (resp_msg * cli_cb)) :=
  let plain (m : SM resp_msg) := resp <- m ;; ret (Some (resp, No_cb)) in
  let maybe (m : SM (option resp_msg)) := resp <- m ;; ret (r ← resp; Some (r, No_cb)) in
  go <- accepts_req ;;
  if negb go then ret None
  else if bool_decide (rq_type req = client_request) then handle_cli_req_prelock req ext_params
  else
    observe_req_term req ;;
    match rq_type req with
    | append_entries_request =>
        rc <- callback ReceivedAppendEntriesReq (rq_src req) ;;
        if bool_decide (rc = Cb_Ok) then
          resp <- handle_append_entries req ;;
          rc <- callback SentAppendEntriesResp (rq_src req) ;;
          maybe (ret (if bool_decide (rc = Cb_Ok) then resp else None))
        else ret None
    | request_vote_request => plain (handle_vote_req req)
    | pre_vote_request => plain (handle_prevote_req req)
    | ping_request =>
        s <- self ;;
        ret (Some (resp_msg_new (term_ (state_ s)) ping_response (id_ s) (rq_src req) 0 false, No_cb))
    | priority_change_request => plain (handle_priority_change_req req)
    | _ => maybe (handle_ext_msg meanwhile req)
    end.

(** ** Responses *)

(** The request [req] to a peer failed. *)
Definition handle_peer_err (req : req_msg) : SM unit :=
  let peer_id := rq_dst req in
  s <- self ;;
  match peers_ s !! peer_id with
  | None => when (warning_limit_ (raft_limits_ s) =? 0) (callback FollowerLost peer_id ;; ret tt)
  | Some _ =>
      upd_peer peer_id inc_rpc_errs ;;
      check_snapshot_timeout peer_id ;;
      p <- peer_at peer_id ;;
      when (rpc_errs_ p =? warning_limit_ (raft_limits_ s)) (lose_peer peer_id) ;;
      when (leave_requested_ p) (handle_join_leave_rpc_err leave_cluster_request peer_id)
  end.

Definition handle_peer_resp (resp : resp_msg) : SM unit :=
  updated <- observe_resp resp ;;
  if updated then ret tt
  else
    match rs_type resp with
    | pre_vote_response => handle_prevote_resp resp
    | request_vote_response => handle_vote_resp resp
    | append_entries_response =>
        callback ReceivedAppendEntriesResp (rs_src resp) ;;
        handle_append_entries_resp resp
    | install_snapshot_response => handle_install_snapshot_resp resp
    | custom_notification_response => handle_custom_notification_resp resp
    | _ => ret tt
    end.

(** The entry points of votes and append requests used in the proofs. *)

Lemma process_req_vote meanwhile req ext :
  rq_type req = request_vote_request ->
  forall s : server, process_req meanwhile req ext s
  = (resp <- process_vote_req req ;; ret (r ← resp; Some (r, No_cb))) s.
Proof.
  intros Ht s. unfold process_req, process_vote_req. rewrite Ht. unfold bind.
  destruct (accepts_req s) as [[[]|] s1]; cbn [negb]; [|done..].
  rewrite bool_decide_eq_false_2 by done.
  destruct (observe_req_term req s1) as [[]  s2]; [|done].
  by destruct (handle_vote_req req s2) as [[] s3].
Qed.

Lemma process_req_append meanwhile req ext :
  rq_type req = append_entries_request ->
  forall s : server, process_req meanwhile req ext s
  = (resp <- process_append_req req ;; ret (r ← resp; Some (r, No_cb))) s.
Proof.
  intros Ht s. unfold process_req, process_append_req. rewrite Ht. unfold bind.
  destruct (accepts_req s) as [[[]|] s1]; cbn [negb]; [|done..].
  rewrite bool_decide_eq_false_2 by done.
  destruct (observe_req_term req s1) as [[]  s2]; [|done].
  destruct (callback ReceivedAppendEntriesReq (rq_src req) s2) as [[rc|] s3]; [|done].
  destruct (bool_decide (rc = Cb_Ok)); [|done].
  destruct (handle_append_entries req s3) as [[] s4]; [|done].
  by destruct (callback SentAppendEntriesResp (rq_src req) s4) as [[] s5].
Qed.

End Dispatch.
