(* ===== verification/Wire.v ===== *)
(** xio_service.cc: requests and responses as bytes.

    A request is a header of 54 bytes with a checksum and flags, then an optional
    piece of user data ("meta") and the log entries; a response is a header of 39
    bytes, then meta, a hint, the context and a result code, each optional.  The
    encoders are those of [register_req_send] and [on_resp_ready]; the decoders
    those of [read_complete] and [ctx_read].  [Session] and [RpcClient] have the
    rest of these functions. *)
From S2P Require Import Prelude Buffer Serializer Crc32 Codec Messages.

(** * Constants and options *)

Definition RPC_REQ_HEADER_SIZE : Z := 4 * 3 + 8 * 5 + 1 * 2.

Definition RPC_RESP_HEADER_SIZE : Z := 4 * 3 + 8 * 3 + 1 * 3.

Definition DATA_SIZE_LEN : Z := 4.

Definition CRC_FLAGS_LEN : Z := 8.

Definition INCLUDE_META : Z := 0x1.

Definition INCLUDE_HINT : Z := 0x2.

Definition INCLUDE_LOG_TIMESTAMP : Z := 0x4.

Definition CRC_ON_ENTIRE_MESSAGE : Z := 0x8.

Definition CRC_ON_PAYLOAD : Z := 0x10.

Definition INCLUDE_RESULT_CODE : Z := 0x20.

Definition MARK_DOWN : Z := 0x40.

(** [flags & f] as a condition. *)
Definition has_flag (flags f : Z) : bool := negb (Z.land flags f =? 0).

Record meta_cb_params := mk_meta_cb_params {
  mp_msg_type : Z;
  mp_src_id : Z;
  mp_dst_id : Z;
  mp_term : Z;
  mp_log_term : Z;
  mp_log_idx : Z;
  mp_commit_idx : Z;
  mp_req : option req_msg;
  mp_resp : option resp_msg
}.

Definition req_to_params (req : req_msg) (resp : option resp_msg) : meta_cb_params :=
  mk_meta_cb_params (msg_type_val (rq_type req)) (rq_src req) (rq_dst req) (rq_term req)
    (rq_last_log_term req) (rq_last_log_idx req) (rq_commit_idx req) (Some req) resp.

(** The options of the service that the messages depend on; a callback that is
    not set is [None]. *)
Record options := mk_options {
  enable_ssl_ : bool;
  write_req_meta_ : option (meta_cb_params -> list Z);
  read_req_meta_ : option (meta_cb_params -> list Z -> bool);
  invoke_req_cb_on_empty_meta_ : bool;
  write_resp_meta_ : option (meta_cb_params -> list Z);
  read_resp_meta_ : option (meta_cb_params -> list Z -> bool);
  invoke_resp_cb_on_empty_meta_ : bool;
  replicate_log_timestamp_ : bool;
  crc_on_entire_message_ : bool;
  crc_on_payload_ : bool;
  corrupted_msg_handler_ : bool;
  streaming_mode_ : bool
}.

#[global] Instance eta_options : Eta options := fun o =>
  mk_options (enable_ssl_ o) (write_req_meta_ o) (read_req_meta_ o)
    (invoke_req_cb_on_empty_meta_ o) (write_resp_meta_ o) (read_resp_meta_ o)
    (invoke_resp_cb_on_empty_meta_ o) (replicate_log_timestamp_ o) (crc_on_entire_message_ o)
    (crc_on_payload_ o) (corrupted_msg_handler_ o) (streaming_mode_ o).

Definition options_default : options :=
  mk_options false None None true None None true false false false false false.

(** * Requests *)

(** [int] addition; an overflow is undefined. *)
Definition add_int (a b : Z) : res Z :=
  if bool_decide (is_s32 (a + b)) then Ok (a + b) else Throw Undefined.

Definition when_put (c : bool) (m : M serializer unit) : M serializer unit :=
  if c then m else ret tt.

Section Encode.
Context `{U : Uninit}.

Definition LOG_ENTRY_SIZE (timestamp crc : bool) : Z :=
  8 + 1 + 4 + (if timestamp then 8 else 0) + (if crc then 5 else 0).

Definition put_entry (o : options) (le : log_entry) (buf : buffer) : M serializer unit :=
  put_u64 (le_term le) ;;
  put_u8 (log_val_byte (le_value_type le)) ;;
  when_put (replicate_log_timestamp_ o) (put_u64 (le_timestamp_us le)) ;;
  when_put (crc_on_payload_ o) (put_u8 (b2z (le_has_crc32 le)) ;; put_u32 (le_crc32 le)) ;;
  put_i32 (size buf) ;;
  sput_raw (ztake (size buf) (bytes buf)).

Definition encode_entry (o : options) (le : log_entry) : res buffer :=
  let* buf := get_entry_buf le in
  sbuild (LOG_ENTRY_SIZE (replicate_log_timestamp_ o) (crc_on_payload_ o) + size buf)
    (put_entry o le buf).

(** The loop over the entries: [log_entry_bufs] and [log_data_size]. *)
Fixpoint encode_entries (o : options) (les : list log_entry) (bufs : list buffer)
    (log_data_size : Z) : res (list buffer * Z) :=
  match les with
  | [] => Ok (bufs, log_data_size)
  | le :: les =>
      let* entry_buf := encode_entry o le in
      let* n := add_int log_data_size (s32 (size entry_buf)) in
      encode_entries o les (bufs ++ [entry_buf]) n
  end.

Definition req_flags (o : options) (req : req_msg) : Z :=
  Z.lor (Z.lor (if replicate_log_timestamp_ o then INCLUDE_LOG_TIMESTAMP else 0)
               (if crc_on_payload_ o then CRC_ON_PAYLOAD else 0))
        (if has_flag (rq_extra_flags req) EXCLUDED_FROM_THE_QUORUM then MARK_DOWN else 0).

Definition req_meta (o : options) (req : req_msg) : list Z :=
  match write_req_meta_ o with
  | Some f => f (req_to_params req None)
  | None => []
  end.

(** [sizeof(int32) + meta_str.size()], when there is any. *)
Definition meta_size (meta : list Z) : Z :=
  match meta with [] => 0 | _ => 4 + zlen meta end.

Fixpoint put_buffers (bufs : list buffer) : M serializer unit :=
  match bufs with
  | [] => ret tt
  | b :: bufs => put_buffer b ;; put_buffers bufs
  end.

Definition put_req_header (req : req_msg) (data_size : Z) : M serializer unit :=
  put_u8 0x0 ;;
  put_u8 (msg_type_val (rq_type req)) ;;
  put_i32 (rq_src req) ;;
  put_i32 (rq_dst req) ;;
  put_u64 (rq_term req) ;;
  put_u64 (rq_last_log_term req) ;;
  put_u64 (rq_last_log_idx req) ;;
  put_u64 (rq_commit_idx req) ;;
  put_i32 data_size.

(** [((uint64_t) flags << 32) | crc] *)
Definition flags_and_crc (flags crc : Z) : Z := Z.lor (Z.shiftl flags 32) crc.

Definition put_request (o : options) (req : req_msg) (meta : list Z) (bufs : list buffer)
    (data_size flags : Z) : M serializer unit :=
  put_req_header req data_size ;;
  h <- on_buf (load 0 (RPC_REQ_HEADER_SIZE - CRC_FLAGS_LEN)) ;;
  (let crc_header := crc32_8 h 0 in
   crc_pos <- gets pos_ ;;
   put_u64 (flags_and_crc flags crc_header) ;;
   payload_pos <- gets pos_ ;;
   when_put (has_flag flags INCLUDE_META) (sput_bytes meta) ;;
   put_buffers bufs ;;
   when_put (crc_on_entire_message_ o) (
     d <- on_buf (load payload_pos data_size) ;;
     set_spos crc_pos ;;
     put_u64 (flags_and_crc (Z.lor flags CRC_ON_ENTIRE_MESSAGE) (crc32_8 d crc_header)))).

(** The buffer that [register_req_send] hands to the socket. *)
Definition encode_request (o : options) (req : req_msg) : res buffer :=
  let* r := encode_entries o (rq_log_entries req) [] 0 in
  let '(bufs, log_data_size) := r in
  let meta := req_meta o req in
  let flags := Z.lor (req_flags o req) (match meta with [] => 0 | _ => INCLUDE_META end) in
  let* data_size := add_int (s32 (meta_size meta)) log_data_size in
  sbuild (u64 (RPC_REQ_HEADER_SIZE + meta_size meta + log_data_size))
    (put_request o req meta bufs data_size flags).

End Encode.

(** What [start] and [read_complete] read of the header. *)
Record req_header := mk_req_header {
  hd_type : Z;
  hd_src : Z;
  hd_dst : Z;
  hd_term : Z;
  hd_last_term : Z;
  hd_last_idx : Z;
  hd_commit_idx : Z;
  hd_data_size : Z
}.

(** The flags and the checksum, at the end of the header. *)
Definition get_flags_and_crc (at_pos : Z) : M serializer (Z * Z) :=
  set_spos at_pos ;;
  v <- get_u64 ;;
  ret (u32 (Z.shiftr v 32), Z.land v 0xffffffff).

(** The fields from the type on, as [read_complete] reads them after
    [pos(1)]. *)
Definition get_req_fields : M serializer req_header :=
  t <- get_u8 ;;
  src <- get_i32 ;;
  dst <- get_i32 ;;
  term <- get_u64 ;;
  last_term <- get_u64 ;;
  last_idx <- get_u64 ;;
  commit_idx <- get_u64 ;;
  log_data_size <- get_i32 ;;
  ret (mk_req_header t src dst term last_term last_idx commit_idx log_data_size).

Section Decode.
Context `{U : Uninit}.

(** The next entry; [None]: the packet is corrupted. *)
Definition get_entry (flags log_ctx_size : Z) : M serializer (option log_entry) :=
  let timestamps := has_flag flags INCLUDE_LOG_TIMESTAMP in
  let crcs := has_flag flags CRC_ON_PAYLOAD in
  p <- gets pos_ ;;
  if log_ctx_size - p <? LOG_ENTRY_SIZE timestamps crcs then ret None
  else
    term <- get_u64 ;;
    val_type <- get_u8 ;;
    timestamp <- (if timestamps then get_u64 else ret 0) ;;
    has_crc <- (if crcs then (b <- get_u8 ;; ret (negb (b =? 0))) else ret false) ;;
    crc32 <- (if crcs then get_u32 else ret 0) ;;
    v <- get_i32 ;;
    (let val_size := u64 v in
     p <- gets pos_ ;;
     if log_ctx_size - p <? val_size then ret None
     else
       dst <- lift (alloc val_size) ;;
       buf <- get_buffer dst ;;
       (let entry := log_entry_new term (Some buf) (log_val_of val_type) timestamp has_crc crc32
                       false in
        if crcs && has_crc && negb (buffer_crc buf =? crc32) then ret None
        else ret (Some entry))).

(** The loop over the entries.  Every turn reads at least 13 bytes. *)
Fixpoint get_entries (fuel : nat) (flags log_ctx_size : Z) (acc : list log_entry)
    : M serializer (option (list log_entry)) :=
  p <- gets pos_ ;;
  if p <? log_ctx_size then
    match fuel with
    | O => throw Blocked
    | S fuel =>
        e <- get_entry flags log_ctx_size ;;
        match e with
        | None => ret None
        | Some e => get_entries fuel flags log_ctx_size (acc ++ [e])
        end
    end
  else ret (Some acc).

(** The payload of a request: its meta and its entries. *)
Definition get_payload (flags log_ctx_size : Z) : M serializer (option (list Z * list log_entry)) :=
  meta <- (if has_flag flags INCLUDE_META then sget_bytes else ret []) ;;
  es <- get_entries (Z.to_nat log_ctx_size) flags log_ctx_size [] ;;
  ret (option_map (pair meta) es).

End Decode.

(** * Responses *)

Section Response.
Context `{U : Uninit}.

Definition resp_meta (o : options) (req : req_msg) (resp : resp_msg) : list Z :=
  match write_resp_meta_ o with
  | Some f => f (req_to_params req (Some resp))
  | None => []
  end.

(** Requests whose response has a result code. *)
Definition with_result_code (t : msg_type) : bool :=
  bool_decide (t = client_request) || bool_decide (t = add_server_request)
  || bool_decide (t = remove_server_request).

Definition resp_flags (req : req_msg) (resp : resp_msg) (meta : list Z) : Z :=
  Z.lor (Z.lor (Z.lor (match meta with [] => 0 | _ => INCLUDE_META end)
    (if rs_next_batch_size_hint_in_bytes resp =? 0 then 0 else INCLUDE_HINT))
    (if has_flag (rs_extra_flags resp) SELF_MARK_DOWN then MARK_DOWN else 0))
    (if with_result_code (rq_type req) then INCLUDE_RESULT_CODE else 0).

Definition hint_size (resp : resp_msg) : Z :=
  if rs_next_batch_size_hint_in_bytes resp =? 0 then 0 else 2 * 2 + 8.

Definition ctx_size (ctx : option buffer) : Z :=
  match ctx with Some b => s32 (size b) | None => 0 end.

Definition put_resp_header (resp : resp_msg) (data_size : Z) : M serializer unit :=
  put_u8 0x1 ;;
  put_u8 (msg_type_val (rs_type resp)) ;;
  put_i32 (rs_src resp) ;;
  put_i32 (rs_dst resp) ;;
  put_u64 (rs_term resp) ;;
  put_u64 (rs_next_idx resp) ;;
  put_u8 (b2z (rs_accepted resp)) ;;
  put_i32 data_size.

(** The hint: a version, its length and the number of bytes. *)
Definition put_hint (bytes : Z) : M serializer unit := put_u16 0 ;; put_u16 8 ;; put_i64 bytes.

Definition put_ctx (ctx : option buffer) : M serializer unit :=
  match ctx with
  | Some b => put_buffer (run_state (set_pos 0) b)
  | None => ret tt
  end.

Definition put_response (resp : resp_msg) (meta : list Z) (data_size flags : Z)
    : M serializer unit :=
  put_resp_header resp data_size ;;
  h <- on_buf (load 0 (RPC_RESP_HEADER_SIZE - CRC_FLAGS_LEN)) ;;
  put_u64 (flags_and_crc flags (crc32_8 h 0)) ;;
  when_put (has_flag flags INCLUDE_META) (sput_str meta) ;;
  when_put (has_flag flags INCLUDE_HINT) (put_hint (rs_next_batch_size_hint_in_bytes resp)) ;;
  when_put (negb (ctx_size (rs_ctx resp) =? 0)) (put_ctx (rs_ctx resp)) ;;
  when_put (has_flag flags INCLUDE_RESULT_CODE) (put_i32 (result_code_val (rs_result_code resp))).

(** The buffer that [on_resp_ready] hands to the socket. *)
Definition encode_response (o : options) (req : req_msg) (resp : resp_msg) : res buffer :=
  let meta := resp_meta o req resp in
  let flags := resp_flags req resp meta in
  let carried_data_size :=
    u64 (meta_size meta + hint_size resp + ctx_size (rs_ctx resp)
         + (if with_result_code (rq_type req) then 4 else 0)) in
  sbuild (u64 (s32 (u64 (RPC_RESP_HEADER_SIZE + carried_data_size))))
    (put_response resp meta carried_data_size flags).

(** The fields of the header of a response after [pos(1)]; the marker is not
    looked at. *)
Definition get_resp_fields : M serializer (resp_msg * Z) :=
  t <- get_u8 ;;
  src <- get_i32 ;;
  dst <- get_i32 ;;
  term <- get_u64 ;;
  nxt_idx <- get_u64 ;;
  accepted <- get_u8 ;;
  carried_data_size <- get_i32 ;;
  ret (resp_msg_new term (msg_type_of t) src dst nxt_idx (accepted =? 1), carried_data_size).

(** The rest of a composite response after its meta, [remaining_len] bytes. *)
Definition get_resp_rest (flags remaining_len : Z) (rsp : resp_msg) : M serializer resp_msg :=
  r <- (if has_flag flags INCLUDE_HINT then
          _version <- get_u16 ;;
          hint_len <- get_u16 ;;
          hint <- get_i64 ;;
          ret (set_next_batch_size_hint hint rsp, s32 (u64 (remaining_len - u64 (2 * 2 + hint_len))))
        else ret (rsp, remaining_len)) ;;
  (let '(rsp, remaining_len) := r in
   let ctx_len := u64 (u64 remaining_len - (if has_flag flags INCLUDE_RESULT_CODE then 4 else 0)) in
   rsp <- (if ctx_len =? 0 then ret rsp
           else
             dst <- lift (alloc ctx_len) ;;
             actual_ctx <- get_buffer dst ;;
             ret (set_ctx (Some actual_ctx) rsp)) ;;
   if has_flag flags INCLUDE_RESULT_CODE then
     res <- get_i32 ;; ret (set_result_code (result_code_of res) rsp)
   else ret rsp).

End Response.
