(* ===== verification/WireOk.v ===== *)
(** The encodings of [Wire] are read back as they were written. *)
From S2P Require Import Prelude Buffer Serializer Crc32 Codec Messages Wire.

(** * Checksums and flags *)

Lemma crc32_8_word data prev :
  is_word prev -> Forall byte_ok data -> is_word (crc32_8 data prev).
Proof.
  intros. unfold crc32_8. apply not32_word.
  rewrite (crc32_8_loop_bytes _ _ _ (le_n _)) by auto with xio. auto with xio.
Qed.

Lemma put_order_bytes e n v : Forall byte_ok (put_order e n v).
Proof. destruct e; cbn; [|apply Forall_rev]; apply le_bytes_ok. Qed.

#[export] Hint Resolve put_order_bytes : xio.

Lemma flags_and_crc_sum flags crc :
  is_u32 flags -> is_word crc -> flags_and_crc flags crc = flags * 2 ^ 32 + crc.
Proof.
  unfold is_u32, is_word. intros Hf Hc. unfold flags_and_crc.
  rewrite <- Z.shiftl_mul_pow2 by lia. symmetry. apply Z.add_nocarry_lor.
  apply Z.bits_inj'. intros m Hm. rewrite Z.land_spec, Z.bits_0. destruct (Z.ltb_spec m 32).
  - by rewrite Z.shiftl_spec_low, andb_false_l by lia.
  - rewrite (Z.bits_above_log2 crc), andb_false_r; [done|lia|].
    destruct (decide (crc = 0)) as [->|]; [cbn; lia|]. apply Z.log2_lt_pow2; [lia|].
    apply Z.lt_le_trans with (2 ^ 32); [lia|]. apply Z.pow_le_mono_r; lia.
Qed.

(** The two halves of the field are read back. *)
Lemma flags_of_crc flags crc :
  is_u32 flags -> is_word crc -> u32 (Z.shiftr (flags_and_crc flags crc) 32) = flags.
Proof.
  intros Hf Hc. rewrite flags_and_crc_sum by done. unfold is_u32, is_word in *.
  rewrite Z.shiftr_div_pow2, Z.div_add_l, (Z.div_small crc) by lia.
  rewrite Z.add_0_r. by apply u32_small.
Qed.

Lemma crc_of_flags flags crc :
  is_u32 flags -> is_word crc -> Z.land (flags_and_crc flags crc) 0xffffffff = crc.
Proof.
  intros Hf Hc. rewrite flags_and_crc_sum by done. unfold is_u32, is_word in *.
  change 0xffffffff with (Z.ones 32). rewrite Z.land_ones by lia.
  rewrite Z.add_comm, Z.mod_add, Z.mod_small by lia. done.
Qed.

Lemma flags_and_crc_u64 flags crc :
  is_u32 flags -> is_word crc -> is_u64 (flags_and_crc flags crc).
Proof.
  intros Hf Hc. rewrite flags_and_crc_sum by done. unfold is_u32, is_word, is_u64 in *. lia.
Qed.

Lemma swrites_when e c m bs :
  (c = true -> swrites e m bs) -> swrites e (when_put c m) (if c then bs else []).
Proof. destruct c; cbn; [auto|intros _; apply swrites_nil]. Qed.

#[export] Hint Resolve swrites_when : codec.

(** * Entries *)

Definition entry_bytes (ts crc : bool) (le : log_entry) (d : list Z) : list Z :=
  put_order LITTLE 8 (le_term le) ++ put_order LITTLE 1 (log_val_byte (le_value_type le))
  ++ (if ts then put_order LITTLE 8 (le_timestamp_us le) else [])
  ++ (if crc then put_order LITTLE 1 (b2z (le_has_crc32 le)) ++ put_order LITTLE 4 (le_crc32 le)
      else [])
  ++ put_order LITTLE 4 (zlen d) ++ d.

Lemma zlen_entry_bytes ts crc le d :
  zlen (entry_bytes ts crc le d) = LOG_ENTRY_SIZE ts crc + zlen d.
Proof. unfold entry_bytes, LOG_ENTRY_SIZE. destruct ts, crc; zlen_lia. Qed.

#[export] Hint Rewrite zlen_entry_bytes : zlen.

Lemma LOG_ENTRY_SIZE_pos ts crc : 13 <= LOG_ENTRY_SIZE ts crc <= 26.
Proof. unfold LOG_ENTRY_SIZE. destruct ts, crc; lia. Qed.

Lemma swrites_entry o le d p :
  in_block d p ->
  swrites LITTLE (put_entry o le (mkbuf d p))
    (entry_bytes (replicate_log_timestamp_ o) (crc_on_payload_ o) le d).
Proof.
  intros Hb. unfold put_entry, entry_bytes. rewrite mkbuf_size, mkbuf_bytes, ztake_all by done.
  repeat (eapply swrites_bind; [eauto 6 with codec|]). apply swrites_raw.
Qed.

(** ** Entries that can be sent *)

Definition entry_data (e : log_entry) : list Z :=
  match le_buff e with Some b => bytes b | None => [] end.

(** The fields are in the range of their types, the payload is a block of bytes,
    and a checksum, if there is one, is that of the payload. *)
Record entry_ok (e : log_entry) : Prop := {
  eo_buff : exists p, le_buff e = Some (mkbuf (entry_data e) p) /\ in_block (entry_data e) p;
  eo_data : Forall byte_ok (entry_data e);
  eo_term : is_u64 (le_term e);
  eo_type : log_val_of (log_val_byte (le_value_type e)) = le_value_type e;
  eo_type_byte : is_u8 (log_val_byte (le_value_type e));
  eo_timestamp : is_u64 (le_timestamp_us e);
  eo_crc_word : is_u32 (le_crc32 e);
  eo_crc : le_has_crc32 e = true -> le_crc32 e = crc32_8 (entry_data e) 0
}.

Definition entries_bytes (ts crc : bool) (les : list log_entry) : list Z :=
  concat (map (fun e => entry_bytes ts crc e (entry_data e)) les).

Lemma entries_bytes_cons ts crc e les :
  entries_bytes ts crc (e :: les) = entry_bytes ts crc e (entry_data e) ++ entries_bytes ts crc les.
Proof. done. Qed.

Lemma entry_bytes_ok ts crc e : entry_ok e -> Forall byte_ok (entry_bytes ts crc e (entry_data e)).
Proof.
  intros He. unfold entry_bytes. destruct ts, crc; repeat apply Forall_app_2;
    auto using eo_data with xio.
Qed.

Lemma entries_bytes_ok ts crc les :
  Forall entry_ok les -> Forall byte_ok (entries_bytes ts crc les).
Proof.
  induction 1 as [|e les He _ IH]; [done|]. rewrite entries_bytes_cons.
  apply Forall_app_2; [by apply entry_bytes_ok|done].
Qed.

Section Encoding.
Context `{U : Uninit} (o : options).

#[local] Abbreviation ts := (replicate_log_timestamp_ o).
#[local] Abbreviation crc := (crc_on_payload_ o).

Lemma encode_entry_ok e :
  entry_ok e -> zlen (entry_bytes ts crc e (entry_data e)) < 2 ^ 31 ->
  encode_entry o e = Ok (mkbuf (entry_bytes ts crc e (entry_data e)) 0).
Proof.
  intros He L. destruct (eo_buff e He) as (p & E & Hb). unfold encode_entry, get_entry_buf.
  rewrite E. cbn [rbind]. rewrite mkbuf_size by done.
  apply sbuild_ok; [by apply swrites_entry|by rewrite zlen_entry_bytes|].
  rewrite zlen_entry_bytes in L. lia.
Qed.

Definition entry_bufs (les : list log_entry) : list buffer :=
  map (fun e => mkbuf (entry_bytes ts crc e (entry_data e)) 0) les.

Lemma encode_entries_ok les bufs n :
  Forall entry_ok les -> 0 <= n -> n + zlen (entries_bytes ts crc les) < 2 ^ 31 ->
  encode_entries o les bufs n
  = Ok (bufs ++ entry_bufs les, n + zlen (entries_bytes ts crc les)).
Proof.
  intros H. revert bufs n. induction H as [|e les He _ IH]; intros bufs n N L.
  { cbn. rewrite app_nil_r, zlen_nil. do 2 f_equal. lia. }
  rewrite entries_bytes_cons, zlen_app in L |- *. cbn [encode_entries].
  pose proof (zlen_nonneg (entries_bytes ts crc les)).
  pose proof (zlen_nonneg (entry_bytes ts crc e (entry_data e))).
  rewrite encode_entry_ok by (done || lia). cbn [rbind].
  rewrite mkbuf_size by (split; lia). rewrite s32_small by (unfold_width; lia).
  unfold add_int. rewrite bool_decide_true by (unfold_width; lia). cbn [rbind].
  rewrite IH by lia. cbn [entry_bufs map]. rewrite <- app_assoc. do 2 f_equal. lia.
Qed.

Lemma swrites_buffers les :
  Forall entry_ok les -> zlen (entries_bytes ts crc les) < 2 ^ 31 ->
  swrites LITTLE (put_buffers (entry_bufs les)) (entries_bytes ts crc les).
Proof.
  induction 1 as [|e les He _ IH]; intros L; [apply swrites_nil|].
  rewrite entries_bytes_cons in *. rewrite zlen_app in L. zlen_facts.
  cbn [put_buffers entry_bufs map]. apply swrites_bind; [|apply IH; lia].
  unfold put_buffer. rewrite remaining_mkbuf by (split; lia). cbn. apply swrites_raw.
Qed.

End Encoding.

(** * Requests *)

Definition req_fields_bytes (req : req_msg) (data_size : Z) : list Z :=
  put_order LITTLE 1 (msg_type_val (rq_type req))
  ++ put_order LITTLE 4 (rq_src req) ++ put_order LITTLE 4 (rq_dst req)
  ++ put_order LITTLE 8 (rq_term req) ++ put_order LITTLE 8 (rq_last_log_term req)
  ++ put_order LITTLE 8 (rq_last_log_idx req) ++ put_order LITTLE 8 (rq_commit_idx req)
  ++ put_order LITTLE 4 data_size.

Definition req_header_bytes (req : req_msg) (data_size : Z) : list Z :=
  put_order LITTLE 1 0x0 ++ req_fields_bytes req data_size.

Definition meta_bytes (meta : list Z) : list Z :=
  match meta with [] => [] | _ => put_order LITTLE 4 (zlen meta) ++ meta end.

Lemma zlen_req_header req n : zlen (req_header_bytes req n) = RPC_REQ_HEADER_SIZE - CRC_FLAGS_LEN.
Proof. unfold req_header_bytes, req_fields_bytes. change (_ - _) with 46. zlen_lia. Qed.

Lemma zlen_meta_bytes meta : zlen (meta_bytes meta) = meta_size meta.
Proof. destruct meta; [done|]. unfold meta_bytes, meta_size. zlen_lia. Qed.

#[export] Hint Rewrite zlen_req_header zlen_meta_bytes : zlen.

Lemma req_header_bytes_ok req n : Forall byte_ok (req_header_bytes req n).
Proof. unfold req_header_bytes, req_fields_bytes. repeat apply Forall_app_2; auto with xio. Qed.

Lemma meta_bytes_ok meta : Forall byte_ok meta -> Forall byte_ok (meta_bytes meta).
Proof. destruct meta; [done|]. intros. apply Forall_app_2; auto with xio. Qed.

Lemma swrites_req_header req n : swrites LITTLE (put_req_header req n) (req_header_bytes req n).
Proof.
  unfold put_req_header, req_header_bytes, req_fields_bytes.
  repeat (eapply swrites_bind; [apply swrites_uint|]). apply swrites_uint.
Qed.

Lemma swrites_meta c meta :
  c = (match meta with [] => false | _ => true end) -> zlen meta < 2 ^ 31 ->
  swrites LITTLE (when_put c (sput_bytes meta)) (meta_bytes meta).
Proof. intros -> L. destruct meta; cbn; [apply swrites_nil|by apply swrites_bytes]. Qed.

(** The serializer after a writer, at a position given as a number. *)
Lemma swrites_at m bs pre old post q :
  swrites LITTLE m bs -> q = zlen pre -> zlen old = zlen bs -> zlen (pre ++ old ++ post) < 2 ^ 31 ->
  m (mkser LITTLE (pre ++ old ++ post) q 0)
  = (Ok tt, mkser LITTLE (pre ++ bs ++ post) (q + zlen bs) 0).
Proof. intros Hm -> E L. apply Hm; [done|]. split; zlen_lia. Qed.

Lemma load_at pre bs post q n :
  n = zlen bs -> q = zlen pre -> forall pos,
  on_buf (load q n) (mkser LITTLE (pre ++ bs ++ post) pos 0)
  = (Ok bs, mkser LITTLE (pre ++ bs ++ post) pos 0).
Proof.
  intros -> -> pos. unfold on_buf. cbn [buf_ mkser]. zlen_facts.
  rewrite mkbuf_load by zlen_lia. by rewrite zdrop_app, ztake_app.
Qed.

Lemma swrites_u64 v : swrites LITTLE (put_u64 v) (put_order LITTLE 8 v).
Proof. exact (swrites_uint LITTLE 8 v). Qed.

Lemma swrites_start m bs old post :
  swrites LITTLE m bs -> zlen old = zlen bs -> zlen (old ++ post) < 2 ^ 31 ->
  m (mkser LITTLE (old ++ post) 0 0) = (Ok tt, mkser LITTLE (bs ++ post) (zlen bs) 0).
Proof. intros Hm E L. exact (swrites_at m bs [] old post 0 Hm eq_refl E L). Qed.

Lemma load_start bs post n pos :
  n = zlen bs ->
  on_buf (load 0 n) (mkser LITTLE (bs ++ post) pos 0) = (Ok bs, mkser LITTLE (bs ++ post) pos 0).
Proof. intros E. exact (load_at [] bs post 0 n E eq_refl pos). Qed.

(** The checksum and the flags that end the header. *)
Definition final_crc (entire : bool) (hdr payload : list Z) : Z :=
  if entire then crc32_8 payload (crc32_8 hdr 0) else crc32_8 hdr 0.

Definition final_flags (entire : bool) (flags : Z) : Z :=
  if entire then Z.lor flags CRC_ON_ENTIRE_MESSAGE else flags.

Definition request_bytes (entire : bool) (flags : Z) (hdr payload : list Z) : list Z :=
  hdr ++ put_order LITTLE 8 (flags_and_crc (final_flags entire flags) (final_crc entire hdr payload))
  ++ payload.

Section Requests.
Context `{U : Uninit} (o : options).

#[local] Abbreviation ts := (replicate_log_timestamp_ o).
#[local] Abbreviation crc := (crc_on_payload_ o).

Definition req_payload (req : req_msg) : list Z :=
  meta_bytes (req_meta o req) ++ entries_bytes ts crc (rq_log_entries req).

Lemma put_request_ok req flags old :
  Forall entry_ok (rq_log_entries req) ->
  has_flag flags INCLUDE_META = (match req_meta o req with [] => false | _ => true end) ->
  RPC_REQ_HEADER_SIZE + zlen (req_payload req) < 2 ^ 31 ->
  zlen old = RPC_REQ_HEADER_SIZE + zlen (req_payload req) ->
  exists q,
    put_request o req (req_meta o req) (entry_bufs o (rq_log_entries req)) (zlen (req_payload req))
      flags (mkser LITTLE old 0 0)
    = (Ok tt, mkser LITTLE (request_bytes (crc_on_entire_message_ o) flags
                              (req_header_bytes req (zlen (req_payload req))) (req_payload req)) q 0).
Proof.
  intros He Hf L E. set (n := zlen (req_payload req)) in *.
  pose proof (swrites_req_header req n) as Sh. pose proof (zlen_req_header req n) as Lh.
  set (hdr := req_header_bytes req n) in *. change (_ - _) with 46 in Lh. clearbody hdr.
  pose proof (swrites_meta _ (req_meta o req) Hf) as Sm.
  pose proof (swrites_buffers o _ He) as Se.
  set (meta := req_meta o req) in *. set (ents := entries_bytes ts crc (rq_log_entries req)) in *.
  assert (n = meta_size meta + zlen ents) as En.
  { change n with (zlen (meta_bytes meta ++ ents)). by rewrite zlen_app, zlen_meta_bytes. }
  assert (0 <= zlen meta <= meta_size meta) by (unfold meta_size; destruct meta; zlen_lia).
  change (req_payload req) with (meta_bytes meta ++ ents).
  change RPC_REQ_HEADER_SIZE with 54 in *. clearbody ents n meta. zlen_facts.
  destruct (zsplit 46 old) as (o1 & old1 & -> & L1); [lia|]. rewrite zlen_app in E.
  destruct (zsplit 8 old1) as (o2 & old2 & -> & L2); [lia|]. rewrite zlen_app in E.
  destruct (zsplit (meta_size meta) old2) as (o3 & o4 & -> & L3); [lia|]. rewrite zlen_app in E.
  unfold put_request, bind, gets.
  rewrite (swrites_start _ hdr o1 (o2 ++ o3 ++ o4) Sh) by zlen_lia.
  rewrite load_start by done. rewrite mkser_pos, Lh.
  rewrite (swrites_at _ _ hdr o2 (o3 ++ o4) 46 (swrites_u64 _)) by zlen_lia.
  rewrite put_order_len. set (word := put_order _ _ _).
  assert (zlen word = 8) as Lw by apply put_order_len. rewrite mkser_pos. replace (46 + Z.of_nat 8) with 54 by lia.
  rewrite (app_assoc hdr word).
  rewrite (swrites_at _ (meta_bytes meta) (hdr ++ word) o3 o4 54) by (apply Sm; lia) || zlen_lia.
  rewrite (app_assoc (hdr ++ word)), <- (app_nil_r o4).
  rewrite (swrites_at _ ents _ o4 []) by (apply Se; lia) || zlen_lia.
  rewrite app_nil_r, <- !app_assoc.
  unfold request_bytes, final_crc, final_flags, when_put.
  destruct (crc_on_entire_message_ o); [|eexists; reflexivity].
  set (payload := meta_bytes meta ++ ents). assert (zlen payload = n) as Lp by (unfold payload; zlen_lia).
  replace (hdr ++ word ++ payload) with ((hdr ++ word) ++ payload ++ [])
    by by rewrite app_nil_r, <- app_assoc.
  unfold bind. rewrite (load_at (hdr ++ word) payload []) by zlen_lia.
  rewrite app_nil_r, <- app_assoc.
  rewrite mkser_set_spos by (split; zlen_lia).
  rewrite (swrites_at _ _ hdr word payload 46 (swrites_u64 _)) by zlen_lia.
  eexists. reflexivity.
Qed.

(** The fields of a request are in the range of their types and its payload is
    at most a gigabyte. *)
Record req_ok (req : req_msg) : Prop := {
  ro_type : msg_type_of (msg_type_val (rq_type req)) = rq_type req;
  ro_valid : is_valid_msg (msg_type_val (rq_type req)) = true;
  ro_src : is_s32 (rq_src req);
  ro_dst : is_s32 (rq_dst req);
  ro_term : is_u64 (rq_term req);
  ro_last_term : is_u64 (rq_last_log_term req);
  ro_last_idx : is_u64 (rq_last_log_idx req);
  ro_commit_idx : is_u64 (rq_commit_idx req);
  ro_entries : Forall entry_ok (rq_log_entries req);
  ro_meta : Forall byte_ok (req_meta o req);
  ro_size : zlen (req_payload req) <= 0x40000000
}.

Definition no_meta (meta : list Z) : bool := match meta with [] => true | _ => false end.

Definition sent_flags (req : req_msg) : Z :=
  Z.lor (req_flags o req) (match req_meta o req with [] => 0 | _ => INCLUDE_META end).

Lemma sent_flags_spec req :
  let f := final_flags (crc_on_entire_message_ o) (sent_flags req) in
  is_u32 f /\
  has_flag (sent_flags req) INCLUDE_META = negb (no_meta (req_meta o req)) /\
  has_flag f INCLUDE_META = negb (no_meta (req_meta o req)) /\
  has_flag f INCLUDE_LOG_TIMESTAMP = ts /\
  has_flag f CRC_ON_PAYLOAD = crc /\
  has_flag f CRC_ON_ENTIRE_MESSAGE = crc_on_entire_message_ o /\
  has_flag f MARK_DOWN = has_flag (rq_extra_flags req) EXCLUDED_FROM_THE_QUORUM.
Proof.
  unfold sent_flags, req_flags, final_flags, no_meta.
  destruct ts, crc, (crc_on_entire_message_ o), (req_meta o req),
    (has_flag (rq_extra_flags req) EXCLUDED_FROM_THE_QUORUM); by vm_compute.
Qed.

(** The bytes of a request on the wire. *)
Definition wire_request (req : req_msg) : list Z :=
  request_bytes (crc_on_entire_message_ o) (sent_flags req)
    (req_header_bytes req (zlen (req_payload req))) (req_payload req).

Lemma encode_request_ok req :
  req_ok req -> encode_request o req = Ok (mkbuf (wire_request req) 0).
Proof.
  intros [? ? ? ? ? ? ? ? He Hm L]. unfold encode_request.
  assert (zlen (req_payload req) = meta_size (req_meta o req)
    + zlen (entries_bytes ts crc (rq_log_entries req))) as E by (unfold req_payload; zlen_lia).
  assert (0 <= meta_size (req_meta o req)) by (unfold meta_size; case_match; zlen_lia).
  zlen_facts. rewrite encode_entries_ok by (done || lia). cbn [rbind app]. rewrite Z.add_0_l.
  cbv zeta. rewrite (s32_small (meta_size _)) by (unfold_width; lia).
  unfold add_int. rewrite <- Z.add_assoc, <- E.
  rewrite bool_decide_true by (unfold_width; lia). cbn [rbind].
  rewrite u64_small by (unfold_width; change RPC_REQ_HEADER_SIZE with 54; lia).
  fold (sent_flags req). unfold sbuild.
  rewrite alloc_ok by (change RPC_REQ_HEADER_SIZE with 54; lia). cbn [rbind].
  change (buffer_serializer LITTLE ?b) with (mkser LITTLE (fresh (RPC_REQ_HEADER_SIZE + zlen (req_payload req))) 0 0).
  destruct (sent_flags_spec req) as (_ & F & _).
  destruct (put_request_ok req (sent_flags req)
    (fresh (RPC_REQ_HEADER_SIZE + zlen (req_payload req)))) as (q & ->); [done|..|done].
  - rewrite F. by destruct (req_meta o req).
  - change RPC_REQ_HEADER_SIZE with 54. lia.
  - apply zlen_fresh. change RPC_REQ_HEADER_SIZE with 54. lia.
Qed.

End Requests.

(** * Reading requests *)

Lemma sreads_u32 e v : is_u32 v -> sreads e get_u32 (put_order e 4 v) v.
Proof. exact (sreads_uint e 4 v). Qed.

Lemma sreads_u16 e v : 0 <= v < 2 ^ 16 -> sreads e get_u16 (put_order e 2 v) v.
Proof. exact (sreads_uint e 2 v). Qed.

#[export] Hint Resolve sreads_u32 sreads_u16 : codec.

Lemma sreads_if {A} (c : bool) (m : M serializer A) (a0 : A) bs a :
  sreads LITTLE m bs a ->
  sreads LITTLE (if c then m else ret a0) (if c then bs else []) (if c then a else a0).
Proof. destruct c; [done|intros _; apply sreads_ret]. Qed.

Lemma sreads_flag b :
  sreads LITTLE (v <- get_u8 ;; ret (negb (v =? 0))) (put_order LITTLE 1 (b2z b)) b.
Proof. eapply sreads_map; [apply sreads_u8, is_u8_b2z|by destruct b]. Qed.

#[export] Hint Resolve sreads_if sreads_flag : codec.

Lemma if_app {A} (c : bool) (l k : list A) :
  (if c then l ++ k else []) = (if c then l else []) ++ (if c then k else []).
Proof. by destruct c. Qed.

(** Reading at one place of one block, for readers that look at their position. *)
Definition reads_here {A} (m : M serializer A) (pre bs post : list Z) (a : A) : Prop :=
  m (mkser LITTLE (pre ++ bs ++ post) (zlen pre) 0)
  = (Ok a, mkser LITTLE (pre ++ bs ++ post) (zlen pre + zlen bs) 0).

Lemma sreads_here {A} (m : M serializer A) pre bs post a :
  sreads LITTLE m bs a -> zlen (pre ++ bs ++ post) < 2 ^ 31 -> reads_here m pre bs post a.
Proof. intros Hm L. apply Hm. split; zlen_lia. Qed.

Lemma here_bind {A B} (m : M serializer A) (k : A -> M serializer B) pre bs cs post a b :
  reads_here m pre bs (cs ++ post) a -> reads_here (k a) (pre ++ bs) cs post b ->
  reads_here (bind m k) pre (bs ++ cs) post b.
Proof.
  unfold reads_here, bind. intros Hm Hk. rewrite <- app_assoc, Hm.
  rewrite <- app_assoc, zlen_app in Hk. rewrite Hk. do 2 f_equal. zlen_lia.
Qed.

Lemma here_ret {A} (a : A) pre post : reads_here (ret a) pre [] post a.
Proof. unfold reads_here, ret. do 2 f_equal. zlen_lia. Qed.

Lemma here_map {A B} (m : M serializer A) (f : A -> B) pre bs post a b :
  reads_here m pre bs post a -> f a = b -> reads_here (x <- m ;; ret (f x)) pre bs post b.
Proof.
  intros Hm <-. rewrite <- (app_nil_r bs). eapply here_bind; [exact Hm|apply here_ret].
Qed.

Lemma here_pos {B} (k : Z -> M serializer B) pre bs post b :
  reads_here (k (zlen pre)) pre bs post b -> reads_here (bind (gets pos_) k) pre bs post b.
Proof. intros Hk. exact Hk. Qed.

Section Reading.
Context `{U : Uninit}.

Lemma sreads_buffer d :
  zlen d < 2 ^ 31 ->
  sreads LITTLE (dst <- lift (alloc (zlen d)) ;; get_buffer dst) d (mkbuf d 0).
Proof.
  intros L pre post p Hb. unfold bind at 1, lift at 1. zlen_facts. rewrite alloc_ok by lia.
  unfold get_buffer. assert (zlen (fresh (zlen d)) = zlen d) as F by by apply zlen_fresh.
  rewrite mkbuf_size, mkbuf_pos by (split; lia). rewrite F, Z.sub_0_r, u64_small by (unfold_width; lia).
  unfold bind at 1. rewrite (sreads_raw LITTLE d) by done. rewrite mkbuf_store by lia.
  unfold bind, lift, ret. cbn [fst snd]. do 3 f_equal.
  replace (zdrop (0 + zlen d) (fresh (zlen d))) with (@nil Z); [by rewrite app_nil_r|].
  rewrite Z.add_0_l, <- F at 1. symmetry. apply zdrop_all.
Qed.

Lemma here_buffer {B} (k : buffer -> M serializer B) pre d post b :
  zlen (pre ++ d ++ post) < 2 ^ 31 -> reads_here (k (mkbuf d 0)) (pre ++ d) [] post b ->
  reads_here (dst <- lift (alloc (zlen d)) ;; buf <- get_buffer dst ;; k buf) pre d post b.
Proof.
  intros L Hk. rewrite <- (app_nil_r d) at 2.
  assert (reads_here (dst <- lift (alloc (zlen d)) ;; get_buffer dst) pre d ([] ++ post) (mkbuf d 0))
    as Hr by (apply sreads_here; [apply sreads_buffer; zlen_lia|done]).
  pose proof (here_bind _ k _ _ _ _ _ _ Hr Hk) as R. unfold reads_here, bind in R |- *.
  rewrite <- R. unfold lift. by destruct (alloc (zlen d)).
Qed.

(** What a session makes of an entry. *)
Definition wire_entry (ts crc : bool) (e : log_entry) : log_entry :=
  mk_log_entry (le_term e) (le_value_type e) (Some (mkbuf (entry_data e) 0))
    (if ts then le_timestamp_us e else 0) (if crc then le_has_crc32 e else false)
    (if crc then le_crc32 e else 0).

Section Flags.
Context (flags : Z) (ts crc : bool).
Hypothesis (Hts : has_flag flags INCLUDE_LOG_TIMESTAMP = ts).
Hypothesis (Hcrc : has_flag flags CRC_ON_PAYLOAD = crc).

Lemma get_entry_ok e pre post :
  entry_ok e -> zlen (pre ++ entry_bytes ts crc e (entry_data e) ++ post) < 2 ^ 31 ->
  reads_here (get_entry flags (zlen (pre ++ entry_bytes ts crc e (entry_data e) ++ post)))
    pre (entry_bytes ts crc e (entry_data e)) post (Some (wire_entry ts crc e)).
Proof.
  intros He L. set (n := zlen _) in *. unfold get_entry. rewrite Hts, Hcrc.
  assert (n = zlen pre + (LOG_ENTRY_SIZE ts crc + zlen (entry_data e)) + zlen post) as En
    by (unfold n; zlen_lia).
  pose proof (LOG_ENTRY_SIZE_pos ts crc). clearbody n.
  apply here_pos. zlen_facts. rewrite ltb_false by lia. unfold entry_bytes.
  destruct He as [_ Hd Ht Hv Hvb Hs Hw Hc]. rewrite if_app, <- app_assoc.
  set (d := entry_data e) in *. assert (is_s32 (zlen d)) by (unfold_width; lia).
  assert (forall (c : bool) (l : list Z), zlen (if c then l else []) = if c then zlen l else 0) as Hif
    by by intros [].
  unfold LOG_ENTRY_SIZE in En.
  repeat (eapply here_bind; [apply sreads_here; [eauto with codec|
    rewrite !zlen_app, ?Hif, !put_order_len; destruct ts, crc; lia]|]).
  cbv zeta. apply here_pos. rewrite u64_small by (unfold_width; lia).
  rewrite !zlen_app, !Hif, !put_order_len, ltb_false by (destruct ts, crc; lia).
  apply here_buffer.
  { rewrite !zlen_app, !Hif, !put_order_len. destruct ts, crc; lia. }
  rewrite buffer_crc_mkbuf by (unfold_width; split; lia). rewrite Hv. unfold log_entry_new, wire_entry. cbn [negb].
  destruct crc, (le_has_crc32 e) eqn:Eh; cbn [andb negb]; try apply here_ret.
  rewrite Hc, Z.eqb_refl by done. apply here_ret.
Qed.

Lemma get_entries_ok es : forall pre fuel acc,
  Forall entry_ok es -> (length es <= fuel)%nat ->
  zlen (pre ++ entries_bytes ts crc es) < 2 ^ 31 ->
  reads_here (get_entries fuel flags (zlen (pre ++ entries_bytes ts crc es)) acc)
    pre (entries_bytes ts crc es) [] (Some (acc ++ map (wire_entry ts crc) es)).
Proof.
  induction es as [|e es IH]; intros pre fuel acc He F L.
  { destruct fuel; cbn [get_entries]; apply here_pos; rewrite ltb_false by zlen_lia;
      cbn [map]; rewrite app_nil_r; apply here_ret. }
  destruct fuel as [|fuel]; [cbn in F; lia|]. apply Forall_cons in He as [He Hes].
  rewrite entries_bytes_cons in *. set (eb := entry_bytes ts crc e (entry_data e)) in *.
  assert (zlen eb = LOG_ENTRY_SIZE ts crc + zlen (entry_data e)) as Le by apply zlen_entry_bytes.
  pose proof (LOG_ENTRY_SIZE_pos ts crc). cbn [get_entries]. apply here_pos. zlen_facts.
  pose proof (zlen_nonneg (entries_bytes ts crc es)). pose proof (zlen_nonneg (entry_data e)).
  rewrite ltb_true by (rewrite !zlen_app; lia).
  eapply here_bind; [rewrite app_nil_r; apply get_entry_ok; done|].
  rewrite (app_assoc pre) in L |- *. cbn [map].
  replace (acc ++ wire_entry ts crc e :: map (wire_entry ts crc) es)
    with ((acc ++ [wire_entry ts crc e]) ++ map (wire_entry ts crc) es) by by rewrite <- app_assoc.
  apply IH; [done|cbn in F; lia|done].
Qed.

Lemma entries_count es : Z.of_nat (length es) <= zlen (entries_bytes ts crc es).
Proof.
  induction es as [|e es IH]; [done|]. rewrite entries_bytes_cons, zlen_app, zlen_entry_bytes.
  pose proof (LOG_ENTRY_SIZE_pos ts crc). cbn [length]. zlen_facts. lia.
Qed.

Lemma get_payload_ok meta es :
  Forall entry_ok es -> has_flag flags INCLUDE_META = negb (no_meta meta) ->
  zlen (meta_bytes meta ++ entries_bytes ts crc es) < 2 ^ 31 ->
  reads_here (get_payload flags (zlen (meta_bytes meta ++ entries_bytes ts crc es)))
    [] (meta_bytes meta ++ entries_bytes ts crc es) [] (Some (meta, map (wire_entry ts crc) es)).
Proof.
  intros He Hm L. pose proof (entries_count es). pose proof (zlen_nonneg (meta_bytes meta)). zlen_facts.
  unfold get_payload. rewrite Hm. eapply here_bind.
  - rewrite app_nil_r. apply sreads_here; [|done].
    destruct meta; cbn [no_meta negb meta_bytes]; [apply sreads_ret|].
    apply sreads_bytes. revert L. unfold meta_bytes. zlen_lia.
  - apply (here_map _ _ _ _ _ (Some (map (wire_entry ts crc) es))); [|done].
    apply (get_entries_ok es _ _ []); [done| |done]. zlen_lia.
Qed.

End Flags.

(** The header. *)
Lemma sreads_req_fields req n :
  is_u8 (msg_type_val (rq_type req)) -> is_s32 (rq_src req) -> is_s32 (rq_dst req) ->
  is_u64 (rq_term req) -> is_u64 (rq_last_log_term req) -> is_u64 (rq_last_log_idx req) ->
  is_u64 (rq_commit_idx req) -> is_s32 n ->
  sreads LITTLE get_req_fields (req_fields_bytes req n)
    (mk_req_header (msg_type_val (rq_type req)) (rq_src req) (rq_dst req) (rq_term req)
       (rq_last_log_term req) (rq_last_log_idx req) (rq_commit_idx req) n).
Proof.
  intros. unfold get_req_fields, req_fields_bytes.
  repeat (eapply sreads_bind; [eauto with codec|]).
  eapply sreads_map; [eauto with codec|done].
Qed.

End Reading.

(** A reader started at a position inside the block. *)
Lemma from_buf_at {A} (m : M serializer A) pre bs post a q :
  sreads LITTLE m bs a -> q = zlen pre -> zlen (pre ++ bs ++ post) < 2 ^ 31 ->
  from_buf (set_spos q ;; m) (mkbuf (pre ++ bs ++ post) 0) = Ok a.
Proof.
  intros Hm -> L. unfold from_buf, run_val, buffer_serializer, bind.
  change (mk_serializer LITTLE ?b 0) with (mkser LITTLE (pre ++ bs ++ post) 0 0).
  rewrite mkser_set_spos by (split; zlen_lia). by rewrite Hm by (split; zlen_lia).
Qed.

Lemma get_flags_and_crc_ok pre post flags crc q :
  is_u32 flags -> is_word crc -> q = zlen pre ->
  zlen (pre ++ put_order LITTLE 8 (flags_and_crc flags crc) ++ post) < 2 ^ 31 ->
  from_buf (get_flags_and_crc q)
    (mkbuf (pre ++ put_order LITTLE 8 (flags_and_crc flags crc) ++ post) 0) = Ok (flags, crc).
Proof.
  intros Hf Hc -> L. apply from_buf_at; [|done..].
  eapply sreads_map; [by apply sreads_u64, flags_and_crc_u64|].
  by rewrite flags_of_crc, crc_of_flags.
Qed.
