(* ===== verification/Session.v ===== *)
(** xio_service.cc: [rpc_session], the server's end of a connection.

    The state of a session is that of the object with the message handler it
    points to; what it asks of its socket (a read, a write) and the callbacks of
    the service's options are events.  The completion handlers of reads and
    writes are functions of the result: [None] is an error, and [Some bs] the
    bytes asked for, which [async_read] delivers whole. *)
From S2P Require Import Prelude Buffer Serializer Crc32 Codec Messages Wire.

(** * The message handler *)

Inductive connection_cb := ConnectionOpened | ConnectionClosed | NewSessionFromLeader.

Record connection_args := mk_connection_args {
  ca_session_id : Z;
  ca_address : list Z;
  ca_port : Z;
  ca_src_id : Z;
  ca_is_leader : bool
}.

(** What a session uses of the [msg_handler] (the raft server). *)
Class MsgHandler (H : Type) := {
  get_leader : H -> Z;
  invoke_callback : connection_cb -> connection_args -> M H unit;
  handle_req : req_msg -> M H (option (resp_msg * cli_cb));
  call_cb : Z -> resp_msg -> M H resp_msg
}.

Inductive session_event :=
| Handshake
| Lazy_stop
| Read_header
| Read_data (log_ctx : buffer)
| Write_resp (bs : list Z)
| Corrupted (hdr : buffer) (log_ctx : option buffer)
| Wait_async (idx : Z) (req : req_msg) (resp : resp_msg)
| Session_closed.

(** [catch (std::exception &)] *)
Definition is_std (e : exn) : bool :=
  match e with Out_of_range | Overflow_error | Runtime_error | Invalid_argument | Length_error => true | _ => false end.

Definition try_catch {S} (m handler : M S unit) : M S unit := fun s =>
  match m s with
  | (Throw e, s') => if is_std e then handler s' else (Throw e, s')
  | r => r
  end.

Section Session.
Context {H : Type} `{MH : MsgHandler H} `{U : Uninit} (o : options).

Record rpc_session := mk_rpc_session {
  session_id_ : Z;
  server_ : H;
  handler_set_ : bool;
  flags_ : Z;
  header_ : buffer;
  src_id_ : Z;
  is_leader_ : bool;
  cached_address_ : list Z;
  cached_port_ : Z;
  crc_header_ : Z;
  crc_from_msg_ : Z;
  ss_events_ : list session_event
}.

#[global] Instance eta_rpc_session : Eta rpc_session := fun s =>
  mk_rpc_session (session_id_ s) (server_ s) (handler_set_ s) (flags_ s) (header_ s) (src_id_ s)
    (is_leader_ s) (cached_address_ s) (cached_port_ s) (crc_header_ s) (crc_from_msg_ s)
    (ss_events_ s).

#[local] Abbreviation SS := (M rpc_session).

(** [header_(buffer::alloc(RPC_REQ_HEADER_SIZE))] is the argument [header]. *)
Definition rpc_session_new (id : Z) (handler : H) (header : buffer) : rpc_session :=
  mk_rpc_session id handler true 0x0 header (-1) false [] 0 0 0 [].

Definition session_emit (ev : session_event) : SS unit := modify (fun s => s <| ss_events_ ::= fun l => l ++ [ev] |>).

(** A call through [handler_], which is null once the session is stopped. *)
Definition on_handler {A} (m : M H A) : SS A := fun s =>
  if handler_set_ s then
    let '(r, h) := m (server_ s) in (r, s <| server_ := h |>)
  else (Throw Undefined, s).

Definition connection_args_of (s : rpc_session) : connection_args :=
  mk_connection_args (session_id_ s) (cached_address_ s) (cached_port_ s) (src_id_ s) (is_leader_ s).

(** [is_leader_ && src_id_ != handler_->get_leader()]: the leader has changed
    without closing the session. *)
Definition forget_old_leader : SS unit :=
  s <- gets id ;;
  if is_leader_ s then
    leader <- on_handler (gets get_leader) ;;
    if src_id_ s =? leader then ret tt else modify (fun s => s <| is_leader_ := false |>)
  else ret tt.

Definition session_callback (cb : connection_cb) : SS unit :=
  s <- gets id ;; on_handler (invoke_callback cb (connection_args_of s)).

Definition invoke_connection_callback (is_open : bool) : SS unit :=
  forget_old_leader ;;
  session_callback (if is_open then ConnectionOpened else ConnectionClosed).

(** [close_socket] does nothing. *)
Definition session_stop : SS unit :=
  invoke_connection_callback false ;;
  session_emit Session_closed ;;
  modify (fun s => s <| handler_set_ := false |>).

Definition session_start : SS unit :=
  modify (fun s => s <| header_ ::= run_state (set_pos 0) |>) ;;
  session_emit Read_header.

Definition prepare_handshake (address : list Z) (port : Z) : SS unit :=
  modify (fun s => s <| cached_address_ := address |> <| cached_port_ := port |>) ;;
  if enable_ssl_ o then session_emit Handshake else session_start.

(** After an error the session is stopped by a timer. *)
Definition handle_handshake (err : bool) : SS unit :=
  if err then session_emit Lazy_stop else session_start.

(** The message is reported to the user and the session stopped. *)
Definition corrupted (log_ctx : option buffer) : SS unit :=
  s <- gets id ;;
  (if corrupted_msg_handler_ o then session_emit (Corrupted (header_ s) log_ctx) else ret tt) ;;
  session_stop.

(** * Responses *)

Definition on_resp_ready (req : req_msg) (resp : resp_msg) : SS unit :=
  try_catch (
    resp_buf <- lift (encode_response o req resp) ;;
    session_emit (Write_resp (ztake (size resp_buf) (bytes resp_buf)))) session_stop.

(** The result of an asynchronous client request is there. *)
Definition on_async_result (req : req_msg) (resp : resp_msg) (ctx : option buffer) : SS unit :=
  on_resp_ready req (set_ctx ctx resp).

(** The response is written. *)
Definition resp_written (err : bool) : SS unit := if err then session_stop else session_start.

(** * Requests *)

(** Messages that only a leader sends. *)
Definition from_leader (t : msg_type) : bool :=
  bool_decide (t = append_entries_request) || bool_decide (t = sync_log_request)
  || bool_decide (t = join_cluster_request) || bool_decide (t = leave_cluster_request)
  || bool_decide (t = install_snapshot_request) || bool_decide (t = priority_change_request)
  || bool_decide (t = custom_notification_request).

Definition identify_source (t : msg_type) (src : Z) : SS unit :=
  s <- gets id ;;
  (if src_id_ s =? -1 then
     modify (fun s => s <| src_id_ := src |>) ;; invoke_connection_callback true
   else forget_old_leader) ;;
  s <- gets id ;;
  if negb (is_leader_ s) && from_leader t then
    modify (fun s => s <| is_leader_ := true |>) ;; session_callback NewSessionFromLeader
  else ret tt.

(** The meta is verified, the server processes the request and the response is
    sent, or waited for. *)
Definition dispatch_request (req : req_msg) (meta : list Z) : SS unit :=
  let refused :=
    match read_req_meta_ o with
    | Some f =>
        (negb (match meta with [] => true | _ => false end) || invoke_req_cb_on_empty_meta_ o)
        && negb (f (req_to_params req None) meta)
    | None => false
    end in
  if refused then session_stop
  else
    r <- on_handler (handle_req req) ;;
    match r with
    | None => session_stop
    | Some (resp, Async_cb idx) => session_emit (Wait_async idx req resp)
    | Some (resp, Blocking_cb idx) => resp <- on_handler (call_cb idx resp) ;; on_resp_ready req resp
    | Some (resp, No_cb) => on_resp_ready req resp
    end.

(** The request without its entries. *)
Definition req_of_header (h : req_header) (flags : Z) : req_msg :=
  let req := req_msg_new (hd_term h) (msg_type_of (hd_type h)) (hd_src h) (hd_dst h)
               (hd_last_term h) (hd_last_idx h) (hd_commit_idx h) in
  if has_flag flags MARK_DOWN
  then set_req_extra_flags (Z.lor (rq_extra_flags req) EXCLUDED_FROM_THE_QUORUM) req
  else req.

Definition read_complete (log_ctx : option buffer) : SS unit :=
  try_catch (
    s <- gets id ;;
    h <- lift (from_buf (set_spos 1 ;; get_req_fields) (header_ s)) ;;
    (let crc_payload :=
       match log_ctx with
       | Some b => crc32_8 (ztake (size b) (bytes b)) (crc_header_ s)
       | None => crc_header_ s
       end in
     if has_flag (flags_ s) CRC_ON_ENTIRE_MESSAGE && negb (crc_payload =? crc_from_msg_ s)
     then corrupted log_ctx
     else
       identify_source (msg_type_of (hd_type h)) (hd_src h) ;;
       (let req := req_of_header h (flags_ s) in
        match log_ctx with
        | Some b =>
            if 0 <? hd_data_size h then
              p <- lift (from_buf (get_payload (flags_ s) (size b)) b) ;;
              match p with
              | None => corrupted log_ctx
              | Some (meta, entries) =>
                  dispatch_request (req <| rq_log_entries := entries |>) meta
              end
            else dispatch_request req []
        | None => dispatch_request req []
        end)))
    session_stop.

Definition read_log_data (log_ctx : buffer) (r : option (list Z)) : SS unit :=
  match r with
  | Some bs => read_complete (Some (run_state (store 0 bs) log_ctx))
  | None => session_stop
  end.

(** The checks of the header, which is [header_] by now. *)
Definition check_header (header : buffer) : SS unit :=
  let crc := crc32_8 (ztake (RPC_REQ_HEADER_SIZE - CRC_FLAGS_LEN) (bytes header)) 0 in
  fc <- lift (from_buf (get_flags_and_crc (RPC_REQ_HEADER_SIZE - CRC_FLAGS_LEN)) header) ;;
  (let '(flags, crc_from_msg) := fc in
   modify (fun s => s <| crc_header_ := crc |> <| crc_from_msg_ := crc_from_msg |>
                      <| flags_ := flags |>) ;;
   if negb (has_flag flags CRC_ON_ENTIRE_MESSAGE) && negb (crc =? crc_from_msg)
   then corrupted None
   else
     marker <- lift (from_buf (set_spos 0 ;; get_u8) header) ;;
     if negb (marker =? 0x0) then corrupted None
     else
       m_type <- lift (from_buf (set_spos 1 ;; get_u8) header) ;;
       if negb (is_valid_msg m_type) then corrupted None
       else
         data_size <- lift (from_buf (
           set_spos (RPC_REQ_HEADER_SIZE - CRC_FLAGS_LEN - DATA_SIZE_LEN) ;; get_i32) header) ;;
         if (data_size <? 0) || (0x40000000 <? data_size) then corrupted None
         else if data_size =? 0 then read_complete None
         else
           log_ctx <- lift (alloc data_size) ;;
           session_emit (Read_data log_ctx)).

(** The completion handler in [start]. *)
Definition header_read (r : option (list Z)) : SS unit :=
  match r with
  | None => session_stop
  | Some bs =>
      modify (fun s => s <| header_ ::= run_state (store 0 bs) |>) ;;
      s <- gets id ;;
      check_header (header_ s)
  end.

End Session.

Section Receive.
Context {H : Type} `{MH : MsgHandler H} `{U : Uninit} (o : options).

(** Bytes arrive: the header once there are enough of them, then what the
    session asks for after it. *)
Definition receive (bs : list Z) : M (rpc_session (H:=H)) unit := fun s =>
  if zlen bs <? RPC_REQ_HEADER_SIZE then (Ok tt, s)
  else
    match header_read o (Some (ztake RPC_REQ_HEADER_SIZE bs)) s with
    | (Ok _, s1) =>
        let rest := zdrop RPC_REQ_HEADER_SIZE bs in
        match rest, last (ss_events_ s1) with
        | _ :: _, Some (Read_data log_ctx) =>
            if size log_ctx <=? zlen rest
            then read_log_data o log_ctx (Some (ztake (size log_ctx) rest)) s1
            else (Ok tt, s1)
        | _, _ => (Ok tt, s1)
        end
    | r => r
    end.

(** A session that waits for a message. *)
Definition session_ready (s : rpc_session (H:=H)) : Prop :=
  handler_set_ s = true /\ exists hb, header_ s = mkbuf hb 0 /\ zlen hb = RPC_REQ_HEADER_SIZE.

End Receive.
