(* ===== verification/SessionOk.v ===== *)
(** What a session makes of the bytes it receives. *)
From S2P Require Import Prelude Buffer Serializer Crc32 Codec Messages Wire WireOk Session.

(** The message that arrives when [req] is sent with the options [o]. *)
Definition wire_req (o : options) (req : req_msg) : req_msg :=
  mk_req_msg (rq_base req) (rq_last_log_term req) (rq_last_log_idx req) (rq_commit_idx req)
    (map (wire_entry (replicate_log_timestamp_ o) (crc_on_payload_ o)) (rq_log_entries req))
    (if has_flag (rq_extra_flags req) EXCLUDED_FROM_THE_QUORUM then EXCLUDED_FROM_THE_QUORUM else 0).

(** * The fields of a header *)

Lemma header_marker req n post :
  zlen (req_header_bytes req n ++ post) < 2 ^ 31 ->
  from_buf (set_spos 0 ;; get_u8) (mkbuf (req_header_bytes req n ++ post) 0) = Ok 0.
Proof.
  intros L. unfold req_header_bytes in *. rewrite <- app_assoc in *.
  exact (from_buf_at get_u8 [] _ _ 0 0 (sreads_u8 LITTLE 0 ltac:(done)) eq_refl L).
Qed.

Lemma header_type req n post :
  is_u8 (msg_type_val (rq_type req)) -> zlen (req_header_bytes req n ++ post) < 2 ^ 31 ->
  from_buf (set_spos 1 ;; get_u8) (mkbuf (req_header_bytes req n ++ post) 0)
  = Ok (msg_type_val (rq_type req)).
Proof.
  intros Ht L. unfold req_header_bytes, req_fields_bytes in *. rewrite <- !app_assoc in *.
  apply from_buf_at; [by apply sreads_u8|done|done].
Qed.

Lemma header_data_size req n post :
  is_s32 n -> zlen (req_header_bytes req n ++ post) < 2 ^ 31 ->
  from_buf (set_spos (RPC_REQ_HEADER_SIZE - CRC_FLAGS_LEN - DATA_SIZE_LEN) ;; get_i32)
    (mkbuf (req_header_bytes req n ++ post) 0) = Ok n.
Proof.
  intros Hn L.
  set (pre := put_order LITTLE 1 0 ++ put_order LITTLE 1 (msg_type_val (rq_type req))
    ++ put_order LITTLE 4 (rq_src req) ++ put_order LITTLE 4 (rq_dst req)
    ++ put_order LITTLE 8 (rq_term req) ++ put_order LITTLE 8 (rq_last_log_term req)
    ++ put_order LITTLE 8 (rq_last_log_idx req) ++ put_order LITTLE 8 (rq_commit_idx req)).
  assert (req_header_bytes req n ++ post = pre ++ put_order LITTLE 4 n ++ post) as E.
  { unfold pre, req_header_bytes, req_fields_bytes. by rewrite <- !app_assoc. }
  assert (zlen pre = 42) as Lp by (unfold pre; zlen_lia).
  rewrite E in *. apply from_buf_at; [by apply sreads_i32| |done].
  change (_ - _) with 42. lia.
Qed.

Lemma header_fields req n post :
  is_u8 (msg_type_val (rq_type req)) -> is_s32 (rq_src req) -> is_s32 (rq_dst req) ->
  is_u64 (rq_term req) -> is_u64 (rq_last_log_term req) -> is_u64 (rq_last_log_idx req) ->
  is_u64 (rq_commit_idx req) -> is_s32 n -> zlen (req_header_bytes req n ++ post) < 2 ^ 31 ->
  from_buf (set_spos 1 ;; get_req_fields) (mkbuf (req_header_bytes req n ++ post) 0)
  = Ok (mk_req_header (msg_type_val (rq_type req)) (rq_src req) (rq_dst req) (rq_term req)
          (rq_last_log_term req) (rq_last_log_idx req) (rq_commit_idx req) n).
Proof.
  intros. unfold req_header_bytes in *. rewrite <- app_assoc in *.
  apply from_buf_at; [by apply sreads_req_fields|done|done].
Qed.

Section Receives.
Context {H : Type} `{MH : MsgHandler H} `{U : Uninit} (oc o : options).

#[local] Abbreviation session := (rpc_session (H:=H)).

(** The fields of the session after the header is read. *)
Definition with_header (hdr word : list Z) (flags crc : Z) (s : session) : session :=
  s <| header_ := mkbuf (hdr ++ word) 0 |> <| crc_header_ := crc32_8 hdr 0 |>
    <| crc_from_msg_ := crc |> <| flags_ := flags |>.

Section Header.
Context (req : req_msg) (s : session).
Hypothesis (Hr : req_ok oc req) (Hs : session_ready s).

#[local] Abbreviation n := (zlen (req_payload oc req)).
#[local] Abbreviation hdr := (req_header_bytes req n).
#[local] Abbreviation entire := (crc_on_entire_message_ oc).
#[local] Abbreviation flags := (final_flags entire (sent_flags oc req)).
#[local] Abbreviation crc := (final_crc entire hdr (req_payload oc req)).
#[local] Abbreviation word := (put_order LITTLE 8 (flags_and_crc flags crc)).

Definition header_done : session := with_header hdr word flags crc s.

Lemma payload_bytes : Forall byte_ok (req_payload oc req).
Proof.
  destruct Hr. unfold req_payload. apply Forall_app_2; [by apply meta_bytes_ok|by apply entries_bytes_ok].
Qed.

Lemma crc_ok : is_word crc.
Proof.
  unfold final_crc. assert (is_word (crc32_8 hdr 0)) by (apply crc32_8_word; [done|apply req_header_bytes_ok]).
  destruct entire; [apply crc32_8_word; [done|apply payload_bytes]|done].
Qed.

Lemma header_len : zlen (hdr ++ word) = RPC_REQ_HEADER_SIZE.
Proof. rewrite zlen_app, zlen_req_header, put_order_len. done. Qed.

Lemma type_byte : is_u8 (msg_type_val (rq_type req)).
Proof.
  pose proof (ro_valid _ _ Hr) as V. unfold is_valid_msg in V. cbn in V. bool_to_prop.
  unfold is_u8. lia.
Qed.

Lemma header_read_ok :
  header_read o (Some (hdr ++ word)) s
  = if n =? 0 then read_complete o None header_done
    else (log_ctx <- lift (alloc n) ;; session_emit (Read_data log_ctx)) header_done.
Proof.
  destruct Hs as (_ & hb & Eh & Lh). pose proof type_byte as Tb.
  destruct Hr as [Ht Hv ? ? ? ? ? ? He Hm L]. pose proof crc_ok as Hc.
  destruct (sent_flags_spec oc req) as (Hf & _ & _ & _ & _ & Hen & _). cbv zeta in *.
  pose proof header_len as Lb. change RPC_REQ_HEADER_SIZE with 54 in Lh, Lb.
  pose proof (zlen_req_header req n) as Lhd. change (_ - _) with 46 in Lhd.
  zlen_facts. unfold header_read, bind at 1, modify at 1, bind at 1, gets, id.
  assert (s <| header_ ::= run_state (store 0 (hdr ++ word)) |> = s <| header_ := mkbuf (hdr ++ word) 0 |>)
    as Es by (unfold upd; by rewrite Eh, store_whole by lia).
  rewrite Es. cbn [header_ upd]. unfold check_header. rewrite mkbuf_bytes.
  change (RPC_REQ_HEADER_SIZE - CRC_FLAGS_LEN) with 46.
  replace (ztake 46 (hdr ++ word)) with hdr by (rewrite <- Lhd; symmetry; apply ztake_app).
  unfold bind at 1, lift at 1. rewrite <- (app_nil_r word) at 1.
  rewrite get_flags_and_crc_ok by (done || rewrite ?app_nil_r; lia).
  unfold bind at 1, modify. rewrite Hen.
  replace (negb entire && negb (crc32_8 hdr 0 =? crc)) with false
    by (unfold final_crc; destruct entire; [done|by rewrite Z.eqb_refl]).
  unfold bind at 1, lift at 1. rewrite header_marker by lia. cbn [Z.eqb negb].
  unfold bind at 1, lift at 1. rewrite header_type by (done || lia). rewrite Hv. cbn [negb].
  unfold bind at 1, lift at 1. change (46 - DATA_SIZE_LEN) with (RPC_REQ_HEADER_SIZE - CRC_FLAGS_LEN - DATA_SIZE_LEN).
  rewrite header_data_size by (unfold_width; lia).
  rewrite ltb_false, ltb_false by lia. cbn [orb]. by destruct (n =? 0).
Qed.

(** The data that follow the header. *)
Definition payload_ctx : option buffer :=
  if n =? 0 then None else Some (mkbuf (req_payload oc req) 0).

Lemma no_payload : n = 0 -> req_meta oc req = [] /\ rq_log_entries req = [].
Proof.
  intros E. pose proof (entries_count (replicate_log_timestamp_ oc) (crc_on_payload_ oc) (rq_log_entries req)).
  unfold req_payload in E. rewrite zlen_app in E. zlen_facts. split.
  - destruct (req_meta oc req); [done|]. unfold meta_bytes in E. zlen_lia.
  - destruct (rq_log_entries req); [done|]. cbn [length] in *. zlen_lia.
Qed.

Lemma req_of_header_ok :
  (req_of_header (mk_req_header (msg_type_val (rq_type req)) (rq_src req) (rq_dst req) (rq_term req)
    (rq_last_log_term req) (rq_last_log_idx req) (rq_commit_idx req) n) flags)
    <| rq_log_entries := map (wire_entry (replicate_log_timestamp_ oc) (crc_on_payload_ oc))
                           (rq_log_entries req) |>
  = wire_req oc req.
Proof.
  destruct (sent_flags_spec oc req) as (_ & _ & _ & _ & _ & _ & Hf). cbv zeta in Hf.
  unfold req_of_header. rewrite Hf. cbn [hd_type]. rewrite (ro_type _ _ Hr).
  unfold wire_req, rq_type, rq_src, rq_dst, rq_term. destruct (rq_base req).
  by destruct (has_flag (rq_extra_flags req) EXCLUDED_FROM_THE_QUORUM).
Qed.

Lemma payload_read :
  from_buf (get_payload flags n) (mkbuf (req_payload oc req) 0)
  = Ok (Some (req_meta oc req,
      map (wire_entry (replicate_log_timestamp_ oc) (crc_on_payload_ oc)) (rq_log_entries req))).
Proof.
  destruct (sent_flags_spec oc req) as (_ & _ & Hm & Ht & Hc & _). cbv zeta in *.
  pose proof (get_payload_ok flags _ _ Ht Hc (req_meta oc req) (rq_log_entries req)
    (ro_entries _ _ Hr) Hm) as R.
  fold (req_payload oc req) in R. unfold reads_here in R.
  rewrite app_nil_l, app_nil_r in R. unfold from_buf, run_val, buffer_serializer.
  pose proof (ro_size _ _ Hr).
  exact (f_equal fst (R ltac:(lia))).
Qed.

Lemma read_complete_ok s' :
  header_ s' = mkbuf (hdr ++ word) 0 -> crc_header_ s' = crc32_8 hdr 0 -> crc_from_msg_ s' = crc ->
  flags_ s' = flags ->
  read_complete o payload_ctx s'
  = try_catch (identify_source (rq_type req) (rq_src req) ;;
               dispatch_request o (wire_req oc req) (req_meta oc req)) session_stop s'.
Proof.
  intros E1 E2 E3 E4. unfold read_complete, try_catch.
  match goal with |- match ?m s' with _ => _ end = match ?m' s' with _ => _ end =>
    enough (m s' = m' s') as -> by done end.
  pose proof type_byte as Tb. pose proof header_len as Lb. pose proof (ro_size _ _ Hr) as L.
  pose proof (zlen_nonneg (req_payload oc req)) as L0.
  destruct (sent_flags_spec oc req) as (_ & _ & _ & _ & _ & Hen & _). cbv zeta in *.
  unfold bind at 1, gets, id. rewrite E1, E2, E3, E4.
  unfold bind at 1, lift at 1. change RPC_REQ_HEADER_SIZE with 54 in Lb.
  rewrite header_fields by (done || apply Hr || (unfold_width; lia)).
  cbn [hd_type hd_src hd_data_size]. rewrite (ro_type _ _ Hr), Hen.
  replace (entire && _) with false.
  2:{ unfold final_crc, payload_ctx. destruct entire; [|done]. cbn [andb]. symmetry.
      apply negb_false_iff, Z.eqb_eq. destruct (Z.eqb_spec n 0) as [E|].
      - symmetry. rewrite (zlen_0_nil (req_payload oc req) E) at 1. apply not32_inv.
      - by rewrite mkbuf_size, mkbuf_bytes, ztake_all by (split; lia). }
  unfold bind. destruct (identify_source _ _ s') as [[[]|e] s2]; [|done].
  rewrite <- req_of_header_ok. unfold payload_ctx. destruct (Z.eqb_spec n 0) as [E|].
  - destruct (no_payload E) as [-> ->]. cbn [map]. f_equal. unfold req_of_header.
    by destruct (has_flag flags MARK_DOWN).
  - rewrite ltb_true by lia. unfold lift. rewrite mkbuf_size by (split; lia).
    by rewrite payload_read.
Qed.

(** The session has read the message and done nothing else. *)
Definition has_read (s1 : session) : Prop :=
  server_ s1 = server_ s /\ handler_set_ s1 = true /\ src_id_ s1 = src_id_ s /\
  is_leader_ s1 = is_leader_ s /\ session_id_ s1 = session_id_ s /\
  exists reads, ss_events_ s1 = ss_events_ s ++ map Read_data reads.

Lemma receive_ok :
  exists s1, has_read s1 /\
    receive o (wire_request oc req) s
    = try_catch (identify_source (rq_type req) (rq_src req) ;;
                 dispatch_request o (wire_req oc req) (req_meta oc req)) session_stop s1.
Proof.
  pose proof header_len as Lb. pose proof (ro_size _ _ Hr) as L.
  pose proof (zlen_nonneg (req_payload oc req)) as L0.
  unfold receive, wire_request, request_bytes. rewrite app_assoc, <- Lb, ztake_app, zdrop_app.
  rewrite ltb_false by zlen_lia. cbv zeta.
  rewrite header_read_ok. destruct (Z.eqb_spec n 0) as [E|E].
  - exists header_done. split.
    { repeat split; try apply Hs. exists []. by rewrite app_nil_r. }
    rewrite <- read_complete_ok by done. unfold payload_ctx. rewrite E. cbn [Z.eqb].
    rewrite (zlen_0_nil _ E). by destruct (read_complete _ _ _) as [[[]|] ?].
  - unfold bind, lift. rewrite alloc_ok by lia. unfold session_emit, modify.
    cbn [ss_events_ upd]. rewrite last_snoc.
    destruct (req_payload oc req) eqn:Ep; [done|]. rewrite <- Ep in *.
    assert (zlen (fresh n) = n) as Lf by (apply zlen_fresh; lia).
    rewrite mkbuf_size by (rewrite ?Lf; split; lia). rewrite Lf, leb_true, ztake_all by lia.
    cbn [read_log_data].
    rewrite store_whole by (rewrite zlen_fresh; lia).
    eexists. split; [|pose proof (read_complete_ok) as R; unfold payload_ctx in R;
      rewrite eqb_false in R by done; by apply R].
    repeat split; try apply Hs. by exists [mkbuf (fresh n) 0].
Qed.

End Header.
End Receives.

(** * Messages over the wire *)

(** A session that was stopped has said so. *)
Lemma corrupted_closes {H : Type} `{MH : MsgHandler H} (o : options) ctx (s : rpc_session (H:=H)) u s' :
  corrupted o ctx s = (Ok u, s') -> last (ss_events_ s') = Some Session_closed.
Proof.
  unfold corrupted, session_stop, bind, session_emit, modify, gets, id.
  destruct ((if corrupted_msg_handler_ o then _ else ret tt) s) as [[]]; [|done].
  destruct (invoke_connection_callback _ _) as [[]]; [|done].
  intros [= _ <-]. cbn [ss_events_ upd]. apply last_snoc.
Qed.

(** A request that is sent with any options arrives as it was: the bytes a
    client writes make a session call its message handler with the request and
    its meta, where the timestamps and the checksums of the entries are those the
    client sends, and the session does nothing else before. *)
Theorem request_over_wire {H : Type} `{MH : MsgHandler H} `{U : Uninit} (oc o : options)
    (req : req_msg) (s : rpc_session (H:=H)) :
  req_ok oc req -> session_ready s ->
  exists bs s1,
    encode_request oc req = Ok (mkbuf bs 0) /\ has_read s s1 /\
    receive o bs s
    = try_catch (identify_source (rq_type req) (rq_src req) ;;
                 dispatch_request o (wire_req oc req) (req_meta oc req)) session_stop s1.
Proof.
  intros Hr Hs. destruct (receive_ok oc o req s Hr Hs) as (s1 & H1 & H2).
  exists (wire_request oc req), s1. by rewrite encode_request_ok.
Qed.

