(* ===== verification/WireSafe.v ===== *)
(** Sessions on arbitrary bytes: whatever a peer sends, the bytes are read inside
    their block, the loops end, and the session calls its message handler only
    while it has one. *)
From S2P Require Import Prelude Buffer Serializer Crc32 Codec Messages Typing Wire Session.

(** A result that is a value or a C++ exception. *)
Definition defined {A} (r : res A) : Prop :=
  match r with Ok _ => True | Throw e => is_std e = true end.

(** * Readers on a block of bytes *)

Section Block.
Context `{U : Uninit} (l : list Z) (p : Z).
Hypothesis (Hl : Forall byte_ok l) (Hb : in_block l p).

(** At any position inside the block [m] returns or throws, leaves the block,
    and a value [a] is returned at least [d a] bytes further. *)
Definition advances {A} (d : A -> Z) (m : M serializer A) : Prop := forall q,
  0 <= q <= zlen l ->
  exists r q', m (mkser LITTLE l q p) = (r, mkser LITTLE l q' p) /\ defined r /\
    q <= q' <= zlen l /\ (forall a, r = Ok a -> q + d a <= q').

Lemma advances_ret {A} (a : A) : advances (fun _ => 0) (ret a).
Proof. intros q Hq. exists (Ok a), q. split_and!; [done|done|lia|lia|]. intros. lia. Qed.

Lemma advances_throw {A} (d : A -> Z) e : is_std e = true -> advances d (throw e).
Proof. intros He q Hq. exists (Throw e), q. by split_and!; [..|lia|lia|]. Qed.

Lemma advances_bind {A B} (d : A -> Z) (d' : B -> Z) (m : M serializer A) (k : A -> M serializer B) n :
  advances d m -> (forall a, n <= d a) -> (forall a, advances (fun b => d' b - n) (k a)) ->
  advances d' (bind m k).
Proof.
  intros Hm Hd Hk q Hq. unfold bind.
  destruct (Hm q Hq) as (r & q1 & -> & Hr & Hq1 & Ha). destruct r as [a|e].
  - destruct (Hk a q1) as (r & q2 & -> & Hr' & Hq2 & Hb'); [lia|].
    exists r, q2. split_and!; [done..|lia|lia|]. intros b ->. specialize (Ha a eq_refl).
    specialize (Hb' b eq_refl). specialize (Hd a). lia.
  - exists (Throw e), q1. by split_and!; [..|lia|lia|].
Qed.

Lemma advances_mono {A} (d d' : A -> Z) m : advances d m -> (forall a, d' a <= d a) -> advances d' m.
Proof.
  intros Hm Hd q Hq. destruct (Hm q Hq) as (r & q1 & E & Hr & Hq1 & Ha).
  exists r, q1. split_and!; [done..|lia|lia|]. intros a Ea. specialize (Ha a Ea). specialize (Hd a). lia.
Qed.

Lemma advances_uint n : (n <= 8)%nat -> advances (fun _ => Z.of_nat n) (get_uint n).
Proof.
  intros N q Hq. unfold get_uint. unfold bind at 1. pose proof Hb as [? ?].
  destruct (Z_le_gt_dec (q + Z.of_nat n) (zlen l)).
  - rewrite mkser_chk_ok by (done || lia). unfold bind at 1, gets at 1, id. rewrite mkser_pos.
    unfold bind. rewrite mkser_load by (done || lia).
    rewrite u64_small by (unfold_width; lia). rewrite mkser_set_spos by (done || lia).
    eexists _, _. split_and!; [reflexivity|done|lia|lia|]. intros. lia.
  - rewrite mkser_chk_fail by (done || lia). eexists _, _. by split_and!; [reflexivity|..|lia|lia|].
Qed.

(** A reader that knows something of what it returns. *)
Lemma advances_typed {A B} (P : A -> Prop) (d : A -> Z) (d' : B -> Z) (m : M serializer A)
    (k : A -> M serializer B) n :
  advances d m -> typed P m -> (forall a, n <= d a) ->
  (forall a, P a -> advances (fun b => d' b - n) (k a)) -> advances d' (bind m k).
Proof.
  intros Hm Ht Hd Hk q Hq. unfold bind.
  destruct (Ht (mkser LITTLE l q p)) as (_ & HP); [unfold in_bytes; cbn; by rewrite mkbuf_bytes|].
  destruct (Hm q Hq) as (r & q1 & E & Hr & Hq1 & Ha). rewrite E in HP |- *.
  destruct r as [a|e].
  - destruct (Hk a (HP a eq_refl) q1) as (r & q2 & -> & Hr' & Hq2 & Hb'); [lia|].
    exists r, q2. split_and!; [done..|lia|lia|]. intros b ->. specialize (Ha a eq_refl).
    specialize (Hb' b eq_refl). specialize (Hd a). lia.
  - exists (Throw e), q1. by split_and!; [..|lia|lia|].
Qed.

(** A reader that looks at its position. *)
Lemma advances_pos {B} (d' : B -> Z) (k : Z -> M serializer B) :
  (forall q, 0 <= q <= zlen l ->
    exists r q', k q (mkser LITTLE l q p) = (r, mkser LITTLE l q' p) /\ defined r /\
      q <= q' <= zlen l /\ (forall a, r = Ok a -> q + d' a <= q')) ->
  advances d' (bind (gets pos_) k).
Proof. intros Hk q Hq. exact (Hk q Hq). Qed.

Lemma advances_raw len : 0 <= len < 2 ^ 63 -> advances (fun _ => len) (sget_raw len).
Proof.
  intros Hn q Hq. unfold sget_raw, bind at 1, gets, id. rewrite mkser_pos.
  pose proof Hb as [? ?]. rewrite u64_small by (unfold_width; lia). unfold bind.
  destruct (Z_le_gt_dec (q + len) (zlen l)).
  - rewrite mkser_set_spos by (done || lia). unfold on_buf. cbn [buf_ mkser].
    rewrite mkbuf_load by lia. exists (Ok (ztake len (zdrop q l))), (q + len).
    split_and!; [done|done|lia|lia|]. intros. lia.
  - unfold set_spos. cbn [buf_ mkser]. rewrite mkbuf_size, ltb_true by (done || lia).
    eexists _, _. by split_and!; [reflexivity|..|lia|lia|].
Qed.

Lemma advances_bytes : advances (fun _ => 0) sget_bytes.
Proof.
  unfold sget_bytes. eapply (advances_typed is_u32 _ _ _ _ 0); [apply (advances_uint 4); lia|apply typed_u32|by intros; cbn|].
  intros len Hn q Hq. unfold bind at 1, gets, id. unfold is_u32 in Hn.
  rewrite mkser_valid by (done || lia). unfold bind, guard.
  destruct (q + len <=? zlen l).
  - eapply advances_mono; [apply (advances_raw len); lia|intros; lia|done].
  - eexists _, _. by split_and!; [reflexivity|..|lia|lia|].
Qed.


Lemma advances_buffer v :
  0 <= v < 2 ^ 31 -> advances (fun _ => v) (dst <- lift (alloc v) ;; get_buffer dst).
Proof.
  intros Hv q Hq. unfold bind at 1, lift at 1. rewrite alloc_ok by lia.
  assert (zlen (fresh v) = v) as F by (apply zlen_fresh; lia).
  unfold get_buffer. rewrite mkbuf_size, mkbuf_pos by (split; lia).
  rewrite F, Z.sub_0_r, u64_small by (unfold_width; lia). unfold bind at 1.
  destruct (advances_raw v ltac:(lia) q Hq) as (r & q1 & E & Hr & Hq1 & Ha). rewrite E.
  destruct r as [d|e]; [|by exists (Throw e), q1; split_and!; [..|lia|lia|]].
  assert (zlen d = v) as Ld.
  { revert E. unfold sget_raw, bind, gets, id. destruct (set_spos _ _) as [[[]|] s1]; [|done].
    unfold on_buf, load. destruct (_ && _) eqn:Ec; [|done]. intros [= <- _].
    bool_to_prop. rewrite mkser_pos in *. rewrite zlen_ztake; [done|]. rewrite zlen_zdrop; lia. }
  rewrite mkbuf_store by lia. unfold bind, lift, ret. cbn [fst snd].
  eexists _, _. split_and!; [reflexivity|done|lia|lia|]. intros a [= <-]. exact (Ha d eq_refl).
Qed.

Lemma advances_buffer_then {B} (d : B -> Z) v (k : buffer -> M serializer B) :
  0 <= v < 2 ^ 31 -> (forall b, advances (fun x => d x - 0) (k b)) ->
  advances d (dst <- lift (alloc v) ;; buf <- get_buffer dst ;; k buf).
Proof.
  intros Hv Hk. pose proof (advances_bind _ d _ k 0 (advances_buffer v Hv) ltac:(cbn; lia) Hk) as R.
  intros q Hq. destruct (R q Hq) as (r & q' & E & R'). exists r, q'. split; [|exact R'].
  rewrite <- E. unfold bind, lift. by destruct (alloc v).
Qed.

Lemma advances_if {A} (c : bool) (m : M serializer A) a :
  advances (fun _ => 0) m -> advances (fun _ => 0) (if c then m else ret a).
Proof. destruct c; [done|]. intros _. apply advances_ret. Qed.

Lemma advances_int n : (n <= 8)%nat -> advances (fun _ => 0) (get_uint n).
Proof. intros N. eapply advances_mono; [by apply advances_uint|]. cbn. lia. Qed.

Lemma advances_i32 : advances (fun _ => 4) get_i32.
Proof.
  unfold get_i32. apply (advances_bind _ _ _ _ 4 (advances_uint 4 ltac:(lia))); [done|].
  intros v. apply advances_ret.
Qed.

(** An entry that is read takes at least its fixed part. *)
Definition entry_room (e : option log_entry) : Z := match e with Some _ => 13 | None => 0 end.

Ltac advance_by n H := eapply (advances_bind _ _ _ _ n); [apply H; lia|by intros; cbn|intros ?].

Lemma get_entry_safe flags : advances entry_room (get_entry flags (zlen l)).
Proof.
  unfold get_entry. apply advances_pos. intros q Hq. destruct (_ <? _).
  { exists (Ok None), q. split_and!; [done|done|lia|lia|]. intros ? [= <-]. cbn. lia. }
  revert q Hq. fold (advances entry_room (A:=option log_entry)).
  advance_by 8 (advances_uint 8). advance_by 1 (advances_uint 1).
  eapply (advances_bind _ _ _ _ 0); [apply advances_if, (advances_int 8); lia|by intros; cbn|intros ts].
  eapply (advances_bind _ _ _ _ 0);
    [apply advances_if; advance_by 0 (advances_int 1); apply advances_ret|by intros; cbn|intros has].
  eapply (advances_bind _ _ _ _ 0); [apply advances_if, (advances_int 4); lia|by intros; cbn|intros c].
  eapply (advances_bind _ _ _ _ 4); [apply advances_i32|by intros; cbn|intros v]. cbv zeta.
  apply advances_pos. intros q Hq. destruct (Z.ltb_spec (zlen l - q) (u64 v)).
  { exists (Ok None), q. split_and!; [done|done|lia|lia|]. intros ? [= <-]. cbn. lia. }
  pose proof (u64_range v) as Hv. unfold is_u64 in Hv. destruct Hb.
  apply advances_buffer_then; [lia| |done]. intros b.
  destruct (_ && _); eapply advances_mono; try apply advances_ret; intros []; cbn; lia.
Qed.

Lemma get_entries_safe flags fuel : forall q acc,
  0 <= q <= zlen l -> zlen l - q <= Z.of_nat fuel ->
  exists r q', get_entries fuel flags (zlen l) acc (mkser LITTLE l q p) = (r, mkser LITTLE l q' p) /\
    defined r /\ q <= q' <= zlen l.
Proof.
  induction fuel as [|fuel IH]; intros q acc Hq Hf; cbn [get_entries];
    unfold bind at 1, gets at 1; rewrite mkser_pos; destruct (Z.ltb_spec q (zlen l));
    try (by exists (Ok (Some acc)), q; split_and!; [..|lia|lia]); [lia|].
  destruct (get_entry_safe flags q Hq) as (r & q1 & E & Hr & Hq1 & Ha).
  unfold bind. rewrite E. destruct r as [[e|]|e]; [|by eexists _, q1; split_and!; [reflexivity|..|lia|lia]..].
  specialize (Ha _ eq_refl). cbn in Ha.
  destruct (IH q1 (acc ++ [e])) as (r & q2 & -> & Hr' & Hq2); [lia|lia|].
  exists r, q2. by split_and!; [..|lia|lia].
Qed.

Lemma get_payload_safe flags : advances (fun _ => 0) (get_payload flags (zlen l)).
Proof.
  unfold get_payload. eapply (advances_bind _ _ _ _ 0);
    [apply advances_if, advances_bytes|by intros; cbn|intros meta].
  eapply (advances_bind (fun _ => 0) _ _ _ 0); [|by intros; cbn|intros es; apply advances_ret].
  intros q Hq. destruct (get_entries_safe flags (Z.to_nat (zlen l)) q []) as (r & q1 & E & Hr & Hq1); [lia..|].
  exists r, q1. split_and!; [done..|lia|lia|]. intros. lia.
Qed.

Lemma advances_word n : (n <= 8)%nat -> advances (fun _ => 0) (v <- get_uint n ;; ret (s32 v)).
Proof.
  intros N. eapply (advances_bind _ _ _ _ 0); [by apply advances_int|by intros ?; cbn|intros ?].
  apply advances_ret.
Qed.

Lemma req_fields_safe : advances (fun _ => 0) get_req_fields.
Proof.
  unfold get_req_fields, get_i32.
  repeat (eapply (advances_bind _ _ _ _ 0);
    [first [apply (advances_word 4); lia | apply (advances_int 8); lia | apply (advances_int 1); lia]
    |by intros ?; cbn|intros ?]).
  apply advances_ret.
Qed.

Lemma from_buf_defined {A} d (m : M serializer A) :
  advances d m -> defined (from_buf m (mkbuf l p)).
Proof.
  intros Hm. unfold from_buf, run_val. destruct (Hm 0) as (r & q' & E & Hr & _); [zlen_lia|].
  unfold mkser in E. unfold buffer_serializer. by rewrite E.
Qed.

Lemma from_buf_at_defined {A} d c (m : M serializer A) :
  0 <= c -> advances d m -> defined (from_buf (set_spos c ;; m) (mkbuf l p)).
Proof.
  intros Hc Hm. unfold from_buf, run_val, bind, buffer_serializer.
  change (mk_serializer LITTLE ?b 0) with (mkser LITTLE l 0 p).
  unfold set_spos. cbn [buf_ mkser]. rewrite mkbuf_size by done.
  destruct (Z.ltb_spec (zlen l) c); [done|].
  destruct (Hm c) as (r & q' & E & Hr & _); [lia|].
  change (defined (fst (m (mkser LITTLE l c p)))). by rewrite E.
Qed.

End Block.

(** * Writers

    The same for a writer, which keeps the length of the block. *)
Definition puts (d : Z) (m : M serializer unit) : Prop := forall l q p,
  in_block l p -> 0 <= q <= zlen l ->
  exists r l' q', m (mkser LITTLE l q p) = (r, mkser LITTLE l' q' p) /\ zlen l' = zlen l /\ defined r /\
    q <= q' <= zlen l /\ (r = Ok tt -> q + d <= q').

Lemma puts_gen (f : endianness -> list Z) n :
  zlen (f LITTLE) = n -> n < 2 ^ 63 ->
  puts n (chk_length n ;; s <- gets id ;; on_buf (store (pos_ s) (f (endian_ s))) ;;
          set_spos (u64 (pos_ s + n))).
Proof.
  intros E N l q p Hb Hq. pose proof Hb as [? ?]. pose proof (zlen_nonneg (f LITTLE)).
  unfold bind at 1. destruct (Z_le_gt_dec (q + n) (zlen l)).
  - rewrite mkser_chk_ok by (done || lia). unfold bind, gets, id.
    rewrite mkser_pos. change (endian_ (mkser LITTLE l q p)) with LITTLE.
    rewrite mkser_store by (done || lia). set (l' := ztake q l ++ _).
    assert (zlen l' = zlen l) as El
      by (unfold l'; rewrite !zlen_app, zlen_ztake, zlen_zdrop by lia; lia).
    rewrite u64_small by (unfold_width; lia).
    rewrite mkser_set_spos by (rewrite ?El; done || lia || (unfold in_block in *; rewrite El; lia)).
    exists (Ok tt), l', (q + n). split_and!; [done..|lia|lia|]. lia.
  - rewrite mkser_chk_fail by (done || lia).
    by exists (Throw Overflow_error), l, q; split_and!; [..|lia|lia|].
Qed.

Lemma puts_uint n v : (n <= 8)%nat -> puts (Z.of_nat n) (put_uint n v).
Proof. intros. apply (puts_gen (fun e => put_order e n v)); [apply put_order_len|lia]. Qed.

Lemma puts_raw bs : zlen bs < 2 ^ 63 -> puts (zlen bs) (sput_raw bs).
Proof. intros. by apply (puts_gen (fun _ => bs)). Qed.

Lemma puts_nil : puts 0 (ret tt).
Proof. intros l q p Hb Hq. exists (Ok tt), l, q. split_and!; [done..|lia|lia|lia]. Qed.

Lemma puts_bind m k d n : puts d m -> puts (n - d) k -> puts n (m ;; k).
Proof.
  intros Hm Hk l q p Hb Hq. unfold bind.
  destruct (Hm l q p Hb Hq) as (r & l1 & q1 & -> & E1 & Hr & Hq1 & Ha).
  destruct r as [[]|e]; [|by exists (Throw e), l1, q1; split_and!; [..|lia|lia|]].
  destruct (Hk l1 q1 p) as (r & l2 & q2 & -> & E2 & Hr' & Hq2 & Ha'); [by unfold in_block in *; rewrite E1|lia|].
  specialize (Ha eq_refl). exists r, l2, q2. split_and!; [done|congruence|done|lia|lia|].
  intros ->. specialize (Ha' eq_refl). lia.
Qed.

Lemma puts_weaken m d d' : puts d m -> d' <= d -> puts d' m.
Proof.
  intros Hm Hd l q p Hb Hq. destruct (Hm l q p Hb Hq) as (r & l1 & q1 & E & E1 & Hr & Hq1 & Ha).
  exists r, l1, q1. split_and!; [done..|lia|lia|]. intros Er. specialize (Ha Er). lia.
Qed.

Lemma puts_when c m : puts 0 m -> puts 0 (when_put c m).
Proof. destruct c; [done|]. intros _. apply puts_nil. Qed.

Lemma puts_bytes bs : zlen bs < 2 ^ 31 -> puts 0 (sput_bytes bs).
Proof.
  intros Hs l q p Hb Hq. unfold sput_bytes. unfold bind at 1. zlen_facts.
  destruct (Z_le_gt_dec (q + (zlen bs + 4)) (zlen l)).
  - rewrite mkser_chk_ok by (done || lia).
    assert (puts 0 (put_u32 (zlen bs) ;; sput_raw bs)) as P; [|exact (P l q p Hb Hq)].
    eapply (puts_bind _ _ 4); [apply (puts_uint 4); lia|].
    apply (puts_weaken _ (zlen bs)); [apply puts_raw|]; lia.
  - rewrite mkser_chk_fail by (done || lia).
    by exists (Throw Overflow_error), l, q; split_and!; [..|lia|lia|].
Qed.

(** * Sessions *)

Section Sessions.
Context {H : Type} `{MH : MsgHandler H} `{U : Uninit} (o : options).

#[local] Abbreviation session := (rpc_session (H:=H)).

(** A response whose context is a block. *)
Definition ctx_ok (resp : resp_msg) : Prop :=
  match rs_ctx resp with
  | Some b => exists l p, b = mkbuf l p /\ in_block l p
  | None => True
  end.

(** The message handler returns such responses or throws a C++ exception, and
    the user's metas are short. *)
Record handler_safe : Prop := {
  hs_callback : forall cb args h, defined (fst (invoke_callback cb args h));
  hs_req : forall req h, defined (fst (handle_req req h));
  hs_resp : forall req h resp cb h',
    handle_req req h = (Ok (Some (resp, cb)), h') -> ctx_ok resp;
  hs_cb : forall idx resp h, defined (fst (call_cb idx resp h));
  hs_cb_resp : forall idx resp h resp' h', call_cb idx resp h = (Ok resp', h') -> ctx_ok resp';
  hs_meta : forall req resp, zlen (resp_meta o req resp) < 2 ^ 31
}.

Hypothesis (HS : handler_safe).

(** With a handler, [m] returns with it or throws with it. *)
Definition alive {A} (m : M session A) : Prop := forall s,
  handler_set_ s = true -> defined (fst (m s)) /\ handler_set_ (snd (m s)) = true.

(** The same, but what returns may have stopped the session. *)
Definition ends (m : M session unit) (s : session) : Prop :=
  defined (fst (m s)) /\ (fst (m s) <> Ok tt -> handler_set_ (snd (m s)) = true).

Definition ending (m : M session unit) : Prop := forall s, handler_set_ s = true -> ends m s.

Lemma alive_ending m : alive m -> ending m.
Proof. intros Hm s Hs. destruct (Hm s Hs). by split. Qed.

Lemma alive_bind {A B} (m : M session A) (k : A -> M session B) :
  alive m -> (forall a, alive (k a)) -> alive (bind m k).
Proof.
  intros Hm Hk s Hs. destruct (Hm s Hs) as (H1 & H2). unfold bind.
  destruct (m s) as [[a|e] s1]; [by apply Hk|done].
Qed.

Lemma ending_bind {A} (m : M session A) k :
  alive m -> (forall a, ending (k a)) -> ending (bind m k).
Proof.
  intros Hm Hk s Hs. destruct (Hm s Hs) as (H1 & H2). unfold ends, bind.
  destruct (m s) as [[a|e] s1]; [by apply Hk|done].
Qed.

Lemma ends_catch m h s : ends m s -> ending h -> ends (try_catch m h) s.
Proof.
  intros (H1 & H2) Hh. unfold try_catch, ends.
  destruct (m s) as [[[]|e] s1]; [done|]. cbn in H1 |- *. rewrite H1. by apply Hh, H2.
Qed.

Lemma ending_catch m h : ending m -> ending h -> ending (try_catch m h).
Proof. intros Hm Hh s Hs. apply ends_catch; [by apply Hm|done]. Qed.

(** A computation without state. *)
Lemma ends_lift {A} (r : res A) k s :
  handler_set_ s = true -> defined r -> (forall a, r = Ok a -> ends (k a) s) -> ends (bind (lift r) k) s.
Proof.
  intros Hs Hr Hk. unfold bind, lift, ends. destruct r as [a|e]; [by apply (Hk a)|].
  by split.
Qed.

Lemma alive_ret {A} (a : A) : alive (ret a).
Proof. by intros s Hs. Qed.

Lemma alive_gets {A} (f : session -> A) : alive (gets f).
Proof. by intros s Hs. Qed.

Lemma alive_lift {A} (r : res A) : defined r -> alive (lift r).
Proof. by intros Hr s Hs. Qed.

Lemma alive_modify f : (forall s, handler_set_ s = true -> handler_set_ (f s) = true) -> alive (modify f).
Proof. intros Hf s Hs. split; [done|]. by apply Hf. Qed.

Lemma alive_emit ev : alive (session_emit ev).
Proof. by apply alive_modify. Qed.

Lemma alive_on_handler {A} (m : M H A) : (forall h, defined (fst (m h))) -> alive (on_handler m).
Proof.
  intros Hm s Hs. unfold on_handler. rewrite Hs. specialize (Hm (server_ s)).
  by destruct (m (server_ s)).
Qed.

Lemma alive_callback cb : alive (session_callback cb).
Proof.
  unfold session_callback. apply alive_bind; [apply alive_gets|]. intros s.
  apply alive_on_handler. intros h. apply HS.
Qed.

Lemma alive_forget : alive forget_old_leader.
Proof.
  unfold forget_old_leader. apply alive_bind; [apply alive_gets|]. intros s.
  destruct (is_leader_ s); [|apply alive_ret].
  apply alive_bind; [by apply alive_on_handler|]. intros leader.
  destruct (_ =? _); [apply alive_ret|by apply alive_modify].
Qed.

Lemma alive_connection b : alive (invoke_connection_callback b).
Proof. apply alive_bind; [apply alive_forget|]. intros _. apply alive_callback. Qed.

Lemma ending_stop : ending session_stop.
Proof.
  unfold session_stop. apply ending_bind; [apply alive_connection|]. intros _.
  apply ending_bind; [apply alive_emit|]. by intros _ s Hs.
Qed.

(** ** Responses *)

Lemma sbuild_defined n m : 0 <= n -> puts 0 m -> defined (sbuild n m).
Proof.
  intros Hn Hm. unfold sbuild. destruct (Z_lt_ge_dec n (2 ^ 31)).
  - rewrite alloc_ok by lia. cbn [rbind].
    change (buffer_serializer LITTLE ?b) with (mkser LITTLE (fresh n) 0 0).
    assert (zlen (fresh n) = n) as F by (apply zlen_fresh; lia).
    destruct (Hm (fresh n) 0 0) as (r & l' & q' & -> & _ & Hr & _); [split; lia|lia|].
    by destruct r.
  - by rewrite alloc_too_big by lia.
Qed.

(** What was written can be read. *)
Lemma puts_then_load m n (k : list Z -> M serializer unit) :
  puts n m -> (forall h, puts 0 (k h)) -> puts 0 (m ;; h <- on_buf (load 0 n) ;; k h).
Proof.
  intros Hm Hk l q p Hb Hq. unfold bind.
  destruct (Hm l q p Hb Hq) as (r & l1 & q1 & -> & E1 & Hr & Hq1 & Ha).
  destruct r as [[]|e]; [|by exists (Throw e), l1, q1; split_and!; [..|lia|lia|]].
  specialize (Ha eq_refl). unfold on_buf. cbn [buf_ mkser]. rewrite mkbuf_load by lia.
  match goal with |- context [k _ ?x] => change x with (mkser LITTLE l1 q1 p) end.
  destruct (Hk (ztake n (zdrop 0 l1)) l1 q1 p) as (r & l2 & q2 & -> & E2 & Hr' & Hq2 & Ha');
    [by unfold in_block in *; rewrite E1|lia|].
  exists r, l2, q2. split_and!; [done|congruence|done|lia|lia|]. lia.
Qed.

Lemma puts_ctx resp : ctx_ok resp -> puts 0 (put_ctx (rs_ctx resp)).
Proof.
  unfold ctx_ok, put_ctx. destruct (rs_ctx resp) as [b|]; [|intros; apply puts_nil].
  intros (l & p & -> & Hb). unfold run_state. rewrite mkbuf_set_pos by (done || lia).
  destruct Hb. rewrite Z.min_l by lia. cbn [snd]. unfold put_buffer.
  rewrite remaining_mkbuf by (split; lia). change (zdrop 0 l) with l.
  apply (puts_weaken _ (zlen l)); [apply puts_raw|]; lia.
Qed.

Ltac put_int n := apply (puts_bind _ _ (Z.of_nat n)); [apply (puts_uint n); lia|].

Lemma encode_response_defined req resp :
  ctx_ok resp -> zlen (resp_meta o req resp) < 2 ^ 31 -> defined (encode_response o req resp).
Proof.
  intros Hc Hm. unfold encode_response. apply sbuild_defined; [apply u64_range|].
  unfold put_response. apply puts_then_load.
  - change (RPC_RESP_HEADER_SIZE - CRC_FLAGS_LEN) with 31. unfold put_resp_header.
    put_int 1%nat. put_int 1%nat. put_int 4%nat. put_int 4%nat. put_int 8%nat. put_int 8%nat.
    put_int 1%nat. apply (puts_uint 4). lia.
  - intros h. apply (puts_weaken _ 8); [|lia]. put_int 8%nat.
    apply (puts_bind _ _ 0); [by apply puts_when, puts_bytes|].
    apply (puts_bind _ _ 0); [apply puts_when|apply (puts_bind _ _ 0); [by apply puts_when, puts_ctx|]].
    + apply (puts_weaken _ 12); [|lia]. put_int 2%nat. put_int 2%nat. apply (puts_uint 8). lia.
    + apply puts_when. apply (puts_weaken _ 4); [apply (puts_uint 4)|]; lia.
Qed.

Lemma ending_resp req resp : ctx_ok resp -> ending (on_resp_ready o req resp).
Proof.
  intros Hc. apply ending_catch; [|apply ending_stop].
  apply alive_ending, alive_bind; [|intros; apply alive_emit].
  apply alive_lift, encode_response_defined; [done|apply HS].
Qed.

(** The handler's responses can be sent. *)
Lemma ending_handle {A} (m : M H A) (P : A -> Prop) k :
  (forall h, defined (fst (m h))) -> (forall h a h', m h = (Ok a, h') -> P a) ->
  (forall a, P a -> ending (k a)) -> ending (bind (on_handler m) k).
Proof.
  intros Hm HP Hk s Hs. unfold ends, bind, on_handler. rewrite Hs.
  specialize (Hm (server_ s)). destruct (m (server_ s)) as [[a|e] h] eqn:E; [|done].
  by apply (Hk a (HP _ _ _ E)).
Qed.

Lemma ending_dispatch req meta : ending (dispatch_request o req meta).
Proof.
  unfold dispatch_request. cbv zeta. destruct (match read_req_meta_ o with _ => _ end);
    [apply ending_stop|].
  apply (ending_handle _ (fun r => match r with Some (resp, _) => ctx_ok resp | None => True end)).
  - intros h. apply HS.
  - intros h [[resp cb]|] h' E; [by eapply (hs_resp HS)|done].
  - intros [[resp [|idx|idx]]|] Hr; [by apply ending_resp| |apply alive_ending, alive_emit|apply ending_stop].
    apply (ending_handle _ ctx_ok); [intros h; apply HS|intros h a h'; apply HS|].
    intros resp'. apply ending_resp.
Qed.

Lemma alive_identify t src : alive (identify_source t src).
Proof.
  unfold identify_source. apply alive_bind; [apply alive_gets|]. intros s.
  apply alive_bind.
  - destruct (_ =? _); [|apply alive_forget].
    apply alive_bind; [by apply alive_modify|]. intros _. apply alive_connection.
  - intros _. apply alive_bind; [apply alive_gets|]. intros s'.
    destruct (_ && _); [|apply alive_ret].
    apply alive_bind; [by apply alive_modify|]. intros _. apply alive_callback.
Qed.

Lemma ending_corrupted ctx : ending (corrupted o ctx).
Proof.
  apply ending_bind; [apply alive_gets|]. intros s.
  apply ending_bind; [destruct (corrupted_msg_handler_ o); [apply alive_emit|apply alive_ret]|].
  intros _. apply ending_stop.
Qed.

(** ** Requests *)

Definition bytes_of (b : buffer) (l : list Z) : Prop :=
  b = mkbuf l 0 /\ zlen l < 2 ^ 31 /\ Forall byte_ok l.

Lemma in_block_0 l : zlen l < 2 ^ 31 -> in_block l 0.
Proof. split; zlen_lia. Qed.

Lemma read_complete_ends ctx s hb :
  handler_set_ s = true -> bytes_of (header_ s) hb ->
  (forall b, ctx = Some b -> exists l, bytes_of b l) -> ends (read_complete o ctx) s.
Proof.
  intros Hs (Eh & Lh & Hh) Hc. pose proof (in_block_0 hb Lh) as Hb.
  eapply ends_catch; [|apply ending_stop].
  change (ends (bind (gets id) ?k) s) with (ends (k s) s). cbv beta.
  apply ends_lift; [done| |].
  { rewrite Eh. eapply from_buf_at_defined; [done|lia|by apply req_fields_safe]. }
  intros h _. cbv zeta. destruct (_ && _); [by apply ending_corrupted|].
  apply ending_bind; [apply alive_identify| |done]. intros _. destruct ctx as [b|]; [|apply ending_dispatch].
  destruct (Hc b eq_refl) as (l & -> & Ll & Hl). pose proof (in_block_0 l Ll) as Hbl.
  destruct (_ <? _); [|apply ending_dispatch].
  apply ending_bind.
  - apply alive_lift. rewrite mkbuf_size by done. eapply from_buf_defined. by apply get_payload_safe.
  - intros [[meta es]|]; [apply ending_dispatch|apply ending_corrupted].
Qed.

Lemma header_read_ends bs s :
  session_ready s -> zlen bs = RPC_REQ_HEADER_SIZE -> Forall byte_ok bs ->
  ends (header_read o (Some bs)) s.
Proof.
  intros (Hs & hb & Eh & Lh) Lb Hbs. change RPC_REQ_HEADER_SIZE with 54 in *.
  assert (zlen bs < 2 ^ 31) as Lb' by lia. pose proof (in_block_0 bs Lb') as Hb.
  set (s1 := s <| header_ ::= run_state (store 0 bs) |>).
  assert (header_ s1 = mkbuf bs 0) as E1.
  { unfold s1. cbn [header_ upd]. rewrite Eh. apply store_whole; lia. }
  change (ends (header_read o (Some bs)) s) with (ends (check_header o (header_ s1)) s1).
  assert (forall A c (m : M serializer A), 0 <= c -> advances bs 0 (fun _ => 0) m ->
    defined (from_buf (set_spos c ;; m) (mkbuf bs 0))) as Hf.
  { intros. by eapply from_buf_at_defined. }
  rewrite E1. unfold check_header. cbv zeta.
  apply ends_lift; [done| |intros [flags crc] _].
  { apply Hf; [done|]. eapply (advances_bind _ _ _ _ _ _ 0); [by apply (advances_int _ _ Hb 8); lia|by intros ?; cbn|].
    intros ?. apply advances_ret. }
  change (ends (bind (modify ?f) ?k) s1) with (ends (k tt) (f s1)). cbv beta.
  match goal with |- ends _ ?x => set (s2 := x) end.
  assert (handler_set_ s2 = true /\ header_ s2 = mkbuf bs 0) as (Hs2 & E2) by done.
  destruct (negb _ && _); [by apply ending_corrupted|].
  apply ends_lift; [done|apply Hf; [lia|apply (advances_int _ _ Hb 1); lia]|intros marker _].
  destruct (negb (_ =? _)); [by apply ending_corrupted|].
  apply ends_lift; [done|apply Hf; [lia|apply (advances_int _ _ Hb 1); lia]|intros m_type _].
  destruct (negb (is_valid_msg _)); [by apply ending_corrupted|].
  apply ends_lift; [done|apply Hf; [done|eapply advances_mono; [by apply advances_i32|cbn; lia]]|intros n _].
  destruct (Z.ltb_spec n 0); [by apply ending_corrupted|].
  destruct (Z.ltb_spec 0x40000000 n); [by apply ending_corrupted|].
  cbn [orb]. destruct (_ =? _); [by eapply read_complete_ends|].
  apply ends_lift; [done|by rewrite alloc_ok by lia|]. intros ctx _.
  apply alive_ending; [apply alive_emit|done].
Qed.

Lemma read_log_data_ends n data s hb :
  handler_set_ s = true -> bytes_of (header_ s) hb -> 0 <= n < 2 ^ 31 -> zlen data = n ->
  Forall byte_ok data -> ends (read_log_data o (mkbuf (fresh n) 0) (Some data)) s.
Proof.
  intros Hs Hh Hn Ld Hd. cbn [read_log_data]. eapply read_complete_ends; [done|done|].
  intros b [= <-]. exists data. split_and!; [|lia|done].
  assert (zlen (fresh n) = n) as F by (apply zlen_fresh; lia).
  by apply store_whole; lia.
Qed.

End Sessions.

(** C32: whatever bytes arrive, a session neither reads outside its blocks nor
    loops: for any header and any data of the size the header announces, the
    completion handlers return or throw a C++ exception, provided the message
    handler does and makes well-formed responses. *)
Theorem session_reads_any_bytes {H : Type} `{MH : MsgHandler H} `{U : Uninit} (o : options) :
  handler_safe o ->
  (forall (bs : list Z) (s : rpc_session (H:=H)),
    session_ready s -> zlen bs = RPC_REQ_HEADER_SIZE -> Forall byte_ok bs ->
    defined (fst (header_read o (Some bs) s))) /\
  (forall (n : Z) (data hb : list Z) (s : rpc_session (H:=H)),
    handler_set_ s = true -> bytes_of (header_ s) hb -> 0 <= n <= 0x40000000 -> zlen data = n ->
    Forall byte_ok data -> defined (fst (read_log_data o (mkbuf (fresh n) 0) (Some data) s))).
Proof.
  intros HS. split.
  - intros bs s Hs L Hb. by apply (header_read_ends o HS).
  - intros n data hb s Hs Hh Hn L Hd. eapply (read_log_data_ends o HS); [done|done|lia|done|done].
Qed.
