(* ===== verification/RpcClient.v ===== *)
(** xio_service.cc: [xio_rpc_client], the client's end of a connection.

    Several threads run the completion handlers and call [send].  What a client
    still has to do (a request to register, an operation of the socket, a
    continuation behind a lock) is a task; a step takes any task and runs it to
    its next lock or asynchronous operation, so that the runs of the model are
    the interleavings of the code.  A handler [when_done] is a name, and a call of
    it an entry of [dones_]: with a response, or with an exception.  The text of
    exceptions is left out. *)
From S2P Require Import Prelude Buffer Serializer Crc32 Codec Messages Wire.

Definition SEND_RETRY_MAX : Z := 6.

Record pending_req_pkg := mk_pkg {
  pk_req : req_msg;
  pk_when_done : Z;
  pk_timeout_ms : Z
}.

#[global] Instance eta_pkg : Eta pending_req_pkg := fun p =>
  mk_pkg (pk_req p) (pk_when_done p) (pk_timeout_ms p).

(** What was called: a handler with a response, or with an exception ([None]). *)
Inductive done_call := Done (when_done : Z) (rsp : option resp_msg).

Inductive task :=
| T_register (p : pending_req_pkg)
| T_retry (p : pending_req_pkg)
| T_resolve (p : pending_req_pkg)
| T_connect (p : pending_req_pkg)
| T_handshake (p : pending_req_pkg)
| T_write (p : pending_req_pkg) (bs : list Z)
| T_post_send (p : pending_req_pkg)
| T_next_write
| T_read_header (p : pending_req_pkg) (resp_buf : buffer)
| T_read_ctx (p : pending_req_pkg) (rsp : resp_msg) (ctx_buf : buffer) (flags : Z)
| T_post_read
| T_cancel_reads
| T_cancel_writes.

(** What an asynchronous operation completes with: an error, or its result. *)
Inductive outcome := Failed_op | Done_op | Bytes (bs : list Z).

Record rpc_client := mk_rpc_client {
  socket_open_ : bool;
  attempting_conn_ : bool;
  ssl_ready_ : bool;
  num_send_fails_ : Z;
  abandoned_ : bool;
  socket_busy_ : bool;
  op_timer_ : bool;
  pending_read_reqs_ : list pending_req_pkg;
  pending_write_reqs_ : list pending_req_pkg;
  tasks_ : list task;
  dones_ : list done_call
}.

#[global] Instance eta_rpc_client : Eta rpc_client := fun c =>
  mk_rpc_client (socket_open_ c) (attempting_conn_ c) (ssl_ready_ c) (num_send_fails_ c)
    (abandoned_ c) (socket_busy_ c) (op_timer_ c) (pending_read_reqs_ c) (pending_write_reqs_ c)
    (tasks_ c) (dones_ c).

Definition rpc_client_new : rpc_client :=
  mk_rpc_client false false false 0 false false false [] [] [] [].

#[local] Abbreviation CM := (M rpc_client).

Definition add_task (t : task) : CM unit := modify (fun c => c <| tasks_ ::= fun l => l ++ [t] |>).

Definition call_done (h : Z) (rsp : option resp_msg) : CM unit :=
  modify (fun c => c <| dones_ ::= fun l => l ++ [Done h rsp] |>).

Definition is_Bytes (r : outcome) : option (list Z) := match r with Bytes bs => Some bs | _ => None end.

Definition op_failed (r : outcome) : bool := match r with Failed_op => true | _ => false end.

Section Client.
Context `{U : Uninit} (o : options).

(** The flag that a socket is in use; an unexpected value is only reported. *)
Definition set_busy_flag (to : bool) : CM unit :=
  if streaming_mode_ o then ret tt
  else modify (fun c => if Bool.eqb (socket_busy_ c) (negb to) then c <| socket_busy_ := to |> else c).

(** [cancel_pending_requests]: the list is taken under its lock, then the
    handlers are called with an exception. *)
Definition cancel_calls (l : list pending_req_pkg) : list done_call :=
  map (fun p => Done (pk_when_done p) None) l.

Definition cancel_reads : CM unit :=
  modify (fun c => c <| dones_ ::= fun d => d ++ cancel_calls (pending_read_reqs_ c) |>
                     <| pending_read_reqs_ := [] |>) ;;
  add_task T_cancel_writes.

Definition cancel_writes : CM unit :=
  modify (fun c => c <| dones_ ::= fun d => d ++ cancel_calls (pending_write_reqs_ c) |>
                     <| pending_write_reqs_ := [] |>).

(** In streaming mode all pending requests are cancelled, otherwise this one. *)
Definition handle_error (p : pending_req_pkg) : CM unit :=
  if streaming_mode_ o then add_task T_cancel_reads else call_done (pk_when_done p) None.

Definition abandon : CM unit := modify (fun c => c <| abandoned_ := true |>).

Definition start_op_timer (p : pending_req_pkg) : CM unit :=
  if pk_timeout_ms p =? 0 then ret tt else modify (fun c => c <| op_timer_ := true |>).

Definition cancel_op_timer : CM unit := modify (fun c => c <| op_timer_ := false |>).

Definition wait_and_retry (p : pending_req_pkg) : CM unit :=
  modify (fun c => c <| num_send_fails_ ::= Z.add 1 |>) ;; add_task (T_retry p).

Definition register_req_send (p : pending_req_pkg) : CM unit :=
  c <- gets id ;;
  if abandoned_ c then handle_error p
  else if negb (socket_open_ c) then
    (* only one thread opens the connection *)
    if attempting_conn_ c then wait_and_retry p
    else modify (fun c => c <| attempting_conn_ := true |>) ;; add_task (T_resolve p)
  else if enable_ssl_ o && negb (ssl_ready_ c) then wait_and_retry p
  else
    set_busy_flag true ;;
    modify (fun c => c <| num_send_fails_ := 0 |>) ;;
    req_buf <- lift (encode_request o (pk_req p)) ;;
    start_op_timer p ;;
    add_task (T_write p (ztake (size req_buf) (bytes req_buf))).

Definition pre_send (p : pending_req_pkg) : CM unit :=
  modify (fun c => c <| pending_write_reqs_ ::= fun l => l ++ [p] |>) ;;
  c <- gets id ;;
  if zlen (pending_write_reqs_ c) =? 1 then add_task (T_register p) else ret tt.

Definition client_send (p : pending_req_pkg) : CM unit :=
  if streaming_mode_ o then pre_send p else add_task (T_register p).

Definition send_retry (p : pending_req_pkg) (err : bool) : CM unit :=
  c <- gets id ;;
  if err || (SEND_RETRY_MAX <=? num_send_fails_ c) then abandon ;; handle_error p
  else register_req_send p.

(** The resolver, custom or not, has answered; [async_connect] opens the
    socket. *)
Definition resolved (p : pending_req_pkg) (err : bool) : CM unit :=
  if err then handle_error p
  else
    start_op_timer p ;;
    modify (fun c => c <| socket_open_ := true |>) ;;
    add_task (T_connect p).

Definition connected (p : pending_req_pkg) (err : bool) : CM unit :=
  cancel_op_timer ;;
  if err then abandon ;; handle_error p
  else if enable_ssl_ o then add_task (T_handshake p)
  else register_req_send p.

Definition client_handshake (p : pending_req_pkg) (err : bool) : CM unit :=
  if err then abandon ;; handle_error p
  else modify (fun c => c <| ssl_ready_ := true |>) ;; register_req_send p.

Definition register_response_read (p : pending_req_pkg) : CM unit :=
  resp_buf <- lift (alloc RPC_RESP_HEADER_SIZE) ;; add_task (T_read_header p resp_buf).

(** [post_send], up to the lock of the write queue. *)
Definition post_send (p : pending_req_pkg) : CM unit :=
  modify (fun c => c <| pending_read_reqs_ ::= fun l => l ++ [p <| pk_timeout_ms := 0 |>] |>) ;;
  c <- gets id ;;
  (if zlen (pending_read_reqs_ c) =? 1 then register_response_read p else ret tt) ;;
  add_task T_next_write.

Definition next_write : CM unit :=
  modify (fun c => c <| pending_write_reqs_ ::= tail |>) ;;
  c <- gets id ;;
  match pending_write_reqs_ c with
  | [] => ret tt
  | p :: _ => add_task (T_register p)
  end.

Definition sent (p : pending_req_pkg) (err : bool) : CM unit :=
  if err then cancel_op_timer ;; abandon ;; handle_error p
  else if streaming_mode_ o then add_task (T_post_send p)
  else register_response_read p.

Definition post_read : CM unit :=
  if streaming_mode_ o then
    modify (fun c => c <| pending_read_reqs_ ::= tail |>) ;;
    c <- gets id ;;
    match pending_read_reqs_ c with
    | [] => ret tt
    | p :: _ => register_response_read p
    end
  else ret tt.

(** The response is complete. *)
Definition deliver (p : pending_req_pkg) (rsp : resp_msg) : CM unit :=
  cancel_op_timer ;;
  set_busy_flag false ;;
  call_done (pk_when_done p) (Some rsp) ;;
  add_task T_post_read.

Definition resp_meta_ok (p : pending_req_pkg) (rsp : resp_msg) (meta : list Z) : bool :=
  match read_resp_meta_ o with
  | Some f => f (req_to_params (pk_req p) (Some rsp)) meta
  | None => true
  end.

Definition response_read (p : pending_req_pkg) (resp_buf : buffer) (r : outcome) : CM unit :=
  match r with
  | Bytes bs =>
      let resp_buf := run_state (store 0 bs) resp_buf in
      let crc_local :=
        crc32_8 (ztake (RPC_RESP_HEADER_SIZE - CRC_FLAGS_LEN) (bytes resp_buf)) 0 in
      fc <- lift (from_buf (get_flags_and_crc (RPC_RESP_HEADER_SIZE - CRC_FLAGS_LEN)) resp_buf) ;;
      (let '(flags, crc_buf) := fc in
       if negb (crc_local =? crc_buf) then handle_error p
       else
         h <- lift (from_buf (set_spos 1 ;; get_resp_fields) resp_buf) ;;
         (let '(rsp, carried_data_size) := h in
          if negb (has_flag flags INCLUDE_META) && is_some (read_resp_meta_ o)
             && invoke_resp_cb_on_empty_meta_ o && negb (resp_meta_ok p rsp [])
          then handle_error p
          else
            let rsp := if has_flag flags MARK_DOWN
                       then set_resp_extra_flags (Z.lor (rs_extra_flags rsp) SELF_MARK_DOWN) rsp
                       else rsp in
            if carried_data_size =? 0 then deliver p rsp
            else
              ctx_buf <- lift (alloc (u64 carried_data_size)) ;;
              add_task (T_read_ctx p rsp ctx_buf flags)))
  | _ => abandon ;; handle_error p
  end.

(** The error code of the read is not looked at: the buffer is used as it is. *)
Definition ctx_read (p : pending_req_pkg) (rsp : resp_msg) (ctx_buf : buffer) (flags : Z)
    (r : outcome) : CM unit :=
  let ctx_buf := match r with Bytes bs => run_state (store 0 bs) ctx_buf | _ => ctx_buf end in
  if negb (has_flag flags INCLUDE_META) && negb (has_flag flags INCLUDE_HINT)
     && negb (has_flag flags INCLUDE_RESULT_CODE)
  then deliver p (set_ctx (Some (run_state (set_pos 0) ctx_buf)) rsp)
  else
    let composite (meta : list Z) (rest : M serializer resp_msg) :=
      if is_some (read_resp_meta_ o)
         && (negb (match meta with [] => true | _ => false end) || invoke_resp_cb_on_empty_meta_ o)
         && negb (resp_meta_ok p rsp meta)
      then handle_error p
      else rsp <- lift (from_buf rest ctx_buf) ;; deliver p rsp in
    if has_flag flags INCLUDE_META then
      meta <- lift (from_buf sget_bytes ctx_buf) ;;
      composite meta (_ <- sget_bytes ;;
        get_resp_rest flags (s32 (u64 (size ctx_buf - (4 + zlen meta)))) rsp)
    else
      rsp <- lift (from_buf (get_resp_rest flags (s32 (size ctx_buf)) rsp) ctx_buf) ;; deliver p rsp.

(** [cancel_socket]: the operation took too long; the operations of the socket
    then fail. *)
Definition cancel_socket : CM unit :=
  modify (fun c => if socket_open_ c then c <| abandoned_ := true |> else c).

(** Runs a task with the outcome of the operation it waits for. *)
Definition run_task (t : task) (r : outcome) : CM unit :=
  match t with
  | T_register p => register_req_send p
  | T_retry p => send_retry p (op_failed r)
  | T_resolve p => resolved p (op_failed r)
  | T_connect p => connected p (op_failed r)
  | T_handshake p => client_handshake p (op_failed r)
  | T_write p _ => sent p (op_failed r)
  | T_post_send p => post_send p
  | T_next_write => next_write
  | T_read_header p b => response_read p b r
  | T_read_ctx p rsp b flags => ctx_read p rsp b flags r
  | T_post_read => post_read
  | T_cancel_reads => cancel_reads
  | T_cancel_writes => cancel_writes
  end.

(** The bytes of a response arrive: the header, then its context. *)
Definition read_response (p : pending_req_pkg) (bs : list Z) : CM unit := fun c =>
  match (resp_buf <- lift (alloc RPC_RESP_HEADER_SIZE) ;;
         response_read p resp_buf (Bytes (ztake RPC_RESP_HEADER_SIZE bs))) c with
  | (Ok _, c1) =>
      match zdrop RPC_RESP_HEADER_SIZE bs, last (tasks_ c1) with
      | (_ :: _) as rest, Some (T_read_ctx p rsp ctx_buf flags) =>
          ctx_read p rsp ctx_buf flags (Bytes rest) c1
      | _, _ => (Ok tt, c1)
      end
  | r => r
  end.

(** A thread sends a request (the label), a task runs with the outcome [r], or the
    timer of an operation fires; with how the code ends. *)
Inductive cstep : rpc_client -> list pending_req_pkg -> res unit -> rpc_client -> Prop :=
| cs_send p c rc c' : client_send p c = (rc, c') -> cstep c [p] rc c'
| cs_task t r ts1 ts2 c rc c' :
    tasks_ c = ts1 ++ t :: ts2 ->
    run_task t r (c <| tasks_ := ts1 ++ ts2 |>) = (rc, c') -> cstep c [] rc c'
| cs_timer c rc c' :
    op_timer_ c = true -> cancel_socket (c <| op_timer_ := false |>) = (rc, c') -> cstep c [] rc c'.

End Client.
