(* ===== verification/RpcStream.v ===== *)
(** Streaming mode: several requests are on their way on one connection, and the
    responses are given to them in order. *)
From S2P Require Import Prelude Buffer Serializer Crc32 Codec Messages Wire RpcClient.

Definition done_handler (d : done_call) : Z := match d with Done h _ => h end.

Definition done_ok (d : done_call) : Prop := match d with Done _ rsp => is_Some rsp end.

(** Nothing has failed. *)
Definition no_failure (c : rpc_client) : Prop :=
  abandoned_ c = false /\ Forall (fun t => t <> T_cancel_reads /\ t <> T_cancel_writes) (tasks_ c).

Section Streaming.
Context `{U : Uninit} (o : options).

(** The runs in which nothing fails, with the requests sent in them. *)
Inductive healthy : list pending_req_pkg -> rpc_client -> Prop :=
| healthy_new : healthy [] rpc_client_new
| healthy_step sends c lab c' :
    healthy sends c -> cstep o c lab (Ok tt) c' -> no_failure c' -> healthy (sends ++ lab) c'.

(** * The two sides of a connection *)

(** A task of the write side carries the request at the head of its queue. *)
Definition wtask (t : task) : bool :=
  match t with
  | T_register _ | T_retry _ | T_resolve _ | T_connect _ | T_handshake _ | T_write _ _
  | T_post_send _ | T_next_write => true
  | _ => false
  end.

Definition rtask (t : task) : bool :=
  match t with T_read_header _ _ | T_read_ctx _ _ _ _ | T_post_read => true | _ => false end.

Definition carries (t : task) (w : pending_req_pkg) : Prop :=
  match t with
  | T_register p | T_retry p | T_resolve p | T_connect p | T_handshake p | T_write p _
  | T_post_send p => p = w
  | _ => False
  end.

Definition reads (t : task) (r : pending_req_pkg) : Prop :=
  match t with
  | T_read_header p _ | T_read_ctx p _ _ _ => pk_when_done p = pk_when_done r
  | _ => False
  end.

(** The tasks of a side, its queue, and the requests still to be written, or
    answered. *)
Inductive wside : list task -> list pending_req_pkg -> list pending_req_pkg -> Prop :=
| ws_idle : wside [] [] []
| ws_busy t w l : carries t w -> wside [t] (w :: l) (w :: l)
| ws_sent w l : wside [T_next_write] (w :: l) l.

Inductive rside : list task -> list pending_req_pkg -> list pending_req_pkg -> Prop :=
| rs_idle : rside [] [] []
| rs_busy t r l : reads t r -> rside [t] (r :: l) (r :: l)
| rs_done r l : rside [T_post_read] (r :: l) l.

Record stream_inv (sends : list pending_req_pkg) (c : rpc_client) : Prop := {
  si_tasks : Forall (fun t => wtask t || rtask t = true) (tasks_ c);
  si_dones : Forall done_ok (dones_ c);
  si_sides : exists ws rs,
    wside (List.filter wtask (tasks_ c)) (pending_write_reqs_ c) ws /\
    rside (List.filter rtask (tasks_ c)) (pending_read_reqs_ c) rs /\
    map done_handler (dones_ c) ++ map pk_when_done rs ++ map pk_when_done ws
    = map pk_when_done sends
}.

Lemma stream_inv_new : stream_inv [] rpc_client_new.
Proof. split; [constructor..|]. exists [], []. repeat split; constructor. Qed.

Hypothesis (Hst : streaming_mode_ o = true).

Lemma stream_send_inv sends c p c' :
  stream_inv sends c -> client_send o p c = (Ok tt, c') -> stream_inv (sends ++ [p]) c'.
Proof.
  intros [Ht Hd (ws & rs & Hw & Hr & E)]. unfold client_send. rewrite Hst.
  unfold pre_send, bind, modify, gets, id. cbn [pending_write_reqs_ upd].
  assert (forall q, map done_handler (dones_ c) ++ map pk_when_done rs ++ map pk_when_done (ws ++ q)
    = map pk_when_done (sends ++ q)) as Eq by (intros q; by rewrite !map_app, !app_assoc, <- E, app_assoc).
  rewrite zlen_app. destruct (pending_write_reqs_ c) as [|w l] eqn:Ew.
  - cbn. intros [= <-].
    assert (List.filter wtask (tasks_ c) = [] /\ ws = []) as [F ->] by by inversion Hw. split; cbn [tasks_ dones_ upd].
    + apply Forall_app_2; [done|by constructor].
    + done.
    + exists [p], rs. cbn [pending_write_reqs_ pending_read_reqs_ upd]. rewrite Ew, !List.filter_app, F.
      cbn. rewrite app_nil_r. split_and!; [by constructor|done|apply (Eq [p])].
  - rewrite eqb_false by zlen_lia. intros [= <-]. split; [done..|].
    exists (ws ++ [p]), rs. cbn [pending_write_reqs_ pending_read_reqs_ tasks_ dones_ upd]. rewrite Ew.
    split_and!; [|done|apply Eq]. inversion Hw; subst; by constructor.
Qed.

(** * Tasks *)

(** A step that only adds tasks. *)
Definition adds (new : list task) (c c' : rpc_client) : Prop :=
  tasks_ c' = tasks_ c ++ new /\ pending_write_reqs_ c' = pending_write_reqs_ c /\
  pending_read_reqs_ c' = pending_read_reqs_ c /\ dones_ c' = dones_ c.

Lemma no_cancel ts c : tasks_ c = ts ++ [T_cancel_reads] -> no_failure c -> False.
Proof.
  intros E [_ H]. rewrite E in H. apply Forall_app in H as [_ H]. apply Forall_cons in H as [[H _] _].
  by apply H.
Qed.

Ltac run_client :=
  repeat first
    [ progress cbv [bind gets id modify add_task call_done handle_error abandon cancel_op_timer
        start_op_timer set_busy_flag wait_and_retry lift ret]
    | rewrite Hst
    | match goal with
      | |- context [if ?b then _ else _] => destruct b eqn:?
      | |- context [match ?r with Ok _ => _ | Throw _ => _ end] => destruct r eqn:?
      end
    | progress cbn [abandoned_ socket_open_ attempting_conn_ ssl_ready_ op_timer_ num_send_fails_
        socket_busy_ upd] ].

Lemma register_adds p c c' :
  register_req_send o p c = (Ok tt, c') -> no_failure c' -> exists t, carries t p /\ adds [t] c c'.
Proof.
  unfold register_req_send. run_client; intros [= <-] Hn.
  all: try (exfalso; eapply no_cancel; [|exact Hn]; reflexivity).
  all: eexists; split; [|split_and!; reflexivity]; done.
Qed.

(** The write side up to the completion of the write. *)
Definition write_op (t : task) : bool :=
  match t with
  | T_register _ | T_retry _ | T_resolve _ | T_connect _ | T_handshake _ | T_write _ _ => true
  | _ => false
  end.

Lemma write_op_adds t w r c c' :
  write_op t = true -> carries t w -> run_task o t r c = (Ok tt, c') -> no_failure c' ->
  exists t', carries t' w /\ adds [t'] c c'.
Proof.
  intros Ht Hc. destruct t; try done; cbn in Hc; subst p; cbn [run_task]; try apply register_adds.
  - unfold send_retry, bind at 1, gets, id. destruct (_ || _); [|apply register_adds].
    run_client; intros [= <-] Hn. exfalso; eapply no_cancel; [|exact Hn]; reflexivity.
  - unfold resolved. run_client; intros [= <-] Hn.
    all: try (exfalso; eapply no_cancel; [|exact Hn]; reflexivity).
    all: eexists; split; [|split_and!; reflexivity]; done.
  - unfold connected. unfold bind at 1, cancel_op_timer, modify at 1. destruct (op_failed r); [|destruct (enable_ssl_ o)].
    + run_client; intros [= <-] Hn. exfalso; eapply no_cancel; [|exact Hn]; reflexivity.
    + intros [= <-] Hn. eexists; split; [|split_and!; reflexivity]; done.
    + intros E Hn. destruct (register_adds _ _ _ E Hn) as (t & ? & ?). by exists t.
  - unfold client_handshake. destruct (op_failed r).
    + run_client; intros [= <-] Hn. exfalso; eapply no_cancel; [|exact Hn]; reflexivity.
    + unfold bind at 1, modify at 1. intros E Hn. destruct (register_adds _ _ _ E Hn) as (t & ? & ?). by exists t.
  - unfold sent. rewrite Hst. destruct (op_failed r).
    + run_client; intros [= <-] Hn. exfalso; eapply no_cancel; [|exact Hn]; reflexivity.
    + intros [= <-] Hn. eexists; split; [|split_and!; reflexivity]; done.
Qed.

(** A complete response is delivered, or its context is read. *)
Definition delivers (p : pending_req_pkg) (c c' : rpc_client) : Prop :=
  exists rsp, dones_ c' = dones_ c ++ [Done (pk_when_done p) (Some rsp)] /\
    tasks_ c' = tasks_ c ++ [T_post_read] /\ pending_write_reqs_ c' = pending_write_reqs_ c /\
    pending_read_reqs_ c' = pending_read_reqs_ c.

Lemma deliver_delivers p rsp c c' : deliver o p rsp c = (Ok tt, c') -> delivers p c c'.
Proof. unfold deliver. run_client. intros [= <-]. by exists rsp. Qed.

Lemma error_fails p c c' : handle_error o p c = (Ok tt, c') -> no_failure c' -> False.
Proof. unfold handle_error. rewrite Hst. intros [= <-] Hn. eapply no_cancel; [|exact Hn]; reflexivity. Qed.

Lemma abandon_fails p c c' : (abandon ;; handle_error o p) c = (Ok tt, c') -> no_failure c' -> False.
Proof. unfold bind at 1, abandon, modify. apply error_fails. Qed.

(** A computation without state that returns. *)
Lemma lift_ok {A} (r : res A) (k : A -> M rpc_client unit) c c' :
  bind (lift r) k c = (Ok tt, c') -> exists a, k a c = (Ok tt, c').
Proof. unfold bind, lift. destruct r as [a|e]; [by exists a|done]. Qed.

Lemma response_read_delivers p b r c c' :
  response_read o p b r c = (Ok tt, c') -> no_failure c' ->
  delivers p c c' \/ exists rsp b flags, adds [T_read_ctx p rsp b flags] c c'.
Proof.
  intros E Hn. destruct r; cbn [response_read] in E; try (exfalso; by eapply abandon_fails).
  cbv zeta in E. apply lift_ok in E as ((flags & crc) & E).
  destruct (negb _); [exfalso; by eapply error_fails|].
  apply lift_ok in E as ((rsp & n) & E). destruct (_ && _); [exfalso; by eapply error_fails|].
  destruct (n =? 0); [left; by eapply deliver_delivers|].
  apply lift_ok in E as (ctx & E). right. injection E as <-. by eexists _, _, _.
Qed.

Lemma ctx_read_delivers p rsp b flags r c c' :
  ctx_read o p rsp b flags r c = (Ok tt, c') -> no_failure c' -> delivers p c c'.
Proof.
  unfold ctx_read. cbv zeta. intros E Hn. destruct (_ && _); [by eapply deliver_delivers|].
  destruct (has_flag flags INCLUDE_META).
  - apply lift_ok in E as (meta & E). destruct (_ && _); [exfalso; by eapply error_fails|].
    apply lift_ok in E as (rsp' & E). by eapply deliver_delivers.
  - apply lift_ok in E as (rsp' & E). by eapply deliver_delivers.
Qed.

(** * The invariant *)

Lemma one_task (f : task -> bool) ts1 t ts2 :
  f t = true -> (length (List.filter f (ts1 ++ t :: ts2)) <= 1)%nat ->
  List.filter f (ts1 ++ t :: ts2) = [t] /\ List.filter f (ts1 ++ ts2) = [].
Proof.
  intros Ht. rewrite !List.filter_app. cbn. rewrite Ht, length_app. cbn. intros L.
  destruct (List.filter f ts1), (List.filter f ts2); cbn in *; try lia. done.
Qed.

Lemma other_task (f : task -> bool) ts1 t ts2 :
  f t = false -> List.filter f (ts1 ++ t :: ts2) = List.filter f (ts1 ++ ts2).
Proof. intros Ht. rewrite !List.filter_app. cbn. by rewrite Ht. Qed.

Lemma wside_one ts q l : wside ts q l -> (length ts <= 1)%nat.
Proof. destruct 1; cbn; lia. Qed.

Lemma rside_one ts q l : rside ts q l -> (length ts <= 1)%nat.
Proof. destruct 1; cbn; lia. Qed.

Lemma carries_wtask t w : carries t w -> wtask t = true /\ rtask t = false.
Proof. by destruct t. Qed.

Lemma reads_rtask t r : reads t r -> rtask t = true /\ wtask t = false.
Proof. by destruct t. Qed.

Lemma response_read_registers p c :
  exists b, register_response_read p c = (Ok tt, c <| tasks_ ::= fun l => l ++ [T_read_header p b] |>).
Proof.
  unfold register_response_read, bind, lift. rewrite alloc_ok by done. by eexists.
Qed.

Lemma post_send_adds p c c' :
  post_send p c = (Ok tt, c') ->
  exists new, tasks_ c' = tasks_ c ++ new ++ [T_next_write] /\ dones_ c' = dones_ c /\
    pending_write_reqs_ c' = pending_write_reqs_ c /\
    pending_read_reqs_ c' = pending_read_reqs_ c ++ [p <| pk_timeout_ms := 0 |>] /\
    (match pending_read_reqs_ c with [] => exists b, new = [T_read_header p b] | _ => new = [] end).
Proof.
  unfold post_send. unfold bind at 1, modify. unfold bind at 1, gets, id.
  cbn [pending_read_reqs_ upd]. destruct (pending_read_reqs_ c) as [|q l] eqn:Er.
  - cbn [app]. change (zlen [_] =? 1) with true. cbn iota. unfold bind.
    match goal with |- context [register_response_read p ?x] =>
      destruct (response_read_registers p x) as (b & ->) end.
    intros [= <-]. exists [T_read_header p b]. cbn. rewrite Er, <- app_assoc. split_and!; try done.
    by exists b.
  - rewrite eqb_false by zlen_lia. intros [= <-]. exists []. cbn. by rewrite Er.
Qed.

(** The invariant after a step that leaves the tasks [ts] and adds [new]. *)
Lemma inv_of sends c ts new ws rs wt rt :
  tasks_ c = ts ++ new -> Forall (fun t => wtask t || rtask t = true) ts ->
  Forall (fun t => wtask t || rtask t = true) new -> Forall done_ok (dones_ c) ->
  List.filter wtask ts = wt -> List.filter rtask ts = rt ->
  wside (wt ++ List.filter wtask new) (pending_write_reqs_ c) ws ->
  rside (rt ++ List.filter rtask new) (pending_read_reqs_ c) rs ->
  map done_handler (dones_ c) ++ map pk_when_done rs ++ map pk_when_done ws = map pk_when_done sends ->
  stream_inv sends c.
Proof.
  intros Et H1 H2 Hd <- <- Hw Hr E. split; [rewrite Et; by apply Forall_app_2|done|].
  exists ws, rs. by rewrite Et, !List.filter_app.
Qed.

Lemma write_task_inv sends c c' t r ts1 ts2 :
  stream_inv sends c -> tasks_ c = ts1 ++ t :: ts2 -> wtask t = true ->
  run_task o t r (c <| tasks_ := ts1 ++ ts2 |>) = (Ok tt, c') -> no_failure c' -> stream_inv sends c'.
Proof.
  intros [Ht Hd (ws & rs & Hw & Hr & E)] Et Hwt Erun Hn. rewrite Et in Ht, Hw, Hr.
  destruct (one_task wtask ts1 t ts2 Hwt (wside_one _ _ _ Hw)) as [F F0]. rewrite F in Hw.
  rewrite other_task in Hr by by destruct t.
  assert (Forall (fun t => wtask t || rtask t = true) (ts1 ++ ts2)) as Hts.
  { apply Forall_app in Ht as [? Ht]. apply Forall_cons in Ht as [_ ?]. by apply Forall_app_2. }
  set (c0 := c <| tasks_ := ts1 ++ ts2 |>) in *.
  inversion Hw as [|t' w l Hc Et' Eq|w l Et' Eq]; subst.
  - destruct (write_op t) eqn:Hop.
    + destruct (write_op_adds t w r c0 c' Hop Hc Erun Hn) as (t' & Hc' & A1 & A2 & A3 & A4).
      destruct (carries_wtask _ _ Hc') as [W1 W2].
      apply (inv_of _ _ (ts1 ++ ts2) [t'] (w :: l) rs [] (List.filter rtask (ts1 ++ ts2))); try done.
      * constructor; [by rewrite W1|done].
      * by rewrite A4.
      * cbn. rewrite W1, A2. cbn. rewrite <- Eq. by constructor.
      * cbn. rewrite W2, app_nil_r, A3. done.
      * by rewrite A4.
    + destruct t; try done. cbn in Hc. subst p.
      destruct (post_send_adds _ _ _ Erun) as (new & A1 & A2 & A3 & A4 & A5). cbn in A1, A2, A3, A4, A5.
      assert (rside (List.filter rtask (ts1 ++ ts2) ++ List.filter rtask new)
        (pending_read_reqs_ c') (rs ++ [w <| pk_timeout_ms := 0 |>]) /\ List.filter wtask new = []
        /\ Forall (fun t => wtask t || rtask t = true) new) as (Hr' & Hnw & Hnf).
      { rewrite A4. destruct (pending_read_reqs_ c) as [|q lq] eqn:Er.
        - destruct A5 as (b & ->). assert (List.filter rtask (ts1 ++ ts2) = [] /\ rs = []) as [-> ->]
            by by inversion Hr. split_and!; [by constructor|done|by constructor].
        - subst new. rewrite app_nil_r. split_and!; [|done|done]. by inversion Hr; subst; constructor. }
      apply (inv_of _ _ (ts1 ++ ts2) (new ++ [T_next_write]) l (rs ++ [w <| pk_timeout_ms := 0 |>])
        [] (List.filter rtask (ts1 ++ ts2))); try done.
      * apply Forall_app_2; [done|by constructor].
      * by rewrite A2.
      * rewrite List.filter_app, Hnw, A3. cbn. rewrite <- Eq. constructor.
      * rewrite (List.filter_app rtask new). cbn. by rewrite app_nil_r.
      * rewrite A2, <- E, map_app. cbn. by rewrite <- app_assoc.
  - cbn in Erun. unfold next_write, bind, modify, gets, id in Erun. cbn in Erun. rewrite <- Eq in Erun. cbn in Erun.
    destruct ws as [|w2 ws]; injection Erun as <-.
    + apply (inv_of _ _ (ts1 ++ ts2) [] [] rs [] (List.filter rtask (ts1 ++ ts2))); try done; cbn.
      * by rewrite app_nil_r.
      * rewrite <- Eq. constructor.
      * by rewrite app_nil_r.
    + apply (inv_of _ _ (ts1 ++ ts2) [T_register w2] (w2 :: ws) rs [] (List.filter rtask (ts1 ++ ts2))); try done; cbn.
      * by constructor.
      * rewrite <- Eq. by constructor.
      * by rewrite app_nil_r.
Qed.

Lemma read_task_inv sends c c' t r ts1 ts2 :
  stream_inv sends c -> tasks_ c = ts1 ++ t :: ts2 -> rtask t = true ->
  run_task o t r (c <| tasks_ := ts1 ++ ts2 |>) = (Ok tt, c') -> no_failure c' -> stream_inv sends c'.
Proof.
  intros [Ht Hd (ws & rs & Hw & Hr & E)] Et Hrt Erun Hn. rewrite Et in Ht, Hw, Hr.
  destruct (one_task rtask ts1 t ts2 Hrt (rside_one _ _ _ Hr)) as [F F0]. rewrite F in Hr.
  rewrite other_task in Hw by by destruct t.
  assert (Forall (fun t => wtask t || rtask t = true) (ts1 ++ ts2)) as Hts.
  { apply Forall_app in Ht as [? Ht]. apply Forall_cons in Ht as [_ ?]. by apply Forall_app_2. }
  set (c0 := c <| tasks_ := ts1 ++ ts2 |>) in *.
  inversion Hr as [|t' q l Hc Et' Eq|q l Et' Eq]; subst.
  - assert (delivers q c0 c' \/ exists t', reads t' q /\ adds [t'] c0 c') as [(rsp & A1 & A2 & A3 & A4)|(t' & Hc' & A1 & A2 & A3 & A4)].
    { destruct t; try done; cbn in Hc, Erun; unfold delivers; rewrite <- Hc.
      - destruct (response_read_delivers _ _ _ _ _ Erun Hn) as [D|(rsp & b & fl & A)]; [by left|].
        right. by exists (T_read_ctx p rsp b fl).
      - left. by eapply ctx_read_delivers. }
    + apply (inv_of _ _ (ts1 ++ ts2) [T_post_read] ws l (List.filter wtask (ts1 ++ ts2)) []); try done.
      * by constructor.
      * rewrite A1. apply Forall_app_2; [done|]. by constructor; [eexists|].
      * cbn. rewrite app_nil_r, A3. done.
      * cbn. rewrite A4. cbn. rewrite <- Eq. constructor.
      * rewrite A1, <- E, map_app. cbn. by rewrite <- !app_assoc.
    + destruct (reads_rtask _ _ Hc') as [R1 R2].
      apply (inv_of _ _ (ts1 ++ ts2) [t'] ws (q :: l) (List.filter wtask (ts1 ++ ts2)) []); try done.
      * constructor; [by rewrite R2|done].
      * by rewrite A4.
      * cbn. rewrite R2, app_nil_r, A2. done.
      * cbn. rewrite R1, A3. cbn. rewrite <- Eq. by constructor.
      * by rewrite A4.
  - cbn in Erun. unfold post_read in Erun. rewrite Hst in Erun. unfold bind, modify, gets, id in Erun.
    cbn in Erun. rewrite <- Eq in Erun. cbn in Erun. destruct rs as [|q2 rs].
    + injection Erun as <-.
      apply (inv_of _ _ (ts1 ++ ts2) [] ws [] (List.filter wtask (ts1 ++ ts2)) []); try done; cbn.
      * by rewrite app_nil_r.
      * by rewrite app_nil_r.
      * rewrite <- Eq. constructor.
    + match type of Erun with register_response_read _ ?x = _ =>
        destruct (response_read_registers q2 x) as (b & Eb) end.
      rewrite Eb in Erun. injection Erun as <-.
      apply (inv_of _ _ (ts1 ++ ts2) [T_read_header q2 b] ws (q2 :: rs) (List.filter wtask (ts1 ++ ts2)) []);
        try done; cbn.
      * by constructor.
      * by rewrite app_nil_r.
      * rewrite <- Eq. by constructor.
Qed.

Lemma cstep_inv sends c lab c' :
  stream_inv sends c -> cstep o c lab (Ok tt) c' -> no_failure c' -> stream_inv (sends ++ lab) c'.
Proof.
  intros Hi Hc Hn. inversion Hc as [? ? ? ? E|t r ts1 ts2 ? ? ? Et E|? ? ? Et E]; subst.
  - by eapply stream_send_inv.
  - rewrite app_nil_r. pose proof (si_tasks _ _ Hi) as Ht. rewrite Et in Ht.
    apply Forall_app in Ht as [_ Ht]. apply Forall_cons in Ht as [Ht _].
    apply orb_true_iff in Ht as [Ht|Ht]; [by eapply write_task_inv|by eapply read_task_inv].
  - rewrite app_nil_r. unfold cancel_socket, modify in E. injection E as <-.
    destruct Hi as [? ? (ws & rs & ?)]. cbn. by destruct (socket_open_ c); split; try done; exists ws, rs.
Qed.

Lemma healthy_inv sends c : healthy sends c -> stream_inv sends c.
Proof. induction 1; [apply stream_inv_new|by eapply cstep_inv]. Qed.

End Streaming.

(** C33: in streaming mode, while nothing fails, the responses are given to the
    requests in the order they were sent in, each once: at any time the handlers
    called are those of the first requests, and when nothing is left to do they
    are all called; at most one write and one read of the socket are pending. *)
Theorem streaming_in_order `{U : Uninit} (o : options) (sends : list pending_req_pkg) (c : rpc_client) :
  streaming_mode_ o = true -> healthy o sends c ->
  (exists waiting, map pk_when_done sends = map done_handler (dones_ c) ++ waiting) /\
  Forall done_ok (dones_ c) /\
  (tasks_ c = [] -> map pk_when_done sends = map done_handler (dones_ c)) /\
  (length (List.filter wtask (tasks_ c)) <= 1)%nat /\ (length (List.filter rtask (tasks_ c)) <= 1)%nat.
Proof.
  intros Hst Hh. destruct (healthy_inv o Hst _ _ Hh) as [Ht Hd (ws & rs & Hw & Hr & E)].
  split_and!; [by eexists|done| |by eapply wside_one|by eapply rside_one].
  intros Et. rewrite Et in Hw, Hr. inversion Hw; inversion Hr; subst. by rewrite <- E, app_nil_r.
Qed.
