(* ===== verification/ResponseOk.v ===== *)
(** Responses over the wire: what [on_resp_ready] writes is what [response_read]
    and [ctx_read] deliver. *)
From S2P Require Import Prelude Buffer Serializer Crc32 Codec Messages Wire WireOk RpcClient.

(** * The bytes of a response *)

Definition resp_fields_bytes (resp : resp_msg) (data_size : Z) : list Z :=
  put_order LITTLE 1 (msg_type_val (rs_type resp))
  ++ put_order LITTLE 4 (rs_src resp) ++ put_order LITTLE 4 (rs_dst resp)
  ++ put_order LITTLE 8 (rs_term resp) ++ put_order LITTLE 8 (rs_next_idx resp)
  ++ put_order LITTLE 1 (b2z (rs_accepted resp)) ++ put_order LITTLE 4 data_size.

Definition resp_header_bytes (resp : resp_msg) (data_size : Z) : list Z :=
  put_order LITTLE 1 0x1 ++ resp_fields_bytes resp data_size.

Definition hint_bytes (hint : Z) : list Z :=
  if hint =? 0 then []
  else put_order LITTLE 2 0 ++ put_order LITTLE 2 8 ++ put_order LITTLE 8 hint.

Definition ctx_data (ctx : option buffer) : list Z :=
  match ctx with Some b => bytes b | None => [] end.

Definition code_bytes (c : bool) (code : cmd_result_code) : list Z :=
  if c then put_order LITTLE 4 (result_code_val code) else [].

Definition resp_rest_bytes (req : req_msg) (resp : resp_msg) : list Z :=
  hint_bytes (rs_next_batch_size_hint_in_bytes resp) ++ ctx_data (rs_ctx resp)
  ++ code_bytes (with_result_code (rq_type req)) (rs_result_code resp).

Definition resp_payload (o : options) (req : req_msg) (resp : resp_msg) : list Z :=
  meta_bytes (resp_meta o req resp) ++ resp_rest_bytes req resp.

Definition wire_response (o : options) (req : req_msg) (resp : resp_msg) : list Z :=
  let hdr := resp_header_bytes resp (zlen (resp_payload o req resp)) in
  hdr ++ put_order LITTLE 8 (flags_and_crc (resp_flags req resp (resp_meta o req resp)) (crc32_8 hdr 0))
  ++ resp_payload o req resp.

(** The fields are in the range of their types and the context is a block. *)
Record resp_ok (o : options) (req : req_msg) (resp : resp_msg) : Prop := {
  po_type : msg_type_of (msg_type_val (rs_type resp)) = rs_type resp;
  po_type_byte : is_u8 (msg_type_val (rs_type resp));
  po_src : is_s32 (rs_src resp);
  po_dst : is_s32 (rs_dst resp);
  po_term : is_u64 (rs_term resp);
  po_next : is_u64 (rs_next_idx resp);
  po_hint : is_s64 (rs_next_batch_size_hint_in_bytes resp);
  po_ctx : match rs_ctx resp with Some b => exists l p, b = mkbuf l p /\ in_block l p | None => True end;
  po_code : result_code_of (result_code_val (rs_result_code resp)) = rs_result_code resp;
  po_code_int : is_s32 (result_code_val (rs_result_code resp));
  po_size : zlen (resp_payload o req resp) < 2 ^ 31 - 64
}.

(** What arrives: the peer it came through is not sent, the result code only with
    some requests, an empty context not at all. *)
Definition wire_resp (req : req_msg) (resp : resp_msg) : resp_msg :=
  mk_resp_msg (rs_base resp) (rs_next_idx resp) (rs_next_batch_size_hint_in_bytes resp)
    (rs_accepted resp)
    (match ctx_data (rs_ctx resp) with [] => None | d => Some (mkbuf d 0) end) None
    (if with_result_code (rq_type req) then rs_result_code resp else OK)
    (if has_flag (rs_extra_flags resp) SELF_MARK_DOWN then SELF_MARK_DOWN else 0).

(** * Writing *)

Section Writing.
Context `{U : Uninit} (o : options) (req : req_msg) (resp : resp_msg).

#[local] Abbreviation meta := (resp_meta o req resp).
#[local] Abbreviation n := (zlen (resp_payload o req resp)).
#[local] Abbreviation hint := (rs_next_batch_size_hint_in_bytes resp).
#[local] Abbreviation coded := (with_result_code (rq_type req)).

Lemma resp_flags_spec :
  let f := resp_flags req resp meta in
  is_u32 f /\
  has_flag f INCLUDE_META = negb (no_meta meta) /\
  has_flag f INCLUDE_HINT = negb (hint =? 0) /\
  has_flag f INCLUDE_RESULT_CODE = coded /\
  has_flag f MARK_DOWN = has_flag (rs_extra_flags resp) SELF_MARK_DOWN.
Proof.
  unfold resp_flags, no_meta. destruct meta, (hint =? 0), coded,
    (has_flag (rs_extra_flags resp) SELF_MARK_DOWN); by vm_compute.
Qed.

Lemma zlen_resp_header m : zlen (resp_header_bytes resp m) = RPC_RESP_HEADER_SIZE - CRC_FLAGS_LEN.
Proof. unfold resp_header_bytes, resp_fields_bytes. change (_ - _) with 31. zlen_lia. Qed.

Lemma resp_header_bytes_ok m : Forall byte_ok (resp_header_bytes resp m).
Proof. unfold resp_header_bytes, resp_fields_bytes. repeat apply Forall_app_2; auto with xio. Qed.

Lemma swrites_resp_header m : swrites LITTLE (put_resp_header resp m) (resp_header_bytes resp m).
Proof.
  unfold put_resp_header, resp_header_bytes, resp_fields_bytes.
  repeat (eapply swrites_bind; [apply swrites_uint|]). apply swrites_uint.
Qed.

Hypothesis (Hr : resp_ok o req resp).

Lemma ctx_size_len : ctx_size (rs_ctx resp) = zlen (ctx_data (rs_ctx resp)).
Proof.
  unfold ctx_size, ctx_data. pose proof (po_ctx _ _ _ Hr) as Hc. destruct (rs_ctx resp) as [b|]; [|done].
  destruct Hc as (l & p & -> & Hb). rewrite mkbuf_size, mkbuf_bytes by done. destruct Hb.
  apply s32_small. unfold_width. lia.
Qed.

Lemma swrites_ctx :
  swrites LITTLE (when_put (negb (ctx_size (rs_ctx resp) =? 0)) (put_ctx (rs_ctx resp)))
    (ctx_data (rs_ctx resp)).
Proof.
  rewrite ctx_size_len. destruct (Z.eqb_spec (zlen (ctx_data (rs_ctx resp))) 0) as [E|E]; cbn [negb when_put].
  - rewrite (zlen_0_nil _ E). apply swrites_nil.
  - pose proof (po_ctx _ _ _ Hr) as Hc. unfold put_ctx, ctx_data in *.
    destruct (rs_ctx resp) as [b|]; [|apply swrites_nil].
    destruct Hc as (l & p & -> & Hb). unfold run_state. rewrite mkbuf_set_pos by (done || lia).
    destruct Hb. rewrite Z.min_l by lia. cbn [snd]. unfold put_buffer.
    rewrite remaining_mkbuf, mkbuf_bytes by (split; lia). apply swrites_raw.
Qed.

Lemma swrites_hint :
  swrites LITTLE (when_put (negb (hint =? 0)) (put_hint hint)) (hint_bytes hint).
Proof.
  unfold hint_bytes. destruct (hint =? 0); cbn [negb when_put]; [apply swrites_nil|].
  unfold put_hint. repeat (eapply swrites_bind; [apply swrites_uint|]). apply swrites_uint.
Qed.

Lemma put_response_ok old :
  zlen old = RPC_RESP_HEADER_SIZE + n ->
  exists q,
    put_response resp meta n (resp_flags req resp meta) (mkser LITTLE old 0 0)
    = (Ok tt, mkser LITTLE (wire_response o req resp) q 0).
Proof.
  intros E. pose proof (po_size _ _ _ Hr) as L.
  destruct resp_flags_spec as (Hf & Fm & Fh & Fc & _). cbv zeta in *. zlen_facts.
  assert (zlen meta < 2 ^ 31) as Lm.
  { revert L. unfold resp_payload. rewrite zlen_app, zlen_meta_bytes. unfold meta_size.
    pose proof (zlen_nonneg (resp_rest_bytes req resp)). destruct meta; zlen_lia. }
  pose proof (swrites_resp_header n) as Sh. pose proof (zlen_resp_header n) as Lh.
  unfold wire_response. cbv zeta. set (hdr := resp_header_bytes resp n) in *.
  change (_ - _) with 31 in Lh. change RPC_RESP_HEADER_SIZE with 39 in *. clearbody hdr.
  destruct (zsplit 31 old) as (o1 & old1 & -> & L1); [lia|]. rewrite zlen_app in E.
  destruct (zsplit 8 old1) as (o2 & o3 & -> & L2); [lia|]. rewrite zlen_app in E.
  unfold put_response, bind at 1. rewrite (swrites_start _ hdr o1 (o2 ++ o3) Sh) by zlen_lia.
  unfold bind at 1. rewrite load_start by done. rewrite Lh. unfold bind at 1.
  rewrite (swrites_at _ _ hdr o2 o3 31 (swrites_u64 _)) by zlen_lia. rewrite put_order_len.
  set (word := put_order LITTLE 8 _). assert (zlen word = 8) as Lw by apply put_order_len. clearbody word.
  replace (31 + Z.of_nat 8) with 39 by lia. rewrite (app_assoc hdr word), <- (app_nil_r o3).
  rewrite (swrites_at _ (resp_payload o req resp) (hdr ++ word) o3 [] 39).
  - rewrite app_nil_r, <- app_assoc. by eexists.
  - unfold resp_payload, resp_rest_bytes. rewrite Fm, Fh, Fc.
    apply swrites_bind; [apply swrites_meta; [by destruct meta|done]|].
    apply swrites_bind; [apply swrites_hint|]. apply swrites_bind; [apply swrites_ctx|].
    unfold code_bytes. apply swrites_when. intros _. apply swrites_uint.
  - zlen_lia.
  - lia.
  - zlen_lia.
Qed.

Lemma encode_response_ok : encode_response o req resp = Ok (mkbuf (wire_response o req resp) 0).
Proof.
  pose proof (po_size _ _ _ Hr) as L. zlen_facts. unfold encode_response. cbv zeta.
  assert (meta_size meta + hint_size resp + ctx_size (rs_ctx resp) + (if coded then 4 else 0) = n) as ->.
  { unfold resp_payload, resp_rest_bytes, hint_bytes, hint_size, code_bytes. rewrite ctx_size_len.
    destruct (hint =? 0), coded; zlen_lia. }
  rewrite (u64_small n) by (unfold_width; lia). change RPC_RESP_HEADER_SIZE with 39.
  rewrite (u64_small (39 + n)), (s32_small (39 + n)), u64_small by (unfold_width; lia).
  unfold sbuild. rewrite alloc_ok by lia. cbn [rbind].
  change (buffer_serializer LITTLE ?b) with (mkser LITTLE (fresh (39 + n)) 0 0).
  destruct (put_response_ok (fresh (39 + n))) as (q & ->); [|done].
  change RPC_RESP_HEADER_SIZE with 39. apply zlen_fresh. lia.
Qed.

End Writing.

(** * Reading *)

Section Reading.
Context `{U : Uninit} (os o : options) (req : req_msg) (resp : resp_msg).
Hypothesis (Hr : resp_ok os req resp).

#[local] Abbreviation meta := (resp_meta os req resp).
#[local] Abbreviation n := (zlen (resp_payload os req resp)).
#[local] Abbreviation hint := (rs_next_batch_size_hint_in_bytes resp).
#[local] Abbreviation coded := (with_result_code (rq_type req)).
#[local] Abbreviation flags := (resp_flags req resp meta).
#[local] Abbreviation hdr := (resp_header_bytes resp n).
#[local] Abbreviation word := (put_order LITTLE 8 (flags_and_crc flags (crc32_8 hdr 0))).

(** The response of the header alone. *)
Definition resp_head : resp_msg :=
  resp_msg_new (rs_term resp) (rs_type resp) (rs_src resp) (rs_dst resp) (rs_next_idx resp)
    (rs_accepted resp).

Definition resp_marked : resp_msg :=
  if has_flag (rs_extra_flags resp) SELF_MARK_DOWN
  then set_resp_extra_flags SELF_MARK_DOWN resp_head else resp_head.

Lemma sreads_resp_fields :
  sreads LITTLE get_resp_fields (resp_fields_bytes resp n) (resp_head, n).
Proof.
  pose proof (po_size _ _ _ Hr). zlen_facts. destruct Hr as [Ht ? ? ? ? ? ? ? ? ? ?].
  assert (is_s32 n) by (unfold_width; lia).
  unfold get_resp_fields, resp_fields_bytes.
  repeat (eapply sreads_bind; [eauto with codec|]).
  eapply sreads_map; [eauto with codec|]. by rewrite Ht, b2z_eq1.
Qed.

Lemma sreads_buffer_map {B} d (f : buffer -> B) :
  zlen d < 2 ^ 31 ->
  sreads LITTLE (dst <- lift (alloc (zlen d)) ;; b <- get_buffer dst ;; ret (f b)) d (f (mkbuf d 0)).
Proof.
  intros L pre post p Hb. pose proof (sreads_buffer d L pre post p Hb) as R.
  unfold bind, lift in R |- *. destruct (alloc (zlen d)); [|done]. by rewrite R.
Qed.

Lemma sreads_hint rsp m :
  rs_next_batch_size_hint_in_bytes rsp = 0 -> 0 <= m < 2 ^ 31 - 64 ->
  sreads LITTLE
    (if negb (hint =? 0) then
       _version <- get_u16 ;; hint_len <- get_u16 ;; h <- get_i64 ;;
       ret (set_next_batch_size_hint h rsp,
            s32 (u64 (zlen (hint_bytes hint) + m - u64 (2 * 2 + hint_len))))
     else ret (rsp, zlen (hint_bytes hint) + m))
    (hint_bytes hint) (rsp <| rs_next_batch_size_hint_in_bytes := hint |>, m).
Proof.
  intros E Hm. unfold hint_bytes. destruct (Z.eqb_spec hint 0) as [E0|E0]; cbn [negb].
  - rewrite E0, zlen_nil, Z.add_0_l.
    replace (rsp <| rs_next_batch_size_hint_in_bytes := 0 |>) with rsp
      by (destruct rsp; cbn in *; by rewrite E). apply sreads_ret.
  - eapply sreads_bind; [by apply sreads_u16|]. eapply sreads_bind; [by apply sreads_u16|].
    eapply sreads_map; [apply sreads_i64, Hr|]. unfold set_next_batch_size_hint. f_equal.
    rewrite !zlen_app, !put_order_len. change (u64 (2 * 2 + 8)) with 12.
    rewrite u64_small, s32_small by (unfold_width; lia). lia.
Qed.

Lemma sreads_resp_rest rsp :
  rs_ctx rsp = None -> rs_next_batch_size_hint_in_bytes rsp = 0 -> rs_result_code rsp = OK ->
  sreads LITTLE (get_resp_rest flags (zlen (resp_rest_bytes req resp)) rsp) (resp_rest_bytes req resp)
    (rsp <| rs_next_batch_size_hint_in_bytes := hint |>
         <| rs_ctx := rs_ctx (wire_resp req resp) |>
         <| rs_result_code := rs_result_code (wire_resp req resp) |>).
Proof.
  intros E1 E2 E3. pose proof (po_size _ _ _ Hr) as L. pose proof (zlen_nonneg (meta_bytes meta)).
  unfold resp_payload in L. rewrite zlen_app in L.
  destruct (resp_flags_spec os req resp) as (_ & _ & Fh & Fc & _). cbv zeta in *.
  assert (0 <= zlen (ctx_data (rs_ctx resp))
    /\ zlen (resp_rest_bytes req resp) = zlen (hint_bytes hint)
      + (zlen (ctx_data (rs_ctx resp)) + (if coded then 4 else 0))
    /\ 0 <= zlen (hint_bytes hint)) as (L1 & L2 & L3).
  { unfold resp_rest_bytes, code_bytes. split_and!; [apply zlen_nonneg| |apply zlen_nonneg].
    destruct coded; zlen_lia. }
  assert (0 <= (if coded then 4 else 0) <= 4) as L4 by (destruct coded; lia).
  unfold get_resp_rest. rewrite Fh, Fc, L2. unfold resp_rest_bytes.
  eapply sreads_bind; [apply sreads_hint; [done|lia]|]. cbn iota beta.
  rewrite (u64_small (_ + _)) by (unfold_width; lia).
  replace (zlen (ctx_data (rs_ctx resp)) + (if coded then 4 else 0) - (if coded then 4 else 0))
    with (zlen (ctx_data (rs_ctx resp))) by lia.
  rewrite u64_small by (unfold_width; lia).
  set (rsp1 := rsp <| rs_next_batch_size_hint_in_bytes := hint |>).
  eapply (sreads_bind _ _ _ _ _ (rsp1 <| rs_ctx := rs_ctx (wire_resp req resp) |>)).
  - cbn [wire_resp rs_ctx]. destruct (ctx_data (rs_ctx resp)) as [|d0 d] eqn:Ed.
    + replace (rsp1 <| rs_ctx := None |>) with rsp1 by (unfold rsp1; destruct rsp; cbn in *; by rewrite E1).
      apply sreads_ret.
    + rewrite eqb_false by zlen_lia. apply (sreads_buffer_map (d0 :: d)). lia.
  - unfold code_bytes. cbn [wire_resp rs_result_code]. destruct coded.
    + eapply sreads_map; [apply sreads_i32, Hr|]. by rewrite (po_code _ _ _ Hr).
    + unfold rsp1. destruct rsp; cbn in *. rewrite E3. apply sreads_ret.
Qed.

(** The user accepts the meta. *)
Definition meta_accepted (p : pending_req_pkg) : Prop :=
  match meta with
  | [] => resp_meta_ok o p resp_head [] = true
  | _ => resp_meta_ok o p resp_marked meta = true
  end.

Lemma deliver_dones p rsp c :
  exists c', deliver o p rsp c = (Ok tt, c') /\ dones_ c' = dones_ c ++ [Done (pk_when_done p) (Some rsp)].
Proof.
  unfold deliver, cancel_op_timer, set_busy_flag, call_done, add_task, bind, modify, ret.
  destruct (streaming_mode_ o); [by eexists|]. cbn. destruct (Bool.eqb _ _); by eexists.
Qed.

Lemma response_read_ok p c :
  meta_accepted p ->
  response_read o p (mkbuf (fresh RPC_RESP_HEADER_SIZE) 0) (Bytes (hdr ++ word)) c
  = if n =? 0 then deliver o p resp_marked c
    else (ctx_buf <- lift (alloc n) ;; add_task (T_read_ctx p resp_marked ctx_buf flags)) c.
Proof.
  intros Hm. pose proof (po_size _ _ _ Hr) as L. zlen_facts.
  destruct (resp_flags_spec os req resp) as (Hf & Fm & _ & _ & Fd). cbv zeta in *.
  pose proof (zlen_resp_header resp n) as Lh. change (_ - _) with 31 in Lh.
  assert (zlen (hdr ++ word) = 39) as Lb by (rewrite zlen_app, Lh, put_order_len; done).
  assert (is_word (crc32_8 hdr 0)) as Hc by (apply crc32_8_word; [done|apply resp_header_bytes_ok]).
  cbn [response_read]. change RPC_RESP_HEADER_SIZE with 39. change (39 - CRC_FLAGS_LEN) with 31.
  assert (zlen (fresh 39) = 39) as Lf by by apply zlen_fresh.
  rewrite store_whole by lia. cbv zeta. rewrite mkbuf_bytes.
  replace (ztake 31 (hdr ++ word)) with hdr by (rewrite <- Lh; symmetry; apply ztake_app).
  unfold bind at 1, lift at 1. rewrite <- (app_nil_r word) at 1.
  rewrite get_flags_and_crc_ok by (done || rewrite ?app_nil_r; lia). rewrite Z.eqb_refl. cbn [negb].
  unfold bind at 1, lift at 1.
  replace (from_buf (set_spos 1 ;; get_resp_fields) (mkbuf (hdr ++ word) 0)) with (Ok (resp_head, n)).
  2:{ symmetry. unfold resp_header_bytes in *. rewrite <- app_assoc in *.
      apply from_buf_at; [apply sreads_resp_fields|done|lia]. }
  rewrite Fm, Fd. unfold meta_accepted in Hm.
  replace (negb (negb (no_meta meta)) && is_some (read_resp_meta_ o) && invoke_resp_cb_on_empty_meta_ o
    && negb (resp_meta_ok o p resp_head [])) with false.
  2:{ destruct meta; cbn [no_meta negb andb]; [|done]. by rewrite Hm, andb_false_r. }
  fold resp_marked. destruct (Z.eqb_spec n 0) as [E|E]; [done|].
  by rewrite u64_small by (unfold_width; lia).
Qed.

Lemma marked_fields :
  rs_ctx resp_marked = None /\ rs_next_batch_size_hint_in_bytes resp_marked = 0 /\
  rs_result_code resp_marked = OK.
Proof. unfold resp_marked. by destruct (has_flag (rs_extra_flags resp) SELF_MARK_DOWN). Qed.

Lemma wire_resp_eq :
  resp_marked <| rs_next_batch_size_hint_in_bytes := hint |>
    <| rs_ctx := rs_ctx (wire_resp req resp) |>
    <| rs_result_code := rs_result_code (wire_resp req resp) |> = wire_resp req resp.
Proof.
  unfold resp_marked, resp_head, wire_resp, rs_term, rs_type, rs_src, rs_dst. destruct (rs_base resp).
  by destruct (has_flag (rs_extra_flags resp) SELF_MARK_DOWN).
Qed.

(** Without a payload the response is complete. *)
Lemma no_rest : resp_rest_bytes req resp = [] -> resp_marked = wire_resp req resp.
Proof.
  intros E. rewrite <- wire_resp_eq. unfold resp_rest_bytes, hint_bytes, code_bytes in E.
  apply app_eq_nil in E as [E1 [E2 E3]%app_eq_nil].
  assert (hint = 0) as -> by (destruct (Z.eqb_spec hint 0); [done|by apply (f_equal zlen) in E1]).
  assert (coded = false) as Ec by (destruct coded; [by apply (f_equal zlen) in E3|done]).
  destruct marked_fields as (M1 & M2 & M3). unfold wire_resp. rewrite Ec, E2. cbn [rs_ctx rs_result_code].
  destruct resp_marked; cbn in *. by rewrite M1, M2, M3.
Qed.

Lemma ctx_read_ok p c :
  meta_accepted p -> n <> 0 ->
  ctx_read o p resp_marked (mkbuf (fresh n) 0) flags (Bytes (resp_payload os req resp)) c
  = deliver o p (wire_resp req resp) c.
Proof.
  intros Hm Hn. pose proof (po_size _ _ _ Hr) as L. pose proof (zlen_nonneg (resp_payload os req resp)) as L0.
  destruct (resp_flags_spec os req resp) as (Hf & Fm & Fh & Fc & _). cbv zeta in *.
  destruct marked_fields as (M1 & M2 & M3).
  unfold ctx_read. rewrite store_whole by (rewrite zlen_fresh; lia). cbv zeta. rewrite Fm, Fh, Fc.
  assert (in_block (resp_payload os req resp) 0) as Hb by (split; lia).
  pose proof (sreads_resp_rest resp_marked M1 M2 M3) as Sr. rewrite wire_resp_eq in Sr.
  destruct (negb (negb (no_meta meta)) && _ && _) eqn:Eplain.
  - f_equal. rewrite !andb_true_iff, !negb_true_iff, !negb_false_iff in Eplain.
    destruct Eplain as [[Em Eh] Ec]. rewrite <- wire_resp_eq. unfold wire_resp. rewrite Ec.
    apply Z.eqb_eq in Eh. rewrite Eh. cbn [rs_ctx rs_result_code].
    assert (resp_payload os req resp = ctx_data (rs_ctx resp)) as Ep.
    { unfold resp_payload, resp_rest_bytes, hint_bytes, code_bytes. rewrite Ec, Eh, app_nil_r.
      by destruct meta. }
    rewrite <- Ep. destruct (resp_payload os req resp) eqn:Ed; [done|]. rewrite <- Ed in *.
    unfold run_state. rewrite mkbuf_set_pos by (done || lia). rewrite Z.min_l by lia. cbn [snd].
    destruct resp_marked; cbn in *. by rewrite M2, M3.
  - clear Eplain. unfold meta_accepted in Hm. unfold resp_payload in *.
    destruct meta as [|m0 m] eqn:Em; cbn [no_meta negb].
    + cbn [meta_bytes app] in *. rewrite mkbuf_size, s32_small by (done || unfold_width; lia).
      unfold bind, lift. by rewrite (from_buf_all _ _ _ Sr) by lia.
    + unfold meta_bytes in *. rewrite !zlen_app, put_order_len in L.
      pose proof (zlen_nonneg (resp_rest_bytes req resp)).
      assert (sreads LITTLE sget_bytes (put_order LITTLE 4 (zlen (m0 :: m)) ++ m0 :: m) (m0 :: m)) as Sm
        by (apply sreads_bytes; lia).
      unfold bind at 1, lift at 1. rewrite (from_buf_ok _ _ _ _ _ Sm Hb). cbn [no_meta negb orb].
      rewrite Hm, andb_false_r. unfold bind at 1, lift at 1.
      rewrite mkbuf_size by done. rewrite !zlen_app, put_order_len.
      replace (Z.of_nat 4 + zlen (m0 :: m) + zlen (resp_rest_bytes req resp) - (4 + zlen (m0 :: m)))
        with (zlen (resp_rest_bytes req resp)) by lia.
      rewrite u64_small, s32_small by (unfold_width; zlen_lia).
      rewrite (from_buf_all _ _ _ (sreads_bind _ _ _ _ _ _ _ Sm Sr)); [done|].
      rewrite !zlen_app, put_order_len. lia.
Qed.

End Reading.

(** C34: a response arrives as it was sent: the bytes the server writes make the
    client call the handler of the request with the response, without the fields
    that are not sent. *)
Theorem response_over_wire `{U : Uninit} (os o : options) (req : req_msg) (resp : resp_msg)
    (p : pending_req_pkg) (c : rpc_client) :
  resp_ok os req resp -> meta_accepted os o req resp p ->
  exists bs c',
    encode_response os req resp = Ok (mkbuf bs 0) /\
    read_response o p bs c = (Ok tt, c') /\
    dones_ c' = dones_ c ++ [Done (pk_when_done p) (Some (wire_resp req resp))].
Proof.
  intros Hr Hm. pose proof (po_size _ _ _ Hr) as L.
  pose proof (zlen_nonneg (resp_payload os req resp)) as L0.
  exists (wire_response os req resp). rewrite encode_response_ok by done.
  unfold read_response, wire_response. cbv zeta. rewrite app_assoc.
  set (n := zlen (resp_payload os req resp)) in *. set (hw := _ ++ put_order LITTLE 8 _).
  assert (zlen hw = RPC_RESP_HEADER_SIZE) as Lb
    by (unfold hw; rewrite zlen_app, zlen_resp_header, put_order_len; done).
  replace (ztake RPC_RESP_HEADER_SIZE (hw ++ resp_payload os req resp)) with hw
    by (rewrite <- Lb; symmetry; apply ztake_app).
  replace (zdrop RPC_RESP_HEADER_SIZE (hw ++ resp_payload os req resp)) with (resp_payload os req resp)
    by (rewrite <- Lb; symmetry; apply zdrop_app).
  unfold bind at 1, lift at 1.
  rewrite alloc_ok by done. unfold hw, n. rewrite response_read_ok by done.
  destruct (Z.eqb_spec (zlen (resp_payload os req resp)) 0) as [E|E].
  - rewrite (no_rest req resp).
    2:{ apply zlen_0_nil in E. by apply app_eq_nil in E as [_ ?]. }
    destruct (deliver_dones o p (wire_resp req resp) c) as (c' & -> & Ed). exists c'.
    split_and!; [done| |done]. by rewrite (zlen_0_nil _ E).
  - unfold bind, lift. rewrite alloc_ok by (unfold n in *; lia). unfold add_task, modify.
    cbn [tasks_ upd]. rewrite last_snoc. destruct (resp_payload os req resp) eqn:Ep; [done|].
    rewrite <- Ep in *. rewrite ctx_read_ok by done.
    match goal with |- context [deliver o p ?r ?x] =>
      destruct (deliver_dones o p r x) as (c' & -> & Ed) end.
    by exists c'.
Qed.
