(* ===== verification/StreamSession.v ===== *)
(** A session on a stream: the reads it asks for are composed reads of a stream that
    delivers its bytes in pieces, so that a request arrives as it was sent however
    the network cuts it. *)
From S2P Require Import Prelude Buffer Serializer Crc32 Codec Messages Wire WireOk Session SessionOk.
From S2P Require Import IoBuffers Composed.

Section Block.
Context {R : Type} `{RL : ReadStreamLaws R}.

(** [aa::read] of a block of [n] bytes: the bytes, or an error, and the stream. *)
Definition async_read_block (n : Z) (st : R) : res (option (list Z) * R) :=
  match async_read transfer_all (S (S (Z.to_nat n))) (Single.single_new (mk_io_buffer 0 n)) st with
  | Ok (_, None, (st, stores)) => Ok (Some (map snd stores), st)
  | Ok (_, Some _, (st, _)) => Ok (None, st)
  | Throw e => Throw e
  end.

Lemma async_read_block_ok n st :
  0 < n < 2 ^ 64 ->
  exists r st', async_read_block n st = Ok (r, st') /\
    match r with Some bs => content st = bs ++ content st' /\ zlen bs = n | None => True end.
Proof.
  intros Hn. set (c := Single.single_new (mk_io_buffer 0 n)).
  assert (zlen (cb_all c) = n) as L by (apply zlen_addrs; cbn; lia).
  destruct (async_read_ok c st) as (m & ec & st' & E & C & B & Bc & F).
  { split; cbn; [unfold_width|]; lia. }
  { done. }
  { lia. }
  unfold async_read_block. replace (S (S (Z.to_nat n))) with (enough c) by (unfold enough, zlen in *; lia).
  fold c. rewrite E. destruct ec as [e|]; [by exists None, st'|]. specialize (F eq_refl). subst m.
  rewrite L in *. exists (Some (ztake n (content st))), st'. split; [|by rewrite zlen_ztake by lia].
  do 3 f_equal. rewrite <- L at 1. rewrite ztake_all. unfold zlen in *. apply snd_zip.
  unfold ztake. rewrite length_take. lia.
Qed.
End Block.

(** * A session that reads *)

Section Session.
Context {H R : Type} `{MH : MsgHandler H} `{U : Uninit} `{RL : ReadStreamLaws R} (o : options).

#[local] Abbreviation session := (rpc_session (H:=H)).

(** What the session asked for since [s]: data that follow the header. *)
Definition asked (s s1 : session) : option buffer :=
  match drop (length (ss_events_ s)) (ss_events_ s1) with
  | [Read_data log_ctx] => Some log_ctx
  | _ => None
  end.

(** [start] and what follows, up to the response. *)
Definition session_read (st : R) (s : session) : res unit * session * R :=
  match async_read_block RPC_REQ_HEADER_SIZE st with
  | Throw e => (Throw e, s, st)
  | Ok (r, st) =>
      match header_read o r s with
      | (Ok u, s1) =>
          match asked s s1 with
          | Some log_ctx =>
              match async_read_block (size log_ctx) st with
              | Throw e => (Throw e, s1, st)
              | Ok (r, st) => (read_log_data o log_ctx r s1, st)
              end
          | None => (Ok u, s1, st)
          end
      | (Throw e, s1) => (Throw e, s1, st)
      end
  end.

(** Computations that ask for no data. *)
Definition no_data (ev : session_event) : Prop := match ev with Read_data _ => False | _ => True end.

Definition quiet {A} (m : M session A) : Prop := forall s, exists l,
  ss_events_ (snd (m s)) = ss_events_ s ++ l /\ Forall no_data l.

Lemma quiet_bind {A B} (m : M session A) (k : A -> M session B) :
  quiet m -> (forall a, quiet (k a)) -> quiet (bind m k).
Proof.
  intros Hm Hk s. unfold bind. destruct (Hm s) as (l & E & F). destruct (m s) as [[a|e] s1]; [|by exists l].
  destruct (Hk a s1) as (l' & E' & F'). exists (l ++ l'). rewrite E'. cbn in E. rewrite E, app_assoc.
  split; [done|by apply Forall_app_2].
Qed.

Lemma quiet_same {A} (m : M session A) : (forall s, ss_events_ (snd (m s)) = ss_events_ s) -> quiet m.
Proof. intros Hm s. exists []. by rewrite Hm, app_nil_r. Qed.

Lemma quiet_emit ev : no_data ev -> quiet (session_emit ev).
Proof. intros Hev s. exists [ev]. split; [done|by constructor]. Qed.

Lemma quiet_handler {A} (m : M H A) : quiet (on_handler m).
Proof. apply quiet_same. intros s. unfold on_handler. destruct (handler_set_ s); [|done]. by destruct (m (server_ s)). Qed.

Lemma quiet_try m h : quiet m -> quiet h -> quiet (try_catch m h).
Proof.
  intros Hm Hh s. unfold try_catch. destruct (Hm s) as (l & E & F). destruct (m s) as [[a|e] s1]; [by exists l|].
  destruct (is_std e); [|by exists l]. destruct (Hh s1) as (l' & E' & F'). exists (l ++ l').
  rewrite E'. cbn in E. rewrite E, app_assoc. split; [done|by apply Forall_app_2].
Qed.

Ltac quiet :=
  repeat first
    [ apply quiet_bind; [|intros ?] | apply quiet_handler | by apply quiet_emit
    | by apply quiet_same | apply quiet_try
    | match goal with
      | |- quiet (if ?b then _ else _) => destruct b
      | |- quiet (match ?x with _ => _ end) => destruct x
      end ].

Lemma quiet_forget : quiet forget_old_leader.
Proof. unfold forget_old_leader. quiet. Qed.

Lemma quiet_callback b : quiet (invoke_connection_callback b).
Proof. unfold invoke_connection_callback, session_callback. apply quiet_bind; [apply quiet_forget|]. intros. quiet. Qed.

Lemma quiet_stop : quiet session_stop.
Proof. unfold session_stop. apply quiet_bind; [apply quiet_callback|]. intros. quiet. Qed.

Lemma quiet_source t src : quiet (identify_source t src).
Proof.
  unfold identify_source, session_callback. apply quiet_bind; [quiet|]. intros s.
  apply quiet_bind; [|intros; quiet].
  destruct (_ =? _); [apply quiet_bind; [quiet|intros; apply quiet_callback]|apply quiet_forget].
Qed.

Lemma quiet_dispatch req meta : quiet (dispatch_request o req meta).
Proof.
  unfold dispatch_request, on_resp_ready. cbv zeta. destruct (match read_req_meta_ o with Some _ => _ | None => _ end).
  - apply quiet_stop.
  - quiet; try apply quiet_stop.
Qed.

Lemma asked_none s (m : M session unit) r s1 : quiet m -> m s = (r, s1) -> asked s s1 = None.
Proof.
  intros Hm E. destruct (Hm s) as (l & El & F). rewrite E in El. cbn in El. unfold asked.
  rewrite El, drop_app_length. destruct F as [|ev l Hev F]; [done|]. by destruct ev, F.
Qed.

End Session.

Section Arrival.
Context {H R : Type} `{MH : MsgHandler H} `{U : Uninit} `{RL : ReadStreamLaws R} (oc o : options).
Context (req : req_msg) (s : rpc_session (H:=H)) (Hr : req_ok oc req) (Hs : session_ready s).

(** What the server does with the request, and what a failed read does. *)
Definition dispatched (s1 : rpc_session (H:=H)) : res unit * rpc_session :=
  try_catch (identify_source (rq_type req) (rq_src req) ;;
             dispatch_request o (wire_req oc req) (req_meta oc req)) session_stop s1.

Definition arrives (more : list Z) (x : res unit * rpc_session (H:=H) * R) : Prop :=
  let '(r, s', st') := x in
  (exists s1, has_read s s1 /\ content st' = more /\ (r, s') = dispatched s1) \/
  (exists s1, server_ s1 = server_ s /\ handler_set_ s1 = handler_set_ s /\ (r, s') = session_stop s1).

Lemma quiet_dispatched : quiet dispatched.
Proof.
  unfold dispatched. apply quiet_try; [|apply quiet_stop].
  apply quiet_bind; [apply quiet_source|intros; apply quiet_dispatch].
Qed.

(** A failed read. *)
Lemma stop_arrives s1 st more (k : rpc_session -> buffer -> res unit * rpc_session * R) :
  server_ s1 = server_ s -> handler_set_ s1 = handler_set_ s -> length (ss_events_ s1) = length (ss_events_ s) ->
  arrives more (match session_stop s1 with
    | (Ok u, s2) => match asked s s2 with Some b => k s2 b | None => (Ok u, s2, st) end
    | (Throw e, s2) => (Throw e, s2, st)
    end).
Proof.
  intros Es Eh El. destruct (session_stop s1) as [[u|e] s2] eqn:E.
  - assert (asked s s2 = None) as -> by (unfold asked; rewrite <- El; by apply (asked_none s1 session_stop (Ok u) s2 quiet_stop)).
    right. by exists s1.
  - right. by exists s1.
Qed.

Lemma session_read_arrives st more :
  content st = wire_request oc req ++ more -> arrives more (session_read o st s).
Proof.
  intros Ec. pose proof (header_len oc req) as Lh. pose proof (ro_size _ _ Hr) as Ls.
  pose proof (zlen_nonneg (req_payload oc req)) as L0.
  unfold wire_request, request_bytes in Ec. rewrite <- !app_assoc, app_assoc in Ec. unfold session_read.
  destruct (async_read_block_ok RPC_REQ_HEADER_SIZE st) as ([bs|] & st1 & -> & E1); [done| |].
  2:{ cbn [header_read]. apply (stop_arrives s st1 more (fun s1 b => match async_read_block (size b) st1 with
        | Throw e => (Throw e, s1, st1) | Ok (r, st) => (read_log_data o b r s1, st) end)); done. }
  destruct E1 as [C1 L1]. rewrite Ec in C1. apply app_inj_1 in C1 as [<- C1]; [|unfold zlen in *; lia].
  rewrite header_read_ok by done. destruct (Z.eqb_spec (zlen (req_payload oc req)) 0) as [E|E].
  - assert (read_complete o (payload_ctx oc req) (header_done oc req s) = dispatched (header_done oc req s))
      as Rc by (apply read_complete_ok; done).
    unfold payload_ctx in Rc. rewrite E in Rc. cbn [Z.eqb] in Rc. rewrite Rc.
    destruct (dispatched (header_done oc req s)) as [[u|e] s2] eqn:Ed.
    + assert (asked s s2 = None) as -> by exact (asked_none _ _ _ _ quiet_dispatched Ed).
      left. exists (header_done oc req s). split_and!; [|by rewrite <- C1, (zlen_0_nil _ E)|done].
      repeat split; try apply Hs. exists []. by rewrite app_nil_r.
    + left. exists (header_done oc req s). split_and!; [|by rewrite <- C1, (zlen_0_nil _ E)|done].
      repeat split; try apply Hs. exists []. by rewrite app_nil_r.
  - unfold bind, lift. rewrite alloc_ok by lia. unfold session_emit, modify.
    set (n := zlen (req_payload oc req)) in *. set (s2 := _ <| ss_events_ ::= _ |>).
    assert (asked s s2 = Some (mkbuf (fresh n) 0)) as ->.
    { unfold asked. change (ss_events_ s2) with (ss_events_ s ++ [Read_data (mkbuf (fresh n) 0)]).
      by rewrite drop_app_length. }
    assert (zlen (fresh n) = n) as Lf by (apply zlen_fresh; lia).
    rewrite mkbuf_size, Lf by (rewrite ?Lf; split; lia).
    destruct (async_read_block_ok n st1) as ([bs|] & st2 & -> & E2); [lia| |].
    2:{ cbn [read_log_data]. destruct (session_stop s2) as [r s3] eqn:E3. right. by exists s2. }
    destruct E2 as [C2 L2]. rewrite <- C1 in C2. apply app_inj_1 in C2 as [<- C2]; [|unfold n, zlen in *; lia].
    cbn [read_log_data]. rewrite store_whole by lia.
    assert (read_complete o (payload_ctx oc req) s2 = dispatched s2) as Rc by (apply read_complete_ok; done).
    unfold payload_ctx in Rc. rewrite eqb_false in Rc by done. rewrite Rc.
    destruct (dispatched s2) as [r s3] eqn:E3. left. exists s2. split_and!; [|done|done].
    repeat split; try apply Hs. by exists [mkbuf (fresh n) 0].
Qed.
End Arrival.

