(* ===== verification/ServerSession.v ===== *)
(** The server behind a session: [raft_server] as the message handler of
    [rpc_session] (raft_server_handler.h, raft_server.h), and an append request from
    the stream of a connection to the log of a follower. *)
From S2P Require Import Prelude Buffer Codec Messages Peer LogStore StateMgr Server Replication Election.
From S2P Require Import Follower Leader Total Append Commit Client Snapshot Membership Dispatch.
From S2P Require Import Wire WireOk Session SessionOk Composed StreamSession.

Section Handler.
Context {L : Type} `{LSS : LogStoreSpec L} `{EV : Env} `{U : Uninit}.

#[local] Abbreviation server := (raft_server L).
#[local] Abbreviation SM := (M (raft_server L)).

(** What other threads do while a request waits for its commit, and the element of
    the request when it wakes up. *)
Class Awaiting := awaited : Z -> server -> commit_ret_elem * server.

(** What they do while the reception of a snapshot waits. *)
Class Meanwhile := meanwhile : server -> server.

Definition connection_event (cb : connection_cb) : cb_type :=
  match cb with
  | ConnectionOpened => Server.ConnectionOpened
  | ConnectionClosed => Server.ConnectionClosed
  | NewSessionFromLeader => Server.NewSessionFromLeader
  end.

Definition connection_callback (cb : connection_cb) (_ : connection_args) : SM unit :=
  callback (connection_event cb) (-1) ;; ret tt.

(** [raft_server_handler::process_req], with the parameters of a request that comes
    from outside. *)
Definition session_process_req `{Meanwhile} (req : req_msg) : SM (option (resp_msg * cli_cb)) :=
  process_req meanwhile req (mk_req_ext_params false 0).

(** [resp->call_cb(resp)]: the wait and what follows it. *)
Definition blocking_callback `{Awaiting} (idx : Z) (resp : resp_msg) : SM resp_msg := fun s =>
  let '(elem, s) := awaited idx s in handle_cli_req_callback elem resp s.

#[global] Instance raft_handler `{Meanwhile} `{Awaiting} : MsgHandler server := {
  get_leader := leader_;
  invoke_callback := connection_callback;
  handle_req := session_process_req;
  call_cb := blocking_callback
}.

(** * What a session does to its server *)

Context {MW : Meanwhile} {AW : Awaiting}.

#[local] Abbreviation session := (rpc_session (H:=server)).

(** The server is told something, but its log, term, role and parameters stay. *)
Definition aside (s s' : server) : Prop := undisturbed s s' /\ params_ s' = params_ s.

#[local] Instance aside_preorder : PreOrder aside.
Proof.
  split; [by split|]. intros s1 s2 s3 [U1 P1] [U2 P2]. split; [by etrans|congruence].
Qed.

Lemma callback_aside t p (s : server) :
  exists s', callback t p s = (Ok (cb_func (trace_ s) t p), s') /\ aside s s'.
Proof. eexists. split; [done|]. by repeat split. Qed.

(** A computation of a session that returns and leaves the server aside. *)
Definition bystands {A} (m : M session A) : Prop := forall s,
  handler_set_ s = true -> exists a s', m s = (Ok a, s') /\
    aside (server_ s) (server_ s') /\ handler_set_ s' = true.

Lemma bystands_bind {A B} (m : M session A) (k : A -> M session B) :
  bystands m -> (forall a, bystands (k a)) -> bystands (bind m k).
Proof.
  intros Hm Hk s Hs. destruct (Hm s Hs) as (a & s1 & E1 & U1 & S1).
  destruct (Hk a s1 S1) as (b & s2 & E2 & U2 & S2). exists b, s2. unfold bind. rewrite E1.
  split_and!; [done|by etrans|done].
Qed.

Lemma bystands_ret {A} (a : A) : bystands (ret a).
Proof. intros s Hs. by exists a, s. Qed.

Lemma bystands_gets {A} (f : session -> A) : bystands (gets f).
Proof. intros s Hs. by exists (f s), s. Qed.

Lemma bystands_modify f :
  (forall s, server_ (f s) = server_ s) -> (forall s, handler_set_ (f s) = handler_set_ s) -> bystands (modify f).
Proof. intros H1 H2 s Hs. exists tt, (f s). rewrite H1, H2. by split. Qed.

Lemma bystands_handler {A} (m : SM A) :
  (forall s, exists a s', m s = (Ok a, s') /\ aside s s') -> bystands (on_handler m).
Proof.
  intros Hm s Hs. destruct (Hm (server_ s)) as (a & h & E & Un). exists a, (s <| server_ := h |>).
  unfold on_handler. by rewrite Hs, E.
Qed.

Lemma bystands_forget : bystands forget_old_leader.
Proof.
  unfold forget_old_leader. apply bystands_bind; [apply bystands_gets|]. intros s0.
  destruct (is_leader_ s0); [|apply bystands_ret].
  apply bystands_bind; [apply bystands_handler; intros s; by exists (leader_ s), s|]. intros l.
  destruct (_ =? _); [apply bystands_ret|]. by apply bystands_modify.
Qed.

Lemma bystands_callback cb : bystands (session_callback cb).
Proof.
  unfold session_callback. apply bystands_bind; [apply bystands_gets|]. intros s0. apply bystands_handler.
  intros s. change (invoke_callback cb ?a) with (connection_callback cb a). unfold connection_callback.
  destruct (callback_aside (connection_event cb) (-1) s) as (s1 & E & A).
  exists tt, s1. split; [|done]. unfold bind. by rewrite E.
Qed.

Lemma bystands_invoke b : bystands (invoke_connection_callback b).
Proof.
  apply bystands_bind; [apply bystands_forget|]. intros []. apply bystands_callback.
Qed.

Lemma bystands_identify t src : bystands (identify_source t src).
Proof.
  unfold identify_source. apply bystands_bind; [apply bystands_gets|]. intros s0. apply bystands_bind.
  - destruct (_ =? _); [|apply bystands_forget].
    apply bystands_bind; [by apply bystands_modify|]. intros []. apply bystands_invoke.
  - intros []. apply bystands_bind; [apply bystands_gets|]. intros s1.
    destruct (_ && _); [|apply bystands_ret].
    apply bystands_bind; [by apply bystands_modify|]. intros []. apply bystands_callback.
Qed.

(** Stopping a session tells the server, and no more. *)
Lemma stop_bystands (s : session) :
  handler_set_ s = true -> exists s', session_stop s = (Ok tt, s') /\
    aside (server_ s) (server_ s') /\ last (ss_events_ s') = Some Session_closed.
Proof.
  intros Hs. destruct (bystands_invoke false s Hs) as ([] & s1 & E & Un & _).
  eexists. unfold session_stop, bind, session_emit, modify. rewrite E. split_and!; [done|done|].
  cbn [ss_events_ upd]. apply last_snoc.
Qed.

(** * An append request *)

(** Callbacks that let requests and responses pass. *)
Record callbacks_pass : Prop := {
  pass_request : forall h p, cb_func h ProcessReq p <> Cb_ReturnNull;
  pass_append : forall h p, cb_func h ReceivedAppendEntriesReq p = Cb_Ok;
  pass_entries : append_callback_ok;
  pass_response : forall h p, cb_func h SentAppendEntriesResp p = Cb_Ok
}.

Lemma observe_same_term req (s : server) :
  rq_term req = term_ (state_ s) -> exists s', observe_req_term req s = (Ok tt, s') /\ aside s s'.
Proof.
  intros Ht. unfold observe_req_term, when. destruct (_ || _); [|by exists s].
  assert (update_term (rq_term req) s = (Ok false, s)) as Eu.
  { unfold update_term, bind, self, gets. rewrite Ht, Z.ltb_irrefl. done. }
  unfold bind. rewrite Eu. unfold self, gets, id, ret, modify. rewrite andb_false_r, andb_false_l.
  eexists. split; [done|]. by destruct (0 <? _).
Qed.

(** The request through the server's entry point. *)
Lemma process_append_logs (req : req_msg) (s : server) :
  rq_type req = append_entries_request -> append_ready req s -> callbacks_pass ->
  use_full_consensus_among_healthy_members_ (params_ s) = false ->
  exists resp s', session_process_req req s = (Ok (Some (resp, No_cb)), s') /\ rs_accepted resp = true /\
    rs_next_idx resp = rq_last_log_idx req + zlen (rq_log_entries req) + 1 /\
    rs_term resp = term_ (state_ s) /\ ls_ok (log_store_ s') /\
    log_of s' = al_merge (rq_last_log_idx req + 1) (rq_log_entries req) (log_of s).
Proof.
  intros Ht A [P1 P2 P3 P4] Hf. unfold session_process_req. rewrite process_req_append by done.
  unfold process_append_req, accepts_req, bind.
  destruct (callback_aside ProcessReq (-1) s) as (s1 & -> & U1). rewrite bool_decide_false by done.
  pose proof (append_ready_same _ _ _ A (proj1 U1)) as A1. unfold gets at 1, ret at 1. rewrite (ar_stopping _ _ A1). cbn [negb].
  destruct (observe_same_term req s1 (ar_term _ _ A1)) as (s2 & -> & U2).
  destruct (callback_aside ReceivedAppendEntriesReq (rq_src req) s2) as (s3 & -> & U3). rewrite P2, bool_decide_true by done.
  assert (aside s s3) as [Un Up] by (do 2 (etrans; [eassumption|]); done).
  pose proof (append_ready_same _ _ _ A Un) as A3.
  assert (use_full_consensus_among_healthy_members_ (params_ s3) = false) as Hf3 by (by rewrite Up).
  destruct (handle_append_logs req s3 A3 P3 Hf3) as (resp & s4 & -> & R1 & R2 & R3 & O & V).
  destruct (callback_aside SentAppendEntriesResp (rq_src req) s4) as (s5 & -> & U5). rewrite P4, bool_decide_true by done.
  exists resp, s5. unfold ret. assert (log_of s3 = log_of s) as E3 by (unfold log_of; by rewrite (proj1 Un)).
  assert (log_store_ s5 = log_store_ s4) as E5 by apply U5.
  split_and!; [done|done|done| |by rewrite E5|].
  - rewrite R3. apply (un_term _ _ (proj2 Un)).
  - rewrite <- E3, <- V. unfold log_of. by rewrite E5.
Qed.

(** * From the stream to the log *)

Section Arrival.
Context (oc o : options) (req : req_msg).
Hypothesis (Ht : rq_type req = append_entries_request) (Hm : read_req_meta_ o = None) (Hcb : callbacks_pass).

(** The request was processed by the server, which was [s0]: its entries are merged into
    the log, and the response is written if it can be encoded. *)
Definition entries_merged (s0 : server) (s' : session) : Prop :=
  exists resp,
    rs_accepted resp = true /\ rs_term resp = term_ (state_ s0) /\
    rs_next_idx resp = rq_last_log_idx req + zlen (rq_log_entries req) + 1 /\
    ls_ok (log_store_ (server_ s')) /\
    log_of (server_ s') = al_merge (rq_last_log_idx req + 1) (rq_log_entries (wire_req oc req)) (log_of s0) /\
    match encode_response o (wire_req oc req) resp with
    | Ok b => last (ss_events_ s') = Some (Write_resp (ztake (size b) (bytes b)))
    | Throw _ => True
    end.

Lemma resp_ready_aside req' resp (s : session) :
  handler_set_ s = true ->
  let '(r, s') := on_resp_ready o req' resp s in
  aside (server_ s) (server_ s') /\ match r with Throw e => is_std e = false | Ok _ => True end /\
  match encode_response o req' resp with
  | Ok b => last (ss_events_ s') = Some (Write_resp (ztake (size b) (bytes b)))
  | Throw _ => True
  end.
Proof.
  intros Hs. unfold on_resp_ready, try_catch, bind, lift.
  destruct (encode_response o req' resp) as [b|e].
  { split_and!; [done|done|]. cbn [ss_events_ upd]. apply last_snoc. }
  destruct (is_std e) eqn:Ee; [|done]. by destruct (stop_bystands s Hs) as (s' & -> & A & _).
Qed.

Lemma dispatched_append (s0 : server) (s1 : session) :
  handler_set_ s1 = true -> server_ s1 = s0 -> append_ready (wire_req oc req) s0 ->
  use_full_consensus_among_healthy_members_ (params_ s0) = false ->
  entries_merged s0 (snd (dispatched oc o req s1)).
Proof.
  intros Hs Hserver A Hf. unfold dispatched, try_catch, bind at 1.
  destruct (bystands_identify (rq_type req) (rq_src req) s1 Hs) as ([] & s2 & E & [Un Up] & Hs2).
  rewrite E, Hserver in *. unfold dispatch_request. rewrite Hm. unfold bind, on_handler. rewrite Hs2.
  destruct (process_append_logs (wire_req oc req) (server_ s2) Ht (append_ready_same _ _ _ A Un) Hcb) as
    (resp & h & Eh & R1 & R2 & R3 & O & V); [by rewrite Up|].
  change (handle_req (wire_req oc req)) with (session_process_req (wire_req oc req)). rewrite Eh.
  set (s3 := s2 <| server_ := h |>).
  pose proof (resp_ready_aside (wire_req oc req) resp s3 Hs2) as P.
  destruct (on_resp_ready o (wire_req oc req) resp s3) as [r s4]. destruct P as ([U4 _] & Hr & Hw).
  assert (log_store_ (server_ s4) = log_store_ h) as El by apply U4.
  exists resp. match goal with |- context [snd ?x] => replace (snd x) with s4 by (by destruct r as [?|e]; [|rewrite Hr]) end.
  assert (zlen (rq_log_entries (wire_req oc req)) = zlen (rq_log_entries req)) as Lw by apply zlen_map.
  rewrite Lw in R2. split_and!; [done| |exact R2|by rewrite El| |done].
  - rewrite R3. apply (un_term _ _ (proj2 Un)).
  - unfold log_of. rewrite El. rewrite <- (proj1 Un). exact V.
Qed.

Context {R : Type} `{RL : ReadStreamLaws R}.


End Arrival.
End Handler.
