(* ===== verification/TransportSamples.v ===== *)
(** Concrete messages, a message handler and a client for the theorems about the
    transport. *)
From S2P Require Import Prelude Buffer Serializer Crc32 Codec Messages Wire WireOk.
From S2P Require Import Session SessionOk WireSafe RpcClient RpcStream ResponseOk.
From S2P Require Import IoBuffers Composed DynBuffers ReadUntil IoSamples StreamSession.

#[local] Instance zeroed : Uninit := fun _ => 0.

(** A handler that keeps the requests it is given and accepts them. *)
#[local] Instance recorder : MsgHandler (list req_msg) := {
  get_leader := fun _ => 1;
  invoke_callback := fun _ _ => ret tt;
  handle_req := fun req => modify (fun l => l ++ [req]) ;;
    ret (Some (resp_msg_new (rq_term req) append_entries_response (rq_dst req) (rq_src req) 8 true, No_cb));
  call_cb := fun _ _ => ret (resp_msg_new 3 append_entries_response 2 1 8 true)
}.

Definition sample_entry : log_entry :=
  mk_log_entry 3 app_log (Some (mkbuf [10; 20; 30] 0)) 1234 true (crc32_8 [10; 20; 30] 0).

Definition sample_request : req_msg :=
  mk_req_msg (mk_msg_base 3 append_entries_request 1 2) 2 7 6 [sample_entry; sample_entry] 1.

(** All that can be sent is sent. *)
Definition sample_options : options :=
  options_default <| write_req_meta_ := Some (fun _ => [77; 78]) |>
    <| replicate_log_timestamp_ := true |> <| crc_on_payload_ := true |>
    <| crc_on_entire_message_ := true |> <| streaming_mode_ := true |>.

Definition sample_session : rpc_session (H:=list req_msg) :=
  rpc_session_new 1 [] (mkbuf (fresh RPC_REQ_HEADER_SIZE) 0).

Lemma sample_entry_ok : entry_ok sample_entry.
Proof.
  split; try done.
  - by exists 0.
  - repeat constructor; done.
Qed.

Lemma sample_request_ok : req_ok sample_options sample_request.
Proof.
  split; try done.
  - constructor; [apply sample_entry_ok|]. constructor; [apply sample_entry_ok|done].
  - repeat constructor; done.
Qed.

Lemma sample_session_ready : session_ready sample_session.
Proof. split; [done|]. by exists (fresh RPC_REQ_HEADER_SIZE). Qed.

Lemma request_over_wire_witness :
  exists bs s1,
    encode_request sample_options sample_request = Ok (mkbuf bs 0) /\ has_read sample_session s1 /\
    receive options_default bs sample_session
    = try_catch (identify_source append_entries_request 1 ;;
        dispatch_request options_default (wire_req sample_options sample_request) [77; 78]) session_stop s1.
Proof.
  exact (request_over_wire sample_options options_default sample_request sample_session
           sample_request_ok sample_session_ready).
Defined.


Lemma recorder_safe : handler_safe (H:=list req_msg) options_default.
Proof. by split; try done; intros * [= <-]. Qed.

Lemma session_reads_any_bytes_witness :
  defined (fst (header_read options_default (Some (repeat 255 54)) sample_session)) /\
  defined (fst (read_log_data options_default (mkbuf (fresh 3) 0) (Some [1; 2; 3]) sample_session)).
Proof.
  destruct (session_reads_any_bytes options_default recorder_safe) as [H1 H2]. split.
  - apply H1; [apply sample_session_ready|done|]. repeat constructor; done.
  - apply (H2 3 _ (fresh RPC_REQ_HEADER_SIZE)); [done| |done|done|repeat constructor; done].
    split; [done|]. split; [done|]. repeat constructor; done.
Defined.

(** * A client *)

(** A run of a client: a request is sent, or the first task that [pick] finds is
    run. *)
Inductive script_step := Send (p : pending_req_pkg) | Run (i : nat) (r : outcome).

Definition pick (i : nat) (l : list task) : option (list task * task * list task) :=
  match drop i l with t :: ts => Some (take i l, t, ts) | [] => None end.

Lemma pick_split i l ts1 t ts2 : pick i l = Some (ts1, t, ts2) -> l = ts1 ++ t :: ts2.
Proof.
  unfold pick. destruct (drop i l) as [|t' ts] eqn:E; [done|]. intros [= <- <- <-].
  by rewrite <- E, take_drop.
Qed.

Definition is_cancel (t : task) : bool :=
  match t with T_cancel_reads | T_cancel_writes => true | _ => false end.

Definition fine (c : rpc_client) : bool := negb (abandoned_ c) && forallb (fun t => negb (is_cancel t)) (tasks_ c).

Lemma fine_no_failure c : fine c = true -> no_failure c.
Proof.
  unfold fine. rewrite andb_true_iff, negb_true_iff, forallb_forall. intros [? F]. split; [done|].
  apply List.Forall_forall. intros t Ht. specialize (F t Ht). by destruct t.
Qed.

Section Exec.
Context `{U : Uninit} (o : options).

Definition exec1 (a : script_step) (c : rpc_client) : option (list pending_req_pkg * rpc_client) :=
  let checked lab (r : res unit * rpc_client) :=
    match r with
    | (Ok _, c') => if fine c' then Some (lab, c') else None
    | _ => None
    end in
  match a with
  | Send p => checked [p] (client_send o p c)
  | Run i r =>
      match pick i (tasks_ c) with
      | Some (ts1, t, ts2) => checked [] (run_task o t r (c <| tasks_ := ts1 ++ ts2 |>))
      | None => None
      end
  end.

Fixpoint exec (l : list script_step) (sends : list pending_req_pkg) (c : rpc_client) :
    option (list pending_req_pkg * rpc_client) :=
  match l with
  | [] => Some (sends, c)
  | a :: l =>
      match exec1 a c with
      | Some (lab, c') => exec l (sends ++ lab) c'
      | None => None
      end
  end.

Lemma exec1_step a c lab c' : exec1 a c = Some (lab, c') -> cstep o c lab (Ok tt) c' /\ no_failure c'.
Proof.
  unfold exec1. destruct a as [p|i r].
  - destruct (client_send o p c) as [[[]|] c1] eqn:E; [|done]. destruct (fine c1) eqn:F; [|done].
    intros [= <- <-]. split; [by constructor|by apply fine_no_failure].
  - destruct (pick _ _) as [[[ts1 t] ts2]|] eqn:Ep; [|done].
    destruct (run_task _ _ _ _) as [[[]|] c1] eqn:E; [|done]. destruct (fine c1) eqn:F; [|done].
    intros [= <- <-]. split; [|by apply fine_no_failure].
    eapply cs_task; [by apply pick_split in Ep|done].
Qed.

Lemma exec_healthy l sends c sends' c' :
  healthy o sends c -> exec l sends c = Some (sends', c') -> healthy o sends' c'.
Proof.
  revert sends c. induction l as [|a l IH]; intros sends c Hh; cbn; [by intros [= <- <-]|].
  destruct (exec1 a c) as [[lab c1]|] eqn:E; [|done]. apply exec1_step in E as [? ?].
  apply IH. by eapply healthy_step.
Qed.

End Exec.

Definition sample_response : resp_msg :=
  mk_resp_msg (mk_msg_base 3 append_entries_response 2 1) 9 100 true (Some (mkbuf [5; 6; 7] 0)) None OK 0.

Definition response_bytes (o : options) (req : req_msg) (resp : resp_msg) : list Z :=
  match encode_response o req resp with Ok b => bytes b | Throw _ => [] end.

Definition pkg (h : Z) : pending_req_pkg := mk_pkg sample_request h 1000.

(** Two requests, the second sent while the connection is made; both written
    before the first response is read. *)
Definition script : list script_step :=
  let bs := response_bytes sample_options sample_request sample_response in
  let hdr := Bytes (ztake RPC_RESP_HEADER_SIZE bs) in
  let ctx := Bytes (zdrop RPC_RESP_HEADER_SIZE bs) in
  [Send (pkg 11); Run 0 Done_op; Run 0 Done_op; Send (pkg 22); Run 0 Done_op; Run 0 Done_op;
   Run 0 Done_op; Run 1 Done_op; Run 1 Done_op; Run 1 Done_op; Run 1 Done_op; Run 1 Done_op;
   Run 0 hdr; Run 0 ctx; Run 0 Done_op; Run 0 hdr; Run 0 ctx; Run 0 Done_op].

Definition final_client : rpc_client :=
  match exec sample_options script [] rpc_client_new with Some (_, c) => c | None => rpc_client_new end.

Lemma script_healthy : healthy sample_options [pkg 11; pkg 22] final_client.
Proof.
  apply (exec_healthy _ script [] rpc_client_new); [constructor|].
  unfold final_client. by vm_compute.
Qed.

Lemma streaming_in_order_witness :
  map pk_when_done [pkg 11; pkg 22] = map done_handler (dones_ final_client).
Proof.
  apply (streaming_in_order sample_options [pkg 11; pkg 22] final_client eq_refl script_healthy).
  by vm_compute.
Defined.

Lemma sample_response_ok : resp_ok sample_options sample_request sample_response.
Proof. split; try done. by exists [5; 6; 7], 0. Qed.

Lemma response_over_wire_witness :
  exists bs c',
    encode_response sample_options sample_request sample_response = Ok (mkbuf bs 0) /\
    read_response sample_options (pkg 11) bs rpc_client_new = (Ok tt, c') /\
    dones_ c' = [Done 11 (Some (wire_resp sample_request sample_response))].
Proof.
  exact (response_over_wire sample_options sample_options sample_request sample_response (pkg 11)
           rpc_client_new sample_response_ok eq_refl).
Defined.

