(* ===== verification/SessionSamples.v ===== *)
(** A follower behind a session, for the theorem about append requests from the stream
    to the log. *)
From S2P Require Import Prelude Buffer Codec Messages LogStore Server Samples Append.
From S2P Require Import IoSamples Wire WireOk Session SessionOk Composed StreamSession ServerSession.

#[local] Existing Instance zeroed.
#[local] Existing Instance sample_env.

#[local] Instance nothing_meanwhile : Meanwhile (L := inmem_log_store) := id.

#[local] Instance timed_out : Awaiting (L := inmem_log_store) := fun idx s =>
  (mk_commit_ret_elem idx TIMEOUT None false false, s).

Definition follower_session : rpc_session (H := raft_server inmem_log_store) :=
  rpc_session_new 1 sample_follower (mkbuf (fresh RPC_REQ_HEADER_SIZE) 0).

Lemma sample_append_ok : req_ok options_default (sample_append [1; 3]).
Proof.
  assert (forall t, is_u64 t -> entry_ok (sample_entry t)) as He.
  { intros t Ht. split; try done; [by exists 0|]. repeat constructor; done. }
  split; try done. constructor; [by apply He|]. constructor; [by apply He|done].
Qed.

Lemma sample_callbacks_pass : callbacks_pass.
Proof. by split. Qed.

#[local] Opaque sample_follower.

