(* ===== verification/Service.v ===== *)
(** xio_service.cc: [xio_service], what is around the sessions and the clients: the
    endpoints of clients, the listener that accepts connections, and delayed tasks
    (delayed_task.h, delayed_task_scheduler.h) on the timers of the I/O core. *)
From S2P Require Import Prelude.

(** * Endpoints

    [std::string] with the functions [create_client] uses of it. *)

Definition npos : Z := 2 ^ 64 - 1.

Fixpoint starts_with (pat s : list Z) : bool :=
  match pat, s with
  | [], _ => true
  | p :: pat, c :: s => (p =? c) && starts_with pat s
  | _, [] => false
  end.

(** The last place, up to [limit], where [pat] starts in [s]; [i] is the index of
    [s] in the whole string. *)
Fixpoint last_match (pat s : list Z) (limit i : Z) : option Z :=
  match s with
  | [] => None
  | _ :: s' =>
      match last_match pat s' limit (i + 1) with
      | Some j => Some j
      | None => if (i <=? limit) && starts_with pat s then Some i else None
      end
  end.

Definition rfind (pat s : list Z) (limit : Z) : option Z := last_match pat s limit 0.

Definition is_digit (c : Z) : bool := (48 <=? c) && (c <=? 57).

Definition is_space (c : Z) : bool := (c =? 32) || ((9 <=? c) && (c <=? 13)).

(** The number at the front of [s], and whether there is one. *)
Fixpoint digits_value (s : list Z) (v : Z) : Z :=
  match s with
  | c :: s => if is_digit c then digits_value s (10 * v + (c - 48)) else v
  | [] => v
  end.

Fixpoint skip_space (s : list Z) : list Z :=
  match s with
  | c :: s' => if is_space c then skip_space s' else s
  | [] => []
  end.

Definition stoi (s : list Z) : res Z :=
  let '(sign, s) :=
    match skip_space s with
    | 45 :: s => (-1, s)
    | 43 :: s => (1, s)
    | s => (1, s)
    end in
  match s with
  | c :: _ =>
      if is_digit c then
        let v := sign * digits_value s 0 in
        if (- 2 ^ 31 <=? v) && (v <? 2 ^ 31) then Ok v else Throw Out_of_range
      else Throw Invalid_argument
  | [] => Throw Invalid_argument
  end.

Fixpoint decimal (fuel : nat) (n : Z) (acc : list Z) : list Z :=
  match fuel with
  | O => acc
  | S fuel =>
      let acc := (48 + n mod 10) :: acc in
      if n / 10 =? 0 then acc else decimal fuel (n / 10) acc
  end.

(** [std::to_string] of an [int], which has at most ten digits. *)
Definition to_string (n : Z) : list Z :=
  if n <? 0 then 45 :: decimal 10 (- n) [] else decimal 10 n [].

Definition colon : list Z := [58].

Definition scheme_end : list Z := [58; 47; 47].

Definition hostname_of (endpoint : list Z) (pos : Z) : list Z :=
  match rfind scheme_end endpoint (u64 (pos - 1)) with
  | None => ztake pos endpoint
  | Some pos2 => ztake (u64 (pos - pos2 - 3)) (zdrop (pos2 + 3) endpoint)
  end.

(** The host and the port a client is made for; [None]: the endpoint is invalid
    and there is no client. *)
Definition create_client (endpoint : list Z) : res (option (list Z * list Z)) :=
  match rfind colon endpoint npos with
  | None => Ok None
  | Some pos =>
      match stoi (zdrop (pos + 1) endpoint) with
      | Throw e => Throw e
      | Ok port_num =>
          if port_num =? 0 then Ok None
          else
            let port := to_string port_num in
            match hostname_of endpoint pos with
            | [] => Ok None
            | hostname => Ok (Some (hostname, port))
            end
      end
  end.

(** ** Numbers *)

Definition digits (l : list Z) : Prop := Forall (fun c => 48 <= c <= 57) l.

Lemma decimal_digits fuel n acc : digits acc -> digits (decimal fuel n acc).
Proof.
  revert n acc. induction fuel as [|fuel IH]; intros n acc Ha; [done|]. cbn.
  assert (digits ((48 + n mod 10) :: acc)).
  { constructor; [|done]. pose proof (Z.mod_pos_bound n 10). lia. }
  destruct (_ =? _); [done|by apply IH].
Qed.

Lemma decimal_value fuel n acc :
  0 <= n < 10 ^ Z.of_nat fuel -> (0 < fuel)%nat ->
  digits_value (decimal fuel n acc) 0 = digits_value acc n.
Proof.
  revert n acc. induction fuel as [|fuel IH]; intros n acc Hn Hf; [lia|]. cbn [decimal].
  pose proof (Z.mod_pos_bound n 10 ltac:(lia)). pose proof (Z.div_mod n 10 ltac:(lia)).
  assert (forall v, digits_value ((48 + n mod 10) :: acc) v = digits_value acc (10 * v + n mod 10)) as E.
  { intros v. cbn. unfold is_digit. rewrite !leb_true by lia. cbn. f_equal. lia. }
  destruct (Z.eqb_spec (n / 10) 0) as [E0|E0].
  - rewrite E. f_equal. lia.
  - rewrite Nat2Z.inj_succ, Z.pow_succ_r in Hn by lia.
    assert (0 <= n / 10 < 10 ^ Z.of_nat fuel).
    { split; [apply Z.div_pos; lia|]. apply Z.div_lt_upper_bound; lia. }
    rewrite IH; [rewrite E; f_equal; lia|done|].
    destruct fuel; [cbn in *; lia|lia].
Qed.

Lemma decimal_cons fuel n acc : (0 < fuel)%nat -> decimal fuel n acc <> [].
Proof.
  intros Hf. assert (forall fuel n acc, acc <> [] -> decimal fuel n acc <> []) as H.
  { clear. induction fuel as [|fuel IH]; intros n acc Ha; [done|]. cbn.
    destruct (_ =? _); [done|by apply IH]. }
  destruct fuel; [lia|]. cbn. destruct (_ =? _); [done|by apply H].
Qed.

Lemma stoi_value n :
  0 <= n < 10 ^ 10 ->
  stoi (to_string n) = if (- 2 ^ 31 <=? n) && (n <? 2 ^ 31) then Ok n else Throw Out_of_range.
Proof.
  intros Hn. unfold to_string. rewrite ltb_false by lia.
  pose proof (decimal_digits 10 n [] ltac:(constructor)) as Hd.
  pose proof (decimal_value 10 n [] ltac:(cbn; lia) ltac:(lia)) as Hv.
  pose proof (decimal_cons 10 n [] ltac:(lia)) as Hc.
  destruct (decimal 10 n []) as [|c l]; [done|]. apply Forall_cons in Hd as [Hcd _].
  unfold stoi. cbn [skip_space]. unfold is_space.
  rewrite eqb_false, (leb_false c 13), andb_false_r by lia. cbn [orb].
  assert ((match c :: l with 45 :: s => (-1, s) | 43 :: s => (1, s) | s => (1, s) end) = (1, c :: l)) as ->.
  { assert (c = 48 \/ c = 49 \/ c = 50 \/ c = 51 \/ c = 52 \/ c = 53 \/ c = 54 \/ c = 55 \/ c = 56 \/ c = 57)
      as E by lia. repeat destruct E as [->|E]; try done. by subst. }
  unfold is_digit at 1. rewrite !leb_true by lia. cbn [andb]. rewrite Hv. cbn [digits_value].
  by rewrite Z.mul_1_l.
Qed.

(** A number is read back as it was printed. *)
Lemma stoi_to_string n : 0 <= n < 2 ^ 31 -> stoi (to_string n) = Ok n.
Proof. intros Hn. rewrite stoi_value by lia. by rewrite leb_true, ltb_true by lia. Qed.

(** ** Matches *)

Fixpoint occurs (pat s : list Z) : bool :=
  match s with
  | [] => false
  | _ :: s' => starts_with pat s || occurs pat s'
  end.

Lemma last_match_none pat s limit i : occurs pat s = false -> last_match pat s limit i = None.
Proof.
  revert i. induction s as [|c s IH]; intros i; [done|]. cbn [occurs last_match].
  intros [-> ?]%orb_false_iff. by rewrite IH, andb_false_r.
Qed.

Lemma last_match_app pat a b limit i j :
  last_match pat b limit (i + zlen a) = Some j -> last_match pat (a ++ b) limit i = Some j.
Proof.
  revert i. induction a as [|c a IH]; intros i; cbn [app last_match].
  - by rewrite zlen_nil, Z.add_0_r.
  - rewrite zlen_cons. intros E. rewrite (IH (i + 1)); [done|]. rewrite <- E. f_equal. lia.
Qed.

(** A match that is the last one. *)
Lemma last_match_here pat a c b limit :
  starts_with pat (c :: b) = true -> occurs pat b = false -> zlen a <= limit ->
  rfind pat (a ++ c :: b) limit = Some (zlen a).
Proof.
  intros Hs Ho Hl. apply last_match_app. cbn [last_match]. rewrite last_match_none by done.
  by rewrite leb_true, Hs by lia.
Qed.

Lemma digits_occurs c pat l : digits l -> c < 48 \/ 57 < c -> occurs (c :: pat) l = false.
Proof.
  intros Hl Hc. induction Hl as [|d l Hd _ IH]; [done|]. cbn. by rewrite eqb_false, IH by lia.
Qed.

(** [://] does not occur behind a host. *)
Lemma host_port_occurs host port :
  occurs scheme_end host = false -> digits port -> occurs scheme_end (host ++ 58 :: port) = false.
Proof.
  intros Hh Hp. induction host as [|c host IH].
  - cbn [app occurs]. unfold scheme_end at 2. rewrite (digits_occurs 58) by (done || lia).
    destruct Hp as [|d l Hd Hl]; [done|]. unfold scheme_end. cbn [starts_with].
    by rewrite (eqb_false 47 d) by lia.
  - cbn [app occurs] in *. apply orb_false_iff in Hh as [Hs Hh]. rewrite IH, orb_false_r by done.
    unfold scheme_end in *. cbn [starts_with] in *. destruct (58 =? c); [|done].
    destruct host as [|d host]; [done|]. cbn [app starts_with andb] in *.
    destruct (47 =? d); [|done]. cbn [andb] in *. by destruct host.
Qed.

Definition host_port (host : list Z) (port : Z) : list Z := host ++ colon ++ to_string port.

Lemma to_string_digits n : 0 <= n -> digits (to_string n).
Proof. intros Hn. unfold to_string. rewrite ltb_false by lia. apply decimal_digits. constructor. Qed.

Lemma hostname_of_ok pre host port :
  digits port -> host <> [] -> occurs scheme_end host = false ->
  zlen (pre ++ host) < npos -> pre = [] \/ (exists a, pre = a ++ scheme_end) ->
  hostname_of (pre ++ host ++ 58 :: port) (zlen (pre ++ host)) = host.
Proof.
  intros Hd Hh Ho Hl Hpre. unfold hostname_of. zlen_facts. rewrite zlen_app in Hl |- *.
  assert (0 < zlen host) by (destruct host; [done|zlen_lia]).
  rewrite u64_small by (unfold_width; unfold npos in *; zlen_lia). destruct Hpre as [->|[a ->]].
  - cbn [app]. unfold rfind. rewrite last_match_none by by apply host_port_occurs.
    by rewrite zlen_nil, Z.add_0_l, ztake_app.
  - assert (zlen (a ++ scheme_end) = zlen a + 3) as La by (unfold scheme_end; zlen_lia).
    rewrite La in *. rewrite <- app_assoc. unfold scheme_end at 2. cbn [app].
    rewrite last_match_here; [|done| |lia].
    + pose proof (zlen_nonneg a). rewrite u64_small by (unfold_width; unfold npos in *; lia).
      replace (zlen a + 3 + zlen host - zlen a - 3) with (zlen host) by lia. rewrite <- La.
      by rewrite app_assoc, zdrop_app, ztake_app.
    + cbn. by apply host_port_occurs.
Qed.

Lemma create_client_host pre host port :
  0 < port < 2 ^ 31 -> host <> [] -> occurs scheme_end host = false ->
  zlen (pre ++ host_port host port) < npos -> pre = [] \/ (exists a, pre = a ++ scheme_end) ->
  create_client (pre ++ host_port host port) = Ok (Some (host, to_string port)).
Proof.
  intros Hp Hh Ho Hl Hpre. pose proof (to_string_digits port ltac:(lia)) as Hd.
  unfold create_client, host_port, colon in *. cbn [app] in *.
  rewrite app_assoc in *. rewrite zlen_app, zlen_cons in Hl. pose proof (zlen_nonneg (to_string port)).
  rewrite last_match_here; [|done|apply digits_occurs; [done|lia]|lia].
  replace (zdrop (zlen (pre ++ host) + 1) _) with (to_string port).
  2:{ replace (zlen (pre ++ host) + 1) with (zlen ((pre ++ host) ++ [58])) by (rewrite zlen_app; done).
      change (58 :: to_string port) with ([58] ++ to_string port). by rewrite (app_assoc _ [58]), zdrop_app. }
  rewrite stoi_to_string, eqb_false by lia.
  rewrite <- app_assoc, hostname_of_ok by (done || lia). by destruct host.
Qed.

(** An endpoint, with a scheme or without one, gives its host and its port. *)
Theorem endpoint_parsed (scheme host : list Z) (port : Z) :
  0 < port < 2 ^ 31 -> host <> [] -> occurs scheme_end host = false ->
  zlen (scheme ++ scheme_end ++ host_port host port) < npos ->
  create_client (host_port host port) = Ok (Some (host, to_string port)) /\
  create_client (scheme ++ scheme_end ++ host_port host port) = Ok (Some (host, to_string port)).
Proof.
  intros Hp Hh Ho Hl. split.
  - apply (create_client_host []); try done; [|by left]. cbn [app]. rewrite !zlen_app in *. zlen_facts.
    pose proof (zlen_nonneg scheme). pose proof (zlen_nonneg scheme_end). lia.
  - rewrite app_assoc in *. apply create_client_host; try done. right. by eexists.
Qed.

(** Without a number behind the last colon [stoi] throws, and the exception is not
    caught: [tcp://h]. *)
Example endpoint_without_port : create_client [116; 99; 112; 58; 47; 47; 104] = Throw Invalid_argument.
Proof. reflexivity. Qed.

(** The range of ports is not checked: [h:-7]. *)
Example endpoint_negative_port : create_client [104; 58; 45; 55] = Ok (Some ([104], [45; 55])).
Proof. reflexivity. Qed.

(** * The listener *)

Module Listener.

(** A session is its number; [accepting_] are those whose [async_accept] is
    pending, [started_] those given a connection and [ended_] those that
    [shutdown] stops. *)
Record listener := mk_listener {
  handler_ : bool;
  stopped_ : bool;
  acceptor_open_ : bool;
  active_sessions_ : list Z;
  session_id_cnt_ : Z;
  accepting_ : list Z;
  started_ : list Z;
  ended_ : list Z
}.

#[global] Instance eta_listener : Eta listener := fun l =>
  mk_listener (handler_ l) (stopped_ l) (acceptor_open_ l) (active_sessions_ l) (session_id_cnt_ l)
    (accepting_ l) (started_ l) (ended_ l).

Definition xio_rpc_listener : listener := mk_listener false false true [] 1 [] [] [].

Definition start (l : listener) : listener :=
  if acceptor_open_ l then
    l <| session_id_cnt_ := u64 (session_id_cnt_ l + 1) |>
      <| accepting_ := accepting_ l ++ [session_id_cnt_ l] |>
  else l.

Definition stop (l : listener) : listener := l <| stopped_ := true |> <| acceptor_open_ := false |>.

Definition listen (l : listener) : listener :=
  start (l <| handler_ := true |> <| stopped_ := false |>).

(** [s] is stopped, which calls [remove_session]. *)
Definition remove_session (s : Z) (l : listener) : listener :=
  l <| active_sessions_ ::= fun ss => match list_find (fun x => x = s) ss with
                                       | Some (i, _) => delete i ss
                                       | None => ss
                                       end |>.

Definition shutdown (l : listener) : listener :=
  (l <| ended_ := ended_ l ++ active_sessions_ l |> <| active_sessions_ := [] |>)
    <| handler_ := false |>.

(** The [async_accept] of session [s] completes. *)
Definition handle_accept (s : Z) (err : bool) (l : listener) : listener :=
  let l := if err then l else l <| started_ ::= fun ss => ss ++ [s] |> in
  if stopped_ l then l else start l.

(** A closed acceptor completes what is pending with an error. *)
Inductive lstep : listener -> listener -> Prop :=
| ls_listen l : lstep l (listen l)
| ls_stop l : lstep l (stop l)
| ls_shutdown l : lstep l (shutdown l)
| ls_remove l s : lstep l (remove_session s l)
| ls_accept l s a b err :
    accepting_ l = a ++ s :: b -> acceptor_open_ l = true \/ err = true ->
    lstep l (handle_accept s err (l <| accepting_ := a ++ b |>)).

(** The states after [n] steps. *)
Inductive lreach : nat -> listener -> Prop :=
| lr_new : lreach 0 xio_rpc_listener
| lr_step n l l' : lreach n l -> lstep l l' -> lreach (S n) l'.

(** The sessions created so far have numbers below the counter, each once; none is
    kept in [active_sessions_]. *)
Record listener_inv (n : nat) (l : listener) : Prop := {
  li_active : active_sessions_ l = [];
  li_ended : ended_ l = [];
  li_count : 0 <= session_id_cnt_ l <= Z.of_nat n + 1;
  li_nodup : NoDup (accepting_ l ++ started_ l);
  li_below : Forall (fun s => s < session_id_cnt_ l) (accepting_ l ++ started_ l)
}.

Lemma inv_weaken n l : listener_inv n l -> listener_inv (S n) l.
Proof. intros []. split; try done. lia. Qed.

Lemma start_inv n l : Z.of_nat n + 2 < 2 ^ 64 -> listener_inv n l -> listener_inv (S n) (start l).
Proof.
  intros Hn Hi. unfold start. destruct (acceptor_open_ l); [|by apply inv_weaken].
  destruct Hi as [Ha He Hc Hd Hb]. split; cbn; try done.
  - rewrite u64_small by (unfold_width; lia). lia.
  - rewrite <- app_assoc. cbn. rewrite <- Permutation_middle. constructor; [|done].
    intros Hin. rewrite Forall_forall in Hb. specialize (Hb _ Hin). lia.
  - rewrite u64_small by (unfold_width; lia). rewrite <- app_assoc.
    apply Forall_app in Hb as [Hb1 Hb2].
    apply Forall_app_2; [|constructor; [lia|]]; eapply Forall_impl; try done; cbn; intros; lia.
Qed.

Lemma lstep_inv n l l' :
  Z.of_nat n + 2 < 2 ^ 64 -> listener_inv n l -> lstep l l' -> listener_inv (S n) l'.
Proof.
  intros Hn Hi Hs. destruct Hs as [l|l|l|l s|l s a b err Ea Ho].
  - apply start_inv; [done|]. by destruct Hi.
  - apply inv_weaken. by destruct Hi.
  - apply inv_weaken. destruct Hi as [Ha He ? ? ?]. split; cbn; try done. by rewrite Ha, He.
  - apply inv_weaken. destruct Hi as [Ha He ? ? ?]. split; cbn; try done. by rewrite Ha.
  - destruct Hi as [Ha He Hc Hd Hb]. rewrite Ea, <- app_assoc in *. cbn in *.
    rewrite <- Permutation_middle in Hd. rewrite <- Permutation_middle in Hb.
    apply NoDup_cons in Hd as [Hs Hd]. apply Forall_cons in Hb as [Hlt Hb].
    assert (listener_inv n (l <| accepting_ := a ++ b |> <| started_ ::=
      fun ss => if err then ss else ss ++ [s] |>)) as Hi.
    { split; cbn; try done; destruct err; rewrite ?app_assoc in *; try done.
      - rewrite <- Permutation_cons_append. by constructor.
      - by apply Forall_app_2; [|constructor]. }
    assert (handle_accept s err (l <| accepting_ := a ++ b |>)
      = let l' := (l <| accepting_ := a ++ b |> <| started_ ::= fun ss => if err then ss else ss ++ [s] |>) in
        if stopped_ l' then l' else start l') as -> by by destruct err, l.
    cbv zeta. destruct (stopped_ _); [by apply inv_weaken|by apply start_inv].
Qed.

Lemma lreach_inv n l : Z.of_nat n + 1 < 2 ^ 64 -> lreach n l -> listener_inv n l.
Proof.
  intros Hn Hr. induction Hr as [|n l l' Hr IH Hs].
  - split; try done; constructor.
  - apply (lstep_inv n l); [lia|apply IH; lia|done].
Qed.

(** Connections are given to different sessions, and [shutdown] stops none of
    them: no session is ever put into [active_sessions_]. *)
Lemma sessions_outlive_shutdown n l :
  Z.of_nat n + 1 < 2 ^ 64 -> lreach n l -> NoDup (started_ l) /\ ended_ (shutdown l) = [].
Proof.
  intros Hn Hr. destruct (lreach_inv n l Hn Hr) as [Ha He _ Hd _]. split.
  - by apply NoDup_app in Hd as (_ & _ & ?).
  - cbn. by rewrite Ha, He.
Qed.

(** A listener that was stopped does not accept again: [listen] leaves its acceptor
    closed. *)
Lemma stopped_for_good l : accepting_ (listen (stop l)) = accepting_ l.
Proof. done. Qed.

End Listener.

(** * Delayed tasks *)

Module Delayed.

(** A task with its timer: the waits pending on the timer, the completions of waits
    that are queued ([true]: with an error), the times [exec] was called and the
    times [schedule] was. *)
Record delayed_task := mk_task {
  cancelled_ : bool;
  impl_ctx_ : bool;
  waiting_ : nat;
  queued_ : list bool;
  execs_ : nat;
  schedules_ : nat
}.

#[global] Instance eta_delayed_task : Eta delayed_task := fun t =>
  mk_task (cancelled_ t) (impl_ctx_ t) (waiting_ t) (queued_ t) (execs_ t) (schedules_ t).

Definition delayed_task_new : delayed_task := mk_task false false 0 [] 0 0.

(** The timer's [cancel]: the pending waits complete with an error. *)
Definition timer_cancel (t : delayed_task) : delayed_task :=
  t <| queued_ := queued_ t ++ repeat true (waiting_ t) |> <| waiting_ := O |>.

(** [expires_after] cancels the waits of the timer. *)
Definition schedule (t : delayed_task) : delayed_task :=
  let t := t <| impl_ctx_ := true |> <| cancelled_ := false |> in
  let t := timer_cancel t in
  t <| waiting_ := S (waiting_ t) |> <| schedules_ := S (schedules_ t) |>.

Definition cancel_impl (t : delayed_task) : delayed_task := if impl_ctx_ t then timer_cancel t else t.

Definition cancel (t : delayed_task) : delayed_task := (cancel_impl t) <| cancelled_ := true |>.

(** The time of the timer is over. *)
Definition expire (t : delayed_task) : delayed_task :=
  t <| queued_ := queued_ t ++ repeat false (waiting_ t) |> <| waiting_ := O |>.

Definition execute (t : delayed_task) : delayed_task :=
  if cancelled_ t then t else t <| execs_ := S (execs_ t) |>.

Definition timer_handler (err : bool) (t : delayed_task) : delayed_task := if err then t else execute t.

Inductive dstep : delayed_task -> delayed_task -> Prop :=
| ds_schedule t : dstep t (schedule t)
| ds_cancel t : dstep t (cancel t)
| ds_expire t : dstep t (expire t)
| ds_handler t err q : queued_ t = err :: q -> dstep t (timer_handler err (t <| queued_ := q |>)).

Inductive dreach : delayed_task -> delayed_task -> Prop :=
| dr_refl t : dreach t t
| dr_step t t' t'' : dreach t t' -> dstep t' t'' -> dreach t t''.

Definition due (q : list bool) : nat := length (List.filter negb q).

#[local] Arguments due : simpl never.

Lemma due_app q r : due (q ++ r) = (due q + due r)%nat.
Proof. unfold due. by rewrite List.filter_app, length_app. Qed.

Lemma due_repeat b n : due (repeat b n) = if b then O else n.
Proof. unfold due. induction n as [|n IH]; [by destruct b|]. cbn. destruct b; cbn in *; lia. Qed.

Definition accounted (t : delayed_task) : Prop := (execs_ t + due (queued_ t) + waiting_ t <= schedules_ t)%nat.

Lemma dstep_accounted t t' : accounted t -> dstep t t' -> accounted t'.
Proof.
  unfold accounted. intros Ha Hs. destruct Hs as [t|t|t|t err q Eq]; cbn.
  - rewrite due_app, due_repeat. cbn. lia.
  - unfold cancel_impl. destruct (impl_ctx_ t); cbn; [rewrite due_app, due_repeat; cbn|]; lia.
  - rewrite due_app, due_repeat. cbn. lia.
  - rewrite Eq in Ha. change (err :: q) with ([err] ++ q) in Ha. rewrite due_app in Ha.
    destruct err; [exact Ha|]. change (due [false]) with 1%nat in Ha.
    destruct t as [[] ? ? ? ? ?]; cbn in *; lia.
Qed.

(** A task runs at most as often as it was scheduled, and not between a [cancel] and
    the next [schedule]. *)
Lemma task_executions t : dreach delayed_task_new t -> (execs_ t <= schedules_ t)%nat.
Proof.
  intros Hr. assert (accounted t) as Ha; [|unfold accounted in Ha; lia].
  remember delayed_task_new as t0 eqn:E. induction Hr as [|t t' t'' Hr IH Hs].
  { subst. unfold accounted, due. cbn. lia. }
  eapply dstep_accounted; [by apply IH|done].
Qed.

Lemma cancelled_task t t' :
  dreach (cancel t) t' -> schedules_ t' = schedules_ t -> execs_ t' = execs_ t.
Proof.
  intros Hr. remember (cancel t) as t0 eqn:E0.
  assert (execs_ (cancel t) = execs_ t /\ schedules_ (cancel t) = schedules_ t) as [C1 C2]
    by (unfold cancel, cancel_impl; by destruct (impl_ctx_ t)).
  assert ((schedules_ t <= schedules_ t')%nat /\
    (schedules_ t' = schedules_ t -> execs_ t' = execs_ t /\ cancelled_ t' = true)) as [_ H]; [|intros E; by apply H].
  induction Hr as [|t0 t1 t2 Hr IH Hs]; subst.
  - rewrite C1, C2. done.
  - destruct (IH eq_refl) as [L IH']. destruct Hs as [t1|t1|t1|t1 err q Eq]; cbn in *.
    + split; lia.
    + unfold cancel_impl. destruct (impl_ctx_ t1); cbn; (split; [lia|]); intros [? _]%IH'; done.
    + by split.
    + destruct err; [by split|]. destruct t1 as [[] ? ? ? ? ?]; cbn in *; [by split|].
      split; [done|]. by intros [_ ?]%IH'.
Qed.

(** A task that is cancelled and scheduled again may run at once: the completion of
    its first wait is queued already, and [schedule] clears the flag that would
    have stopped it. *)
Lemma rescheduled_runs_early :
  exists t, dreach delayed_task_new t /\ execs_ t = 1%nat /\ waiting_ t = 1%nat /\ schedules_ t = 2%nat.
Proof.
  pose (t := schedule (cancel (expire (schedule delayed_task_new)))).
  exists (timer_handler false (t <| queued_ := [] |>)). split; [|done].
  eapply dr_step; [|by apply (ds_handler t)]. do 4 (eapply dr_step; [|constructor]). constructor.
Qed.

End Delayed.
