(* ===== verification/Address.v ===== *)
(** ip/: IP addresses (address_v4, address_v6, address), the iterators and ranges over
    them (address_v4_iterator.h, address_v6_iterator.h, address_v4_range.h,
    address_v6_range.h), endpoints (ip/detail/endpoint.h), and the conversions to and from
    text with the two functions of socket_ops.cc they use.

    An address is the bytes of [s_addr] or [s6_addr] in memory, so in network order; its
    value is the number they are.  What iterators of both versions promise to a range is
    the class [AddressLaws]; ranges are studied once, against it. *)
From S2P Require Import Prelude Buffer Service.

(** * Bytes in network order *)

(** [htonl] and [ntohl], on the bytes of an integer in memory. *)
Fixpoint be_bytes (n : nat) (v : Z) : list Z :=
  match n with
  | O => []
  | S n => (v / 256 ^ Z.of_nat n) mod 256 :: be_bytes n v
  end.

Fixpoint be_value (l : list Z) : Z :=
  match l with
  | [] => 0
  | b :: l => b * 256 ^ zlen l + be_value l
  end.

Definition byte (l : list Z) (i : nat) : Z := nth i l 0.

(** [memcmp] of two arrays of the same size. *)
Fixpoint memcmp (l k : list Z) : Z :=
  match l, k with
  | a :: l, b :: k => if a =? b then memcmp l k else if a <? b then -1 else 1
  | _, _ => 0
  end.

(** * address_v4 *)

Record address_v4 := { s_addr : list Z }.

#[global] Instance address_v4_eq_dec : EqDecision address_v4.
Proof. solve_decision. Defined.

Definition v4_default : address_v4 := {| s_addr := [0; 0; 0; 0] |}.

Definition v4_of_bytes (bytes : list Z) : address_v4 := {| s_addr := bytes |}.

Definition v4_of_uint (addr : Z) : address_v4 := {| s_addr := be_bytes 4 (u32 addr) |}.

Definition v4_to_bytes (a : address_v4) : list Z := s_addr a.

Definition v4_to_uint (a : address_v4) : Z := be_value (s_addr a).

Definition v4_is_loopback (a : address_v4) : bool := Z.land (v4_to_uint a) 0xFF000000 =? 0x7F000000.

Definition v4_is_unspecified (a : address_v4) : bool := v4_to_uint a =? 0.

Definition v4_is_multicast (a : address_v4) : bool := Z.land (v4_to_uint a) 0xF0000000 =? 0xE0000000.

Definition v4_eqb (a b : address_v4) : bool := bool_decide (s_addr a = s_addr b).

Definition v4_ltb (a b : address_v4) : bool := v4_to_uint a <? v4_to_uint b.

Definition v4_geb (a b : address_v4) : bool := v4_to_uint b <=? v4_to_uint a.

Definition v4_loopback : address_v4 := v4_of_uint 0x7F000001.

Definition v4_broadcast : address_v4 := v4_of_uint 0xFFFFFFFF.

(** [operator++] and [operator--] of the iterator. *)
Definition v4_next (a : address_v4) : address_v4 :=
  v4_of_uint (Z.land (u32 (v4_to_uint a + 1)) 0xFFFFFFFF).

Definition v4_prev (a : address_v4) : address_v4 :=
  v4_of_uint (Z.land (u32 (v4_to_uint a - 1)) 0xFFFFFFFF).

(** * address_v6 *)

Record address_v6 := { s6_addr : list Z; scope_id : Z }.

#[global] Instance address_v6_eq_dec : EqDecision address_v6.
Proof. solve_decision. Defined.

#[global] Instance eta_address_v6 : Eta address_v6 :=
  fun a => {| s6_addr := s6_addr a; scope_id := scope_id a |}.

Definition v6_default : address_v6 := {| s6_addr := replicate 16 0; scope_id := 0 |}.

Definition v6_of_bytes (bytes : list Z) (scope : Z) : address_v6 :=
  {| s6_addr := bytes; scope_id := scope |}.

Definition v6_to_bytes (a : address_v6) : list Z := s6_addr a.

Definition v6_loopback : address_v6 := v6_default <| s6_addr ::= <[15%nat := 1]> |>.

Definition v6_is_loopback (a : address_v6) : bool :=
  let b := byte (s6_addr a) in
  (b 0%nat =? 0) && (b 1%nat =? 0) && (b 2%nat =? 0) && (b 3%nat =? 0) &&
  (b 4%nat =? 0) && (b 5%nat =? 0) && (b 6%nat =? 0) && (b 7%nat =? 0) &&
  (b 8%nat =? 0) && (b 9%nat =? 0) && (b 10%nat =? 0) && (b 11%nat =? 0) &&
  (b 12%nat =? 0) && (b 13%nat =? 0) && (b 14%nat =? 0) && (b 15%nat =? 1).

Definition v6_is_unspecified (a : address_v6) : bool :=
  let b := byte (s6_addr a) in
  (b 0%nat =? 0) && (b 1%nat =? 0) && (b 2%nat =? 0) && (b 3%nat =? 0) &&
  (b 4%nat =? 0) && (b 5%nat =? 0) && (b 6%nat =? 0) && (b 7%nat =? 0) &&
  (b 8%nat =? 0) && (b 9%nat =? 0) && (b 10%nat =? 0) && (b 11%nat =? 0) &&
  (b 12%nat =? 0) && (b 13%nat =? 0) && (b 14%nat =? 0) && (b 15%nat =? 0).

Definition v6_is_link_local (a : address_v6) : bool :=
  (byte (s6_addr a) 0 =? 0xfe) && (Z.land (byte (s6_addr a) 1) 0xc0 =? 0x80).

Definition v6_is_site_local (a : address_v6) : bool :=
  (byte (s6_addr a) 0 =? 0xfe) && (Z.land (byte (s6_addr a) 1) 0xc0 =? 0xc0).

Definition v6_is_v4_mapped (a : address_v6) : bool :=
  let b := byte (s6_addr a) in
  (b 0%nat =? 0) && (b 1%nat =? 0) && (b 2%nat =? 0) && (b 3%nat =? 0) &&
  (b 4%nat =? 0) && (b 5%nat =? 0) && (b 6%nat =? 0) && (b 7%nat =? 0) &&
  (b 8%nat =? 0) && (b 9%nat =? 0) && (b 10%nat =? 0xff) && (b 11%nat =? 0xff).

Definition v6_is_multicast (a : address_v6) : bool := byte (s6_addr a) 0 =? 0xff.

Definition v6_is_multicast_global (a : address_v6) : bool :=
  (byte (s6_addr a) 0 =? 0xff) && (Z.land (byte (s6_addr a) 1) 0x0f =? 0x0e).

Definition v6_is_multicast_link_local (a : address_v6) : bool :=
  (byte (s6_addr a) 0 =? 0xff) && (Z.land (byte (s6_addr a) 1) 0x0f =? 0x02).

Definition v6_is_multicast_node_local (a : address_v6) : bool :=
  (byte (s6_addr a) 0 =? 0xff) && (Z.land (byte (s6_addr a) 1) 0x0f =? 0x01).

Definition v6_is_multicast_org_local (a : address_v6) : bool :=
  (byte (s6_addr a) 0 =? 0xff) && (Z.land (byte (s6_addr a) 1) 0x0f =? 0x08).

Definition v6_is_multicast_site_local (a : address_v6) : bool :=
  (byte (s6_addr a) 0 =? 0xff) && (Z.land (byte (s6_addr a) 1) 0x0f =? 0x05).

Definition v6_eqb (a b : address_v6) : bool :=
  (memcmp (s6_addr a) (s6_addr b) =? 0) && (scope_id a =? scope_id b).

Definition v6_ltb (a b : address_v6) : bool :=
  let memcmp_result := memcmp (s6_addr a) (s6_addr b) in
  if memcmp_result <? 0 then true
  else if 0 <? memcmp_result then false
  else scope_id a <? scope_id b.

Definition v6_geb (a b : address_v6) : bool := negb (v6_ltb a b).

(** The loops of [operator++] and [operator--] of the iterator, at the byte [i - 1]. *)
Fixpoint next_bytes (i : nat) (l : list Z) : list Z :=
  match i with
  | O => l
  | S i =>
      if byte l i <? 0xFF then <[i := byte l i + 1]> l
      else next_bytes i (<[i := 0]> l)
  end.

Fixpoint prev_bytes (i : nat) (l : list Z) : list Z :=
  match i with
  | O => l
  | S i =>
      if 0 <? byte l i then <[i := byte l i - 1]> l
      else prev_bytes i (<[i := 0xFF]> l)
  end.

Definition v6_next (a : address_v6) : address_v6 := a <| s6_addr ::= next_bytes 16 |>.

Definition v6_prev (a : address_v6) : address_v6 := a <| s6_addr ::= prev_bytes 16 |>.

(** ** Addresses of version 4 in those of version 6

    [None] is [bad_address_cast]. *)

Definition v4_of_mapped (v6_addr : address_v6) : option address_v4 :=
  if negb (v6_is_v4_mapped v6_addr) then None
  else
    let b := byte (v6_to_bytes v6_addr) in
    Some (v4_of_bytes [b 12%nat; b 13%nat; b 14%nat; b 15%nat]).

Definition v6_of_v4 (v4_addr : address_v4) : address_v6 :=
  let b := byte (v4_to_bytes v4_addr) in
  v6_of_bytes [0; 0; 0; 0; 0; 0; 0; 0; 0; 0; 0xFF; 0xFF; b 0%nat; b 1%nat; b 2%nat; b 3%nat] 0.

(** * address *)

Inductive ip_version := ipv4 | ipv6.

#[global] Instance ip_version_eq_dec : EqDecision ip_version.
Proof. solve_decision. Defined.

Record address := {
  type_ : ip_version;
  ipv4_address_ : address_v4;
  ipv6_address_ : address_v6 }.

Definition address_default : address :=
  {| type_ := ipv4; ipv4_address_ := v4_default; ipv6_address_ := v6_default |}.

Definition address_of_v4 (a : address_v4) : address :=
  {| type_ := ipv4; ipv4_address_ := a; ipv6_address_ := v6_default |}.

Definition address_of_v6 (a : address_v6) : address :=
  {| type_ := ipv6; ipv4_address_ := v4_default; ipv6_address_ := a |}.

Definition is_v4 (a : address) : bool := bool_decide (type_ a = ipv4).

Definition is_v6 (a : address) : bool := bool_decide (type_ a = ipv6).

(** [None] is [bad_address_cast]. *)
Definition to_v4 (a : address) : option address_v4 := if is_v4 a then Some (ipv4_address_ a) else None.

Definition to_v6 (a : address) : option address_v6 := if is_v6 a then Some (ipv6_address_ a) else None.

Definition is_loopback (a : address) : bool :=
  if is_v4 a then v4_is_loopback (ipv4_address_ a) else v6_is_loopback (ipv6_address_ a).

Definition is_unspecified (a : address) : bool :=
  if is_v4 a then v4_is_unspecified (ipv4_address_ a) else v6_is_unspecified (ipv6_address_ a).

Definition is_multicast (a : address) : bool :=
  if is_v4 a then v4_is_multicast (ipv4_address_ a) else v6_is_multicast (ipv6_address_ a).

Definition address_eqb (a1 a2 : address) : bool :=
  if negb (bool_decide (type_ a1 = type_ a2)) then false
  else if is_v6 a1 then v6_eqb (ipv6_address_ a1) (ipv6_address_ a2)
  else v4_eqb (ipv4_address_ a1) (ipv4_address_ a2).

Definition address_ltb (a1 a2 : address) : bool :=
  match type_ a1, type_ a2 with
  | ipv4, ipv6 => true
  | ipv6, ipv4 => false
  | ipv6, ipv6 => v6_ltb (ipv6_address_ a1) (ipv6_address_ a2)
  | ipv4, ipv4 => v4_ltb (ipv4_address_ a1) (ipv4_address_ a2)
  end.

(** * Text

    The system's [inet_ntop], [inet_pton], [if_indextoname] and [if_nametoindex], on
    strings without their end; [None] is a failure, and an index 0 that of the last. *)

Record inet_os := {
  os_ntop : ip_version -> list Z -> option (list Z);
  os_pton : ip_version -> list Z -> option (list Z);
  if_indextoname : Z -> option (list Z);
  if_nametoindex : list Z -> Z }.

Inductive error_code := no_error | invalid_argument.

Definition max_addr_v6_str_len : Z := 46 + 1 + 16.

Definition percent : Z := 37.

(** [atoi], which is not defined on numbers that are no [int]. *)
Definition atoi (s : list Z) : res Z :=
  match stoi s with
  | Ok v => Ok v
  | Throw Invalid_argument => Ok 0
  | Throw _ => Throw Undefined
  end.

(** [strchr], and what is in front of the character. *)
Fixpoint strchr (c : Z) (s : list Z) : option (list Z * list Z) :=
  match s with
  | [] => None
  | d :: s =>
      if d =? c then Some ([], d :: s)
      else match strchr c s with Some (a, b) => Some (d :: a, b) | None => None end
  end.

Definition scoped (bytes : list Z) : bool :=
  let is_link_local := (byte bytes 0 =? 0xfe) && (Z.land (byte bytes 1) 0xc0 =? 0x80) in
  let is_multicast_link_local := (byte bytes 0 =? 0xff) && (Z.land (byte bytes 1) 0x0f =? 0x02) in
  is_link_local || is_multicast_link_local.

Section Text.
Context (os : inet_os).

Definition if_name_of (src : list Z) (scope : Z) : list Z :=
  percent ::
    (if negb (scoped src) then to_string scope
     else match if_indextoname os scope with Some name => name | None => to_string scope end).

Definition inet_ntop (af : ip_version) (src : list Z) (scope : Z) : option (list Z) :=
  match os_ntop os af src with
  | None => None
  | Some dest =>
      if bool_decide (af = ipv6) && negb (scope =? 0) then Some (dest ++ if_name_of src scope)
      else Some dest
  end.

(** The bytes and the scope read, [None] if the result is not positive. *)
Definition inet_pton (af : ip_version) (src : list Z) : res (option (list Z * Z)) :=
  let if_name := if bool_decide (af = ipv6) then strchr percent src else None in
  let too_long := match if_name with Some (a, _) => max_addr_v6_str_len <? zlen a | None => false end in
  if too_long then Ok None
  else
    let src_ptr := match if_name with Some (a, _) => a | None => src end in
    match os_pton os af src_ptr with
    | None => Ok None
    | Some dest =>
        match if_name with
        | None => Ok (Some (dest, 0))
        | Some (_, name) =>
            let scope := if scoped dest then if_nametoindex os (tail name) else 0 in
            if scope =? 0 then
              let* v := atoi (tail name) in Ok (Some (dest, u64 v))
            else Ok (Some (dest, scope))
        end
    end.

(** [None] is an exception. *)
Definition v4_to_string (a : address_v4) : option (list Z) := inet_ntop ipv4 (s_addr a) 0.

Definition v6_to_string (a : address_v6) : option (list Z) := inet_ntop ipv6 (s6_addr a) (scope_id a).

Definition address_to_string (a : address) : option (list Z) :=
  if is_v6 a then v6_to_string (ipv6_address_ a) else v4_to_string (ipv4_address_ a).

(** From a string without zeros; a [std::string] is cut at its first zero. *)
Definition make_address_v4 (str : list Z) : res (address_v4 * error_code) :=
  let* r := inet_pton ipv4 str in
  match r with
  | None => Ok (v4_default, invalid_argument)
  | Some (bytes, _) => Ok (v4_of_bytes bytes, no_error)
  end.

Definition make_address_v6 (str : list Z) : res (address_v6 * error_code) :=
  let* r := inet_pton ipv6 str in
  match r with
  | None => Ok (v6_default, invalid_argument)
  | Some (bytes, scope) => Ok (v6_of_bytes bytes (u32 scope), no_error)
  end.

Definition make_address (str : list Z) : res (address * error_code) :=
  let* r := make_address_v6 str in
  match r with
  | (ipv6_address, no_error) => Ok (address_of_v6 ipv6_address, no_error)
  | _ =>
      let* r := make_address_v4 str in
      match r with
      | (ipv4_address, no_error) => Ok (address_of_v4 ipv4_address, no_error)
      | (_, ec) => Ok (address_default, ec)
      end
  end.

Definition make_address_v4_str (str : list Z) := make_address_v4 (cstr_prefix str).

Definition make_address_v6_str (str : list Z) := make_address_v6 (cstr_prefix str).
End Text.

(** * Endpoints

    The two members of the union [data_]; the ports are bytes in network order. *)

Inductive endpoint :=
| sockaddr_in (sin_port sin_addr : list Z)
| sockaddr_in6 (sin6_port : list Z) (sin6_flowinfo : Z) (sin6_addr : list Z) (sin6_scope_id : Z).

Definition endpoint_default : endpoint := sockaddr_in (be_bytes 2 0) (s_addr v4_default).

Definition endpoint_of_port (family : ip_version) (port_num : Z) : endpoint :=
  match family with
  | ipv4 => sockaddr_in (be_bytes 2 port_num) (s_addr v4_default)
  | ipv6 => sockaddr_in6 (be_bytes 2 port_num) 0 (replicate 16 0) 0
  end.

Definition endpoint_of (addr : address) (port_num : Z) : endpoint :=
  if is_v4 addr then sockaddr_in (be_bytes 2 port_num) (be_bytes 4 (v4_to_uint (ipv4_address_ addr)))
  else
    let v6_addr := ipv6_address_ addr in
    sockaddr_in6 (be_bytes 2 port_num) 0 (v6_to_bytes v6_addr) (scope_id v6_addr).

Definition port (e : endpoint) : Z :=
  match e with
  | sockaddr_in p _ => be_value p
  | sockaddr_in6 p _ _ _ => be_value p
  end.

Definition set_port (port_num : Z) (e : endpoint) : endpoint :=
  match e with
  | sockaddr_in _ a => sockaddr_in (be_bytes 2 port_num) a
  | sockaddr_in6 _ f a s => sockaddr_in6 (be_bytes 2 port_num) f a s
  end.

Definition endpoint_address (e : endpoint) : address :=
  match e with
  | sockaddr_in _ a => address_of_v4 (v4_of_uint (be_value a))
  | sockaddr_in6 _ _ a s => address_of_v6 (v6_of_bytes a s)
  end.

Definition set_address (addr : address) (e : endpoint) : endpoint := endpoint_of addr (port e).

Definition endpoint_eqb (e1 e2 : endpoint) : bool :=
  address_eqb (endpoint_address e1) (endpoint_address e2) && (port e1 =? port e2).

Definition endpoint_ltb (e1 e2 : endpoint) : bool :=
  if address_ltb (endpoint_address e1) (endpoint_address e2) then true
  else if negb (address_eqb (endpoint_address e1) (endpoint_address e2)) then false
  else port e1 <? port e2.

Definition bracketed (s : list Z) : list Z := 91 :: s ++ [93].

Definition endpoint_to_string (os : inet_os) (e : endpoint) : option (list Z) :=
  match address_to_string os (endpoint_address e) with
  | None => None
  | Some s =>
      let host := match e with sockaddr_in _ _ => s | sockaddr_in6 _ _ _ _ => bracketed s end in
      Some (host_port host (port e))
  end.

(** * Iterators and ranges *)

(** What an iterator does with the address it holds. *)
Class Address (A : Type) := {
  a_next : A -> A;
  a_prev : A -> A;
  a_eqb : A -> A -> bool;
  a_ltb : A -> A -> bool;
  a_geb : A -> A -> bool }.

#[global] Instance v4_address : Address address_v4 :=
  {| a_next := v4_next; a_prev := v4_prev; a_eqb := v4_eqb; a_ltb := v4_ltb; a_geb := v4_geb |}.

#[global] Instance v6_address : Address address_v6 :=
  {| a_next := v6_next; a_prev := v6_prev; a_eqb := v6_eqb; a_ltb := v6_ltb; a_geb := v6_geb |}.

(** [basic_address_range]; an iterator is its address. *)
Record range (A : Type) := { begin_ : A; end_ : A }.
Arguments begin_ {A} r.
Arguments end_ {A} r.

Definition find {A} `{Address A} (r : range A) (addr : A) : A :=
  if a_geb addr (begin_ r) && a_ltb addr (end_ r) then addr else end_ r.

(** The difference of two 32-bit integers. *)
Definition v4_size (r : range address_v4) : Z := u32 (v4_to_uint (end_ r) - v4_to_uint (begin_ r)).

Definition v4_empty (r : range address_v4) : bool := v4_size r =? 0.

Definition v6_empty (r : range address_v6) : bool := v6_eqb (begin_ r) (end_ r).

(** The addresses a loop from [b] to [e] visits. *)
Fixpoint walk {A} `{Address A} (fuel : nat) (b e : A) : option (list A) :=
  if a_eqb b e then Some []
  else match fuel with
  | O => None
  | S fuel => option_map (cons b) (walk fuel (a_next b) e)
  end.

(** * The value of bytes *)

Definition wf_bytes (n : nat) (l : list Z) : Prop := length l = n /\ Forall byte_ok l.

Lemma pow256_pos n : 0 <= n -> 0 < 256 ^ n.
Proof. intros. apply Z.pow_pos_nonneg; lia. Qed.

Lemma pow256_succ n : 256 ^ Z.of_nat (S n) = 256 * 256 ^ Z.of_nat n.
Proof. rewrite Nat2Z.inj_succ, Z.pow_succ_r; lia. Qed.

Lemma wf_bytes_cons n b l : wf_bytes (S n) (b :: l) <-> byte_ok b /\ wf_bytes n l.
Proof. unfold wf_bytes. rewrite Forall_cons. cbn. naive_solver lia. Qed.

Lemma wf_bytes_snoc n l b : wf_bytes (S n) (l ++ [b]) <-> wf_bytes n l /\ byte_ok b.
Proof. unfold wf_bytes. rewrite Forall_app, Forall_singleton, length_app. cbn. naive_solver lia. Qed.

Lemma wf_bytes_snoc_inv n l : wf_bytes (S n) l -> exists k b, l = k ++ [b] /\ wf_bytes n k /\ byte_ok b.
Proof.
  intros H. destruct l as [|b k _] using rev_ind; [by destruct H|]. exists k, b. by rewrite wf_bytes_snoc in H.
Qed.

Lemma be_value_range n l : wf_bytes n l -> 0 <= be_value l < 256 ^ Z.of_nat n.
Proof.
  revert n. induction l as [|b l IH]; intros n H; [by destruct H as [<- _]|].
  destruct n as [|n]; [by destruct H|]. apply wf_bytes_cons in H as [Hb H]. specialize (IH n H).
  rewrite pow256_succ. cbn [be_value]. unfold zlen, byte_ok in *. destruct H as [-> _]. nia.
Qed.

Lemma be_value_app l k : be_value (l ++ k) = be_value l * 256 ^ zlen k + be_value k.
Proof.
  induction l as [|b l IH]; [cbn; lia|]. cbn [app be_value]. zlen_facts.
  rewrite IH, zlen_app, Z.pow_add_r by lia. lia.
Qed.

Lemma be_value_snoc l b : be_value (l ++ [b]) = be_value l * 256 + b.
Proof. rewrite be_value_app. change (zlen [b]) with 1. cbn [be_value]. rewrite zlen_nil. lia. Qed.

Lemma be_bytes_wf n v : wf_bytes n (be_bytes n v).
Proof.
  induction n as [|n IH]; [by split|]. apply wf_bytes_cons. split; [|done].
  unfold byte_ok. apply Z.mod_pos_bound. lia.
Qed.

Lemma be_value_bytes n v : be_value (be_bytes n v) = v mod 256 ^ Z.of_nat n.
Proof.
  induction n as [|n IH]; [by rewrite Z.mod_1_r|]. cbn [be_bytes be_value]. rewrite IH.
  destruct (be_bytes_wf n v) as [E _]. unfold zlen. rewrite E, pow256_succ, (Z.mul_comm 256).
  pose proof (pow256_pos (Z.of_nat n)). rewrite Z.rem_mul_r by lia. lia.
Qed.

Lemma be_value_inj n l k : wf_bytes n l -> wf_bytes n k -> be_value l = be_value k -> l = k.
Proof.
  revert n k. induction l as [|b l IH]; intros n k Hl Hk E.
  - destruct Hl as [<- _], Hk as [Hk _]. by destruct k.
  - destruct n as [|n]; [by destruct Hl|]. destruct k as [|c k]; [by destruct Hk|].
    apply wf_bytes_cons in Hl as [Hb Hl], Hk as [Hc Hk]. cbn [be_value] in E.
    pose proof (be_value_range n l Hl). pose proof (be_value_range n k Hk).
    unfold zlen in E. destruct Hl as [L1 ?], Hk as [L2 ?]. rewrite L1, L2 in E.
    assert (b = c) as -> by nia. f_equal. eapply IH; [by split|by split|lia].
Qed.

Lemma be_bytes_value n l : wf_bytes n l -> be_bytes n (be_value l) = l.
Proof.
  intros H. eapply be_value_inj; [apply be_bytes_wf|done|].
  rewrite be_value_bytes, Z.mod_small; [done|by apply be_value_range].
Qed.

(** Comparing bytes compares values. *)
Lemma memcmp_value n l k :
  wf_bytes n l -> wf_bytes n k ->
  memcmp l k = match be_value l ?= be_value k with Lt => -1 | Eq => 0 | Gt => 1 end.
Proof.
  revert n k. induction l as [|b l IH]; intros n k Hl Hk.
  - destruct Hl as [<- _], Hk as [Hk _]. by destruct k.
  - destruct n as [|n]; [by destruct Hl|]. destruct k as [|c k]; [by destruct Hk|].
    apply wf_bytes_cons in Hl as [Hb Hl], Hk as [Hc Hk]. cbn [memcmp be_value].
    pose proof (be_value_range n l Hl). pose proof (be_value_range n k Hk). rewrite (IH n k Hl Hk).
    unfold zlen. destruct Hl as [-> _], Hk as [-> _].
    destruct (Z.eqb_spec b c) as [->|Ne].
    + by rewrite Z.add_compare_mono_l.
    + destruct (Z.ltb_spec b c); case Z.compare_spec; intros; (done || nia).
Qed.

(** ** Stepping *)

Lemma byte_app l b k : byte (l ++ b :: k) (length l) = b.
Proof. unfold byte. rewrite app_nth2, Nat.sub_diag by lia. done. Qed.

Lemma insert_here l (b c : Z) : <[length l := c]> (l ++ [b]) = l ++ [c].
Proof. rewrite insert_app_r_alt, Nat.sub_diag by lia. done. Qed.

Lemma byte_app_l l k i : (i < length l)%nat -> byte (l ++ k) i = byte l i.
Proof. intros. unfold byte. by rewrite app_nth1. Qed.

Lemma next_bytes_app i l k : (i <= length l)%nat -> next_bytes i (l ++ k) = next_bytes i l ++ k.
Proof.
  revert l. induction i as [|i IH]; intros l Hi; [done|]. cbn. rewrite byte_app_l by lia.
  rewrite !insert_app_l by lia. destruct (_ <? _); [done|]. apply IH. rewrite length_insert. lia.
Qed.

Lemma prev_bytes_app i l k : (i <= length l)%nat -> prev_bytes i (l ++ k) = prev_bytes i l ++ k.
Proof.
  revert l. induction i as [|i IH]; intros l Hi; [done|]. cbn. rewrite byte_app_l by lia.
  rewrite !insert_app_l by lia. destruct (_ <? _); [done|]. apply IH. rewrite length_insert. lia.
Qed.

(** [a mod W] when [a] is at most one [W] away. *)
Lemma mod_once a W : 0 <= a < W -> a mod W = a.
Proof. apply Z.mod_small. Qed.

Lemma next_bytes_snoc n k b :
  length k = n ->
  next_bytes (S n) (k ++ [b]) = if b <? 0xFF then k ++ [b + 1] else next_bytes n k ++ [0].
Proof. intros <-. cbn [next_bytes]. rewrite byte_app, !insert_here. by rewrite next_bytes_app. Qed.

Lemma next_bytes_value n l :
  wf_bytes n l ->
  wf_bytes n (next_bytes n l) /\ be_value (next_bytes n l) = (be_value l + 1) mod 256 ^ Z.of_nat n.
Proof.
  revert l. induction n as [|n IH]; intros l H.
  - split; [done|]. destruct H as [E _]. apply nil_length_inv in E. by subst.
  - apply wf_bytes_snoc_inv in H as (k & b & -> & Hk & Hb). pose proof (be_value_range n k Hk) as Hr.
    destruct (IH k Hk) as [Hw Hv]. rewrite next_bytes_snoc by apply Hk.
    rewrite pow256_succ, !be_value_snoc. unfold byte_ok in *.
    destruct (Z.ltb_spec b 255).
    + rewrite wf_bytes_snoc, be_value_snoc, Z.mod_small by lia. unfold byte_ok. split; [split; [done|lia]|lia].
    + rewrite wf_bytes_snoc, be_value_snoc, Hv. unfold byte_ok. split; [split; [done|lia]|].
      replace (be_value k * 256 + b + 1) with (256 * (be_value k + 1)) by lia.
      rewrite Zmult_mod_distr_l. lia.
Qed.

Lemma prev_bytes_snoc n k b :
  length k = n ->
  prev_bytes (S n) (k ++ [b]) = if 0 <? b then k ++ [b - 1] else prev_bytes n k ++ [0xFF].
Proof. intros <-. cbn [prev_bytes]. rewrite byte_app, !insert_here. by rewrite prev_bytes_app. Qed.

Lemma prev_bytes_value n l :
  wf_bytes n l ->
  wf_bytes n (prev_bytes n l) /\ be_value (prev_bytes n l) = (be_value l - 1) mod 256 ^ Z.of_nat n.
Proof.
  revert l. induction n as [|n IH]; intros l H.
  - split; [done|]. destruct H as [E _]. apply nil_length_inv in E. by subst.
  - apply wf_bytes_snoc_inv in H as (k & b & -> & Hk & Hb). pose proof (be_value_range n k Hk) as Hr.
    destruct (IH k Hk) as [Hw Hv]. rewrite prev_bytes_snoc by apply Hk.
    rewrite pow256_succ, !be_value_snoc. unfold byte_ok in *.
    destruct (Z.ltb_spec 0 b).
    + rewrite wf_bytes_snoc, be_value_snoc, Z.mod_small by lia. unfold byte_ok. split; [split; [done|lia]|lia].
    + rewrite wf_bytes_snoc, be_value_snoc, Hv. unfold byte_ok. split; [split; [done|lia]|].
      replace (be_value k * 256 + b - 1) with (255 + 256 * (be_value k - 1)) by lia.
      pose proof (pow256_pos (Z.of_nat n)). rewrite Z.rem_mul_r by lia.
      rewrite (Z.mul_comm 256 (be_value k - 1)), Z.mod_add, Z.div_add by lia.
      change (255 mod 256) with 255. change (255 / 256) with 0. rewrite Z.add_0_l. lia.
Qed.

(** * Addresses as numbers

    An address is a number below [a_bound] and a scope, which steps keep. *)
Class AddressLaws (A : Type) `{Address A} := {
  a_wf : A -> Prop;
  a_value : A -> Z;
  a_scope : A -> Z;
  a_bound : Z;
  a_range a : a_wf a -> 0 <= a_value a < a_bound;
  a_ext a b : a_wf a -> a_wf b -> a_value a = a_value b -> a_scope a = a_scope b -> a = b;
  a_eqb_true a b : a_wf a -> a_wf b -> a_eqb a b = true <-> a = b;
  a_ltb_true a b :
    a_wf a -> a_wf b ->
    a_ltb a b = true <-> a_value a < a_value b \/ a_value a = a_value b /\ a_scope a < a_scope b;
  a_geb_ltb a b : a_wf a -> a_wf b -> a_geb a b = negb (a_ltb a b);
  a_next_ok a :
    a_wf a ->
    a_wf (a_next a) /\ a_value (a_next a) = (a_value a + 1) mod a_bound /\ a_scope (a_next a) = a_scope a;
  a_prev_ok a :
    a_wf a ->
    a_wf (a_prev a) /\ a_value (a_prev a) = (a_value a - 1) mod a_bound /\ a_scope (a_prev a) = a_scope a }.

Definition v4_wf (a : address_v4) : Prop := wf_bytes 4 (s_addr a).

Definition v6_wf (a : address_v6) : Prop := wf_bytes 16 (s6_addr a) /\ is_u32 (scope_id a).

Definition v6_value (a : address_v6) : Z := be_value (s6_addr a).

Lemma v4_uint_range a : v4_wf a -> 0 <= v4_to_uint a < 2 ^ 32.
Proof. apply (be_value_range 4). Qed.

Lemma v4_of_uint_wf v : v4_wf (v4_of_uint v).
Proof. apply be_bytes_wf. Qed.

Lemma v4_uint_of_uint v : v4_to_uint (v4_of_uint v) = u32 v.
Proof.
  unfold v4_to_uint, v4_of_uint. cbn [s_addr]. rewrite be_value_bytes. change (256 ^ Z.of_nat 4) with (2 ^ 32).
  unfold u32. by rewrite Z.mod_mod by lia.
Qed.

Lemma v4_of_uint_to_uint a : v4_wf a -> v4_of_uint (v4_to_uint a) = a.
Proof.
  intros H. pose proof (v4_uint_range a H). destruct a as [l]. unfold v4_of_uint, v4_to_uint in *. cbn [s_addr] in *.
  rewrite u32_small by done. by rewrite be_bytes_value.
Qed.

Lemma land_u32 v : Z.land (u32 v) 0xFFFFFFFF = u32 v.
Proof.
  change 0xFFFFFFFF with (Z.ones 32). rewrite Z.land_ones by lia. unfold u32. by rewrite Z.mod_mod by lia.
Qed.

Lemma v4_eq a b : v4_wf a -> v4_wf b -> v4_to_uint a = v4_to_uint b -> a = b.
Proof. intros Ha Hb E. rewrite <- (v4_of_uint_to_uint a), <- (v4_of_uint_to_uint b) by done. by rewrite E. Qed.

#[export] Hint Resolve v4_of_uint_wf : xio.

#[export] Instance v4_laws : AddressLaws address_v4.
Proof.
  refine {| a_wf := v4_wf; a_value := v4_to_uint; a_scope := fun _ => 0; a_bound := 2 ^ 32 |};
    cbn [a_next a_prev a_eqb a_ltb a_geb v4_address].
  - apply v4_uint_range.
  - intros a b Ha Hb E _. by apply v4_eq.
  - intros a b Ha Hb. unfold v4_eqb. rewrite bool_decide_eq_true. destruct a, b. cbn. naive_solver.
  - intros a b _ _. unfold v4_ltb. rewrite Z.ltb_lt. lia.
  - intros a b _ _. unfold v4_geb, v4_ltb. destruct (Z.leb_spec (v4_to_uint b) (v4_to_uint a)); decide_cmp; done.
  - intros a _. unfold v4_next. split; [auto with xio|]. rewrite land_u32, v4_uint_of_uint. split; [|done].
    unfold u32. by rewrite Z.mod_mod by lia.
  - intros a _. unfold v4_prev. split; [auto with xio|]. rewrite land_u32, v4_uint_of_uint. split; [|done].
    unfold u32. by rewrite Z.mod_mod by lia.
Defined.

Lemma v6_memcmp a b :
  v6_wf a -> v6_wf b ->
  memcmp (s6_addr a) (s6_addr b) = match v6_value a ?= v6_value b with Lt => -1 | Eq => 0 | Gt => 1 end.
Proof. intros [Ha _] [Hb _]. by apply (memcmp_value 16). Qed.

Lemma v6_eq a b : v6_wf a -> v6_wf b -> v6_value a = v6_value b -> scope_id a = scope_id b -> a = b.
Proof.
  intros [Ha _] [Hb _] E Es. pose proof (be_value_inj 16 _ _ Ha Hb E). destruct a, b. cbn in *. by subst.
Qed.

#[export] Instance v6_laws : AddressLaws address_v6.
Proof.
  refine {| a_wf := v6_wf; a_value := v6_value; a_scope := scope_id; a_bound := 2 ^ 128 |};
    cbn [a_next a_prev a_eqb a_ltb a_geb v6_address].
  - intros a [H _]. by apply (be_value_range 16) in H.
  - apply v6_eq.
  - intros a b Ha Hb. unfold v6_eqb. rewrite v6_memcmp, andb_true_iff, !Z.eqb_eq by done. split; [|intros ->].
    + intros [E Es]. apply v6_eq; [done|done| |done]. by destruct (Z.compare_spec (v6_value a) (v6_value b)).
    + by rewrite Z.compare_refl.
  - intros a b Ha Hb. unfold v6_ltb. rewrite v6_memcmp by done.
    destruct (Z.compare_spec (v6_value a) (v6_value b)); cbn; rewrite ?Z.ltb_lt; naive_solver lia.
  - done.
  - intros a [H Hs]. destruct (next_bytes_value 16 _ H) as [? E].
    change (256 ^ Z.of_nat 16) with (2 ^ 128) in E. split_and!; [by split|exact E|done].
  - intros a [H Hs]. destruct (prev_bytes_value 16 _ H) as [? E].
    change (256 ^ Z.of_nat 16) with (2 ^ 128) in E. split_and!; [by split|exact E|done].
Defined.

(** ** Ranges *)

Section Ranges.
Context {A : Type} {Addr : Address A} {Laws : AddressLaws A}.
Implicit Types a b e : A.

Lemma a_bound_pos a : a_wf a -> 0 < a_bound.
Proof. intros H. pose proof (a_range a H). lia. Qed.

(** Decrement undoes increment, and conversely. *)
Lemma prev_next a : a_wf a -> a_prev (a_next a) = a /\ a_next (a_prev a) = a.
Proof.
  intros H. destruct (a_next_ok a H) as (Hn & Vn & Sn), (a_prev_ok a H) as (Hp & Vp & Sp).
  destruct (a_prev_ok _ Hn) as (Hpn & Vpn & Spn), (a_next_ok _ Hp) as (Hnp & Vnp & Snp).
  pose proof (a_range a H). split; (apply a_ext; [done..| |congruence]).
  - rewrite Vpn, Vn, Zminus_mod_idemp_l, Z.mod_small by lia. lia.
  - rewrite Vnp, Vp, Zplus_mod_idemp_l, Z.mod_small by lia. lia.
Qed.

(** A loop from [b] to [e] visits the addresses from [b], in order, up to the one before
    [e], which may be the first address again. *)
Lemma walk_ok fuel b e n :
  a_wf b -> a_wf e -> a_scope e = a_scope b -> a_value e = (a_value b + n) mod a_bound ->
  0 <= n < a_bound -> a_value b + n <= a_bound -> (Z.to_nat n <= fuel)%nat ->
  exists l, walk fuel b e = Some l /\ map a_value l = seqZ (a_value b) n /\
    Forall (fun a => a_wf a /\ a_scope a = a_scope b) l.
Proof.
  revert b n. induction fuel as [|fuel IH]; intros b n Hb He Es Ve Hn Hw Hf; cbn [walk].
  - assert (n = 0) as -> by lia. rewrite Z.add_0_r in *. pose proof (a_range b Hb).
    rewrite (proj2 (a_eqb_true b e Hb He)); [by exists []|]. apply a_ext; [done|done| |done].
    by rewrite Ve, Z.mod_small.
  - pose proof (a_range b Hb). destruct (Z.eq_dec n 0) as [->|Hn0].
    { rewrite Z.add_0_r in Ve. rewrite (proj2 (a_eqb_true b e Hb He)); [by exists []|].
      apply a_ext; [done|done| |done]. by rewrite Ve, Z.mod_small. }
    assert (a_eqb b e = false) as ->.
    { apply not_true_is_false. rewrite a_eqb_true by done. intros ->. 
      destruct (Z.eq_dec (a_value e + n) a_bound) as [E|]; [rewrite E, Z.mod_same in Ve by lia; lia|].
      rewrite Z.mod_small in Ve by lia. lia. }
    destruct (a_next_ok b Hb) as (Hb' & Vb' & Sb').
    destruct (Z.eq_dec n 1) as [->|Hn1].
    { assert (a_next b = e) as -> by (apply a_ext; [done|done|congruence|congruence]).
      exists [b]. destruct fuel; cbn [walk]; rewrite (proj2 (a_eqb_true e e He He) eq_refl); cbn; auto. }
    rewrite Z.mod_small in Vb' by lia.
    destruct (IH (a_next b) (n - 1)) as (l & -> & El & Fl); [done|done|congruence|..].
    + rewrite Vb', Ve. f_equal. lia.
    + lia.
    + lia.
    + lia.
    + exists (b :: l). cbn. rewrite El, Vb', (seqZ_cons _ n) by lia.
      split_and!; [done|by f_equal; f_equal; lia|]. constructor; [done|].
      eapply Forall_impl; [exact Fl|]. cbn. intros ? []. split; congruence.
Qed.

Lemma walk_elem l b n :
  map a_value l = seqZ (a_value b) n -> Forall (fun a => a_wf a /\ a_scope a = a_scope b) l ->
  forall a, a ∈ l <-> a_wf a /\ a_scope a = a_scope b /\ a_value b <= a_value a < a_value b + n.
Proof.
  intros El Fl a. rewrite Forall_forall in Fl. split.
  - intros Ha. destruct (Fl a Ha). split_and!; [done|done|..];
      apply (list_elem_of_fmap_2 a_value) in Ha; change (a_value <$> l) with (map a_value l) in Ha;
      rewrite El, elem_of_seqZ in Ha; lia.
  - intros (Wa & Sa & Hv). apply elem_of_seqZ in Hv. rewrite <- El in Hv.
    change (map a_value l) with (a_value <$> l) in Hv. apply list_elem_of_fmap in Hv as (a' & E & Ha').
    destruct (Fl a' Ha'). assert (a = a') as -> by (apply a_ext; congruence). done.
Qed.

(** What a loop over a range visits, which may end at the last address of all. *)
Lemma walk_range fuel (r : range A) n :
  a_wf (begin_ r) -> a_wf (end_ r) -> a_scope (end_ r) = a_scope (begin_ r) ->
  a_value (end_ r) = (a_value (begin_ r) + n) mod a_bound ->
  0 <= n < a_bound -> a_value (begin_ r) + n <= a_bound -> (Z.to_nat n <= fuel)%nat ->
  exists l, walk fuel (begin_ r) (end_ r) = Some l /\ map a_value l = seqZ (a_value (begin_ r)) n /\
    (forall a, a ∈ l <->
      a_wf a /\ a_scope a = a_scope (begin_ r) /\ a_value (begin_ r) <= a_value a < a_value (begin_ r) + n).
Proof.
  intros. destruct (walk_ok fuel (begin_ r) (end_ r) n) as (l & ? & El & Fl); [done..|].
  exists l. split_and!; [done|done|]. by apply walk_elem.
Qed.

(** [find] looks an address up in a range that does not wrap. *)
Lemma find_ok r a :
  a_wf (begin_ r) -> a_wf (end_ r) -> a_wf a ->
  a_scope a = a_scope (begin_ r) -> a_scope a = a_scope (end_ r) ->
  find r a = if decide (a_value (begin_ r) <= a_value a < a_value (end_ r)) then a else end_ r.
Proof.
  intros Hb He Ha Eb Ee. unfold find. rewrite a_geb_ltb by done.
  pose proof (a_ltb_true a (begin_ r) Ha Hb) as L1. pose proof (a_ltb_true a (end_ r) Ha He) as L2.
  destruct (a_ltb a (begin_ r)), (a_ltb a (end_ r)), (decide _); cbn; try done; exfalso; naive_solver lia.
Qed.
End Ranges.

(** * Text is read back

    What the system's functions promise of the text of an address and of the names of
    interfaces. *)

Definition addr_size (af : ip_version) : nat := match af with ipv4 => 4 | ipv6 => 16 end.

Definition name_char (c : Z) : Prop := c <> 0 /\ c <> 47.

Definition text_char (c : Z) : Prop := name_char c /\ c <> percent.

Class InetLaws (os : inet_os) := {
  ntop_pton af src :
    wf_bytes (addr_size af) src ->
    exists s, os_ntop os af src = Some s /\ os_pton os af s = Some src /\ Forall text_char s /\ zlen s < 46;
  pton_other src s : wf_bytes 4 src -> os_ntop os ipv4 src = Some s -> os_pton os ipv6 s = None;
  index_name i s : if_indextoname os i = Some s -> if_nametoindex os s = i /\ Forall name_char s }.

Lemma strchr_none c s : Forall (fun d => d <> c) s -> strchr c s = None.
Proof. induction 1 as [|d s Hd _ IH]; [done|]. cbn. by rewrite eqb_false, IH. Qed.

Lemma strchr_app c s r : Forall (fun d => d <> c) s -> strchr c (s ++ c :: r) = Some (s, c :: r).
Proof. induction 1 as [|d s Hd _ IH]; cbn; [by rewrite Z.eqb_refl|]. by rewrite eqb_false, IH. Qed.

Lemma atoi_to_string n : 0 <= n < 2 ^ 31 -> atoi (to_string n) = Ok n.
Proof. intros H. unfold atoi. by rewrite stoi_to_string. Qed.

(** Outside of [int], [stoi] throws and [atoi] is not defined. *)
Lemma stoi_large n : 2 ^ 31 <= n < 10 ^ 10 -> stoi (to_string n) = Throw Out_of_range.
Proof. intros H. rewrite stoi_value by lia. by rewrite ltb_false, andb_false_r by lia. Qed.

Lemma to_string_name n : 0 <= n -> Forall name_char (to_string n).
Proof.
  intros H. eapply Forall_impl; [by apply to_string_digits|]. unfold name_char. cbn. lia.
Qed.

Lemma text_chars s : Forall text_char s -> Forall name_char s /\ Forall (fun d => d <> percent) s.
Proof. apply Forall_and. Qed.

Section TextOk.
Context (os : inet_os) {Laws : InetLaws os}.

Lemma v4_text a :
  v4_wf a ->
  exists s, v4_to_string os a = Some s /\ Forall name_char s /\
    make_address_v4 os s = Ok (a, no_error) /\ make_address_v6 os s = Ok (v6_default, invalid_argument).
Proof.
  intros H. destruct (ntop_pton ipv4 _ H) as (s & E & Er & Hc & Hl). exists s.
  apply text_chars in Hc as [Hn Hpc]. unfold v4_to_string, make_address_v4, make_address_v6, inet_ntop, inet_pton. rewrite E, bool_decide_eq_false_2 by done.
  cbn [andb]. rewrite Er, bool_decide_eq_true_2 by done.
  rewrite (strchr_none percent s), (pton_other _ _ H E) by done. split_and!; [done|done| |done].
  cbn. by destruct a.
Qed.

(** A scope that [to_string] prints so that it can be read again: the index of a known
    interface for an address that is local to a link, an [int] for the others. *)
Definition printable_scope (a : address_v6) : Prop :=
  scope_id a <> 0 ->
  if scoped (s6_addr a) then if_indextoname os (scope_id a) <> None else scope_id a < 2 ^ 31.

Lemma v6_text a :
  v6_wf a -> printable_scope a ->
  exists s, v6_to_string os a = Some s /\ Forall name_char s /\ make_address_v6 os s = Ok (a, no_error).
Proof.
  intros [H Hs] Hp. destruct (ntop_pton ipv6 _ H) as (s & E & Er & Hc & Hl). pose proof Hs as Hu. unfold_width.
  apply text_chars in Hc as [Hn Hpc].
  unfold v6_to_string, make_address_v6, inet_ntop, inet_pton. rewrite E, bool_decide_eq_true_2 by done. cbn [andb].
  destruct (Z.eqb_spec (scope_id a) 0) as [E0|E0]; cbn [negb].
  - exists s. rewrite strchr_none, Er by done. split_and!; [done|done|]. cbn [rbind]. change (u32 0) with 0. destruct a. cbn in *. by subst.
  - specialize (Hp E0). unfold if_name_of. eexists; split; [reflexivity|].
    rewrite strchr_app by done. unfold max_addr_v6_str_len. rewrite ltb_false, Er by lia. cbn [tail].
    destruct (scoped (s6_addr a)); cbn [negb].
    + destruct (if_indextoname os (scope_id a)) as [name|] eqn:En; [|done].
      destruct (index_name _ _ En) as [-> Hname]. rewrite eqb_false by done. cbn [rbind].
      rewrite u32_small by done. split; [|by destruct a]. apply Forall_app. split; [done|]. by constructor.
    + rewrite Z.eqb_refl, atoi_to_string by lia. cbn [rbind]. rewrite u64_small, u32_small by (unfold_width; lia).
      split; [|by destruct a]. apply Forall_app. split; [done|]. constructor; [done|]. apply to_string_name. lia.
Qed.

Definition wf_address (a : address) : Prop :=
  (exists a4, a = address_of_v4 a4 /\ v4_wf a4) \/
  (exists a6, a = address_of_v6 a6 /\ v6_wf a6 /\ printable_scope a6).

Lemma address_text a :
  wf_address a -> exists s, address_to_string os a = Some s /\ make_address os s = Ok (a, no_error).
Proof.
  intros [(a4 & -> & H)|(a6 & -> & H & Hp)]; unfold make_address.
  - destruct (v4_text a4 H) as (s & E & _ & E4 & E6). exists s. split; [exact E|]. rewrite E6. cbn [rbind]. by rewrite E4.
  - destruct (v6_text a6 H Hp) as (s & E & _ & E6). exists s. split; [exact E|]. by rewrite E6.
Qed.
End TextOk.

(** * Order *)

Definition valid_address (a : address) : Prop :=
  (exists a4, a = address_of_v4 a4 /\ v4_wf a4) \/ (exists a6, a = address_of_v6 a6 /\ v6_wf a6).

Lemma address_eqb_true a b : valid_address a -> valid_address b -> address_eqb a b = true <-> a = b.
Proof.
  intros [(a4 & -> & Ha)|(a6 & -> & Ha)] [(b4 & -> & Hb)|(b6 & -> & Hb)]; try done.
  - change (address_eqb (address_of_v4 a4) (address_of_v4 b4)) with (a_eqb a4 b4).
    rewrite (a_eqb_true (AddressLaws := v4_laws)) by done. split; [by intros ->|by intros [=]].
  - change (address_eqb (address_of_v6 a6) (address_of_v6 b6)) with (a_eqb a6 b6).
    rewrite (a_eqb_true (AddressLaws := v6_laws)) by done. split; [by intros ->|by intros [=]].
Qed.

(** What addresses are compared by. *)
Definition address_key (a : address) : Z * Z * Z :=
  match type_ a with
  | ipv4 => (0, v4_to_uint (ipv4_address_ a), 0)
  | ipv6 => (1, v6_value (ipv6_address_ a), scope_id (ipv6_address_ a))
  end.

Definition key_lt (k k' : Z * Z * Z) : Prop :=
  k.1.1 < k'.1.1 \/ k.1.1 = k'.1.1 /\ (k.1.2 < k'.1.2 \/ k.1.2 = k'.1.2 /\ k.2 < k'.2).

Lemma address_key_inj a b : valid_address a -> valid_address b -> address_key a = address_key b -> a = b.
Proof.
  intros [(a4 & -> & Ha)|(a6 & -> & Ha)] [(b4 & -> & Hb)|(b6 & -> & Hb)] E; try done; injection E as E.
  - f_equal. by apply v4_eq.
  - f_equal. by apply v6_eq.
Qed.

(** The order of addresses is that of their keys, which is total. *)
Lemma address_ltb_true a b :
  valid_address a -> valid_address b -> address_ltb a b = true <-> key_lt (address_key a) (address_key b).
Proof.
  intros [(a4 & -> & Ha)|(a6 & -> & Ha)] [(b4 & -> & Hb)|(b6 & -> & Hb)]; unfold key_lt; cbn [fst snd address_key type_
    address_of_v4 address_of_v6 ipv4_address_ ipv6_address_ address_ltb].
  - change (v4_ltb a4 b4) with (a_ltb a4 b4). rewrite (a_ltb_true (AddressLaws := v4_laws)) by done. cbn [a_value a_scope v4_laws]. lia.
  - split; [lia|done].
  - split; [done|lia].
  - change (v6_ltb a6 b6) with (a_ltb a6 b6). rewrite (a_ltb_true (AddressLaws := v6_laws)) by done. cbn [a_value a_scope v6_laws]. lia.
Qed.

Definition valid_endpoint (e : endpoint) : Prop :=
  exists a p, valid_address a /\ 0 <= p < 2 ^ 16 /\ e = endpoint_of a p.

(** * Endpoints keep what they are made of *)

Lemma endpoint_of_ok a p :
  valid_address a -> 0 <= p < 2 ^ 16 ->
  endpoint_address (endpoint_of a p) = a /\ port (endpoint_of a p) = p.
Proof.
  intros Ha Hp. assert (be_value (be_bytes 2 p) = p) as Ep.
  { rewrite be_value_bytes. by apply Z.mod_small. }
  destruct Ha as [(a4 & -> & H)|(a6 & -> & H)]; (split; [|exact Ep]).
  - unfold endpoint_of. change (is_v4 (address_of_v4 a4)) with true. cbn [ipv4_address_ address_of_v4].
    unfold endpoint_address. f_equal. unfold v4_to_uint. rewrite be_bytes_value by exact H. exact (v4_of_uint_to_uint a4 H).
  - cbn. by destruct a6.
Qed.

(** Endpoints are equal if their addresses and ports are, and they are ordered by them. *)
Lemma endpoint_eqb_true e e' : valid_endpoint e -> valid_endpoint e' -> endpoint_eqb e e' = true <-> e = e'.
Proof.
  intros (a & p & Ha & Hp & ->) (a' & p' & Ha' & Hp' & ->). unfold endpoint_eqb.
  destruct (endpoint_of_ok a p Ha Hp) as [-> ->], (endpoint_of_ok a' p' Ha' Hp') as [Ea Ep].
  rewrite Ea, Ep, andb_true_iff, address_eqb_true, Z.eqb_eq by done. split; [by intros [-> ->]|].
  intros E. destruct (endpoint_of_ok a p Ha Hp) as [Eb Eq]. rewrite E in Eb, Eq. split; congruence.
Qed.

Lemma endpoint_ltb_true a p a' p' :
  valid_address a -> valid_address a' -> 0 <= p < 2 ^ 16 -> 0 <= p' < 2 ^ 16 ->
  endpoint_ltb (endpoint_of a p) (endpoint_of a' p') = true <->
  key_lt (address_key a) (address_key a') \/ a = a' /\ p < p'.
Proof.
  intros Ha Ha' Hp Hp'. unfold endpoint_ltb.
  destruct (endpoint_of_ok a p Ha Hp) as [-> ->], (endpoint_of_ok a' p' Ha' Hp') as [-> ->].
  pose proof (address_ltb_true a a' Ha Ha'). pose proof (address_eqb_true a a' Ha Ha').
  destruct (address_ltb a a'); [naive_solver|]. destruct (address_eqb a a'); cbn [negb]; rewrite ?Z.ltb_lt; naive_solver.
Qed.

(** A new port keeps the address, a new address the port. *)
Lemma set_port_ok a p q : valid_address a -> 0 <= p < 2 ^ 16 -> set_port q (endpoint_of a p) = endpoint_of a q.
Proof. by intros [(a4 & -> & _)|(a6 & -> & _)] _. Qed.

Lemma set_address_ok a b p : valid_address a -> 0 <= p < 2 ^ 16 -> set_address b (endpoint_of a p) = endpoint_of b p.
Proof. intros Ha Hp. unfold set_address. by destruct (endpoint_of_ok a p Ha Hp) as [_ ->]. Qed.
