(* ===== verification/Network.v ===== *)
(** ip/network_v4.h and ip/network_v6.h with their implementations: networks, an address
    with the length of a prefix; the mask, the first and the last address, the hosts, the
    subnets, and the conversions to and from text. *)
From Stdlib Require Import Sorted.
From S2P Require Import Prelude Buffer Service Address.

(** * network_v4 *)

Record network_v4 := { v4_address_ : address_v4; v4_prefix_length_ : Z }.

#[global] Instance eta_network_v4 : Eta network_v4 :=
  fun n => {| v4_address_ := v4_address_ n; v4_prefix_length_ := v4_prefix_length_ n |}.

Definition network_v4_default : network_v4 := {| v4_address_ := v4_default; v4_prefix_length_ := 0 |}.

Definition network_v4_new (addr : address_v4) (prefix_len : Z) : res network_v4 :=
  if 32 <? prefix_len then Throw Out_of_range
  else Ok {| v4_address_ := addr; v4_prefix_length_ := prefix_len |}.

(** What a byte of a mask adds to the prefix, and whether it ends it. *)
Definition mask_byte_length (b : Z) : option (Z * bool) :=
  match b with
  | 255 => Some (8, false)
  | 254 => Some (7, true)
  | 252 => Some (6, true)
  | 248 => Some (5, true)
  | 240 => Some (4, true)
  | 224 => Some (3, true)
  | 192 => Some (2, true)
  | 128 => Some (1, true)
  | 0 => Some (0, true)
  | _ => None
  end.

Fixpoint mask_length (mask_bytes : list Z) (finished : bool) (prefix_length : Z) : res Z :=
  match mask_bytes with
  | [] => Ok prefix_length
  | b :: mask_bytes =>
      if finished then
        if negb (b =? 0) then Throw Invalid_argument
        else mask_length mask_bytes finished prefix_length
      else match mask_byte_length b with
      | Some (l, finished) => mask_length mask_bytes finished (prefix_length + l)
      | None => Throw Out_of_range
      end
  end.

Definition network_v4_mask (addr mask : address_v4) : res network_v4 :=
  let* p := mask_length (v4_to_bytes mask) false 0 in
  Ok {| v4_address_ := addr; v4_prefix_length_ := p |}.

Definition netmask (n : network_v4) : address_v4 :=
  let nmbits :=
    if v4_prefix_length_ n =? 0 then 0
    else u32 (Z.shiftl 0xffffffff (32 - v4_prefix_length_ n)) in
  v4_of_uint nmbits.

Definition v4_network (n : network_v4) : address_v4 :=
  v4_of_uint (Z.land (v4_to_uint (v4_address_ n)) (v4_to_uint (netmask n))).

Definition broadcast (n : network_v4) : address_v4 :=
  v4_of_uint (Z.lor (v4_to_uint (v4_network n)) (Z.lxor (v4_to_uint (netmask n)) 0xFFFFFFFF)).

Definition v4_is_host (n : network_v4) : bool := v4_prefix_length_ n =? 32.

Definition v4_hosts (n : network_v4) : range address_v4 :=
  if v4_is_host n
  then {| begin_ := v4_address_ n; end_ := v4_of_uint (u32 (v4_to_uint (v4_address_ n) + 1)) |}
  else {| begin_ := v4_of_uint (u32 (v4_to_uint (v4_network n) + 1)); end_ := broadcast n |}.

Definition v4_canonical (n : network_v4) : res network_v4 :=
  network_v4_new (v4_network n) (v4_prefix_length_ n).

Definition network_v4_eqb (a b : network_v4) : bool :=
  v4_eqb (v4_address_ a) (v4_address_ b) && (v4_prefix_length_ a =? v4_prefix_length_ b).

Definition v4_is_subnet_of (n other : network_v4) : res bool :=
  if v4_prefix_length_ n <=? v4_prefix_length_ other then Ok false
  else
    let* me := network_v4_new (v4_address_ n) (v4_prefix_length_ other) in
    let* a := v4_canonical other in
    let* b := v4_canonical me in
    Ok (network_v4_eqb a b).

(** * network_v6 *)

Record network_v6 := { v6_address_ : address_v6; v6_prefix_length_ : Z }.

#[global] Instance eta_network_v6 : Eta network_v6 :=
  fun n => {| v6_address_ := v6_address_ n; v6_prefix_length_ := v6_prefix_length_ n |}.

Definition network_v6_default : network_v6 := {| v6_address_ := v6_default; v6_prefix_length_ := 0 |}.

Definition network_v6_new (addr : address_v6) (prefix_len : Z) : res network_v6 :=
  if 128 <? prefix_len then Throw Out_of_range
  else Ok {| v6_address_ := addr; v6_prefix_length_ := prefix_len |}.

(** The body of the loops over the bytes, each of which changes its own byte. *)
Definition first_byte (prefix_length : Z) (i : nat) (b : Z) : Z :=
  if prefix_length <=? Z.of_nat i * 8 then 0
  else if prefix_length <? (Z.of_nat i + 1) * 8
  then u8 (Z.land b (Z.shiftr 0xFF00 (prefix_length mod 8)))
  else b.

Definition last_byte (prefix_length : Z) (i : nat) (b : Z) : Z :=
  if prefix_length <=? Z.of_nat i * 8 then 0xFF
  else if prefix_length <? (Z.of_nat i + 1) * 8
  then u8 (Z.lor b (Z.shiftr 0xFF (prefix_length mod 8)))
  else b.

Definition v6_network (n : network_v6) : address_v6 :=
  v6_of_bytes (imap (first_byte (v6_prefix_length_ n)) (v6_to_bytes (v6_address_ n)))
    (scope_id (v6_address_ n)).

Definition v6_hosts (n : network_v6) : range address_v6 :=
  let begin_bytes := imap (first_byte (v6_prefix_length_ n)) (v6_to_bytes (v6_address_ n)) in
  let end_bytes := imap (last_byte (v6_prefix_length_ n)) (v6_to_bytes (v6_address_ n)) in
  {| begin_ := v6_of_bytes begin_bytes (scope_id (v6_address_ n));
     end_ := v6_next (v6_of_bytes end_bytes (scope_id (v6_address_ n))) |}.

Definition v6_canonical (n : network_v6) : res network_v6 :=
  network_v6_new (v6_network n) (v6_prefix_length_ n).

Definition v6_is_host (n : network_v6) : bool := v6_prefix_length_ n =? 128.

Definition network_v6_eqb (a b : network_v6) : bool :=
  v6_eqb (v6_address_ a) (v6_address_ b) && (v6_prefix_length_ a =? v6_prefix_length_ b).

Definition v6_is_subnet_of (n other : network_v6) : res bool :=
  if v6_prefix_length_ n <=? v6_prefix_length_ other then Ok false
  else
    let* me := network_v6_new (v6_address_ n) (v6_prefix_length_ other) in
    let* a := v6_canonical other in
    let* b := v6_canonical me in
    Ok (network_v6_eqb a b).

(** * Text *)

Definition slash : Z := 47.

Definition with_prefix (addr : option (list Z)) (prefix_length : Z) : option (list Z) :=
  match addr with
  | None => None
  | Some s => Some (s ++ slash :: to_string prefix_length)
  end.

(** The address and the prefix in a string, if it is one slash before decimal digits. *)
Definition split_network (str : list Z) : option (list Z * list Z) :=
  match strchr slash str with
  | None => None
  | Some (addr, rest) =>
      let prefix := tail rest in
      if zlen addr =? zlen str - 1 then None
      else if negb (forallb is_digit prefix) then None
      else Some (addr, prefix)
  end.

Section Text.
Context (os : inet_os).

(** [None] is an exception. *)
Definition network_v4_to_string (n : network_v4) : option (list Z) :=
  with_prefix (v4_to_string os (v4_address_ n)) (v4_prefix_length_ n).

Definition network_v6_to_string (n : network_v6) : option (list Z) :=
  with_prefix (v6_to_string os (v6_address_ n)) (v6_prefix_length_ n).

Definition make_network_v4 (str : list Z) : res (network_v4 * error_code) :=
  match split_network str with
  | None => Ok (network_v4_default, invalid_argument)
  | Some (a, prefix) =>
      let* r := make_address_v4_str os a in
      match r with
      | (addr, no_error) =>
          let* prefix_len := atoi prefix in
          if (prefix_len <? 0) || (32 <? prefix_len) then Ok (network_v4_default, invalid_argument)
          else let* n := network_v4_new addr (u16 prefix_len) in Ok (n, no_error)
      | (_, ec) => Ok (network_v4_default, ec)
      end
  end.

Definition make_network_v6 (str : list Z) : res (network_v6 * error_code) :=
  match split_network str with
  | None => Ok (network_v6_default, invalid_argument)
  | Some (a, prefix) =>
      let* r := make_address_v6_str os a in
      match r with
      | (addr, no_error) =>
          let* prefix_len := atoi prefix in
          if (prefix_len <? 0) || (128 <? prefix_len) then Ok (network_v6_default, invalid_argument)
          else let* n := network_v6_new addr (u16 prefix_len) in Ok (n, no_error)
      | (_, ec) => Ok (network_v6_default, ec)
      end
  end.
End Text.

(** * Blocks

    [floor k v] is [v] with its last [k] bits cleared, the first number of the block of
    [2 ^ k] numbers that [v] is in. *)

Definition floor (k v : Z) : Z := v / 2 ^ k * 2 ^ k.

Lemma pow2_pos k : 0 <= k -> 0 < 2 ^ k.
Proof. intros. apply Z.pow_pos_nonneg; lia. Qed.

Lemma floor_range k v : 0 <= k -> floor k v <= v < floor k v + 2 ^ k.
Proof. intros Hk. unfold floor. pose proof (Z.div_mod v (2 ^ k)). pose proof (Z.mod_pos_bound v (2 ^ k)). pose proof (pow2_pos k Hk). lia. Qed.

(** A number is in the block of [v] if it is between its ends. *)
Lemma floor_eq k v w : 0 <= k -> floor k w = floor k v <-> floor k v <= w < floor k v + 2 ^ k.
Proof.
  intros Hk. pose proof (floor_range k w Hk). pose proof (pow2_pos k Hk). split; [intros <-; lia|].
  unfold floor in *. intros H1. f_equal. nia.
Qed.

Lemma floor_floor j k v : 0 <= j <= k -> floor k (floor j v) = floor k v.
Proof.
  intros Hk. unfold floor. f_equal. replace k with (j + (k - j)) by lia.
  rewrite Z.pow_add_r, <- !Z.div_div by (try apply pow2_pos; try apply Z.pow_nonzero; lia).
  by rewrite Z.div_mul by (apply Z.pow_nonzero; lia).
Qed.

Lemma floor_mono j k v w : 0 <= j <= k -> floor j v = floor j w -> floor k v = floor k w.
Proof. intros Hk E. by rewrite <- (floor_floor j k v), E, floor_floor. Qed.

(** A block stays below a power of two that is above it. *)
Lemma floor_below k n v : 0 <= k <= n -> 0 <= v < 2 ^ n -> 0 <= floor k v /\ floor k v + 2 ^ k <= 2 ^ n.
Proof.
  intros Hk Hv. unfold floor. pose proof (pow2_pos k ltac:(lia)).
  replace n with (n - k + k) in * by lia. rewrite Z.pow_add_r in * by lia.
  assert (0 <= v / 2 ^ k) by (apply Z.div_pos; lia).
  assert (v / 2 ^ k < 2 ^ (n - k)) by (apply Z.div_lt_upper_bound; lia). nia.
Qed.

(** [P] holds up to [n] if it does when tried. *)
Lemma all_below (P : Z -> bool) n x : forallb P (seqZ 0 n) = true -> 0 <= x < n -> P x = true.
Proof. rewrite forallb_forall. intros H Hx. apply H, list_elem_of_In, elem_of_seqZ. lia. Qed.

Lemma seqZ_sorted m n : StronglySorted Z.lt (seqZ m n).
Proof.
  destruct (Z.le_gt_cases n 0); [rewrite seqZ_nil by done; constructor|].
  revert m. pattern n. apply natlike_ind; [|clear n H|lia].
  - intros m. rewrite seqZ_nil by lia. constructor.
  - intros k Hk IH m. rewrite seqZ_cons by lia. rewrite Z.pred_succ. constructor; [apply IH|].
    apply Forall_forall. intros x. rewrite elem_of_seqZ. lia.
Qed.

(** ** Version 4 *)

Definition wf4 (n : network_v4) : Prop := v4_wf (v4_address_ n) /\ 0 <= v4_prefix_length_ n <= 32.

Definition v4_block (n : network_v4) : Z := 32 - v4_prefix_length_ n.

(** The addresses of a network are those with its prefix. *)
Definition v4_contains (n : network_v4) (a : address_v4) : Prop :=
  floor (v4_block n) (v4_to_uint a) = floor (v4_block n) (v4_to_uint (v4_address_ n)).

#[global] Instance v4_contains_dec n a : Decision (v4_contains n a).
Proof. unfold v4_contains. apply _. Defined.

Lemma netmask_uint n : wf4 n -> v4_to_uint (netmask n) = 2 ^ 32 - 2 ^ v4_block n.
Proof.
  intros [_ Hp]. unfold netmask, v4_block. rewrite v4_uint_of_uint. apply Z.eqb_eq.
  apply (all_below (fun p => u32 (if p =? 0 then 0 else u32 (Z.shiftl 0xffffffff (32 - p))) =? 2 ^ 32 - 2 ^ (32 - p)) 33);
    [by vm_compute|lia].
Qed.

Lemma land_mask k v : 0 <= k <= 32 -> 0 <= v < 2 ^ 32 -> Z.land v (2 ^ 32 - 2 ^ k) = floor k v.
Proof.
  intros Hk Hv. unfold floor. rewrite <- Z.shiftl_mul_pow2, <- Z.shiftr_div_pow2 by lia.
  replace (2 ^ 32 - 2 ^ k) with (Z.shiftl (Z.ones (32 - k)) k).
  - apply Z.bits_inj'. intros i Hi. rewrite Z.land_spec. destruct (Z.ltb_spec i k).
    + by rewrite !Z.shiftl_spec_low, andb_false_r by lia.
    + rewrite !Z.shiftl_spec, Z.shiftr_spec by lia. replace (i - k + k) with i by lia.
      destruct (Z.ltb_spec (i - k) (32 - k)); [by rewrite Z.ones_spec_low, andb_true_r by lia|].
      rewrite Z.ones_spec_high, andb_false_r by lia. symmetry.
      rewrite <- (Z.mod_small v (2 ^ 32)) by done. apply Z.mod_pow2_bits_high. lia.
  - rewrite Z.shiftl_mul_pow2, Z.ones_equiv by lia. replace 32 with (32 - k + k) at 2 by lia.
    rewrite Z.pow_add_r by lia. lia.
Qed.

Lemma v4_network_uint n : wf4 n -> v4_to_uint (v4_network n) = floor (v4_block n) (v4_to_uint (v4_address_ n)).
Proof.
  intros H. unfold v4_network. rewrite v4_uint_of_uint, netmask_uint by done. destruct H as [Ha Hp].
  pose proof (v4_uint_range _ Ha). unfold v4_block. rewrite land_mask by lia.
  destruct (floor_below (32 - v4_prefix_length_ n) 32 (v4_to_uint (v4_address_ n))); [lia|done|].
  pose proof (pow2_pos (32 - v4_prefix_length_ n)). rewrite u32_small; [done|unfold_width; lia].
Qed.

Lemma lor_block k v : 0 <= k -> Z.lor (floor k v) (2 ^ k - 1) = floor k v + (2 ^ k - 1).
Proof.
  intros Hk. symmetry. apply Z.add_nocarry_lor. unfold floor. replace (2 ^ k - 1) with (Z.ones k) by (rewrite Z.ones_equiv; lia).
  rewrite Z.land_ones by done. apply Z.mod_mul. pose proof (pow2_pos k Hk). lia.
Qed.

Lemma broadcast_uint n :
  wf4 n ->
  v4_to_uint (broadcast n) = floor (v4_block n) (v4_to_uint (v4_address_ n)) + 2 ^ v4_block n - 1.
Proof.
  intros H. unfold broadcast. rewrite v4_uint_of_uint, v4_network_uint, netmask_uint by done.
  destruct H as [Ha Hp]. pose proof (v4_uint_range _ Ha). unfold v4_block.
  replace (Z.lxor (2 ^ 32 - 2 ^ (32 - v4_prefix_length_ n)) 0xFFFFFFFF) with (2 ^ (32 - v4_prefix_length_ n) - 1).
  - rewrite lor_block by lia.
    destruct (floor_below (32 - v4_prefix_length_ n) 32 (v4_to_uint (v4_address_ n))); [lia|done|].
    pose proof (pow2_pos (32 - v4_prefix_length_ n)). rewrite u32_small; [lia|unfold_width; lia].
  - symmetry. apply Z.eqb_eq.
    apply (all_below (fun p => Z.lxor (2 ^ 32 - 2 ^ (32 - p)) 0xFFFFFFFF =? 2 ^ (32 - p) - 1) 33); [by vm_compute|lia].
Qed.

(** ** Version 6 *)

Definition wf6 (n : network_v6) : Prop := v6_wf (v6_address_ n) /\ 0 <= v6_prefix_length_ n <= 128.

Definition v6_block (n : network_v6) : Z := 128 - v6_prefix_length_ n.

Definition v6_contains (n : network_v6) (a : address_v6) : Prop :=
  floor (v6_block n) (v6_value a) = floor (v6_block n) (v6_value (v6_address_ n)) /\
  scope_id a = scope_id (v6_address_ n).

#[global] Instance v6_contains_dec n a : Decision (v6_contains n a).
Proof. unfold v6_contains. apply _. Defined.

Lemma first_byte_S p i b : first_byte p (S i) b = first_byte (p - 8) i b.
Proof.
  unfold first_byte. replace ((p - 8) mod 8) with (p mod 8) by (rewrite <- (Z.mod_add (p - 8) 1 8) by lia; f_equal; lia).
  destruct (Z.leb_spec p (Z.of_nat (S i) * 8)), (Z.ltb_spec p ((Z.of_nat (S i) + 1) * 8)); decide_cmp; done.
Qed.

Lemma last_byte_S p i b : last_byte p (S i) b = last_byte (p - 8) i b.
Proof.
  unfold last_byte. replace ((p - 8) mod 8) with (p mod 8) by (rewrite <- (Z.mod_add (p - 8) 1 8) by lia; f_equal; lia).
  destruct (Z.leb_spec p (Z.of_nat (S i) * 8)), (Z.ltb_spec p ((Z.of_nat (S i) + 1) * 8)); decide_cmp; done.
Qed.

Lemma first_bytes_cons p b l : imap (first_byte p) (b :: l) = first_byte p 0 b :: imap (first_byte (p - 8)) l.
Proof. rewrite imap_cons. f_equal. apply imap_ext. intros i x _. apply first_byte_S. Qed.

Lemma last_bytes_cons p b l : imap (last_byte p) (b :: l) = last_byte p 0 b :: imap (last_byte (p - 8)) l.
Proof. rewrite imap_cons. f_equal. apply imap_ext. intros i x _. apply last_byte_S. Qed.

(** The byte in which the prefix ends. *)
Lemma split_byte p b :
  0 < p < 8 -> byte_ok b ->
  u8 (Z.land b (Z.shiftr 0xFF00 p)) = floor (8 - p) b /\
  u8 (Z.lor b (Z.shiftr 0xFF p)) = floor (8 - p) b + 2 ^ (8 - p) - 1.
Proof.
  intros Hp Hb. rewrite <- !Z.eqb_eq, <- andb_true_iff.
  apply (all_below (fun b => (u8 (Z.land b (Z.shiftr 0xFF00 p)) =? floor (8 - p) b) &&
    (u8 (Z.lor b (Z.shiftr 0xFF p)) =? floor (8 - p) b + 2 ^ (8 - p) - 1)) 256); [|done].
  assert (p = 1 \/ p = 2 \/ p = 3 \/ p = 4 \/ p = 5 \/ p = 6 \/ p = 7) as Hp' by lia.
  destruct_or! Hp'; subst p; by vm_compute.
Qed.

Lemma bytes_behind p n l :
  p <= 0 -> wf_bytes n l ->
  wf_bytes n (imap (first_byte p) l) /\ be_value (imap (first_byte p) l) = 0 /\
  wf_bytes n (imap (last_byte p) l) /\ be_value (imap (last_byte p) l) = 256 ^ Z.of_nat n - 1.
Proof.
  revert p n. induction l as [|b l IH]; intros p n Hp H; [by destruct H as [<- _]|].
  destruct n as [|n]; [by destruct H|]. apply wf_bytes_cons in H as [Hb H].
  destruct (IH (p - 8) n) as (W1 & V1 & W2 & V2); [lia|done|].
  rewrite first_bytes_cons, last_bytes_cons, !wf_bytes_cons. unfold first_byte at 1 3, last_byte at 1 3.
  rewrite !leb_true by lia. cbn [be_value]. rewrite V1, V2, pow256_succ. unfold byte_ok, zlen.
  rewrite (proj1 W2). split_and!; (done || lia).
Qed.

Lemma pow256_pow2 n : 256 ^ Z.of_nat n = 2 ^ (8 * Z.of_nat n).
Proof. change 256 with (2 ^ 8). rewrite <- Z.pow_mul_r; lia. Qed.

(** The ends of the block of a number, from its bytes. *)
Lemma block_bytes p n l :
  0 <= p <= 8 * Z.of_nat n -> wf_bytes n l ->
  let k := 8 * Z.of_nat n - p in
  wf_bytes n (imap (first_byte p) l) /\ be_value (imap (first_byte p) l) = floor k (be_value l) /\
  wf_bytes n (imap (last_byte p) l) /\ be_value (imap (last_byte p) l) = floor k (be_value l) + 2 ^ k - 1.
Proof.
  revert p n. induction l as [|b l IH]; intros p n Hp H k.
  - destruct H as [<- _]. assert (p = 0) as -> by (cbn in Hp; lia). done.
  - destruct n as [|n]; [by destruct H|]. pose proof H as Hw. apply wf_bytes_cons in H as [Hb H].
    pose proof (be_value_range _ _ H) as Hr. pose proof (be_value_range _ _ Hw) as Hrw.
    destruct (Z.eq_dec p 0) as [->|Hp0].
    { destruct (bytes_behind 0 _ _ ltac:(lia) Hw) as (? & -> & ? & ->). subst k.
      rewrite Z.sub_0_r, <- pow256_pow2. unfold floor. rewrite <- pow256_pow2, Z.div_small by lia.
      split_and!; (done || lia). }
    rewrite first_bytes_cons, last_bytes_cons, !wf_bytes_cons. cbn [be_value]. unfold zlen. rewrite !length_imap.
    replace (length l) with n by (by destruct H). rewrite pow256_pow2 in *.
    set (W := 2 ^ (8 * Z.of_nat n)) in *. assert (0 < W) by (apply pow2_pos; lia).
    destruct (Z.ltb_spec p 8).
    + destruct (bytes_behind (p - 8) _ _ ltac:(lia) H) as (? & -> & ? & ->).
      unfold first_byte, last_byte. rewrite !leb_false, !ltb_true, Z.mod_small by lia.
      destruct (split_byte p b ltac:(lia) Hb) as [-> ->].
      assert (floor k (b * W + be_value l) = floor (8 - p) b * W /\ 2 ^ k = 2 ^ (8 - p) * W) as [-> ->].
      { subst k W. replace (8 * Z.of_nat (S n) - p) with (8 * Z.of_nat n + (8 - p)) by lia.
        split; [|rewrite Z.pow_add_r by lia; lia]. unfold floor. rewrite Z.pow_add_r, <- Z.div_div by (try apply pow2_pos; lia).
        rewrite Z.div_add_l, (Z.div_small (be_value l)) by lia. rewrite Z.add_0_r. lia. }
      destruct (floor_below (8 - p) 8 b); [lia|done|]. pose proof (pow2_pos (8 - p)).
      unfold byte_ok in *. rewrite pow256_pow2. fold W. split_and!; (done || nia).
    + destruct (IH (p - 8) n) as (? & -> & ? & ->); [lia|done|].
      unfold first_byte, last_byte. rewrite !leb_false, !ltb_false by lia.
      replace (8 * Z.of_nat n - (p - 8)) with k by lia.
      assert (floor k (b * W + be_value l) = b * W + floor k (be_value l)) as ->; [|split_and!; (done || lia)].
      subst W. replace (8 * Z.of_nat n) with (p - 8 + k) by lia. unfold floor.
      rewrite Z.pow_add_r, Z.mul_assoc, Z.div_add_l by (try (pose proof (pow2_pos k)); lia). lia.
Qed.

(** * What networks are *)

Lemma v4_network_wf n : v4_wf (v4_network n).
Proof. apply v4_of_uint_wf. Qed.

Lemma broadcast_wf n : v4_wf (broadcast n).
Proof. apply v4_of_uint_wf. Qed.

#[export] Hint Resolve v4_network_wf broadcast_wf : xio.

Lemma v6_network_value n :
  wf6 n -> v6_wf (v6_network n) /\ v6_value (v6_network n) = floor (v6_block n) (v6_value (v6_address_ n)).
Proof. intros [[Ha Hs] Hp]. destruct (block_bytes (v6_prefix_length_ n) 16 _ ltac:(lia) Ha) as (? & E & _). split; [by split|exact E]. Qed.

Lemma v4_eqb_true a b : v4_wf a -> v4_wf b -> v4_eqb a b = true <-> v4_to_uint a = v4_to_uint b.
Proof.
  intros Ha Hb. pose proof (a_eqb_true (AddressLaws := v4_laws) a b Ha Hb) as E. cbn [a_eqb v4_address] in E.
  rewrite E. split; [by intros ->|by apply v4_eq].
Qed.

Lemma v6_eqb_true a b : v6_wf a -> v6_wf b -> v6_eqb a b = true <-> a = b.
Proof. apply (a_eqb_true (AddressLaws := v6_laws)). Qed.

(** Whether an address is of a network is whether its network is the same. *)
Lemma v4_subnet_eq n m :
  wf4 n -> wf4 m ->
  v4_is_subnet_of n m = Ok (bool_decide (v4_prefix_length_ m < v4_prefix_length_ n) &&
    bool_decide (v4_contains m (v4_address_ n))).
Proof.
  intros [Hn Pn] [Hm Pm]. unfold v4_is_subnet_of. case_bool_decide; cbn [andb]; [|by rewrite leb_true by lia].
  rewrite leb_false by lia. unfold v4_canonical, network_v4_new. cbn [rbind v4_prefix_length_ v4_address_].
  rewrite !ltb_false by lia. cbn [rbind]. rewrite ltb_false by (cbn; lia). cbn [rbind]. f_equal.
  unfold network_v4_eqb. cbn [v4_prefix_length_ v4_address_]. rewrite Z.eqb_refl, andb_true_r.
  apply eq_true_iff_eq. rewrite v4_eqb_true, bool_decide_eq_true by auto with xio.
  rewrite !v4_network_uint by (by split). unfold v4_contains, v4_block. cbn. naive_solver.
Qed.

Lemma v6_subnet_eq n m :
  wf6 n -> wf6 m ->
  v6_is_subnet_of n m = Ok (bool_decide (v6_prefix_length_ m < v6_prefix_length_ n) &&
    bool_decide (v6_contains m (v6_address_ n))).
Proof.
  intros [Hn Pn] [Hm Pm]. unfold v6_is_subnet_of. case_bool_decide; cbn [andb]; [|by rewrite leb_true by lia].
  rewrite leb_false by lia. unfold v6_canonical, network_v6_new. cbn [rbind v6_prefix_length_ v6_address_].
  rewrite !ltb_false by lia. cbn [rbind]. rewrite ltb_false by (cbn; lia). cbn [rbind]. f_equal.
  unfold network_v6_eqb. cbn [v6_prefix_length_ v6_address_]. rewrite Z.eqb_refl, andb_true_r.
  set (me := {| v6_address_ := v6_address_ n; v6_prefix_length_ := v6_prefix_length_ m |}).
  destruct (v6_network_value m) as [W1 V1]; [by split|]. destruct (v6_network_value me) as [W2 V2]; [by split|].
  apply eq_true_iff_eq. rewrite (v6_eqb_true _ _ W1 W2), bool_decide_eq_true. unfold v6_contains.
  change (v6_block me) with (v6_block m) in V2. cbn [me v6_address_] in V2. split.
  - intros E. rewrite <- V1, <- V2, E. split; [done|]. by apply (f_equal scope_id) in E.
  - intros [E Es]. apply v6_eq; [done|done|by rewrite V1, V2|done].
Qed.

(** ** Subnets *)

Lemma v4_contains_self n : v4_contains n (v4_address_ n).
Proof. reflexivity. Qed.

Lemma v4_contains_mono n m a :
  wf4 n -> wf4 m -> v4_prefix_length_ m <= v4_prefix_length_ n ->
  v4_contains m (v4_address_ n) -> v4_contains n a -> v4_contains m a.
Proof.
  intros [_ Hn] [_ Hm] Hp Hc Ha. unfold v4_contains, v4_block in *. rewrite <- Hc.
  eapply floor_mono; [|exact Ha]. lia.
Qed.

Lemma v6_contains_mono n m a :
  wf6 n -> wf6 m -> v6_prefix_length_ m <= v6_prefix_length_ n ->
  v6_contains m (v6_address_ n) -> v6_contains n a -> v6_contains m a.
Proof.
  intros [_ Hn] [_ Hm] Hp [Hc Hcs] [Ha Has]. unfold v6_contains, v6_block in *. rewrite <- Hc.
  split; [|congruence]. eapply floor_mono; [|exact Ha]. lia.
Qed.

(** C37: [is_subnet_of] of networks of either version returns, and says whether the network
    is smaller and all its addresses are in the other one. *)
Theorem subnet_is_inclusion n m n' m' :
  wf4 n -> wf4 m -> wf6 n' -> wf6 m' ->
  (exists b, v4_is_subnet_of n m = Ok b /\
    (b = true <-> v4_prefix_length_ m < v4_prefix_length_ n /\
      forall a, v4_wf a -> v4_contains n a -> v4_contains m a)) /\
  (exists b, v6_is_subnet_of n' m' = Ok b /\
    (b = true <-> v6_prefix_length_ m' < v6_prefix_length_ n' /\
      forall a, v6_wf a -> v6_contains n' a -> v6_contains m' a)).
Proof.
  intros Hn Hm Hn' Hm'. rewrite v4_subnet_eq, v6_subnet_eq by done.
  split; eexists; (split; [reflexivity|]); rewrite andb_true_iff, !bool_decide_eq_true.
  - split; intros [Hp Hc]; (split; [done|]).
    + intros a _. apply v4_contains_mono; (done || lia).
    + apply Hc; [apply Hn|done].
  - split; intros [Hp Hc]; (split; [done|]).
    + intros a _. apply v6_contains_mono; (done || lia).
    + apply Hc; [apply Hn'|done].
Qed.

(** ** Hosts *)

Lemma v4_hosts_wf n : wf4 n -> v4_wf (begin_ (v4_hosts n)) /\ v4_wf (end_ (v4_hosts n)).
Proof. intros [H _]. unfold v4_hosts. destruct (v4_is_host n); cbn; auto with xio. Qed.

(** The first address of the hosts and how many there are. *)
Definition v4_first (n : network_v4) : Z :=
  if v4_is_host n then v4_to_uint (v4_address_ n)
  else floor (v4_block n) (v4_to_uint (v4_address_ n)) + 1.

Definition v4_count (n : network_v4) : Z := if v4_is_host n then 1 else 2 ^ v4_block n - 2.

Lemma v4_hosts_bounds n :
  wf4 n ->
  v4_to_uint (begin_ (v4_hosts n)) = v4_first n /\
  v4_to_uint (end_ (v4_hosts n)) = u32 (v4_first n + v4_count n) /\
  (0 <= v4_count n < 2 ^ 32 /\ v4_count n <= 2 ^ v4_block n) /\ v4_first n + v4_count n <= 2 ^ 32 /\ 0 <= v4_first n < 2 ^ 32.
Proof.
  intros H. pose proof H as [Ha Hp]. pose proof (v4_uint_range _ Ha) as Hr. unfold v4_hosts, v4_first, v4_count.
  destruct (v4_is_host n) eqn:Eh; unfold v4_is_host in Eh; bool_to_prop; cbn [begin_ end_].
  - rewrite v4_uint_of_uint. unfold v4_block. rewrite Eh. change (2 ^ (32 - 32)) with 1. unfold u32.
    rewrite Z.mod_mod by lia. split_and!; (done || lia).
  - rewrite v4_uint_of_uint, v4_network_uint, broadcast_uint by done.
    destruct (floor_below (v4_block n) 32 (v4_to_uint (v4_address_ n))) as [F1 F2]; [unfold v4_block; lia|done|].
    assert (2 <= 2 ^ v4_block n).
    { change 2 with (2 ^ 1) at 1. apply Z.pow_le_mono_r; unfold v4_block; lia. }
    assert (2 ^ v4_block n <= 2 ^ 32) by (apply Z.pow_le_mono_r; unfold v4_block; lia).
    rewrite (u32_small (floor _ _ + 1)), !u32_small by (unfold_width; lia). split_and!; (done || lia).
Qed.

(** The addresses of the hosts, in terms of the network. *)
Lemma v4_host_between n a :
  wf4 n -> v4_wf a ->
  v4_first n <= v4_to_uint a < v4_first n + v4_count n <->
  v4_contains n a /\ (v4_is_host n = true \/ a <> v4_network n /\ a <> broadcast n).
Proof.
  intros H Ha. pose proof H as [Hn Hp]. unfold v4_first, v4_count, v4_contains. rewrite floor_eq by (unfold v4_block; lia).
  destruct (v4_is_host n) eqn:Eh; unfold v4_is_host in Eh; bool_to_prop.
  - unfold v4_block. rewrite Eh. change (2 ^ (32 - 32)) with 1. unfold floor. change (2 ^ (32 - 32)) with 1.
    rewrite Z.div_1_r. naive_solver lia.
  - pose proof (v4_network_uint n H) as En. pose proof (broadcast_uint n H) as Eb.
    split.
    + intros Hv. split; [lia|]. right. split; intros ->; lia.
    + intros [Hv [?|[N1 N2]]]; [done|].
      assert (v4_to_uint a <> v4_to_uint (v4_network n)) by (intros ?; apply N1, v4_eq; auto with xio).
      assert (v4_to_uint a <> v4_to_uint (broadcast n)) by (intros ?; apply N2, v4_eq; auto with xio). lia.
Qed.

Lemma v4_hosts_walk n :
  wf4 n ->
  exists l, walk (Z.to_nat (2 ^ v4_block n)) (begin_ (v4_hosts n)) (end_ (v4_hosts n)) = Some l /\
    map v4_to_uint l = seqZ (v4_first n) (v4_count n) /\
    (forall a, a ∈ l <-> v4_wf a /\ v4_contains n a /\
      (v4_is_host n = true \/ a <> v4_network n /\ a <> broadcast n)).
Proof.
  intros H. destruct (v4_hosts_wf n H) as [W1 W2]. destruct (v4_hosts_bounds n H) as (Vb & Ve & Hc & Hl & Hf).
  destruct (walk_range (Laws := v4_laws) (Z.to_nat (2 ^ v4_block n)) (v4_hosts n) (v4_count n)) as (l & E & El & Hel);
    cbn [a_value a_scope a_wf a_bound v4_laws] in *; try done.
  - by rewrite Vb.
  - apply Hc.
  - by rewrite Vb.
  - apply Z2Nat.inj_le; lia.
  - exists l. split_and!; [done|by rewrite El, Vb|]. intros a. rewrite Hel, Vb.
    split; [intros (Wa & _ & Hv)|intros (Wa & Hv)]; [split; [done|]|split_and!; [done|done|..]];
      apply v4_host_between in Hv; try done; apply Hv.
Qed.

Lemma v6_hosts_bounds n :
  wf6 n ->
  let r := v6_hosts n in
  v6_wf (begin_ r) /\ v6_wf (end_ r) /\
  scope_id (begin_ r) = scope_id (v6_address_ n) /\ scope_id (end_ r) = scope_id (v6_address_ n) /\
  v6_value (begin_ r) = floor (v6_block n) (v6_value (v6_address_ n)) /\
  v6_value (end_ r) = (floor (v6_block n) (v6_value (v6_address_ n)) + 2 ^ v6_block n) mod 2 ^ 128.
Proof.
  intros [[Ha Hs] Hp] r. destruct (block_bytes (v6_prefix_length_ n) 16 _ ltac:(lia) Ha) as (B1 & V1 & B2 & V2).
  destruct (next_bytes_value 16 _ B2) as [B3 V3]. split_and!; [by split|by split|done|done|exact V1|].
  unfold v6_value, r, v6_hosts, v6_next. cbn [end_]. change (v6_of_bytes ?l ?s) with {| s6_addr := l; scope_id := s |}.
  change (be_value (next_bytes 16 (imap (last_byte (v6_prefix_length_ n)) (s6_addr (v6_address_ n)))) =
    (floor (v6_block n) (v6_value (v6_address_ n)) + 2 ^ v6_block n) mod 2 ^ 128).
  rewrite V3, V2. unfold v6_value, v6_block. change (8 * Z.of_nat 16) with 128. change (256 ^ Z.of_nat 16) with (2 ^ 128).
  f_equal. lia.
Qed.

Lemma v6_hosts_walk n :
  wf6 n -> 1 <= v6_prefix_length_ n ->
  exists l, walk (Z.to_nat (2 ^ v6_block n)) (begin_ (v6_hosts n)) (end_ (v6_hosts n)) = Some l /\
    map v6_value l = seqZ (floor (v6_block n) (v6_value (v6_address_ n))) (2 ^ v6_block n) /\
    (forall a, a ∈ l <-> v6_wf a /\ v6_contains n a).
Proof.
  intros H H1. destruct (v6_hosts_bounds n H) as (W1 & W2 & S1 & S2 & V1 & V2). pose proof H as [[Ha Hs] Hp].
  pose proof (be_value_range 16 _ Ha) as Hr. change (256 ^ Z.of_nat 16) with (2 ^ 128) in Hr.
  destruct (floor_below (v6_block n) 128 (v6_value (v6_address_ n))) as [F1 F2]; [unfold v6_block; lia|exact Hr|].
  assert (0 < 2 ^ v6_block n) by (apply pow2_pos; unfold v6_block; lia).
  assert (2 ^ v6_block n < 2 ^ 128) by (apply Z.pow_lt_mono_r; unfold v6_block; lia).
  destruct (walk_range (Laws := v6_laws) (Z.to_nat (2 ^ v6_block n)) (v6_hosts n) (2 ^ v6_block n)) as (l & E & El & Hel);
    cbn [a_value a_scope a_wf a_bound v6_laws] in *; try done.
  - by rewrite V1.
  - lia.
  - by rewrite V1.
  - exists l. split_and!; [done|by rewrite El, V1|]. intros a. rewrite Hel, V1, S1. unfold v6_contains.
    rewrite floor_eq by (unfold v6_block; lia). tauto.
Qed.

Lemma v6_subnet_nonempty n : wf6 n -> 1 <= v6_prefix_length_ n -> v6_empty (v6_hosts n) = false.
Proof.
  intros H H1. destruct (v6_hosts_walk n H H1) as (l & E & _ & Hel). apply not_true_is_false. intros Eb.
  unfold v6_empty in Eb. pose proof (pow2_pos (v6_block n)) as Hk.
  destruct (Z.to_nat (2 ^ v6_block n)) eqn:En; [destruct H; unfold v6_block in *; lia|].
  cbn [walk a_eqb v6_address] in E. rewrite Eb in E. injection E as <-.
  assert (v6_address_ n ∈ @nil address_v6) as Hin%elem_of_nil; [|done]. apply Hel. split; [apply H|done].
Qed.


(** [find] finds the addresses a loop visits, unless the end of the range has wrapped. *)
Lemma v4_find n a :
  wf4 n -> v4_wf a -> v4_first n + v4_count n < 2 ^ 32 ->
  find (v4_hosts n) a =
    if decide (v4_first n <= v4_to_uint a < v4_first n + v4_count n) then a else end_ (v4_hosts n).
Proof.
  intros H Ha Hw. destruct (v4_hosts_wf n H) as [W1 W2]. destruct (v4_hosts_bounds n H) as (Vb & Ve & Hc & Hl & Hf).
  etransitivity; [by apply (find_ok (Laws := v4_laws))|]. cbn [a_value v4_laws]. rewrite Vb, Ve, u32_small by (unfold_width; lia). done.
Qed.

Lemma v6_find n a :
  wf6 n -> v6_wf a -> scope_id a = scope_id (v6_address_ n) ->
  floor (v6_block n) (v6_value (v6_address_ n)) + 2 ^ v6_block n < 2 ^ 128 ->
  find (v6_hosts n) a = if decide (v6_contains n a) then a else end_ (v6_hosts n).
Proof.
  intros H Ha Es Hw. destruct (v6_hosts_bounds n H) as (W1 & W2 & S1 & S2 & V1 & V2). pose proof H as [[Hn _] Hp].
  pose proof (be_value_range 16 _ Hn) as Hr. change (256 ^ Z.of_nat 16) with (2 ^ 128) in Hr.
  destruct (floor_below (v6_block n) 128 (v6_value (v6_address_ n))) as [F1 F2]; [unfold v6_block; lia|exact Hr|].
  assert (0 < 2 ^ v6_block n) by (apply pow2_pos; unfold v6_block; lia).
  etransitivity; [apply (find_ok (Laws := v6_laws)); cbn [a_wf a_scope v6_laws]; congruence || done|].
  cbn [a_value v6_laws]. rewrite V1, V2, Z.mod_small by lia.
  pose proof (floor_eq (v6_block n) (v6_value (v6_address_ n)) (v6_value a) ltac:(unfold v6_block; lia)).
  repeat case_decide; try done; unfold v6_contains in *; tauto.
Qed.

(** The hosts of the last address alone are that address, which [find] does not find: the
    end of the range is 0.0.0.0. *)
Example last_address_not_found :
  let n := {| v4_address_ := v4_broadcast; v4_prefix_length_ := 32 |} in
  walk 1 (begin_ (v4_hosts n)) (end_ (v4_hosts n)) = Some [v4_broadcast] /\
  find (v4_hosts n) v4_broadcast = v4_default /\ end_ (v4_hosts n) = v4_default.
Proof. vm_compute. auto. Qed.

Definition v6_bytes2 (b0 b1 : Z) : list Z := b0 :: b1 :: replicate 14 0.

(** In the same way no address of ff00::/8, the multicast addresses, is found. *)
Example multicast_not_found :
  let n := {| v6_address_ := v6_of_bytes (v6_bytes2 0xff 0) 0; v6_prefix_length_ := 8 |} in
  let a := v6_of_bytes (v6_bytes2 0xff 2) 0 in
  v6_contains n a /\ find (v6_hosts n) a = end_ (v6_hosts n) /\ end_ (v6_hosts n) = v6_default.
Proof. split_and!; [|vm_compute; reflexivity..]. split; by vm_compute. Qed.

(** The hosts of ::/0 are none. *)
Example whole_v6_is_empty :
  v6_empty (v6_hosts network_v6_default) = true /\
  walk 0 (begin_ (v6_hosts network_v6_default)) (end_ (v6_hosts network_v6_default)) = Some [].
Proof. by vm_compute. Qed.

(** ** Masks *)

Lemma mask_byte_ok b c f :
  byte_ok b -> mask_byte_length b = Some (c, f) -> 0 <= c <= 8 /\ b = 256 - 2 ^ (8 - c) /\ f = bool_decide (c < 8).
Proof.
  intros Hb. pose proof (all_below (fun b => match mask_byte_length b with
    | Some (c, f) => (0 <=? c) && (c <=? 8) && (b =? 256 - 2 ^ (8 - c)) && Bool.eqb f (bool_decide (c < 8))
    | None => true end) 256 b ltac:(by vm_compute) Hb) as H. cbn beta in H.
  intros E. rewrite E in H. rewrite !andb_true_iff in H. destruct H as [[[? ?] ?] ?%Bool.eqb_prop]. bool_to_prop. by split_and!.
Qed.

Lemma mask_length_finished l n p q :
  wf_bytes n l -> mask_length l true p = Ok q -> q = p /\ be_value l = 0.
Proof.
  revert n. induction l as [|b l IH]; intros n H E; [by injection E|].
  destruct n as [|n]; [by destruct H|]. apply wf_bytes_cons in H as [_ H]. cbn [mask_length] in E.
  destruct (Z.eqb_spec b 0) as [->|]; [|done]. destruct (IH n H E) as [-> V]. cbn [be_value]. by rewrite V.
Qed.

Lemma mask_length_ok l n p q :
  wf_bytes n l -> mask_length l false p = Ok q ->
  p <= q <= p + 8 * Z.of_nat n /\ be_value l = 2 ^ (8 * Z.of_nat n) - 2 ^ (8 * Z.of_nat n - (q - p)).
Proof.
  revert n p. induction l as [|b l IH]; intros n p H E.
  - destruct H as [<- _]. injection E as ->. cbn. rewrite Z.sub_diag. lia.
  - destruct n as [|n]; [by destruct H|]. apply wf_bytes_cons in H as [Hb H]. cbn [mask_length] in E.
    destruct (mask_byte_length b) as [[c f]|] eqn:Em; [|done]. destruct (mask_byte_ok b c f Hb Em) as (Hc & -> & ->).
    cbn [be_value]. unfold zlen. rewrite (proj1 H), pow256_pow2. set (m := 8 * Z.of_nat n) in *.
    replace (8 * Z.of_nat (S n)) with (8 + m) by lia. rewrite Z.pow_add_r by lia. case_bool_decide.
    + destruct (mask_length_finished l n _ q H E) as [-> ->]. split; [lia|].
      replace (8 + m - (p + c - p)) with (8 - c + m) by lia. rewrite Z.pow_add_r by lia. lia.
    + assert (c = 8) as -> by lia. destruct (IH n (p + 8) H E) as [Hq ->]. fold m. split; [lia|].
      replace (8 + m - (q - p)) with (m - (q - (p + 8))) by lia. lia.
Qed.

(** The constructor of a network from a mask accepts the masks of networks and no
    others, and the network it makes has the mask it was given. *)
Theorem masks_are_of_networks addr mask n :
  v4_wf addr -> v4_wf mask ->
  network_v4_mask addr mask = Ok n <-> wf4 n /\ v4_address_ n = addr /\ netmask n = mask.
Proof.
  intros Ha Hm. unfold network_v4_mask, v4_to_bytes. split.
  - destruct (mask_length _ _ _) as [q|] eqn:E; [|done]. cbn [rbind]. intros [= <-].
    destruct (mask_length_ok _ 4 0 q Hm E) as [Hq Hv]. assert (wf4 {| v4_address_ := addr; v4_prefix_length_ := q |}) as Hw.
    { split; [done|]. cbn. lia. }
    split_and!; [done|done|]. apply v4_eq; [apply v4_of_uint_wf|done|]. rewrite netmask_uint by done.
    unfold v4_to_uint. rewrite Hv. unfold v4_block. cbn. do 2 f_equal. lia.
  - intros ([_ Hp] & <- & <-). destruct n as [a p]. cbn [v4_address_ v4_prefix_length_] in *.
    assert (mask_length (s_addr (netmask {| v4_address_ := a; v4_prefix_length_ := p |})) false 0 = Ok p) as ->; [|done].
    pose proof (all_below (fun p => match mask_length (s_addr (netmask {| v4_address_ := v4_default; v4_prefix_length_ := p |})) false 0
      with Ok q => q =? p | _ => false end) 33 p ltac:(by vm_compute) ltac:(lia)) as H. cbn beta in H.
    change (netmask {| v4_address_ := a; v4_prefix_length_ := p |}) with (netmask {| v4_address_ := v4_default; v4_prefix_length_ := p |}).
    destruct (mask_length _ _ _); [|done]. apply Z.eqb_eq in H. by subst.
Qed.

(** ** Text *)

Lemma digits_is_digit l : digits l -> forallb is_digit l = true.
Proof. induction 1 as [|c l Hc _ IH]; [done|]. cbn. rewrite IH. unfold is_digit. by rewrite !leb_true by lia. Qed.

Lemma to_string_nonempty n : 0 <= n -> 0 < zlen (to_string n).
Proof.
  intros H. unfold to_string. rewrite ltb_false by lia. pose proof (decimal_cons 10 n [] ltac:(lia)).
  destruct (decimal 10 n []); [done|zlen_lia].
Qed.

Lemma split_network_ok s p :
  Forall name_char s -> 0 <= p -> split_network (s ++ slash :: to_string p) = Some (s, to_string p).
Proof.
  intros Hs Hp. unfold split_network. rewrite strchr_app by (eapply Forall_impl; [exact Hs|]; by intros ? []).
  cbn [tail]. pose proof (to_string_nonempty p Hp). rewrite eqb_false by zlen_lia.
  by rewrite digits_is_digit by by apply to_string_digits.
Qed.

Lemma cstr_name s : Forall name_char s -> cstr_prefix s = s.
Proof. intros H. apply cstr_prefix_full. eapply Forall_impl; [exact H|]. by intros ? []. Qed.

Section TextOk.
Context (os : inet_os) {Laws : InetLaws os}.

Lemma network_v4_text n :
  wf4 n -> exists s, network_v4_to_string os n = Some s /\ make_network_v4 os s = Ok (n, no_error).
Proof.
  intros [H Hp]. destruct (v4_text os _ H) as (s & E & Hs & Er & _). unfold network_v4_to_string. rewrite E.
  eexists; split; [reflexivity|]. unfold make_network_v4, make_address_v4_str.
  rewrite split_network_ok, cstr_name, Er by (done || lia). cbn [rbind]. rewrite atoi_to_string by lia. cbn [rbind].
  rewrite !ltb_false by lia. cbn [orb]. unfold u16, network_v4_new. rewrite Z.mod_small, ltb_false by lia. by destruct n.
Qed.

Lemma network_v6_text n :
  wf6 n -> printable_scope os (v6_address_ n) ->
  exists s, network_v6_to_string os n = Some s /\ make_network_v6 os s = Ok (n, no_error).
Proof.
  intros [H Hp] Hsc. destruct (v6_text os _ H Hsc) as (s & E & Hs & Er). unfold network_v6_to_string. rewrite E.
  eexists; split; [reflexivity|]. unfold make_network_v6, make_address_v6_str.
  rewrite split_network_ok, cstr_name, Er by (done || lia). cbn [rbind]. rewrite atoi_to_string by lia. cbn [rbind].
  rewrite !ltb_false by lia. cbn [orb]. unfold u16, network_v6_new. rewrite Z.mod_small, ltb_false by lia. by destruct n.
Qed.


(** A scope that is no [int], of an address that is not local to a link, is printed but
    cannot be read: [atoi] is not defined on it. *)
Lemma scope_read_undefined a :
  v6_wf a -> scoped (s6_addr a) = false -> 2 ^ 31 <= scope_id a ->
  exists s, v6_to_string os a = Some s /\ make_address_v6 os s = Throw Undefined.
Proof.
  intros [H Hs] Hsc Hu. destruct (ntop_pton ipv6 _ H) as (s & E & Er & Hc & Hl). apply text_chars in Hc as [_ Hpc].
  unfold v6_to_string, make_address_v6, inet_ntop, inet_pton. rewrite E, bool_decide_eq_true_2, eqb_false by (done || lia).
  eexists; split; [reflexivity|]. unfold if_name_of. rewrite Hsc. cbn [negb andb].
  rewrite strchr_app by done. unfold max_addr_v6_str_len. rewrite ltb_false, Er by lia. cbn [tail]. rewrite Hsc, Z.eqb_refl.
  unfold atoi. rewrite stoi_large by (unfold_width; lia). done.
Qed.

(** The same of a prefix of too many digits. *)
Lemma prefix_read_undefined n p :
  wf4 n -> 2 ^ 31 <= p < 10 ^ 10 ->
  exists s, v4_to_string os (v4_address_ n) = Some s /\
    make_network_v4 os (s ++ slash :: to_string p) = Throw Undefined.
Proof.
  intros [H Hp] Hl. destruct (v4_text os _ H) as (s & E & Hs & Er & _). exists s. split; [done|].
  unfold make_network_v4, make_address_v4_str. rewrite split_network_ok, cstr_name, Er by (done || lia). cbn [rbind].
  unfold atoi. by rewrite stoi_large by lia.
Qed.
End TextOk.

(** * Kinds of addresses are networks *)

Definition v4_block_of (addr p : Z) : network_v4 := {| v4_address_ := v4_of_uint addr; v4_prefix_length_ := p |}.

Definition v6_block_of (bytes : list Z) (p : Z) (a : address_v6) : network_v6 :=
  {| v6_address_ := v6_of_bytes bytes (scope_id a); v6_prefix_length_ := p |}.

Lemma v4_contains_uint addr p a :
  is_u32 addr ->
  v4_contains (v4_block_of addr p) a <-> floor (32 - p) (v4_to_uint a) = floor (32 - p) addr.
Proof. intros H. unfold v4_contains, v4_block. cbn [v4_address_ v4_prefix_length_ v4_block_of]. rewrite (v4_uint_of_uint addr), u32_small by done. done. Qed.

Lemma v4_kinds a :
  v4_wf a ->
  v4_is_loopback a = bool_decide (v4_contains (v4_block_of 0x7F000000 8) a) /\
  v4_is_multicast a = bool_decide (v4_contains (v4_block_of 0xE0000000 4) a) /\
  v4_is_unspecified a = bool_decide (v4_contains (v4_block_of 0 32) a).
Proof.
  intros H. pose proof (v4_uint_range a H) as Hr.
  split_and!; apply eq_true_iff_eq; rewrite bool_decide_eq_true, v4_contains_uint by (unfold_width; lia);
    unfold v4_is_loopback, v4_is_multicast, v4_is_unspecified; rewrite Z.eqb_eq.
  - by rewrite <- (land_mask (32 - 8)) by lia.
  - by rewrite <- (land_mask (32 - 4)) by lia.
  - unfold floor. change (2 ^ (32 - 32)) with 1. by rewrite !Z.div_1_r, !Z.mul_1_r.
Qed.

Lemma v6_contains_bytes bytes p a :
  v6_wf a -> wf_bytes 16 bytes -> 0 <= p <= 128 ->
  v6_contains (v6_block_of bytes p a) a <-> imap (first_byte p) (s6_addr a) = imap (first_byte p) bytes.
Proof.
  intros [Ha _] Hb Hp. unfold v6_contains, v6_block, v6_value. cbn [v6_address_ v6_prefix_length_ v6_block_of v6_of_bytes s6_addr scope_id].
  destruct (block_bytes p 16 _ Hp Ha) as (W1 & V1 & _). destruct (block_bytes p 16 _ Hp Hb) as (W2 & V2 & _).
  change (8 * Z.of_nat 16) with 128 in *. rewrite <- V1, <- V2. split; [|by intros ->].
  intros [E _]. by apply (be_value_inj 16).
Qed.

(** A test of all the values of a byte. *)
Lemma byte_test (f g : Z -> bool) b : forallb (fun b => Bool.eqb (f b) (g b)) (seqZ 0 256) = true -> byte_ok b -> f b = g b.
Proof. intros H Hb. apply Bool.eqb_prop. by apply (all_below (fun b => Bool.eqb (f b) (g b)) 256). Qed.

Lemma wf_bytes_test n l : length l = n -> forallb (fun b => (0 <=? b) && (b <? 256)) l = true -> wf_bytes n l.
Proof. intros Hl H. split; [done|]. apply Forall_forall. intros b Hb%list_elem_of_In. rewrite forallb_forall in H.
  specialize (H b Hb). bool_to_prop. done. Qed.

Lemma v6_kinds a :
  v6_wf a ->
  v6_is_link_local a = bool_decide (v6_contains (v6_block_of (v6_bytes2 0xfe 0x80) 10 a) a) /\
  v6_is_site_local a = bool_decide (v6_contains (v6_block_of (v6_bytes2 0xfe 0xc0) 10 a) a) /\
  v6_is_multicast a = bool_decide (v6_contains (v6_block_of (v6_bytes2 0xff 0) 8 a) a) /\
  v6_is_v4_mapped a = bool_decide (v6_contains (v6_block_of (s6_addr (v6_of_v4 v4_default)) 96 a) a) /\
  v6_is_loopback a = bool_decide (v6_contains (v6_block_of (s6_addr v6_loopback) 128 a) a) /\
  v6_is_unspecified a = bool_decide (v6_contains (v6_block_of (s6_addr v6_default) 128 a) a).
Proof.
  intros H. pose proof H as [[Hl Hb] _]. destruct a as [l sc]. cbn [s6_addr] in *.
  do 16 (destruct l as [|? l]; [done|]). destruct l; [|done].
  repeat (apply Forall_cons in Hb as [? Hb]).
  split_and!; apply eq_true_iff_eq; rewrite bool_decide_eq_true, v6_contains_bytes by (done || lia || by apply wf_bytes_test).
  all: cbv -[Z.land u8 Z.eqb andb iff not].
  1: rewrite (byte_test (fun b => Z.land b 192 =? 128) (fun b => u8 (Z.land b 16320) =? u8 (Z.land 128 16320)) z0)
    by (done || by vm_compute).
  2: rewrite (byte_test (fun b => Z.land b 192 =? 192) (fun b => u8 (Z.land b 16320) =? u8 (Z.land 192 16320)) z0)
    by (done || by vm_compute).
  all: rewrite ?andb_true_iff, ?Z.eqb_eq; split;
    [intros; destruct_and?; subst; congruence|intros [=]; split_and?; done].
Qed.

(** The addresses of version 4 are those of version 6 in ::ffff:0:0/96. *)
Lemma mapped_roundtrip a : v4_wf a -> v4_of_mapped (v6_of_v4 a) = Some a.
Proof.
  intros [Hl _]. destruct a as [l]. cbn [s_addr] in *. do 4 (destruct l as [|? l]; [done|]). by destruct l.
Qed.

Lemma mapped_onto b :
  v6_wf b -> scope_id b = 0 -> v6_is_v4_mapped b = true ->
  exists a, v4_of_mapped b = Some a /\ v4_wf a /\ v6_of_v4 a = b.
Proof.
  intros [[Hl Hb] _] Hs Hm. unfold v4_of_mapped. rewrite Hm. eexists; split; [reflexivity|].
  destruct b as [l sc]. cbn [s6_addr scope_id] in *. subst sc. do 16 (destruct l as [|? l]; [done|]). destruct l; [|done].
  unfold v6_is_v4_mapped, byte in Hm. cbn [s6_addr nth] in Hm. rewrite !andb_true_iff, !Z.eqb_eq in Hm. destruct_and! Hm. subst.
  repeat (apply Forall_cons in Hb as [? Hb]). split; [|done]. split; [done|].
  by repeat (apply Forall_cons; split; [done|]).
Qed.
