(* ===== verification/IpSamples.v ===== *)
(** Networks and their text at concrete inputs, with system functions that write a byte as
    two letters and know one interface. *)
From S2P Require Import Prelude Buffer Service Address Network.

Definition letters (b : Z) : list Z := [97 + b / 16; 97 + b mod 16].

Fixpoint of_letters (s : list Z) : option (list Z) :=
  match s with
  | [] => Some []
  | [_] => None
  | c :: d :: s =>
      match of_letters s with
      | Some l => Some ((c - 97) * 16 + (d - 97) :: l)
      | None => None
      end
  end.

Definition eth0 : list Z := [101; 116; 104; 48].

Definition letters_os : inet_os := {|
  os_ntop := fun af l => Some (concat (map letters l));
  os_pton := fun af s => if (length s =? 2 * addr_size af)%nat then of_letters s else None;
  if_indextoname := fun i => if i =? 1 then Some eth0 else None;
  if_nametoindex := fun s => if bool_decide (s = eth0) then 1 else 0 |}.

Lemma letters_length l : length (concat (map letters l)) = (2 * length l)%nat.
Proof. induction l as [|b l IH]; [done|]. cbn. rewrite IH. lia. Qed.

Lemma of_letters_ok l : of_letters (concat (map letters l)) = Some l.
Proof.
  induction l as [|b l IH]; [done|]. cbn [map concat letters app of_letters]. rewrite IH. do 2 f_equal.
  pose proof (Z.div_mod b 16). lia.
Qed.

Lemma letters_text l : Forall byte_ok l -> Forall text_char (concat (map letters l)).
Proof.
  induction 1 as [|b l Hb _ IH]; [constructor|]. cbn [map concat letters app]. unfold byte_ok in Hb.
  assert (0 <= b / 16 < 16) by (split; [apply Z.div_pos; lia|apply Z.div_lt_upper_bound; lia]).
  pose proof (Z.mod_pos_bound b 16). do 2 (constructor; [unfold text_char, name_char, percent; lia|]). done.
Qed.

#[export] Instance letters_laws : InetLaws letters_os.
Proof.
  split; cbn.
  - intros af l [Hl Hb]. eexists; split; [reflexivity|]. rewrite letters_length, Hl, Nat.eqb_refl, of_letters_ok.
    split_and!; [done|by apply letters_text|]. unfold zlen. rewrite letters_length, Hl. by destruct af.
  - intros l s [Hl _] [= <-]. by rewrite letters_length, Hl.
  - intros i s. destruct (Z.eqb_spec i 1) as [->|]; [|done]. intros [= <-]. split; [done|].
    repeat (apply Forall_cons; split; [unfold name_char; lia|]). constructor.
Qed.

(** 10.1.2.3/24 in 10.0.0.0/8, 10.1.2.3 alone, and fe80::1/64 on the first interface in fe80::/10. *)
Definition net24 : network_v4 := {| v4_address_ := v4_of_uint 0x0A010203; v4_prefix_length_ := 24 |}.

Definition net8 : network_v4 := {| v4_address_ := v4_of_uint 0x0A000000; v4_prefix_length_ := 8 |}.

Definition net30 : network_v4 := {| v4_address_ := v4_of_uint 0x0A010203; v4_prefix_length_ := 30 |}.

Definition local_bytes (b : Z) : list Z := 0xfe :: 0x80 :: replicate 13 0 ++ [b].

Definition net64 : network_v6 := {| v6_address_ := v6_of_bytes (local_bytes 1) 1; v6_prefix_length_ := 64 |}.

Definition net10 : network_v6 := {| v6_address_ := v6_of_bytes (local_bytes 0) 1; v6_prefix_length_ := 10 |}.

Definition net126 : network_v6 := {| v6_address_ := v6_of_bytes (local_bytes 1) 1; v6_prefix_length_ := 126 |}.

Lemma v6_wf_test l s : length l = 16%nat -> forallb (fun b => (0 <=? b) && (b <? 256)) l = true -> is_u32 s -> v6_wf (v6_of_bytes l s).
Proof. intros. split; [by apply wf_bytes_test|done]. Qed.

Ltac wf_network := split; [first [apply v4_of_uint_wf | by apply v6_wf_test]|cbn; lia].

Lemma subnet_is_inclusion_witness :
  (exists b, v4_is_subnet_of net24 net8 = Ok b /\
    (b = true <-> 8 < 24 /\ forall a, v4_wf a -> v4_contains net24 a -> v4_contains net8 a)) /\
  (exists b, v6_is_subnet_of net64 net10 = Ok b /\
    (b = true <-> 10 < 64 /\ forall a, v6_wf a -> v6_contains net64 a -> v6_contains net10 a)).
Proof. apply (subnet_is_inclusion net24 net8 net64 net10); wf_network. Defined.

Example subnets_evaluate :
  v4_is_subnet_of net24 net8 = Ok true /\ v4_is_subnet_of net8 net24 = Ok false /\
  v6_is_subnet_of net64 net10 = Ok true.
Proof. by vm_compute. Qed.


Example hosts_evaluate :
  walk 4 (begin_ (v4_hosts net30)) (end_ (v4_hosts net30)) = Some [v4_of_uint 0x0A010201; v4_of_uint 0x0A010202] /\
  walk 4 (begin_ (v6_hosts net126)) (end_ (v6_hosts net126)) =
    Some (map (fun b => v6_of_bytes (local_bytes b) 1) [0; 1; 2; 3]).
Proof. by vm_compute. Qed.

Lemma masks_are_of_networks_witness :
  wf4 net24 /\ v4_address_ net24 = v4_of_uint 0x0A010203 /\ netmask net24 = v4_of_uint 0xFFFFFF00.
Proof.
  apply (masks_are_of_networks (v4_of_uint 0x0A010203) (v4_of_uint 0xFFFFFF00) net24);
    [apply v4_of_uint_wf|apply v4_of_uint_wf|by vm_compute].
Defined.

