(* ===== verification/LeaderLog.v ===== *)
(** What the operations of a leader do to its log and its commit index: entries
    are only appended, and the commit index does not go back. *)
From S2P Require Import Prelude Buffer Serializer Codec Messages Peer LogStore Server.
From S2P Require Import Replication Election Startup Samples Follower Leader Total Append Quorum.

(** * Blocks that are built are well formed *)

Lemma safe_set_pos n q : 0 <= q -> safe (set_pos q) n.
Proof.
  intros Hq l p Hb E. rewrite mkbuf_set_pos by done. eexists _, _, _. split; [done|].
  destruct Hb. split_and!; [split; lia|done|done].
Qed.

Lemma safe_put_buf n b : wf b -> safe (put_buf b) n.
Proof.
  intros (l & p & Hb & ->) l' p' Hb' E. rewrite put_buf_put_at by done. by apply safe_put_at.
Qed.

Lemma build_wf `{U : Uninit} n m b : 0 <= n -> safe m n -> build n m = Ok b -> wf b.
Proof.
  intros Hn Hm. unfold build. destruct (Z.lt_ge_cases n (2 ^ 31)).
  - rewrite alloc_ok by lia. cbn [rbind].
    assert (zlen (fresh n) = n) as E by by apply zlen_fresh.
    destruct (Hm (fresh n) 0) as (r & l & p & -> & Hb & _); [split; lia|done|].
    destruct r; intros [= <-]. by exists l, p.
  - by rewrite alloc_too_big.
Qed.

Section ConfigBlocks.
Context `{U : Uninit}.

Lemma srv_config_wf c b : srv_config_serialize c = Ok b -> wf b.
Proof.
  unfold srv_config_serialize. apply build_wf; [zlen_lia|].
  unfold put_int, put_str, put_byte. auto 12 using safe_set_pos with xio lia.
Qed.

Lemma serialize_all_wf l bs : serialize_all l = Ok bs -> Forall wf bs.
Proof.
  revert bs. induction l as [|c l IH]; cbn; [by intros ? [= <-]|]. intros bs.
  destruct (srv_config_serialize c) eqn:E; [|done]. cbn [rbind].
  destruct (serialize_all l); [|done]. intros [= <-]. constructor; [by eapply srv_config_wf|by apply IH].
Qed.

Lemma safe_put_bufs n l : Forall wf l -> safe (put_bufs l) n.
Proof. induction 1; cbn; [apply safe_ret|]. apply safe_bind; [by apply safe_put_buf|done]. Qed.

Lemma sizes_pos l : Forall wf l -> 0 <= sizes l.
Proof.
  unfold sizes. induction 1 as [|b l (bs & p & Hb & ->) Hl IH]; cbn; [done|].
  rewrite mkbuf_size by done. zlen_lia.
Qed.

Lemma cluster_config_wf c b : cluster_config_serialize c = Ok b -> wf b.
Proof.
  unfold cluster_config_serialize. destruct (serialize_all _) as [bs|] eqn:E; [|done]. cbn [rbind].
  apply serialize_all_wf in E. pose proof (sizes_pos _ E). apply build_wf; [zlen_lia|].
  pose proof (fun n => safe_put_bufs n bs E).
  unfold put_int, put_bytes, put_byte, put_ulong. auto 14 using safe_set_pos with xio lia.
Qed.

End ConfigBlocks.

(** * Growing *)

Create HintDb grows.

Lemma appends_app es fs a : al_appends (es ++ fs) a = al_appends fs (al_appends es a).
Proof. apply fold_left_app. Qed.

Section Grows.
Context {L : Type} `{LS : LogStore L} `{SP : !LogStoreSpec L} `{EV : Env} `{U : Uninit}.

#[local] Abbreviation server := (raft_server L).
#[local] Abbreviation SM := (M (raft_server L)).

(** From [s] to [s'] at most [n] entries were appended, nothing else happened to
    the log, and the commit index did not go back. *)
Definition grown (n : Z) (s s' : server) : Prop :=
  ls_ok (log_store_ s') /\ quick_commit_index_ s <= quick_commit_index_ s' /\
  exists es, zlen es <= n /\ log_of s' = al_appends es (log_of s).

Definition grows (n : Z) {A} (m : SM A) : Prop := forall s,
  ls_ok (log_store_ s) -> al_next (log_of s) + n < 2 ^ 64 -> grown n s (run_state m s).

Lemma grown_same s : ls_ok (log_store_ s) -> grown 0 s s.
Proof. intros H. split_and!; [done|done|]. by exists []. Qed.

Lemma grown_weaken n k s s' : n <= k -> grown n s s' -> grown k s s'.
Proof.
  intros Hn (O & C & es & Hz & V). split_and!; [done|done|]. exists es. split; [lia|done].
Qed.

Lemma grown_trans n k s1 s2 s3 : grown n s1 s2 -> grown k s2 s3 -> grown (n + k) s1 s3.
Proof.
  intros (O1 & C1 & es1 & Z1 & V1) (O2 & C2 & es2 & Z2 & V2). split_and!; [done|lia|].
  exists (es1 ++ es2). rewrite appends_app, <- V1. split; [zlen_lia|done].
Qed.

Lemma grown_next n s s' : grown n s s' -> al_next (log_of s') <= al_next (log_of s) + n.
Proof.
  intros (_ & _ & es & Hz & ->). rewrite al_appends_next. lia.
Qed.

Lemma grows_weaken n k {A} (m : SM A) : n <= k -> grows n m -> grows k m.
Proof. intros Hn H s O B. eapply grown_weaken; [done|]. apply H; [done|lia]. Qed.

Lemma grows_bind_sum n k {A B} (m : SM A) (f : A -> SM B) :
  0 <= k -> grows n m -> (forall a, grows k (f a)) -> grows (n + k) (bind m f).
Proof.
  intros Hk Hm Hf s O Bd. specialize (Hm s O ltac:(lia)). unfold run_state, bind in *.
  destruct (m s) as [[a|e] s']; cbn [snd] in *; [|by eapply grown_weaken; [|exact Hm]; lia].
  eapply grown_trans; [exact Hm|]. apply Hf; [apply Hm|]. apply grown_next in Hm. lia.
Qed.

(** The rest may append what the whole may, or nothing. *)
Lemma grows_bind n {A B} (m : SM A) (f : A -> SM B) :
  0 <= n -> grows 0 m -> (forall a, grows n (f a)) -> grows n (bind m f).
Proof. intros. by apply (grows_bind_sum 0 n). Qed.

Lemma grows_then n {A B} (m : SM A) (f : A -> SM B) :
  grows n m -> (forall a, grows 0 (f a)) -> grows n (bind m f).
Proof. intros. replace n with (n + 0) by lia. by apply grows_bind_sum. Qed.

Lemma grows_ret {A} (a : A) : grows 0 (ret a).
Proof. intros s O _. by apply grown_same. Qed.

Lemma grows_throw {A} e : grows 0 (@throw server A e).
Proof. intros s O _. by apply grown_same. Qed.

Lemma grows_lift {A} (r : res A) : grows 0 (lift r).
Proof. intros s O _. by apply grown_same. Qed.

Lemma grows_self : grows 0 self.
Proof. intros s O _. by apply grown_same. Qed.

Lemma grows_gets {A} (f : server -> A) : grows 0 (gets f).
Proof. intros s O _. by apply grown_same. Qed.

Lemma grows_when c (m : SM unit) : grows 0 m -> grows 0 (when c m).
Proof. intros H. destruct c; [done|apply grows_ret]. Qed.

(** A change of fields other than the log, and not of the commit index. *)
Lemma grows_modify f :
  (forall s, log_store_ (f s) = log_store_ s /\ quick_commit_index_ s <= quick_commit_index_ (f s)) ->
  grows 0 (modify f).
Proof.
  intros H s O _. destruct (H s) as (E & C). unfold run_state. cbn. split_and!; [by rewrite E|done|].
  exists []. split; [done|]. unfold log_of. by rewrite E.
Qed.

Lemma grows_with_log {A} (m : M L A) :
  (forall l, ls_ok l -> exists r l', m l = (r, l') /\ ls_ok l' /\ ls_view l' = ls_view l) ->
  grows 0 (with_log m).
Proof.
  intros H s O _. destruct (H _ O) as (r & l' & E & O' & V). unfold run_state, with_log. rewrite E.
  split_and!; [done|done|]. by exists [].
Qed.

Lemma grows_entry_at i : grows 0 (with_log (entry_at i)).
Proof. apply grows_with_log. intros l O. destruct (ls_entry_keeps i l O) as (r & E). by exists r, l. Qed.

Lemma grows_term_at i : grows 0 (with_log (term_at i)).
Proof. apply grows_with_log. intros l O. destruct (ls_term_keeps i l O) as (r & E). by exists r, l. Qed.

Lemma grows_entries i j h : grows 0 (with_log (log_entries_ext i j h)).
Proof. apply grows_with_log. intros l O. destruct (ls_entries_keep i j h l O) as (r & E). by exists r, l. Qed.

Lemma grows_flush : grows 0 (with_log flush).
Proof.
  apply grows_with_log. intros l O. destruct (ls_flush l O) as (b & l' & E & O' & V). by exists (Ok b), l'.
Qed.

Lemma grows_append e : storable e -> grows 1 (with_log (append e)).
Proof.
  intros He s O B. destruct (ls_append e _ O He B) as (l' & E & O' & V).
  unfold run_state, with_log. rewrite E. split_and!; [done|done|].
  exists [e]. split; [done|exact V].
Qed.

Lemma grows_for_all ids f : (forall i, grows 0 (f i)) -> grows 0 (for_all ids f).
Proof.
  intros H. induction ids as [|i ids IH]; cbn; [apply grows_ret|]. by apply grows_bind.
Qed.

Lemma grows_for_peers f : (forall i, grows 0 (f i)) -> grows 0 (for_peers f).
Proof. intros H. apply grows_bind; [done|apply grows_self|]. intros. by apply grows_for_all. Qed.

Lemma grows_peer_at pid : grows 0 (peer_at pid).
Proof. intros s O _. unfold run_state, peer_at. destruct (_ !! _); by apply grown_same. Qed.

Lemma grows_callback t p : grows 0 (callback t p).
Proof.
  unfold callback. apply grows_bind; [done|apply grows_gets|]. intros h.
  apply grows_bind; [done|by apply grows_modify|]. intros. apply grows_ret.
Qed.

Lemma grows_on_peer pid f : grows 0 (on_peer pid f).
Proof.
  apply grows_modify. intros s. destruct (_ !! _) as [p|]; [|done]. by destruct (f p).
Qed.

Lemma grows_ask_peer {A} pid (d : A) f : grows 0 (ask_peer pid d f).
Proof.
  intros s O _. unfold run_state, ask_peer. destruct (_ !! _) as [p|]; [|by apply grown_same].
  destruct (f p) as [a p']. split_and!; [done|done|]. by exists [].
Qed.

Lemma grows_peer_send pid req h st : grows 0 (peer_send pid req h st).
Proof.
  intros s O _. unfold run_state, peer_send. destruct (_ !! _) as [p|]; [|by apply grown_same].
  destruct (send_req _ _ _ _) as [[p' out]|]; [|by apply grown_same]. split_and!; [done|done|]. by exists [].
Qed.

End Grows.

#[export] Hint Resolve grows_ret grows_throw grows_lift grows_self grows_gets grows_entry_at grows_term_at
  grows_entries grows_flush grows_peer_at grows_callback grows_on_peer grows_ask_peer grows_peer_send : grows.

(** One rule for the head of a computation that appends nothing. *)
Ltac grow_step :=
  lazymatch goal with
  | |- forall _, _ => intros ?
  | |- grows _ (let x := _ in _) => cbn zeta
  | |- grows 0 (bind _ _) => apply grows_bind; [done| |]
  | |- grows 0 (when _ _) => apply grows_when
  | |- grows 0 (emit _) => by apply grows_modify
  | |- grows 0 (system_exit _) => by apply grows_modify
  | |- grows 0 (upd_state _) => by apply grows_modify
  | |- grows 0 (upd_peer _ _) => by apply grows_modify
  | |- grows 0 save_state => unfold save_state
  | |- grows 0 (modify _) => apply grows_modify; intros ?; split_ifs; by split
  | |- grows 0 (for_peers _) => apply grows_for_peers
  | |- grows 0 (for_all _ _) => apply grows_for_all
  | |- grows _ (if ?b then _ else _) => destruct b eqn:?
  | |- grows _ (match ?x with _ => _ end) => destruct x eqn:?
  end.

Ltac grow := repeat first [solve [eauto 2 with grows nocore] | grow_step].

Section GrowsOps.
Context {L : Type} `{LS : LogStore L} `{SP : !LogStoreSpec L} `{EV : Env} `{U : Uninit}.

#[local] Abbreviation server := (raft_server L).
#[local] Abbreviation SM := (M (raft_server L)).
#[local] Abbreviation still := (grows (L := L) 0).

Lemma still_term_for_log i : still (term_for_log i).
Proof. unfold term_for_log. grow. Qed.

Lemma still_schedule t ms : still (schedule_task t ms).
Proof. unfold schedule_task. grow. Qed.

Lemma still_cancel t : still (cancel_task t).
Proof. unfold cancel_task. grow. Qed.

#[local] Hint Resolve still_term_for_log still_schedule still_cancel : grows.

Lemma still_restart_timer : still restart_election_timer.
Proof. unfold restart_election_timer, draw_timeout. grow. Qed.

Lemma still_stop_timer : still stop_election_timer.
Proof. unfold stop_election_timer. grow. Qed.

Lemma still_precommit i : still (try_update_precommit_index i).
Proof. unfold try_update_precommit_index. grow. Qed.

Lemma still_clear_snp pid : still (clear_snapshot_sync_ctx pid).
Proof. unfold clear_snapshot_sync_ctx. grow. Qed.

#[local] Hint Resolve still_restart_timer still_stop_timer still_precommit still_clear_snp : grows.

(** A configuration entry is appended, and made durable. *)
Lemma grows_store e : storable e -> grows (L := L) 1 (store_log_entry e 0).
Proof.
  intros He. unfold store_log_entry. cbn [Z.eqb].
  apply grows_then; [by apply grows_append|]. grow.
Qed.

Lemma still_check_snp pid : still (check_snapshot_timeout pid).
Proof. unfold check_snapshot_timeout. grow. Qed.

Lemma still_enable_hb_for pid : still (enable_hb_for_peer pid).
Proof. unfold enable_hb_for_peer. grow. Qed.

Lemma still_cancel_all l : still (cancel_all_async l).
Proof. induction l as [|e l IH]; cbn; [|unfold cancel_async]; grow. Qed.

#[local] Hint Resolve still_cancel_all : grows.

Lemma still_drop_pending : still drop_all_pending_commit_elems.
Proof. unfold drop_all_pending_commit_elems. grow. Qed.

#[local] Hint Resolve still_check_snp still_enable_hb_for still_drop_pending : grows.

Lemma still_become_follower : still become_follower.
Proof. unfold become_follower. grow. Qed.

Lemma still_previous_ctx pid : still (previous_sync_ctx pid).
Proof. unfold previous_sync_ctx. grow. Qed.

Lemma still_fatal {A} c : still (@fatal L A c).
Proof. unfold fatal. grow. Qed.

#[local] Hint Resolve still_become_follower still_previous_ctx still_fatal : grows.

Lemma still_snapshot_to_sync pid i c : still (snapshot_to_sync pid i c).
Proof. unfold snapshot_to_sync. grow. Qed.

Lemma still_read_snapshot pid snp : still (read_snapshot_object pid snp).
Proof. unfold read_snapshot_object. grow. Qed.

#[local] Hint Resolve still_snapshot_to_sync still_read_snapshot : grows.

Lemma still_sync_snapshot pid i t c : still (create_sync_snapshot_req pid i t c).
Proof. unfold create_sync_snapshot_req. grow. Qed.

Lemma still_end_of_batch pid i n : still (end_of_batch pid i n).
Proof. unfold end_of_batch. grow. Qed.

Lemma still_out_of_range pid t i c st : still (out_of_log_range_req pid t i c st).
Proof. unfold out_of_log_range_req. grow. Qed.

#[local] Hint Resolve still_sync_snapshot still_end_of_batch still_out_of_range : grows.

Lemma still_append_req pid i : still (create_append_entries_req pid i).
Proof. unfold create_append_entries_req. grow. Qed.

Lemma still_reconnect pid : still (reconnect_client pid).
Proof. unfold reconnect_client. grow. Qed.

Lemma still_send_request pid msg h st : still (send_request pid msg h st).
Proof. unfold send_request. grow. Qed.

#[local] Hint Resolve still_append_req still_reconnect still_send_request : grows.

Lemma still_reconnect_if_needed pid : still (reconnect_if_needed pid).
Proof. unfold reconnect_if_needed. grow. Qed.

Lemma still_skip_busy pid : still (skip_busy_peer pid).
Proof. unfold skip_busy_peer. grow. Qed.

#[local] Hint Resolve still_reconnect_if_needed still_skip_busy : grows.

Lemma still_send_entries pid : still (send_entries pid).
Proof. unfold send_entries. grow. Qed.

#[local] Hint Resolve still_send_entries : grows.

(** A conditional change that depends on the present state. *)
Lemma grows_self_when (c : server -> bool) f (m : server -> SM unit) :
  (forall s, c s = true -> log_store_ (f s) = log_store_ s /\
                           quick_commit_index_ s <= quick_commit_index_ (f s)) ->
  (forall s, still (m s)) ->
  forall k : SM unit, still k -> still (s <- self ;; when (c s) (modify f ;; m s) ;; k).
Proof.
  intros Hf Hm k Hk s O Bd. unfold run_state, bind, self, when, modify, ret.
  destruct (c s) eqn:E; [|by apply Hk]. destruct (Hf s E) as (El & Ec).
  assert (grown 0 s (f s)) as G1.
  { split_and!; [by rewrite El|done|]. exists []. split; [done|]. unfold log_of. by rewrite El. }
  pose proof (grown_next _ _ _ G1) as N1. pose proof (Hm s (f s) ltac:(apply G1) ltac:(lia)) as G2.
  unfold run_state in G2. destruct (m s (f s)) as [[[]|e] s']; cbn [snd] in *.
  - pose proof (grown_next _ _ _ G2) as N2.
    pose proof (Hk s' ltac:(apply G2) ltac:(lia)) as G3. unfold run_state in G3.
    exact (grown_trans 0 0 _ _ _ (grown_trans 0 0 _ _ _ G1 G2) G3).
  - exact (grown_trans 0 0 _ _ _ G1 G2).
Qed.

(** The commit index is set only to a larger one. *)
Lemma still_commit_with request i :
  (forall pid, still (request pid)) -> still (commit_with request i).
Proof.
  intros H. unfold commit_with. apply grows_self_when.
  - intros s E%Z.ltb_lt. split; [done|]. cbn. lia.
  - grow.
  - grow.
Qed.

Lemma still_adjust_quorum request pid :
  (forall i, still (request i)) -> still (adjust_quorum request pid).
Proof. intros H. unfold adjust_quorum. grow. Qed.

Lemma still_request_to fuel pid : still (request_append_entries_to fuel pid).
Proof.
  revert pid. induction fuel as [|fuel IH]; intros pid; cbn [request_append_entries_to]; [grow|].
  pose proof (fun i => still_commit_with _ i IH) as Hc.
  pose proof (still_adjust_quorum _ pid Hc). grow.
Qed.

Lemma still_request_peer pid : still (request_append_entries_peer pid).
Proof. apply still_request_to. Qed.

#[local] Hint Resolve still_request_peer : grows.

Lemma still_commit i : still (commit i).
Proof. apply still_commit_with. grow. Qed.

#[local] Hint Resolve still_commit : grows.

Lemma still_request_append : still request_append_entries.
Proof. unfold request_append_entries. grow. Qed.

#[local] Hint Resolve still_request_append : grows.

Lemma still_yield b i : still (yield_leadership b i).
Proof. unfold yield_leadership. grow. Qed.

Lemma still_remove_peer pid : still (remove_peer_from_peers pid).
Proof. unfold remove_peer_from_peers. grow. Qed.

Lemma still_reset_leave : still reset_srv_to_leave.
Proof. unfold reset_srv_to_leave. grow. Qed.

#[local] Hint Resolve still_yield still_remove_peer still_reset_leave : grows.

Lemma still_leave_timeout : still check_srv_to_leave_timeout.
Proof. unfold check_srv_to_leave_timeout. grow. Qed.

Lemma still_transfer : still check_leadership_transfer.
Proof. unfold check_leadership_transfer. grow. Qed.

Lemma still_validity : still check_leadership_validity.
Proof. unfold check_leadership_validity, lose_peer. grow. Qed.

Lemma still_expected : still get_expected_committed_log_idx.
Proof. unfold get_expected_committed_log_idx. grow. Qed.

Lemma still_for_all_requests : still request_append_entries_for_all.
Proof. unfold request_append_entries_for_all. grow. Qed.

#[local] Hint Resolve still_leave_timeout still_transfer still_expected still_for_all_requests : grows.

Lemma still_record_match pid resp : still (record_match pid resp).
Proof.
  unfold record_match, record_sm_commit, find_sm_commit_idx_to_notify,
    update_sm_commit_notifier_target_idx. grow.
Qed.

#[local] Hint Resolve still_record_match : grows.

Lemma still_append_accepted pid resp : still (append_accepted pid resp).
Proof. unfold append_accepted, start_stream, needs_catchup. grow. Qed.

Lemma still_append_declined pid resp : still (append_declined pid resp).
Proof. unfold append_declined, rewind. grow. Qed.

#[local] Hint Resolve still_append_accepted still_append_declined : grows.

(** A configuration entry that is appended is a block. *)
Lemma config_storable c b t ts : cluster_config_serialize c = Ok b ->
  storable (log_entry_new t (Some b) conf ts false 0 true).
Proof. intros (l & p & Hb & ->)%cluster_config_wf. by exists l, p. Qed.

Lemma grows_lift_bind {A B} n (r : res A) (k : A -> SM B) :
  0 <= n -> (forall a, r = Ok a -> grows (L := L) n (k a)) -> grows n (bind (lift r) k).
Proof.
  intros Hn H s O Bd. unfold run_state, bind, lift. destruct r as [a|e]; cbn [snd].
  - by apply (H a).
  - eapply grown_weaken; [exact Hn|]. by apply grown_same.
Qed.

Lemma grows_end_of_joining pid : grows (L := L) 1 (end_of_joining pid).
Proof.
  unfold end_of_joining. do 2 (apply grows_bind; [done|grow|intros ?]). cbv zeta.
  destruct (_ && _); [|by eapply (grows_weaken 0); [|grow]].
  do 2 (apply grows_bind; [done|grow|intros ?]). apply grows_lift_bind; [done|]. intros b E.
  apply grows_then; [by apply grows_store, (config_storable _ _ _ _ E)|]. grow.
Qed.

Lemma still_hand_over pid : still (hand_over pid).
Proof. unfold hand_over, log_end_req. grow. Qed.

Lemma grows_handle_append_resp resp : grows (L := L) 1 (handle_append_entries_resp resp).
Proof.
  unfold handle_append_entries_resp. cbv zeta. apply grows_bind; [done|grow|intros s].
  destruct (is_none _); [by eapply (grows_weaken 0); [|grow]|].
  apply grows_bind; [done|grow|intros ?]. apply grows_bind; [done|grow|intros s'].
  destruct (leaver_done resp s'); [by eapply (grows_weaken 0); [|grow]|].
  destruct (is_none _); [by eapply (grows_weaken 0); [|grow]|].
  do 2 (apply grows_bind; [done|grow|intros ?]).
  apply grows_then; [apply grows_end_of_joining|]. intros joined.
  pose proof (still_hand_over (rs_src resp)). unfold check_overall_status. grow.
Qed.

Lemma still_notify_completion ok : still (notify_log_append_completion ok).
Proof. unfold notify_log_append_completion. grow. Qed.

Lemma still_last_config n i c : still (last_config_in n i c).
Proof. revert i c. induction n as [|n IH]; intros i c; cbn [last_config_in]; grow. Qed.

Lemma still_update_term t : still (update_term t).
Proof. unfold update_term. grow. Qed.

#[local] Hint Resolve still_last_config still_update_term : grows.

Lemma grows_config_entry {A} c (k : cluster_config * log_entry -> SM A) :
  (forall c' e, storable e -> grows 1 (k (c', e))) -> grows 1 (bind (config_entry c) k).
Proof.
  intros H s O Bd. unfold config_entry. unfold run_state, bind at 1, self, bind, lift, ret.
  destruct (cluster_config_serialize c) as [b|]; cbn [snd]; [|by eapply grown_weaken; [|apply grown_same]].
  destruct (from_buf _ b) as [c'|]; cbn [snd]; [|by eapply grown_weaken; [|apply grown_same]].
  destruct (cluster_config_serialize (set_log_idx _ c')) as [b'|] eqn:E; cbn [snd];
    [|by eapply grown_weaken; [|apply grown_same]].
  apply H; [by eapply config_storable|done|done].
Qed.

Lemma grows_become_leader : grows (L := L) 1 become_leader.
Proof.
  unfold become_leader, prepare_peer.
  do 4 (apply grows_bind; [done|grow|intros ?]). cbv zeta. apply grows_bind; [done|grow|intros c].
  apply grows_config_entry. intros c' e He. cbn [snd].
  apply grows_then; [by apply grows_store|]. grow.
Qed.

(** What a leader does that is not about client requests or members: it takes
    office, gets responses, learns that a log write is done, sends entries and
    checks whether it may stay. *)
Inductive leader_op :=
| Take_office
| Append_response (resp : resp_msg)
| Write_done (ok : bool)
| Send_entries
| Check_validity.

Definition lead (o : leader_op) : SM unit :=
  match o with
  | Take_office => become_leader
  | Append_response resp => peer_append_resp resp
  | Write_done ok => notify_log_append_completion ok
  | Send_entries => append_entries_in_bg_exec
  | Check_validity => check_leadership_validity ;; ret tt
  end.

Lemma grows_lead o : grows (L := L) 1 (lead o).
Proof.
  pose proof still_validity. destruct o as [|resp|ok| |]; cbn [lead].
  - apply grows_become_leader.
  - unfold peer_append_resp, observe_resp. apply grows_bind; [done|grow|intros u].
    destruct u; [by eapply (grows_weaken 0); [|grow]|].
    apply grows_bind; [done|grow|intros ?]. apply grows_handle_append_resp.
  - eapply (grows_weaken 0); [done|]. apply still_notify_completion.
  - eapply (grows_weaken 0); [done|]. apply still_request_append.
  - eapply (grows_weaken 0); [done|]. grow.
Qed.


End GrowsOps.

(** * An example *)

Section SampleLeader.

#[local] Existing Instance zeroed.
#[local] Existing Instance sample_env.

(** A leader with three entries that gets a response from a follower. *)
Definition sample_leader_log : raft_server inmem_log_store :=
  (sample_leader) <| log_store_ := store_of [1; 1; 2] |> <| precommit_index_ := 3 |>.

Definition sample_append_resp : resp_msg :=
  accept 4 (resp_msg_new 0 append_entries_response 2 1 0 false).


End SampleLeader.
