(* ===== verification/Frame.v ===== *)
(** What the operations of a server leave alone.  [keeps R Q m]: running [m],
    with an exception or not, takes every state to one related by [R], and a
    value it returns satisfies [Q].  [frame] is the relation of everything that
    neither votes nor asks for votes nor makes the server a leader; it is
    derived for the operations by one rule per construct. *)
From S2P Require Import Prelude Buffer Serializer Codec Messages Peer LogStore Server.
From S2P Require Import Replication Election Follower Leader.

Create HintDb frame.

Section Keeps.
Context {S : Type} (R : relation S) `{!PreOrder R}.

Definition keeps {A} (Q : A -> Prop) (m : M S A) : Prop :=
  forall s, R s (run_state m s) /\ match run_val m s with Ok a => Q a | Throw _ => True end.

Lemma keeps_ret {A} (Q : A -> Prop) a : Q a -> keeps Q (ret a).
Proof. intros H s. by split. Qed.

Lemma keeps_throw {A} (Q : A -> Prop) e : keeps Q (throw e).
Proof. intros s. by split. Qed.

Lemma keeps_lift {A} (Q : A -> Prop) (r : res A) :
  (forall a, r = Ok a -> Q a) -> keeps Q (lift r).
Proof. intros H s. split; [done|]. unfold run_val, lift. cbn. destruct r; auto. Qed.

Lemma keeps_bind {A B} (P : A -> Prop) (Q : B -> Prop) m k :
  keeps P m -> (forall a, P a -> keeps Q (k a)) -> keeps Q (bind m k).
Proof.
  intros Hm Hk s. specialize (Hm s). unfold run_state, run_val, bind in *.
  destruct (m s) as [[a|e] s']; cbn in *; [|by destruct Hm].
  destruct Hm as [Hr Ha]. destruct (Hk a Ha s') as [Hr' Hq]. split; [by etrans|].
  exact Hq.
Qed.

Lemma keeps_weaken {A} (P Q : A -> Prop) m :
  keeps P m -> (forall a, P a -> Q a) -> keeps Q m.
Proof. intros H Hw s. destruct (H s). split; [done|]. destruct (run_val m s); auto. Qed.

Lemma keeps_modify f : (forall s, R s (f s)) -> keeps (fun _ => True) (modify f).
Proof. intros H s. by split. Qed.

End Keeps.

Arguments keeps {S} R {A} Q m.

Section Frame.
Context {L : Type} `{LS : LogStore L} `{EV : Env} `{U : Uninit}.

#[local] Abbreviation server := (raft_server L).
#[local] Abbreviation SM := (M (raft_server L)).

Definition vote_of (st : srv_state) : Z * Z := (term_ st, voted_for_ st).

(** No vote request, and no other vote saved than [v]. *)
Definition quiet (v : Z * Z) (e : event) : Prop :=
  match e with
  | Ev_save_state st => vote_of st = v
  | Ev_peer _ (Rpc_send _ req _ _ _) => rq_type req <> request_vote_request
  | _ => True
  end.

(** The message reserved for a peer is not a vote request. *)
Definition rsv_ok (p : peer) : Prop :=
  match rsv_msg_ p with Some m => rq_type m <> request_vote_request | None => True end.

(** Membership and quorum sizes are not being changed. *)
Definition steady (s : server) : Prop :=
  auto_adjust_quorum_for_small_cluster_ (params_ s) = false /\ srv_to_leave_ s = None /\
  map_Forall (fun _ p => rsv_ok p) (peers_ s).

(** The votes counted so far elect the server. *)
Definition won (s : server) : Prop := get_quorum_for_election s < votes_granted_ s.

(** The voting members among the configurations of the peers. *)
Definition num_voters (m : gmap Z srv_config) : Z :=
  zlen (filter (fun c => negb (sc_learner c) && negb (sc_new_joiner c)) (map snd (map_to_list m))).

Lemma steady_voting s :
  steady s ->
  get_num_voting_members s = num_voters (config_ <$> peers_ s) + (if im_learner_ s then 0 else 1).
Proof.
  intros (_ & Hl & _). unfold get_num_voting_members, num_voters, peer_list. f_equal.
  rewrite map_to_list_fmap, map_map. generalize (map_to_list (peers_ s)). intros l.
  induction l as [|[i p] l IH]; [done|]. cbn [map snd prod_map fst].
  rewrite !filter_cons. unfold is_regular_member, is_learner, is_new_joiner in *. rewrite Hl in *.
  rewrite (bool_decide_eq_false_2 (None = Some _)) by done. cbn [negb andb].
  cbn [prod_map snd] in *.
  repeat case_decide; try done; rewrite ?zlen_cons, ?IH; done.
Qed.

Record framed (s s' : server) : Prop := {
  fr_role : role_ s' = leader -> role_ s = leader \/ won s;
  fr_steady : steady s';
  fr_id : id_ s' = id_ s;
  fr_vote : vote_of (state_ s') = vote_of (state_ s);
  fr_inc : inc_term_cb_ (state_ s') = inc_term_cb_ (state_ s);
  fr_granted : votes_granted_ s' = votes_granted_ s;
  fr_learner : im_learner_ s' = im_learner_ s;
  fr_params : params_ s' = params_ s;
  fr_peers : config_ <$> peers_ s' = config_ <$> peers_ s;
  fr_trace : exists evs, trace_ s' = evs ++ trace_ s /\ Forall (quiet (vote_of (state_ s))) evs
}.

Definition frame (s s' : server) : Prop := steady s -> framed s s'.

Lemma framed_won s s' : steady s -> framed s s' -> won s' <-> won s.
Proof.
  intros Hs []. unfold won, get_quorum_for_election.
  rewrite !steady_voting by done. by rewrite fr_granted0, fr_learner0, fr_params0, fr_peers0.
Qed.

#[export] Instance frame_preorder : PreOrder frame.
Proof.
  split.
  - intros s Hs. split; try done; [by left|]. by exists [].
  - intros s1 s2 s3 H12 H23 Hs. pose proof (framed_won s1 s2 Hs (H12 Hs)) as Hw.
    destruct (H12 Hs). destruct (H23 fr_steady0).
    split; try congruence.
    { intros Hr. destruct (fr_role1 Hr) as [?|W]; [auto|]. right. by apply Hw. }
    destruct fr_trace0 as (e1 & E1 & F1), fr_trace1 as (e2 & E2 & F2).
    exists (e2 ++ e1). rewrite E2, E1, app_assoc. split; [done|].
    apply Forall_app. split; [|done]. by rewrite <- fr_vote0.
Qed.

(** A change of the fields [framed] does not look at. *)
Lemma frame_fields (s s' : server) :
  (role_ s' = leader -> role_ s = leader) ->
  id_ s' = id_ s -> vote_of (state_ s') = vote_of (state_ s) ->
  inc_term_cb_ (state_ s') = inc_term_cb_ (state_ s) ->
  votes_granted_ s' = votes_granted_ s -> im_learner_ s' = im_learner_ s ->
  params_ s' = params_ s -> srv_to_leave_ s' = srv_to_leave_ s -> peers_ s' = peers_ s ->
  trace_ s' = trace_ s -> frame s s'.
Proof.
  intros ? ? ? ? ? ? Hp Hl Hps ? (A & B & C).
  split; [by auto|unfold steady; by rewrite Hp, Hl, Hps|done|done|done|done|done|done|
    by rewrite Hps|by exists []].
Qed.

Definition quietly {A} : (A -> Prop) -> SM A -> Prop := keeps frame.

Lemma quietly_ret {A} (Q : A -> Prop) a : Q a -> quietly Q (ret a).
Proof. exact (keeps_ret frame Q a). Qed.

Lemma quietly_throw {A} (Q : A -> Prop) e : quietly Q (throw e).
Proof. exact (keeps_throw frame Q e). Qed.

Lemma quietly_lift {A} (Q : A -> Prop) (r : res A) :
  (forall a, r = Ok a -> Q a) -> quietly Q (lift r).
Proof. exact (keeps_lift frame Q r). Qed.

Lemma quietly_bind {A B} (P : A -> Prop) (Q : B -> Prop) (m : SM A) k :
  quietly P m -> (forall a, P a -> quietly Q (k a)) -> quietly Q (bind m k).
Proof. exact (keeps_bind frame P Q m k). Qed.

Lemma quietly_weaken {A} (P Q : A -> Prop) (m : SM A) :
  quietly P m -> (forall a, P a -> Q a) -> quietly Q m.
Proof. exact (keeps_weaken frame P Q m). Qed.

Lemma quietly_self : quietly (fun _ => True) self.
Proof. intros s. by split. Qed.

Lemma quietly_gets {A} (f : server -> A) : quietly (fun _ => True) (gets f).
Proof. intros s. by split. Qed.

Lemma quietly_when c (m : SM unit) :
  quietly (fun _ => True) m -> quietly (fun _ => True) (when c m).
Proof. intros H. destruct c; [done|]. by apply quietly_ret. Qed.

Lemma quietly_emit e : (forall v, quiet v e) -> quietly (fun _ => True) (emit e).
Proof.
  intros H s. split; [|done]. intros Hs. split; try done; [by left|]. exists [e]. by repeat constructor.
Qed.

Lemma quietly_save : quietly (fun _ => True) save_state.
Proof.
  intros s. split; [|done]. intros Hs. split; try done; [by left|].
  exists [Ev_save_state (state_ s)]. by repeat constructor.
Qed.

Lemma quietly_modify f :
  (forall s, frame s (f s)) -> quietly (fun _ => True) (modify f).
Proof. exact (keeps_modify frame f). Qed.

Lemma quietly_with_log {A} (m : M L A) : quietly (fun _ => True) (with_log m).
Proof.
  intros s. unfold run_state, run_val, with_log. destruct (m (log_store_ s)) as [r l]. cbn.
  split; [|by destruct r]. by apply frame_fields.
Qed.

Lemma quietly_callback t peer : quietly (fun _ => True) (callback t peer).
Proof.
  eapply quietly_bind; [apply quietly_gets|]. intros h _.
  eapply quietly_bind; [by apply quietly_emit|]. intros. by apply quietly_ret.
Qed.

(** Operations on a peer that keep its configuration. *)
Definition peer_quiet (f : peer -> peer) : Prop :=
  forall p, config_ (f p) = config_ p /\ (rsv_ok p -> rsv_ok (f p)).

Lemma frame_peers (s : server) (m : gmap Z peer) evs :
  config_ <$> m = config_ <$> peers_ s ->
  (map_Forall (fun _ p => rsv_ok p) (peers_ s) -> map_Forall (fun _ p => rsv_ok p) m) ->
  Forall (quiet (vote_of (state_ s))) evs ->
  frame s (s <| peers_ := m |> <| trace_ ::= app evs |>).
Proof.
  intros Hm Hr He (A & B & C). split; try done.
  - by left.
  - split; [done|split; [done|]]. by apply Hr.
  - by exists evs.
Qed.

Lemma insert_config (m : gmap Z peer) i p p' :
  m !! i = Some p -> config_ p' = config_ p -> config_ <$> <[ i := p' ]> m = config_ <$> m.
Proof.
  intros Hi E. rewrite fmap_insert, E. apply insert_id. by rewrite lookup_fmap, Hi.
Qed.

Lemma insert_rsv (m : gmap Z peer) i p p' :
  m !! i = Some p -> (rsv_ok p -> rsv_ok p') ->
  map_Forall (fun _ p => rsv_ok p) m -> map_Forall (fun _ p => rsv_ok p) (<[ i := p' ]> m).
Proof. intros Hi E F. apply map_Forall_insert_2; [|done]. apply E. by apply (F i). Qed.

Lemma quietly_upd_peer pid f : peer_quiet f -> quietly (fun _ => True) (upd_peer pid f).
Proof.
  intros Hf. apply quietly_modify. intros s.
  replace (s <| peers_ ::= alter f pid |>)
    with (s <| peers_ := alter f pid (peers_ s) |> <| trace_ ::= app [] |>) by done.
  apply frame_peers; [| |done].
  - apply map_eq. intros j. rewrite !lookup_fmap. destruct (decide (pid = j)) as [<-|E].
    + rewrite lookup_alter_eq. destruct (peers_ s !! pid); [|done]. cbn. by rewrite (proj1 (Hf _)).
    + by rewrite lookup_alter_ne.
  - intros F j p. destruct (decide (pid = j)) as [<-|E].
    + rewrite lookup_alter_eq. intros (q & Hq & ->)%fmap_Some. apply Hf. by apply (F pid).
    + rewrite lookup_alter_ne by done. apply F.
Qed.

Lemma quietly_ask_peer {A} pid (d : A) f (Q : A -> Prop) :
  peer_quiet (fun p => snd (f p)) -> Q d -> (forall p, Q (fst (f p))) ->
  quietly Q (ask_peer pid d f).
Proof.
  intros Hf Hd HQ s. unfold run_state, run_val, ask_peer.
  destruct (peers_ s !! pid) as [p|] eqn:Ep; [|done].
  specialize (Hf p). cbn in Hf. specialize (HQ p). destruct (f p) as [a p']. cbn in *. split; [|done].
  replace (s <| peers_ ::= <[ pid := p' ]> |>)
    with (s <| peers_ := <[ pid := p' ]> (peers_ s) |> <| trace_ ::= app [] |>) by done.
  apply frame_peers; [eapply insert_config; [done|apply Hf]|eapply insert_rsv; [done|apply Hf]|done].
Qed.

Lemma quietly_on_peer pid f :
  peer_quiet (fun p => fst (f p)) ->
  (forall v p, Forall (fun o => quiet v (Ev_peer pid o)) (snd (f p))) ->
  quietly (fun _ => True) (on_peer pid f).
Proof.
  intros Hf Ho. apply quietly_modify. intros s.
  destruct (peers_ s !! pid) as [p|] eqn:Ep; [|done].
  specialize (Hf p). cbn in Hf. specialize (Ho (vote_of (state_ s)) p). destruct (f p) as [p' out]. cbn in *.
  replace (s <| peers_ ::= <[ pid := p' ]> |> <| trace_ ::= app (rev (map (Ev_peer pid) out)) |>)
    with (s <| peers_ := <[ pid := p' ]> (peers_ s) |>
            <| trace_ ::= app (rev (map (Ev_peer pid) out)) |>) by done.
  apply frame_peers; [eapply insert_config; [done|apply Hf]|eapply insert_rsv; [done|apply Hf]|].
  apply Forall_rev, Forall_map. exact Ho.
Qed.

Lemma send_req_quiet req h streaming p p' out :
  send_req req h streaming p = Ok (p', out) ->
  config_ p' = config_ p /\ rsv_msg_ p' = rsv_msg_ p /\
  Forall (fun o => match o with Rpc_send _ r _ _ _ => r = req | _ => True end) out.
Proof.
  unfold send_req. destruct (abandoned_ p); [intros [= <- <-]; by repeat constructor|].
  destruct (rpc_ p); [|intros [= <- <-]; by repeat constructor].
  destruct (if decide _ then _ else _); intros [= <- <-]. by repeat constructor.
Qed.

Lemma quietly_peer_send pid req h streaming :
  rq_type req <> request_vote_request ->
  quietly (fun _ => True) (peer_send pid req h streaming).
Proof.
  intros Hr s. unfold run_state, run_val, peer_send.
  destruct (peers_ s !! pid) as [p|] eqn:Ep; [|done].
  destruct (send_req req h streaming p) as [[p' out]|] eqn:E; [|done]. split; [|done]. cbn.
  apply send_req_quiet in E as (Ec & Er & Eo).
  replace (s <| peers_ ::= <[ pid := p' ]> |> <| trace_ ::= app (rev (map (Ev_peer pid) out)) |>)
    with (s <| peers_ := <[ pid := p' ]> (peers_ s) |>
            <| trace_ ::= app (rev (map (Ev_peer pid) out)) |>) by done.
  apply frame_peers; [by eapply insert_config| |].
  - eapply insert_rsv; [done|]. unfold rsv_ok. by rewrite Er.
  - apply Forall_rev, Forall_map. eapply Forall_impl; [exact Eo|].
    intros [|]; cbn; [done|]. by intros ->.
Qed.

Lemma quietly_for_all ids f :
  (forall i, quietly (fun _ => True) (f i)) -> quietly (fun _ => True) (for_all ids f).
Proof.
  intros H. induction ids as [|i ids IH]; cbn; [by apply quietly_ret|].
  eapply quietly_bind; [apply H|]. done.
Qed.

Lemma quietly_for_peers f :
  (forall i, quietly (fun _ => True) (f i)) -> quietly (fun _ => True) (for_peers f).
Proof.
  intros H. eapply quietly_bind; [apply quietly_self|]. intros. by apply quietly_for_all.
Qed.

Lemma quietly_peer_at pid : quietly (fun _ => True) (peer_at pid).
Proof. intros s. unfold run_state, run_val, peer_at. by destruct (peers_ s !! pid). Qed.

End Frame.

#[export] Hint Resolve quietly_self quietly_gets quietly_save quietly_with_log quietly_callback
  quietly_peer_at quietly_throw : frame.

(** Whether a change of a peer keeps its configuration, by computation. *)
Ltac peer_quiet :=
  let p := fresh "p" in
  intros p; repeat match goal with
  | |- context [if ?b then _ else _] => destruct b
  | |- context [match ?x with _ => _ end] => destruct x
  end; by split.

(** One rule for the head of the computation. *)
Ltac quiet_step :=
  lazymatch goal with
  | |- forall _, _ => intros ?
  | |- quietly _ (let x := _ in _) => cbn zeta
  | |- quietly _ (bind _ _) => eapply quietly_bind
  | |- quietly _ (ret _) => first [apply (quietly_ret (fun _ => True)); exact I | apply quietly_ret]
  | |- quietly _ (lift _) => first [apply (quietly_lift (fun _ => True)); done | apply quietly_lift]
  | |- quietly _ (when _ _) => apply quietly_when
  | |- quietly _ (emit _) => apply quietly_emit; done
  | |- quietly _ (modify _) => apply quietly_modify; intros ?; split_ifs; by apply frame_fields
  | |- quietly _ (upd_state _) => apply quietly_modify; intros ?; by apply frame_fields
  | |- quietly _ (upd_peer _ _) => apply quietly_upd_peer;
      first [solve [eauto 2 with frame nocore] | peer_quiet]
  | |- quietly _ (ask_peer _ _ _) => apply (quietly_ask_peer _ _ _ (fun _ => True));
      [first [solve [eauto 2 with frame nocore] | peer_quiet]|done|done]
  | |- quietly _ (for_peers _) => apply quietly_for_peers
  | |- quietly _ (if ?b then _ else _) => destruct b eqn:?
  | |- quietly _ (match ?x with _ => _ end) => destruct x eqn:?
  end.

Lemma peer_quiet_recreate now f b c : peer_quiet (fun p => snd (recreate_rpc now f b c p)).
Proof.
  intros p. unfold recreate_rpc. destruct (abandoned_ p), f, b; cbn [negb]; try done.
  unfold timeout. destruct (negb _), (timed_out now (reconn_backoff_ p)); by split.
Qed.

Lemma peer_quiet_need now : peer_quiet (fun p => snd (need_to_reconnect now p)).
Proof.
  intros p. unfold need_to_reconnect, timeout. destruct (abandoned_ p); [done|].
  destruct (reconn_scheduled_ p); [|done].
  destruct (negb _); [by split|]. by destruct (timed_out now (reconn_timer_ p)).
Qed.

Lemma peer_quiet_busy : peer_quiet (fun p => snd (make_busy p)).
Proof. intros p. unfold make_busy. by destruct (busy_flag_ p). Qed.

Lemma peer_quiet_streamed a b : peer_quiet (set_last_streamed_log_idx a b).
Proof. intros p. unfold set_last_streamed_log_idx. by destruct (_ =? _). Qed.

#[export] Hint Resolve peer_quiet_streamed peer_quiet_recreate peer_quiet_need peer_quiet_busy : frame.

Ltac quiet := repeat first [solve [eauto 2 with frame nocore] | quiet_step].

Section FrameOps.
Context {L : Type} `{LS : LogStore L} `{EV : Env} `{U : Uninit}.

#[local] Abbreviation server := (raft_server L).
#[local] Abbreviation SM := (M (raft_server L)).

#[local] Abbreviation calm := (quietly (L := L) (fun _ => True)).

Lemma calm_term_for_log i : calm (term_for_log i).
Proof. unfold term_for_log. quiet. Qed.

Lemma calm_schedule t ms : calm (schedule_task t ms).
Proof. unfold schedule_task. quiet. Qed.

Lemma calm_cancel t : calm (cancel_task t).
Proof. unfold cancel_task. quiet. Qed.

#[local] Hint Resolve calm_term_for_log calm_schedule calm_cancel : frame.

Lemma calm_restart_timer : calm restart_election_timer.
Proof. unfold restart_election_timer, draw_timeout. quiet. Qed.

Lemma calm_precommit i : calm (try_update_precommit_index i).
Proof. unfold try_update_precommit_index. quiet. Qed.

Lemma calm_system_exit c : calm (system_exit c).
Proof. unfold system_exit. quiet. Qed.

#[local] Hint Resolve calm_restart_timer calm_precommit calm_system_exit : frame.

Lemma calm_store_log_entry e i : calm (store_log_entry e i).
Proof. unfold store_log_entry. quiet. Qed.

Lemma calm_clear_snp pid : calm (clear_snapshot_sync_ctx pid).
Proof. unfold clear_snapshot_sync_ctx. quiet. Qed.

#[local] Hint Resolve calm_store_log_entry calm_clear_snp : frame.

Lemma calm_check_snp pid : calm (check_snapshot_timeout pid).
Proof. unfold check_snapshot_timeout. quiet. Qed.

Lemma calm_enable_hb pid b : calm (on_peer pid (enable_hb b)).
Proof.
  apply quietly_on_peer.
  - intros p. unfold enable_hb. by destruct (abandoned_ p).
  - intros v p. unfold enable_hb. destruct (abandoned_ p), b; by repeat constructor.
Qed.

#[local] Hint Resolve calm_check_snp calm_enable_hb : frame.

Lemma calm_enable_hb_for pid : calm (enable_hb_for_peer pid).
Proof. unfold enable_hb_for_peer. quiet. Qed.

Lemma calm_cancel_all l : calm (cancel_all_async l).
Proof.
  induction l as [|e l IH]; cbn; [quiet|]. eapply quietly_bind; [|intros; exact IH].
  unfold cancel_async. quiet.
Qed.

#[local] Hint Resolve calm_cancel_all : frame.

Lemma calm_drop_pending : calm drop_all_pending_commit_elems.
Proof.
  unfold drop_all_pending_commit_elems. eapply quietly_bind; [quiet|]. intros s _.
  destruct (bool_decide _); eapply quietly_bind; [apply quietly_for_all; quiet|quiet..].
Qed.

#[local] Hint Resolve calm_enable_hb_for calm_drop_pending : frame.

(** A change of the quorum sizes that a steady server never makes. *)
Lemma calm_self_guard (c : server -> bool) (m : SM unit) (k : SM unit) :
  (forall s, steady s -> c s = false) -> calm k ->
  calm (s <- self ;; when (c s) m ;; k).
Proof.
  intros Hc Hk s. unfold run_state, run_val, bind, self, when.
  destruct (c s) eqn:E; [|exact (Hk s)].
  assert (~ steady s) as N by (intros Hs; rewrite (Hc s Hs) in E; done).
  destruct (m s) as [[]]; [|by split]. destruct (k _) as [[]]; by split.
Qed.

Lemma calm_self_guard_end (c : server -> bool) (m : server -> SM unit) :
  (forall s, steady s -> c s = false) -> calm (s <- self ;; when (c s) (m s)).
Proof.
  intros Hc s. unfold run_state, run_val, bind, self, when. destruct (c s) eqn:E; [|by split].
  split; [|by destruct (m s s) as [[]]]. intros Hs. by rewrite (Hc s Hs) in E.
Qed.

Lemma calm_become_follower : calm become_follower.
Proof.
  unfold become_follower. do 4 (eapply quietly_bind; [quiet|intros ? _]).
  apply calm_self_guard; [|quiet]. intros s (A & _). by rewrite A.
Qed.

#[local] Hint Resolve calm_become_follower : frame.

(** ** Sending *)

Lemma calm_previous_ctx pid : calm (previous_sync_ctx pid).
Proof. unfold previous_sync_ctx. quiet. Qed.

Lemma quietly_fatal {A} (Q : A -> Prop) c : quietly Q (@fatal L A c).
Proof. unfold fatal. quiet. Qed.

#[local] Hint Resolve calm_previous_ctx quietly_fatal : frame.

Lemma calm_snapshot_to_sync pid i c : calm (snapshot_to_sync pid i c).
Proof. unfold snapshot_to_sync. quiet. Qed.

Lemma calm_read_snapshot pid snp : calm (read_snapshot_object pid snp).
Proof. unfold read_snapshot_object. quiet. Qed.

#[local] Hint Resolve calm_snapshot_to_sync calm_read_snapshot : frame.

(** Requests that are not vote requests. *)
Definition not_vote (m : option req_msg) : Prop :=
  match m with Some r => rq_type r <> request_vote_request | None => True end.

Lemma quietly_sync_snapshot pid i t c : quietly (L := L) not_vote (create_sync_snapshot_req pid i t c).
Proof. unfold create_sync_snapshot_req. quiet; done. Qed.

Lemma calm_end_of_batch pid i n : calm (end_of_batch pid i n).
Proof.
  unfold end_of_batch. quiet.
Qed.

Lemma quietly_out_of_range pid t i c st : quietly (L := L) not_vote (out_of_log_range_req pid t i c st).
Proof. unfold out_of_log_range_req. quiet; done. Qed.

#[local] Hint Resolve quietly_sync_snapshot calm_end_of_batch quietly_out_of_range : frame.

Lemma quietly_append_req pid i : quietly (L := L) not_vote (create_append_entries_req pid i).
Proof. unfold create_append_entries_req. quiet; done. Qed.

Lemma calm_reconnect pid : calm (reconnect_client pid).
Proof. unfold reconnect_client. quiet. Qed.

#[local] Hint Resolve calm_reconnect quietly_append_req : frame.

Lemma quietly_send_request pid msg h streaming :
  rq_type msg <> request_vote_request -> calm (send_request pid msg h streaming).
Proof.
  intros H. unfold send_request.
  assert (calm (peer_send pid msg h streaming)) by by apply quietly_peer_send.
  quiet.
Qed.

Lemma calm_reconnect_if_needed pid : calm (reconnect_if_needed pid).
Proof. unfold reconnect_if_needed. quiet. Qed.

Lemma calm_skip_busy pid : calm (skip_busy_peer pid).
Proof. unfold skip_busy_peer. quiet. Qed.

#[local] Hint Resolve calm_reconnect_if_needed calm_skip_busy : frame.

Lemma calm_send_entries pid : calm (send_entries pid).
Proof.
  unfold send_entries. do 4 (eapply quietly_bind; [quiet|intros ? _]).
  destruct (negb _); [quiet|]. eapply quietly_bind; [quiet|]. intros [msg|] Hm; [|quiet].
  pose proof (fun h st => quietly_send_request pid msg h st Hm) as Hs. quiet.
Qed.

#[local] Hint Resolve calm_send_entries : frame.

(** In a steady server no reserved message is a vote request. *)
Lemma calm_peer_at_bind {A} pid (k : peer -> SM A) :
  (forall p, rsv_ok p -> calm (k p)) -> calm (bind (peer_at pid) k).
Proof.
  intros H s. unfold run_state, run_val, bind, peer_at.
  destruct (peers_ s !! pid) as [p|] eqn:E; [|by split].
  assert (rsv_ok p \/ ~ rsv_ok p) as [Hp|Hp].
  { unfold rsv_ok. destruct (rsv_msg_ p) as [m|]; [|by left].
    destruct (decide (rq_type m = request_vote_request)); [right|left]; auto. }
  - exact (H p Hp s).
  - split; [|by destruct (k p s) as [[]]]. intros (_ & _ & F). by destruct Hp; eapply F.
Qed.

Lemma calm_commit_with request i :
  (forall pid, calm (request pid)) -> calm (commit_with request i).
Proof. intros H. unfold commit_with. quiet. Qed.

(** The same for the adjustment of [request_append_entries]. *)
Lemma calm_guarded (c : server -> bool) (m : server -> SM unit) (k : server -> SM bool) :
  (forall s, steady s -> c s = false) -> (forall s, calm (k s)) ->
  calm (s <- self ;; when (c s) (m s) ;; k s).
Proof.
  intros Hc Hk s. unfold run_state, run_val, bind, self, when.
  destruct (c s) eqn:E; [|exact (Hk s s)].
  assert (~ steady s) as N by (intros Hs; rewrite (Hc s Hs) in E; done).
  destruct (m s s) as [[]]; [|by split]. destruct (k s _) as [[]]; by split.
Qed.

Lemma calm_request_to fuel pid : calm (request_append_entries_to fuel pid).
Proof.
  destruct fuel as [|fuel]; cbn [request_append_entries_to];
    (eapply quietly_bind; [quiet|intros ? _]); (destruct (negb _); [quiet|]);
    (eapply quietly_bind; [quiet|intros ? _]); (destruct (bool_decide _); [quiet|]);
    (apply calm_guarded; [by intros s (-> & _)|]); intros s;
    (eapply quietly_bind; [quiet|intros ? _]); (eapply quietly_bind; [quiet|intros ? _]);
    (destruct (_ && _); [quiet|]); apply calm_peer_at_bind; intros p Hp; unfold rsv_ok in Hp;
    (destruct (rsv_msg_ p) as [msg|]; [|quiet]);
    pose proof (fun h st => quietly_send_request pid msg h st Hp) as Hs; quiet.
Qed.

Lemma calm_request_peer pid : calm (request_append_entries_peer pid).
Proof. apply calm_request_to. Qed.

#[local] Hint Resolve calm_request_peer : frame.

Lemma calm_commit i : calm (commit i).
Proof. apply calm_commit_with. quiet. Qed.

#[local] Hint Resolve calm_commit : frame.

Lemma calm_request_append : calm request_append_entries.
Proof. unfold request_append_entries. quiet. Qed.

(** ** Elections *)

Lemma calm_last_config n i c : calm (last_config_in n i c).
Proof. revert i c. induction n as [|n IH]; intros i c; cbn [last_config_in]; quiet. Qed.

Lemma calm_config_entry c : calm (config_entry c).
Proof. unfold config_entry. quiet. Qed.

#[local] Hint Resolve calm_request_append calm_last_config calm_config_entry : frame.

Lemma calm_yield b i : calm (yield_leadership b i).
Proof. unfold yield_leadership. quiet. Qed.

Lemma calm_prepare pid : calm (prepare_peer pid).
Proof. unfold prepare_peer. quiet. Qed.

Lemma calm_stop_timer : calm stop_election_timer.
Proof. unfold stop_election_timer. quiet. Qed.

#[local] Hint Resolve calm_yield calm_prepare calm_stop_timer : frame.

(** Becoming the leader is framed for a server that has won. *)
Lemma become_leader_frame s : won s -> frame s (run_state become_leader s).
Proof.
  intros Hw Hs. pose proof (calm_stop_timer s) as [H1 _]. revert H1.
  unfold run_state, become_leader, bind at 1.
  destruct (stop_election_timer s) as [[[]|e] s1]; cbn [snd]; intros H1; [|by apply H1].
  assert (won s1) as Hw1 by (eapply framed_won; eauto).
  unfold bind at 1, modify at 1. cbn beta iota zeta.
  match goal with |- context [bind _ _ ?x] => set (s2 := x) end.
  assert (frame s1 s2) as H2.
  { intros Hs1. split; try done; [by right|]. by exists []. }
  clearbody s2.
  match goal with |- context [snd (?m s2)] => assert (calm m) as H3 by quiet end.
  destruct (H3 s2) as [H3' _]. unfold run_state in H3'.
  exact (transitivity (transitivity H1 H2) H3' Hs).
Qed.
End FrameOps.

#[export] Hint Resolve calm_term_for_log calm_schedule calm_cancel calm_restart_timer calm_precommit
  calm_system_exit calm_store_log_entry calm_clear_snp calm_check_snp calm_enable_hb
  calm_enable_hb_for calm_drop_pending calm_become_follower calm_reconnect quietly_append_req
  calm_reconnect_if_needed calm_skip_busy calm_send_entries calm_request_peer calm_commit
  calm_request_append calm_last_config calm_config_entry calm_yield calm_prepare
  calm_stop_timer : frame.

(** ** Replication *)

Section FrameReplication.
Context {L : Type} `{LS : LogStore L} `{EV : Env} `{U : Uninit}.

#[local] Abbreviation server := (raft_server L).
#[local] Abbreviation SM := (M (raft_server L)).

#[local] Abbreviation calm := (quietly (L := L) (fun _ => True)).

Lemma calm_payload e : calm (payload e).
Proof. unfold payload. quiet. Qed.

#[local] Hint Resolve calm_payload : frame.

Lemma calm_entry_received i e : calm (entry_received i e).
Proof. unfold entry_received. quiet. Qed.

#[local] Hint Resolve calm_entry_received : frame.

Lemma calm_skip_existing i es : calm (skip_existing i es).
Proof. revert i. induction es as [|e es IH]; intros i; cbn [skip_existing]; quiet. Qed.

Lemma calm_rollback_loop n i : calm (rollback_loop n i).
Proof. revert i. induction n as [|n IH]; intros i; cbn [rollback_loop]; quiet. Qed.

#[local] Hint Resolve calm_skip_existing calm_rollback_loop : frame.

Lemma calm_rollback_from i es : calm (rollback_from i es).
Proof. unfold rollback_from. quiet. Qed.

Lemma calm_overwrite i es : calm (overwrite_loop i es).
Proof. revert i. induction es as [|e es IH]; intros i; cbn [overwrite_loop]; quiet. Qed.

Lemma calm_append_loop es : calm (append_loop es).
Proof. induction es as [|e es IH]; cbn [append_loop]; quiet. Qed.

#[local] Hint Resolve calm_rollback_from calm_overwrite calm_append_loop : frame.

Lemma calm_write_entries req : calm (write_entries req).
Proof. unfold write_entries. quiet. Qed.

Lemma calm_update_target : calm update_target_priority.
Proof. unfold update_target_priority. quiet. Qed.

#[local] Hint Resolve calm_write_entries calm_update_target : frame.

Lemma calm_append_checked req : calm (append_checked req).
Proof. unfold append_checked, deny_append, decline_append, accept_append. quiet. Qed.

#[local] Hint Resolve calm_append_checked : frame.

Lemma calm_append_same_term req : calm (append_same_term req).
Proof. unfold append_same_term. quiet. Qed.

Lemma calm_serving {A} (m : SM A) : calm m -> calm (serving m).
Proof.
  intros H s. unfold run_state, run_val, serving.
  destruct (H (s <| serving_req_ := true |>)) as [F _]. unfold run_state in F.
  destruct (m _) as [r s'] eqn:E. cbn [fst snd] in *. split; [|by destruct r].
  etrans; [|etrans; [exact F|]]; by apply frame_fields.
Qed.

Lemma calm_handle_append_entries req : calm (handle_append_entries req).
Proof.
  unfold handle_append_entries, check_catching_up.
  pose proof (calm_serving _ (calm_append_same_term req)). quiet.
Qed.

Lemma calm_find_sm_commit : calm find_sm_commit_idx_to_notify.
Proof. unfold find_sm_commit_idx_to_notify. quiet. Qed.

Lemma calm_notifier_target i : calm (update_sm_commit_notifier_target_idx i).
Proof. unfold update_sm_commit_notifier_target_idx. quiet. Qed.

Lemma calm_lose_peer pid : calm (lose_peer pid).
Proof. unfold lose_peer. quiet. Qed.

#[local] Hint Resolve calm_find_sm_commit calm_notifier_target calm_lose_peer : frame.

Lemma calm_leadership_validity : calm check_leadership_validity.
Proof.
  unfold check_leadership_validity. eapply quietly_bind; [quiet|intros s _].
  destruct (negb _); [quiet|]. cbv zeta. destruct (_ <? _); [|quiet].
  eapply quietly_bind; [apply quietly_for_all; quiet|quiet].
Qed.

Lemma calm_leadership_transfer : calm check_leadership_transfer.
Proof. unfold check_leadership_transfer. quiet. Qed.

Lemma calm_for_all_requests : calm request_append_entries_for_all.
Proof. unfold request_append_entries_for_all. quiet. Qed.

#[local] Hint Resolve calm_leadership_validity calm_leadership_transfer calm_for_all_requests : frame.

Lemma calm_record_sm_commit pid resp : calm (record_sm_commit pid resp).
Proof. unfold record_sm_commit. quiet. Qed.

#[local] Hint Resolve calm_record_sm_commit : frame.

Lemma calm_record_match pid resp : calm (record_match pid resp).
Proof. unfold record_match. quiet. Qed.

Lemma calm_start_stream pid resp : calm (start_stream pid resp).
Proof. unfold start_stream. quiet. Qed.

Lemma calm_needs_catchup pid resp : calm (needs_catchup pid resp).
Proof.
  unfold needs_catchup. eapply quietly_bind; [quiet|intros p _]. cbv zeta.
  eapply (quietly_bind (fun _ => True)); [|quiet].
  apply (quietly_ask_peer _ _ _ (fun _ => True)); [|done|done].
  intros q. unfold clear_pending_commit. by destruct (pending_commit_flag_ q).
Qed.

Lemma calm_expected_commit : calm get_expected_committed_log_idx.
Proof. unfold get_expected_committed_log_idx. quiet. Qed.

#[local] Hint Resolve calm_record_match calm_start_stream calm_needs_catchup calm_expected_commit : frame.

Lemma calm_append_accepted pid resp : calm (append_accepted pid resp).
Proof. unfold append_accepted. quiet. Qed.

Lemma calm_rewind pid resp : calm (rewind pid resp).
Proof. unfold rewind. quiet. Qed.

Lemma calm_suppress pid : calm (ask_peer pid false need_to_suppress_error).
Proof.
  apply (quietly_ask_peer _ _ _ (fun _ => True)); [|done|done].
  intros q. unfold need_to_suppress_error. by destruct (suppress_following_error_ q).
Qed.

#[local] Hint Resolve calm_append_accepted calm_rewind calm_suppress : frame.

Lemma calm_append_declined pid resp : calm (append_declined pid resp).
Proof. unfold append_declined. quiet. Qed.

Lemma calm_end_of_joining pid : calm (end_of_joining pid).
Proof. unfold end_of_joining. quiet. Qed.

Lemma calm_hand_over pid : calm (hand_over pid).
Proof.
  assert (forall h, quietly (L := L) (fun r => rq_type r = custom_notification_request)
    (log_end_req custom_notification_request h)) as Hr.
  { intros. unfold log_end_req. quiet. done. }
  unfold hand_over. do 2 (eapply quietly_bind; [quiet|intros ? _]). destruct (_ && _); [|quiet].
  eapply quietly_bind; [quiet|intros free _]. destruct free; [|quiet].
  do 3 (eapply quietly_bind; [quiet|intros ? _]).
  eapply quietly_bind; [apply Hr|]. intros r Er. cbv beta in Er.
  eapply quietly_bind; [quiet|intros b _]. eapply quietly_bind; [|quiet].
  apply quietly_peer_send. change (rq_type r <> request_vote_request). by rewrite Er.
Qed.

#[local] Hint Resolve calm_append_declined calm_end_of_joining calm_hand_over : frame.

Lemma calm_leave_timeout : calm check_srv_to_leave_timeout.
Proof.
  intros s. unfold run_state, run_val, check_srv_to_leave_timeout, bind, self.
  split.
  - intros Hs. pose proof Hs as (_ & Hl & _). rewrite Hl. by apply frame_preorder.
  - destruct (_ s) as [[]]; done.
Qed.

(** A test of the state that a steady server fails. *)
Lemma calm_self_if {A} (c : server -> bool) (m : SM A) (k : server -> SM A) :
  (forall s, steady s -> c s = false) -> (forall s, calm (k s)) ->
  calm (s <- self ;; if c s then m else k s).
Proof.
  intros Hc Hk s. unfold run_state, run_val, bind, self.
  destruct (c s) eqn:E; [|exact (Hk s s)].
  split; [|by destruct (m s) as [[]]]. intros Hs. by rewrite (Hc s Hs) in E.
Qed.

Lemma calm_handle_append_resp resp : calm (handle_append_entries_resp resp).
Proof.
  unfold handle_append_entries_resp. cbv zeta. eapply quietly_bind; [quiet|intros s _].
  destruct (is_none _); [quiet|]. eapply quietly_bind; [apply calm_leave_timeout|intros ? _].
  apply calm_self_if.
  { intros s' (_ & Hl & _). unfold leaver_done. rewrite Hl. by rewrite bool_decide_false. }
  intros s'. unfold check_overall_status. quiet.
Qed.

Lemma calm_notify_completion ok : calm (notify_log_append_completion ok).
Proof. unfold notify_log_append_completion. quiet. Qed.

End FrameReplication.
