(* ===== verification/UserCmd.v ===== *)
(** The functions a user of the library calls on a server
    (handle_user_cmd.cc and the last part of raft_server.cc): requests to add and
    to remove servers and to append entries, changes of the configuration that
    the leader makes by itself, questions about the configuration and the peers,
    the marks of a server that is going down, and its shut-down.

    A request of the user becomes a message: the leader processes it, other
    servers refuse it or forward it ([Forward.v]).  A blocked call waits in
    [Blocked] and goes on with [woken]; the result of an asynchronous call comes
    later ([Async.v]), through the element of the log index.  [meanwhile] is what
    happens while [process_req] is without its lock. *)
From S2P Require Import Async Prelude Buffer Serializer Codec Messages Peer LogStore Server.
From S2P Require Import Replication Election Startup Samples Follower Leader Commit Total Append Quorum Applied.
From S2P Require Import Client Snapshot Membership Dispatch LeaderLog Frame.

(** The result object that is returned to the user. *)
Definition user_result := @cmd_result (option buffer) Z.

(** [cs_new<cmd_result>(nullptr)] takes the constructor with a handler, which is null. *)
Definition null_result : user_result := mk_cmd_result None None OK true false None None.

Inductive submission :=
| Returned (r : user_result)
| Blocked (idx : Z) (resp : resp_msg)
| Pending (idx : Z)
| Forward_to (leader_id : Z) (req : req_msg).

Definition no_ext_params : req_ext_params := mk_req_ext_params false 0.

Record peer_info := mk_peer_info { pi_id_ : Z; pi_last_log_idx_ : Z; pi_last_succ_resp_us_ : Z }.

Definition peer_info_new : peer_info := mk_peer_info (-1) 0 0.

Inductive flip_result := Flipped (l : list srv_config) | Already_flipped | Flip_not_found.

(** The first server with the id decides. *)
Fixpoint flip_server (srv_id : Z) (to : bool) (l : list srv_config) : flip_result :=
  match l with
  | [] => Flip_not_found
  | ss :: l' =>
      if negb (sc_id ss =? srv_id) then
        match flip_server srv_id to l' with
        | Flipped l'' => Flipped (ss :: l'')
        | r => r
        end
      else if bool_decide (sc_learner ss = to) then Already_flipped
      else Flipped (set_learner to ss :: l')
  end.

Fixpoint replace_server (c : srv_config) (l : list srv_config) : list srv_config :=
  match l with
  | [] => []
  | e :: l' => if sc_id e =? sc_id c then c :: l' else e :: replace_server c l'
  end.

Section UserCmd.
Context {L : Type} `{LS : LogStore L} `{EV : Env} `{U : Uninit}.

#[local] Abbreviation server := (raft_server L).
#[local] Abbreviation SM := (M (raft_server L)).

(** ** Requests *)

(** The result made of a response. *)
Definition reply_of (resp : resp_msg) : user_result :=
  cmd_result_accepted
    (if rs_accepted resp then option_map (fun b => run_state (set_pos 0) b) (rs_ctx resp) else None)
    (rs_accepted resp) (rs_result_code resp).

Definition send_msg_to_leader (meanwhile : server -> server) (req : req_msg)
    (ext_params : req_ext_params) : SM submission :=
  s <- self ;;
  let leader_id := leader_ s in
  if leader_id =? -1 then ret (Returned (cmd_result_of None NOT_LEADER))
  else if leader_id =? id_ s then
    resp <- process_req meanwhile req ext_params ;;
    match resp with
    | None => ret (Returned (cmd_result_of None BAD_REQUEST))
    | Some (resp, Blocking_cb idx) => ret (Blocked idx resp)
    | Some (resp, Async_cb idx) =>
        ret (if rs_accepted resp then Pending idx else Returned (reply_of resp))
    | Some (resp, No_cb) => ret (Returned (reply_of resp))
    end
  else if negb (auto_forwarding_ (params_ s))
  then ret (Returned (cmd_result_of None NOT_LEADER))
  else ret (Forward_to leader_id req).

(** A blocked call after its wait. *)
Definition woken (elem : commit_ret_elem) (resp : resp_msg) : SM user_result :=
  resp <- handle_cli_req_callback elem resp ;;
  ret (reply_of resp).

Definition user_req (type : msg_type) (l : list log_entry) : req_msg :=
  (req_msg_new 0 type 0 0 0 0 0) <| rq_log_entries := l |>.

Definition user_entry (t : log_val_type) (b : buffer) : log_entry :=
  log_entry_new 0 (Some b) t 0 false 0 true.

Definition add_srv (meanwhile : server -> server) (srv : srv_config) : SM submission :=
  buf <- lift (srv_config_serialize srv) ;;
  send_msg_to_leader meanwhile (user_req add_server_request [user_entry cluster_server buf]) no_ext_params.

Definition remove_srv (meanwhile : server -> server) (srv_id : Z) : SM submission :=
  buf <- lift (build 4 (put_int srv_id ;; set_pos 0)) ;;
  send_msg_to_leader meanwhile (user_req remove_server_request [user_entry cluster_server buf]) no_ext_params.

Definition append_entries_ext (meanwhile : server -> server) (logs : list buffer)
    (ext_params : req_ext_params) : SM submission :=
  match logs with
  | [] => ret (Returned (cmd_result_of None OK))
  | _ =>
      send_msg_to_leader meanwhile
        (user_req client_request (map (fun b => user_entry app_log (run_state (set_pos 0) b)) logs)) ext_params
  end.

Definition append_entries (meanwhile : server -> server) (logs : list buffer) : SM submission :=
  append_entries_ext meanwhile logs no_ext_params.

(** ** Changes of the configuration *)

(** A copy of the configuration with the index of the next entry. *)
Definition clone_config : SM cluster_config :=
  s <- self ;;
  b <- lift (cluster_config_serialize (rs_config_ s)) ;;
  c <- lift (from_buf cluster_config_deserialize b) ;;
  ret (set_log_idx (next_slot (log_store_ s)) c).

Definition flip_learner_flag (srv_id : Z) (to : bool) : SM user_result :=
  s <- self ;;
  if negb (bool_decide (role_ s = leader)) || write_paused_ s
  then ret (cr_set_result_code NOT_LEADER null_result)
  else if config_changing_ s then ret (cr_set_result_code CONFIG_CHANGING null_result)
  else
    new_conf <- clone_config ;;
    match flip_server srv_id to (cc_servers new_conf) with
    | Already_flipped => ret (cr_set_result_code OK null_result)
    | Flip_not_found => ret (cr_set_result_code SERVER_NOT_FOUND null_result)
    | Flipped l =>
        let new_conf := new_conf <| cc_servers := l |> in
        e <- conf_entry new_conf ;;
        store_log_entry e 0 ;;
        modify (fun s => s <| config_changing_ := true |> <| uncommitted_config_ := Some new_conf |>) ;;
        request_append_entries ;;
        ret (cr_set_result_code OK null_result)
    end.

Definition set_user_ctx_cmd (ctx : list Z) : SM unit :=
  c <- clone_config ;;
  e <- conf_entry (set_user_ctx ctx c) ;;
  store_log_entry e 0 ;;
  request_append_entries.

Definition update_srv_config (new_config : srv_config) : SM bool :=
  s <- self ;;
  if negb (is_leader s) then ret false
  else
    cloned_config <- clone_config ;;
    match get_server cloned_config (sc_id new_config) with
    | None => ret false
    | Some prev =>
        if sc_new_joiner prev then ret false
        else if negb (bool_decide (sc_endpoint prev = sc_endpoint new_config)) then ret false
        else
          enc_new_config <- lift (srv_config_serialize new_config) ;;
          c <- lift (from_buf srv_config_deserialize enc_new_config) ;;
          e <- conf_entry (cloned_config <| cc_servers ::= replace_server c |>) ;;
          store_log_entry e 0 ;;
          request_append_entries ;;
          ret true
    end.

(** ** Questions *)

Definition get_user_ctx (s : server) : list Z := cc_user_ctx (rs_config_ s).

Definition get_srv_config (s : server) (srv_id : Z) : option srv_config := get_server (rs_config_ s) srv_id.

Definition get_dc_id (s : server) (srv_id : Z) : Z :=
  match get_srv_config s srv_id with None => -1 | Some c => sc_dc_id c end.

Definition get_aux (s : server) (srv_id : Z) : list Z :=
  match get_srv_config s srv_id with None => [] | Some c => sc_aux c end.

Definition get_srv_config_all (s : server) (configs_out : list srv_config) : list srv_config :=
  configs_out ++ cc_servers (rs_config_ s).

Definition info_of (s : server) (pp : peer) : peer_info :=
  mk_peer_info (p_id pp) (last_accepted_log_idx_ pp) (get_resp_timer_us (now_ s) pp).

Definition get_peer_info (s : server) (srv_id : Z) : peer_info :=
  if negb (is_leader s) then peer_info_new
  else match peers_ s !! srv_id with None => peer_info_new | Some pp => info_of s pp end.

Definition get_peer_info_all (s : server) : list peer_info :=
  if negb (is_leader s) then [] else map (info_of s) (peer_list s).

(** ** Marks *)

Definition set_self_mark_down_cmd (to : bool) : SM bool :=
  s <- self ;;
  if is_leader s then ret (rs_self_mark_down_ s)
  else
    modify (fun s => s <| rs_self_mark_down_ := to |>) ;;
    ret (rs_self_mark_down_ s).

Definition is_part_of_full_consensus (s : server) : bool :=
  let hb := heart_beat_interval_ (params_ s) in
  let limit := full_consensus_follower_limit_ (raft_limits_ s) in
  if rs_self_mark_down_ s || excluded_from_the_quorum_ s || negb (initialized_ s) || stopping_ s
  then false
  else if is_leader s then
    let nr_peers := get_not_responding_peers_count s (s32 (hb * limit)) 0 in
    negb (get_num_voting_members s - nr_peers <? get_quorum_for_commit s + 1)
  else negb (u64 (u64 hb * u64 limit) <? get_ms (now_ s) (last_rcvd_valid_append_entries_req_ s)).

Definition is_excluded_by_leader (s : server) : bool :=
  if is_leader s then false else excluded_from_the_quorum_ s.

Definition request_leadership : SM bool :=
  s <- self ;;
  if (id_ s =? leader_ s) || is_leader s then ret false
  else if leader_ s =? -1 then ret false
  else
    match peers_ s !! leader_ s with
    | None => ret false
    | Some _ =>
        let last := u64 (next_slot (log_store_ s) - 1) in
        t <- term_for_log last ;;
        let req := req_msg_new (term_ (state_ s)) custom_notification_request (id_ s) (leader_ s) t last
                     (quick_commit_index_ s) in
        b <- lift (noti_serialize (mk_noti request_resignation None)) ;;
        peer_send (leader_ s) (req <| rq_log_entries := [user_entry custom b] |>) resp_handler_ false ;;
        ret true
    end.

(** ** The end of a server *)

Definition stop_server : SM unit :=
  modify (fun s => s <| stopping_ := true |>) ;;
  drop_all_pending_commit_elems ;;
  drop_all_sm_watcher_elems.

(** Without a global manager: [Ev_wake_commit] ends the commit thread and
    [Ev_wake_append] the one that appends, which are waited for.  The end of the
    forwarding of requests is in [Forward.v]. *)
Definition server_shutdown : SM unit :=
  modify (fun s => if use_bg_thread_for_snapshot_io_ (params_ s) then s <| snp_io_queue_ := [] |> else s) ;;
  modify (fun s => s <| stopping_ := true |>) ;;
  emit Ev_wake_commit ;;
  cancel_schedulers ;;
  drop_all_pending_commit_elems ;;
  drop_all_sm_watcher_elems ;;
  s <- self ;;
  when (is_some (srv_to_join_ s)) reset_srv_to_join ;;
  s <- self ;;
  when (is_some (srv_to_leave_ s)) reset_srv_to_leave ;;
  emit Ev_wake_append.

End UserCmd.

(** * What a change of the configuration is *)

Create HintDb conf.

Section SameConf.
Context {L : Type} `{LS : LogStore L} `{EV : Env} `{U : Uninit}.

#[local] Abbreviation server := (raft_server L).
#[local] Abbreviation SM := (M (raft_server L)).

(** The configurations, and whether one is on its way. *)
Definition conf_of (s : server) : cluster_config * option cluster_config * bool :=
  (rs_config_ s, uncommitted_config_ s, config_changing_ s).

Definition same_conf (s s' : server) : Prop := conf_of s' = conf_of s.

#[export] Instance same_conf_preorder : PreOrder same_conf.
Proof. split; [done|]. intros s1 s2 s3 H1 H2. unfold same_conf in *. by rewrite H2. Qed.

Definition holds {A} (m : SM A) : Prop := forall s, same_conf s (run_state m s).

Lemma holds_bind {A B} (m : SM A) (k : A -> SM B) : holds m -> (forall a, holds (k a)) -> holds (bind m k).
Proof.
  intros Hm Hk s. specialize (Hm s). unfold run_state, bind in *.
  destruct (m s) as [[a|e] s1]; cbn [snd] in *; [|done]. etrans; [exact Hm|apply Hk].
Qed.

Lemma holds_ret {A} (a : A) : holds (ret a).
Proof. done. Qed.

Lemma holds_throw {A} e : holds (@throw server A e).
Proof. done. Qed.

Lemma holds_lift {A} (r : res A) : holds (lift r).
Proof. done. Qed.

Lemma holds_self : holds self.
Proof. done. Qed.

Lemma holds_gets {A} (f : server -> A) : holds (gets f).
Proof. done. Qed.

Lemma holds_when c (m : SM unit) : holds m -> holds (when c m).
Proof. by destruct c. Qed.

Lemma holds_with_log {A} (m : M L A) : holds (with_log m).
Proof. intros s. unfold run_state, with_log. by destruct (m (log_store_ s)). Qed.

Lemma holds_modify f : (forall s, conf_of (f s) = conf_of s) -> holds (modify f).
Proof. intros H s. apply H. Qed.

Lemma holds_peer_at pid : holds (peer_at pid).
Proof. intros s. unfold run_state, peer_at. by destruct (_ !! _). Qed.

Lemma holds_callback t p : holds (callback t p).
Proof. done. Qed.

Lemma holds_on_peer pid f : holds (on_peer pid f).
Proof.
  apply holds_modify. intros s. destruct (_ !! _) as [p|]; [|done]. by destruct (f p).
Qed.

Lemma holds_ask_peer {A} pid (d : A) f : holds (ask_peer pid d f).
Proof.
  intros s. unfold run_state, ask_peer. destruct (_ !! _) as [p|]; [|done]. by destruct (f p).
Qed.

Lemma holds_peer_send pid req h st : holds (peer_send pid req h st).
Proof.
  intros s. unfold run_state, peer_send. destruct (_ !! _) as [p|]; [|done].
  by destruct (send_req _ _ _ _) as [[p' out]|].
Qed.

Lemma holds_for_all ids f : (forall i, holds (f i)) -> holds (for_all ids f).
Proof. intros H. induction ids; cbn; [done|by apply holds_bind]. Qed.

Lemma holds_for_peers f : (forall i, holds (f i)) -> holds (for_peers f).
Proof. intros H. apply holds_bind; [done|]. intros. by apply holds_for_all. Qed.

End SameConf.

#[export] Hint Resolve holds_ret holds_throw holds_lift holds_self holds_gets holds_with_log holds_peer_at
  holds_callback holds_on_peer holds_ask_peer holds_peer_send : conf.

Ltac hold_step :=
  lazymatch goal with
  | |- forall _, _ => intros ?
  | |- holds (let x := _ in _) => cbn zeta
  | |- holds (bind _ _) => apply holds_bind
  | |- holds (when _ _) => apply holds_when
  | |- holds (emit _) => by apply holds_modify
  | |- holds (system_exit _) => by apply holds_modify
  | |- holds (upd_state _) => by apply holds_modify
  | |- holds (upd_peer _ _) => by apply holds_modify
  | |- holds (modify _) => apply holds_modify; intros ?; split_ifs; done
  | |- holds (for_peers _) => apply holds_for_peers
  | |- holds (if ?b then _ else _) => destruct b eqn:?
  | |- holds (match ?x with _ => _ end) => destruct x eqn:?
  end.

Ltac hold := repeat first [solve [eauto 2 with conf nocore] | hold_step].

Section SameConfOps.
Context {L : Type} `{LS : LogStore L} `{EV : Env} `{U : Uninit}.

#[local] Abbreviation holding := (holds (L := L)).

Lemma holding_term_for_log i : holding (term_for_log i).
Proof. unfold term_for_log. hold. Qed.

Lemma holding_clear_snp pid : holding (clear_snapshot_sync_ctx pid).
Proof. unfold clear_snapshot_sync_ctx. hold. Qed.

Lemma holding_precommit i : holding (try_update_precommit_index i).
Proof. unfold try_update_precommit_index. hold. Qed.

#[local] Hint Resolve holding_term_for_log holding_clear_snp holding_precommit : conf.

Lemma holding_store e i : holding (store_log_entry e i).
Proof. unfold store_log_entry. hold. Qed.

Lemma holding_check_snp pid : holding (check_snapshot_timeout pid).
Proof. unfold check_snapshot_timeout. hold. Qed.

Lemma holding_previous_ctx pid : holding (previous_sync_ctx pid).
Proof. unfold previous_sync_ctx. hold. Qed.

Lemma holding_fatal {A} c : holding (@fatal L A c).
Proof. unfold fatal. hold. Qed.

#[local] Hint Resolve holding_check_snp holding_previous_ctx holding_fatal : conf.

Lemma holding_snapshot_to_sync pid i c : holding (snapshot_to_sync pid i c).
Proof. unfold snapshot_to_sync. hold. Qed.

Lemma holding_read_snapshot pid snp : holding (read_snapshot_object pid snp).
Proof. unfold read_snapshot_object. hold. Qed.

#[local] Hint Resolve holding_snapshot_to_sync holding_read_snapshot : conf.

Lemma holding_sync_snapshot pid i t c : holding (create_sync_snapshot_req pid i t c).
Proof. unfold create_sync_snapshot_req. hold. Qed.

Lemma holding_end_of_batch pid i n : holding (end_of_batch pid i n).
Proof. unfold end_of_batch. hold. Qed.

Lemma holding_out_of_range pid t i c st : holding (out_of_log_range_req pid t i c st).
Proof. unfold out_of_log_range_req. hold. Qed.

#[local] Hint Resolve holding_sync_snapshot holding_end_of_batch holding_out_of_range : conf.

Lemma holding_append_req pid i : holding (create_append_entries_req pid i).
Proof. unfold create_append_entries_req. hold. Qed.

Lemma holding_reconnect pid : holding (reconnect_client pid).
Proof. unfold reconnect_client. hold. Qed.

Lemma holding_send_request pid msg h st : holding (send_request pid msg h st).
Proof. unfold send_request. hold. Qed.

#[local] Hint Resolve holding_append_req holding_reconnect holding_send_request : conf.

Lemma holding_reconnect_if_needed pid : holding (reconnect_if_needed pid).
Proof. unfold reconnect_if_needed. hold. Qed.

Lemma holding_skip_busy pid : holding (skip_busy_peer pid).
Proof. unfold skip_busy_peer. hold. Qed.

#[local] Hint Resolve holding_reconnect_if_needed holding_skip_busy : conf.

Lemma holding_send_entries pid : holding (send_entries pid).
Proof. unfold send_entries. hold. Qed.

#[local] Hint Resolve holding_send_entries : conf.

Lemma holding_commit_with request i : (forall pid, holding (request pid)) -> holding (commit_with request i).
Proof. intros H. unfold commit_with. hold. Qed.

Lemma holding_request_to fuel pid : holding (request_append_entries_to fuel pid).
Proof.
  revert pid. induction fuel as [|fuel IH]; intros pid; cbn [request_append_entries_to]; [hold|].
  pose proof (fun i => holding_commit_with _ i IH). unfold adjust_quorum. hold.
Qed.

Lemma holding_request_append : holding request_append_entries.
Proof.
  unfold request_append_entries. pose proof (fun i => holding_commit_with _ i (holding_request_to 1)).
  pose proof (holding_request_to 1). unfold commit, request_append_entries_peer. hold.
Qed.

End SameConfOps.

(** ** Voters *)

(** The servers that count for a quorum. *)
Definition votes (x : srv_config) : bool := negb (sc_learner x) && negb (sc_new_joiner x).

Definition voters (c : cluster_config) : list Z := map sc_id (filter (fun x => votes x) (cc_servers c)).

(** [q] has more than half of the voters of [c]. *)
Definition voter_majority (c : cluster_config) (q : gset Z) : Prop :=
  q ⊆ list_to_set (voters c) /\ (length (voters c) < 2 * base.size q)%nat.

(** At most one server differs, and not its id. *)
Definition one_changed (l l' : list srv_config) : Prop :=
  l' = l \/ exists a x y b, l = a ++ x :: b /\ l' = a ++ y :: b /\ sc_id x = sc_id y.

Lemma one_changed_cons x l l' : one_changed l l' -> one_changed (x :: l) (x :: l').
Proof.
  intros [->|(a & y & z & b & -> & -> & E)]; [by left|]. right. by exists (x :: a), y, z, b.
Qed.

Lemma flip_changes id to l l' : flip_server id to l = Flipped l' -> one_changed l l'.
Proof.
  revert l'. induction l as [|x l IH]; intros l'; cbn [flip_server]; [done|].
  destruct (sc_id x =? id) eqn:E; cbn [negb].
  - case_bool_decide; [done|]. intros [= <-]. right. by exists [], x, (set_learner to x), l.
  - destruct (flip_server id to l); [|done..]. intros [= <-]. by apply one_changed_cons, IH.
Qed.

Lemma replace_changes c l : one_changed l (replace_server c l).
Proof.
  induction l as [|x l IH]; cbn [replace_server]; [by left|].
  destruct (sc_id x =? sc_id c) eqn:E; [|by apply one_changed_cons].
  apply Z.eqb_eq in E. right. by exists [], x, c, l.
Qed.

Lemma one_changed_ids l l' : one_changed l l' -> map sc_id l' = map sc_id l.
Proof. intros [->|(a & x & y & b & -> & -> & E)]; [done|]. rewrite !map_app. cbn [map]. by rewrite E. Qed.

(** With one server changed the voters differ by at most that one. *)
Lemma changed_voters_meet c c' q q' :
  NoDup (map sc_id (cc_servers c)) -> one_changed (cc_servers c) (cc_servers c') ->
  voter_majority c q -> voter_majority c' q' -> exists i, i ∈ q /\ i ∈ q'.
Proof.
  unfold voter_majority, voters. intros N Hc (S & H) (S' & H').
  assert (forall l, NoDup (map sc_id l) -> NoDup (map sc_id (filter (fun x => votes x) l))) as Hn.
  { intros l Hl. eapply sublist_NoDup; [exact Hl|]. apply map_sublist, sublist_filter. }
  assert (NoDup (map sc_id (cc_servers c'))) as N' by by rewrite (one_changed_ids (cc_servers c)).
  apply Hn in N, N'. destruct Hc as [E|(a & x & y & b & Ex & Ey & E)].
  { rewrite E in *. eapply (near_majorities_meet _ _ q q'); [exact N|done|lia|done..]. }
  rewrite Ex, Ey, !filter_app, !filter_cons in *.
  assert (forall (p1 p2 : list Z) z, p1 ++ p2 ⊆ p1 ++ z :: p2) as Hs by set_solver.
  repeat case_decide; rewrite !map_app in *; cbn [map] in *; rewrite ?E, ?length_app in *; cbn [length] in *.
  - eapply near_majorities_meet; [exact N'|done| |exact S|exact S'|..]; rewrite ?length_app; cbn [length]; lia.
  - apply (near_majorities_meet _ _ q q' N' (Hs _ _ _)); rewrite ?length_app; cbn [length]; try done; lia.
  - edestruct (near_majorities_meet _ _ q' q N (Hs _ _ _)) as (i & ? & ?); [..|by exists i];
      rewrite ?length_app; cbn [length]; try done; lia.
  - eapply near_majorities_meet; [exact N'|done| |exact S|exact S'|..]; rewrite ?length_app; cbn [length]; lia.
Qed.

(** ** The commands *)

Section Commands.
Context {L : Type} `{LS : LogStore L} `{SP : !LogStoreSpec L} `{EV : Env} `{U : Uninit}.

#[local] Abbreviation server := (raft_server L).
#[local] Abbreviation SM := (M (raft_server L)).

Inductive config_cmd :=
| Flip_learner (srv_id : Z) (to : bool)
| Set_user_ctx (ctx : list Z)
| Update_srv (c : srv_config).

Definition run_config_cmd (cmd : config_cmd) : SM unit :=
  match cmd with
  | Flip_learner srv_id to => flip_learner_flag srv_id to ;; ret tt
  | Set_user_ctx ctx => set_user_ctx_cmd ctx
  | Update_srv c => update_srv_config c ;; ret tt
  end.

(** The configuration that a command proposes in the state [s], if it does. *)
Definition proposed (cmd : config_cmd) (s : server) : option cluster_config :=
  let base := set_log_idx (next_slot (log_store_ s)) (rs_config_ s) in
  match cmd with
  | Flip_learner srv_id to =>
      if bool_decide (role_ s = leader) && negb (write_paused_ s) && negb (config_changing_ s) then
        match flip_server srv_id to (cc_servers base) with
        | Flipped l => Some (base <| cc_servers := l |>)
        | _ => None
        end
      else None
  | Set_user_ctx ctx => Some (set_user_ctx ctx base)
  | Update_srv c =>
      if is_leader s then
        match get_server base (sc_id c) with
        | Some prev =>
            if negb (sc_new_joiner prev) && bool_decide (sc_endpoint prev = sc_endpoint c)
            then Some (base <| cc_servers ::= replace_server c |>)
            else None
        | None => None
        end
      else None
  end.

Definition cmd_ok (cmd : config_cmd) : Prop :=
  match cmd with Update_srv c => srv_config_ok c /\ zlen (srv_config_bytes c) < 2 ^ 31 | _ => True end.

(** [e] is an entry of the leader's term with the configuration [c]. *)
Definition carries (c : cluster_config) (s : server) (e : log_entry) : Prop :=
  le_value_type e = conf /\ le_term e = term_ (state_ s) /\
  exists b, le_buff e = Some b /\ from_buf cluster_config_deserialize b = Ok c.

Lemma config_bytes_decode c : cluster_config_ok c ->
  from_buf cluster_config_deserialize (mkbuf (cluster_config_bytes c) 0) = Ok c.
Proof. intros H. apply from_buf_all; [by apply sreads_cluster_config|apply H]. Qed.

Lemma clone_runs s : cluster_config_ok (rs_config_ s) ->
  clone_config s = (Ok (set_log_idx (next_slot (log_store_ s)) (rs_config_ s)), s).
Proof.
  intros H. unfold clone_config, bind, self, lift. rewrite cluster_config_serialize_ok by done.
  by rewrite config_bytes_decode.
Qed.

Lemma store_conf_runs e s :
  le_value_type e = conf -> storable e -> ls_ok (log_store_ s) -> al_next (log_of s) + 1 < 2 ^ 64 ->
  runs (store_log_entry e 0) s (fun i s' => i = al_next (log_of s) /\ ls_ok (log_store_ s') /\
    log_of s' = al_append (rewound e) (log_of s)).
Proof.
  intros Et He O Hn. destruct (ls_append e _ O He Hn) as (l1 & E1 & O1 & V1).
  destruct (ls_flush l1 O1) as (f & l2 & E2 & O2 & V2).
  unfold store_log_entry. rewrite Et. cbn [Z.eqb]. apply runs_bind.
  exists (al_next (log_of s)), (s <| log_store_ := l1 |>). split; [unfold with_log; by rewrite E1|].
  apply runs_bind, runs_bind. exists f, (s <| log_store_ := l2 |>). split; [unfold with_log; cbn; by rewrite E2|].
  assert (forall s', log_store_ s' = l2 ->
    al_next (log_of s) = al_next (log_of s) /\ ls_ok (log_store_ s') /\
    log_of s' = al_append (rewound e) (log_of s)) as Hl.
  { intros s' El. unfold log_of at 3. by rewrite El, V2. }
  apply runs_bind. eapply (runs_mono _ _ (fun _ s' => log_store_ s' = l2)).
  { destruct f; cbn [negb when]; [by apply runs_ret|by apply runs_modify]. }
  intros [] s' El. apply runs_self. destruct (bool_decide _); cbn [when]; [|by apply runs_ret, runs_ret, Hl].
  apply runs_bind. eapply runs_mono; [apply try_update_runs|]. intros ? s2 ->. by apply runs_ret, runs_ret, Hl.
Qed.

(** The entry is appended, whatever is done next. *)
Lemma propose_grows {A} c (k : Z -> SM A) s :
  cluster_config_ok c -> ls_ok (log_store_ s) -> al_next (log_of s) + 1 < 2 ^ 64 ->
  exists e s1, carries c s e /\ ls_ok (log_store_ s1) /\ log_of s1 = al_append e (log_of s) /\
    same_conf s s1 /\
    run_state (e <- conf_entry c ;; i <- store_log_entry e 0 ;; k i) s = run_state (k (al_next (log_of s))) s1.
Proof.
  intros Hc O Hn. set (b := mkbuf (cluster_config_bytes c) 0).
  set (e := log_entry_new (term_ (state_ s)) (Some b) conf (get_timeofday_us (now_ s)) false 0 true).
  assert (conf_entry c s = (Ok e, s)) as Ee.
  { unfold conf_entry, bind, self, lift. by rewrite cluster_config_serialize_ok. }
  assert (storable e) as He by (by eapply config_storable, cluster_config_serialize_ok).
  destruct (store_conf_runs e s eq_refl He O Hn) as (i & s1 & E1 & -> & O1 & V1).
  assert (rewound e = e) as Er.
  { unfold rewound. change (le_buff e) with (Some b). cbv match. unfold b. by rewrite mkbuf_bytes. }
  exists e, s1. rewrite Er in V1. split_and!; [|done|done| |].
  - split; [done|]. split; [done|]. exists b. split; [done|]. by apply config_bytes_decode.
  - pose proof (holding_store e 0 s) as H. unfold run_state in H. by rewrite E1 in H.
  - unfold run_state, bind. by rewrite Ee, E1.
Qed.

(** Sending the entries leaves the log and the configurations alone. *)
Lemma request_append_leaves s : ls_ok (log_store_ s) ->
  log_of (run_state request_append_entries s) = log_of s /\ same_conf s (run_state request_append_entries s).
Proof.
  intros O. split; [|apply holding_request_append].
  destruct (still_request_append s O) as (_ & _ & es & Hz & ->); [destruct (ls_range _ O); unfold log_of; lia|].
  destruct es; [done|]. pose proof (zlen_nonneg es). rewrite zlen_cons in Hz. lia.
Qed.

Lemma run_then {A B} (m : SM A) (b : B) s : run_state (m ;; ret b) s = run_state m s.
Proof. unfold run_state, bind. by destruct (m s) as [[] ?]. Qed.

Lemma run_after_modify {A} f (k : SM A) s : run_state (modify f ;; k) s = run_state k (f s).
Proof. done. Qed.

Lemma proposed_changes cmd s c :
  proposed cmd s = Some c -> one_changed (cc_servers (rs_config_ s)) (cc_servers c).
Proof.
  destruct cmd as [id to|ctx|sc]; cbn [proposed].
  - destruct (_ && _); [|done]. destruct (flip_server _ _ _) eqn:E; [|done..]. intros [= <-].
    by eapply flip_changes.
  - intros [= <-]. by left.
  - destruct (is_leader s); [|done]. destruct (get_server _ _); [|done]. destruct (_ && _); [|done].
    intros [= <-]. apply replace_changes.
Qed.

(** What a proposal does to the configurations known to the server. *)
Definition conf_after (cmd : config_cmd) (c : cluster_config) (s : server) :=
  match cmd with
  | Flip_learner _ _ => (rs_config_ s, Some c, true)
  | _ => conf_of s
  end.

Lemma config_cmd_refused cmd s :
  cluster_config_ok (rs_config_ s) -> cmd_ok cmd -> proposed cmd s = None ->
  run_state (run_config_cmd cmd) s = s.
Proof.
  intros Hc Hk. destruct cmd as [id to|ctx|sc]; cbn [proposed run_config_cmd]; [|done|]; rewrite run_then.
  - unfold flip_learner_flag, run_state, bind, self. destruct (bool_decide (role_ s = leader)); [|done].
    destruct (write_paused_ s); [done|]. destruct (config_changing_ s); [done|]. cbn [negb orb andb].
    rewrite clone_runs by done. by destruct (flip_server _ _ _).
  - unfold update_srv_config, run_state, bind, self. destruct (is_leader s); [|done]. cbn [negb].
    rewrite clone_runs by done. destruct (get_server _ _) as [prev|]; [|done].
    destruct (sc_new_joiner prev); [done|]. by destruct (bool_decide _).
Qed.

Lemma config_cmd_proposed cmd s c :
  ls_ok (log_store_ s) -> al_next (log_of s) + 1 < 2 ^ 64 -> cluster_config_ok (rs_config_ s) -> cmd_ok cmd ->
  proposed cmd s = Some c -> cluster_config_ok c ->
  exists e s1, carries c s e /\ ls_ok (log_store_ s1) /\ log_of s1 = al_append e (log_of s) /\
    conf_of s1 = conf_after cmd c s /\
    run_state (run_config_cmd cmd) s = run_state request_append_entries s1.
Proof.
  intros O Hn Hc Hk. destruct cmd as [id to|ctx|sc]; cbn [proposed run_config_cmd]; rewrite ?run_then.
  - unfold flip_learner_flag, run_state, bind at 1, self. destruct (bool_decide (role_ s = leader)); [|done].
    destruct (write_paused_ s); [done|]. destruct (config_changing_ s); [done|]. cbn [negb orb andb].
    intros Hp Hok. unfold bind at 1. rewrite clone_runs by done. cbv zeta.
    destruct (flip_server _ _ _) as [l| |]; [|done..]. injection Hp as <-.
    set (c := _ <| cc_servers := l |>) in *.
    destruct (propose_grows c (fun _ =>
      modify (fun s => s <| config_changing_ := true |> <| uncommitted_config_ := Some c |>) ;;
      request_append_entries ;; ret (cr_set_result_code OK null_result)) s Hok O Hn)
      as (e & s1 & He & O1 & V1 & C1 & E).
    exists e, (s1 <| config_changing_ := true |> <| uncommitted_config_ := Some c |>).
    split; [exact He|]. split; [done|]. split; [done|]. split; [|etrans; [exact E|]; rewrite run_after_modify; apply run_then].
    cbn [conf_after]. injection C1 as C1 _ _. unfold conf_of. cbn. by rewrite C1.
  - intros [= <-] Hok. unfold set_user_ctx_cmd, run_state, bind at 1. rewrite clone_runs by done.
    destruct (propose_grows _ (fun _ => request_append_entries) s Hok O Hn) as (e & s1 & He & O1 & V1 & C1 & E).
    by exists e, s1.
  - unfold update_srv_config, run_state, bind at 1, self. destruct (is_leader s); [|done]. cbn [negb].
    unfold bind at 1. rewrite clone_runs by done.
    destruct (get_server _ _) as [prev|]; [|done]. destruct (sc_new_joiner prev); [done|].
    destruct (bool_decide _); [|done]. cbn [negb andb]. intros [= <-] Hok. destruct Hk as (Hs & Hz).
    unfold bind at 1, lift at 1. rewrite srv_config_serialize_ok by done.
    unfold bind at 1, lift at 1. rewrite (from_buf_all _ _ sc) by (done || by apply sreads_srv_config).
    destruct (propose_grows _ (fun _ => request_append_entries ;; ret true) s Hok O Hn)
      as (e & s1 & He & O1 & V1 & C1 & E).
    exists e, s1. split_and!; try done. etrans; [exact E|apply run_then].
Qed.

(** C13: a command that changes the configuration is refused and changes nothing, or
    it appends one entry, with the configuration it proposes, and the committed
    configuration stays: every majority of its voters has a server in every
    majority of the voters of the proposed one.  [flip_learner_flag] also notes
    that the configuration is changing. *)
Theorem config_commands cmd (s : server) :
  ls_ok (log_store_ s) -> al_next (log_of s) + 1 < 2 ^ 64 -> cluster_config_ok (rs_config_ s) ->
  NoDup (map sc_id (cc_servers (rs_config_ s))) -> cmd_ok cmd ->
  (forall c, proposed cmd s = Some c -> cluster_config_ok c) ->
  let s' := run_state (run_config_cmd cmd) s in
  match proposed cmd s with
  | None => s' = s
  | Some c =>
      (exists e, carries c s e /\ log_of s' = al_append e (log_of s)) /\
      conf_of s' = conf_after cmd c s /\
      forall q q', voter_majority (rs_config_ s) q -> voter_majority c q' -> exists i, i ∈ q /\ i ∈ q'
  end.
Proof.
  intros O Hn Hc N Hk Hp. cbv zeta. destruct (proposed cmd s) as [c|] eqn:E; [|by apply config_cmd_refused].
  destruct (config_cmd_proposed cmd s c O Hn Hc Hk E (Hp _ eq_refl)) as (e & s1 & He & O1 & V1 & C1 & ->).
  destruct (request_append_leaves s1 O1) as (V2 & C2). split; [|split].
  - exists e. by rewrite V2.
  - by rewrite C2.
  - intros q q'. by apply changed_voters_meet, (proposed_changes cmd s).
Qed.

End Commands.

(** * Two updates at once *)

Section TwoUpdates.

#[local] Existing Instance zeroed.

#[local] Instance user_cmd_surroundings : Env := sample_env.

#[local] Abbreviation server := (raft_server inmem_log_store).

(** Servers 1 and 2 vote, 3 and 4 are learners. *)
Definition learners_config : cluster_config :=
  (cluster_config_new 0 0 false) <| cc_servers :=
    [srv_config_simple 1 [49]; srv_config_simple 2 [50];
     set_learner true (srv_config_simple 3 [51]); set_learner true (srv_config_simple 4 [52])] |>.

Definition learners_leader : server :=
  (trio_server 1) <| role_ := leader |> <| leader_ := 1 |> <| rs_config_ := learners_config |>.

Lemma learners_config_ok : cluster_config_ok learners_config.
Proof. split_and!; [done..| |by vm_compute]. repeat constructor; done. Qed.

Definition update_both : M server (bool * bool) :=
  a <- update_srv_config (srv_config_simple 3 [51]) ;;
  b <- update_srv_config (srv_config_simple 4 [52]) ;;
  ret (a, b).

(** The configuration in the entry [i] of the log. *)
Definition config_at (i : Z) (s : server) : option cluster_config :=
  match logs_ (log_store_ s) !! i with
  | Some e => match le_buff e with
              | Some b => match from_buf cluster_config_deserialize b with Ok c => Some c | _ => None end
              | None => None
              end
  | None => None
  end.

(** [update_srv_config] accepts a second change before the first is committed:
    the log then holds two configurations, neither committed, with majorities
    without a common server. *)
Theorem two_updates_split :
  let s := run_state update_both learners_leader in
  run_val update_both learners_leader = Ok (true, true) /\
  quick_commit_index_ s = 0 /\ config_changing_ s = false /\
  exists c3 c4, config_at 1 s = Some c3 /\ config_at 2 s = Some c4 /\
    voter_majority c3 {[ 1; 3 ]} /\ voter_majority c4 {[ 2; 4 ]}.
Proof.
  split; [vm_compute; reflexivity|]. split; [vm_compute; reflexivity|]. split; [vm_compute; reflexivity|].
  eexists _, _. split; [vm_compute; reflexivity|]. split; [vm_compute; reflexivity|].
  split; (split; [change (voters _) with [1; 2; 3] || change (voters _) with [1; 2; 4]; set_solver|vm_compute; lia]).
Qed.

(** A server that does not lead is given a context by its user: it appends an
    entry of its own. *)
Example follower_appends :
  let s := run_state (set_user_ctx_cmd [7]) (trio_server 2) in
  role_ s = follower /\ leader_ s = -1 /\ get_last_log_idx (trio_server 2) = 0 /\ get_last_log_idx s = 1.
Proof. vm_compute. repeat split. Qed.

Lemma config_commands_witness :
  exists c e, carries c learners_leader e /\
    log_of (run_state (run_config_cmd (Flip_learner 3 false)) learners_leader) = al_append e (log_of learners_leader) /\
    voters c = [1; 2; 3].
Proof.
  pose proof (config_commands (Flip_learner 3 false) learners_leader) as H.
  destruct (H) as ((e & He & V) & _).
  - apply (proj1 (inmem_new_ok 0)).
  - by vm_compute.
  - apply learners_config_ok.
  - change (NoDup [1; 2; 3; 4]). by apply (bool_decide_eq_true_1 _).
  - done.
  - intros c E. vm_compute in E. injection E as <-. split_and!; [done..| |by vm_compute]. repeat constructor; done.
  - eexists _, e. split; [exact He|]. split; [exact V|]. vm_compute. reflexivity.
Defined.

End TwoUpdates.
