(* ===== verification/Shutdown.v ===== *)
(** The end of a server ([shutdown] in raft_server.cc, [UserCmd.server_shutdown]):
    nobody is left waiting, and the server does nothing any more. *)
From S2P Require Import Prelude Buffer Serializer Codec Messages Peer LogStore Server.
From S2P Require Import Replication Election Startup Samples Follower Leader Commit Total Append Quorum Applied.
From S2P Require Import Client Snapshot Membership Dispatch UserCmd.

Section Shutdown.
Context {L : Type} `{LS : LogStore L} `{EV : Env} `{U : Uninit}.

#[local] Abbreviation server := (raft_server L).
#[local] Abbreviation SM := (M (raft_server L)).

(** What the steps of the shut-down leave alone, but for the results they give. *)
Record closing (s s' : server) : Prop := {
  cl_elems : commit_ret_elems_ s' = commit_ret_elems_ s;
  cl_watchers : sm_watchers_ s' = sm_watchers_ s;
  cl_stopping : stopping_ s' = stopping_ s;
  cl_params : params_ s' = params_ s;
  cl_peers : forall pid, is_Some (peers_ s !! pid) -> is_Some (peers_ s' !! pid);
  cl_trace : trace_ s `suffix_of` trace_ s'
}.

#[export] Instance closing_preorder : PreOrder closing.
Proof.
  split; [split; try done; by apply suffix_nil_r || reflexivity|].
  intros s1 s2 s3 [] []. split; try congruence; [auto|by etrans].
Qed.

Lemma closing_trace (s : server) evs : closing s (s <| trace_ ::= app evs |>).
Proof. split; try done. by exists evs. Qed.

Lemma closing_alter (s : server) f pid : closing s (s <| peers_ ::= alter f pid |>).
Proof.
  split; try done. intros j (p & E). cbn. destruct (decide (pid = j)) as [<-|].
  - rewrite lookup_alter_eq, E. by eexists.
  - rewrite lookup_alter_ne by done. by eexists.
Qed.

Lemma closing_emit e : returns closing (emit (L := L) e).
Proof. apply (returns_modify closing). intros s. apply (closing_trace s [e]). Qed.

Lemma closing_upd_peer pid f : returns closing (upd_peer (L := L) pid f).
Proof. apply (returns_modify closing). intros s. apply closing_alter. Qed.

Lemma for_all_runs (R : relation server) `{!PreOrder R} ids (f : Z -> SM unit) s :
  (forall i s1, i ∈ ids -> R s s1 -> runs (f i) s1 (fun _ s2 => R s1 s2)) ->
  runs (for_all ids f) s (fun _ s2 => R s s2).
Proof.
  revert s. induction ids as [|i ids IH]; intros s H; cbn [for_all]; [by apply runs_ret|].
  apply runs_bind. eapply runs_mono; [apply H; [left|done]|]. intros [] s1 R1.
  eapply runs_mono; [apply IH|].
  - intros j s2 Hj R2. apply H; [by right|by etrans].
  - intros [] s2 R2. cbn in *. by etrans.
Qed.

Lemma closing_clear pid : returns closing (clear_snapshot_sync_ctx (L := L) pid).
Proof.
  unfold clear_snapshot_sync_ctx. apply (returns_bind closing); [apply (returns_self closing)|]. intros s.
  destruct (peers_ s !! pid) as [p|]; [|by apply (returns_ret closing)].
  apply (returns_bind closing); [|intros; apply closing_upd_peer].
  destruct (snp_sync_ctx_ p); [apply closing_emit|apply (returns_ret closing)].
Qed.

Lemma returns_runs (R : relation server) {A} (m : SM A) s :
  returns R m -> runs m s (fun _ s' => R s s').
Proof. intros H. destruct (H s) as (a & s' & E & HR). by exists a, s'. Qed.

Lemma closing_cancel_task t : returns closing (cancel_task (L := L) t).
Proof.
  unfold cancel_task. apply (returns_bind closing); [apply (returns_self closing)|]. intros. apply (returns_when closing), closing_emit.
Qed.

Lemma cancel_schedulers_runs s : runs cancel_schedulers s (fun _ s' => closing s s').
Proof.
  unfold cancel_schedulers. apply runs_self. destruct (scheduler_ s); cbn [when]; [|by apply runs_ret].
  apply runs_bind. eapply runs_mono; [apply (returns_runs closing), (returns_when closing), closing_cancel_task|].
  intros [] s1 R1. apply runs_bind. unfold for_peers. apply runs_self. eapply runs_mono.
  - apply (for_all_runs closing). intros pid s2 Hp R2. apply runs_bind.
    assert (is_Some (peers_ s2 !! pid)) as (p & E).
    { apply (cl_peers _ _ R2). apply list_elem_of_fmap in Hp as ((i & p) & -> & Hp).
      apply elem_of_map_to_list in Hp. by eexists. }
    exists p, s2. split; [unfold peer_at; by rewrite E|]. apply (returns_runs closing).
    apply (returns_bind closing); [apply (returns_when closing), closing_cancel_task|]. intros.
    apply (returns_bind closing); [apply closing_upd_peer|]. intros. apply closing_clear.
  - intros [] s2 R2. cbn in R2. apply runs_modify. etrans; [exact R1|]. etrans; [exact R2|]. by split.
Qed.

(** ** Those who wait *)

(** Every pending request can be answered: its client is blocked or has been
    given a result object. *)
Definition answerable (s : server) : Prop :=
  forall i e, commit_ret_elems_ s !! i = Some e ->
    return_method_ (params_ s) = blocking \/ cre_async_result_ e = true.

(** [evs] in the trace, the first one first. *)
Definition traced (evs : list event) (s : server) : server := s <| trace_ ::= app (rev evs) |>.

Lemma traced_nil s : traced [] s = s.
Proof. by destruct s. Qed.

Lemma traced_cons e evs s : traced evs (s <| trace_ ::= cons e |>) = traced (e :: evs) s.
Proof. unfold traced. cbn [rev]. destruct s. unfold upd, eta. cbn. by rewrite <- app_assoc. Qed.

Lemma emit_for_all (f : Z -> event) ids s :
  for_all ids (fun i => emit (f i)) s = (Ok tt, traced (map f ids) s).
Proof.
  revert s. induction ids as [|i ids IH]; intros s; cbn [for_all map]; [by rewrite traced_nil|].
  unfold bind, emit at 1, modify. by rewrite IH, traced_cons.
Qed.

Definition cancelled (e : commit_ret_elem) : event := Ev_client_result (cre_idx_ e) CANCELLED None.

Lemma cancel_async_all l s :
  Forall (fun e => cre_async_result_ e = true) l ->
  cancel_all_async l s = (Ok tt, traced (map cancelled l) s).
Proof.
  intros F. revert s. induction F as [|e l He F IH]; intros s; cbn [cancel_all_async map]; [by rewrite traced_nil|].
  unfold bind, cancel_async. rewrite He. unfold emit, modify. by rewrite IH, traced_cons.
Qed.

Definition pending (s : server) : list commit_ret_elem := map snd (map_to_list (commit_ret_elems_ s)).

Lemma drop_pending_state (s : server) : answerable s ->
  drop_all_pending_commit_elems s
  = (Ok tt, traced (map cancelled (pending s)) s <| commit_ret_elems_ := ∅ |>).
Proof.
  intros Ha. unfold drop_all_pending_commit_elems, bind at 1, self.
  case_bool_decide as Hm.
  - unfold bind. rewrite emit_for_all. cbn. unfold pending, modify. rewrite !map_map. by destruct s.
  - unfold bind, modify. rewrite cancel_async_all; [by destruct s|].
    apply Forall_forall. intros e ((i & e') & -> & He)%list_elem_of_fmap. apply elem_of_map_to_list in He.
    by destruct (Ha i e' He).
Qed.

Definition watchers (s : server) : list Z := concat (map snd (map_to_list (sm_watchers_ s))).

Lemma emit_for_each (f : Z -> event) (ws : list Z) (s : server) :
  for_each ws (fun w => emit (f w)) s = (Ok tt, traced (map f ws) s).
Proof.
  revert s. induction ws as [|w ws IH]; intros s; cbn [for_each map]; [by rewrite traced_nil|].
  unfold bind, emit at 1, modify. by rewrite IH, traced_cons.
Qed.

Lemma drop_watchers_state s :
  drop_all_sm_watcher_elems s
  = (Ok tt, traced (map (fun w => Ev_sm_watcher w false) (watchers s)) (s <| sm_watchers_ := ∅ |>)).
Proof.
  unfold drop_all_sm_watcher_elems, bind at 1, self, bind, modify. unfold watchers.
  set (s0 := s <| sm_watchers_ := ∅ |>). generalize (map snd (map_to_list (sm_watchers_ s))). clearbody s0.
  intros l. revert s0. induction l as [|ws l IH]; intros s0; cbn [for_each concat map]; [by rewrite traced_nil|].
  unfold bind. rewrite emit_for_each, IH. unfold traced. f_equal. rewrite map_app, rev_app_distr.
  destruct s0. unfold upd, eta. cbn. by rewrite app_assoc.
Qed.

(** ** Servers on their way in and out *)

Lemma clear_keeps_leave pid (s : server) : srv_to_leave_ (run_state (clear_snapshot_sync_ctx pid) s) = srv_to_leave_ s.
Proof.
  unfold clear_snapshot_sync_ctx, run_state, bind, self. destruct (peers_ s !! pid) as [p|]; [|done].
  by destruct (snp_sync_ctx_ p).
Qed.

Lemma reset_join_runs (s : server) : is_Some (srv_to_join_ s) ->
  runs reset_srv_to_join s (fun _ s' => closing s s' /\ srv_to_join_ s' = None /\ srv_to_leave_ s' = srv_to_leave_ s).
Proof.
  intros (j & Ej). unfold reset_srv_to_join. apply runs_bind. unfold on_joiner, runs at 1. rewrite Ej.
  set (s1 := s <| peers_ ::= <[ p_id j := j ]> |>).
  destruct (closing_clear (p_id j) s1) as (a & s2 & E & R). pose proof (clear_keeps_leave (p_id j) s1) as Hl.
  unfold run_state in Hl. rewrite E in *. cbn [snd] in Hl. eexists a, _. split; [done|].
  apply runs_bind, runs_modify, runs_modify. split; [|split; [done|by cbn; rewrite Hl]].
  destruct R as [R1 R2 R3 R4 R5 R6]. split; try done. intros pid Hp. cbn.
  destruct (decide (p_id j = pid)) as [<-|Hne].
  - destruct Hp as (p & Ep). rewrite Ep, lookup_insert_eq. by eexists.
  - assert (is_Some (peers_ s2 !! pid)) as H2 by (apply R5; cbn; by rewrite lookup_insert_ne).
    destruct (peers_ s !! p_id j); [by rewrite lookup_insert_ne|by rewrite lookup_delete_ne].
Qed.

Lemma reset_leave_runs (s : server) : is_Some (srv_to_leave_ s) ->
  runs reset_srv_to_leave s (fun _ s' => closing s s' /\ srv_to_leave_ s' = None /\ srv_to_join_ s' = srv_to_join_ s).
Proof.
  intros (pid & E). unfold reset_srv_to_leave. apply runs_self. rewrite E. apply runs_bind, runs_modify, runs_modify.
  split; [|done]. etrans; [apply (closing_alter s Peer.shutdown pid)|]. by split.
Qed.

(** ** After the end *)

(** The server takes no requests, schedules nothing and holds no elections. *)
Record silent (s : server) : Prop := {
  sl_requests meanwhile req ext :
    process_req meanwhile req ext s = (Ok None, s <| trace_ ::= cons (Ev_callback ProcessReq (-1)) |>);
  sl_tasks t ms : schedule_task t ms s = (Ok tt, s);
  sl_elections : handle_election_timeout s = (Ok tt, s)
}.

Lemma stopped_silent (s : server) : stopping_ s = true -> silent s.
Proof.
  intros H. split.
  - intros. unfold process_req, accepts_req, callback, bind, gets, emit, modify, ret.
    destruct (bool_decide _); [done|]. cbn. by rewrite H.
  - intros. unfold schedule_task, bind, self, when. by rewrite H.
  - unfold handle_election_timeout, bind, self. by rewrite H.
Qed.

Lemma traced_in e evs (s : server) : e ∈ evs -> e ∈ trace_ (traced evs s).
Proof. intros H. apply elem_of_app. left. by apply list_elem_of_In, in_rev, list_elem_of_In; rewrite rev_involutive. Qed.

Lemma suffix_in {A} (x : A) l l' : l `suffix_of` l' -> x ∈ l -> x ∈ l'.
Proof. intros (k & ->) H. apply elem_of_app. by right. Qed.


End Shutdown.

Section ShutdownSample.

#[local] Existing Instance zeroed.

#[local] Instance shutdown_surroundings : Env := sample_env.

(** A leader with a blocked client and a watcher, while a server joins. *)
Definition busy_leader : raft_server inmem_log_store :=
  (trio_server 1) <| role_ := leader |> <| leader_ := 1 |>
    <| commit_ret_elems_ := {[ 3 := mk_commit_ret_elem 3 TIMEOUT None false false ]} |>
    <| sm_watchers_ := {[ 5 := [7] ]} |> <| srv_to_leave_ := Some 2 |>
    <| srv_to_join_ := Some (peer_new 0 (srv_config_simple 4 [52]) raft_params_default None) |>.


End ShutdownSample.
