(* ===== verification/Forward.v ===== *)
(** The forwarding of requests to the leader (handle_user_cmd.cc): the second
    half of [send_msg_to_leader], [auto_fwd_release_rpc_cli],
    [auto_fwd_resp_handler] and [cleanup_auto_fwd_pkgs].

    For every leader there is a package of connections, made when it is first
    needed.  Packages are objects that threads go on using when they are no
    longer in [auto_fwd_pkgs_], so they are named by numbers; connections and
    requests are named too, and [None] is the null connection.  A thread takes
    one step per critical section; [on_wire_] are the requests that were sent
    and whose handler, bound to a connection and a package, has not been called.
    A wait for a connection may end at any time, since it has a timeout.  The
    configuration lists the leader; the code does not test that it does. *)
From S2P Require Import Async Prelude Messages UserCmd.

Record auto_fwd_pkg := mk_fwd_pkg {
  rpc_client_idle_ : list Z;
  rpc_client_in_use_ : gset (option Z);
  ea_invoked_ : bool
}.

#[global] Instance eta_auto_fwd_pkg : Eta auto_fwd_pkg := fun r =>
  mk_fwd_pkg (rpc_client_idle_ r) (rpc_client_in_use_ r) (ea_invoked_ r).

Definition fwd_pkg_new : auto_fwd_pkg := mk_fwd_pkg [] ∅ false.

(** Where a thread is; the request and the result object it belongs to have one
    name. *)
Inductive fwd_pc :=
| F_lookup (leader_id req : Z)
| F_find (leader_id : Z) (pkg : nat) (req : Z)
| F_wait (leader_id : Z) (pkg : nat) (req : Z)
| F_send (pkg : nat) (req conn : Z) (by_user : bool)
| F_get (req : Z)
| F_release (pkg : nat) (conn : Z)
| F_done.

Record forwarding := mk_forwarding {
  pkgs_ : gmap nat auto_fwd_pkg;
  auto_fwd_pkgs_ : gmap Z nat;
  auto_fwd_reqs_ : list Z;
  fwd_threads_ : list fwd_pc;
  on_wire_ : list (Z * nat * Z);
  results_ : list (Z * user_result);
  submitted_ : list Z
}.

#[global] Instance eta_forwarding : Eta forwarding := fun r =>
  mk_forwarding (pkgs_ r) (auto_fwd_pkgs_ r) (auto_fwd_reqs_ r) (fwd_threads_ r) (on_wire_ r) (results_ r)
    (submitted_ r).

Definition forwarding_new : forwarding := mk_forwarding ∅ ∅ [] [] [] [] [].

(** What the handler makes of a response, or of an error. *)
Definition fwd_result (resp : resp_msg + Z) : user_result :=
  match resp with
  | inr err => mk_cmd_result None (Some err) FAILED true false None None
  | inl resp =>
      mk_cmd_result (if rs_accepted resp then rs_ctx resp else None) None (rs_result_code resp) true
        (rs_accepted resp) None None
  end.

Section Forward.
Context (auto_forwarding_max_connections : Z) (is_blocking_mode : bool).

Definition max_conns : nat := Z.to_nat (Z.max 1 auto_forwarding_max_connections).

Definition goto (t : nat) (pc : fwd_pc) (s : forwarding) : forwarding := s <| fwd_threads_ ::= <[ t := pc ]> |>.

Definition set_pkg (p : nat) (pk : auto_fwd_pkg) (s : forwarding) : forwarding := s <| pkgs_ ::= <[ p := pk ]> |>.

(** The connection is in use; a null one ends the request with an empty result. *)
Definition use_conn (t p : nat) (r : Z) (c : option Z) (pk : auto_fwd_pkg) (s : forwarding) : forwarding :=
  let s := set_pkg p (pk <| rpc_client_in_use_ ::= union {[ c ]} |>) s in
  match c with
  | Some c => goto t (F_send p r c true) s
  | None => (goto t F_done s) <| results_ ::= cons (r, cmd_result_of None OK) |>
  end.

(** [created] is what [create_client] returns, [abandoned] what the idle
    connection says. *)
Definition find_conn (t : nat) (l : Z) (p : nat) (r : Z) (created : option Z) (abandoned : bool)
    (pk : auto_fwd_pkg) (s : forwarding) : forwarding :=
  match rpc_client_idle_ pk with
  | c :: idle' =>
      use_conn t p r (if abandoned then created else Some c) (pk <| rpc_client_idle_ := idle' |>) s
  | [] =>
      if (base.size (rpc_client_in_use_ pk) <? max_conns)%nat then use_conn t p r created pk s
      else if is_blocking_mode then goto t (F_wait l p r) s
      else (goto t F_done s) <| auto_fwd_reqs_ ::= fun q => q ++ [r] |>
  end.

Definition put_back (c : Z) (pk : auto_fwd_pkg) : auto_fwd_pkg :=
  pk <| rpc_client_in_use_ ::= fun u => u ∖ {[ Some c ]} |> <| rpc_client_idle_ ::= cons c |>.

Definition auto_fwd_release_rpc_cli (t p : nat) (c : Z) (pk : auto_fwd_pkg) (s : forwarding) : forwarding :=
  if is_blocking_mode then goto t F_done (set_pkg p (put_back c pk <| ea_invoked_ := true |>) s)
  else
    match auto_fwd_reqs_ s with
    | r :: q => goto t (F_send p r c false) (s <| auto_fwd_reqs_ := q |>)
    | [] => goto t F_done (set_pkg p (put_back c pk) s)
    end.

(** A step of thread [t], if it can take one. *)
Definition fwd_thread (t : nat) (created : option Z) (abandoned : bool) (s : forwarding) : option forwarding :=
  match fwd_threads_ s !! t with
  | Some (F_lookup l r) =>
      match auto_fwd_pkgs_ s !! l with
      | Some p => Some (goto t (F_find l p r) s)
      | None =>
          let p := fresh (dom (pkgs_ s)) in
          Some (goto t (F_find l p r) ((set_pkg p fwd_pkg_new s) <| auto_fwd_pkgs_ ::= <[ l := p ]> |>))
      end
  | Some (F_find l p r) => pk ← pkgs_ s !! p; Some (find_conn t l p r created abandoned pk s)
  | Some (F_wait l p r) =>
      pk ← pkgs_ s !! p;
      Some (goto t (F_find l p r) (set_pkg p (pk <| ea_invoked_ := false |>) s))
  | Some (F_send p r c by_user) =>
      Some ((goto t (if by_user && is_blocking_mode then F_get r else F_done) s)
              <| on_wire_ ::= fun w => w ++ [(c, p, r)] |>)
  | Some (F_get r) => if bool_decide (r ∈ map fst (results_ s)) then Some (goto t F_done s) else None
  | Some (F_release p c) => pk ← pkgs_ s !! p; Some (auto_fwd_release_rpc_cli t p c pk s)
  | Some F_done | None => None
  end.

(** A user's request for the leader [l] ([UserCmd.Forward_to]). *)
Definition fwd_submit (l r : Z) (s : forwarding) : forwarding :=
  s <| fwd_threads_ ::= fun ts => ts ++ [F_lookup l r] |> <| submitted_ ::= fun l => l ++ [r] |>.

(** The handler of the [i]th request under way: it sets the result and releases
    the connection. *)
Definition auto_fwd_resp_handler (i : nat) (resp : resp_msg + Z) (s : forwarding) : option forwarding :=
  match on_wire_ s !! i with
  | Some (c, p, r) =>
      Some (s <| on_wire_ ::= delete i |> <| results_ ::= cons (r, fwd_result resp) |>
              <| fwd_threads_ ::= fun ts => ts ++ [F_release p c] |>)
  | None => None
  end.

(** The end of forwarding in [shutdown]: the queue, then the packages. *)
Definition clear_auto_fwd_reqs (s : forwarding) : forwarding := s <| auto_fwd_reqs_ := [] |>.

Definition cleanup_auto_fwd_pkgs (s : forwarding) : forwarding :=
  s <| pkgs_ ::= fun m => map_imap (fun p pk =>
         Some (if bool_decide (p ∈ map snd (map_to_list (auto_fwd_pkgs_ s))) then mk_fwd_pkg [] ∅ true else pk)) m |>
    <| auto_fwd_pkgs_ := ∅ |>.

(** A connection that nobody has. *)
Definition new_conn (c : Z) (s : forwarding) : Prop :=
  map_Forall (fun _ pk => (c ∉ rpc_client_idle_ pk) /\ (Some c ∉ rpc_client_in_use_ pk)) (pkgs_ s).

Inductive fwd_step : forwarding -> forwarding -> Prop :=
| fwd_step_thread t created abandoned s s' :
    (forall c, created = Some c -> new_conn c s) ->
    fwd_thread t created abandoned s = Some s' -> fwd_step s s'
| fwd_step_submit l r s : fwd_step s (fwd_submit l r s)
| fwd_step_respond i resp s s' : auto_fwd_resp_handler i resp s = Some s' -> fwd_step s s'.

Definition fwd_run : forwarding -> forwarding -> Prop := rtc fwd_step.

(** * The invariant *)

(** The connections of the package [p] that a thread or a request under way has. *)
Definition pc_conns (p : nat) (pc : fwd_pc) : list Z :=
  match pc with
  | F_send q _ c _ | F_release q c => if decide (p = q) then [c] else []
  | _ => []
  end.

Definition wire_conns (p : nat) (w : Z * nat * Z) : list Z := if decide (p = w.1.2) then [w.1.1] else [].

Definition held (p : nat) (s : forwarding) : list Z :=
  concat (map (pc_conns p) (fwd_threads_ s)) ++ concat (map (wire_conns p) (on_wire_ s)).

(** The request a thread is about to do something with. *)
Definition pc_req (pc : fwd_pc) : list Z :=
  match pc with F_lookup _ r | F_find _ _ r | F_wait _ _ r | F_send _ r _ _ => [r] | _ => [] end.

Definition requests (s : forwarding) : list Z :=
  concat (map pc_req (fwd_threads_ s)) ++ auto_fwd_reqs_ s ++ map snd (on_wire_ s) ++ map fst (results_ s).

(** A package: the connections in use are those that somebody has, and null
    ones. *)
Record pkg_inv (pk : auto_fwd_pkg) (h : list Z) : Prop := {
  pi_distinct : NoDup (rpc_client_idle_ pk ++ h);
  pi_held : forall c, Some c ∈ rpc_client_in_use_ pk <-> c ∈ h;
  pi_bound : (length (rpc_client_idle_ pk) + base.size (rpc_client_in_use_ pk) <= max_conns)%nat
}.

(** The slots of null connections. *)
Definition null_slot (s : forwarding) : Prop :=
  exists p pk, pkgs_ s !! p = Some pk /\ None ∈ rpc_client_in_use_ pk.

Definition busy (s : forwarding) : Prop := exists p c, c ∈ held p s.

Record fwd_inv (s : forwarding) : Prop := {
  fi_pkg p pk : pkgs_ s !! p = Some pk -> pkg_inv pk (held p s);
  fi_held p : pkgs_ s !! p = None -> held p s = [];
  fi_queue : auto_fwd_reqs_ s <> [] -> busy s \/ null_slot s;
  fi_mode : is_blocking_mode = true -> auto_fwd_reqs_ s = [];
  fi_requests : requests s ≡ₚ submitted_ s
}.

Lemma pkg_inv_perm pk h h' : h ≡ₚ h' -> pkg_inv pk h -> pkg_inv pk h'.
Proof. intros P []. split; [by rewrite <- P|intros c; by rewrite <- P|done]. Qed.

(** A thread moves on: what is held and asked for by the others stays. *)
Lemma goto_held p t pc pc' s : fwd_threads_ s !! t = Some pc ->
  held p (goto t pc' s) ++ pc_conns p pc ≡ₚ held p s ++ pc_conns p pc'.
Proof.
  intros E. unfold held. cbn. pose proof (concat_map_insert (pc_conns p) _ t pc pc' E) as P.
  transitivity ((concat (map (pc_conns p) (<[t := pc']> (fwd_threads_ s))) ++ pc_conns p pc)
    ++ concat (map (wire_conns p) (on_wire_ s))); [solve_Permutation|]. rewrite P. solve_Permutation.
Qed.

Lemma goto_requests t pc pc' s : fwd_threads_ s !! t = Some pc ->
  requests (goto t pc' s) ++ pc_req pc ≡ₚ requests s ++ pc_req pc'.
Proof.
  intros E. unfold requests. cbn. pose proof (concat_map_insert pc_req _ t pc pc' E) as P.
  set (rest := auto_fwd_reqs_ s ++ _). clearbody rest.
  transitivity ((concat (map pc_req (<[t := pc']> (fwd_threads_ s))) ++ pc_req pc) ++ rest); [solve_Permutation|].
  rewrite P. solve_Permutation.
Qed.

(** A step that changes one package. *)
Lemma pkg_step p pk' s s' :
  fwd_inv s -> pkgs_ s' = <[ p := pk' ]> (pkgs_ s) ->
  (forall q, q <> p -> held q s' ≡ₚ held q s) -> pkg_inv pk' (held p s') ->
  (auto_fwd_reqs_ s' <> [] -> busy s' \/ null_slot s') ->
  (is_blocking_mode = true -> auto_fwd_reqs_ s' = []) -> requests s' ≡ₚ submitted_ s' -> fwd_inv s'.
Proof.
  intros I Ep Hq Hp Hb Hm Hr. split; [| |done..]; intros q.
  - intros pk. rewrite Ep. destruct (decide (p = q)) as [<-|Hne].
    + rewrite lookup_insert_eq. by intros [= <-].
    + rewrite lookup_insert_ne by done. intros E. eapply pkg_inv_perm; [by rewrite Hq|]. by apply (fi_pkg _ I).
  - rewrite Ep. intros [E Hne]%lookup_insert_None. apply Permutation_nil_r. rewrite Hq by done.
    by rewrite (fi_held _ I).
Qed.

(** A step that changes none. *)
Lemma thread_step s s' :
  fwd_inv s -> pkgs_ s' = pkgs_ s -> (forall q, held q s' ≡ₚ held q s) ->
  auto_fwd_reqs_ s' = auto_fwd_reqs_ s -> requests s' ≡ₚ submitted_ s' -> fwd_inv s'.
Proof.
  intros I Ep Hh Eq Hr. split; [| | | |done].
  - intros p pk. rewrite Ep. intros E. eapply pkg_inv_perm; [by rewrite Hh|]. by apply (fi_pkg _ I).
  - intros p. rewrite Ep. intros E. apply Permutation_nil_r. by rewrite Hh, (fi_held _ I).
  - rewrite Eq. intros H. destruct (fi_queue _ I H) as [(p & c & Hc)|(p & pk & E & Hn)].
    + left. exists p, c. by rewrite Hh.
    + right. exists p, pk. by rewrite Ep.
  - rewrite Eq. apply (fi_mode _ I).
Qed.

(** A thread that neither takes nor gives a connection, nor a request. *)
Lemma goto_step t pc pc' s :
  fwd_inv s -> fwd_threads_ s !! t = Some pc -> (forall p, pc_conns p pc = pc_conns p pc') ->
  pc_req pc = pc_req pc' -> fwd_inv (goto t pc' s).
Proof.
  intros I E Hc Hr. apply (thread_step s); [done|done| |done|].
  - intros q. apply (Permutation_app_inv_r (pc_conns q pc)). rewrite goto_held by done. by rewrite Hc.
  - apply (Permutation_app_inv_r (pc_req pc)). rewrite goto_requests by done. by rewrite Hr, (fi_requests _ I).
Qed.

Lemma held_take p t l q r c by_user s : fwd_threads_ s !! t = Some (F_find l q r) ->
  held p (goto t (F_send q r c by_user) s) ≡ₚ (if decide (p = q) then [c] else []) ++ held p s.
Proof.
  intros E. pose proof (goto_held p t _ (F_send q r c by_user) s E) as P. cbn in P. rewrite app_nil_r in P.
  rewrite P. by rewrite Permutation_app_comm.
Qed.

Lemma held_same p t pc pc' s : fwd_threads_ s !! t = Some pc -> pc_conns p pc = [] -> pc_conns p pc' = [] ->
  held p (goto t pc' s) ≡ₚ held p s.
Proof.
  intros E H1 H2. pose proof (goto_held p t pc pc' s E) as P. rewrite H1, H2, !app_nil_r in P. done.
Qed.

(** The connection [c], null or not, is taken into use. *)
Lemma use_conn_inv t l p r c pk pk1 s :
  fwd_inv s -> fwd_threads_ s !! t = Some (F_find l p r) -> pkgs_ s !! p = Some pk ->
  rpc_client_in_use_ pk1 = rpc_client_in_use_ pk -> NoDup (rpc_client_idle_ pk1 ++ held p s) ->
  (length (rpc_client_idle_ pk1) + base.size (rpc_client_in_use_ pk1) < max_conns)%nat ->
  (forall c0, c = Some c0 -> c0 ∉ rpc_client_idle_ pk1 ++ held p s) ->
  fwd_inv (use_conn t p r c pk1 s).
Proof.
  intros I E Ep Eu N Hm Hc. pose proof (fi_pkg _ I p pk Ep) as [_ Hh _]. rewrite <- Eu in Hh.
  assert (base.size ({[ c ]} ∪ rpc_client_in_use_ pk1) <= 1 + base.size (rpc_client_in_use_ pk1))%nat as Hs.
  { rewrite <- (size_singleton c (C := gset (option Z))).
    rewrite size_union_alt. apply Nat.add_le_mono_l, subseteq_size. set_solver. }
  unfold use_conn. destruct c as [c|].
  - specialize (Hc c eq_refl). eapply (pkg_step p _ s); [done|done| | | | |].
    + intros q Hq. rewrite (held_take q t l p) by done. by rewrite decide_False.
    + apply (pkg_inv_perm _ (c :: held p s)).
      { rewrite (held_take p t l p) by done. by rewrite decide_True. }
      split; cbn.
      * rewrite <- Permutation_middle. by apply NoDup_cons.
      * intros d. rewrite elem_of_cons, <- Hh. set_solver.
      * lia.
    + intros _. left. exists p, c. rewrite (held_take p t l p) by done. rewrite decide_True by done. left.
    + apply (fi_mode _ I).
    + apply (Permutation_app_inv_r [r]). etrans; [by apply (goto_requests t (F_find l p r))|].
      by rewrite (fi_requests _ I).
  - pose proof (fun q => held_same q t (F_find l p r) F_done
      (set_pkg p (pk1 <| rpc_client_in_use_ ::= union {[ None ]} |>) s) E eq_refl eq_refl) as Hd.
    eapply (pkg_step p _ s); [done|done|by intros q _; apply Hd| | | |].
    + apply (pkg_inv_perm _ (held p s)); [symmetry; apply Hd|]. split; cbn; [done| |lia].
      intros d. rewrite <- Hh. set_solver.
    + intros _. right. eexists p, _. cbn. rewrite lookup_insert_eq. split; [done|]. cbn. set_solver.
    + apply (fi_mode _ I).
    + etrans; [|apply (fi_requests _ I)]. pose proof (goto_requests t (F_find l p r) F_done s E) as P.
      rewrite app_nil_r in P. rewrite <- P. unfold requests. cbn. solve_Permutation.
Qed.

Lemma find_conn_inv t l p r created abandoned pk s :
  fwd_inv s -> fwd_threads_ s !! t = Some (F_find l p r) -> pkgs_ s !! p = Some pk ->
  (forall c, created = Some c -> new_conn c s) -> fwd_inv (find_conn t l p r created abandoned pk s).
Proof.
  intros I E Ep Hn. pose proof (fi_pkg _ I p pk Ep) as [N Hh Hb].
  assert (forall c, created = Some c -> c ∉ rpc_client_idle_ pk ++ held p s) as Hf.
  { intros c Ec. destruct (Hn c Ec p pk Ep) as (H1 & H2). rewrite Hh in H2. by apply not_elem_of_app. }
  unfold find_conn. destruct (rpc_client_idle_ pk) as [|c idle'] eqn:Ei; cbn [app length] in *.
  - destruct (_ <? _)%nat eqn:Es.
    { apply Nat.ltb_lt in Es. eapply use_conn_inv; rewrite ?Ei; eauto. }
    apply Nat.ltb_ge in Es. destruct is_blocking_mode eqn:Em; [by apply (goto_step t (F_find l p r))|].
    pose proof (fun q => held_same q t (F_find l p r) F_done s E eq_refl eq_refl) as Hd.
    assert (busy s \/ null_slot s) as Hw.
    { destruct (set_choose_L (rpc_client_in_use_ pk)) as ([c|] & Hc).
      { intros He. rewrite He, size_empty in Es. unfold max_conns in Es. lia. }
      - left. exists p, c. by apply Hh.
      - right. by exists p, pk. }
    split; cbn.
    + intros q pq Eq. eapply pkg_inv_perm; [symmetry; apply Hd|]. by apply (fi_pkg _ I).
    + intros q Eq. apply Permutation_nil_r. etrans; [apply Hd|]. by rewrite (fi_held _ I).
    + intros _. destruct Hw as [(q & c & Hc)|Hw]; [left|by right]. exists q, c.
      by eapply elem_of_Permutation_proper; [apply Hd|].
    + congruence.
    + etrans; [|apply (fi_requests _ I)]. pose proof (goto_requests t (F_find l p r) F_done s E) as P.
      rewrite app_nil_r in P. rewrite <- P. unfold requests. cbn. solve_Permutation.
  - apply NoDup_cons in N as (Nc & N). eapply use_conn_inv; [done..| | |]; cbn.
    + done.
    + lia.
    + intros c0. destruct abandoned.
      * intros Ec. specialize (Hf c0 Ec). set_solver.
      * by intros [= <-].
Qed.

(** A connection is given back. *)
Lemma put_back_inv t p c pk pk1 s :
  fwd_inv s -> fwd_threads_ s !! t = Some (F_release p c) -> pkgs_ s !! p = Some pk ->
  auto_fwd_reqs_ s = [] -> rpc_client_idle_ pk1 = rpc_client_idle_ (put_back c pk) ->
  rpc_client_in_use_ pk1 = rpc_client_in_use_ (put_back c pk) ->
  fwd_inv (goto t F_done (set_pkg p pk1 s)).
Proof.
  intros I E Ep Eq E1 E2. pose proof (fi_pkg _ I p pk Ep) as [N Hh Hb].
  pose proof (fun q => goto_held q t _ F_done (set_pkg p pk1 s) E) as P. cbn in P.
  assert (held p s ≡ₚ c :: held p (goto t F_done (set_pkg p pk1 s))) as Hp.
  { specialize (P p). rewrite decide_True, app_nil_r in P by done. rewrite Permutation_app_comm in P. by symmetry. }
  eapply (pkg_step p pk1 s); [done|done| | |done|done|].
  - intros q Hq. specialize (P q). rewrite decide_False, !app_nil_r in P by done. exact P.
  - set (h := held p (goto t F_done (set_pkg p pk1 s))) in *.
    assert (NoDup (c :: rpc_client_idle_ pk ++ h)) as N' by (rewrite Permutation_middle; by rewrite <- Hp).
    assert (c ∉ h) as Hc by (apply NoDup_cons in N' as (Hc & _); set_solver).
    assert (Some c ∈ rpc_client_in_use_ pk) as Hi by (rewrite Hh, Hp; left).
    split; rewrite ?E1, ?E2; cbn.
    + exact N'.
    + intros d. rewrite elem_of_difference, elem_of_singleton, Hh, Hp, elem_of_cons. naive_solver.
    + rewrite size_difference by set_solver. rewrite size_singleton.
      assert (base.size (rpc_client_in_use_ pk) <> 0)%nat; [|lia].
      intros Hz%size_empty_inv. set_solver.
  - etrans; [|apply (fi_requests _ I)]. pose proof (goto_requests t _ F_done (set_pkg p pk1 s) E) as R. cbn in R.
    by rewrite !app_nil_r in R.
Qed.

Lemma release_inv t p c pk s :
  fwd_inv s -> fwd_threads_ s !! t = Some (F_release p c) -> pkgs_ s !! p = Some pk ->
  fwd_inv (auto_fwd_release_rpc_cli t p c pk s).
Proof.
  intros I E Ep. unfold auto_fwd_release_rpc_cli. destruct is_blocking_mode eqn:Em.
  { eapply put_back_inv; eauto. by apply (fi_mode _ I). }
  destruct (auto_fwd_reqs_ s) as [|r q] eqn:Eq; [by eapply put_back_inv|].
  set (s1 := s <| auto_fwd_reqs_ := q |>).
  assert (forall u, held u (goto t (F_send p r c false) s1) ≡ₚ held u s) as Hd.
  { intros u. apply (Permutation_app_inv_r (pc_conns u (F_release p c))).
    by rewrite (goto_held u t (F_release p c)) by done. }
  split; cbn.
  - intros u pu Eu. eapply pkg_inv_perm; [symmetry; apply Hd|]. by apply (fi_pkg _ I).
  - intros u Eu. apply Permutation_nil_r. etrans; [apply Hd|]. by rewrite (fi_held _ I).
  - intros _. left. exists p, c. eapply elem_of_Permutation_proper; [apply Hd|].
    destruct (fi_pkg _ I p pk Ep) as [_ _ _]. unfold held. apply elem_of_app. left.
    apply list_elem_of_In, in_concat. exists [c]. split; [|by left]. apply in_map_iff.
    exists (F_release p c). split; [cbn; by rewrite decide_True|]. by apply list_elem_of_In, list_elem_of_lookup; exists t.
  - congruence.
  - etrans; [|apply (fi_requests _ I)]. pose proof (goto_requests t _ (F_send p r c false) s1 E) as R.
    cbn in R. rewrite app_nil_r in R. rewrite R. unfold requests, s1. rewrite Eq. cbn. solve_Permutation.
Qed.

Lemma fwd_send_inv t p r c pc s :
  fwd_inv s -> fwd_threads_ s !! t = Some (F_send p r c pc) ->
  fwd_inv ((goto t (if pc && is_blocking_mode then F_get r else F_done) s)
             <| on_wire_ ::= fun w => w ++ [(c, p, r)] |>).
Proof.
  intros I E. set (pc' := if _ : bool then F_get r else F_done).
  assert (pc_req pc' = [] /\ forall q, pc_conns q pc' = []) as (R' & C') by (by unfold pc'; destruct (_ && _)).
  apply (thread_step s); [done|done| |done|].
  - intros q. pose proof (goto_held q t _ pc' s E) as P. rewrite C', app_nil_r in P. rewrite <- P.
    unfold held. cbn [fwd_threads_ on_wire_ goto]. cbn. rewrite map_app, concat_app. cbn. rewrite app_nil_r, app_assoc.
    reflexivity.
  - etrans; [|apply (fi_requests _ I)]. pose proof (goto_requests t _ pc' s E) as P. rewrite R', app_nil_r in P.
    rewrite <- P. unfold requests. cbn. rewrite map_app. cbn. solve_Permutation.
Qed.

Lemma respond_inv i resp s s' : fwd_inv s -> auto_fwd_resp_handler i resp s = Some s' -> fwd_inv s'.
Proof.
  intros I. unfold auto_fwd_resp_handler. destruct (on_wire_ s !! i) as [[[c p] r]|] eqn:E; [|done].
  intros [= <-]. pose proof (delete_Permutation (on_wire_ s) i _ E) as D.
  apply (thread_step s); [done|done| |done|].
  - intros q. unfold held. cbn. rewrite map_app, concat_app. cbn. rewrite app_nil_r, <- app_assoc.
    apply Permutation_app_head.
    transitivity (concat (map (wire_conns q) ((c, p, r) :: delete i (on_wire_ s)))); [done|].
    rewrite <- !flat_map_concat_map. apply Permutation_flat_map. by symmetry.
  - etrans; [|apply (fi_requests _ I)]. unfold requests. cbn. rewrite map_app, concat_app. cbn.
    rewrite app_nil_r. do 2 apply Permutation_app_head.
    transitivity (map snd ((c, p, r) :: delete i (on_wire_ s)) ++ map fst (results_ s)).
    { cbn. solve_Permutation. }
    apply Permutation_app_tail, Permutation_map. by symmetry.
Qed.

Lemma lookup_inv t l r s :
  fwd_inv s -> fwd_threads_ s !! t = Some (F_lookup l r) ->
  let p := fresh (dom (pkgs_ s)) in
  fwd_inv (goto t (F_find l p r) ((set_pkg p fwd_pkg_new s) <| auto_fwd_pkgs_ ::= <[ l := p ]> |>)).
Proof.
  intros I E. cbv zeta. set (p := fresh _).
  assert (pkgs_ s !! p = None) as Ep by apply not_elem_of_dom, is_fresh.
  set (s1 := (set_pkg p fwd_pkg_new s) <| auto_fwd_pkgs_ ::= <[ l := p ]> |>).
  apply (goto_step t (F_lookup l r)); [|done|done|done].
  eapply (pkg_step p fwd_pkg_new s); [done|done|done| | |apply (fi_mode _ I)|apply (fi_requests _ I)].
  - change (held p s1) with (held p s). rewrite (fi_held _ I p Ep). split; cbn; [constructor|set_solver|].
    change (base.size (∅ : gset (option Z))) with 0%nat. lia.
  - intros H. destruct (fi_queue _ I H) as [?|(q & pk & Eq & Hn)]; [by left|right].
    exists q, pk. split; [|done]. cbn. rewrite lookup_insert_ne by congruence. done.
Qed.

Lemma fwd_wait_inv t l p r pk s :
  fwd_inv s -> fwd_threads_ s !! t = Some (F_wait l p r) -> pkgs_ s !! p = Some pk ->
  fwd_inv (goto t (F_find l p r) (set_pkg p (pk <| ea_invoked_ := false |>) s)).
Proof.
  intros I E Ep. apply (goto_step t (F_wait l p r)); [|done|done|done].
  eapply (pkg_step p _ s); [done|done|done| | |apply (fi_mode _ I)|apply (fi_requests _ I)].
  - destruct (fi_pkg _ I p pk Ep). by split.
  - intros H. destruct (fi_queue _ I H) as [?|(q & pk' & Eq & Hn)]; [by left|right]. destruct (decide (p = q)) as [<-|].
    + eexists p, _. cbn. rewrite lookup_insert_eq. split; [done|]. rewrite Ep in Eq. by injection Eq as ->.
    + exists q, pk'. cbn. by rewrite lookup_insert_ne.
Qed.

Lemma submit_inv l r s : fwd_inv s -> fwd_inv (fwd_submit l r s).
Proof.
  intros I. assert (forall q, held q (fwd_submit l r s) ≡ₚ held q s) as Hh.
  { intros q. unfold held, fwd_submit. cbn. rewrite map_app, concat_app. cbn. by rewrite app_nil_r. }
  apply (thread_step s); [done|done|done|done|].
  unfold requests, fwd_submit. cbn. rewrite map_app, concat_app. cbn. rewrite <- (fi_requests _ I). unfold requests.
  solve_Permutation.
Qed.

Lemma thread_inv t created abandoned s s' :
  fwd_inv s -> (forall c, created = Some c -> new_conn c s) ->
  fwd_thread t created abandoned s = Some s' -> fwd_inv s'.
Proof.
  intros I Hn. unfold fwd_thread. destruct (fwd_threads_ s !! t) as [[l r|l p r|l p r|p r c by_user|r|p c|]|] eqn:E; [..|done].
  - destruct (auto_fwd_pkgs_ s !! l) as [p|]; intros [= <-]; [by apply (goto_step t (F_lookup l r))|by apply lookup_inv].
  - destruct (pkgs_ s !! p) as [pk|] eqn:Ep; [|done]. intros [= <-]. by apply find_conn_inv.
  - destruct (pkgs_ s !! p) as [pk|] eqn:Ep; [|done]. intros [= <-]. by apply fwd_wait_inv.
  - intros [= <-]. by apply fwd_send_inv.
  - case_bool_decide; [|done]. intros [= <-]. by apply (goto_step t (F_get r)).
  - destruct (pkgs_ s !! p) as [pk|] eqn:Ep; [|done]. intros [= <-]. by apply release_inv.
  - done.
Qed.

Lemma fwd_run_inv s : fwd_run forwarding_new s -> fwd_inv s.
Proof.
  intros R. remember forwarding_new as s0 eqn:E0. assert (fwd_inv s0) as I.
  { subst s0. by split. }
  clear E0. induction R as [|s1 s2 s3 St R IH]; [done|]. apply IH. destruct St.
  - by eapply thread_inv.
  - by apply submit_inv.
  - by eapply respond_inv.
Qed.

(** C15: in every interleaving of threads and responses, a package has at most the
    maximal number of connections, each is idle or used by one request, and no
    request is lost or answered twice.  While requests are queued, a connection
    is in use or a slot is taken by a null connection, and the next connection
    that is released sends the first request of the queue. *)
Theorem forwarding_serves s : fwd_run forwarding_new s ->
  (forall p pk, pkgs_ s !! p = Some pk -> pkg_inv pk (held p s)) /\
  (requests s ≡ₚ submitted_ s) /\
  (auto_fwd_reqs_ s <> [] -> busy s \/ null_slot s) /\
  (forall t p c r q, fwd_threads_ s !! t = Some (F_release p c) -> auto_fwd_reqs_ s = r :: q ->
    exists s', fwd_thread t None false s = Some s' /\ fwd_threads_ s' !! t = Some (F_send p r c false) /\
      auto_fwd_reqs_ s' = q).
Proof.
  intros I%fwd_run_inv. split; [apply (fi_pkg _ I)|]. split; [apply (fi_requests _ I)|]. split; [apply (fi_queue _ I)|].
  intros t p c r q E Eq. unfold fwd_thread. rewrite E.
  destruct (pkgs_ s !! p) as [pk|] eqn:Ep.
  - eexists. split; [done|]. unfold auto_fwd_release_rpc_cli. rewrite Eq.
    destruct is_blocking_mode eqn:Em; [by rewrite (fi_mode _ I) in Eq|]. split; [|done]. cbn.
    apply list_lookup_insert_eq. by eapply lookup_lt_Some.
  - pose proof (goto_held p t _ F_done s E) as P. rewrite (fi_held _ I p Ep) in P. cbn in P.
    rewrite decide_True in P by done. by apply Permutation_sym, Permutation_nil, app_eq_nil in P as [_ ?].
Qed.

(** * Runs *)

Inductive fwd_act :=
| A_thread (t : nat) (created : option Z) (abandoned : bool)
| A_submit (l r : Z)
| A_respond (i : nat) (resp : resp_msg + Z).

Definition fwd_do (a : fwd_act) (s : forwarding) : option forwarding :=
  match a with
  | A_thread t (Some c) ab => if bool_decide (new_conn c s) then fwd_thread t (Some c) ab s else None
  | A_thread t None ab => fwd_thread t None ab s
  | A_submit l r => Some (fwd_submit l r s)
  | A_respond i resp => auto_fwd_resp_handler i resp s
  end.

Fixpoint fwd_play (l : list fwd_act) (s : forwarding) : option forwarding :=
  match l with [] => Some s | a :: l' => s1 ← fwd_do a s; fwd_play l' s1 end.

Lemma fwd_play_run l s s' : fwd_play l s = Some s' -> fwd_run s s'.
Proof.
  revert s. induction l as [|a l IH]; intros s; cbn; [by intros [= <-]|].
  destruct (fwd_do a s) as [s1|] eqn:E; [|done]. intros H. eapply rtc_l; [|by apply IH].
  destruct a as [t [c|] ab|l' r|i resp]; cbn in E.
  - case_bool_decide; [|done]. eapply fwd_step_thread; [|exact E]. by intros ? [= <-].
  - eapply fwd_step_thread; [|exact E]. done.
  - injection E as <-. apply fwd_step_submit.
  - exact (fwd_step_respond _ _ _ _ E).
Qed.

End Forward.

(** With one connection: request 100 is sent, 101 waits; the connection fails,
    and 101 is sent over it. *)
Definition two_requests : list fwd_act :=
  [A_submit 1 100; A_thread 0 None false; A_thread 0 (Some 7) false; A_thread 0 None false;
   A_submit 1 101; A_thread 1 None false; A_thread 1 None false; A_respond 0 (inr 5)].

Lemma forwarding_serves_witness :
  exists s, fwd_play 1 false two_requests forwarding_new = Some s /\ auto_fwd_reqs_ s = [101] /\
    (requests s ≡ₚ [100; 101]) /\
    exists s', fwd_thread 1 false 2 None false s = Some s' /\ fwd_threads_ s' !! 2%nat = Some (F_send 0 101 7 false).
Proof.
  destruct (fwd_play 1 false two_requests forwarding_new) as [s|] eqn:E; [|by vm_compute in E].
  exists s. split; [done|]. destruct (forwarding_serves 1 false s) as (_ & R & _ & H); [by eapply fwd_play_run|].
  vm_compute in E. injection E as <-. split; [done|]. split; [exact R|].
  destruct (H 2%nat 0%nat 7 101 [] eq_refl eq_refl) as (s' & E' & T & _). by exists s'.
Defined.

(** [create_client] fails for request 100: its user is told [OK].  The null
    connection keeps the only slot, so that request 101 is queued, and nothing
    will ever send it. *)
Example null_connection_keeps_slot :
  exists s, fwd_play 1 false [A_submit 1 100; A_thread 0 None false; A_thread 0 None false;
                              A_submit 1 101; A_thread 1 None false; A_thread 1 None false] forwarding_new = Some s /\
    results_ s = [(100, cmd_result_of None OK)] /\ auto_fwd_reqs_ s = [101] /\ on_wire_ s = [] /\
    forall t created abandoned, fwd_thread 1 false t created abandoned s = None.
Proof.
  eexists. split; [vm_compute; reflexivity|]. do 3 (split; [done|]). by intros [|[|t]].
Qed.

(** The shut-down empties the queue: request 101 has no result and is nowhere. *)
Example shutdown_forgets_queued :
  exists s, fwd_play 1 false (take 7 two_requests) forwarding_new = Some s /\
    (requests s ≡ₚ [100; 101]) /\ requests (cleanup_auto_fwd_pkgs (clear_auto_fwd_reqs s)) = [100].
Proof. eexists. split; [vm_compute; reflexivity|]. split; [vm_compute; apply perm_swap|done]. Qed.
