(* ===== verification/Votes.v ===== *)
(** What the voting operations do to the ballot of a server: its term and vote,
    the votes it has counted, and the vote requests it sends. *)
From S2P Require Import Prelude Buffer Serializer Codec Messages Peer LogStore Server.
From S2P Require Import Replication Election Follower Leader Frame.

(** The vote requests among the events, in the order of the trace. *)
Definition vote_reqs (evs : list event) : list req_msg :=
  omap (fun e => match e with
                 | Ev_peer _ (Rpc_send _ r _ _ _) =>
                     if decide (rq_type r = request_vote_request) then Some r else None
                 | _ => None
                 end) evs.

Definition saves (evs : list event) : list (Z * Z) :=
  omap (fun e => match e with Ev_save_state st => Some (vote_of st) | _ => None end) evs.

Lemma vote_reqs_app a b : vote_reqs (a ++ b) = vote_reqs a ++ vote_reqs b.
Proof. apply omap_app. Qed.

Lemma saves_app a b : saves (a ++ b) = saves a ++ saves b.
Proof. apply omap_app. Qed.

Lemma quiet_reqs v evs : Forall (quiet v) evs -> vote_reqs evs = [].
Proof.
  induction 1 as [|e evs H]; [done|].
  destruct e; cbn in *; try done. destruct o; cbn in *; try done.
  by rewrite decide_False.
Qed.

Lemma quiet_saves v evs : Forall (quiet v) evs -> Forall (eq v) (saves evs).
Proof.
  induction 1 as [|e evs H]; [done|].
  destruct e; cbn in *; try done. constructor; [by symmetry|done].
Qed.

Section Votes.
Context {L : Type} `{LS : LogStore L} `{EV : Env} `{U : Uninit}.

#[local] Abbreviation server := (raft_server L).
#[local] Abbreviation SM := (M (raft_server L)).
#[local] Abbreviation calm := (quietly (L := L) (fun _ => True)).

(** From [s] to [s'] the ballot became [v] with [g] votes counted; [reqs] were
    sent.  The ballots saved on the way are all [v], and [v] was saved unless
    it is the one of [s]. *)
Record moved (v : Z * Z) (g : Z) (reqs : list req_msg) (s s' : server) : Prop := {
  mv_steady : steady s';
  mv_id : id_ s' = id_ s;
  mv_vote : vote_of (state_ s') = v;
  mv_inc : inc_term_cb_ (state_ s') = inc_term_cb_ (state_ s);
  mv_granted : votes_granted_ s' = g;
  mv_learner : im_learner_ s' = im_learner_ s;
  mv_params : params_ s' = params_ s;
  mv_peers : config_ <$> peers_ s' = config_ <$> peers_ s;
  mv_role : role_ s' = leader -> (fst v = term_ (state_ s) /\ role_ s = leader) \/ won s';
  mv_trace : exists evs, trace_ s' = evs ++ trace_ s /\ vote_reqs evs = reqs /\
    Forall (eq v) (saves evs) /\ (v = vote_of (state_ s) \/ v ∈ saves evs)
}.

Lemma framed_moved s s' :
  steady s -> framed s s' -> moved (vote_of (state_ s)) (votes_granted_ s) [] s s'.
Proof.
  intros Hs H. pose proof (framed_won s s' Hs H) as Hw. split; try by apply H.
  - intros Hr. destruct (fr_role _ _ H Hr); [by left|]. right. by apply Hw.
  - destruct (fr_trace _ _ H) as (evs & E & F). exists evs. split_and!;
      [done|by eapply quiet_reqs|by eapply quiet_saves|by left].
Qed.

Lemma moved_stay s : steady s -> moved (vote_of (state_ s)) (votes_granted_ s) [] s s.
Proof. intros Hs. apply framed_moved; [done|]. exact (reflexivity (R := frame) s Hs). Qed.

Lemma moved_framed v g reqs s1 s2 s3 :
  moved v g reqs s1 s2 -> frame s2 s3 -> moved v g reqs s1 s3.
Proof.
  intros [M1 M2 M3 M4 M5 M6 M7 M8 M9 M10] H. specialize (H M1).
  pose proof (framed_won s2 s3 M1 H) as Hw. destruct H as [F0 F1 F2 F3 F4 F5 F6 F7 F8 F9].
  split; try congruence.
  - intros Hr. destruct (F0 Hr) as [Hr2|?]; [|right; by apply Hw].
    destruct (M9 Hr2); [by left|]. right. by apply Hw.
  - destruct M10 as (e1 & E1 & R1 & S1 & D1), F9 as (e2 & E2 & Q2).
    exists (e2 ++ e1). rewrite M3 in Q2. split_and!.
    + by rewrite E2, E1, app_assoc.
    + by rewrite vote_reqs_app, (quiet_reqs v).
    + rewrite saves_app. apply Forall_app. split; [by apply quiet_saves|done].
    + destruct D1; [by left|]. right. rewrite saves_app. apply elem_of_app. by right.
Qed.

(** Running a framed operation after the ballot moved. *)
Lemma moved_run {A} v g reqs s1 s2 (m : SM A) :
  moved v g reqs s1 s2 -> calm m -> moved v g reqs s1 (run_state m s2).
Proof. intros H Hm. eapply moved_framed; [done|]. apply Hm. Qed.

(** ** Running a handler step by step *)

Lemma run_bind {A B} (m : SM A) (k : A -> SM B) s :
  run_state (bind m k) s
  = match m s with (Ok a, s') => run_state (k a) s' | (Throw _, s') => s' end.
Proof. unfold run_state, bind. by destruct (m s) as [[]]. Qed.

Lemma val_bind {A B} (m : SM A) (k : A -> SM B) s :
  run_val (bind m k) s
  = match m s with (Ok a, s') => run_val (k a) s' | (Throw e, _) => Throw e end.
Proof. unfold run_val, bind. by destruct (m s) as [[]]. Qed.

Lemma run_self {A} (k : server -> SM A) s : run_state (bind self k) s = run_state (k s) s.
Proof. done. Qed.

Lemma run_modify {A} f (k : unit -> SM A) s :
  run_state (bind (modify f) k) s = run_state (k tt) (f s).
Proof. done. Qed.

Lemma run_upd_state {A} f (k : unit -> SM A) s :
  run_state (bind (upd_state f) k) s = run_state (k tt) (s <| state_ ::= f |>).
Proof. done. Qed.

Lemma run_save {A} (k : unit -> SM A) s :
  run_state (bind save_state k) s
  = run_state (k tt) (s <| trace_ ::= cons (Ev_save_state (state_ s)) |>).
Proof. done. Qed.

(** ** update_term *)

Lemma update_term_moved t (s : server) :
  steady s -> term_ (state_ s) < t ->
  moved (t, -1) 0 [] s (run_state (update_term t) s).
Proof.
  intros Hs Ht. unfold update_term. rewrite run_self, ltb_true by done.
  rewrite run_modify, !run_upd_state, run_modify, run_save.
  match goal with |- moved _ _ _ _ (run_state _ ?x) => set (s1 := x) end.
  eapply moved_run; [|quiet]. clear Ht. destruct Hs as (A & B & C). split; try done.
  eexists [_]. split_and!; [done|done| |right; apply list_elem_of_singleton; done].
  by repeat constructor.
Qed.

Lemma update_term_same t (s : server) :
  t <= term_ (state_ s) -> update_term t s = (Ok false, s).
Proof. intros Ht. unfold update_term, bind, self. by rewrite ltb_false. Qed.

(** ** Counting votes *)

Lemma moved_count (s s' : server) :
  steady s ->
  id_ s' = id_ s -> state_ s' = state_ s -> im_learner_ s' = im_learner_ s ->
  params_ s' = params_ s -> peers_ s' = peers_ s -> role_ s' = role_ s ->
  srv_to_leave_ s' = srv_to_leave_ s -> trace_ s' = trace_ s ->
  moved (vote_of (state_ s)) (votes_granted_ s') [] s s'.
Proof.
  intros Hs Hi Hst Hl Hp Hps Hr Hle Ht. split; try congruence.
  - unfold steady. by rewrite Hp, Hle, Hps.
  - intros. left. split; [done|congruence].
  - exists []. split_and!; [done|done|done|by left].
Qed.

(** ** handle_vote_req *)

Definition denied (req : req_msg) (s : server) : resp_msg :=
  resp_msg_new (term_ (state_ s)) request_vote_response (id_ s) (rq_src req) 0 false.

Lemma handle_vote_req_eq req (s : server) :
  handle_vote_req req s =
  let '(r, l) := last_entry (log_store_ s) in
  let s1 := s <| log_store_ := l |> in
  match r with
  | Throw e => (Throw e, s1)
  | Ok last =>
      if vote_grant req last s1 && negb (priority_too_low req s1) then
        let s2 := s1 <| state_ ::= set_voted_for (rq_src req) |> in
        (Ok (accept (next_slot l) (denied req s)),
         s2 <| trace_ ::= cons (Ev_save_state (state_ s2)) |>)
      else (Ok (denied req s), s1)
  end.
Proof.
  unfold handle_vote_req, bind at 1, self at 1. unfold bind at 1, with_log.
  destruct (last_entry (log_store_ s)) as [[last|e] l]; [|done].
  unfold bind at 1, self at 1. cbn beta iota zeta.
  destruct (vote_grant req last _); [|done]. by destruct (priority_too_low req _).
Qed.

Lemma handle_vote_req_moves req (s : server) :
  steady s ->
  (frame s (run_state (handle_vote_req req) s) /\
   forall r, run_val (handle_vote_req req) s = Ok r -> rs_accepted r = false) \/
  (exists r, run_val (handle_vote_req req) s = Ok r /\
   rs_type r = request_vote_response /\ rs_accepted r = true /\
   rs_term r = term_ (state_ s) /\ rs_src r = id_ s /\ rs_dst r = rq_src req /\
   rq_term req = term_ (state_ s) /\
   (voted_for_ (state_ s) = rq_src req \/ voted_for_ (state_ s) = -1) /\
   moved (term_ (state_ s), rq_src req) (votes_granted_ s) []
     s (run_state (handle_vote_req req) s)).
Proof.
  intros Hs. unfold run_state, run_val. rewrite handle_vote_req_eq.
  destruct (last_entry (log_store_ s)) as [[last|e] l]; cycle 1.
  { left. split; [by apply frame_fields|done]. }
  cbn zeta. set (s1 := s <| log_store_ := l |>).
  destruct (vote_grant req last s1 && negb (priority_too_low req s1)) eqn:G; cycle 1.
  { left. split; [by apply frame_fields|]. by intros r [= <-]. }
  right. eexists. split; [done|]. unfold vote_grant in G. bool_to_prop. split_and!; try done.
  - destruct (orb_prop _ _ H1) as [E|E]; bool_to_prop; [by left|by right].
  - destruct Hs as (A & B & C). split; try done.
    + intros. by left.
    + eexists [_]. split_and!; [done|done|by repeat constructor|].
      right. by apply list_elem_of_singleton.
Qed.

(** ** handle_vote_resp *)

(** What one response adds to the count. *)
Definition counted (resp : resp_msg) (s : server) : bool :=
  negb (election_completed_ s) && (rs_term resp =? term_ (state_ s)) && rs_accepted resp.

Lemma handle_vote_resp_moves resp (s : server) :
  steady s -> is_s32 (votes_granted_ s + 1) ->
  moved (vote_of (state_ s)) (votes_granted_ s + (if counted resp s then 1 else 0)) []
    s (run_state (handle_vote_resp resp) s).
Proof.
  intros Hs Hg. unfold handle_vote_resp, counted. rewrite run_self.
  destruct (election_completed_ s) eqn:Ec; cbn [negb andb].
  { rewrite Z.add_0_r. apply moved_stay; done. }
  destruct (rs_term resp =? term_ (state_ s)) eqn:Et; cbn [negb andb]; cycle 1.
  { rewrite Z.add_0_r. apply moved_stay; done. }
  rewrite !run_modify, run_self.
  match goal with |- moved _ _ _ _ (run_state _ ?x) => set (s1 := x) end.
  assert (moved (vote_of (state_ s)) (votes_granted_ s1) [] s s1) as H1.
  { subst s1. by destruct (get_num_voting_members _ <=? _); apply moved_count. }
  assert (votes_granted_ s1 = votes_granted_ s + (if rs_accepted resp then 1 else 0)) as E1.
  { subst s1. destruct (get_num_voting_members _ <=? _), (rs_accepted resp); cbn;
      rewrite ?s32_small by done; lia. }
  rewrite <- E1. clearbody s1.
  destruct (get_quorum_for_election s1 + 1 <=? votes_granted_ s1) eqn:W; bool_to_prop; [|exact H1].
  unfold when. rewrite run_modify. eapply moved_framed; [exact H1|].
  etransitivity; [|apply become_leader_frame].
  - by apply frame_fields.
  - change (get_quorum_for_election s1 < votes_granted_ s1). lia.
Qed.

(** ** Asking for votes *)

(** Peers are keyed by their ids. *)
Definition keyed (m : gmap Z srv_config) : Prop := map_Forall (fun i c => sc_id c = i) m.

(** A vote request of [s] as it stands. *)
Definition own_vote_req (i t : Z) (r : req_msg) : Prop :=
  rq_type r = request_vote_request /\ rq_src r = i /\ rq_term r = t.

(** The body of the loop over the peers in [request_vote]. *)
Definition ask_vote (force_vote : bool) (pid : Z) : SM unit :=
  s <- self ;;
  p <- peer_at pid ;;
  when (is_regular_member s p)
    (req <- log_end_req request_vote_request (p_id p) ;;
     req <- (if force_vote then
               b <- lift force_vote_serialize ;;
               ret (req <| rq_log_entries := [log_entry_new 0 (Some b) custom 0 false 0 true] |>)
             else ret req) ;;
     free <- ask_peer pid false make_busy ;;
     when free (peer_send pid req resp_handler_ false)).

(** Sending one more request: all else is framed. *)
Lemma peer_send_vote pid req h streaming (s : server) :
  steady s -> rq_type req = request_vote_request ->
  exists reqs, (reqs = [] \/ reqs = [req]) /\
  moved (vote_of (state_ s)) (votes_granted_ s) reqs s (run_state (peer_send pid req h streaming) s).
Proof.
  intros Hs Hr. unfold run_state, peer_send.
  destruct (peers_ s !! pid) as [p|] eqn:Ep; [|exists []; split; [by left|by apply moved_stay]].
  destruct (send_req req h streaming p) as [[p' out]|] eqn:E;
    [|exists []; split; [by left|by apply moved_stay]].
  assert (out = [] \/ exists rpc h' st n, out = [Rpc_send rpc req h' st n]) as Ho.
  { unfold send_req in E. destruct (abandoned_ p); [simplify_eq; by left|].
    destruct (rpc_ p); [|simplify_eq; by left].
    revert E. destruct (if decide _ then _ else _); intros [= <- <-]. right. by do 4 eexists. }
  apply send_req_quiet in E as (Ec & Er & _).
  exists (vote_reqs (rev (map (Ev_peer pid) out))). split.
  { destruct Ho as [->|(? & ? & ? & ? & ->)]; [by left|right]. cbn. by rewrite decide_True. }
  destruct Hs as (A & B & C). split; try done.
  - split; [done|split; [done|]]. cbn. eapply insert_rsv; [done| |done]. unfold rsv_ok. by rewrite Er.
  - cbn. by eapply insert_config.
  - intros. by left.
  - eexists. split_and!; [done|done| |by left].
    destruct Ho as [->|(? & ? & ? & ? & ->)]; by repeat constructor.
Qed.

(** The vote requests [reqs] sent while the ballot stays: [moves P s s']. *)
Definition sends (P : list req_msg -> Prop) (s s' : server) : Prop :=
  exists reqs, P reqs /\ moved (vote_of (state_ s)) (votes_granted_ s) reqs s s'.

Lemma sends_stay P s : steady s -> P [] -> sends P s s.
Proof. intros Hs HP. exists []. split; [done|]. by apply moved_stay. Qed.

Lemma sends_trans (P Q R : list req_msg -> Prop) s1 s2 s3 :
  steady s1 -> sends P s1 s2 -> sends Q s2 s3 ->
  (forall a b, P a -> Q b -> R (b ++ a)) -> sends R s1 s3.
Proof.
  intros Hs (r1 & P1 & M1) (r2 & P2 & M2) HR. exists (r2 ++ r1). split; [auto|].
  destruct M1 as [A1 A2 A3 A4 A5 A6 A7 A8 A9 A10], M2 as [B1 B2 B3 B4 B5 B6 B7 B8 B9 B10].
  assert (term_ (state_ s2) = term_ (state_ s1)) as Et by (by injection A3).
  split; try congruence.
  - intros Hr. destruct (B9 Hr) as [(_ & Hr2)|?]; [|by right].
    destruct (A9 Hr2) as [?|W]; [by left|]. right. revert W. unfold won, get_quorum_for_election.
    rewrite !steady_voting by done. by rewrite B5, B6, B7, B8, A5.
  - destruct A10 as (e1 & E1 & R1 & S1 & _), B10 as (e2 & E2 & R2 & S2 & _).
    exists (e2 ++ e1). split_and!.
    + by rewrite E2, E1, app_assoc.
    + by rewrite vote_reqs_app, R1, R2.
    + rewrite saves_app. apply Forall_app. rewrite A3 in S2. by split.
    + by left.
Qed.

(** An operation that is framed, then one that sends. *)
Lemma sends_after {A} P (m : SM A) (k : A -> SM unit) s :
  steady s -> calm m -> P [] ->
  (forall a s', m s = (Ok a, s') -> framed s s' -> sends P s' (run_state (k a) s')) ->
  sends P s (run_state (bind m k) s).
Proof.
  intros Hs Hm HP Hk. destruct (Hm s) as [F _]. specialize (F Hs).
  unfold run_state, bind in *. destruct (m s) as [[a|e] s'] eqn:E; cbn in F.
  - eapply (sends_trans (eq [])); [done| |by apply Hk|].
    + exists []. split; [done|]. by apply framed_moved.
    + intros ? b <- Hb. by rewrite app_nil_r.
  - exists []. split; [done|]. by apply framed_moved.
Qed.

Lemma log_end_req_eq type pid (s s' : server) r :
  log_end_req type pid s = (Ok r, s') ->
  rq_type r = type /\ rq_src r = id_ s /\ rq_term r = term_ (state_ s) /\ rq_dst r = pid /\
  rq_log_entries r = [].
Proof.
  unfold log_end_req, bind, self, ret.
  destruct (term_for_log _ s) as [[t|] ?]; intros [= <- <-]. done.
Qed.

(** At most one request, to [pid]. *)
Definition one_req (pid i t : Z) (reqs : list req_msg) : Prop :=
  reqs = [] \/ exists r, reqs = [r] /\ own_vote_req i t r /\ rq_dst r = pid.

Lemma ask_vote_sends fv pid (s : server) :
  steady s -> keyed (config_ <$> peers_ s) ->
  sends (one_req pid (id_ s) (term_ (state_ s))) s (run_state (ask_vote fv pid) s).
Proof.
  intros Hs Hk. unfold ask_vote. rewrite run_self.
  set (P := one_req pid (id_ s) (term_ (state_ s))).
  assert (P []) as P0 by by left.
  apply sends_after; [done|quiet|done|]. unfold peer_at. intros p s1 E F.
  destruct (peers_ s !! pid) as [q|] eqn:Ep; [|done]. injection E as <- <-. clear F.
  assert (p_id q = pid) as Eid.
  { apply (Hk pid (config_ q)). by rewrite lookup_fmap, Ep. }
  unfold when. destruct (is_regular_member s q); [|by apply sends_stay].
  apply sends_after; [done|unfold log_end_req; quiet; apply calm_term_for_log|done|].
  intros r s1 E F1. apply log_end_req_eq in E as (R1 & R2 & R3 & R4 & R5).
  rewrite Eid in R4.
  apply sends_after; [by apply F1|destruct fv; quiet|done|]. intros r2 s2 E2 F2.
  assert (own_vote_req (id_ s) (term_ (state_ s)) r2 /\ rq_dst r2 = pid) as (Ho & Hd).
  { destruct fv; [|by injection E2 as <- <-]. unfold bind, lift, ret in E2.
    destruct force_vote_serialize; [|done]. by injection E2 as <- <-. }
  apply sends_after; [by apply F2|quiet|done|]. intros free s3 E3 F3.
  destruct free; [|apply sends_stay; [by apply F3|done]].
  destruct (peer_send_vote pid r2 resp_handler_ false s3) as (reqs & [->| ->] & M);
    [by apply F3|by apply Ho| |]; eexists; (split; [|exact M]); [done|].
  right. by exists r2.
Qed.

(** Requests of [i] for the term [t], to different servers among [ids]. *)
Definition vote_round (ids : list Z) (i t : Z) (reqs : list req_msg) : Prop :=
  Forall (own_vote_req i t) reqs /\ NoDup (map rq_dst reqs) /\
  Forall (fun r => rq_dst r ∈ ids) reqs.

Lemma ask_all_sends fv ids (s : server) :
  NoDup ids -> steady s -> keyed (config_ <$> peers_ s) ->
  sends (vote_round ids (id_ s) (term_ (state_ s))) s (run_state (for_all ids (ask_vote fv)) s).
Proof.
  revert s. induction ids as [|i ids IH]; intros s Hn Hs Hk; cbn [for_all].
  { apply sends_stay; [done|]. split_and!; constructor. }
  apply NoDup_cons in Hn as (Hi & Hn). pose proof (ask_vote_sends fv i s Hs Hk) as H1.
  unfold run_state in *. unfold bind. destruct (ask_vote fv i s) as [[[]|e] s1]; cbn [snd] in *.
  - destruct H1 as (r1 & P1 & M1). eapply (sends_trans (one_req i (id_ s) (term_ (state_ s))));
      [done|by exists r1|apply IH; [done|apply M1|by rewrite (mv_peers _ _ _ _ _ M1)]|].
    pose proof (mv_id _ _ _ _ _ M1) as E1. pose proof (mv_vote _ _ _ _ _ M1) as E2.
    injection E2 as E2 _. rewrite E1, E2. intros a b [->|(r & -> & Ho & Hd)] (B1 & B2 & B3).
    + rewrite app_nil_r. split_and!; [done|done|]. eapply Forall_impl; [exact B3|].
      intros ? ?. by apply elem_of_cons; right.
    + split_and!.
      * apply Forall_app. split; [done|]. by apply Forall_singleton.
      * rewrite map_app. apply NoDup_app. split_and!; [done| |apply NoDup_singleton].
        intros x (r' & -> & Hr')%list_elem_of_fmap. cbn. rewrite list_elem_of_singleton, Hd. intros E.
        apply Hi. rewrite <- E. by apply (proj1 (Forall_forall _ _) B3).
      * apply Forall_app. split; [eapply Forall_impl; [exact B3|]; intros ? ?; by apply elem_of_cons; right|].
        constructor; [|constructor]. rewrite Hd. by apply elem_of_cons; left.
  - destruct H1 as (r1 & P1 & M1). exists r1. split; [|done].
    destruct P1 as [->|(r & -> & Ho & Hd)]; [split_and!; constructor|]. split_and!.
    + by apply Forall_singleton.
    + apply NoDup_singleton.
    + constructor; [|constructor]. rewrite Hd. by apply elem_of_cons; left.
Qed.

(** ** Campaigns *)

(** A state after the ballot was set to [(t, id)] and saved, with the server's
    own vote counted. *)
Definition campaign (s s' : server) : Prop :=
  exists t reqs, term_ (state_ s) < t /\
    vote_round (map fst (map_to_list (peers_ s))) (id_ s) t reqs /\
    moved (t, id_ s) 1 reqs s s'.

(** What follows a move of the ballot and only sends. *)
Lemma moved_sends P v g s1 s2 s3 :
  moved v g [] s1 s2 -> sends P s2 s3 -> exists reqs, P reqs /\ moved v g reqs s1 s3.
Proof.
  intros M1 (r2 & P2 & M2). exists r2. split; [done|].
  destruct M1 as [A1 A2 A3 A4 A5 A6 A7 A8 A9 A10], M2 as [B1 B2 B3 B4 B5 B6 B7 B8 B9 B10].
  split; try congruence.
  - intros Hr. destruct (B9 Hr) as [(_ & Hr2)|?]; [|by right].
    destruct (A9 Hr2) as [?|W]; [by left|]. right. revert W. unfold won, get_quorum_for_election.
    rewrite !steady_voting by done. by rewrite B5, B6, B7, B8, A5.
  - destruct A10 as (e1 & E1 & R1 & S1 & D1), B10 as (e2 & E2 & R2 & S2 & _).
    exists (e2 ++ e1). split_and!.
    + by rewrite E2, E1, app_assoc.
    + by rewrite vote_reqs_app, R1, R2, app_nil_r.
    + rewrite saves_app. apply Forall_app. rewrite A3 in S2. by split.
    + destruct D1 as [?|D1]; [by left|]. right. rewrite saves_app. apply elem_of_app. by right.
Qed.

(** From the state in which [initiate_vote] calls it. *)
Lemma request_vote_moves fv t (s0 s : server) :
  steady s0 -> keyed (config_ <$> peers_ s0) -> term_ (state_ s0) < t ->
  id_ s = id_ s0 -> term_ (state_ s) = t -> inc_term_cb_ (state_ s) = inc_term_cb_ (state_ s0) ->
  im_learner_ s = im_learner_ s0 -> params_ s = params_ s0 -> peers_ s = peers_ s0 ->
  srv_to_leave_ s = srv_to_leave_ s0 -> trace_ s = trace_ s0 ->
  role_ s = candidate -> votes_granted_ s = 0 ->
  exists reqs, vote_round (map fst (map_to_list (peers_ s0))) (id_ s0) t reqs /\
    moved (t, id_ s0) 1 reqs s0 (run_state (request_vote fv) s).
Proof.
  intros Hs Hk Ht E1 E2 E3 E4 E5 E6 E7 E8 E9 E10. unfold request_vote.
  rewrite run_self, run_upd_state, run_save, run_modify, run_self.
  match goal with |- context [run_state _ ?x] => set (s1 := x) end.
  assert (moved (t, id_ s0) 1 [] s0 s1) as M1.
  { destruct Hs as (A & B & C). subst s1. split; cbn; try congruence.
    - unfold steady. cbn. by rewrite E5, E6, E7.
    - unfold vote_of. cbn. by rewrite E1, E2.
    - by rewrite E10.
    - eexists [_]. split_and!; [by rewrite <- E8|done| |right; apply list_elem_of_singleton];
        [constructor; [|constructor]|]; unfold vote_of; cbn; by rewrite E1, E2. }
  assert (peers_ s1 = peers_ s0) as Ep by exact E6.
  assert (votes_granted_ s1 = 1) as Eg by by apply M1.
  clearbody s1. rewrite Eg.
  destruct (get_quorum_for_election s1 <? 1) eqn:W; bool_to_prop.
  - exists []. split; [split_and!; constructor|]. rewrite run_modify. eapply moved_framed; [exact M1|].
    etransitivity; [|apply become_leader_frame]; [by apply frame_fields|].
    change (get_quorum_for_election s1 < votes_granted_ s1). lia.
  - unfold for_peers. rewrite run_self. rewrite Ep.
    eapply moved_sends; [exact M1|].
    pose proof (mv_id _ _ _ _ _ M1) as Ei. pose proof (mv_vote _ _ _ _ _ M1) as Ev.
    injection Ev as Ev _. rewrite <- Ei, <- Ev. apply ask_all_sends.
    + apply NoDup_fst_map_to_list.
    + apply M1.
    + by rewrite (mv_peers _ _ _ _ _ M1).
Qed.

(** A step that leaves the ballot alone or, at some point, starts an election. *)
Definition stands (s s' : server) : Prop :=
  framed s s' \/ exists s1, framed s s1 /\ campaign s1 s'.

Lemma framed_trans (s1 s2 s3 : server) :
  steady s1 -> framed s1 s2 -> frame s2 s3 -> framed s1 s3.
Proof.
  intros Hs F H. assert (frame s1 s2) as F' by (intros ?; exact F).
  apply (transitivity (R := frame) F' H). done.
Qed.

Lemma stands_frame s1 s2 s3 : steady s1 -> stands s1 s2 -> frame s2 s3 -> stands s1 s3.
Proof.
  intros Hs [F|(s & F & t & reqs & Ht & R & Mv)] H.
  - left. by eapply framed_trans.
  - right. exists s. split; [done|]. exists t, reqs. split_and!; [done|done|].
    by eapply moved_framed.
Qed.

Lemma frame_stands s1 s2 s3 : steady s1 -> framed s1 s2 -> stands s2 s3 -> stands s1 s3.
Proof.
  intros Hs F [F2|(s & F2 & C)].
  - left. eapply framed_trans; [done|done|]. by intros ?.
  - right. exists s. split; [|done]. eapply framed_trans; [done|done|]. by intros ?.
Qed.

(** The server may stand for election: its peers are known by their ids and
    its term can grow. *)
Definition may_stand (s : server) : Prop :=
  steady s /\ keyed (config_ <$> peers_ s) /\ inc_term_ok (state_ s) = true.

Lemma inc_term_eq st : term_ (inc_term st)
  = match inc_term_cb_ st with Some cb => u64 (cb (term_ st)) | None => u64 (term_ st + 1) end.
Proof. unfold inc_term. by destruct (inc_term_cb_ st). Qed.

Lemma framed_may_stand s s' : framed s s' -> may_stand s -> may_stand s'.
Proof.
  intros F (A & B & C). split_and!.
  - apply F.
  - by rewrite (fr_peers _ _ F).
  - revert C. pose proof (fr_vote _ _ F) as E. injection E as E _. unfold inc_term_ok.
    by rewrite !inc_term_eq, E, (fr_inc _ _ F).
Qed.

Definition standing {A} (m : SM A) : Prop :=
  forall s, may_stand s -> stands s (run_state m s).

Lemma standing_calm {A} (m : SM A) : calm m -> standing m.
Proof. intros H s (Hs & _). left. by apply H. Qed.

Lemma standing_after {A B} (m : SM A) (k : A -> SM B) :
  calm m -> (forall a, standing (k a)) -> standing (bind m k).
Proof.
  intros Hm Hk s Hs. destruct (Hm s) as [F _]. specialize (F (proj1 Hs)).
  unfold run_state, bind in *. destruct (m s) as [[a|e] s'] eqn:E; cbn in F; [|by left].
  eapply frame_stands; [apply Hs|exact F|]. apply Hk. by eapply framed_may_stand.
Qed.

Lemma standing_before {A B} (m : SM A) (k : A -> SM B) :
  standing m -> (forall a, calm (k a)) -> standing (bind m k).
Proof.
  intros Hm Hk s Hs. specialize (Hm s Hs). unfold run_state, bind in *.
  destruct (m s) as [[a|e] s'] eqn:E; cbn in Hm; [|done].
  eapply stands_frame; [apply Hs|exact Hm|]. apply Hk.
Qed.

Lemma standing_when c (m : SM unit) : standing m -> standing (when c m).
Proof. intros H. destruct c; [done|]. apply standing_calm. unfold when. quiet. Qed.

Lemma standing_initiate fv : standing (initiate_vote fv).
Proof.
  unfold initiate_vote. apply standing_after.
  { unfold grace_period_skips. quiet. }
  intros []; [apply standing_calm; quiet|]. apply standing_after; [quiet|]. intros s0.
  apply standing_before; [|intros; quiet].
  apply standing_when. intros s (Hs & Hk & Hi). right. exists s.
  split; [exact (reflexivity (R := frame) s Hs)|].
  rewrite !run_upd_state, run_modify.
  match goal with |- context [run_state _ ?x] => set (s1 := x) end.
  apply Z.ltb_lt in Hi.
  assert (term_ (state_ s1) = term_ (inc_term (state_ s)) /\
          inc_term_cb_ (state_ s1) = inc_term_cb_ (state_ s)) as (E1 & E2).
  { subst s1. unfold inc_term. cbn. unfold inc_term. destruct (inc_term_cb_ (state_ s)) eqn:Ei; cbn; by rewrite ?Ei. }
  edestruct (request_vote_moves fv (term_ (inc_term (state_ s))) s s1) as (reqs & R & Mv); try done.
  exists (term_ (inc_term (state_ s))), reqs. done.
Qed.

(** ** Pre-votes and the election timer *)

Lemma calm_check_previous : calm check_previous_prevote.
Proof.
  unfold check_previous_prevote. eapply quietly_bind; [quiet|intros ? _].
  eapply quietly_bind; [quiet|intros ? _]. apply calm_self_guard_end. intros s (A & _). by rewrite A.
Qed.

Lemma calm_log_end_req type pid :
  type <> request_vote_request ->
  quietly (L := L) (fun r => rq_type r <> request_vote_request) (log_end_req type pid).
Proof.
  intros Ht. unfold log_end_req. eapply quietly_bind; [quiet|intros ? _].
  eapply quietly_bind; [quiet|intros ? _]. by apply quietly_ret.
Qed.

Lemma calm_renew pid : calm (renew_connection pid).
Proof. unfold renew_connection. quiet. Qed.

Lemma calm_send_prevote pid : calm (send_prevote pid).
Proof.
  unfold send_prevote. eapply quietly_bind; [quiet|intros ? _].
  eapply quietly_bind; [quiet|intros ? _]. apply quietly_when.
  eapply quietly_bind; [by apply calm_log_end_req|]. intros r Hr.
  pose proof (quietly_peer_send (L := L) pid r resp_handler_ false Hr) as Hs. quiet.
Qed.

#[local] Hint Resolve calm_check_previous calm_renew calm_send_prevote : frame.

Lemma calm_request_prevote : calm request_prevote.
Proof. unfold request_prevote. quiet. Qed.

Lemma calm_decay : calm decay_target_priority.
Proof. apply quietly_modify. intros s. cbn zeta. destruct (1 <? _); by apply frame_fields. Qed.

Lemma calm_send_reconnect : calm send_reconnect_request.
Proof.
  unfold send_reconnect_request. eapply quietly_bind; [quiet|]. intros s _. destruct (_ =? _); [quiet|].
  destruct (_ !! _); [|quiet]. eapply quietly_bind; [quiet|intros ? _].
  apply quietly_when, quietly_peer_send. done.
Qed.

Lemma calm_cancel_schedulers : calm cancel_schedulers.
Proof. unfold cancel_schedulers. quiet. Qed.

#[local] Hint Resolve calm_request_prevote calm_decay calm_send_reconnect calm_cancel_schedulers : frame.

(** A response to a pre-vote may start an election. *)
Lemma standing_prevote_resp resp : standing (handle_prevote_resp resp).
Proof.
  unfold handle_prevote_resp. apply standing_after; [quiet|]. intros s0.
  destruct (negb _); [apply standing_calm; quiet|].
  apply standing_after; [quiet|intros _]. apply standing_after; [quiet|intros s1].
  apply standing_before; [|intros; quiet]. apply standing_when.
  apply standing_after; [quiet|intros _]. apply standing_before; [apply standing_initiate|].
  intros; quiet.
Qed.

(** The election timer, too. *)
Lemma standing_election_timeout : standing handle_election_timeout.
Proof.
  unfold handle_election_timeout. apply standing_after; [quiet|]. intros s0.
  repeat match goal with |- standing (if ?b then _ else _) => destruct b end;
    try (solve [apply standing_calm; quiet]).
  apply standing_before; [|intros; quiet]. apply standing_when.
  apply standing_after; [quiet|intros _]. apply standing_after; [quiet|intros _].
  apply standing_after; [quiet|intros s1]. destruct (_ || _); [apply standing_initiate|].
  apply standing_calm; quiet.
Qed.

(** ** Vote requests and responses from their arrival *)

(** The ballot stays, or is cleared for a higher term. *)
Definition advance (s s' : server) : Prop :=
  framed s s' \/ exists t, term_ (state_ s) < t /\ moved (t, -1) 0 [] s s'.

Definition advances : relation server := rtc advance.

Lemma advance_steady s s' : advance s s' -> steady s'.
Proof. intros [F|(t & _ & Mv)]; [apply F|apply Mv]. Qed.

Lemma advances_steady s s' : steady s -> advances s s' -> steady s'.
Proof. intros Hs H. induction H; [done|]. eauto using advance_steady. Qed.

Lemma advances_calm {A} (m : SM A) s : steady s -> calm m -> advances s (run_state m s).
Proof. intros Hs H. apply rtc_once. left. by apply H. Qed.

Lemma advances_update_term t s : steady s -> advances s (run_state (update_term t) s).
Proof.
  intros Hs. destruct (decide (term_ (state_ s) < t)) as [Ht|Ht].
  - apply rtc_once. right. exists t. split; [done|]. by apply update_term_moved.
  - unfold run_state. by rewrite update_term_same by lia.
Qed.

Definition advancing {A} (m : SM A) : Prop :=
  forall s, steady s -> advances s (run_state m s).

Lemma advancing_calm {A} (m : SM A) : calm m -> advancing m.
Proof. intros H s Hs. by apply advances_calm. Qed.

Lemma advancing_bind {A B} (m : SM A) (k : A -> SM B) :
  advancing m -> (forall a, advancing (k a)) -> advancing (bind m k).
Proof.
  intros Hm Hk s Hs. specialize (Hm s Hs). unfold run_state, bind in *.
  destruct (m s) as [[a|e] s']; cbn in Hm; [|done].
  etransitivity; [exact Hm|]. apply Hk. by eapply advances_steady.
Qed.

Lemma advancing_observe_req req : advancing (observe_req_term req).
Proof.
  unfold observe_req_term, when. destruct (_ || _); [|apply advancing_calm; quiet].
  apply advancing_bind; [exact (advances_update_term _)|]. intros b.
  apply advancing_calm. quiet.
Qed.

Lemma calm_accepts_req : calm accepts_req.
Proof. unfold accepts_req. quiet. Qed.

(** A vote request is denied, or answered by a vote for its sender. *)
Lemma process_vote_req_moves req (s : server) :
  steady s ->
  let res := run_val (process_vote_req req) s in
  let s' := run_state (process_vote_req req) s in
  (advances s s' /\ forall r, res = Ok (Some r) -> rs_accepted r = false) \/
  exists s1 r, advances s s1 /\ res = Ok (Some r) /\ rs_accepted r = true /\
    rs_term r = rq_term req /\ rs_src r = id_ s1 /\ rs_dst r = rq_src req /\
    rq_term req = term_ (state_ s1) /\
    (voted_for_ (state_ s1) = rq_src req \/ voted_for_ (state_ s1) = -1) /\
    moved (rq_term req, rq_src req) (votes_granted_ s1) [] s1 s'.
Proof.
  intros Hs. cbv zeta. unfold process_vote_req. rewrite run_bind, val_bind.
  pose proof (advances_calm _ s Hs calm_accepts_req) as A1. unfold run_state at 1 in A1.
  destruct (accepts_req s) as [[go|e] s1]; cbn [snd] in A1; [|by left].
  destruct go; [|by left]. rewrite run_bind, val_bind.
  assert (steady s1) as Hs1 by by eapply advances_steady.
  pose proof (advancing_observe_req req s1 Hs1) as A2. unfold run_state at 1 in A2.
  destruct (observe_req_term req s1) as [[[]|e] s2]; cbn [snd] in A2; [|left; split; [by etrans|done]].
  assert (steady s2) as Hs2 by by eapply advances_steady. rewrite run_bind, val_bind.
  destruct (handle_vote_req_moves req s2 Hs2) as [(F & D)|(r & E & _ & R1 & R2 & R3 & R4 & R5 & R6 & Mv)].
  - left. unfold run_val in D. unfold run_state in F.
    destruct (handle_vote_req req s2) as [[r|e] s3]; cbn [fst snd] in *.
    + split; [|intros ? [= <-]; by apply D]. etrans; [by etrans|]. apply rtc_once. left. by apply F.
    + split; [|done]. etrans; [by etrans|]. apply rtc_once. left. by apply F.
  - right. exists s2, r. unfold run_val at 1 in E. unfold run_state in Mv.
    destruct (handle_vote_req req s2) as [[r'|e] s3]; cbn [fst snd] in *; [|done]. injection E as ->.
    rewrite <- R5 in Mv. split_and!; try done; [by etrans|congruence].
Qed.

Lemma calm_observe_resp_head resp (s : server) :
  calm (when (rs_accepted resp)
    (upd_peer (rs_src resp) (fun p => reset_resp_timer (now_ s) (reset_rpc_errs (set_recovered p))))).
Proof. quiet. Qed.

(** A response is looked at only in the term it was received in. *)
Lemma observe_resp_moves resp (s : server) :
  steady s ->
  match run_val (observe_resp resp) s with
  | Ok false => framed s (run_state (observe_resp resp) s)
  | _ => advances s (run_state (observe_resp resp) s)
  end.
Proof.
  intros Hs. unfold observe_resp. rewrite run_self. rewrite val_bind. cbn [self].
  pose proof (calm_observe_resp_head resp s s) as [F _]. specialize (F Hs). unfold run_state in F.
  unfold self. rewrite run_bind, val_bind.
  destruct (when _ _ s) as [[[]|e] s1]; cbn [snd] in F; [|by apply rtc_once; left].
  destruct (is_valid_msg _); [|done].
  destruct (decide (term_ (state_ s1) < rs_term resp)) as [Ht|Ht].
  - pose proof (advances_update_term (rs_term resp) s1 (fr_steady _ _ F)) as A.
    unfold run_val. destruct (update_term _ s1) as [[[]|e] s2] eqn:E; cbn [fst];
      try (etrans; [by apply rtc_once; left|done]).
    exfalso. revert E. unfold update_term, bind at 1, self at 1. rewrite ltb_true by done.
    unfold bind. repeat match goal with |- context [match ?x with _ => _ end] => destruct x end; done.
  - unfold run_val, run_state. by rewrite update_term_same by lia.
Qed.

(** A response to a vote request updates the term, or may be counted. *)
Lemma peer_vote_resp_counts resp (s : server) :
  steady s -> is_s32 (votes_granted_ s + 1) -> rs_type resp = request_vote_response ->
  let s' := run_state (peer_vote_resp resp) s in
  advances s s' \/
  exists s1, framed s s1 /\
    moved (vote_of (state_ s1)) (votes_granted_ s1 + (if counted resp s1 then 1 else 0)) [] s1 s'.
Proof.
  intros Hs Hg Ht. cbv zeta. unfold peer_vote_resp. rewrite run_bind, Ht.
  pose proof (observe_resp_moves resp s Hs) as H. unfold run_val, run_state in H.
  destruct (observe_resp resp s) as [[[]|e] s1]; cbn [fst snd] in H; [by left| |by left].
  right. exists s1. split; [done|]. apply handle_vote_resp_moves; [by apply H|].
  by rewrite (fr_granted _ _ H).
Qed.

(** One to a pre-vote request updates the term, or may start an election. *)
Lemma peer_vote_resp_stands resp (s : server) :
  may_stand s -> rs_type resp = pre_vote_response ->
  let s' := run_state (peer_vote_resp resp) s in advances s s' \/ stands s s'.
Proof.
  intros Hs Ht. cbv zeta. unfold peer_vote_resp. rewrite run_bind, Ht.
  pose proof (observe_resp_moves resp s (proj1 Hs)) as H. unfold run_val, run_state in H.
  destruct (observe_resp resp s) as [[[]|e] s1]; cbn [fst snd] in H; [by left| |by left].
  right. eapply frame_stands; [apply Hs|exact H|]. apply standing_prevote_resp.
  by eapply framed_may_stand.
Qed.

(** ** Requests sent *)

Definition emits (s s' : server) (reqs : list req_msg) : Prop :=
  exists evs, trace_ s' = evs ++ trace_ s /\ vote_reqs evs = reqs.

Lemma emits_trans s1 s2 s3 r1 r2 : emits s1 s2 r1 -> emits s2 s3 r2 -> emits s1 s3 (r2 ++ r1).
Proof.
  intros (e1 & E1 & <-) (e2 & E2 & <-). exists (e2 ++ e1).
  by rewrite E2, E1, app_assoc, vote_reqs_app.
Qed.

Lemma moved_emits v g reqs s s' : moved v g reqs s s' -> emits s s' reqs.
Proof. intros Mv. destruct (mv_trace _ _ _ _ _ Mv) as (evs & ? & ? & _). by exists evs. Qed.

Lemma framed_emits s s' : steady s -> framed s s' -> emits s s' [].
Proof. intros Hs F. by eapply moved_emits, framed_moved. Qed.

(** ** Replication *)

(** What a server does about its log: append requests and responses from their
    arrival, the end of a log write, sending, the check of the leadership. *)
Inductive replication_op :=
| Got_append_request (req : req_msg)
| Got_append_response (resp : resp_msg)
| Log_written (ok : bool)
| Send_to_all
| Check_leadership.

Definition replicate (o : replication_op) : SM unit :=
  match o with
  | Got_append_request req => process_append_req req ;; ret tt
  | Got_append_response resp => peer_append_resp resp
  | Log_written ok => notify_log_append_completion ok
  | Send_to_all => request_append_entries_for_all
  | Check_leadership => check_leadership_validity ;; ret tt
  end.

Lemma advancing_observe_resp resp : advancing (observe_resp resp).
Proof.
  intros s Hs. pose proof (observe_resp_moves resp s Hs) as H.
  destruct (run_val (observe_resp resp) s) as [[]|]; [done| |done]. apply rtc_once. by left.
Qed.

Lemma advancing_replicate o : advancing (replicate o).
Proof.
  destruct o as [req|resp|ok| |]; cbn [replicate].
  - apply advancing_bind; [|intros; apply advancing_calm; quiet].
    unfold process_append_req. apply advancing_bind; [apply advancing_calm, calm_accepts_req|].
    intros go. destruct go; [|apply advancing_calm; quiet].
    apply advancing_bind; [apply advancing_observe_req|]. intros [].
    pose proof (calm_handle_append_entries req). apply advancing_calm. quiet.
  - unfold peer_append_resp. apply advancing_bind; [apply advancing_observe_resp|].
    intros u. pose proof (calm_handle_append_resp resp). apply advancing_calm. quiet.
  - apply advancing_calm, calm_notify_completion.
  - apply advancing_calm, calm_for_all_requests.
  - pose proof calm_leadership_validity. apply advancing_calm. quiet.
Qed.

Lemma advances_emits s s' : steady s -> advances s s' -> emits s s' [].
Proof.
  intros Hs H. induction H as [s|s1 s2 s3 H _ IH]; [by exists []|].
  specialize (IH (advance_steady _ _ H)). eapply (emits_trans _ _ _ [] []); [|exact IH].
  destruct H as [F|(t & _ & Mv)]; [by apply framed_emits|by eapply moved_emits].
Qed.

End Votes.
