(* ===== verification/Safety.v ===== *)
(** A cluster of servers that exchange vote requests and responses over a
    network that may delay, reorder and lose them, with servers that crash and
    restart: at most one server is the leader of a term.

    Membership is static here and every member votes.  A server does what the
    handlers of [Election], [Follower] and [Leader] do, and between them anything
    that is [framed]. *)
From S2P Require Import Prelude Buffer Serializer Codec Messages Peer LogStore Server.
From S2P Require Import Replication Election Startup Samples Frame Votes.

(** Two majorities of one finite set meet. *)
Lemma majorities_meet (X : gset Z) (V1 V2 : list Z) :
  NoDup V1 -> NoDup V2 -> (forall j, j ∈ V1 -> j ∈ X) -> (forall j, j ∈ V2 -> j ∈ X) ->
  Z.of_nat (base.size X) / 2 < zlen V1 -> Z.of_nat (base.size X) / 2 < zlen V2 ->
  exists j, j ∈ V1 /\ j ∈ V2.
Proof.
  intros N1 N2 S1 S2 M1 M2.
  destruct (large_parts_meet X (list_to_set V1) (list_to_set V2)) as (j & J1 & J2);
    [set_solver| set_solver| |exists j; set_solver].
  rewrite !size_list_to_set by done. unfold zlen in *.
  pose proof (Z_div_mod_eq_full (Z.of_nat (base.size X)) 2).
  pose proof (Z.mod_pos_bound (Z.of_nat (base.size X)) 2). lia.
Qed.

Lemma filter_all {A} (P : A -> Prop) `{!forall x, Decision (P x)} l : Forall P l -> filter P l = l.
Proof.
  induction 1 as [|x l Hx _ IH]; [done|]. by rewrite filter_cons_True, IH.
Qed.

Section Safety.
Context {L : Type} `{LS : LogStore L} `{U : Uninit} (env : Z -> Env) (members : gset Z).

#[local] Abbreviation server := (raft_server L).

(** ** The cluster *)

Record cluster := mk_cluster {
  servers : gmap Z server;
  requests : list req_msg;
  responses : list resp_msg
}.

Definition put (i : Z) (s : server) (c : cluster) : cluster :=
  mk_cluster (<[ i := s ]> (servers c)) (requests c) (responses c).

(** The vote requests sent from [s] to [s']. *)
Definition sent (s s' : server) : list req_msg :=
  vote_reqs (take (length (trace_ s') - length (trace_ s)) (trace_ s')).

Definition answer (r : res (option resp_msg)) : list resp_msg :=
  match r with Ok (Some resp) => [resp] | _ => [] end.

(** What the log says was last written to the disk. *)
Definition persisted (s : server) : option (Z * Z) := head (saves (trace_ s)).

(** Server [i]: its peers are the other members, and all of them vote. *)
Definition member (i : Z) (s : server) : Prop :=
  id_ s = i /\ im_learner_ s = false /\ steady s /\
  custom_election_quorum_size_ (params_ s) <= 0 /\
  dom (config_ <$> peers_ s) = members ∖ {[ i ]} /\
  map_Forall (fun j c => sc_id c = j /\ sc_learner c = false /\ sc_new_joiner c = false)
    (config_ <$> peers_ s).

(** A restarted server has the ballot it last saved and forgets its role. *)
Definition restarted (i : Z) (s s' : server) : Prop :=
  member i s' /\ persisted s = Some (vote_of (state_ s')) /\
  role_ s' <> leader /\ votes_granted_ s' = 0 /\ trace_ s' = trace_ s.

Inductive step (c : cluster) : cluster -> Prop :=
| step_local i s s' :
    servers c !! i = Some s -> framed s s' -> step c (put i s' c)
| step_replicate i s o :
    servers c !! i = Some s -> step c (put i (run_state (replicate (EV := env i) o) s) c)
| step_term i s t :
    servers c !! i = Some s ->
    step c (put i (run_state (update_term (EV := env i) t) s) c)
| step_timeout i s :
    servers c !! i = Some s -> inc_term_ok (state_ s) = true ->
    let s' := run_state (handle_election_timeout (EV := env i)) s in
    step c (mk_cluster (<[ i := s' ]> (servers c)) (sent s s' ++ requests c) (responses c))
| step_prevote i s resp :
    servers c !! i = Some s -> inc_term_ok (state_ s) = true ->
    rs_type resp = pre_vote_response ->
    let s' := run_state (peer_vote_resp (EV := env i) resp) s in
    step c (mk_cluster (<[ i := s' ]> (servers c)) (sent s s' ++ requests c) (responses c))
| step_request req a b s :
    requests c = a ++ req :: b -> servers c !! rq_dst req = Some s ->
    let h := process_vote_req (EV := env (rq_dst req)) req in
    step c (mk_cluster (<[ rq_dst req := run_state h s ]> (servers c)) (a ++ b)
              (answer (run_val h s) ++ responses c))
| step_response resp a b s :
    responses c = a ++ resp :: b -> servers c !! rs_dst resp = Some s ->
    inc_term_ok (state_ s) = true -> rs_type resp = request_vote_response ->
    step c (mk_cluster (<[ rs_dst resp := run_state (peer_vote_resp (EV := env (rs_dst resp)) resp) s ]>
              (servers c)) (requests c) (a ++ b))
| step_lose_request req a b :
    requests c = a ++ req :: b -> step c (mk_cluster (servers c) (a ++ b) (responses c))
| step_lose_response resp a b :
    responses c = a ++ resp :: b -> step c (mk_cluster (servers c) (requests c) (a ++ b))
| step_restart i s s' :
    servers c !! i = Some s -> restarted i s s' -> step c (put i s' c).

(** At first no vote is under way and the ballots are those on the disks. *)
Definition initial (c : cluster) : Prop :=
  dom (servers c) = members /\ requests c = [] /\ responses c = [] /\
  map_Forall (fun i s => member i s /\ role_ s <> leader /\ votes_granted_ s = 0 /\
                         saves (trace_ s) = [vote_of (state_ s)]) (servers c).

(** ** The invariant *)

(** [j] has saved a vote for [i] in the term [t]. *)
Definition granted (c : cluster) (j t i : Z) : Prop :=
  exists s, servers c !! j = Some s /\ (t, i) ∈ saves (trace_ s).

(** The votes that may still be counted: candidate, term, voter. *)
Definition tokens (c : cluster) : list (Z * Z * Z) :=
  map (fun r => (rq_src r, rq_term r, rq_dst r)) (requests c)
  ++ map (fun r => (rs_dst r, rs_term r, rs_src r)) (filter (fun r => rs_accepted r = true) (responses c)).

(** Saved ballots never go back, and a vote is not changed within a term. *)
Record ballot (s : server) : Prop := {
  bl_persisted : persisted s = Some (vote_of (state_ s));
  bl_bound t a : (t, a) ∈ saves (trace_ s) ->
    t < term_ (state_ s) \/ (t = term_ (state_ s) /\ (a = -1 \/ a = voted_for_ (state_ s)));
  bl_unique t a b : (t, a) ∈ saves (trace_ s) -> (t, b) ∈ saves (trace_ s) ->
    a <> -1 -> b <> -1 -> a = b
}.

Definition backed (c : cluster) (t i : Z) (V : list Z) : Prop :=
  NoDup V /\ forall j, j ∈ V -> j ∈ members /\ granted c j t i.

(** The votes counted by [i] are from different voters, each used up. *)
Definition tally (c : cluster) (i : Z) (s : server) : Prop :=
  exists V, backed c (term_ (state_ s)) i V /\ zlen V = votes_granted_ s /\
    forall j, j ∈ V -> (i, term_ (state_ s), j) ∉ tokens c.

Definition majority (c : cluster) (t i : Z) : Prop :=
  exists V, backed c t i V /\ Z.of_nat (base.size members) / 2 < zlen V.

Record Inv (c : cluster) : Prop := {
  inv_dom : dom (servers c) = members;
  inv_member i s : servers c !! i = Some s -> member i s;
  inv_ballot i s : servers c !! i = Some s -> ballot s;
  inv_nodup : NoDup (tokens c);
  inv_token i t j : (i, t, j) ∈ tokens c ->
    j ∈ members /\ j <> i /\ exists s, servers c !! i = Some s /\ t <= term_ (state_ s);
  inv_resp r : r ∈ responses c -> rs_accepted r = true -> granted c (rs_src r) (rs_term r) (rs_dst r);
  inv_tally i s : servers c !! i = Some s -> tally c i s;
  inv_leader i s : servers c !! i = Some s -> role_ s = leader -> majority c (term_ (state_ s)) i
}.

(** ** One server changes *)

(** The ballots a server may move to: of a higher term, or a first vote. *)
Definition legal (s : server) (v : Z * Z) : Prop :=
  term_ (state_ s) < fst v \/
  (fst v = term_ (state_ s) /\ (voted_for_ (state_ s) = -1 \/ voted_for_ (state_ s) = snd v)).

Lemma legal_stay s : legal s (vote_of (state_ s)).
Proof. right. by split; [|right]. Qed.

Lemma moved_saves v g reqs s s' :
  moved v g reqs s s' -> ballot s ->
  exists vs, saves (trace_ s') = vs ++ saves (trace_ s) /\ Forall (eq v) vs /\
    v ∈ saves (trace_ s') /\ persisted s' = Some v.
Proof.
  intros Mv B. destruct (mv_trace _ _ _ _ _ Mv) as (evs & E & _ & F & D).
  exists (saves evs). unfold persisted. rewrite E, saves_app.
  pose proof (bl_persisted _ B) as P. unfold persisted in P.
  destruct (saves evs) as [|w ws]; cbn in *.
  - destruct D as [->|D]; [|by apply not_elem_of_nil in D].
    split_and!; [done|constructor| |done]. by apply head_Some_elem_of.
  - inversion F as [|? ? <- F']; subst. split_and!; [done|by constructor|by left|done].
Qed.

Lemma ballot_moved v g reqs s s' :
  moved v g reqs s s' -> legal s v -> ballot s -> ballot s'.
Proof.
  intros Mv Lg B. destruct (moved_saves _ _ _ _ _ Mv B) as (vs & E & F & _ & P).
  pose proof (mv_vote _ _ _ _ _ Mv) as Ev.
  assert (forall t a, (t, a) ∈ saves (trace_ s') ->
    (t, a) = v \/ (t, a) ∈ saves (trace_ s)) as Hin.
  { intros t a. rewrite E, elem_of_app. intros [H|H]; [left|by right].
    rewrite Forall_forall in F. by rewrite (F _ H). }
  destruct v as [T A]. injection Ev as ET EA. split.
  - rewrite P. unfold vote_of. by rewrite ET, EA.
  - intros t a H. rewrite ET, EA. destruct (Hin _ _ H) as [[= -> ->]|H']; [by right; split; [|right]|].
    destruct (bl_bound _ B _ _ H') as [?|(-> & Ha)], Lg as [Lg|(E1 & Lg)]; cbn in *; try (left; lia).
    right. split; [done|]. destruct Ha as [->| ->]; [by left|].
    destruct Lg as [->|Lg]; [by left|by right].
  - assert (forall b, (T, b) ∈ saves (trace_ s) -> b <> -1 -> b = A) as Hnew.
    { intros b H Hb. destruct (bl_bound _ B _ _ H) as [?|(-> & Ha)], Lg as [Lg|(E1 & Lg)];
        cbn in *; lia. }
    intros t a b H1 H2 N1 N2.
    destruct (Hin _ _ H1) as [E1|H1'], (Hin _ _ H2) as [E2|H2']; simplify_eq; try done.
    + symmetry. by apply Hnew.
    + by apply Hnew.
    + by eapply (bl_unique _ B).
Qed.

Lemma member_moved v g reqs i s s' : moved v g reqs s s' -> member i s -> member i s'.
Proof.
  intros Mv (M1 & M2 & M3 & M4 & M5 & M6). unfold member.
  rewrite (mv_id _ _ _ _ _ Mv), (mv_learner _ _ _ _ _ Mv), (mv_params _ _ _ _ _ Mv),
    (mv_peers _ _ _ _ _ Mv). split_and!; try done. by apply (mv_steady _ _ _ _ _ Mv).
Qed.

(** The quorum of a member: half of the members. *)
Lemma member_quorum i s :
  i ∈ members -> member i s -> get_quorum_for_election s = Z.of_nat (base.size members) / 2.
Proof.
  intros Hi (M1 & M2 & M3 & M4 & M5 & M6). unfold get_quorum_for_election.
  rewrite leb_true by done. cbn [orb]. f_equal. rewrite steady_voting, M2 by done.
  assert (num_voters (config_ <$> peers_ s) = Z.of_nat (base.size (config_ <$> peers_ s))) as ->.
  { unfold num_voters, zlen. rewrite filter_all, length_map, length_map_to_list.
    - done.
    - apply Forall_forall. intros c (x & -> & H)%list_elem_of_fmap. destruct x as [j c].
      apply elem_of_map_to_list in H. cbn [snd]. destruct (M6 _ _ H) as (_ & -> & ->). done. }
  rewrite <- size_dom, M5, size_difference by set_solver. rewrite size_singleton.
  assert (base.size members ≠ 0)%nat as H0 by (rewrite size_non_empty_iff; set_solver). lia.
Qed.

(** Server [i] goes from [s] to [s']: ballots are kept and terms grow; it is a
    leader if it was one in the same term or has won. *)
Record change (i : Z) (s s' : server) : Prop := {
  ch_member : member i s';
  ch_ballot : ballot s';
  ch_term : term_ (state_ s) <= term_ (state_ s');
  ch_saves w : w ∈ saves (trace_ s) -> w ∈ saves (trace_ s');
  ch_role : role_ s' = leader ->
    (term_ (state_ s') = term_ (state_ s) /\ role_ s = leader) \/ won s'
}.

Lemma moved_change v g reqs i s s' :
  member i s -> ballot s -> moved v g reqs s s' -> legal s v -> change i s s'.
Proof.
  intros Hm B Mv Lg.
  assert (term_ (state_ s') = fst v) as Et by (by rewrite <- (mv_vote _ _ _ _ _ Mv)).
  split.
  - by eapply member_moved.
  - by eapply ballot_moved.
  - rewrite Et. destruct Lg as [?|(-> & _)]; lia.
  - destruct (moved_saves _ _ _ _ _ Mv B) as (vs & -> & _). intros. apply elem_of_app. by right.
  - rewrite Et. apply (mv_role _ _ _ _ _ Mv).
Qed.

Lemma restart_change i s s' : ballot s -> restarted i s s' -> change i s s'.
Proof.
  intros B (R1 & R2 & R3 & R4 & R5). pose proof (bl_persisted _ B) as P.
  assert (vote_of (state_ s') = vote_of (state_ s)) as [= E1 E2] by congruence.
  split; [done| |lia|by rewrite R5|done].
  split; [unfold persisted; by rewrite R5| |]; rewrite R5, ?E1, ?E2; apply B.
Qed.

(** Votes saved stay saved. *)
Lemma backed_change c i s s' rq rs t a V :
  servers c !! i = Some s -> change i s s' -> backed c t a V ->
  backed (mk_cluster (<[ i := s' ]> (servers c)) rq rs) t a V.
Proof.
  intros Hi Ch (N & B). split; [done|]. intros j Hj. destruct (B j Hj) as (? & s0 & E & H).
  split; [done|]. destruct (decide (i = j)) as [<-|Ne].
  - exists s'. cbn. rewrite lookup_insert_eq. split; [done|]. apply Ch. congruence.
  - exists s0. cbn. by rewrite lookup_insert_ne.
Qed.

Lemma granted_change c i s s' rq rs j t a :
  servers c !! i = Some s -> change i s s' -> granted c j t a ->
  granted (mk_cluster (<[ i := s' ]> (servers c)) rq rs) j t a.
Proof.
  intros Hi Ch (s0 & E & H). destruct (decide (i = j)) as [<-|Ne].
  - exists s'. cbn. rewrite lookup_insert_eq. split; [done|]. apply Ch. congruence.
  - exists s0. cbn. by rewrite lookup_insert_ne.
Qed.

(** A new vote under way: server [i] has just started an election. *)
Definition fresh_token (i : Z) (s s' : server) (tk : Z * Z * Z) : Prop :=
  exists j, tk = (i, term_ (state_ s'), j) /\ term_ (state_ s) < term_ (state_ s') /\
    j ∈ members /\ j <> i.

(** The invariant after a change of server [i], whatever happens to the
    messages, so long as no vote is duplicated. *)
Lemma inv_change c i s s' rq rs :
  Inv c -> servers c !! i = Some s -> change i s s' ->
  let c' := mk_cluster (<[ i := s' ]> (servers c)) rq rs in
  NoDup (tokens c') ->
  (forall tk, tk ∈ tokens c' -> tk ∈ tokens c \/ fresh_token i s s' tk) ->
  (forall r, r ∈ rs -> rs_accepted r = true ->
     r ∈ responses c \/ granted c' (rs_src r) (rs_term r) (rs_dst r)) ->
  tally c' i s' -> Inv c'.
Proof.
  intros I Hi Ch c' ND TK RS TL.
  assert (i ∈ members) as Him by (rewrite <- (inv_dom _ I); by eapply elem_of_dom_2).
  split; cbn [servers c'].
  - rewrite dom_insert_L, (inv_dom _ I). set_solver.
  - intros j s0 [(<- & <-)|(Ne & H)]%lookup_insert_Some; [by apply Ch|by apply (inv_member _ I)].
  - intros j s0 [(<- & <-)|(Ne & H)]%lookup_insert_Some; [by apply Ch|by apply (inv_ballot _ I j)].
  - done.
  - intros k t j [H|(j' & [= -> -> ->] & ? & ? & ?)]%TK.
    + destruct (inv_token _ I _ _ _ H) as (? & ? & s0 & Hs0 & Hle). split_and!; [done|done|].
      destruct (decide (i = k)) as [<-|Ne]; [|exists s0; by rewrite lookup_insert_ne].
      exists s'. rewrite lookup_insert_eq. split; [done|]. rewrite Hi in Hs0. injection Hs0 as <-.
      pose proof (ch_term _ _ _ Ch). lia.
    + split_and!; [done|done|]. exists s'. by rewrite lookup_insert_eq.
  - intros r Hr Ha. destruct (RS r Hr Ha) as [H|H]; [|done].
    eapply granted_change; [done|done|]. by apply (inv_resp _ I).
  - intros j s0 [(<- & <-)|(Ne & H)]%lookup_insert_Some; [done|].
    destruct (inv_tally _ I _ _ H) as (V & B & Z & N). exists V.
    split_and!; [by eapply backed_change|done|].
    intros k Hk [?|(? & [= -> ? ?] & _)]%TK; [by apply (N k Hk)|done].
  - intros j s0 [(<- & <-)|(Ne & H)]%lookup_insert_Some Hr.
    + destruct (ch_role _ _ _ Ch Hr) as [(E & Hr0)|W].
      * destruct (inv_leader _ I _ _ Hi Hr0) as (V & B & Z). exists V. split; [|done].
        rewrite E. by eapply backed_change.
      * destruct TL as (V & B & Z & _). exists V. split; [done|]. rewrite Z.
        rewrite <- (member_quorum i s'); [done|done|]. apply Ch.
    + destruct (inv_leader _ I _ _ H Hr) as (V & B & Z). exists V.
      split; [by eapply backed_change|done].
Qed.

(** Without change of the messages. *)
Lemma inv_put c i s s' :
  Inv c -> servers c !! i = Some s -> change i s s' -> tally (put i s' c) i s' -> Inv (put i s' c).
Proof. intros I Hi Ch TL. eapply inv_change; try done; try by left. apply (inv_nodup _ I). Qed.

Lemma put_put i s s' c : put i s' (put i s c) = put i s' c.
Proof. unfold put. cbn. by rewrite insert_insert_eq. Qed.

Lemma put_same i s c : servers c !! i = Some s -> put i s c = c.
Proof. intros H. unfold put. rewrite insert_id by done. by destruct c. Qed.

Lemma put_lookup i s c : servers (put i s c) !! i = Some s.
Proof. apply lookup_insert_eq. Qed.

Lemma inv_stay c i s s' :
  Inv c -> servers c !! i = Some s -> framed s s' -> Inv (put i s' c).
Proof.
  intros I Hi F. assert (Hs : steady s) by by apply (inv_member _ I i).
  assert (change i s s') as Ch.
  { eapply moved_change; [by apply (inv_member _ I)|by apply (inv_ballot _ I i)
      |by apply framed_moved|apply legal_stay]. }
  eapply inv_put; [done|done|done|]. destruct (inv_tally _ I _ _ Hi) as (V & B & Z & N).
  exists V. pose proof (fr_vote _ _ F) as E. injection E as E _. rewrite E, (fr_granted _ _ F).
  split_and!; [by eapply backed_change|done|done].
Qed.

Lemma inv_clear c i s s' t :
  Inv c -> servers c !! i = Some s -> term_ (state_ s) < t -> moved (t, -1) 0 [] s s' ->
  Inv (put i s' c).
Proof.
  intros I Hi Ht Mv. eapply inv_put; [done|done| |].
  - eapply moved_change; [by apply (inv_member _ I)|by apply (inv_ballot _ I i)|exact Mv|by left].
  - exists []. rewrite (mv_granted _ _ _ _ _ Mv). split_and!; [|done|];
      [split; [constructor|]|]; intros j Hj; by apply not_elem_of_nil in Hj.
Qed.

Lemma inv_advances c i s s' :
  Inv c -> servers c !! i = Some s -> advances s s' -> Inv (put i s' c).
Proof.
  intros I Hi H. rewrite <- (put_same i s c Hi) in I. clear Hi.
  induction H as [s|s1 s2 s3 H _ IH]; [done|]. apply IH. rewrite <- (put_put i s1).
  destruct H as [F|(t & Ht & Mv)].
  - eapply inv_stay; [done|apply put_lookup|done].
  - eapply inv_clear; [done|apply put_lookup|done|done].
Qed.

(** Messages that are gone. *)
Lemma inv_drop c rq rs :
  Inv c -> NoDup (tokens (mk_cluster (servers c) rq rs)) ->
  (forall tk, tk ∈ tokens (mk_cluster (servers c) rq rs) -> tk ∈ tokens c) ->
  (forall r, r ∈ rs -> rs_accepted r = true -> r ∈ responses c) ->
  Inv (mk_cluster (servers c) rq rs).
Proof.
  intros I ND TK RS. destruct I as [I1 I2 I3 I4 I5 I6 I7 I8]. split; [done|done|done|done| | | |].
  - intros i t j H. by apply (I5 i t j), TK.
  - intros r Hr Ha. exact (I6 r (RS r Hr Ha) Ha).
  - intros i s H. destruct (I7 _ _ H) as (V & B & Z & N). exists V. split_and!; [done|done|].
    intros j Hj Hin. apply (N j Hj). by apply TK.
  - exact I8.
Qed.

Lemma tokens_app_requests m a b rs :
  tokens (mk_cluster m (a ++ b) rs)
  = map (fun r => (rq_src r, rq_term r, rq_dst r)) a ++ tokens (mk_cluster m b rs).
Proof. unfold tokens. cbn. by rewrite map_app, <- app_assoc. Qed.

Lemma tokens_requests m m' rq rs : tokens (mk_cluster m rq rs) = tokens (mk_cluster m' rq rs).
Proof. done. Qed.

Lemma tokens_cons_response m rq r rs :
  tokens (mk_cluster m rq (r :: rs))
  ≡ₚ (if rs_accepted r then [(rs_dst r, rs_term r, rs_src r)] else []) ++ tokens (mk_cluster m rq rs).
Proof.
  unfold tokens. cbn [requests responses]. rewrite filter_cons.
  destruct (rs_accepted r); [|done]. rewrite decide_True by done. cbn [map app].
  by rewrite <- Permutation_middle.
Qed.

Lemma inv_drop_request c req a b :
  Inv c -> requests c = a ++ req :: b -> Inv (mk_cluster (servers c) (a ++ b) (responses c)).
Proof.
  intros I E. assert (sublist (tokens (mk_cluster (servers c) (a ++ b) (responses c))) (tokens c)) as S.
  { unfold tokens. rewrite E. cbn. rewrite !map_app. cbn. apply sublist_app; [|done].
    apply sublist_app; [done|]. by apply sublist_cons. }
  apply inv_drop; [done| | |done].
  - eapply sublist_NoDup; [apply (inv_nodup _ I)|exact S].
  - intros tk Hk. eapply elem_of_sublist; [exact Hk|exact S].
Qed.

Lemma inv_drop_response c resp a b :
  Inv c -> responses c = a ++ resp :: b -> Inv (mk_cluster (servers c) (requests c) (a ++ b)).
Proof.
  intros I E. assert (sublist (tokens (mk_cluster (servers c) (requests c) (a ++ b))) (tokens c)) as S.
  { unfold tokens. rewrite E. cbn. rewrite !filter_app, filter_cons, !map_app. apply sublist_app; [done|].
    apply sublist_app; [done|]. case_decide; [by apply sublist_cons|done]. }
  apply inv_drop; [done| | |].
  - eapply sublist_NoDup; [apply (inv_nodup _ I)|exact S].
  - intros tk Hk. eapply elem_of_sublist; [exact Hk|exact S].
  - intros r Hr _. rewrite E. apply elem_of_app in Hr as [?|?]; apply elem_of_app; [by left|].
    right. by apply elem_of_cons; right.
Qed.

(** ** An election starts *)

Lemma sent_emits s s' reqs : emits s s' reqs -> sent s s' = reqs.
Proof.
  intros (evs & E & <-). unfold sent. rewrite E, length_app.
  replace (length evs + length (trace_ s) - length (trace_ s))%nat with (length evs) by lia.
  by rewrite take_app_length.
Qed.

Lemma peer_ids i s j :
  member i s -> j ∈ map fst (map_to_list (peers_ s)) -> j ∈ members /\ j <> i.
Proof.
  intros (_ & _ & _ & _ & D & _) H. assert (j ∈ members ∖ {[ i ]}) as Hj; [|set_solver].
  rewrite <- D, dom_fmap_L. apply list_elem_of_fmap in H as ([k p] & -> & H).
  apply elem_of_map_to_list in H. by eapply elem_of_dom_2.
Qed.

Lemma inv_campaign c i s s' :
  Inv c -> servers c !! i = Some s -> campaign s s' ->
  Inv (mk_cluster (<[ i := s' ]> (servers c)) (sent s s' ++ requests c) (responses c)).
Proof.
  intros I Hi (t & reqs & Ht & (R1 & R2 & R3) & Mv).
  pose proof (inv_member _ I _ _ Hi) as Hm. assert (id_ s = i) as Ei by apply Hm. rewrite Ei in *.
  rewrite (sent_emits _ _ _ (moved_emits _ _ _ _ _ Mv)).
  assert (term_ (state_ s') = t) as Et by (pose proof (mv_vote _ _ _ _ _ Mv) as E; by injection E).
  assert (change i s s') as Ch.
  { eapply moved_change; [done|by apply (inv_ballot _ I i)|exact Mv|by left]. }
  assert (forall r, r ∈ reqs -> (rq_src r, rq_term r, rq_dst r) = (i, t, rq_dst r) /\
            rq_dst r ∈ members /\ rq_dst r <> i) as Hr.
  { intros r H. rewrite Forall_forall in R1, R3. destruct (R1 _ H) as (_ & -> & ->).
    split; [done|]. eapply peer_ids; [done|]. by apply R3. }
  assert (forall tk, tk ∈ map (fun r => (rq_src r, rq_term r, rq_dst r)) reqs ->
            fresh_token i s s' tk) as Hf.
  { intros tk (r & -> & H)%list_elem_of_fmap. destruct (Hr r H) as (-> & ? & ?).
    exists (rq_dst r). rewrite Et. done. }
  eapply inv_change; [done|done|done| | | |].
  - rewrite tokens_app_requests. apply NoDup_app. split_and!.
    + apply (NoDup_fmap_1 snd). change (NoDup (map snd (map (fun r => (rq_src r, rq_term r, rq_dst r)) reqs))).
      by rewrite map_map.
    + intros tk (j & -> & Hlt & _)%Hf H. destruct (inv_token _ I _ _ _ H) as (_ & _ & s0 & E & Hle).
      rewrite Hi in E. injection E as <-. lia.
    + apply (inv_nodup _ I).
  - intros tk. rewrite tokens_app_requests, elem_of_app. intros [H|H]; [right; by apply Hf|by left].
  - by left.
  - exists [i]. rewrite (mv_granted _ _ _ _ _ Mv), Et. split_and!; [split| |].
    + apply NoDup_singleton.
    + intros j ->%list_elem_of_singleton. split.
      * rewrite <- (inv_dom _ I). by eapply elem_of_dom_2.
      * exists s'. cbn. rewrite lookup_insert_eq. split; [done|].
        by destruct (moved_saves _ _ _ _ _ Mv (inv_ballot _ I i s Hi)) as (_ & _ & _ & ? & _).
    + done.
    + intros j ->%list_elem_of_singleton. rewrite tokens_app_requests, elem_of_app. intros [H|H].
      * apply Hf in H as (j & [= _ <-] & _ & _ & ?). done.
      * apply (inv_token _ I) in H as (_ & ? & _). done.
Qed.

Lemma inv_stands c i s s' :
  Inv c -> servers c !! i = Some s -> stands s s' ->
  Inv (mk_cluster (<[ i := s' ]> (servers c)) (sent s s' ++ requests c) (responses c)).
Proof.
  intros I Hi H. assert (Hs : steady s) by by apply (inv_member _ I i).
  destruct H as [F|(s1 & F & C)].
  - rewrite (sent_emits s s' []) by by apply framed_emits. by apply (inv_stay c i s).
  - pose proof (inv_stay c i s s1 I Hi F) as I1.
    pose proof (inv_campaign _ i s1 s' I1 (put_lookup i s1 c) C) as I2. cbn in I2.
    rewrite insert_insert_eq in I2.
    enough (sent s s' = sent s1 s') as -> by exact I2.
    destruct C as (t & reqs & _ & _ & Mv). pose proof (moved_emits _ _ _ _ _ Mv) as E.
    rewrite (sent_emits _ _ _ E). apply sent_emits. rewrite <- (app_nil_r reqs).
    eapply emits_trans; [by apply framed_emits|done].
Qed.

(** ** A vote request arrives *)

Lemma inv_request c req a b s :
  Inv c -> requests c = a ++ req :: b -> servers c !! rq_dst req = Some s ->
  let h := process_vote_req (EV := env (rq_dst req)) req in
  Inv (mk_cluster (<[ rq_dst req := run_state h s ]> (servers c)) (a ++ b)
         (answer (run_val h s) ++ responses c)).
Proof.
  intros I E Hi h. set (i := rq_dst req) in *. assert (steady s) as Hs by by apply (inv_member _ I i).
  destruct (process_vote_req_moves (EV := env i) req s Hs) as [(A & D)|(s1 & r & A & R)].
  - pose proof (inv_advances _ _ _ _ (inv_drop_request _ _ _ _ I E) Hi A) as I1.
    fold h in I1, D. unfold answer. destruct (run_val h s) as [[r|]|]; [|exact I1|exact I1].
    specialize (D r eq_refl).
    assert (tokens (mk_cluster (<[ i := run_state h s ]> (servers c)) (a ++ b) (r :: responses c))
      ≡ₚ tokens (put i (run_state h s) (mk_cluster (servers c) (a ++ b) (responses c)))) as T.
    { by rewrite tokens_cons_response, D. }
    apply (inv_drop _ (a ++ b) (r :: responses c)) in I1; [exact I1| | |].
    + change (NoDup (tokens (mk_cluster (<[ i := run_state h s ]> (servers c)) (a ++ b) (r :: responses c)))).
      rewrite T. apply (inv_nodup _ I1).
    + intros tk Hk. rewrite <- T. exact Hk.
    + intros r' [->|?]%elem_of_cons Ha; [congruence|done].
  - fold h in R. destruct R as (R1 & R2 & R3 & R4 & R5 & R6 & R7 & Mv). rewrite R1. cbn [answer app].
    pose proof (inv_advances _ _ _ _ I Hi A) as I1. pose proof (put_lookup i s1 c) as Hi1.
    assert (legal s1 (rq_term req, rq_src req)) as Lg by (right; split; [done|tauto]).
    assert (change i s1 (run_state h s)) as Ch.
    { eapply moved_change; [by apply (inv_member _ I1)|by apply (inv_ballot _ I1 i)|exact Mv|done]. }
    rewrite <- (insert_insert_eq (servers c) i _ s1).
    assert (id_ s1 = i) as Ei by by apply (inv_member _ I1 i).
    set (c' := mk_cluster (<[ i := run_state h s ]> (servers (put i s1 c))) (a ++ b) (r :: responses c)).
    assert (tokens c' ≡ₚ tokens (put i s1 c)) as T.
    { unfold c'. rewrite tokens_cons_response, R2, R3, R4, R5, Ei. unfold put, tokens.
      cbn [requests responses]. rewrite E, !map_app. cbn [map]. fold i.
      rewrite <- !app_assoc. cbn [app]. by rewrite Permutation_middle. }
    apply (inv_change (put i s1 c) i s1); [done|done|done| | | |]; fold c'.
    + rewrite T. apply (inv_nodup _ I1).
    + intros tk. rewrite T. by left.
    + intros r' [->|?]%elem_of_cons _; [right|by left]. rewrite R3, R4, R5, Ei.
      exists (run_state h s). split; [apply lookup_insert_eq|].
      by destruct (moved_saves _ _ _ _ _ Mv (inv_ballot _ I1 i s1 Hi1)) as (_ & _ & _ & ? & _).
    + destruct (inv_tally _ I1 _ _ Hi1) as (V & B & Z & N). exists V.
      pose proof (mv_vote _ _ _ _ _ Mv) as Ev. injection Ev as Ev _.
      rewrite Ev, R6, (mv_granted _ _ _ _ _ Mv).
      split_and!; [by eapply backed_change|done|]. intros j Hj. rewrite T. by apply N.
Qed.

(** ** A response to a vote request arrives *)

Hypothesis members_bound : Z.of_nat (base.size members) < 2 ^ 31 - 1.

Lemma tally_bound c i s : tally c i s -> is_s32 (votes_granted_ s + 1).
Proof.
  intros (V & (N & B) & <- & _).
  assert (length V <= base.size members)%nat as H.
  { rewrite <- (size_list_to_set (C := gset Z)) by done. apply subseteq_size.
    intros j Hj. apply elem_of_list_to_set in Hj. by apply B. }
  unfold zlen. unfold_width. lia.
Qed.

Lemma member_may_stand i s : member i s -> inc_term_ok (state_ s) = true -> may_stand s.
Proof.
  intros (_ & _ & Hs & _ & _ & M) Hi. split_and!; [done| |done].
  eapply map_Forall_impl; [exact M|]. by intros ? ? (? & _).
Qed.

(** The response is used up and may add its sender to the votes counted. *)
Lemma inv_count c resp a b s s' :
  Inv c -> responses c = a ++ resp :: b -> servers c !! rs_dst resp = Some s ->
  moved (vote_of (state_ s)) (votes_granted_ s + (if counted resp s then 1 else 0)) [] s s' ->
  Inv (mk_cluster (<[ rs_dst resp := s' ]> (servers c)) (requests c) (a ++ b)).
Proof.
  intros I E Hi Mv. set (i := rs_dst resp) in *.
  assert (change i s s') as Ch.
  { eapply moved_change; [by apply (inv_member _ I)|by apply (inv_ballot _ I i)|exact Mv|apply legal_stay]. }
  pose proof (mv_vote _ _ _ _ _ Mv) as Ev. injection Ev as Ev _.
  set (c' := mk_cluster (<[ i := s' ]> (servers c)) (requests c) (a ++ b)).
  assert (tokens c ≡ₚ (if rs_accepted resp then [(i, rs_term resp, rs_src resp)] else []) ++ tokens c') as T.
  { transitivity (tokens (mk_cluster (servers c) (requests c) (resp :: a ++ b)));
      [|apply tokens_cons_response]. unfold tokens. cbn [requests responses]. rewrite E.
    by rewrite Permutation_middle. }
  pose proof (inv_nodup _ I) as ND. rewrite T in ND. apply NoDup_app in ND as (_ & ND1 & ND2).
  apply (inv_change c i s); [done|done|done|done| | |]; fold c'.
  - intros tk Hk. left. rewrite T. apply elem_of_app. by right.
  - intros r Hr Ha. left. rewrite E. apply elem_of_app in Hr as [?|?]; apply elem_of_app; [by left|].
    right. by apply elem_of_cons; right.
  - destruct (inv_tally _ I _ _ Hi) as (V & B & Z & N).
    pose proof (backed_change c i s s' (requests c) (a ++ b) _ _ _ Hi Ch B) as B'. fold c' in B'.
    assert (forall j, j ∈ V -> (i, term_ (state_ s), j) ∉ tokens c') as N'.
    { intros j Hj Hin. apply (N j Hj). rewrite T. apply elem_of_app. by right. }
    unfold tally. rewrite Ev, (mv_granted _ _ _ _ _ Mv).
    destruct (counted resp s) eqn:C; [|exists V; by rewrite Z.add_0_r].
    unfold counted in C. apply andb_true_iff in C as [[_ Ht%Z.eqb_eq]%andb_true_iff Ha]. rewrite Ha, Ht in T, ND1.
    assert ((i, term_ (state_ s), rs_src resp) ∈ tokens c) as Hin by (rewrite T; by left).
    destruct B' as (NV & B'). exists (rs_src resp :: V). split_and!; [split| |].
    + apply NoDup_cons. split; [|done]. intros HV. by apply (N _ HV).
    + intros j [->|Hj]%elem_of_cons; [|by apply B']. split; [by apply (inv_token _ I _ _ _ Hin)|].
      eapply granted_change; [done|done|]. rewrite <- Ht. apply (inv_resp _ I); [|done].
      rewrite E. apply elem_of_app. right. by left.
    + rewrite zlen_cons. lia.
    + intros j [->|Hj]%elem_of_cons; [|by apply N']. apply ND1. by left.
Qed.

Lemma inv_response c resp a b s :
  Inv c -> responses c = a ++ resp :: b -> servers c !! rs_dst resp = Some s ->
  rs_type resp = request_vote_response ->
  Inv (mk_cluster (<[ rs_dst resp := run_state (peer_vote_resp (EV := env (rs_dst resp)) resp) s ]>
         (servers c)) (requests c) (a ++ b)).
Proof.
  intros I E Hi Ht. assert (steady s) as Hs by by apply (inv_member _ I (rs_dst resp)).
  pose proof (tally_bound _ _ _ (inv_tally _ I _ _ Hi)) as Hb.
  destruct (peer_vote_resp_counts (EV := env (rs_dst resp)) resp s Hs Hb Ht) as [A|(s1 & F & Mv)].
  - exact (inv_advances _ _ _ _ (inv_drop_response _ _ _ _ I E) Hi A).
  - pose proof (inv_stay c _ s s1 I Hi F) as I1.
    rewrite <- (insert_insert_eq (servers c) (rs_dst resp) _ s1).
    exact (inv_count (put (rs_dst resp) s1 c) resp a b s1 _ I1 E (put_lookup _ s1 c) Mv).
Qed.

(** ** Safety *)

Lemma inv_initial c : initial c -> Inv c.
Proof.
  intros (D & R & S & F).
  assert (tokens c = []) as T by (unfold tokens; by rewrite R, S).
  split; [done|intros i s H; by apply (F i)| |by rewrite T; constructor| | | |].
  - intros i s H. destruct (F i s H) as (_ & _ & _ & E). split; unfold persisted; rewrite E; [done| |].
    + intros t a [= -> ->]%list_elem_of_singleton. right. by split; [|right].
    + intros t a b [= -> ->]%list_elem_of_singleton [= ->]%list_elem_of_singleton. done.
  - intros i t j. rewrite T. by intros ?%not_elem_of_nil.
  - intros r. rewrite S. by intros ?%not_elem_of_nil.
  - intros i s H. destruct (F i s H) as (_ & _ & E & _). exists []. rewrite E.
    split_and!; [split; [constructor|]| |]; [|done|]; intros j Hj; by apply not_elem_of_nil in Hj.
  - intros i s H Hr. by destruct (F i s H) as (_ & ? & _).
Qed.

Lemma inv_step c c' : Inv c -> step c c' -> Inv c'.
Proof.
  intros I H. destruct H as [i s s' Hi F|i s o Hi|i s t Hi|i s Hi Ht|i s resp Hi Ht Hr|req a b s E Hi
    |resp a b s E Hi Ht Hr|req a b E|resp a b E|i s s' Hi R].
  - by eapply inv_stay.
  - eapply inv_advances; [done|done|]. apply advancing_replicate. by apply (inv_member _ I i).
  - eapply inv_advances; [done|done|]. apply advances_update_term. by apply (inv_member _ I i).
  - apply inv_stands; [done|done|]. apply standing_election_timeout.
    eapply member_may_stand; [by apply (inv_member _ I)|done].
  - assert (may_stand s) as Hs by (eapply member_may_stand; [by apply (inv_member _ I)|done]).
    destruct (peer_vote_resp_stands (EV := env i) resp s Hs Hr) as [A|A]; [|by apply inv_stands].
    subst s'. rewrite (sent_emits s _ []); [by eapply inv_advances|].
    by apply advances_emits; [apply Hs|].
  - by apply inv_request.
  - by apply inv_response.
  - by eapply inv_drop_request.
  - by eapply inv_drop_response.
  - pose proof (restart_change _ _ _ (inv_ballot _ I _ _ Hi) R) as Ch.
    eapply inv_put; [done|done|done|]. destruct R as (_ & _ & _ & E & _). exists []. rewrite E.
    split_and!; [split; [constructor|]| |]; [|done|]; intros j Hj; by apply not_elem_of_nil in Hj.
Qed.

(** What a server has saved, it has saved for good. *)
Definition keeps_saves (s s' : server) : Prop :=
  exists evs, trace_ s' = evs ++ trace_ s.

Lemma emits_saves s s' reqs : emits s s' reqs -> keeps_saves s s'.
Proof. intros (evs & E & _). by exists evs. Qed.

Lemma stands_saves s s' : steady s -> stands s s' -> keeps_saves s s'.
Proof.
  intros Hs [F|(s1 & F & t & reqs & _ & _ & Mv)].
  - by eapply emits_saves, framed_emits.
  - eapply emits_saves, emits_trans; [by apply framed_emits|by eapply moved_emits].
Qed.

Lemma granted_put c i s s' rq rs j t a :
  servers c !! i = Some s -> keeps_saves s s' -> granted c j t a ->
  granted (mk_cluster (<[ i := s' ]> (servers c)) rq rs) j t a.
Proof.
  intros Hi (evs & Et) (s0 & E & H). destruct (decide (i = j)) as [<-|Ne].
  - exists s'. cbn. rewrite lookup_insert_eq. split; [done|]. rewrite Hi in E. injection E as ->.
    rewrite Et, saves_app. apply elem_of_app. by right.
  - exists s0. cbn. by rewrite lookup_insert_ne.
Qed.

Lemma granted_step c c' j t a : Inv c -> step c c' -> granted c j t a -> granted c' j t a.
Proof.
  intros I H G. destruct H as [i s s' Hi F|i s o Hi|i s t0 Hi|i s Hi Ht|i s resp Hi Ht Hr|req a0 b s E Hi
    |resp a0 b s E Hi Ht Hr|req a0 b E|resp a0 b E|i s s' Hi R]; try done;
    eapply granted_put; try done; pose proof (inv_member _ I _ _ Hi) as (_ & _ & Hs & _).
  - by eapply emits_saves, framed_emits.
  - eapply emits_saves, advances_emits; [done|]. by apply advancing_replicate.
  - eapply emits_saves, advances_emits; [done|]. by apply advances_update_term.
  - apply stands_saves; [done|]. apply standing_election_timeout.
    eapply member_may_stand; [by apply (inv_member _ I)|done].
  - assert (may_stand s) as Hm by (eapply member_may_stand; [by apply (inv_member _ I)|done]).
    destruct (peer_vote_resp_stands (EV := env i) resp s Hm Hr) as [A|A]; [|by apply stands_saves].
    by eapply emits_saves, advances_emits.
  - destruct (process_vote_req_moves (EV := env (rq_dst req)) req s Hs) as [(A & _)|(s1 & r & A & R)].
    + by eapply emits_saves, advances_emits.
    + destruct R as (_ & _ & _ & _ & _ & _ & _ & Mv).
      eapply emits_saves, emits_trans; [by apply advances_emits|by eapply moved_emits].
  - pose proof (tally_bound _ _ _ (inv_tally _ I _ _ Hi)) as Hb.
    destruct (peer_vote_resp_counts (EV := env (rs_dst resp)) resp s Hs Hb Hr) as [A|(s1 & F & Mv)].
    + by eapply emits_saves, advances_emits.
    + eapply emits_saves, emits_trans; [by apply framed_emits|by eapply moved_emits].
  - destruct R as (_ & _ & _ & _ & E). by exists [].
Qed.

Lemma inv_steps c c' : Inv c -> rtc step c c' -> Inv c'.
Proof. intros I H. induction H; eauto using inv_step. Qed.

Lemma granted_steps c c' j t a : Inv c -> rtc step c c' -> granted c j t a -> granted c' j t a.
Proof. intros I H. induction H; eauto using inv_step, granted_step. Qed.

Lemma one_majority c t i j :
  (forall k, k ∈ members -> 0 <= k) -> Inv c -> i ∈ members -> j ∈ members ->
  majority c t i -> majority c t j -> i = j.
Proof.
  intros Hpos I Hi Hj (V1 & (N1 & B1) & Z1) (V2 & (N2 & B2) & Z2).
  destruct (majorities_meet members V1 V2) as (k & K1 & K2);
    [done|done|by intros ? (? & _)%B1|by intros ? (? & _)%B2|done|done|].
  destruct (B1 _ K1) as (_ & s1 & E1 & G1), (B2 _ K2) as (_ & s2 & E2 & G2).
  rewrite E1 in E2. injection E2 as <-.
  apply (bl_unique _ (inv_ballot _ I _ _ E1) t); [done|done| |].
  - pose proof (Hpos i Hi). lia.
  - pose proof (Hpos j Hj). lia.
Qed.


End Safety.

(** ** A concrete election *)

Section Sample.

#[local] Existing Instance zeroed.

Definition trio_cluster : cluster :=
  mk_cluster {[ 1 := trio_server 1; 2 := trio_server 2; 3 := trio_server 3 ]} [] [].

#[local] Abbreviation trio_step := (step (fun _ => sample_env) trio).

(** Server 1 over one election: time passes, its election timer fires, its
    connections are freed, a pre-vote is answered. *)
Definition trio_1a := run_state (modify (fun s => s <| now_ := 1000000000 |>)) (trio_server 1).

Definition trio_1b := run_state (handle_election_timeout (EV := sample_env)) trio_1a.

Definition trio_1c := run_state (upd_peer 2 set_free ;; upd_peer 3 set_free) trio_1b.

Definition trio_prevote := resp_msg_new 0 pre_vote_response 2 1 0 true.

Definition trio_1d := run_state (peer_vote_resp (EV := sample_env) trio_prevote) trio_1c.

(** One of its vote requests is answered. *)
Definition trio_request :=
  default (req_msg_new 0 request_vote_request 0 0 0 0 0) (head (sent trio_1c trio_1d)).

Definition trio_voter := trio_server (rq_dst trio_request).

Definition trio_vote := process_vote_req (EV := sample_env) trio_request.

Definition trio_response := default trio_prevote (head (answer (run_val trio_vote trio_voter))).

Definition trio_1e := run_state (peer_vote_resp (EV := sample_env) trio_response) trio_1d.

Definition trio_after : cluster :=
  let m := servers trio_cluster in
  mk_cluster (<[ 1 := trio_1e ]> (<[ rq_dst trio_request := run_state trio_vote trio_voter ]>
    (<[ 1 := trio_1d ]> m))) (tail (sent trio_1c trio_1d)) [].

Lemma trio_member i : i ∈ [1; 2; 3] -> member trio i (trio_server i).
Proof.
  intros Hi. repeat (apply elem_of_cons in Hi as [->|Hi]); [| | |by apply not_elem_of_nil in Hi];
    (split_and!; [by vm_compute|by vm_compute| |by vm_compute|by vm_compute|]);
    [split_and!; [by vm_compute|by vm_compute|]| |split_and!; [by vm_compute|by vm_compute|]|
     |split_and!; [by vm_compute|by vm_compute|]|]; apply map_Forall_to_list; vm_compute;
    by repeat constructor.
Qed.

Lemma trio_initial : initial trio trio_cluster.
Proof.
  split_and!; [by vm_compute|done|done|].
  intros i s H. assert (i ∈ [1; 2; 3] /\ s = trio_server i) as (Hi & ->).
  { revert H. unfold trio_cluster. cbn [servers]. rewrite !lookup_insert_Some.
    intros [(<- & <-)|(_ & [(<- & <-)|(_ & (<- & <-)%lookup_singleton_Some)])];
      (split; [|done]); rewrite !elem_of_cons; tauto. }
  split; [by apply trio_member|].
  repeat (apply elem_of_cons in Hi as [->|Hi]); [by vm_compute..|by apply not_elem_of_nil in Hi].
Qed.

Lemma trio_steady s :
  s = trio_server 1 \/ s = trio_1b -> steady s.
Proof.
  intros [->| ->]; (split_and!; [by vm_compute|by vm_compute|]); apply map_Forall_to_list; vm_compute;
    by repeat constructor.
Qed.

(** An operation of one server that neither votes nor asks for votes. *)
Lemma trio_local {A} (m : M (raft_server inmem_log_store) A) c i s :
  servers c !! i = Some s -> steady s -> quietly (fun _ => True) m ->
  trio_step c (put i (run_state m s) c).
Proof. intros Hi Hs C. apply step_local with s; [done|]. by apply C. Qed.

Lemma trio_run : rtc trio_step trio_cluster trio_after.
Proof.
  eapply rtc_l.
  { apply (trio_local (modify (fun s => s <| now_ := 1000000000 |>)) _ 1 (trio_server 1));
      [by vm_compute|apply trio_steady; by left|quiet]. }
  eapply rtc_l.
  { apply (step_timeout (fun _ => sample_env) _ _ 1 trio_1a); [by vm_compute|by vm_compute]. }
  eapply rtc_l.
  { apply (trio_local (upd_peer 2 set_free ;; upd_peer 3 set_free) _ 1 trio_1b);
      [by vm_compute|apply trio_steady; by right|quiet]. }
  eapply rtc_l.
  { apply (step_prevote (fun _ => sample_env) _ _ 1 trio_1c trio_prevote);
      [by vm_compute|by vm_compute|done]. }
  eapply rtc_l.
  { apply (step_request (fun _ => sample_env) _ _ trio_request [] (tail (sent trio_1c trio_1d)) trio_voter);
      by vm_compute. }
  eapply rtc_l.
  { apply (step_response (fun _ => sample_env) _ _ trio_response [] [] trio_1d); by vm_compute. }
  match goal with |- rtc _ ?c _ => assert (c = trio_after) as -> by (by vm_compute) end. done.
Qed.


End Sample.
