(* ===== verification/Rules.v ===== *)
(** The rules single operations follow: who gets a vote, how the priority asked
    of a leader decays, which time limits a server runs with and with what it
    starts. *)
From S2P Require Import Prelude Buffer Serializer Codec Messages Peer LogStore Server.
From S2P Require Import Replication Election Startup Samples Follower Leader Total Append Frame Votes Safety.

(** * Votes *)

Section VoteRules.
Context {L : Type} `{LS : LogStore L} `{SP : !LogStoreSpec L} `{EV : Env} `{U : Uninit}.

#[local] Abbreviation server := (raft_server L).

(** The log that ends with an entry of [term] at [idx] is at least as up-to-date
    as [a]. *)
Definition up_to_date (term idx : Z) (a : alog) : Prop :=
  let last := al_next a - 1 in
  al_term a last < term \/ (term = al_term a last /\ last <= idx).

Lemma vote_rule (req : req_msg) (s : server) :
  ls_ok (log_store_ s) ->
  exists resp s', handle_vote_req req s = (Ok resp, s') /\
    rs_term resp = term_ (state_ s) /\
    (rs_accepted resp = true <->
       rq_term req = term_ (state_ s) /\
       up_to_date (rq_last_log_term req) (rq_last_log_idx req) (log_of s) /\
       (voted_for_ (state_ s) = rq_src req \/ voted_for_ (state_ s) = -1) /\
       priority_too_low req s = false) /\
    (rs_accepted resp = true ->
       vote_of (state_ s') = (term_ (state_ s), rq_src req) /\
       trace_ s' = Ev_save_state (state_ s') :: trace_ s) /\
    (rs_accepted resp = false -> s' = s).
Proof.
  intros O. rewrite handle_vote_req_eq. destruct (ls_last_entry _ O) as (e & -> & Ht).
  cbv zeta. replace (s <| log_store_ := log_store_ s |>) with s by by destruct s.
  pose proof (ls_range _ O) as R. fold (log_of s) in Ht, R.
  assert (vote_grant req e s && negb (priority_too_low req s) = true <->
       rq_term req = term_ (state_ s) /\
       up_to_date (rq_last_log_term req) (rq_last_log_idx req) (log_of s) /\
       (voted_for_ (state_ s) = rq_src req \/ voted_for_ (state_ s) = -1) /\
       priority_too_low req s = false) as G.
  { unfold vote_grant, vote_log_okay, up_to_date, get_last_log_idx.
    rewrite (ls_next_slot _ O), Ht. fold (log_of s).
    rewrite u64_small by (unfold is_u64, al_next in *; pose proof (zlen_nonneg (al_entries (log_of s))); lia).
    rewrite !andb_true_iff, !orb_true_iff, andb_true_iff, negb_true_iff, !Z.eqb_eq, Z.ltb_lt, Z.leb_le.
    tauto. }
  destruct (_ && _).
  - eexists _, _. split; [done|]. cbn. split_and!; try done.
  - eexists _, _. split; [done|]. cbn. split_and!; try done.
Qed.


(** The vote of a server whose log is compacted to the end goes to any
    candidate of its term with some entry, however old: the check of the
    candidate's log reads the store's last entry, which is then the dummy of
    term 0, and not the snapshot that replaced the entries. *)
Theorem compacted_log_grants_stale (req : req_msg) (s : server) :
  ls_ok (log_store_ s) -> al_entries (log_of s) = [] ->
  rq_term req = term_ (state_ s) -> voted_for_ (state_ s) = -1 -> priority_too_low req s = false ->
  0 < rq_last_log_term req ->
  exists resp s', handle_vote_req req s = (Ok resp, s') /\ rs_accepted resp = true /\
    voted_for_ (state_ s') = rq_src req.
Proof.
  intros O E Ht Hv Hp Hl. destruct (vote_rule req s O) as (resp & s' & Er & _ & G & Hs & _).
  assert (rs_accepted resp = true) as A.
  { apply G. split_and!; [done| |by right|done]. left. unfold al_term, al_at, al_next. rewrite E, zlen_nil.
    destruct (_ <=? _); done. }
  exists resp, s'. split_and!; [done|done|]. destruct (Hs A) as (V & _). by injection V.
Qed.

End VoteRules.

(** * Examples of votes *)

Section SampleVotes.

#[local] Existing Instance zeroed.
#[local] Existing Instance sample_env.

(** A server of term 3 whose entries, of the terms 1, 1 and 2, are all in a
    snapshot. *)
Definition sample_compacted : raft_server inmem_log_store :=
  (trio_server 2) <| log_store_ := run_state (compact 3) (store_of [1; 1; 2]) |>
    <| state_ ::= set_term 3 |>.

(** A candidate with one entry of the term 1. *)
Definition sample_stale_vote : req_msg := req_msg_new 3 request_vote_request 1 2 1 1 0.

Lemma sample_compacted_log :
  ls_ok (log_store_ sample_compacted) /\ log_of sample_compacted = mk_alog 4 [].
Proof.
  destruct (store_of_ok [1; 1; 2] eq_refl) as (O & V).
  destruct (ls_compact 3 _ O eq_refl) as (l & E & O' & V').
  assert (log_store_ sample_compacted = l) as El.
  { change (run_state (compact 3) (store_of [1; 1; 2]) = l). unfold run_state. by rewrite E. }
  unfold log_of. rewrite El, V', V. split; [exact O'|]. vm_compute. reflexivity.
Qed.

Lemma compacted_log_grants_stale_witness :
  exists resp s', handle_vote_req sample_stale_vote sample_compacted = (Ok resp, s') /\
    rs_accepted resp = true /\ voted_for_ (state_ s') = 1.
Proof.
  destruct sample_compacted_log as (O & V).
  apply (compacted_log_grants_stale sample_stale_vote sample_compacted O); [by rewrite V|..];
    vm_compute; reflexivity.
Defined.


End SampleVotes.

(** * Priorities *)

Section PriorityRules.
Context {L : Type} `{LS : LogStore L} `{EV : Env} `{U : Uninit}.

#[local] Abbreviation server := (raft_server L).

(** The server after [n] decays. *)
Definition decayed (n : nat) (s : server) : server := Nat.iter n (run_state decay_target_priority) s.

Lemma decay_step (s : server) :
  let t := target_priority_ s in
  let t' := target_priority_ (run_state decay_target_priority s) in
  1 <= t' /\ (1 <= t -> t' <= Z.max 1 (t - 10) /\ t' <= Z.max 1 (t - t / 5)).
Proof.
  cbv zeta. unfold run_state, decay_target_priority, modify. cbn.
  set (t := target_priority_ s).
  assert (target_priority_ (if 1 <? t then s <| target_priority_ := Z.max 1 (t - Z.max 10 (Z.quot t 5)) |>
      <| priority_change_timer_ ::= timer_reset (now_ s) 0 |>
    else s <| target_priority_ := Z.max 1 (t - Z.max 10 (Z.quot t 5)) |>)
    = Z.max 1 (t - Z.max 10 (Z.quot t 5))) as E by by destruct (1 <? t).
  match goal with |- context [target_priority_ ?x] => change x with
    (if 1 <? t then s <| target_priority_ := Z.max 1 (t - Z.max 10 (Z.quot t 5)) |>
      <| priority_change_timer_ ::= timer_reset (now_ s) 0 |>
    else s <| target_priority_ := Z.max 1 (t - Z.max 10 (Z.quot t 5)) |>) end.
  rewrite E. split; [lia|]. intros Ht. rewrite Z.quot_div_nonneg by lia. lia.
Qed.

(** The priority asked of a leader decays with each election timeout or new
    term by at least 10 (and by a fifth), never below 1, and is 1 after a tenth
    as many as it was: then every server of a positive priority may stand. *)
Theorem target_priority_decays (n : nat) (s : server) :
  1 <= target_priority_ s <= 10 * Z.of_nat n + 1 ->
  target_priority_ (decayed n s) = 1 /\
  (forall k, (k <= n)%nat -> 1 <= target_priority_ (decayed k s) <= target_priority_ s).
Proof.
  intros Ht.
  assert (forall k, 1 <= target_priority_ (decayed k s) <= target_priority_ s /\
    target_priority_ (decayed k s) <= Z.max 1 (target_priority_ s - 10 * Z.of_nat k)) as H.
  { induction k as [|k IH]; [cbn; lia|]. pose proof (decay_step (decayed k s)) as (H1 & H2).
    change (run_state decay_target_priority (decayed k s)) with (decayed (S k) s) in *. lia. }
  split; [pose proof (H n); lia|]. intros k _. apply H.
Qed.

End PriorityRules.

Section SamplePriority.

#[local] Existing Instance zeroed.
#[local] Existing Instance sample_env.

Lemma target_priority_decays_witness :
  target_priority_ (decayed 10 ((trio_server 1) <| target_priority_ := 100 |>)) = 1.
Proof.
  apply (target_priority_decays 10 ((trio_server 1) <| target_priority_ := 100 |>)).
  vm_compute. split; congruence.
Defined.

End SamplePriority.

(** * Time limits *)

(** Outside the test mode a server runs with a heartbeat interval below the
    smallest election timeout, and this below the largest, whatever the user has
    set, and the heartbeat interval is the user's. *)
Theorem timeouts_ordered (p : raft_params) :
  0 < heart_beat_interval_ p < 2 ^ 29 -> election_timeout_lower_bound_ p < 2 ^ 30 ->
  let q := apply_params_fixes false p in
  heart_beat_interval_ q = heart_beat_interval_ p /\
  heart_beat_interval_ q < election_timeout_lower_bound_ q < election_timeout_upper_bound_ q.
Proof.
  intros H1 H2. cbv zeta. unfold apply_params_fixes.
  set (lower := if election_timeout_lower_bound_ p <=? heart_beat_interval_ p
                then heart_beat_interval_ p * 2 else election_timeout_lower_bound_ p).
  assert (heart_beat_interval_ p < lower < 2 ^ 30) as Hl by (subst lower; destruct (Z.leb_spec (election_timeout_lower_bound_ p) (heart_beat_interval_ p)); lia).
  set (p1 := if _ <=? _ then _ else p).
  assert (election_timeout_lower_bound_ p1 = lower /\ heart_beat_interval_ p1 = heart_beat_interval_ p) as (E1 & E2).
  { subst p1 lower. destruct (_ <=? _); [|done]. cbn. split; [|done]. apply s32_small. unfold_width. lia. }
  clearbody p1 lower. destruct (Z.leb_spec (election_timeout_upper_bound_ p1) (election_timeout_lower_bound_ p1)).
  - cbn. rewrite s32_small by (unfold_width; lia). lia.
  - lia.
Qed.

Lemma timeouts_ordered_witness :
  let q := apply_params_fixes false (raft_params_default <| heart_beat_interval_ := 500 |>) in
  heart_beat_interval_ q < election_timeout_lower_bound_ q < election_timeout_upper_bound_ q.
Proof.
  apply (timeouts_ordered (raft_params_default <| heart_beat_interval_ := 500 |>)).
  - split; reflexivity.
  - reflexivity.
Defined.

(** * Startup *)

Section StartRules.
Context {L : Type} `{LS : LogStore L} `{SP : !LogStoreSpec L} `{EV : Env} `{U : Uninit}.

#[local] Abbreviation server := (raft_server L).

(** What the loop over the configured servers keeps. *)
Definition configures (m : gmap Z srv_config) (s s' : server) : Prop :=
  config_ <$> peers_ s' = m ∪ (config_ <$> peers_ s) /\
  id_ s' = id_ s /\ state_ s' = state_ s /\ role_ s' = role_ s /\
  votes_granted_ s' = votes_granted_ s /\ params_ s' = params_ s /\
  srv_to_leave_ s' = srv_to_leave_ s /\ trace_ s' = trace_ s /\ log_store_ s' = log_store_ s /\
  (map_Forall (fun _ p => rsv_ok p) (peers_ s) -> map_Forall (fun _ p => rsv_ok p) (peers_ s')).

(** The configurations of the other servers, by id. *)
Definition others (i : Z) (l : list srv_config) : gmap Z srv_config :=
  list_to_map (map (fun c => (sc_id c, c)) (filter (fun c => sc_id c <> i) l)).

Lemma others_cons i c l :
  others i (c :: l) = if decide (sc_id c = i) then others i l else <[ sc_id c := c ]> (others i l).
Proof. unfold others. rewrite filter_cons. repeat case_decide; done. Qed.

Lemma others_None i l j : j ∉ map sc_id l -> others i l !! j = None.
Proof.
  intros H. apply not_elem_of_list_to_map. rewrite <- list_fmap_compose.
  intros (c & -> & Hc)%list_elem_of_fmap. apply H. apply list_elem_of_filter in Hc as (_ & Hc).
  by apply list_elem_of_fmap_2.
Qed.

Lemma others_Some i l j c : others i l !! j = Some c -> sc_id c = j /\ c ∈ l /\ j <> i.
Proof.
  intros H. apply elem_of_list_to_map_2, list_elem_of_fmap in H as (c' & [= -> ->] & Hc).
  by apply list_elem_of_filter in Hc as (? & ?).
Qed.

Lemma dom_others i l X : list_to_set (map sc_id l) = X -> dom (others i l) = X ∖ {[ i ]}.
Proof.
  intros <-. unfold others. rewrite dom_list_to_map_L, <- list_fmap_compose.
  apply set_eq. intros j. rewrite elem_of_list_to_set, elem_of_difference, elem_of_list_to_set,
    elem_of_singleton, !list_elem_of_fmap. setoid_rewrite list_elem_of_filter. naive_solver.
Qed.

Lemma add_all_configured_ok l (s : server) :
  NoDup (map sc_id l) -> (forall c, c ∈ l -> peers_ s !! sc_id c = None) ->
  Forall (fun c => sc_learner c = false) l -> im_learner_ s = false ->
  exists s', add_all_configured l s = (Ok tt, s') /\ configures (others (id_ s) l) s s' /\
    im_learner_ s' = false.
Proof.
  revert s. induction l as [|c l IH]; intros s ND Hp Hl Hs.
  { exists s. split_and!; [done| |done]. unfold configures, others. cbn. rewrite map_empty_union. done. }
  apply NoDup_cons in ND as (Nc & ND). apply Forall_cons in Hl as (Hc & Hl).
  cbn [add_all_configured]. unfold bind, add_configured, modify. cbv beta.
  rewrite others_cons, (Hp c) by by left. destruct (Z.eqb_spec (sc_id c) (id_ s)) as [E|E]; cbn [negb].
  - destruct (IH (s <| im_learner_ := sc_learner c |> <| my_priority_ := sc_priority c |>))
      as (s' & E' & C & Hl'); [done| |done|done|].
    { intros c' Hc'. apply Hp. by right. }
    exists s'. rewrite decide_True by done. by split_and!.
  - set (s1 := s <| peers_ ::= _ |>).
    destruct (IH s1) as (s' & E' & C & Hl'); [done| |done|done|].
    { intros c' Hc'. cbn. rewrite lookup_insert_ne; [by apply Hp; right|]. intros Eq. apply Nc.
      rewrite Eq. by apply list_elem_of_fmap_2. }
    exists s'. split_and!; [done| |done]. rewrite decide_False by done.
    destruct C as (C1 & C2). split.
    + rewrite C1. change (peers_ s1) with (<[ sc_id c := peer_new (now_ s) c (params_ s)
        (create_client (trace_ s) (sc_endpoint c)) ]> (peers_ s)).
      rewrite fmap_insert. cbn [config_ peer_new]. change (id_ s1) with (id_ s).
      rewrite <- insert_union_r by by apply others_None. by rewrite insert_union_l.
    + destruct C2 as (? & ? & ? & ? & ? & ? & ? & ? & Hr). split_and!; try done.
      intros F. apply Hr. by apply map_Forall_insert_2.
Qed.

Lemma find_conf_ok n i (s : server) :
  ls_ok (log_store_ s) -> al_start (log_of s) <= i ->
  ((0 < n)%nat -> i + Z.of_nat n <= al_next (log_of s)) ->
  exists b, find_conf n i s = (Ok b, s).
Proof.
  intros O. revert i. induction n as [|n IH]; intros i Hi Hn; [by exists false|].
  specialize (Hn ltac:(lia)). cbn [find_conf]. unfold bind, with_log. pose proof (ls_range _ O) as (R1 & R2). fold (log_of s) in R1, R2.
  destruct (al_at (log_of s) i) as [e|] eqn:E.
  - rewrite (ls_entry_at i _ e O E). replace (s <| log_store_ := log_store_ s |>) with s by by destruct s.
    destruct (bool_decide _); [by exists true|]. rewrite u64_small by (unfold_width; lia). apply IH; lia.
  - exfalso. revert E. unfold al_at. rewrite leb_true by lia. intros E%lookup_ge_None.
    unfold al_next, zlen in Hn. lia.
Qed.

(** The parameters a server runs with. *)
Definition started_params (test_mode : bool) (p : raft_params) : raft_params :=
  apply_params_fixes test_mode
    (if stale_log_gap_ p <? fresh_log_gap_ p then p <| stale_log_gap_ := fresh_log_gap_ p |> else p).

Lemma started_params_keep t p :
  auto_adjust_quorum_for_small_cluster_ (started_params t p) = auto_adjust_quorum_for_small_cluster_ p /\
  custom_election_quorum_size_ (started_params t p) = custom_election_quorum_size_ p.
Proof.
  unfold started_params, apply_params_fixes. set (q := if _ <? _ then _ else p).
  assert (auto_adjust_quorum_for_small_cluster_ q = auto_adjust_quorum_for_small_cluster_ p /\
    custom_election_quorum_size_ q = custom_election_quorum_size_ p) as (<- & <-)
    by (subst q; by destruct (_ <? _)).
  clearbody q. destruct t; [done|]. destruct (election_timeout_lower_bound_ q <=? heart_beat_interval_ q);
    by destruct (_ <=? _).
Qed.

(** What the ballot and the peers of a server are made of. *)
Definition same_core (s s' : server) : Prop :=
  peers_ s' = peers_ s /\ im_learner_ s' = im_learner_ s /\ id_ s' = id_ s /\ state_ s' = state_ s /\
  role_ s' = role_ s /\ votes_granted_ s' = votes_granted_ s /\ srv_to_leave_ s' = srv_to_leave_ s /\
  trace_ s' = trace_ s /\ log_store_ s' = log_store_ s /\ rs_config_ s' = rs_config_ s.

Lemma bind_modify {S A} (f : S -> S) (k : unit -> M S A) s : bind (modify f) k s = k tt (f s).
Proof. done. Qed.

Lemma bind_assoc {S A B C} (m : M S A) (k : A -> M S B) (h : B -> M S C) s :
  bind (bind m k) h s = bind m (fun a => bind (k a) h) s.
Proof. unfold bind. by destruct (m s) as [[] ?]. Qed.

(** The constructor before it looks at the log. *)
Lemma body_prefix t (s : server) :
  exists s0, same_core s s0 /\ params_ s0 = started_params t (params_ s) /\
    sm_commit_index_ s0 = sm_commit_index_ s /\
    raft_server_body t s =
      (let i := Z.max (u64 (sm_commit_index_ s0 + 1)) (start_index (log_store_ s0)) in
       changing <- find_conf (Z.to_nat (next_slot (log_store_ s0) - i)) i ;;
       modify (fun s => if changing then s <| config_changing_ := true |> else s) ;;
       add_all_configured (cc_servers (rs_config_ s0))) s0.
Proof.
  unfold raft_server_body, apply_and_log_current_params.
  rewrite bind_modify. cbv beta. match goal with |- context [bind (modify _) _ ?x] => set (s1 := x) end.
  assert (same_core s s1 /\ sm_commit_index_ s1 = sm_commit_index_ s) as (C1 & M1) by by repeat split.
  assert (params_ s1 = if stale_log_gap_ (params_ s) <? fresh_log_gap_ (params_ s)
    then (params_ s) <| stale_log_gap_ := fresh_log_gap_ (params_ s) |> else params_ s) as E1 by reflexivity.
  clearbody s1. rewrite bind_modify. cbv beta.
  match goal with |- context [bind (bind _ _) _ ?x] => set (s1' := x) end.
  assert (same_core s1 s1' /\ sm_commit_index_ s1' = sm_commit_index_ s1 /\ params_ s1' = params_ s1) as (C1' & M1' & E1')
    by (subst s1'; destruct (_ && _); by repeat split).
  clearbody s1'. rewrite bind_assoc, bind_modify. cbv beta.
  match goal with |- context [bind (modify _) _ ?x] => set (s2 := x) end.
  assert (same_core s1' s2 /\ sm_commit_index_ s2 = sm_commit_index_ s1') as (C2 & M2) by by repeat split.
  assert (params_ s2 = apply_params_fixes t (params_ s1')) as E2 by reflexivity.
  clearbody s2. rewrite bind_modify. cbv beta.
  match goal with |- context [bind self _ ?x] => set (s3 := x) end.
  assert (same_core s2 s3 /\ sm_commit_index_ s3 = sm_commit_index_ s2) as (C3 & M3) by by repeat split.
  assert (params_ s3 = params_ s2) as E3 by reflexivity. clearbody s3.
  exists s3. split; [|split; [|split; [congruence|reflexivity]]].
  - unfold same_core in *. naive_solver congruence.
  - rewrite E3, E2, E1', E1. reflexivity.
Qed.

Lemma body_ok t (s : server) :
  let l := cc_servers (rs_config_ s) in
  ls_ok (log_store_ s) -> 0 <= sm_commit_index_ s < 2 ^ 64 - 1 ->
  peers_ s = ∅ -> im_learner_ s = false ->
  NoDup (map sc_id l) -> Forall (fun c => sc_learner c = false) l ->
  exists s0 s', raft_server_body t s = (Ok tt, s') /\ same_core s s0 /\
    params_ s' = started_params t (params_ s) /\
    configures (others (id_ s) l) s0 s' /\ im_learner_ s' = false.
Proof.
  intros l O Hc P1 P2 ND Hl. destruct (body_prefix t s) as (s0 & C0 & Hp & Es & E).
  destruct C0 as (Q1 & Q2 & Q3 & Q4 & Q5 & Q6 & Q7 & Q8 & Q9 & Q10).
  rewrite E. cbv zeta. rewrite Q9, Es, Q10. pose proof (ls_range _ O) as R.
  rewrite (ls_next_slot _ O), (ls_start_index _ O), u64_small by (unfold_width; lia).
  set (i := Z.max _ _). set (n := Z.to_nat _).
  destruct (find_conf_ok n i s0) as (c & Ef); [by rewrite Q9|..];
    [unfold log_of; rewrite Q9; lia|unfold log_of; rewrite Q9; lia|].
  unfold bind. rewrite Ef. unfold modify. cbv beta iota.
  set (s1 := if c then s0 <| config_changing_ := true |> else s0).
  assert (same_core s0 s1 /\ params_ s1 = params_ s0) as (C1 & Hp1)
    by (subst s1; destruct c; [destruct s0|]; repeat split).
  clearbody s1. destruct C1 as (T1 & T2 & T3 & T4 & T5 & T6 & T7 & T8 & T9 & T10).
  destruct (add_all_configured_ok l s1 ND) as (s' & E' & C & Hi); [|done|congruence|].
  { intros c' _. by rewrite T1, Q1, P1. }
  exists s1, s'. split; [exact E'|]. split; [repeat split; congruence|].
  rewrite T3, Q3 in C. split; [|by split]. destruct C as (_ & _ & _ & _ & _ & Cp & _). congruence.
Qed.

Lemma raft_server_new_ok (b : boot) :
  let l := cc_servers (bo_config b) in
  ls_ok (bo_log_store b) -> 0 <= bo_last_commit_index b < 2 ^ 64 - 1 ->
  NoDup (map sc_id l) -> Forall (fun c => sc_learner c = false) l ->
  exists s', raft_server_new b = (Ok tt, s') /\
    config_ <$> peers_ s' = others (bo_server_id b) l /\
    id_ s' = bo_server_id b /\
    state_ s' = default (set_voted_for (-1) (set_term 0 srv_state_init)) (bo_state b) /\
    role_ s' = follower /\ votes_granted_ s' = 0 /\
    params_ s' = started_params (bo_test_mode b) (bo_params b) /\
    srv_to_leave_ s' = None /\ trace_ s' = bo_trace b /\ log_store_ s' = bo_log_store b /\
    map_Forall (fun _ p => rsv_ok p) (peers_ s') /\ im_learner_ s' = false.
Proof.
  intros l O Hc ND Hl. unfold raft_server_new.
  destruct (body_ok (bo_test_mode b) (raft_server_members b)) as (s0 & s' & E & C0 & Hp & C & Hi);
    [exact O|exact Hc|reflexivity|reflexivity|exact ND|exact Hl|].
  exists s'. split; [exact E|]. clear E.
  destruct C0 as (Q1 & Q2 & Q3 & Q4 & Q5 & Q6 & Q7 & Q8 & Q9 & Q10).
  destruct C as (C1 & C2 & C3 & C4 & C5 & C6 & C7 & C8 & C9 & C10).
  rewrite Q1 in C1, C10. change (peers_ (raft_server_members b)) with (∅ : gmap Z peer) in *.
  rewrite fmap_empty, map_union_empty in C1.
  split; [exact C1|]. split; [by rewrite C2, Q3|]. split; [by rewrite C3, Q4|].
  split; [by rewrite C4, Q5|]. split; [by rewrite C5, Q6|]. split; [exact Hp|].
  split; [by rewrite C7, Q7|]. split; [by rewrite C8, Q8|]. split; [by rewrite C9, Q9|].
  split; [by apply C10|exact Hi].
Qed.

(** C16: the constructor restarts a server: from what the state manager kept it
    gets a follower with the term and vote last saved, no votes counted, the log
    and, as its peers, the other servers of the configuration.  So it is
    [restarted] in the sense of the safety of elections. *)
Theorem constructor_restarts (members : gset Z) (b : boot) (s : server) (st : srv_state) :
  let l := cc_servers (bo_config b) in
  ls_ok (bo_log_store b) -> 0 <= bo_last_commit_index b < 2 ^ 64 - 1 ->
  bo_state b = Some st -> persisted s = Some (vote_of st) -> bo_trace b = trace_ s ->
  NoDup (map sc_id l) -> list_to_set (map sc_id l) = members ->
  Forall (fun c => sc_learner c = false /\ sc_new_joiner c = false) l ->
  auto_adjust_quorum_for_small_cluster_ (bo_params b) = false ->
  custom_election_quorum_size_ (bo_params b) <= 0 ->
  exists s', raft_server_new b = (Ok tt, s') /\ restarted members (bo_server_id b) s s' /\
    role_ s' = follower /\ log_store_ s' = bo_log_store b.
Proof.
  intros l O Hc Est Hp Htr ND Hm Hl Ha Hq.
  destruct (raft_server_new_ok b) as (s' & E & C1 & C2 & C3 & C4 & C5 & C6 & C7 & C8 & C9 & C10 & C11);
    [done|done|done|by eapply Forall_impl; [exact Hl|]; intros ? (? & _)|].
  destruct (started_params_keep (bo_test_mode b) (bo_params b)) as (K1 & K2).
  exists s'. split; [done|]. split; [|done]. rewrite Est in C3. cbn in C3.
  split_and!; [| |by rewrite C4|done|congruence].
  - split_and!; [done|done|split_and!; [by rewrite C6, K1|done|done]|by rewrite C6, K2| |].
    + rewrite C1. apply dom_others; done.
    + rewrite C1. intros j c Hj. apply others_Some in Hj as (-> & Hj & _).
      rewrite Forall_forall in Hl. split; [done|]. by apply Hl.
  - by rewrite C3.
Qed.

End StartRules.

Section SampleStart.

#[local] Existing Instance zeroed.
#[local] Existing Instance sample_env.

(** The first of three servers starts again, with three entries in its log. *)
Definition sample_boot : boot (L := inmem_log_store) :=
  mk_boot 0 1 raft_params_default limits_default (Some srv_state_init)
    (store_of [1; 1; 2]) trio_config 0 0 false (trace_ (trio_server 1)).

Lemma constructor_restarts_witness :
  exists s', raft_server_new sample_boot = (Ok tt, s') /\
    restarted trio 1 (trio_server 1) s' /\ role_ s' = follower.
Proof.
  destruct (constructor_restarts trio sample_boot (trio_server 1) srv_state_init) as (s' & E & R & F & _).
  - exact (proj1 (store_of_ok [1; 1; 2] eq_refl)).
  - split; vm_compute; congruence.
  - reflexivity.
  - vm_compute. reflexivity.
  - reflexivity.
  - change (NoDup [1; 2; 3]). by apply (bool_decide_unpack _).
  - vm_compute. reflexivity.
  - repeat constructor.
  - reflexivity.
  - vm_compute. congruence.
  - exists s'. split; [exact E|]. split; [exact R|exact F].
Defined.

End SampleStart.
